(* ===== verification/_CoqProject ===== *)
-Q . S2P
Prelude.v
GoLib.v
GoFmt.v
GoTime.v
Utf8.v
Jcs.v
Contracts.v
Signing.v
KillSwitch.v
ScopedStop.v
Identity.v
Egress.v
Temporal.v
Trust.v
Prg.v
AuditLog.v
Breaker.v
Saga.v
Lease.v
Budget.v
Translog.v
SafeDep.v
Capability.v
PolicyScopes.v
Cpi.v
Reconcile.v
PolicyStore.v
PolicyTrust.v
Receipts.v
EvidencePack.v
McpFirewall.v
Executor.v
ProofGraph.v
Guardian.v
GuardianDemo.v
GuardianProps.v
GuardianGates.v
GuardianIntents.v
EndToEnd.v
GovernedPolicy.v
GovernedCapability.v
GovernedStop.v
SessionRisk.v
