(* ===== verification/Prelude.v ===== *)
(** * A verification library for the HELM execution kernel

    HELM puts a deterministic kernel between AI agents and the tools they call.
    An agent's request is judged by the Guardian, which answers with a signed
    decision record; for an ALLOW it issues a signed execution intent; the
    executor runs the effect only against both, and leaves a signed receipt that
    is chained, and anchored in a transparency log.  This library models that path
    and the components it rests on, all under [src/core/pkg], and proves what
    makes each of them correct.

    ** The program's parts and where they are

    - Prelude.v: Go results, the state-and-error monad [M], struct assignment, the
      hint databases and tactics.  GoLib.v, GoFmt.v, GoTime.v, Utf8.v: what the code
      uses of Go and its standard library (byte strings, time, 64-bit integers,
      binary64, number and time formats and the time parser, UTF-8 and UTF-16).
    - Jcs.v: RFC 8785 canonical JSON, [canonicalize/jcs.go].
    - Contracts.v: the wire contracts, [contracts/]: verdicts, dynamic values,
      taint, decisions, intents, effects and their digest, observed assumptions,
      threat evidence.
    - Signing.v: signing preimages and the Ed25519 signer, [crypto/canonical.go]
      and [crypto/signer.go].  Receipts.v: receipts, their preimages, signing and
      output artifacts.
    - KillSwitch.v: [kernel/freeze.go], [agent_kill.go], [context_guard.go]
      (Modules Freeze, AgentKill, ContextGuard).
    - Identity.v: [identity/isolation.go], [identity/delegation.go] (Modules
      Isolation, Delegation).  Egress.v: [firewall/egress.go],
      [firewall/firewall.go] (Modules Net, EgressChecker, PolicyFirewall).
    - Temporal.v: [guardian/temporal.go].  Trust.v: [trust/behavioral.go],
      [behavioral_scorer.go], [guardian/privilege.go].
    - Prg.v: the policy requirement graph and its CEL engine, [prg/], with
      [policycel/taint.go].
    - AuditLog.v: the hash-chained log of [guardian/audit.go].
    - Translog.v: the receipt transparency log, [translog/].
    - EvidencePack.v: evidence packs, [evidencepack/]: manifests, the builders, the
      Merkle tree over entries and inclusion proofs.
    - SafeDep.v: safe deprecation, [safedep/safedep.go] and
      [safedep/controller.go] (Modules Memory, Controller).
    - Capability.v: [capability/]: manifests, the hash-pinned registry, rollback
      plans, and task-bound tokens with their authority, store and verifier.
    - PolicyScopes.v, Cpi.v, Reconcile.v, PolicyStore.v, PolicyTrust.v: how policy
      gets into the kernel, [policy/reconcile/] and [kernel/cpi/cpi.go]: scopes, the
      validation of policy layers, the reconciler with its store interface and the
      in-memory store, the persistent store with its file, and the verifiers of
      policy heads and emergency capsules.
    - ScopedStop.v: scoped emergency stops, [kernel/scoped_stop.go] with the route
      of [cmd/helm-ai-kernel/emergency_stop_routes.go].
    - McpFirewall.v: the MCP boundary, [mcp/quarantine.go], [mcp/firewall.go] and
      [mcp/catalog.go], with its sealed records and counterfactual receipts.
    - Executor.v: [executor/executor.go].
    - ProofGraph.v: [proofgraph/] and [proofgraph/crdt/]: nodes, the graph, the
      memory store, condensation, the grow-only set and its gossip.
    - Budget.v: [budget/] (Modules Enforcer, Risk).  Breaker.v:
      [effects/circuitbreaker.go].  Saga.v: [saga/].  Lease.v: [lease/].
    - Guardian.v: [guardian/guardian.go], [interceptor.go], [capability.go],
      [zeroid.go], [assumption.go], [roster.go]: the entry gates, the interceptor
      chain, the policy graph, budget and signature of one decision, and the issue
      of intents.  GuardianDemo.v is a small deployment; GuardianProps.v,
      GuardianGates.v and GuardianIntents.v hold the theorems.  SessionRisk.v:
      [guardian/session_risk_memory.go].
    - EndToEnd.v: the Guardian and the executor together.  GovernedPolicy.v,
      GovernedCapability.v and GovernedStop.v: the Guardian with the reconciler,
      with the capability registry and with the scoped stops.

    ** How state and operations correspond to the code

    A struct is a record with the struct's fields, an operation a definition of
    the source's name; a method that mutates its receiver takes and returns it.
    Objects that several components reach through pointers live in one world
    record that the monad [M W] threads; an error keeps the changes made before
    it, as in Go.  Effects are a heap, because compensation pointers may share and
    cycle.  An error is its text.  A nil pointer is [None]; a nil dereference or an
    index panic is a failure of its own.  Locks make operations atomic, so a
    concurrent history is a list of operations; where the code releases a lock
    between two steps (the delegation nonce) the steps are separate and
    interleave.  A file is its contents with what a power loss may bring back, and
    the outcome of each write is an argument, so that theorems hold for every
    pattern of failures.

    Parameters stand for what is not in the repository or not readable there:
    SHA-256 ([Hash]), Ed25519 ([Ed25519], with its documented sign-then-verify
    law), the CEL compiler ([Cel]), clocks and random draws ([Runtime]),
    [math.Exp], the JSON Schema compiler, tool drivers, durable stores, and the
    policy decision point behind its interface.  No hypothesis is made about
    SHA-256 being injective: a theorem that needs it concludes with the
    alternative [collision], two different preimages of one digest.  Interfaces
    with laws are classes ([Signer]/[SignerLaws], [KeepsFields], [Cel],
    [SnapshotStore]/[SnapshotStoreLaws]); the Ed25519 signer discharges the first
    two, the in-memory and the persistent store the last, so the theorems on the
    reconciler hold for both.

    ** What the theorems show

    - The Guardian (GuardianProps, GuardianGates, GuardianIntents): every decision
      it returns is signed, bound to the request and canonical; an ALLOW has passed
      every gate, and the policy in force said yes to the request in that run; frozen, killed, fenced, unidentified or
      leaking requests are refused; an intent needs a verified current ALLOW for
      the very effect.
    - The executor (Executor, EndToEnd): at most one dispatch per run, only with
      full authority; success is exactly a dispatch with its receipt or the replay
      of one; intents the Guardian issues are accepted.
    - Policy (Cpi, Reconcile, PolicyStore, PolicyTrust, GovernedPolicy): only policy
      under a head the trusted key signed is ever in force, and behind every ALLOW;
      epochs never go back, across failed writes, restarts and power losses; a
      failure does not leave stale policy in force; layers are consistent exactly
      when none widens a higher one.
    - Cryptographic formats (Jcs, Contracts, Signing, Receipts): canonical bytes
      name values up to member order; signed preimages determine the signed fields;
      the hand-written writers agree with the canonical encoder; signatures verify.
    - Logs (AuditLog, Translog, ProofGraph): tamper evidence, completeness and soundness of
      inclusion and consistency proofs against the RFC 6962 tree hash, recovery of
      the journal; exact validation and traversal of the proof graph, convergence
      of its replicas.
    - Evidence (EvidencePack): every entry of a pack has a proof that verifies
      against the pack's root, an accepted proof names an entry of the pack, the
      root determines the entries, and a build lists exactly what was added.
    - Controls (KillSwitch, Identity, Egress, Temporal, Trust, Prg, SafeDep,
      SessionRisk):
      state machines refine the history of their receipts, single use and
      permanence of credentials, fail-closed filters, sustained-overload escalation,
      privilege caps, cache transparency, monotone continuity, quorums, separate
      sessions.
    - Emergency stops (ScopedStop, GovernedStop): acknowledged fences agree, stay in
      force across races and failing statements, and no request of their scope is
      allowed; the route acknowledges only signed commands, and refused ones leave
      the table alone.
    - The MCP boundary (McpFirewall): an ALLOW needs an approved server, tool, scopes
      and schema; no reachable registry approves one, so calls are dispatched only
      under an observe grant in force, and its receipts say so.
    - Capabilities (Capability, GovernedCapability): registries pin valid manifests,
      tokens are used within their grant and limit under concurrent use, and an
      ALLOW that names a capability is within it and takes a use of its token.
    - Resources (Budget, Breaker, Saga, Lease): the enforcer refines a ledger, and the
      documented contract while limits are set before a tenant spends; breakers keep their counters in range,
      trip, hold and recover; sagas compensate in reverse; leases follow their life
      cycle.
    - A few theorems record what the code does not guarantee although its comments
      suggest it: the non-atomic nonce check, the unsigned input context the
      safe-deprecation request is read from, a failed journal sync, self-asserted
      emergency authority, an attestation compared with itself, a watermark trusted
      before it is durable, half-open breakers that never close, limits that are
      not updated, a session's risk replaced by the history a request brings.

    ** Fuel

    [effectDigestBindingFromEffect] follows compensation pointers with
    [digest_fuel] (the size of the heap plus two) calls, enough because every call
    visits a new effect or stops; [effect_digest_total] shows the fuel is never
    exhausted.  The recursive tree functions of Translog.v take fuel from the
    interval they split, the level loops of EvidencePack.v one round per node; the
    proof-building theorems show they return.  The walks of
    ProofGraph.v have fuel for every node of the store ([walk_fuel], [chain_fuel]);
    [validate_chain_exact] and [get_chain_exact] show it is enough on any graph.  The
    other recursions are structural.

    ** Not modelled

    EvaluateOutput, option setters and telemetry of the Guardian; SQL and file
    stores other than the transparency journal and the policy watermarks; the
    mounted-file and HTTP policy sources; threat scanning; tar archives; JSON
    decoding; policy decision point adapters; command line,
    servers, SDKs and generated clients.
    They are input and output, services, or parameters of the components above.
    Letters outside ASCII are left unchanged by the model of [strings.ToLower],
    [ToUpper] and [EqualFold]. *)
From stdpp Require Export base decidable option list gmap strings fin_maps.
From Stdlib Require Export ZArith Lia Bool.

(** * Results: a Go function that returns [(T, error)] *)

(** An [error] value is represented by its text, [err.Error()]. *)
Abbreviation error := string.

Inductive res (A : Type) : Type :=
| Ok (a : A)
| Fail (e : error).
Arguments Ok {A} a.
Arguments Fail {A} e.

#[export] Instance res_eq_dec {A} `{EqDecision A} : EqDecision (res A).
Proof. solve_decision. Defined.

Lemma Ok_inj {A} (a b : A) : Ok a = Ok b -> a = b.
Proof. by intros [= ->]. Qed.

Definition is_ok {A} (r : res A) : bool :=
  match r with Ok _ => true | Fail _ => false end.

#[export] Instance res_ret : MRet res := fun A a => Ok a.
#[export] Instance res_bind : MBind res := fun A B f r =>
  match r with Ok a => f a | Fail e => Fail e end.

(** [fmt.Errorf("prefix: %w", err)] *)
Definition wrap_err {A} (prefix : string) (r : res A) : res A :=
  match r with Ok a => Ok a | Fail e => Fail (String.append prefix e) end.

Lemma res_bind_Ok {A B} (r : res A) (f : A -> res B) b :
  (r ≫= f) = Ok b <-> exists a, r = Ok a /\ f a = Ok b.
Proof. destruct r; cbn; naive_solver. Qed.

Lemma wrap_err_Ok {A} p (r : res A) a : wrap_err p r = Ok a <-> r = Ok a.
Proof. destruct r; cbn; naive_solver. Qed.

(** * Stateful code that may return an error

    [M W A] threads a state [W] (the mutable objects the code reaches through
    pointers) and returns either a value or an error; the state changes made
    before an error are kept, as they are in Go. *)
Definition M (W A : Type) : Type := W -> W * res A.

#[export] Instance M_ret {W} : MRet (M W) := fun A a w => (w, Ok a).
#[export] Instance M_bind {W} : MBind (M W) := fun A B f c w =>
  match c w with
  | (w', Ok a) => f a w'
  | (w', Fail e) => (w', Fail e)
  end.

Definition get {W} : M W W := fun w => (w, Ok w).
Definition gets {W A} (f : W -> A) : M W A := fun w => (w, Ok (f w)).
Definition modify {W} (f : W -> W) : M W unit := fun w => (f w, Ok tt).
Definition lift {W A} (r : res A) : M W A := fun w => (w, r).
Definition fail {W A} (e : error) : M W A := fun w => (w, Fail e).

(** The outcome of a call whose error the caller inspects instead of
    propagating ([v, err := f()]). *)
Definition attempt {W A} (c : M W A) : M W (res A) := fun w =>
  let '(w', r) := c w in (w', Ok r).

Definition wrapM {W A} (prefix : string) (c : M W A) : M W A := fun w =>
  let '(w', r) := c w in (w', wrap_err prefix r).

Lemma M_bind_Ok {W A B} (c : M W A) (f : A -> M W B) w w' b :
  (c ≫= f) w = (w', Ok b) <->
  exists w1 a, c w = (w1, Ok a) /\ f a w1 = (w', Ok b).
Proof.
  unfold mbind, M_bind. destruct (c w) as [w1 [a|e]]; split; intros H.
  - eauto.
  - destruct H as (?&?&[= -> ->]&?); done.
  - done.
  - destruct H as (?&?&[=]&?).
Qed.

(** Every outcome of a bind: the error of its first part, or its second part. *)
Lemma M_bind_cases {W A B} (c : M W A) (f : A -> M W B) w w' r :
  (c ≫= f) w = (w', r) ->
  (exists e, c w = (w', Fail e) /\ r = Fail e) \/
  exists w1 a, c w = (w1, Ok a) /\ f a w1 = (w', r).
Proof.
  unfold mbind, M_bind. destruct (c w) as [w1 [a|e]]; intros E; [right; eauto|].
  left. exists e. by injection E as <- <-.
Qed.

Lemma lift_Ok {W A} (r : res A) (w w' : W) a : lift r w = (w', Ok a) -> r = Ok a /\ w' = w.
Proof. by intros [= <- ->]. Qed.

Lemma wrapM_cases {W A} p (c : M W A) w w' r :
  wrapM p c w = (w', r) -> exists r0, c w = (w', r0) /\ r = wrap_err p r0.
Proof. unfold wrapM. destruct (c w) as [w1 r1]. intros [= <- <-]. eauto. Qed.

Lemma wrapM_Ok {W A} p (c : M W A) w w' a :
  wrapM p c w = (w', Ok a) <-> c w = (w', Ok a).
Proof.
  unfold wrapM. destruct (c w) as [w1 [x|e]]; cbn; naive_solver.
Qed.

Lemma attempt_eq {W A} (c : M W A) w w' r :
  attempt c w = (w', r) <-> exists r0, c w = (w', r0) /\ r = Ok r0.
Proof. unfold attempt. destruct (c w) as [w1 r1]. naive_solver. Qed.

(** * Development-wide proof automation *)

Create HintDb helm.

(** Case analysis on the scrutinee of the first [match]/[if] of a hypothesis. *)
Ltac case_in H :=
  match type of H with
  | context [ match ?x with _ => _ end ] =>
      lazymatch x with
      | context [ match _ with _ => _ end ] => fail
      | _ => destruct x eqn:?
      end
  end.

Ltac case_goal :=
  match goal with
  | |- context [ match ?x with _ => _ end ] =>
      lazymatch x with
      | context [ match _ with _ => _ end ] => fail
      | _ => destruct x eqn:?
      end
  end.

(** Turns boolean equations into propositions. *)
Ltac boolean :=
  repeat match goal with
  | H : _ && _ = true |- _ => apply andb_true_iff in H as [??]
  | H : _ || _ = false |- _ => apply orb_false_iff in H as [??]
  | H : negb _ = true |- _ => apply negb_true_iff in H
  | H : negb _ = false |- _ => apply negb_false_iff in H
  | H : bool_decide _ = true |- _ => apply bool_decide_eq_true in H
  | H : bool_decide _ = false |- _ => apply bool_decide_eq_false in H
  | H : String.eqb _ _ = true |- _ => apply String.eqb_eq in H
  | H : String.eqb _ _ = false |- _ => apply String.eqb_neq in H
  end.

(** Runs a monadic hypothesis [c w = (w', r)] one bind at a time. *)
Ltac run_step H :=
  lazymatch type of H with
  | (_ ≫= _) _ = (_, Ok _) =>
      apply M_bind_Ok in H; destruct H as (?&?&?&H)
  | wrapM _ _ _ = (_, Ok _) => apply wrapM_Ok in H
  end.

(** Two texts up to the first separator. *)
Lemma app_sep_inj {A} (P : A -> bool) c t u r s :
  forallb P t = true -> forallb P u = true -> P c = false ->
  (t ++ c :: r = u ++ c :: s)%list -> t = u /\ r = s.
Proof.
  intros Ht Hu Hc. revert u Hu. induction t as [|a t IH]; intros [|b u] Hu E; cbn in *; boolean.
  - by injection E as <-.
  - injection E as <- _. congruence.
  - injection E as -> _. congruence.
  - injection E as -> E. by destruct (IH ltac:(done) u ltac:(done) E) as [-> ->].
Qed.

(** A key names one value. *)
Lemma NoDup_fst_inj {A} (l : list (string * A)) k a b :
  NoDup l.*1 -> (k, a) ∈ l -> (k, b) ∈ l -> a = b.
Proof.
  induction l as [|[k0 c] l IH]; [by intros _ ?%not_elem_of_nil|]. cbn. intros [Hk Hnd]%NoDup_cons.
  rewrite !elem_of_cons. intros [Ha|Ha] [Hb|Hb].
  - by simplify_eq.
  - simplify_eq. destruct Hk. apply list_elem_of_fmap. by exists (k0, b).
  - simplify_eq. destruct Hk. apply list_elem_of_fmap. by exists (k0, a).
  - by apply IH.
Qed.

(** * Field assignment on structs: [r <| field := v |>]

    A record opts in by an [Eta] instance, the identity written as the
    constructor applied to every projection; the assignment to a projection is
    found by abstracting that projection in it. *)
Class Eta (R : Type) := eta : R -> R.
Class Setter {R T : Type} (proj : R -> T) := assign : (R -> T) -> R -> R.

Ltac find_setter proj :=
  lazymatch type of proj with
  | ?R -> ?T =>
      let e := constr:(_ : Eta R) in
      let e := (lazymatch e with
                | ?x => let y := eval hnf in x in y
                end) in
      lazymatch eval pattern proj in e with
      | ?abs _ => exact abs
      end
  end.
#[export] Hint Extern 1 (Setter ?proj) => (find_setter proj) : typeclass_instances.

Declare Scope struct_scope.
Delimit Scope struct_scope with struct.
Notation "r '<|' p := v '|>'" := (assign (proj := p) (fun _ => v) r)
  (at level 1, left associativity, p at level 0, format "r  '<|'  p  :=  v  '|>'")
  : struct_scope.
Open Scope struct_scope.


(** * Lists *)

Lemma list_last_snoc {A} (l : list A) x : last (l ++ [x]) = Some x.
Proof. apply last_snoc. Qed.

Lemma forallb_Forall {A} (f : A -> bool) (l : list A) :
  forallb f l = true <-> Forall (fun x => f x = true) l.
Proof. rewrite forallb_forall, Forall_forall. by setoid_rewrite list_elem_of_In. Qed.

Lemma existsb_Exists {A} (f : A -> bool) (l : list A) :
  existsb f l = true <-> Exists (fun x => f x = true) l.
Proof. rewrite existsb_exists, Exists_exists. by setoid_rewrite list_elem_of_In. Qed.

(** A map used as a Go [map[string]bool] set: absent keys read as [false]. *)
Definition set_mem {K} `{Countable K} (m : gmap K bool) (k : K) : bool :=
  default false (m !! k).

Lemma set_mem_insert {K} `{Countable K} (m : gmap K bool) k k' :
  set_mem (<[k := true]> m) k' = bool_decide (k = k') || set_mem m k'.
Proof.
  unfold set_mem. destruct (decide (k = k')) as [->|Hne].
  - rewrite lookup_insert_eq, bool_decide_true by done. done.
  - rewrite lookup_insert_ne, bool_decide_false by done. done.
Qed.

(** Building such a set from a slice, as the constructors do. *)
Definition set_of_list {K} `{Countable K} (l : list K) : gmap K bool :=
  foldl (fun m k => <[k := true]> m) ∅ l.

Lemma set_mem_foldl {K} `{Countable K} (l : list K) (m : gmap K bool) k :
  set_mem (foldl (fun m k => <[k := true]> m) m l) k = true <->
  k ∈ l \/ set_mem m k = true.
Proof.
  revert m. induction l as [|x l IH]; intros m; cbn.
  - set_solver.
  - rewrite IH, set_mem_insert, orb_true_iff, bool_decide_eq_true. set_solver.
Qed.

Lemma set_mem_of_list {K} `{Countable K} (l : list K) k :
  set_mem (set_of_list l) k = true <-> k ∈ l.
Proof.
  unfold set_of_list. rewrite set_mem_foldl.
  unfold set_mem. rewrite lookup_empty. naive_solver.
Qed.

#[export] Hint Resolve set_mem_of_list : helm.
