(* ===== verification/GoLib.v ===== *)
(** The parts of Go and of its standard library that the kernel's code uses:
    byte strings ([strings.TrimSpace], [ToLower], [FieldsFunc], [%q], [%d]),
    [time.Time] and [time.Duration] on 64-bit integers, and IEEE 754 doubles
    ([float64] is [SpecFloat]'s binary64).

    A Go [string] is a Coq [string], a list of bytes.  [to_lower] maps ASCII
    letters only; Go also applies the Unicode case tables to letters outside
    ASCII, which the model leaves unchanged. *)
From Stdlib Require Import SpecFloat Ascii DecimalString DecimalZ DecimalFacts Decimal.

From S2P Require Import Prelude.

Local Open Scope string_scope.

(** * Bytes and strings *)

Abbreviation bytes := (list ascii).

Definition to_bytes (s : string) : bytes := String.list_ascii_of_string s.
Definition of_bytes (l : bytes) : string := String.string_of_list_ascii l.

Lemma of_to_bytes s : of_bytes (to_bytes s) = s.
Proof. apply String.string_of_list_ascii_of_string. Qed.
Lemma to_of_bytes l : to_bytes (of_bytes l) = l.
Proof. apply String.list_ascii_of_string_of_list_ascii. Qed.

Lemma to_bytes_app s t : to_bytes (s +:+ t) = (to_bytes s ++ to_bytes t)%list.
Proof. unfold to_bytes. induction s as [|c s IH]; cbn; [done|]. by rewrite <-IH. Qed.

Lemma of_bytes_inj l k : of_bytes l = of_bytes k -> l = k.
Proof. intros H. by rewrite <-(to_of_bytes l), <-(to_of_bytes k), H. Qed.
Lemma to_bytes_inj s t : to_bytes s = to_bytes t -> s = t.
Proof. intros H. by rewrite <-(of_to_bytes s), <-(of_to_bytes t), H. Qed.

#[export] Hint Rewrite to_bytes_app to_of_bytes of_to_bytes : helm.

(** ** [strings.TrimSpace] *)

(** The UTF-8 encodings of the code points of [unicode.IsSpace]. *)
Definition byte (n : nat) : ascii := ascii_of_nat n.

Definition space_seqs : list bytes :=
  (map (fun n => [byte n]) [9; 10; 11; 12; 13; 32] ++
   map (fun n => [byte 194; byte n]) [133; 160] ++
   [[byte 225; byte 154; byte 128]] ++
   map (fun n => [byte 226; byte 128; byte n])
     [128; 129; 130; 131; 132; 133; 134; 135; 136; 137; 138; 168; 169; 175] ++
   [[byte 226; byte 129; byte 159]; [byte 227; byte 128; byte 128]])%list%nat.

Fixpoint strip_prefix (p l : bytes) : option bytes :=
  match p, l with
  | [], _ => Some l
  | x :: p', y :: l' => if Ascii.eqb x y then strip_prefix p' l' else None
  | _ :: _, [] => None
  end.

Fixpoint strip_first (ps : list bytes) (l : bytes) : option bytes :=
  match ps with
  | [] => None
  | p :: ps' => match strip_prefix p l with Some l' => Some l' | None => strip_first ps' l end
  end.

Fixpoint trim_left_fuel (ps : list bytes) (n : nat) (l : bytes) : bytes :=
  match n with
  | O => l
  | S n' => match strip_first ps l with
            | Some l' => trim_left_fuel ps n' l'
            | None => l
            end
  end.

Definition trim_left (ps : list bytes) (l : bytes) : bytes := trim_left_fuel ps (length l) l.

Definition trim_bytes (l : bytes) : bytes :=
  rev (trim_left (map (@rev ascii) space_seqs) (rev (trim_left space_seqs l))).

Definition trim_space (s : string) : string := of_bytes (trim_bytes (to_bytes s)).

(** [strings.TrimSpace(s) == ""] *)
Definition blank (s : string) : bool := String.eqb (trim_space s) "".

Section Trim.
Context (ps : list bytes) (Hne : Forall (fun p => p <> []) ps).

Lemma strip_prefix_app p l r : strip_prefix p l = Some r -> l = (p ++ r)%list.
Proof.
  revert l. induction p as [|x p IH]; intros [|y l] H; cbn in *; try congruence.
  destruct (Ascii.eqb x y) eqn:E; [|done].
  apply Ascii.eqb_eq in E as ->. by rewrite (IH _ H).
Qed.

Lemma strip_prefix_of_app p r : strip_prefix p (p ++ r)%list = Some r.
Proof. induction p as [|x p IH]; cbn; [done|]. by rewrite Ascii.eqb_refl. Qed.

Lemma strip_first_Some l r :
  strip_first ps l = Some r -> exists p, p ∈ ps /\ l = (p ++ r)%list.
Proof.
  clear Hne. induction ps as [|p qs IH]; cbn; [done|]. intros H.
  destruct (strip_prefix p l) eqn:E.
  - apply strip_prefix_app in E. exists p. split; [set_solver|]. by simplify_eq.
  - destruct (IH H) as (q&?&?). exists q. set_solver.
Qed.

Lemma strip_first_None l :
  strip_first ps l = None <-> (forall p r, p ∈ ps -> l <> (p ++ r)%list).
Proof.
  clear Hne. induction ps as [|p qs IH]; cbn; [set_solver|]. split.
  - intros H. destruct (strip_prefix p l) eqn:E; [done|].
    rewrite IH in H. intros q r [->|Hq]%elem_of_cons ->.
    + by rewrite strip_prefix_of_app in E.
    + by eapply H.
  - intros H. destruct (strip_prefix p l) eqn:E.
    + apply strip_prefix_app in E. exfalso. by eapply H; [left|].
    + apply IH. intros q r Hq. apply H. by right.
Qed.

Lemma trim_left_fuel_spec n l :
  (length l <= n)%nat -> strip_first ps (trim_left_fuel ps n l) = None.
Proof.
  revert l. induction n as [|n IH]; intros l Hl; cbn.
  - destruct l; cbn in Hl; [|lia].
    destruct (strip_first ps []) eqn:E; [|done].
    apply strip_first_Some in E as (p&Hp&E).
    rewrite Forall_forall in Hne. specialize (Hne p Hp). by destruct p.
  - destruct (strip_first ps l) as [l'|] eqn:E; [|done].
    apply IH. apply strip_first_Some in E as (p&Hp&->).
    rewrite Forall_forall in Hne. specialize (Hne p Hp).
    destruct p; [done|]. rewrite length_app in Hl. cbn in Hl. lia.
Qed.

Lemma trim_left_suffix l : exists p, l = (p ++ trim_left ps l)%list.
Proof.
  unfold trim_left. generalize (length l) at 1. intros n. revert l.
  induction n as [|n IH]; intros l; cbn; [by exists []|].
  destruct (strip_first ps l) as [l'|] eqn:E; [|by exists []].
  apply strip_first_Some in E as (p&_&->). destruct (IH l') as [q Hq].
  exists (p ++ q)%list. rewrite Hq at 1. by rewrite app_assoc.
Qed.

(** Trimming removes a sequence of the patterns. *)
Lemma trim_left_removed l :
  exists ss, Forall (fun p => p ∈ ps) ss /\ l = (concat ss ++ trim_left ps l)%list.
Proof.
  unfold trim_left. generalize (length l) at 1. intros n. revert l.
  induction n as [|n IH]; intros l; cbn; [by exists []|].
  destruct (strip_first ps l) as [l'|] eqn:E; [|by exists []].
  apply strip_first_Some in E as (p&Hp&->). destruct (IH l') as (ss&Hss&Hl).
  exists (p :: ss). split; [by constructor|]. cbn. rewrite <-app_assoc. by f_equal.
Qed.

Lemma trim_left_clean l : strip_first ps (trim_left ps l) = None.
Proof. apply trim_left_fuel_spec. lia. Qed.

Lemma trim_left_id l : strip_first ps l = None -> trim_left ps l = l.
Proof.
  unfold trim_left. intros H. destruct (length l); cbn; [done|]. by rewrite H.
Qed.
End Trim.

Lemma space_seqs_nonempty : Forall (fun p => p <> []) space_seqs.
Proof. by repeat constructor. Qed.
Lemma rev_seqs_nonempty : Forall (fun p => p <> []) (map (@rev ascii) space_seqs).
Proof. by repeat constructor. Qed.
#[export] Hint Resolve space_seqs_nonempty rev_seqs_nonempty : helm.

Lemma trim_bytes_prefix l :
  exists q, trim_left space_seqs l = (trim_bytes l ++ q)%list.
Proof.
  destruct (trim_left_suffix (map (@rev ascii) space_seqs) (rev (trim_left space_seqs l)))
    as [p Hp].
  exists (rev p). unfold trim_bytes.
  rewrite <-rev_app_distr, <-Hp. by rewrite rev_involutive.
Qed.

Lemma trim_bytes_idemp l : trim_bytes (trim_bytes l) = trim_bytes l.
Proof.
  assert (Hleft : trim_left space_seqs (trim_bytes l) = trim_bytes l).
  { apply trim_left_id, strip_first_None. intros p r Hp E.
    destruct (trim_bytes_prefix l) as [q Hq].
    pose proof (trim_left_clean space_seqs space_seqs_nonempty l) as Hc.
    rewrite strip_first_None in Hc. apply (Hc p (r ++ q)%list Hp).
    rewrite Hq, E. by rewrite app_assoc. }
  unfold trim_bytes at 1. rewrite Hleft.
  rewrite trim_left_id; [by rewrite rev_involutive|].
  unfold trim_bytes. rewrite rev_involutive. apply trim_left_clean, rev_seqs_nonempty.
Qed.

Lemma trim_space_idemp s : trim_space (trim_space s) = trim_space s.
Proof. unfold trim_space. by rewrite to_of_bytes, trim_bytes_idemp. Qed.

(** A byte that occurs in no space sequence is never trimmed. *)
Definition space_byte (c : ascii) : bool := existsb (existsb (Ascii.eqb c)) space_seqs.

Lemma concat_bytes (ss ps : list bytes) :
  Forall (fun p => p ∈ ps) ss -> Forall (fun c => exists p, p ∈ ps /\ c ∈ p) (concat ss).
Proof.
  induction 1 as [|p ss Hp Hss IH]; cbn; [constructor|]. apply Forall_app. split; [|done].
  apply Forall_forall. eauto.
Qed.

Lemma space_byte_in p c : p ∈ space_seqs -> c ∈ p -> space_byte c = true.
Proof.
  intros Hp Hc. apply existsb_Exists, Exists_exists. exists p. split; [done|].
  apply existsb_Exists, Exists_exists. exists c. by rewrite Ascii.eqb_refl.
Qed.

Lemma blank_bytes s : blank s = true -> Forall (fun c => space_byte c = true) (to_bytes s).
Proof.
  unfold blank, trim_space. intros E%String.eqb_eq.
  apply (f_equal to_bytes) in E. rewrite to_of_bytes in E. unfold trim_bytes in E.
  apply (f_equal (@rev ascii)) in E. rewrite rev_involutive in E. change (rev (to_bytes "")) with (@nil ascii) in E.
  destruct (trim_left_removed space_seqs (to_bytes s)) as (ss&Hss&Hl).
  destruct (trim_left_removed (map (@rev ascii) space_seqs)
              (rev (trim_left space_seqs (to_bytes s)))) as (qs&Hqs&Hq).
  rewrite E in Hq.
  rewrite app_nil_r in Hq. apply (f_equal (@rev ascii)) in Hq. rewrite rev_involutive in Hq.
  rewrite Hl, Hq. apply Forall_app.
  split.
  - eapply Forall_impl; [by apply concat_bytes|]. intros c (p&Hp&Hc). by eapply space_byte_in.
  - apply Forall_rev. eapply Forall_impl; [by apply concat_bytes|]. intros c (p&Hp&Hc).
    apply list_elem_of_fmap in Hp as (p'&->&Hp'). eapply space_byte_in; [done|].
    apply list_elem_of_In, in_rev. by apply list_elem_of_In.
Qed.

(** Text that begins with an ordinary byte is not blank. *)
Lemma not_blank_head c s : space_byte c = false -> blank (String c s) = false.
Proof.
  intros Hc. apply not_true_iff_false. intros H%blank_bytes.
  change (to_bytes (String c s)) with (c :: to_bytes s) in H.
  apply Forall_cons in H as [H _]. congruence.
Qed.

(** Text without such bytes is not trimmed. *)
Lemma strip_first_plain ps l :
  Forall (fun p => p <> []) ps -> (forall p c, p ∈ ps -> c ∈ p -> space_byte c = true) ->
  Forall (fun c => space_byte c = false) l -> strip_first ps l = None.
Proof.
  intros Hne Hsp Hl. apply strip_first_None. intros [|c p] r Hp ->.
  - rewrite Forall_forall in Hne. by apply (Hne [] Hp).
  - inversion Hl as [|? ? Hc]; subst. rewrite (Hsp _ c Hp) in Hc by left. discriminate.
Qed.

Lemma trim_space_plain s :
  Forall (fun c => space_byte c = false) (to_bytes s) -> trim_space s = s.
Proof.
  intros Hs. unfold trim_space, trim_bytes.
  rewrite (trim_left_id space_seqs (to_bytes s)) by (apply strip_first_plain; [apply space_seqs_nonempty|apply space_byte_in|done]).
  rewrite trim_left_id, rev_involutive; [apply of_to_bytes|].
  apply strip_first_plain; [apply rev_seqs_nonempty| |by apply Forall_rev].
  intros p c (p'&->&Hp')%list_elem_of_fmap Hc. apply (space_byte_in p'); [done|].
  apply list_elem_of_In, in_rev. by apply list_elem_of_In.
Qed.

(** ** Case folding and searching *)

Definition lower_ascii (c : ascii) : ascii :=
  let n := nat_of_ascii c in
  if ((65 <=? n) && (n <=? 90))%nat then ascii_of_nat (n + 32) else c.

Definition to_lower (s : string) : string := of_bytes (map lower_ascii (to_bytes s)).

Lemma lower_ascii_idemp c : lower_ascii (lower_ascii c) = lower_ascii c.
Proof. destruct c as [[] [] [] [] [] [] [] []]; reflexivity. Qed.

Lemma to_lower_idemp s : to_lower (to_lower s) = to_lower s.
Proof.
  unfold to_lower. rewrite to_of_bytes, map_map. f_equal.
  apply map_ext, lower_ascii_idemp.
Qed.

(** Lowering keeps the bytes of the space sequences, so it commutes with
    trimming. *)
Definition inert (c : ascii) : Prop :=
  lower_ascii c = c /\ forall d, lower_ascii d = c -> d = c.

Lemma space_bytes_inert : Forall (Forall inert) space_seqs.
Proof.
  assert (H : forall c, (forall d, Ascii.eqb (lower_ascii d) c = Ascii.eqb d c) -> inert c).
  { intros c Hc. split.
    - apply Ascii.eqb_eq. rewrite Hc. apply Ascii.eqb_refl.
    - intros d Hd. apply Ascii.eqb_eq. rewrite <-Hc. by apply Ascii.eqb_eq. }
  unfold space_seqs. cbn [map app].
  repeat constructor; apply H; intros [[] [] [] [] [] [] [] []]; vm_compute; reflexivity.
Qed.

Lemma strip_prefix_lower p l :
  Forall inert p ->
  strip_prefix p (map lower_ascii l) = map lower_ascii <$> strip_prefix p l.
Proof.
  intros Hp. revert l. induction Hp as [|x p [Hx1 Hx2] Hp IH]; intros [|y l]; cbn; try done.
  destruct (Ascii.eqb x y) eqn:E.
  - apply Ascii.eqb_eq in E as <-. by rewrite Hx1, Ascii.eqb_refl, IH.
  - destruct (Ascii.eqb x (lower_ascii y)) eqn:E'; [|done].
    apply Ascii.eqb_eq in E'. symmetry in E'. apply Hx2 in E' as ->.
    by rewrite Ascii.eqb_refl in E.
Qed.

Lemma strip_first_lower ps l :
  Forall (Forall inert) ps ->
  strip_first ps (map lower_ascii l) = map lower_ascii <$> strip_first ps l.
Proof.
  intros Hps. induction Hps as [|p ps Hp Hps IH]; cbn; [done|].
  rewrite strip_prefix_lower by done.
  destruct (strip_prefix p l); cbn; [done|]. apply IH.
Qed.

Lemma trim_left_lower ps l :
  Forall (Forall inert) ps ->
  trim_left ps (map lower_ascii l) = map lower_ascii (trim_left ps l).
Proof.
  intros Hps. unfold trim_left. rewrite length_map. generalize (length l).
  intros n. revert l. induction n as [|n IH]; intros l; cbn; [done|].
  rewrite strip_first_lower by done.
  destruct (strip_first ps l); cbn; [apply IH|done].
Qed.

Lemma trim_bytes_lower l : trim_bytes (map lower_ascii l) = map lower_ascii (trim_bytes l).
Proof.
  unfold trim_bytes. rewrite trim_left_lower by apply space_bytes_inert.
  rewrite <-map_rev, trim_left_lower, map_rev; [done|].
  pose proof space_bytes_inert as H. apply Forall_map.
  eapply Forall_impl; [exact H|]. intros p Hp. cbn. by apply Forall_rev.
Qed.

Lemma trim_space_lower s : trim_space (to_lower s) = to_lower (trim_space s).
Proof. unfold trim_space, to_lower. by rewrite !to_of_bytes, trim_bytes_lower. Qed.

#[export] Hint Rewrite to_lower_idemp trim_space_idemp trim_space_lower : helm.

(** ** Searching and formatting *)

(** [strings.HasPrefix], [strings.HasSuffix], [strings.Contains] *)
Definition has_prefix (s p : string) : bool := String.prefix p s.
Definition has_suffix (s p : string) : bool :=
  match strip_prefix (rev (to_bytes p)) (rev (to_bytes s)) with Some _ => true | None => false end.
Fixpoint contains (s sub : string) : bool :=
  String.prefix sub s || match s with EmptyString => false | String _ s' => contains s' sub end.

(** [strings.TrimPrefix] *)
Definition trim_prefix (s p : string) : string :=
  match strip_prefix (to_bytes p) (to_bytes s) with Some r => of_bytes r | None => s end.

(** [strings.FieldsFunc] with a predicate on ASCII separators. *)
Fixpoint fields_aux (sep : ascii -> bool) (cur : bytes) (l : bytes) : list string :=
  match l with
  | [] => match cur with [] => [] | _ => [of_bytes (rev cur)] end
  | c :: l' =>
      if sep c
      then match cur with [] => fields_aux sep [] l' | _ => of_bytes (rev cur) :: fields_aux sep [] l' end
      else fields_aux sep (c :: cur) l'
  end.
Definition fields_func (sep : ascii -> bool) (s : string) : list string :=
  fields_aux sep [] (to_bytes s).

(** [strings.Join] *)
Definition join (sep : string) (l : list string) : string := String.concat sep l.

(** [%d] and [strconv.ParseInt(s, 10, 64)] *)
Definition dec (z : Z) : string := NilZero.string_of_int (Z.to_int z).

(** Decimals are distinct. *)
Lemma dec_inj m n : dec m = dec n -> m = n.
Proof.
  assert (D : forall z, NilZero.int_of_string (dec z) = Some (Z.to_int z)).
  { intros z. unfold dec. apply NilZero.isi; destruct z; cbn; try done; intros [= E];
      by apply DecimalPos.Unsigned.to_uint_nonnil in E. }
  intros E. apply (f_equal NilZero.int_of_string) in E. rewrite !D in E. injection E as E.
  rewrite <-(DecimalZ.of_to m), <-(DecimalZ.of_to n). by rewrite E.
Qed.

Definition int64_min : Z := (-9223372036854775808)%Z.
Definition int64_max : Z := 9223372036854775807%Z.
Definition in_int64 (z : Z) : bool := ((int64_min <=? z) && (z <=? int64_max))%Z.

Definition parse_int64 (s : string) : option Z :=
  match (match s with
         | String "+" r => Pos <$> NilZero.uint_of_string r
         | _ => NilZero.int_of_string s
         end) with
  | Some d => let z := Z.of_int d in if in_int64 z then Some z else None
  | None => None
  end.

(** [%q].  Text outside ASCII is kept as it is; [%q] appears in error texts
    only. *)
Definition hexd (n : nat) : ascii :=
  ascii_of_nat (if (n <? 10)%nat then 48 + n else 87 + n).
Definition goq_byte (c : ascii) : bytes :=
  let n := nat_of_ascii c in
  match n with
  | 34 => [byte 92; byte 34] | 92 => [byte 92; byte 92]
  | 7 => [byte 92; "a"%char] | 8 => [byte 92; "b"%char] | 9 => [byte 92; "t"%char]
  | 10 => [byte 92; "n"%char] | 11 => [byte 92; "v"%char] | 12 => [byte 92; "f"%char]
  | 13 => [byte 92; "r"%char]
  | _ => if ((n <? 32) || (n =? 127))%nat
         then [byte 92; "x"%char; hexd (n / 16); hexd (n mod 16)] else [c]
  end%nat.
Definition goq (s : string) : string :=
  of_bytes ((byte 34 :: flat_map goq_byte (to_bytes s) ++ [byte 34])%nat%list).

(** [hex.EncodeToString] *)
Definition hex_byte (c : ascii) : bytes :=
  let n := nat_of_ascii c in [hexd (n / 16); hexd (n mod 16)]%nat.
Definition hex_encode (l : bytes) : string := of_bytes (flat_map hex_byte l).

(** [hex.DecodeString]; [None] stands for its error. *)
Definition hexval (c : ascii) : option nat :=
  let n := nat_of_ascii c in
  if ((48 <=? n) && (n <=? 57))%nat then Some (n - 48)%nat
  else if ((97 <=? n) && (n <=? 102))%nat then Some (n - 87)%nat
  else if ((65 <=? n) && (n <=? 70))%nat then Some (n - 55)%nat
  else None.
Fixpoint unhex (l : bytes) : option bytes :=
  match l with
  | [] => Some []
  | [_] => None
  | x :: y :: l' =>
      h ← hexval x; d ← hexval y; r ← unhex l'; Some (ascii_of_nat (h * 16 + d) :: r)
  end.
Definition hex_decode (s : string) : option bytes := unhex (to_bytes s).

Lemma unhex_byte c l : unhex (hex_byte c ++ l) = (r ← unhex l; Some (c :: r)).
Proof. by destruct c as [[] [] [] [] [] [] [] []]. Qed.

Lemma hex_decode_encode l : hex_decode (hex_encode l) = Some l.
Proof.
  unfold hex_decode, hex_encode. rewrite to_of_bytes.
  induction l as [|c l IH]; [done|].
  cbn [flat_map]. rewrite unhex_byte. by rewrite IH.
Qed.

Lemma hex_encode_inj l k : hex_encode l = hex_encode k -> l = k.
Proof.
  intros E. apply (f_equal hex_decode) in E. rewrite !hex_decode_encode in E. congruence.
Qed.

(** * Machine integers, time and durations *)

Local Open Scope Z_scope.

(** Two's-complement wrap-around of a 64-bit signed integer. *)
Definition wrap64 (z : Z) : Z := (z - int64_min) mod 18446744073709551616 + int64_min.

Lemma wrap64_id z : in_int64 z = true -> wrap64 z = z.
Proof.
  unfold in_int64, wrap64, int64_min, int64_max. intros H.
  apply andb_true_iff in H. rewrite Z.mod_small; lia.
Qed.

(** A [time.Time] is its instant in nanoseconds since the Unix epoch; the zero
    [Time] is January 1, year 1, 00:00:00 UTC.  Instants are unbounded
    integers: [time.Time] spans more than 292 billion years. *)
Abbreviation time := Z.
Definition zero_time : time := -62135596800 * 1000000000.
Definition is_zero (t : time) : bool := t =? zero_time.

(** A [time.Duration] is a 64-bit count of nanoseconds.  [Time.Sub] saturates;
    [Time.Add] moves the instant by the (already 64-bit) duration. *)
Abbreviation duration := Z.
Definition nanosecond : duration := 1.
Definition millisecond : duration := 1000000.
Definition second : duration := 1000000000.
Definition minute : duration := 60 * second.
Definition hour : duration := 60 * minute.

Definition time_sub (t u : time) : duration :=
  Z.max int64_min (Z.min int64_max (t - u)).
Definition time_add (t : time) (d : duration) : time := t + d.
Definition before (t u : time) : bool := t <? u.
Definition after (t u : time) : bool := u <? t.
(** [time.Duration(n) * unit] *)
Definition dur_mul (n unit : Z) : duration := wrap64 (n * unit).

Lemma time_sub_exact t u : in_int64 (t - u) = true -> time_sub t u = t - u.
Proof.
  unfold in_int64, time_sub. rewrite andb_true_iff, !Z.leb_le. lia.
Qed.

Lemma time_sub_le t u d : int64_min <= d < int64_max -> time_sub t u <= d <-> t - u <= d.
Proof. unfold time_sub, int64_min, int64_max. lia. Qed.

Lemma time_sub_lt t u d : int64_min < d <= int64_max -> time_sub t u < d <-> t - u < d.
Proof. unfold time_sub, int64_min, int64_max. lia. Qed.

(** * Doubles *)

Abbreviation float64 := spec_float.
Definition prec : Z := 53.
Definition emax : Z := 1024.
Definition fadd : float64 -> float64 -> float64 := SFadd prec emax.
Definition fsub : float64 -> float64 -> float64 := SFsub prec emax.
Definition fmul : float64 -> float64 -> float64 := SFmul prec emax.
Definition fdiv : float64 -> float64 -> float64 := SFdiv prec emax.
Definition fle : float64 -> float64 -> bool := SFleb.
Definition flt : float64 -> float64 -> bool := SFltb.
(** [float64(n)] for an integer [n] *)
Definition of_int (z : Z) : float64 := binary_normalize prec emax z 0 false.

(** [Duration.Seconds] *)
Definition Seconds (d : duration) : float64 :=
  fadd (of_int (Z.quot d second)) (fdiv (of_int (Z.rem d second)) (of_int 1000000000)).

(** [int(math.Round(f))]: half away from zero; a value that does not fit an
    [int] converts to the minimum, as on amd64. *)
Definition round_int (f : float64) : Z :=
  match f with
  | S754_zero _ => 0
  | S754_finite s m e =>
      let a := if 0 <=? e then Z.pos m * 2 ^ e
               else (Z.pos m + 2 ^ (- e - 1)) / 2 ^ (- e) in
      let z := if s then - a else a in
      if in_int64 z then z else int64_min
  | _ => int64_min
  end.

(** [int64(f)]: truncation; out of range as on amd64. *)
Definition trunc_int (f : float64) : Z :=
  match f with
  | S754_zero _ => 0
  | S754_finite s m e =>
      let a := if (0 <=? e)%Z then (Z.pos m * 2 ^ e)%Z else (Z.pos m / 2 ^ (- e))%Z in
      let z := if s then (- a)%Z else a in
      if in_int64 z then z else int64_min
  | _ => int64_min
  end.
