(* ===== verification/GoFmt.v ===== *)
(** Text forms the kernel signs, hashes or prints: shortest decimal [float64]
    as [encoding/json] writes it, fixed-precision [%.Nf], and [time.Time] in
    RFC 3339 (UTC). *)
From Stdlib Require Import SpecFloat Ascii.
From S2P Require Import Prelude GoLib.

Local Open Scope Z_scope.

(** * Doubles *)

(** The rational [m * 2^e / 10^k] as a fraction. *)
Definition scale_num (m e k : Z) : Z := m * 2 ^ Z.max e 0 * 10 ^ Z.max (- k) 0.
Definition scale_den (e k : Z) : Z := 2 ^ Z.max (- e) 0 * 10 ^ Z.max k 0.

(** The double nearest to [d * 10^k], for [d > 0]. *)
Definition round_dec (d k : Z) : float64 :=
  if 0 <=? k then binary_normalize prec emax (d * 10 ^ k) 0 false
  else
    let den := 10 ^ (- k) in
    let s := 1200 + Z.log2 den in
    let q := Z.shiftl d s / den in
    let r := Z.shiftl d s mod den in
    binary_normalize prec emax (2 * q + (if r =? 0 then 0 else 1)) (- s - 1) false.

Definition float_eqb (f g : float64) : bool :=
  match f, g with
  | S754_zero s, S754_zero t => Bool.eqb s t
  | S754_infinity s, S754_infinity t => Bool.eqb s t
  | S754_finite s m e, S754_finite t n d => Bool.eqb s t && Pos.eqb m n && (e =? d)
  | _, _ => false
  end.

(** The decimal exponent [p] with [10^p <= m * 2^e < 10^(p+1)], from an
    estimate that is off by at most one. *)
Definition dec_exp (m e : Z) : Z :=
  let p := (Z.log2 m + e) * 30103 / 100000 in
  let ge p := scale_den e p <=? scale_num m e p in
  if ge (p + 1) then p + 1 else if ge p then p else p - 1.

(** [strconv.FormatFloat(f, _, -1, 64)]: the shortest digits that read back as
    [f], the closest of them on a tie of length. *)
Fixpoint shortest (fuel : nat) (n : Z) (m e p : Z) (f : float64) : Z * Z :=
  let k := p - n + 1 in
  let num := scale_num m e k in
  let den := scale_den e k in
  let lo := num / den in
  let ok d := float_eqb (round_dec d k) f in
  let near := if 2 * (num - lo * den) <=? den then lo else lo + 1 in
  let far := if near =? lo then lo + 1 else lo in
  match fuel with
  | O => (near, k)
  | S fuel' =>
      if ok near then (near, k) else if ok far then (far, k)
      else shortest fuel' (n + 1) m e p f
  end.

Fixpoint zeros (n : nat) : string :=
  match n with O => ""%string | S n' => String "0" (zeros n') end.

(** Digits [ds] with the decimal point after the first [dp] of them. *)
Definition fmt_f (ds : string) (dp : Z) : string :=
  let len := Z.of_nat (String.length ds) in
  (if (dp <=? 0)%Z then "0." +:+ zeros (Z.to_nat (- dp)) +:+ ds
   else if (len <=? dp)%Z then ds +:+ zeros (Z.to_nat (dp - len))
   else String.substring 0 (Z.to_nat dp) ds +:+ "."
        +:+ String.substring (Z.to_nat dp) (String.length ds) ds)%string.

Definition fmt_e (ds : string) (dp : Z) : string :=
  let x := dp - 1 in
  let mant := match ds with
              | String c ""%string => String c ""%string
              | String c r => String c (String "." r)
              | ""%string => ""%string
              end in
  (mant +:+ "e" +:+ (if (x <? 0)%Z then "-" else "+") +:+ dec (Z.abs x))%string.

Definition strip_zeros (d k : Z) : Z * Z :=
  (fix go (fuel : nat) (d k : Z) : Z * Z :=
     match fuel with
     | O => (d, k)
     | S fuel' => if (d mod 10 =? 0) && negb (d =? 0) then go fuel' (d / 10) (k + 1) else (d, k)
     end) 20%nat d k.

(** [encoding/json] on a [float64]: plain notation between 1e-6 and 1e21,
    exponent notation outside; no text for NaN and the infinities. *)
Definition json_float (f : float64) : option string :=
  match f with
  | S754_zero s => Some (if s then "-0" else "0")%string
  | S754_finite s m e =>
      let m := Z.pos m in
      let abs := S754_finite false (Z.to_pos m) e in
      let p := dec_exp m e in
      let '(d, k) := shortest 17 1 m e p abs in
      let '(d, k) := strip_zeros d k in
      let ds := dec d in
      let dp := k + Z.of_nat (String.length ds) in
      let small := scale_num m e (-6) <? scale_den e (-6) in
      let big := scale_den e 21 <=? scale_num m e 21 in
      let body := if small || big then fmt_e ds dp else fmt_f ds dp in
      Some (if s then "-" +:+ body else body)%string
  | _ => None
  end.

(** [%.Nf], rounding half to even on the exact value. *)
Definition fmt_fixed (n : Z) (f : float64) : string :=
  match f with
  | S754_zero s => ((if s then "-" else "") +:+ "0." +:+ zeros (Z.to_nat n))%string
  | S754_finite s m e =>
      let num := scale_num (Z.pos m) e (- n) in
      let den := scale_den e (- n) in
      let q := num / den in
      let r := 2 * (num mod den) in
      let q := if (den <? r) || ((r =? den) && Z.odd q) then q + 1 else q in
      let ds := dec q in
      let pad := zeros (Z.to_nat (n + 1 - Z.of_nat (String.length ds))) in
      let ds := (pad +:+ ds)%string in
      let cut := (String.length ds - Z.to_nat n)%nat in
      ((if s then "-" else "") +:+ String.substring 0 cut ds +:+ "."
       +:+ String.substring cut (Z.to_nat n) ds)%string
  | S754_infinity s => (if s then "-Inf" else "+Inf")%string
  | S754_nan => "NaN"%string
  end.

(** * Instants *)

(** The proleptic Gregorian date of a day count from 1970-01-01. *)
Definition civil (days : Z) : Z * Z * Z :=
  let z := days + 719468 in
  let era := z / 146097 in
  let doe := z mod 146097 in
  let yoe := (doe - doe / 1460 + doe / 36524 - doe / 146096) / 365 in
  let doy := doe - (365 * yoe + yoe / 4 - yoe / 100) in
  let mp := (5 * doy + 2) / 153 in
  let d := doy - (153 * mp + 2) / 5 + 1 in
  let m := if mp <? 10 then mp + 3 else mp - 9 in
  let y := yoe + era * 400 + (if m <=? 2 then 1 else 0) in
  (y, m, d).

Definition pad (n : nat) (z : Z) : string :=
  let s := dec z in (zeros (n - String.length s) +:+ s)%string.

Fixpoint drop_last_zeros (l : list ascii) : list ascii :=
  match l with
  | c :: l' => if Ascii.eqb c "0" then drop_last_zeros l' else l
  | [] => []
  end.

(** Seconds resolution: [2006-01-02T15:04:05]. *)
Definition fmt_seconds (t : time) : string :=
  let secs := t / second in
  let '(y, m, d) := civil (secs / 86400) in
  let s := secs mod 86400 in
  (pad 4 y +:+ "-" +:+ pad 2 m +:+ "-" +:+ pad 2 d +:+ "T"
   +:+ pad 2 (s / 3600) +:+ ":" +:+ pad 2 (s / 60 mod 60) +:+ ":" +:+ pad 2 (s mod 60))%string.

(** [time.RFC3339Nano], the JSON form; years outside [0, 9999] are an error. *)
Definition fmt_time (t : time) : res string :=
  let '(y, _, _) := civil (t / second / 86400) in
  if (y <? 0) || (9999 <? y)
  then Fail "Time.MarshalJSON: year outside of range [0,9999]"%string
  else
    let ns := t mod second in
    let frac := of_bytes (rev (drop_last_zeros (rev (to_bytes (pad 9 ns))))) in
    Ok (fmt_seconds t +:+ (if (ns =? 0)%Z then "" else "." +:+ frac) +:+ "Z")%string.

Example fmt_time_examples :
  (fmt_time 0, fmt_time zero_time, fmt_time 1709210096123456000)
  = (Ok "1970-01-01T00:00:00Z", Ok "0001-01-01T00:00:00Z",
     Ok "2024-02-29T12:34:56.123456Z")%string.
Proof. vm_compute. reflexivity. Qed.

Example json_float_examples :
  (json_float (fdiv (of_int 1) (of_int 10)), json_float (of_int 100),
   json_float (fdiv (of_int 1) (of_int 3)), json_float (of_int (10 ^ 21)),
   json_float (fdiv (of_int 1) (of_int 10000000)), json_float (fdiv (of_int (-5)) (of_int 2)))
  = (Some "0.1", Some "100", Some "0.3333333333333333", Some "1e+21",
     Some "1e-7", Some "-2.5")%string.
Proof. vm_compute. reflexivity. Qed.

Example fmt_fixed_examples :
  (fmt_fixed 4 (fdiv (of_int 1) (of_int 3)), fmt_fixed 1 (of_int 12), fmt_fixed 1 (fdiv (of_int 1) (of_int 4)))
  = ("0.3333", "12.0", "0.2")%string.
Proof. vm_compute. reflexivity. Qed.
