(* ===== verification/GoTime.v ===== *)
(** [time.Parse] with the layouts [time.RFC3339] and [time.RFC3339Nano], and its round trip with the format of
    [GoFmt.fmt_time].  The two layouts accept the same texts: a fraction of a second may be there in both. *)
From Stdlib Require Import Ascii.
From Stdlib Require Import Decimal DecimalString DecimalPos DecimalFacts.
From S2P Require Import Prelude GoLib GoFmt.

Local Open Scope Z_scope.

(** * Scanning *)

Definition in_range (lo hi : nat) (c : ascii) : bool := (lo <=? nat_of_ascii c)%nat && (nat_of_ascii c <=? hi)%nat.
Definition digit_char := in_range 48 57.
Definition is_char (d c : ascii) : bool := Ascii.eqb c d.
Definition digit_val (c : ascii) : Z := Z.of_nat (nat_of_ascii c) - 48.

(** Digits from the front. *)
Fixpoint take_digits (l : bytes) : bytes * bytes :=
  match l with
  | c :: l' => if digit_char c then let '(d, r) := take_digits l' in (c :: d, r) else ([], l)
  | [] => ([], [])
  end.

Definition literal (c : ascii) (l : bytes) : option bytes :=
  match l with x :: l => if Ascii.eqb x c then Some l else None | [] => None end.

(** [strings.Split]; [cur] is the part before, backwards. *)
Fixpoint split_on (sep : ascii) (cur : bytes) (l : bytes) : list bytes :=
  match l with
  | [] => [rev cur]
  | c :: l => if Ascii.eqb c sep then rev cur :: split_on sep [] l else split_on sep (c :: cur) l
  end.

(** The number a sequence of digits stands for. *)
Definition num (acc : Z) (ds : bytes) : Z := foldl (fun n c => n * 10 + digit_val c) acc ds.

(** [getnum] *)
Definition getnum (fixed : bool) (l : bytes) : option (Z * bytes) :=
  match l with
  | a :: l =>
      if negb (digit_char a) then None
      else match l with
           | b :: l' => if digit_char b then Some (digit_val a * 10 + digit_val b, l')
                        else if fixed then None else Some (digit_val a, l)
           | [] => if fixed then None else Some (digit_val a, [])
           end
  | [] => None
  end.

Definition below (lo hi : Z) (r : option (Z * bytes)) : option (Z * bytes) :=
  '(n, l) ← r; if (lo <=? n) && (n <=? hi) then Some (n, l) else None.

(** * Dates *)

Definition leap (y : Z) : bool := (y mod 4 =? 0) && (negb (y mod 100 =? 0) || (y mod 400 =? 0)).
Definition days_in (m y : Z) : Z :=
  if m =? 2 then (if leap y then 29 else 28)
  else if existsb (Z.eqb m) [4; 6; 9; 11] then 30 else 31.

(** The day count from 1970-01-01 of a proleptic Gregorian date. *)
Definition days_of_civil (y m d : Z) : Z :=
  let y := if m <=? 2 then y - 1 else y in
  let yoe := y mod 400 in
  let mp := if 2 <? m then m - 3 else m + 9 in
  let doy := (153 * mp + 2) / 5 + d - 1 in
  y / 400 * 146097 + (yoe * 365 + yoe / 4 - yoe / 100 + doy) - 719468.

(** * The parser *)

(** The offset in seconds. *)
Definition parse_zone (l : bytes) : option (Z * bytes) :=
  match l with
  | c :: rest =>
      if is_char "Z" c then Some (0, rest)
      else if is_char "+" c || is_char "-" c then
        '(h, l) ← below 0 24 (getnum true rest); l ← literal ":" l; '(m, l) ← below 0 60 (getnum true l);
        Some ((if is_char "+" c then 1 else -1) * ((h * 60 + m) * 60), l)
      else None
  | [] => None
  end.

(** [parseNanoseconds]: digits past the ninth are dropped. *)
Definition nanoseconds (ds : bytes) : Z := let ds := take 9 ds in num 0 ds * 10 ^ (9 - Z.of_nat (length ds)).

Definition parse_fraction (l : bytes) : Z * bytes :=
  match l with
  | c :: (d :: _) as l' => if (is_char "." c || is_char "," c) && digit_char d
                           then let '(ds, r) := take_digits l' in (nanoseconds ds, r) else (0, l)
  | _ => (0, l)
  end.

Definition time_parse (s : string) : option time :=
  '(y1, l) ← getnum true (to_bytes s); '(y2, l) ← getnum true l; let y := y1 * 100 + y2 in
  l ← literal "-" l; '(m, l) ← below 1 12 (getnum true l);
  l ← literal "-" l; '(d, l) ← below 1 (days_in m y) (getnum true l);
  l ← literal "T" l; '(h, l) ← below 0 23 (getnum false l);
  l ← literal ":" l; '(mi, l) ← below 0 59 (getnum true l);
  l ← literal ":" l; '(sec, l) ← below 0 59 (getnum true l);
  let '(ns, l) := parse_fraction l in
  '(off, l) ← parse_zone l;
  match l with
  | [] => Some ((days_of_civil y m d * 86400 + h * 3600 + mi * 60 + sec - off) * second + ns)
  | _ => None
  end.

Example time_parse_examples :
  map time_parse ["2024-02-29T12:34:56.123456Z"; "2023-02-29T12:34:56Z"; "1970-01-01T5:04:05+02:00"; "1969-12-31T23:59:59.5Z";
                  "2024-01-01 05:04:05Z"; "2024-13-01T05:04:05Z"; "2024-01-01T05:04:05"; "0001-01-01T00:00:00Z"]%string
  = [Some 1709210096123456000; None; Some (11045 * second); Some (-500000000); None; None; None; Some zero_time].
Proof. vm_compute. reflexivity. Qed.

(** * Dates there and back *)

(** The year of the era and the day of the year found by [civil]. *)
Lemma year_of_era doe : 0 <= doe < 146097 ->
  let yoe := (doe - doe / 1460 + doe / 36524 - doe / 146096) / 365 in
  0 <= yoe < 400 /\ 0 <= doe - (365 * yoe + yoe / 4 - yoe / 100) <= 365.
Proof. intros H yoe. subst yoe. Z.div_mod_to_equations. lia. Qed.

(** The 366th day of a year that starts in March belongs to a leap year. *)
Lemma long_year doe : 0 <= doe < 146097 ->
  let yoe := (doe - doe / 1460 + doe / 36524 - doe / 146096) / 365 in
  doe - (365 * yoe + yoe / 4 - yoe / 100) = 365 -> (yoe + 1) mod 4 = 0 /\ ((yoe + 1) mod 100 <> 0 \/ (yoe + 1) mod 400 = 0).
Proof. intros H yoe. subst yoe. Z.div_mod_to_equations. lia. Qed.

(** Evaluate the arithmetic on numerals. *)
Ltac numeral a := lazymatch a with Z0 => idtac | Zpos _ => idtac | Zneg _ => idtac end.
Ltac constants :=
  repeat match goal with
  | |- context [?a + ?b] => numeral a; numeral b; let v := eval vm_compute in (a + b) in change (a + b) with v
  | |- context [?a - ?b] => numeral a; numeral b; let v := eval vm_compute in (a - b) in change (a - b) with v
  | |- context [?a * ?b] => numeral a; numeral b; let v := eval vm_compute in (a * b) in change (a * b) with v
  | |- context [?a / ?b] => numeral a; numeral b; let v := eval vm_compute in (a / b) in change (a / b) with v
  | |- context [?a <=? ?b] => numeral a; numeral b; let v := eval vm_compute in (a <=? b) in change (a <=? b) with v
  | |- context [?a <? ?b] => numeral a; numeral b; let v := eval vm_compute in (a <? b) in change (a <? b) with v
  | |- context [?a =? ?b] => numeral a; numeral b; let v := eval vm_compute in (a =? b) in change (a =? b) with v
  | |- context [if true then ?x else ?y] => change (if true then x else y) with x
  | |- context [if false then ?x else ?y] => change (if false then x else y) with y
  end.

Lemma civil_spec days :
  let '(y, m, d) := civil days in days_of_civil y m d = days /\ 1 <= m <= 12 /\ 1 <= d <= days_in m y.
Proof.
  unfold civil. cbv zeta. set (z := days + 719468). set (doe := z mod 146097). set (era := z / 146097).
  assert (R : 0 <= doe < 146097) by (apply Z.mod_pos_bound; lia).
  assert (Z0 : days = era * 146097 + doe - 719468) by (pose proof (Z.div_mod z 146097); unfold doe, era, z in *; lia).
  clearbody doe era. clear z.
  pose proof (year_of_era doe R) as [Y D]. pose proof (long_year doe R) as L. cbv zeta in *.
  set (yoe := (doe - doe / 1460 + doe / 36524 - doe / 146096) / 365) in *. clearbody yoe.
  set (doy := doe - (365 * yoe + yoe / 4 - yoe / 100)) in *.
  assert (E : doe = 365 * yoe + yoe / 4 - yoe / 100 + doy) by (unfold doy; lia). clearbody doy.
  set (mp := (5 * doy + 2) / 153).
  assert (M : mp = 0 \/ mp = 1 \/ mp = 2 \/ mp = 3 \/ mp = 4 \/ mp = 5 \/ mp = 6 \/ mp = 7 \/ mp = 8 \/ mp = 9 \/ mp = 10 \/ mp = 11)
    by (unfold mp; Z.div_mod_to_equations; lia).
  assert (B : 153 * mp <= 5 * doy + 2 < 153 * mp + 153) by (unfold mp; Z.div_mod_to_equations; lia). clearbody mp.
  assert (Yq : (yoe + era * 400) / 400 = era) by (rewrite Z.div_add by lia; rewrite Z.div_small by lia; lia).
  assert (Ym : (yoe + era * 400) mod 400 = yoe) by (rewrite Z.mod_add by lia; apply Z.mod_small; lia).
  assert (Lp : doy = 365 -> leap (yoe + era * 400 + 1) = true).
  { intros ->. destruct (L ltac:(lia)) as [L4 L100]. unfold leap.
    replace (yoe + era * 400 + 1) with (yoe + 1 + era * 400) by lia.
    replace ((yoe + 1 + era * 400) mod 4) with ((yoe + 1) mod 4) by (Z.div_mod_to_equations; lia).
    replace ((yoe + 1 + era * 400) mod 100) with ((yoe + 1) mod 100) by (Z.div_mod_to_equations; lia).
    rewrite Z.mod_add by lia. rewrite L4. cbn. destruct (Z.eqb_spec ((yoe + 1) mod 100) 0); [|done]. cbn. apply Z.eqb_eq. lia. }
  unfold days_of_civil, days_in.
  destruct M as [->|[->|[->|[->|[->|[->|[->|[->|[->|[->|[->| ->]]]]]]]]]]]; constants; cbn [existsb orb andb];
    rewrite ?Z.add_0_r, ?Z.add_simpl_r, ?Yq, ?Ym.
  12: { split; [lia|]. split; [lia|]. destruct (leap _); [lia|]. destruct (Z.eq_dec doy 365) as [E'|]; [by discriminate (Lp E')|lia]. }
  all: split; [lia|]; split; [lia|]; constants; cbn [orb]; lia.
Qed.

(** * Digits there and back *)

Definition digits (l : bytes) : Prop := Forall (fun c => digit_char c = true) l.

Lemma num_app acc a b : num acc (a ++ b) = num (num acc a) b.
Proof. apply foldl_app. Qed.

Lemma num_scale acc ds : num acc ds = acc * 10 ^ Z.of_nat (length ds) + num 0 ds.
Proof.
  revert acc. induction ds as [|c ds IH]; intros acc; [cbn; lia|]. change (num acc (c :: ds)) with (num (acc * 10 + digit_val c) ds).
  change (num 0 (c :: ds)) with (num (0 * 10 + digit_val c) ds). rewrite IH, (IH (0 * 10 + digit_val c)).
  cbn [length]. rewrite Nat2Z.inj_succ, Z.pow_succ_r by lia. lia.
Qed.

Lemma digit_val_bounds c : digit_char c = true -> 0 <= digit_val c <= 9.
Proof. unfold digit_char, in_range, digit_val. rewrite andb_true_iff, !Nat.leb_le. lia. Qed.

Lemma num_nonneg acc ds : 0 <= acc -> digits ds -> 0 <= num acc ds.
Proof.
  intros H D. revert acc H. induction D as [|c ds Hc _ IH]; intros acc H; [done|]. apply IH. apply digit_val_bounds in Hc. lia.
Qed.

Lemma num_zeros n : num 0 (repeat "0"%char n) = 0.
Proof. induction n as [|n IH]; [done|]. exact IH. Qed.

Ltac digit_vals := match goal with |- context [digit_val ?c] => let v := eval vm_compute in (digit_val c) in change (digit_val c) with v end.

Lemma num_uint_acc l acc :
  num (Zpos acc) (to_bytes (NilEmpty.string_of_uint l)) = Zpos (Pos.of_uint_acc l acc) /\ digits (to_bytes (NilEmpty.string_of_uint l)).
Proof.
  unfold digits, num, to_bytes. revert acc.
  induction l as [|l IH|l IH|l IH|l IH|l IH|l IH|l IH|l IH|l IH|l IH]; intros acc; [split; [done|apply Forall_nil_2]|..];
    cbn [NilEmpty.string_of_uint Pos.of_uint_acc String.list_ascii_of_string foldl];
    match goal with |- _ = Zpos (Pos.of_uint_acc _ ?a) /\ _ => destruct (IH a) as [E D] end;
    (split; [rewrite <- E; f_equal; digit_vals; lia|by apply Forall_cons_2]).
Qed.

Lemma num_uint l : num 0 (to_bytes (NilEmpty.string_of_uint l)) = Z.of_N (Pos.of_uint l) /\ digits (to_bytes (NilEmpty.string_of_uint l)).
Proof.
  induction l as [|l IH|l IH|l IH|l IH|l IH|l IH|l IH|l IH|l IH|l IH]; [split; [done|apply Forall_nil_2]|..];
    cbn [Pos.of_uint]; [split; [apply IH|apply Forall_cons_2; [done|apply IH]]|..];
    match goal with |- context [Pos.of_uint_acc _ ?a] => destruct (num_uint_acc l a) as [E D] end;
    (split; [exact E|by apply Forall_cons_2]).
Qed.

Lemma nzhead_head u : match nzhead u with D0 _ => False | _ => True end.
Proof. by induction u. Qed.

(** A number is written without a zero in front. *)
Lemma to_uint_head p : match Pos.to_uint p with D0 _ | Nil => False | _ => True end.
Proof.
  pose proof (Unsigned.of_to p) as E. pose proof (Unsigned.to_of (Pos.to_uint p)) as F. rewrite E in F. cbn [N.to_uint] in F.
  destruct (Pos.to_uint p) as [|u|u|u|u|u|u|u|u|u|u]; try done. unfold unorm in F. cbn [nzhead] in F.
  pose proof (nzhead_head u) as Hd. destruct (nzhead u); try done. injection F as ->. done.
Qed.

Lemma dec_spec z : 0 <= z -> let ds := to_bytes (dec z) in
  num 0 ds = z /\ digits ds /\ forall n, z < 10 ^ Z.of_nat n -> (0 < n)%nat -> (length ds <= n)%nat.
Proof.
  intros Hz. destruct z as [|p|p]; [|..]; [split_and!; [done|by apply Forall_cons_2|cbn; lia]| |lia].
  cbv zeta. unfold dec. cbn [Z.to_int NilZero.string_of_int]. unfold NilZero.string_of_uint.
  pose proof (to_uint_head p) as Hd. pose proof (num_uint (Pos.to_uint p)) as [E D]. rewrite Unsigned.of_to in E.
  assert (to_bytes (match Pos.to_uint p with Nil => "0"%string | _ => NilEmpty.string_of_uint (Pos.to_uint p) end)
    = to_bytes (NilEmpty.string_of_uint (Pos.to_uint p))) as -> by (by destruct (Pos.to_uint p)).
  split; [exact E|]. split; [exact D|]. intros n Hn _.
  destruct (to_bytes (NilEmpty.string_of_uint (Pos.to_uint p))) as [|c ds] eqn:Ed; [cbn; lia|].
  assert (C : 1 <= digit_val c).
  { unfold to_bytes in Ed. destruct (Pos.to_uint p); try done; injection Ed as <- _; by vm_compute. }
  change (num 0 (c :: ds)) with (num (0 * 10 + digit_val c) ds) in E. rewrite num_scale in E.
  inversion D as [|? ? _ D']; subst. pose proof (num_nonneg 0 ds ltac:(lia) D').
  assert (10 ^ Z.of_nat (length ds) < 10 ^ Z.of_nat n) as L%Z.pow_lt_mono_r_iff by nia; cbn; lia.
Qed.

Lemma zeros_bytes n : to_bytes (zeros n) = repeat "0"%char n.
Proof. unfold to_bytes. induction n as [|n IH]; [done|]. cbn. by f_equal. Qed.

Lemma digits_app a b : digits a -> digits b -> digits (a ++ b).
Proof. apply Forall_app_2. Qed.
Lemma digits_zeros n : digits (repeat "0"%char n).
Proof. induction n; [apply Forall_nil_2|by apply Forall_cons_2]. Qed.

Lemma length_bytes s : String.length s = length (to_bytes s).
Proof. unfold to_bytes. induction s as [|c s IH]; [done|]. cbn [String.length String.list_ascii_of_string length]. by rewrite IH. Qed.

Lemma pad_spec n z : 0 <= z < 10 ^ Z.of_nat n -> (0 < n)%nat ->
  let ds := to_bytes (pad n z) in num 0 ds = z /\ digits ds /\ length ds = n.
Proof.
  intros [L U] N. destruct (dec_spec z L) as (E & D & Len). specialize (Len n U N). cbv zeta. unfold pad.
  rewrite to_bytes_app, zeros_bytes, num_app, num_zeros. split; [exact E|]. split; [apply digits_app; [apply digits_zeros|exact D]|].
  rewrite length_app, repeat_length. rewrite length_bytes. lia.
Qed.

Lemma getnum_pair fixed z l : 0 <= z < 100 -> getnum fixed (to_bytes (pad 2 z) ++ l) = Some (z, l).
Proof.
  intros Hz. destruct (pad_spec 2 z) as (E & D & L); [exact Hz|lia|]. destruct (to_bytes (pad 2 z)) as [|a [|b [|]]]; try done.
  inversion D as [|? ? Da D1]; subst. inversion D1 as [|? ? Db _]; subst. cbn [app getnum].
  rewrite Da, Db. unfold num. cbn [foldl negb]. reflexivity.
Qed.

Lemma below_pair fixed lo hi z l : 0 <= z < 100 /\ lo <= z <= hi -> below lo hi (getnum fixed (to_bytes (pad 2 z) ++ l)) = Some (z, l).
Proof.
  intros [Hz Hb]. rewrite getnum_pair by done. cbn. by rewrite (proj2 (Z.leb_le lo z)), (proj2 (Z.leb_le z hi)) by lia.
Qed.

(** Four digits of the year, two by two. *)
Lemma getnum_year y l : 0 <= y < 10000 -> exists y1 y2 rest,
  getnum true (to_bytes (pad 4 y) ++ l) = Some (y1, rest) /\ getnum true rest = Some (y2, l) /\ y1 * 100 + y2 = y.
Proof.
  intros Hy. destruct (pad_spec 4 y) as (E & D & L); [exact Hy|lia|].
  destruct (to_bytes (pad 4 y)) as [|a [|b [|c [|d [|]]]]]; try done.
  inversion D as [|? ? Da D1]; subst. inversion D1 as [|? ? Db D2]; subst. inversion D2 as [|? ? Dc D3]; subst.
  inversion D3 as [|? ? Dd _]; subst. exists (digit_val a * 10 + digit_val b), (digit_val c * 10 + digit_val d), (c :: d :: l).
  cbn [app getnum]. rewrite Da, Db, Dc, Dd. split; [done|]. split; [done|]. unfold num. cbn [foldl]. lia.
Qed.

(** ** The fraction *)

Lemma drop_last_zeros_spec l : exists k, l = (repeat "0"%char k ++ drop_last_zeros l)%list /\
  (drop_last_zeros l = [] \/ exists c r, drop_last_zeros l = c :: r).
Proof.
  induction l as [|c l [k [E _]]]; [exists 0%nat; split; [done|by left]|]. cbn.
  destruct (Ascii.eqb_spec c "0") as [->|N]; [|exists 0%nat; split; [done|right; by eauto]].
  exists (S k). split; [cbn; by rewrite <- E|]. destruct (drop_last_zeros l); eauto.
Qed.

Lemma repeat_rev {A} (x : A) n : rev (repeat x n) = repeat x n.
Proof. induction n as [|n IH]; [done|]. cbn. rewrite IH. by rewrite <- repeat_cons. Qed.

Lemma take_digits_app ds c l : digits ds -> digit_char c = false -> take_digits (ds ++ c :: l) = (ds, c :: l).
Proof. intros D C. induction D as [|d ds Hd _ IH]; cbn; [by rewrite C|]. by rewrite Hd, IH. Qed.

Lemma nanoseconds_frac ns : 0 < ns < second ->
  let ds := rev (drop_last_zeros (rev (to_bytes (pad 9 ns)))) in ds <> [] /\ digits ds /\ nanoseconds ds = ns.
Proof.
  intros Hn. destruct (pad_spec 9 ns) as (E & D & L); [unfold second in Hn; lia|lia|].
  destruct (drop_last_zeros_spec (rev (to_bytes (pad 9 ns)))) as (k & Ek & _). cbv zeta.
  set (r := drop_last_zeros _) in *. clearbody r.
  assert (P : to_bytes (pad 9 ns) = (rev r ++ repeat "0"%char k)%list).
  { rewrite <- (rev_involutive (to_bytes _)), Ek, rev_app_distr. by rewrite repeat_rev. }
  rewrite P in *. clear Ek P. apply Forall_app in D as [D _]. rewrite length_app, repeat_length in L.
  rewrite num_app, num_scale, num_zeros, repeat_length in E. split; [|split; [exact D|]].
  - intros N. rewrite N in E. cbn in E. lia.
  - unfold nanoseconds. rewrite take_ge by lia. cbv zeta. replace (9 - Z.of_nat (length (rev r))) with (Z.of_nat k) by lia. lia.
Qed.

Lemma parse_fraction_fmt ns l : 0 <= ns < second -> 
  parse_fraction (to_bytes (if (ns =? 0)%Z then "" else "." +:+ of_bytes (rev (drop_last_zeros (rev (to_bytes (pad 9 ns))))))%string ++ "Z"%char :: l)
  = (ns, "Z"%char :: l).
Proof.
  intros Hn. destruct (Z.eqb_spec ns 0) as [->|N]; [by destruct l|].
  destruct (nanoseconds_frac ns) as (Ne & D & V); [lia|]. rewrite to_bytes_app, to_of_bytes.
  set (ds := rev _) in *. clearbody ds. destruct ds as [|d ds]; [done|]. cbn [app]. unfold parse_fraction.
  inversion D as [|? ? Hd _]; subst. cbn [to_bytes String.list_ascii_of_string app]. rewrite Hd.
  change (d :: ds ++ "Z"%char :: l)%list with ((d :: ds) ++ "Z"%char :: l)%list. by rewrite take_digits_app.
Qed.

(** * The round trip *)

(** What is written is read back: an instant that has a text in the JSON form [time.RFC3339Nano], one of the years 0 to
    9999, is exactly what [time.Parse] makes of that text, to the nanosecond. *)
Theorem time_round_trip (t : time) (s : string) : fmt_time t = Ok s -> time_parse s = Some t.
Proof.
  unfold fmt_time, fmt_seconds. pose proof (civil_spec (t / second / 86400)) as C.
  destruct (civil (t / second / 86400)) as [[y m] d]. destruct C as (Cd & Cm & Cr).
  destruct (Z.ltb_spec y 0); [done|]. destruct (Z.ltb_spec 9999 y); [done|]. cbn [orb]. cbv zeta.
  set (ns := t mod second). set (sod := (t / second) mod 86400).
  assert (Ns : 0 <= ns < second) by (apply Z.mod_pos_bound; by compute).
  assert (Sod : 0 <= sod < 86400) by (apply Z.mod_pos_bound; lia).
  assert (T : t = (days_of_civil y m d * 86400 + sod) * second + ns).
  { rewrite Cd. unfold ns, sod, second. Z.div_mod_to_equations. lia. }
  assert (Dm : days_in m y <= 31) by (unfold days_in; repeat case_match; lia).
  clearbody ns sod. intros [= <-]. unfold time_parse. rewrite !to_bytes_app, <- !app_assoc.
  destruct (getnum_year y (to_bytes "-" ++ to_bytes (pad 2 m) ++ to_bytes "-" ++ to_bytes (pad 2 d) ++ to_bytes "T" ++
    to_bytes (pad 2 (sod / 3600)) ++ to_bytes ":" ++ to_bytes (pad 2 (sod / 60 mod 60)) ++ to_bytes ":" ++
    to_bytes (pad 2 (sod mod 60)) ++ to_bytes (if (ns =? 0)%Z then "" else "." +:+ of_bytes (rev (drop_last_zeros (rev (to_bytes (pad 9 ns))))))%string
    ++ to_bytes "Z")) as (y1 & y2 & rest & E1 & E2 & Ey); [lia|].
  rewrite E1. cbn [mbind option_bind]. rewrite E2. cbn [mbind option_bind]. rewrite Ey. clear E1 E2 Ey y1 y2 rest.
  assert (Lit : forall c l, literal c (to_bytes (String c "") ++ l) = Some l) by (intros c l; cbn; by rewrite Ascii.eqb_refl).
  repeat first [rewrite Lit; cbn [mbind option_bind] | rewrite below_pair by (Z.div_mod_to_equations; lia); cbn [mbind option_bind]].
  change (to_bytes "Z") with ["Z"%char]. rewrite parse_fraction_fmt by done. cbn. f_equal.
  rewrite T. unfold second in *. f_equal. f_equal. Z.div_mod_to_equations. lia.
Qed.

(** * [Time.Format(time.RFC3339Nano)] *)

Definition fmt_year (y : Z) : string := (if (y <? 0)%Z then "-" +:+ pad 4 (- y) else pad 4 y)%string.

(** In UTC; years outside [0, 9999] are written as they are. *)
Definition time_format (t : time) : string :=
  let secs := t / second in
  let '(y, m, d) := civil (secs / 86400) in
  let s := secs mod 86400 in
  let ns := t mod second in
  let frac := of_bytes (rev (drop_last_zeros (rev (to_bytes (pad 9 ns))))) in
  (fmt_year y +:+ "-" +:+ pad 2 m +:+ "-" +:+ pad 2 d +:+ "T"
   +:+ pad 2 (s / 3600) +:+ ":" +:+ pad 2 (s / 60 mod 60) +:+ ":" +:+ pad 2 (s mod 60)
   +:+ (if (ns =? 0)%Z then "" else "." +:+ frac) +:+ "Z")%string.

(** The instants that [Time.MarshalJSON] accepts. *)
Definition in_years (t : time) : bool := let '(y, _, _) := civil (t / second / 86400) in (0 <=? y) && (y <=? 9999).

Lemma append_assoc (a b c : string) : ((a +:+ b) +:+ c = a +:+ b +:+ c)%string.
Proof. induction a as [|x a IH]; [done|]. exact (f_equal (String x) IH). Qed.

Lemma fmt_time_format t : in_years t = true -> fmt_time t = Ok (time_format t).
Proof.
  unfold in_years, fmt_time, time_format, fmt_seconds, fmt_year. destruct (civil _) as [[y m] d]. cbv zeta.
  rewrite andb_true_iff, !Z.leb_le. intros [L U]. rewrite (proj2 (Z.ltb_ge y 0)), (proj2 (Z.ltb_ge 9999 y)) by lia. cbn [orb].
  f_equal. by rewrite !append_assoc.
Qed.

(** An instant of these years survives being written and read. *)
Corollary time_format_parse t : in_years t = true -> time_parse (time_format t) = Some t.
Proof. intros H. by apply time_round_trip, fmt_time_format. Qed.

Example time_format_examples :
  (time_format 1709210096123456000, time_format (-62198755200 * second), time_format (253402300800 * second))
  = ("2024-02-29T12:34:56.123456Z", "-0001-01-01T00:00:00Z", "10000-01-01T00:00:00Z")%string.
Proof. vm_compute. reflexivity. Qed.
