(* ===== verification/Utf8.v ===== *)
(** UTF-8 and UTF-16 as the Go runtime implements them ([unicode/utf8],
    [unicode/utf16], [range] over a string): the decoder that turns an
    ill-formed byte into U+FFFD, the two ways the kernel repairs ill-formed
    text, and the facts the canonical encoder rests on: decoding inverts
    encoding on valid text, and UTF-16 transcoding is injective there. *)
From Stdlib Require Import Ascii.
From S2P Require Import Prelude GoLib.

Local Open Scope Z_scope.

(** * Bytes as numbers *)

Definition bz (c : ascii) : Z := Z.of_N (N_of_ascii c).
Definition zb (z : Z) : ascii := ascii_of_N (Z.to_N z).

Lemma bz_bound c : 0 <= bz c < 256.
Proof. unfold bz. pose proof (N_ascii_bounded c). lia. Qed.

Lemma zb_bz c : zb (bz c) = c.
Proof. unfold zb, bz. by rewrite N2Z.id, ascii_N_embedding. Qed.

Lemma bz_zb z : 0 <= z < 256 -> bz (zb z) = z.
Proof. intros H. unfold zb, bz. rewrite N_ascii_embedding; lia. Qed.

Lemma bz_inj c d : bz c = bz d -> c = d.
Proof. intros H. by rewrite <-(zb_bz c), <-(zb_bz d), H. Qed.

(** * Decoding *)

(** One step of [range] over a string: a rune, or one ill-formed byte. *)
Inductive chunk := Rune (r : Z) | Bad.

#[export] Instance chunk_eq_dec : EqDecision chunk.
Proof. solve_decision. Defined.

Definition rune_error : Z := 65533.

Definition within (lo z hi : Z) : bool := (lo <=? z) && (z <=? hi).

(** [utf8.DecodeRuneInString], with the accept ranges of its table. *)
Definition next (l : bytes) : option (chunk * bytes) :=
  match l with
  | [] => None
  | b0 :: l1 =>
      let x := bz b0 in
      if x <? 128 then Some (Rune x, l1) else
      match l1 with
      | b1 :: l2 =>
          let y := bz b1 in
          if within 194 x 223 && within 128 y 191
          then Some (Rune ((x - 192) * 64 + (y - 128)), l2) else
          match l2 with
          | b2 :: l3 =>
              let z := bz b2 in
              if within 224 x 239 && within (if x =? 224 then 160 else 128) y
                   (if x =? 237 then 159 else 191) && within 128 z 191
              then Some (Rune ((x - 224) * 4096 + (y - 128) * 64 + (z - 128)), l3) else
              match l3 with
              | b3 :: l4 =>
                  let w := bz b3 in
                  if within 240 x 244 && within (if x =? 240 then 144 else 128) y
                       (if x =? 244 then 143 else 191) && within 128 z 191
                       && within 128 w 191
                  then Some (Rune ((x - 240) * 262144 + (y - 128) * 4096
                                   + (z - 128) * 64 + (w - 128)), l4)
                  else Some (Bad, l1)
              | [] => Some (Bad, l1)
              end
          | [] => Some (Bad, l1)
          end
      | [] => Some (Bad, l1)
      end
  end.

Fixpoint scan_fuel (n : nat) (l : bytes) : list chunk :=
  match n with
  | O => []
  | S n' => match next l with
            | Some (c, l') => c :: scan_fuel n' l'
            | None => []
            end
  end.

Definition scan (l : bytes) : list chunk := scan_fuel (length l) l.

Definition rune_of (c : chunk) : Z := match c with Rune r => r | Bad => rune_error end.

(** [[]rune(s)] *)
Definition runes (l : bytes) : list Z := map rune_of (scan l).

Definition is_rune (c : chunk) : bool := match c with Rune _ => true | Bad => false end.

(** [utf8.ValidString] *)
Definition valid_utf8 (l : bytes) : bool := forallb is_rune (scan l).

(** * Encoding *)

(** [utf8.AppendRune] on a Unicode scalar value. *)
Definition encode_rune (r : Z) : bytes :=
  if r <? 128 then [zb r]
  else if r <? 2048 then [zb (192 + r / 64); zb (128 + r mod 64)]
  else if r <? 65536 then
    [zb (224 + r / 4096); zb (128 + r / 64 mod 64); zb (128 + r mod 64)]
  else
    [zb (240 + r / 262144); zb (128 + r / 4096 mod 64);
     zb (128 + r / 64 mod 64); zb (128 + r mod 64)].

Definition encode_runes (rs : list Z) : bytes := flat_map encode_rune rs.

(** A Unicode scalar value. *)
Definition scalar (r : Z) : Prop := 0 <= r < 55296 \/ 57344 <= r < 1114112.

(** [encoding/json] replaces every ill-formed byte by U+FFFD. *)
Definition sanitize (l : bytes) : bytes := encode_runes (runes l).

(** [strings.ToValidUTF8(s, "\uFFFD")] replaces every *run* of ill-formed
    bytes by one U+FFFD. *)
Fixpoint collapse (in_run : bool) (cs : list chunk) : list Z :=
  match cs with
  | [] => []
  | Rune r :: cs' => r :: collapse false cs'
  | Bad :: cs' => if in_run then collapse true cs' else rune_error :: collapse true cs'
  end.

Definition to_valid_utf8 (l : bytes) : bytes := encode_runes (collapse false (scan l)).

(** [unicode/utf16.Encode] *)
Definition utf16_rune (r : Z) : list Z :=
  if r <? 65536 then [r]
  else [55296 + (r - 65536) / 1024; 56320 + (r - 65536) mod 1024].

Definition utf16 (rs : list Z) : list Z := flat_map utf16_rune rs.

(** * Facts *)

Ltac zb_bounds :=
  repeat match goal with
  | H : context [bz ?c] |- _ =>
      lazymatch goal with
      | _ : 0 <= bz c < 256 |- _ => fail
      | _ => pose proof (bz_bound c)
      end
  | |- context [bz ?c] =>
      lazymatch goal with
      | _ : 0 <= bz c < 256 |- _ => fail
      | _ => pose proof (bz_bound c)
      end
  end.

Lemma within_spec lo z hi : within lo z hi = true <-> lo <= z <= hi.
Proof. unfold within. rewrite andb_true_iff. lia. Qed.

Ltac ranges :=
  repeat match goal with
  | H : _ && _ = true |- _ => apply andb_true_iff in H as [??]
  | H : within _ _ _ = true |- _ => apply within_spec in H
  | H : context [if ?b then _ else _] |- _ => destruct b eqn:?
  end.

(** Every step consumes at least one byte, and a rune step consumes exactly the
    encoding of its rune, a scalar value. *)
Lemma next_shorter l c l' : next l = Some (c, l') -> (length l' < length l)%nat.
Proof.
  unfold next. destruct l as [|b0 [|b1 [|b2 [|b3 l4]]]]; intros H;
    repeat case_in H; simplify_eq/=; lia.
Qed.

Lemma next_rune l r l' :
  next l = Some (Rune r, l') -> scalar r /\ l = (encode_rune r ++ l')%list.
Proof.
  assert (E : forall b z, bz b = z -> b = zb z) by (intros b z <-; by rewrite zb_bz).
  unfold next, encode_rune, scalar.
  destruct l as [|b0 [|b1 [|b2 [|b3 l4]]]]; intros H; try done;
    cbv zeta in H;
    repeat match type of H with
    | (if ?b then _ else _) = _ => destruct b eqn:?
    end; simplify_eq; ranges; zb_bounds; (split; [lia|]);
    repeat match goal with
    | |- context [if ?x <? ?y then _ else _] => destruct (Z.ltb_spec x y); try lia
    end; cbn [app]; repeat f_equal; apply E; Z.to_euclidean_division_equations; lia.
Qed.

Lemma scan_fuel_enough n m l :
  (length l <= n)%nat -> (length l <= m)%nat -> scan_fuel n l = scan_fuel m l.
Proof.
  revert m l. induction n as [|n IH]; intros [|m] l Hn Hm; cbn;
    [done| | |].
  - destruct l; [done|cbn in Hn; lia].
  - destruct l; [done|cbn in Hm; lia].
  - destruct (next l) as [[c l']|] eqn:E; [|done].
    apply next_shorter in E. f_equal. apply IH; lia.
Qed.

Lemma scan_next l :
  scan l = match next l with Some (c, l') => c :: scan l' | None => [] end.
Proof.
  unfold scan. destruct l as [|b l]; [done|].
  cbn [length scan_fuel].
  destruct (next (b :: l)) as [[c l']|] eqn:E; [|done].
  apply next_shorter in E. cbn in E. f_equal. apply scan_fuel_enough; lia.
Qed.

Lemma next_None l : next l = None <-> l = [].
Proof.
  split; [|by intros ->]. destruct l as [|b0 [|b1 [|b2 [|b3 l4]]]]; cbn;
    intros H; repeat case_in H; done.
Qed.

(** Induction along the steps of the decoder. *)
Lemma scan_ind (P : bytes -> Prop) :
  P [] ->
  (forall l c l', next l = Some (c, l') -> P l' -> P l) ->
  forall l, P l.
Proof.
  intros H0 HS l. remember (length l) as n eqn:Hn.
  revert l Hn. induction (lt_wf n) as [n _ IH]. intros l ->.
  destruct (next l) as [[c l']|] eqn:E.
  - apply (HS l c l' E). eapply IH; [|done]. by eapply next_shorter.
  - by apply next_None in E as ->.
Qed.

Lemma valid_next l c l' :
  next l = Some (c, l') -> valid_utf8 l = is_rune c && valid_utf8 l'.
Proof. intros E. unfold valid_utf8. by rewrite (scan_next l), E. Qed.

Lemma runes_next l c l' : next l = Some (c, l') -> runes l = rune_of c :: runes l'.
Proof. intros E. unfold runes. by rewrite (scan_next l), E. Qed.

(** Valid text is the encoding of its runes, all of them scalar values. *)
Lemma valid_runes l :
  valid_utf8 l = true -> encode_runes (runes l) = l /\ Forall scalar (runes l).
Proof.
  induction l as [|l c l' E IH] using scan_ind; [done|].
  rewrite (valid_next _ _ _ E), (runes_next _ _ _ E). intros [Hc Hl']%andb_true_iff.
  destruct c as [r|]; [|done]. apply next_rune in E as [Hr ->].
  destruct (IH Hl') as [H1 H2]. split; [|by constructor].
  cbn [rune_of encode_runes flat_map]. f_equal. exact H1.
Qed.

Lemma runes_inj l k :
  valid_utf8 l = true -> valid_utf8 k = true -> runes l = runes k -> l = k.
Proof.
  intros Hl Hk E. apply valid_runes in Hl as [<- _], Hk as [<- _]. by rewrite E.
Qed.

Lemma scalar_rune_error : scalar rune_error.
Proof. unfold scalar, rune_error. lia. Qed.

Lemma runes_scalar l : Forall scalar (runes l).
Proof.
  induction l as [|l c l' E IH] using scan_ind; [constructor|].
  rewrite (runes_next _ _ _ E). constructor; [|done].
  destruct c; cbn; [by apply next_rune in E as []|apply scalar_rune_error].
Qed.

(** The decoder reads an encoded scalar value back. *)
Lemma next_encode r l : scalar r -> next (encode_rune r ++ l)%list = Some (Rune r, l).
Proof.
  intros Hr. unfold scalar in Hr. unfold encode_rune.
  assert (W : forall lo z hi, lo <= z <= hi -> within lo z hi = true)
    by (intros; by apply within_spec).
  repeat match goal with
  | |- context [if ?x <? ?y then _ else _] => destruct (Z.ltb_spec x y)
  end; cbn [app]; unfold next; cbv zeta;
    rewrite !bz_zb by (Z.to_euclidean_division_equations; lia).
  - by rewrite (proj2 (Z.ltb_lt _ _)) by lia.
  - rewrite (proj2 (Z.ltb_ge _ _)) by (Z.to_euclidean_division_equations; lia).
    rewrite !W by (Z.to_euclidean_division_equations; lia). cbn [andb].
    do 3 f_equal. Z.to_euclidean_division_equations; lia.
  - rewrite (proj2 (Z.ltb_ge _ _)) by (Z.to_euclidean_division_equations; lia).
    replace (within 194 _ 223) with false by (symmetry; apply not_true_iff_false;
      rewrite within_spec; Z.to_euclidean_division_equations; lia). cbn [andb].
    destruct (Z.eqb_spec (224 + r / 4096) 224);
      destruct (Z.eqb_spec (224 + r / 4096) 237);
      rewrite !W by (Z.to_euclidean_division_equations; lia); cbn [andb];
      do 3 f_equal; Z.to_euclidean_division_equations; lia.
  - rewrite (proj2 (Z.ltb_ge _ _)) by (Z.to_euclidean_division_equations; lia).
    replace (within 194 _ 223) with false by (symmetry; apply not_true_iff_false;
      rewrite within_spec; Z.to_euclidean_division_equations; lia).
    replace (within 224 _ 239) with false by (symmetry; apply not_true_iff_false;
      rewrite within_spec; Z.to_euclidean_division_equations; lia). cbn [andb].
    destruct (Z.eqb_spec (240 + r / 262144) 240);
      destruct (Z.eqb_spec (240 + r / 262144) 244);
      rewrite !W by (Z.to_euclidean_division_equations; lia); cbn [andb];
      do 3 f_equal; Z.to_euclidean_division_equations; lia.
Qed.

Lemma scan_encode rs : Forall scalar rs -> scan (encode_runes rs) = map Rune rs.
Proof.
  induction 1 as [|r rs Hr Hrs IH]; [done|]. cbn [encode_runes flat_map map].
  rewrite scan_next, next_encode by done. by rewrite <-IH.
Qed.

Lemma sanitize_valid l : valid_utf8 (sanitize l) = true.
Proof.
  unfold valid_utf8, sanitize. rewrite scan_encode by apply runes_scalar.
  induction (runes l); [done|]. by cbn.
Qed.

Lemma sanitize_id l : valid_utf8 l = true -> sanitize l = l.
Proof. intros H. by apply valid_runes. Qed.

Lemma collapse_valid cs b : forallb is_rune cs = true -> collapse b cs = map rune_of cs.
Proof.
  revert b. induction cs as [|[r|] cs IH]; intros b; cbn; [done| |done].
  intros H. by rewrite IH.
Qed.

Lemma to_valid_utf8_id l : valid_utf8 l = true -> to_valid_utf8 l = l.
Proof.
  intros H. unfold to_valid_utf8. rewrite collapse_valid by done.
  by apply sanitize_id.
Qed.

(** UTF-16 transcoding of scalar values is injective. *)
Lemma utf16_inj rs qs :
  Forall scalar rs -> Forall scalar qs -> utf16 rs = utf16 qs -> rs = qs.
Proof.
  intros Hr. revert qs. induction Hr as [|r rs Hr Hrs IH]; intros qs Hq E.
  - destruct Hq as [|q qs Hq Hqs]; [done|]. cbn in E.
    unfold utf16_rune in E. by destruct (q <? 65536).
  - destruct Hq as [|q qs Hq Hqs]; cbn in E; unfold utf16_rune, scalar in *.
    { by destruct (r <? 65536). }
    destruct (Z.ltb_spec r 65536), (Z.ltb_spec q 65536); cbn in E;
      injection E; intros; subst.
    + f_equal. by apply IH.
    + exfalso. Z.to_euclidean_division_equations; lia.
    + exfalso. Z.to_euclidean_division_equations; lia.
    + f_equal; [Z.to_euclidean_division_equations; lia|]. by apply IH.
Qed.

(** ASCII text decodes to its own bytes. *)
Lemma runes_ascii l : Forall (fun c => bz c < 128) l -> runes l = map bz l.
Proof.
  induction 1 as [|c l Hc Hl IH]; [done|].
  rewrite (runes_next (c :: l) (Rune (bz c)) l).
  - cbn. by rewrite IH.
  - unfold next. by rewrite (proj2 (Z.ltb_lt _ _)).
Qed.

Lemma valid_ascii l : Forall (fun c => bz c < 128) l -> valid_utf8 l = true.
Proof.
  induction 1 as [|c l Hc Hl IH]; [done|].
  rewrite (valid_next (c :: l) (Rune (bz c)) l); [done|].
  unfold next. by rewrite (proj2 (Z.ltb_lt _ _)).
Qed.

Lemma utf16_ascii rs : Forall (fun r => r < 128) rs -> utf16 rs = rs.
Proof.
  induction 1 as [|r rs Hr Hrs IH]; [done|].
  change (utf16 (r :: rs)) with (utf16_rune r ++ utf16 rs)%list. rewrite IH.
  unfold utf16_rune. by rewrite (proj2 (Z.ltb_lt _ _)) by lia.
Qed.

#[export] Hint Resolve sanitize_valid runes_scalar : helm.
