(* ===== verification/Jcs.v ===== *)
(** RFC 8785 canonical JSON, [core/pkg/canonicalize/jcs.go].

    A JSON value is what [json.Decoder.UseNumber] produces: numbers keep their
    literal, objects are Go maps.  A Go map has no order, so an object is a list
    of members with distinct keys whose order carries no meaning; the
    equivalence [jeq] identifies the values that differ only in such orders.
    The theorems state that the canonical bytes are exactly a name for the
    equivalence class, that the UTF-16 comparison has a sound ASCII fast path,
    and that the interoperable number literals are the canonical decimals of
    the safe-integer range. *)
From Stdlib Require Import Ascii Sorted DecimalString DecimalFacts DecimalZ.
From stdpp Require Import sorting.
From S2P Require Import Prelude GoLib Utf8.

Local Open Scope Z_scope.

(** * JSON values *)

Inductive json :=
| JNull
| JBool (b : bool)
| JNum (lit : string)
| JStr (s : string)
| JArr (l : list json)
| JObj (l : list (string * json)).

Section JsonInd.
Context (P : json -> Prop).
Hypothesis Hnull : P JNull.
Hypothesis Hbool : forall b, P (JBool b).
Hypothesis Hnum : forall s, P (JNum s).
Hypothesis Hstr : forall s, P (JStr s).
Hypothesis Harr : forall l, Forall P l -> P (JArr l).
Hypothesis Hobj : forall l, Forall (fun kv => P kv.2) l -> P (JObj l).

Fixpoint json_rect' (j : json) : P j :=
  match j with
  | JNull => Hnull
  | JBool b => Hbool b
  | JNum s => Hnum s
  | JStr s => Hstr s
  | JArr l => Harr l
      ((fix go l : Forall P l := match l with
                    | [] => Forall_nil_2 P
                    | x :: l' => Forall_cons_2 P x l' (json_rect' x) (go l')
                    end) l)
  | JObj l => Hobj l
      ((fix go l : Forall (fun kv => P kv.2) l := match l with
                    | [] => Forall_nil_2 (fun kv => P kv.2)
                    | x :: l' => Forall_cons_2 (fun kv => P kv.2) x l' (json_rect' x.2) (go l')
                    end) l)
  end.
End JsonInd.

(** * The encoder *)

(** Go's [<] on strings, and the loop of [lessUTF16]: compare elementwise, then
    by length. *)
Fixpoint lexb (l k : list Z) : bool :=
  match l, k with
  | x :: l', y :: k' => if x =? y then lexb l' k' else x <? y
  | [], _ :: _ => true
  | _, [] => false
  end.

Definition isASCII (s : string) : bool := forallb (fun c => bz c <? 128) (to_bytes s).

Definition string_lt (a b : string) : bool :=
  lexb (map bz (to_bytes a)) (map bz (to_bytes b)).

Definition lessUTF16 (a b : string) : bool :=
  if String.eqb a b then false
  else if isASCII a && isASCII b then string_lt a b
  else lexb (utf16 (runes (to_bytes a))) (utf16 (runes (to_bytes b))).

Definition hex_digit (z : Z) : ascii := if z <? 10 then zb (48 + z) else zb (87 + z).

Definition dquote : ascii := zb 34.
Definition backslash : ascii := zb 92.

(** The escapes of the [switch] common to [marshalJCSString] and
    [appendJCSQuotedString]; [None] is its [default] case. *)
Definition short_escape (r : Z) : option bytes :=
  if r =? 34 then Some [backslash; dquote]
  else if r =? 92 then Some [backslash; backslash]
  else if r =? 8 then Some [backslash; "b"%char]
  else if r =? 12 then Some [backslash; "f"%char]
  else if r =? 10 then Some [backslash; "n"%char]
  else if r =? 13 then Some [backslash; "r"%char]
  else if r =? 9 then Some [backslash; "t"%char]
  else None.

(** [\u%04x] for a control character. *)
Definition u_escape (r : Z) : bytes :=
  [backslash; "u"%char; "0"%char; "0"%char; hex_digit (r / 16); hex_digit (r mod 16)].

Definition esc_rune (r : Z) : bytes :=
  match short_escape r with
  | Some e => e
  | None => if r <? 32 then u_escape r else encode_rune r
  end.

Definition quote_runes (l : bytes) : bytes :=
  (dquote :: flat_map esc_rune (runes l) ++ [dquote])%list.

Definition err_utf8 : error := "jcs: strings must be valid UTF-8"%string.

Definition marshalJCSString (value : string) : res bytes :=
  if valid_utf8 (to_bytes value) then Ok (quote_runes (to_bytes value)) else Fail err_utf8.

Definition traverse {A B} (f : A -> res B) : list A -> res (list B) :=
  fix go l := match l with
              | [] => Ok []
              | x :: l' => b ← f x; bs ← go l'; Ok (b :: bs)
              end.

Section Sort.
Context {V : Type}.

(** [sort.Slice] with a strict order on distinct keys has one result. *)
Fixpoint insert_by (less : string -> string -> bool) (x : string * V)
    (l : list (string * V)) : list (string * V) :=
  match l with
  | [] => [x]
  | y :: l' => if less x.1 y.1 then x :: l else y :: insert_by less x l'
  end.

Definition sort_by less (l : list (string * V)) : list (string * V) :=
  foldr (insert_by less) [] l.
End Sort.

Fixpoint commas (l : list bytes) : bytes :=
  match l with
  | [] => []
  | [x] => x
  | x :: l' => (x ++ ","%char :: commas l')%list
  end.

Definition brackets (l : list bytes) : bytes := ("["%char :: commas l ++ ["]"%char])%list.
Definition braces (l : list bytes) : bytes := ("{"%char :: commas l ++ ["}"%char])%list.

Definition marshal_member (kv : string * bytes) : res bytes :=
  kb ← marshalJCSString kv.1; Ok (kb ++ ":"%char :: kv.2)%list.

Fixpoint marshalRecursive (v : json) : res bytes :=
  match v with
  | JNull => Ok (to_bytes "null")
  | JBool b => Ok (to_bytes (if b then "true" else "false"))
  | JNum lit => Ok (to_bytes lit)
  | JStr s => marshalJCSString s
  | JArr l => parts ← traverse marshalRecursive l; Ok (brackets parts)
  | JObj l =>
      vals ← traverse (fun kv => b ← marshalRecursive kv.2; Ok (kv.1, b)) l;
      parts ← traverse marshal_member (sort_by lessUTF16 vals);
      Ok (braces parts)
  end.

(** [json.Marshal] followed by [Decode]: ill-formed text is repaired, and of two
    members whose keys become equal the decoder keeps the later one. *)
Definition sanitize_string (s : string) : string := of_bytes (sanitize (to_bytes s)).
Arguments sanitize_string : simpl never.

Fixpoint last_wins {V} (l : list (string * V)) : list (string * V) :=
  match l with
  | [] => []
  | kv :: l' =>
      if existsb (String.eqb kv.1) (map fst l') then last_wins l' else kv :: last_wins l'
  end.

Fixpoint reparse (v : json) : json :=
  match v with
  | JStr s => JStr (sanitize_string s)
  | JArr l => JArr (map reparse l)
  | JObj l => JObj (last_wins (map (fun kv => (sanitize_string kv.1, reparse kv.2)) l))
  | _ => v
  end.

Definition JCS (v : json) : res bytes := marshalRecursive (reparse v).

(** * The key order *)

Lemma lexb_irrefl l : lexb l l = false.
Proof. induction l; cbn; [done|]. by rewrite Z.eqb_refl. Qed.

Lemma lexb_trans l k m : lexb l k = true -> lexb k m = true -> lexb l m = true.
Proof.
  revert k m. induction l as [|x l IH]; intros [|y k] [|z m]; cbn; try done.
  destruct (Z.eqb_spec x y), (Z.eqb_spec y z), (Z.eqb_spec x z); subst; try lia; eauto.
Qed.

Lemma lexb_total l k : lexb l k = true \/ l = k \/ lexb k l = true.
Proof.
  revert k. induction l as [|x l IH]; intros [|y k]; cbn; auto.
  rewrite (Z.eqb_sym y x).
  destruct (Z.eqb_spec x y) as [->|]; [|rewrite !Z.ltb_lt; lia].
  destruct (IH k) as [?|[->|?]]; auto.
Qed.

Lemma isASCII_spec s : isASCII s = true -> Forall (fun c => bz c < 128) (to_bytes s).
Proof.
  unfold isASCII. rewrite forallb_Forall. intros H.
  eapply Forall_impl; [exact H|]. intros c. by rewrite Z.ltb_lt.
Qed.

Definition utf16_key (s : string) : list Z := utf16 (runes (to_bytes s)).

Lemma utf16_key_ascii s : isASCII s = true -> utf16_key s = map bz (to_bytes s).
Proof.
  intros H%isASCII_spec. unfold utf16_key. rewrite runes_ascii by done.
  apply utf16_ascii, Forall_map. eapply Forall_impl; [exact H|]. done.
Qed.

(** The ASCII fast path and the equality test do not change the order. *)
Lemma lessUTF16_spec a b : lessUTF16 a b = lexb (utf16_key a) (utf16_key b).
Proof.
  unfold lessUTF16. destruct (String.eqb_spec a b) as [->|Hne].
  - by rewrite lexb_irrefl.
  - destruct (isASCII a && isASCII b) eqn:E; [|done].
    apply andb_true_iff in E as [Ea Eb]. unfold string_lt.
    by rewrite !utf16_key_ascii.
Qed.

Definition valid_string (s : string) : bool := valid_utf8 (to_bytes s).
Arguments valid_string : simpl never.

Lemma utf16_key_inj a b :
  valid_string a = true -> valid_string b = true -> utf16_key a = utf16_key b -> a = b.
Proof.
  unfold valid_string, utf16_key. intros Ha Hb E.
  apply to_bytes_inj, runes_inj; [done..|].
  apply utf16_inj; auto with helm.
Qed.

Section SortFacts.
Context {V : Type}.
Implicit Types (l : list (string * V)).

Definition key_lt (x y : string * V) : Prop := lessUTF16 x.1 y.1 = true.

#[local] Instance key_lt_trans : Transitive key_lt.
Proof.
  intros x y z. unfold key_lt. rewrite !lessUTF16_spec. apply lexb_trans.
Qed.

Lemma insert_by_perm {less} x l : insert_by less x l ≡ₚ x :: l.
Proof.
  induction l as [|y l IH]; cbn; [done|]. destruct (less x.1 y.1); [done|].
  rewrite IH. apply Permutation_swap.
Qed.

Lemma sort_by_cons {less} x l :
  sort_by less (x :: l) = insert_by less x (sort_by less l).
Proof. done. Qed.

Lemma sort_by_perm {less} l : sort_by less l ≡ₚ l.
Proof.
  induction l as [|x l IH]; [done|]. by rewrite sort_by_cons, insert_by_perm, IH.
Qed.

Definition good_keys l : Prop :=
  NoDup l.*1 /\ Forall (fun kv => valid_string kv.1 = true) l.

#[global] Instance good_keys_perm : Proper ((≡ₚ) ==> iff) good_keys.
Proof. intros l k E. unfold good_keys. by rewrite E. Qed.

Lemma key_total (x y : string * V) :
  valid_string x.1 = true -> valid_string y.1 = true -> x.1 <> y.1 ->
  key_lt x y \/ key_lt y x.
Proof.
  intros Hx Hy Hne. unfold key_lt. rewrite !lessUTF16_spec.
  destruct (lexb_total (utf16_key x.1) (utf16_key y.1)) as [?|[E|?]]; auto.
  by apply utf16_key_inj in E.
Qed.

Lemma insert_by_sorted x l :
  good_keys (x :: l) -> StronglySorted key_lt l ->
  StronglySorted key_lt (insert_by lessUTF16 x l).
Proof.
  intros [Hnd Hv] Hs. induction Hs as [|y l Hs IH Hy]; cbn; [by repeat constructor|].
  cbn in Hnd. apply NoDup_cons in Hnd as [Hx Hnd]. apply NoDup_cons in Hnd as [Hy' Hnd].
  inversion Hv as [|?? Hvx Hv']; subst. inversion Hv' as [|?? Hvy Hvl]; subst.
  destruct (lessUTF16 x.1 y.1) eqn:E.
  - repeat constructor; [done|done|done|].
    eapply Forall_impl; [exact Hy|]. intros z Hz. by etrans; [exact E|].
  - constructor.
    + apply IH; [|by constructor]. cbn. apply NoDup_cons. split; [set_solver|done].
    + rewrite insert_by_perm. constructor; [|done].
      destruct (key_total x y) as [H|H]; [done..|set_solver| |done].
      unfold key_lt in H. congruence.
Qed.

Lemma sort_by_sorted l : good_keys l -> StronglySorted key_lt (sort_by lessUTF16 l).
Proof.
  induction l as [|x l IH]; [constructor|]. intros H. rewrite sort_by_cons.
  apply insert_by_sorted.
  - by rewrite sort_by_perm.
  - apply IH. destruct H as [Hn Hv]. split; [by apply NoDup_cons in Hn as []|by inversion Hv].
Qed.

Lemma sort_by_unique l k :
  good_keys l -> l ≡ₚ k -> sort_by lessUTF16 l = sort_by lessUTF16 k.
Proof.
  intros Hl E. eapply (StronglySorted_unique_strong key_lt).
  - intros x y _ _ Hxy Hyx. exfalso. unfold key_lt in *.
    rewrite lessUTF16_spec in *. pose proof (lexb_trans _ _ _ Hxy Hyx) as H.
    by rewrite lexb_irrefl in H.
  - by apply sort_by_sorted.
  - apply sort_by_sorted. by rewrite <-E.
  - by rewrite !sort_by_perm.
Qed.
End SortFacts.
Arguments good_keys {V} l.

(** Sorting looks at the keys only. *)
Lemma sort_by_map {V U} (f : V -> U) (l : list (string * V)) :
  sort_by lessUTF16 (map (fun kv => (kv.1, f kv.2)) l)
  = map (fun kv => (kv.1, f kv.2)) (sort_by lessUTF16 l).
Proof.
  induction l as [|x l IH]; [done|]. cbn [map]. rewrite !sort_by_cons, IH.
  generalize (sort_by lessUTF16 l). intros k.
  induction k as [|y k IHk]; cbn; [done|].
  destruct (lessUTF16 x.1 y.1); cbn; [done|]. by rewrite IHk.
Qed.

(** * The encoder without its error path *)

(** The byte loop of [appendJCSQuotedString] (crypto/canonical.go). *)
Definition esc_byte (c : ascii) : bytes :=
  match short_escape (bz c) with
  | Some e => e
  | None => if bz c <? 32 then u_escape (bz c) else [c]
  end.

Definition quote_bytes (l : bytes) : bytes := (dquote :: flat_map esc_byte l ++ [dquote])%list.

Lemma esc_byte_high c : 128 <= bz c -> esc_byte c = [c].
Proof.
  intros H. unfold esc_byte, short_escape.
  repeat match goal with |- context [?x =? ?y] => destruct (Z.eqb_spec x y); [lia|] end.
  by rewrite (proj2 (Z.ltb_ge _ _)) by lia.
Qed.

Lemma encode_rune_high r : scalar r -> 128 <= r -> Forall (fun c => 128 <= bz c) (encode_rune r).
Proof.
  intros Hr H. unfold scalar in Hr. unfold encode_rune.
  repeat match goal with |- context [?x <? ?y] => destruct (Z.ltb_spec x y); try lia end;
    repeat constructor; rewrite bz_zb; Z.to_euclidean_division_equations; lia.
Qed.

Lemma esc_rune_bytes r : scalar r -> esc_rune r = flat_map esc_byte (encode_rune r).
Proof.
  intros Hr. destruct (Z.ltb_spec r 128) as [Hlt|Hge].
  - unfold encode_rune. rewrite (proj2 (Z.ltb_lt _ _)) by lia. cbn.
    rewrite app_nil_r. unfold esc_rune, esc_byte, encode_rune.
    rewrite bz_zb by (unfold scalar in Hr; lia).
    destruct (short_escape r); [done|]. destruct (r <? 32); [done|].
    by rewrite (proj2 (Z.ltb_lt _ _)) by lia.
  - unfold esc_rune, short_escape.
    repeat match goal with |- context [?x =? ?y] => destruct (Z.eqb_spec x y); [lia|] end.
    rewrite (proj2 (Z.ltb_ge _ _)) by lia.
    induction (encode_rune_high r Hr Hge) as [|c l Hc Hl IH]; [done|].
    cbn [flat_map]. rewrite esc_byte_high by done. cbn [app]. by f_equal.
Qed.

Lemma esc_runes_bytes rs :
  Forall scalar rs -> flat_map esc_rune rs = flat_map esc_byte (encode_runes rs).
Proof.
  induction 1 as [|r rs Hr Hrs IH]; [done|]. unfold encode_runes in *.
  cbn [flat_map]. rewrite flat_map_app, IH. f_equal. by apply esc_rune_bytes.
Qed.

(** The rune-wise and the byte-wise escapers agree on valid text. *)
Lemma quote_runes_bytes l : valid_utf8 l = true -> quote_runes l = quote_bytes l.
Proof.
  intros [E Hs]%valid_runes. unfold quote_runes, quote_bytes.
  by rewrite esc_runes_bytes, E.
Qed.

Definition quote (s : string) : bytes := quote_bytes (to_bytes s).

Fixpoint enc (v : json) : bytes :=
  match v with
  | JNull => to_bytes "null"
  | JBool b => to_bytes (if b then "true" else "false")
  | JNum lit => to_bytes lit
  | JStr s => quote s
  | JArr l => brackets (map enc l)
  | JObj l => braces (map (fun kv => quote kv.1 ++ ":"%char :: kv.2)%list
                (sort_by lessUTF16 (map (fun kv => (kv.1, enc kv.2)) l)))
  end.

Fixpoint all_valid (v : json) : bool :=
  match v with
  | JStr s => valid_string s
  | JArr l => forallb all_valid l
  | JObj l => forallb (fun kv => valid_string kv.1 && all_valid kv.2) l
  | _ => true
  end.

Lemma traverse_spec {A B} (f : A -> res B) (g : A -> B) (p : A -> bool) e l :
  Forall (fun x => f x = if p x then Ok (g x) else Fail e) l ->
  traverse f l = if forallb p l then Ok (map g l) else Fail e.
Proof.
  induction 1 as [|x l Hx Hl IH]; cbn; [done|]. rewrite Hx.
  destruct (p x); cbn; [|done]. rewrite IH. by destruct (forallb p l).
Qed.

Lemma marshalJCSString_spec s :
  marshalJCSString s = if valid_string s then Ok (quote s) else Fail err_utf8.
Proof.
  unfold marshalJCSString, valid_string. destruct (valid_utf8 _) eqn:E; [|done].
  by rewrite quote_runes_bytes.
Qed.

Lemma forallb_perm {A} (p : A -> bool) l k : l ≡ₚ k -> forallb p l = forallb p k.
Proof. induction 1; cbn; try congruence. destruct (p x), (p y); done. Qed.

Lemma forallb_andb {A} (p q : A -> bool) l :
  forallb (fun x => p x && q x) l = forallb q l && forallb p l.
Proof.
  induction l as [|x l IH]; cbn; [done|]. rewrite IH.
  destruct (p x), (q x), (forallb q l), (forallb p l); done.
Qed.

Lemma forallb_map {A B} (f : A -> B) (p : B -> bool) l :
  forallb p (map f l) = forallb (fun x => p (f x)) l.
Proof. induction l; cbn; congruence. Qed.

(** The encoder fails only on ill-formed text, and otherwise emits [enc]. *)
Lemma marshalRecursive_spec v :
  marshalRecursive v = if all_valid v then Ok (enc v) else Fail err_utf8.
Proof.
  induction v as [| | |s|l IH|l IH] using json_rect'; try done.
  - apply marshalJCSString_spec.
  - cbn. rewrite (traverse_spec _ _ _ _ _ IH). by destruct (forallb all_valid l).
  - cbn. rewrite (traverse_spec _ (fun kv => (kv.1, enc kv.2)) (fun kv => all_valid kv.2) err_utf8).
    2: { eapply Forall_impl; [exact IH|]. intros kv E. cbn in E. rewrite E.
         by destruct (all_valid kv.2). }
    rewrite forallb_andb. destruct (forallb (fun kv => all_valid kv.2) l); cbn; [|done].
    rewrite (traverse_spec _ (fun kv => quote kv.1 ++ ":"%char :: kv.2)%list
               (fun kv => valid_string kv.1) err_utf8).
    2: { apply Forall_true. intros kv. unfold marshal_member.
         rewrite marshalJCSString_spec. by destruct (valid_string kv.1). }
    rewrite (forallb_perm _ _ _ (sort_by_perm _)), forallb_map. cbn.
    by destruct (forallb _ l).
Qed.

(** * Equal up to the order of members *)

Inductive jeq : json -> json -> Prop :=
| jeq_refl j : jeq j j
| jeq_arr l k : Forall2 jeq l k -> jeq (JArr l) (JArr k)
| jeq_obj l k' k :
    Forall2 (fun x y => x.1 = y.1 /\ jeq x.2 y.2) l k' -> k' ≡ₚ k ->
    jeq (JObj l) (JObj k).

Definition num_char (c : ascii) : bool :=
  existsb (Ascii.eqb c) (to_bytes "0123456789-+.eE").

Definition num_literal (lit : string) : bool :=
  negb (String.eqb lit "") && forallb num_char (to_bytes lit).

(** A value the JSON decoder can produce: number literals made of number
    characters, members with distinct keys. *)
Fixpoint json_wf (v : json) : bool :=
  match v with
  | JNum lit => num_literal lit
  | JArr l => forallb json_wf l
  | JObj l => bool_decide (NoDup l.*1) && forallb (fun kv => json_wf kv.2) l
  | _ => true
  end.

(** The distinctness of keys alone. *)
Fixpoint json_nodup (v : json) : bool :=
  match v with
  | JArr l => forallb json_nodup l
  | JObj l => bool_decide (NoDup l.*1) && forallb (fun kv => json_nodup kv.2) l
  | _ => true
  end.

Lemma json_wf_nodup v : json_wf v = true -> json_nodup v = true.
Proof.
  induction v as [| | |s|l IH|l IH] using json_rect'; cbn; try done;
    rewrite ?andb_true_iff, !forallb_Forall; rewrite !Forall_forall in *; naive_solver.
Qed.

(** ** Equal values have equal bytes *)

Lemma Forall2_map_eq {A B} (f : A -> B) (R : A -> A -> Prop) l k :
  Forall (fun x => forall y, R x y -> f x = f y) l -> Forall2 R l k -> map f l = map f k.
Proof.
  intros H H2. induction H2 as [|x y l k Hxy H2 IH]; [done|].
  inversion H; subst. cbn. f_equal; auto.
Qed.

Lemma jeq_all_valid j k : jeq j k -> all_valid j = all_valid k.
Proof.
  revert k. induction j as [| | |s|l IH|l IH] using json_rect'; intros k E;
    inversion E as [|l1 k1 H2|l1 k' k1 H2 Hp]; subst; try done; cbn.
  - clear E. induction H2 as [|x y l k Hxy H2 IH2]; [done|]. inversion IH; subst. cbn.
    f_equal; auto.
  - rewrite <-(forallb_perm _ _ _ Hp). clear Hp E k1.
    induction H2 as [|x y l k [Hk Hxy] H2 IH2]; [done|]. inversion IH; subst. cbn.
    rewrite Hk. f_equal; [f_equal; auto|auto].
Qed.

Lemma good_keys_enc {V} (f : json -> V) l :
  NoDup l.*1 -> forallb (fun kv => valid_string kv.1 && all_valid kv.2) l = true ->
  good_keys (map (fun kv => (kv.1, f kv.2)) l).
Proof.
  intros Hn Hv. split.
  - replace ((map _ l).*1) with (l.*1); [done|]. clear. induction l; cbn; congruence.
  - apply Forall_map, forallb_Forall. cbn.
    apply forallb_forall. intros x Hx. rewrite forallb_forall in Hv.
    specialize (Hv x Hx). by apply andb_true_iff in Hv as [].
Qed.

Lemma jeq_enc j k :
  json_nodup j = true -> all_valid j = true -> jeq j k -> enc j = enc k.
Proof.
  revert k. induction j as [| | |s|l IH|l IH] using json_rect'; intros k Hw Hv E;
    inversion E as [|l1 k1 H2|l1 k' k1 H2 Hp]; subst; try done; cbn in *.
  - f_equal. apply (Forall2_map_eq enc jeq); [|done].
    rewrite !forallb_Forall in *. rewrite Forall_forall in *. eauto.
  - apply andb_true_iff in Hw as [Hn Hw]. apply bool_decide_eq_true in Hn.
    do 2 f_equal. transitivity (sort_by lessUTF16 (map (fun kv => (kv.1, enc kv.2)) k')).
    + f_equal. apply (Forall2_map_eq _ (fun x y => x.1 = y.1 /\ jeq x.2 y.2)); [|done].
      rewrite !forallb_Forall in *. rewrite Forall_forall in *.
      intros x Hx y [-> Hxy]. f_equal. apply (IH x Hx); auto.
      specialize (Hv x Hx). by apply andb_true_iff in Hv as [].
    + symmetry. apply sort_by_unique; [|by rewrite Hp].
      rewrite <-Hp. apply good_keys_enc.
      * replace (k'.*1) with (l.*1); [done|]. clear -H2.
        by induction H2 as [|x y ?? [Hk _] ? IH']; [done|cbn; f_equal].
      * assert (HE : jeq (JObj l) (JObj k')) by (by eapply jeq_obj).
        apply jeq_all_valid in HE. cbn in HE. by rewrite <-HE.
Qed.

(** ** Equal bytes come from equal values *)

Fixpoint norm (v : json) : json :=
  match v with
  | JArr l => JArr (map norm l)
  | JObj l => JObj (sort_by lessUTF16 (map (fun kv => (kv.1, norm kv.2)) l))
  | _ => v
  end.

Fixpoint render (v : json) : bytes :=
  match v with
  | JNull => to_bytes "null"
  | JBool b => to_bytes (if b then "true" else "false")
  | JNum lit => to_bytes lit
  | JStr s => quote s
  | JArr l => brackets (map render l)
  | JObj l => braces (map (fun kv => quote kv.1 ++ ":"%char :: render kv.2)%list l)
  end.

Lemma enc_render v : enc v = render (norm v).
Proof.
  induction v as [| | |s|l IH|l IH] using json_rect'; try done; cbn; f_equal.
  - rewrite map_map. apply map_ext_in. rewrite Forall_forall in IH.
    intros x Hx. by apply IH, list_elem_of_In.
  - replace (map (fun kv => (kv.1, enc kv.2)) l)
      with (map (fun kv => (kv.1, render (norm kv.2))) l).
    + replace (map (fun kv => (kv.1, render (norm kv.2))) l) with
        (map (fun kv => (kv.1, render kv.2)) (map (fun kv => (kv.1, norm kv.2)) l))
        by by rewrite map_map.
      rewrite (sort_by_map render), map_map. done.
    + apply map_ext_in. rewrite Forall_forall in IH.
      intros x Hx. f_equal. symmetry. by apply IH, list_elem_of_In.
Qed.

Definition unescape (l : bytes) : option (ascii * bytes) :=
  match l with
  | [] => None
  | c :: r =>
      if Ascii.eqb c dquote then None
      else if Ascii.eqb c backslash then
        match r with
        | e :: r' =>
            if Ascii.eqb e "u"%char then
              match r' with
              | _ :: _ :: h :: d :: r'' =>
                  let v c := if bz c <? 58 then bz c - 48 else bz c - 87 in
                  Some (zb (v h * 16 + v d), r'')
              | _ => None
              end
            else Some ((if Ascii.eqb e "b"%char then zb 8 else
                        if Ascii.eqb e "f"%char then zb 12 else
                        if Ascii.eqb e "n"%char then zb 10 else
                        if Ascii.eqb e "r"%char then zb 13 else
                        if Ascii.eqb e "t"%char then zb 9 else e), r')
        | [] => None
        end
      else Some (c, r)
  end.

Lemma unescape_esc c r : unescape (esc_byte c ++ r)%list = Some (c, r).
Proof. destruct c as [[] [] [] [] [] [] [] []]; reflexivity. Qed.

Lemma quote_bytes_inj l k r s :
  (quote_bytes l ++ r = quote_bytes k ++ s)%list -> l = k /\ r = s.
Proof.
  unfold quote_bytes. cbn [app]. intros [= E]. rewrite <-!app_assoc in E.
  revert k E. induction l as [|c l IH]; intros [|d k] E; cbn [flat_map] in E.
  - by injection E.
  - rewrite <-app_assoc in E. apply (f_equal unescape) in E.
    by rewrite unescape_esc in E.
  - rewrite <-app_assoc in E. apply (f_equal unescape) in E.
    by rewrite unescape_esc in E.
  - rewrite <-!app_assoc in E. apply (f_equal unescape) in E.
    rewrite !unescape_esc in E. injection E as -> E. apply IH in E as [-> ->]. done.
Qed.

Lemma quote_inj s t r r' : (quote s ++ r = quote t ++ r')%list -> s = t /\ r = r'.
Proof. intros [E ->]%quote_bytes_inj. split; [by apply to_bytes_inj|done]. Qed.

(** What may follow a value inside a document. *)
Definition delim (r : bytes) : bool :=
  match r with
  | [] => true
  | c :: _ => existsb (Ascii.eqb c) (to_bytes ",]}")
  end.

Section Seq.
Context {A : Type} (f : A -> bytes) (close : ascii) (Q : A -> Prop).

Definition inj_at (x : A) : Prop :=
  forall y r s, Q y -> delim r = true -> delim s = true ->
    (f x ++ r = f y ++ s)%list -> x = y /\ r = s.

Hypothesis Hclose : delim [close] = true /\ close <> ","%char.
Hypothesis Hhead : forall x, Q x -> (exists c t, f x = c :: t /\ c <> close).

Definition follow (l : list A) (r : bytes) : bytes :=
  match l with [] => close :: r | _ => ","%char :: commas (map f l) ++ close :: r end%list.

Lemma commas_cons x l r :
  (commas (map f (x :: l)) ++ close :: r = f x ++ follow l r)%list.
Proof. destruct l; cbn; [done|]. by rewrite <-app_assoc. Qed.

Lemma delim_follow l r : delim (follow l r) = true.
Proof. destruct Hclose as [H _]. by destruct l. Qed.

Lemma commas_inj l k r s :
  Forall inj_at l -> Forall Q l -> Forall Q k ->
  (commas (map f l) ++ close :: r = commas (map f k) ++ close :: s)%list ->
  l = k /\ r = s.
Proof.
  intros Hi. revert k. induction Hi as [|x l Hx Hi IH]; intros k Ql Qk E.
  - destruct Qk as [|y k Qy Qk]; [by injection E|].
    rewrite commas_cons in E. destruct (Hhead y Qy) as (c&t&Ey&Hc).
    rewrite Ey in E. injection E. congruence.
  - inversion Ql as [|?? Qx Ql']; subst. destruct Qk as [|y k Qy Qk].
    + rewrite commas_cons in E. destruct (Hhead x Qx) as (c&t&Ex&Hc).
      rewrite Ex in E. injection E. congruence.
    + rewrite !commas_cons in E.
      apply Hx in E as [-> E]; [|done|apply delim_follow..].
      destruct Hclose as [_ Hne].
      destruct l as [|x' l], k as [|y' k]; cbn [follow] in E; injection E;
        try congruence.
      * by intros ->.
      * intros E'. apply (IH (y' :: k)) in E' as [E1 ->]; [|done..]. by rewrite E1.
Qed.
End Seq.

Lemma num_literal_head lit :
  num_literal lit = true ->
  exists c t, to_bytes lit = c :: t /\ num_char c = true /\ forallb num_char t = true.
Proof.
  unfold num_literal. intros [H1 H2]%andb_true_iff.
  destruct lit as [|c lit]; [done|]. cbn in H2. apply andb_true_iff in H2 as [Hc Hl].
  by exists c, (to_bytes lit).
Qed.

(** The first byte of a rendered value tells which kind of value it is. *)
Definition kind_byte (v : json) (c : ascii) : Prop :=
  match v with
  | JNull => c = "n"%char
  | JBool b => c = if b then "t"%char else "f"%char
  | JNum _ => num_char c = true
  | JStr _ => c = dquote
  | JArr _ => c = "["%char
  | JObj _ => c = "{"%char
  end.

Lemma render_head v : json_wf v = true -> exists c t, render v = c :: t /\ kind_byte v c.
Proof.
  destruct v as [|[]|lit|s|l|l]; cbn; intros Hw; try (by do 2 eexists).
  apply num_literal_head in Hw as (c&t&E&Hc&_). eauto.
Qed.

Lemma render_head_close v close :
  json_wf v = true -> close = "]"%char \/ close = "}"%char ->
  exists c t, render v = c :: t /\ c <> close.
Proof.
  intros Hw Hcl. destruct (render_head v Hw) as (c&t&E&Hk). exists c, t. split; [done|].
  destruct v as [|[]|lit|s|l|l]; cbn in Hk; subst; try (by destruct Hcl as [->| ->]).
  intros ->. by destruct Hcl as [->| ->].
Qed.

Lemma num_app_inj t u r s :
  forallb num_char t = true -> forallb num_char u = true ->
  delim r = true -> delim s = true -> (t ++ r = u ++ s)%list -> t = u /\ r = s.
Proof.
  assert (D : forall c r, num_char c = true -> delim (c :: r) = true -> False).
  { intros c r'. destruct c as [[] [] [] [] [] [] [] []]; cbn; discriminate. }
  revert u. induction t as [|c t IH]; intros [|d u] Ht Hu Hr Hs E; cbn in *.
  - done.
  - subst r. apply andb_true_iff in Hu as [Hd _]. exfalso. by eapply D.
  - subst s. apply andb_true_iff in Ht as [Hd _]. exfalso. by eapply D.
  - injection E as -> E. apply andb_true_iff in Ht as [_ Ht], Hu as [_ Hu].
    by apply IH in E as [-> ->].
Qed.

Definition member (kv : string * json) : bytes :=
  (quote kv.1 ++ ":"%char :: render kv.2)%list.

(** A rendered value can be split off the front of a document in one way. *)
Lemma render_inj v :
  json_wf v = true -> inj_at render (fun w => json_wf w = true) v.
Proof.
  induction v as [|b|lit|s|l IH|l IH] using json_rect';
    intros Hw w r r' Hw' Hr Hr' E;
    pose proof (render_head _ Hw) as (c&t&Ec&Hk);
    pose proof (render_head _ Hw') as (d&u&Ed&Hk');
    pose proof E as E0; rewrite Ec, Ed in E0; injection E0 as Ecd _; subst d; clear Ec Ed.
  - destruct w as [|[]| | | |]; cbn in *; by simplify_eq.
  - destruct w as [|b'| | | |]; cbn in *; subst; try (by destruct b).
    by destruct b, b'; try discriminate; injection E.
  - destruct w as [|b'|lit'| | |]; cbn in *; subst; try done; [by destruct b'|].
    apply num_literal_head in Hw as (x&t1&E1&Hx&Ht), Hw' as (y&u1&E2&Hy&Hu).
    apply num_app_inj in E as [E ->]; [by apply to_bytes_inj in E as ->|..]; try done;
      [rewrite E1|rewrite E2]; cbn [forallb]; by rewrite ?Hx, ?Hy.
  - destruct w as [|b'|lit'|s'| |]; cbn in *; subst; try done; [by destruct b'|].
    by apply quote_inj in E as [-> ->].
  - destruct w as [|b'|lit'|s'|l'|]; cbn in *; subst; try done; [by destruct b'|].
    injection E as E. rewrite <-!app_assoc in E. cbn in E.
    apply (commas_inj render _ (fun w => json_wf w = true)) in E as [-> ->]; try done.
    + intros x Hx. apply render_head_close; auto.
    + rewrite forallb_Forall in Hw. rewrite Forall_forall in *. intros x Hx. by apply IH, Hw.
    + by apply forallb_Forall.
    + by apply forallb_Forall.
  - destruct w as [|b'|lit'|s'|l'|l']; cbn in *; subst; try done; [by destruct b'|].
    injection E as E. rewrite <-!app_assoc in E. cbn in E.
    apply andb_true_iff in Hw as [_ Hw], Hw' as [_ Hw'].
    apply (commas_inj member _ (fun kv => json_wf kv.2 = true)) in E as [-> ->]; try done.
    + intros x Hx. by do 2 eexists.
    + rewrite forallb_Forall in Hw. rewrite Forall_forall in *.
      intros x Hx y q q' Qy Hq Hq' E'. unfold member in E'. rewrite <-!app_assoc in E'.
      apply quote_inj in E' as [Ek E']. cbn in E'. injection E' as E'.
      apply (IH x Hx (Hw x Hx)) in E' as [Ev ->]; [|done..].
      by destruct x, y; cbn in *; subst.
    + by apply forallb_Forall.
    + by apply forallb_Forall.
Qed.

Lemma norm_wf v : json_wf v = true -> json_wf (norm v) = true.
Proof.
  induction v as [| | |s|l IH|l IH] using json_rect'; cbn; try done.
  - rewrite forallb_map, !forallb_Forall, !Forall_forall in *. auto.
  - intros [Hn Hw]%andb_true_iff. apply andb_true_iff. split.
    + apply bool_decide_eq_true. rewrite sort_by_perm. apply bool_decide_eq_true in Hn.
      replace ((map _ l).*1) with (l.*1); [done|]. clear. induction l; cbn; congruence.
    + rewrite (forallb_perm _ _ _ (sort_by_perm _)), forallb_map. cbn.
      rewrite forallb_Forall, Forall_forall in *. auto.
Qed.

Lemma norm_jeq j k : norm j = norm k -> jeq j k.
Proof.
  revert k. induction j as [| | |s|l IH|l IH] using json_rect'; intros k E;
    destruct k; cbn in E; simplify_eq; try (by constructor).
  - apply jeq_arr. rename select (map norm l = _) into E. revert l0 E.
    induction IH as [|x l Hx IH IHl]; intros [|y k] E; try done.
    injection E as E1 E2. constructor; auto.
  - rename select (sort_by _ _ = _) into E.
    assert (P : map (fun kv => (kv.1, norm kv.2)) l0 ≡ₚ map (fun kv => (kv.1, norm kv.2)) l).
    { by rewrite <-(sort_by_perm (less := lessUTF16) (map _ l0)), <-E, sort_by_perm. }
    symmetry in P. apply Permutation_map_inv in P as (k'&Ek'&Hp).
    apply (jeq_obj _ k'); [|done]. clear E Hp. revert k' Ek'.
    induction IH as [|x l Hx IH IHl]; intros [|y k] E; try done.
    injection E as E1 E2 E3. constructor; auto.
Qed.

(** * JCS on arbitrary input *)

Lemma last_wins_keys {V} (l : list (string * V)) k :
  k ∈ (last_wins l).*1 -> k ∈ l.*1.
Proof.
  induction l as [|x l IH]; cbn; [done|]. destruct (existsb _ _); cbn; set_solver.
Qed.

Lemma last_wins_NoDup {V} (l : list (string * V)) : NoDup (last_wins l).*1.
Proof.
  induction l as [|x l IH]; cbn; [constructor|].
  destruct (existsb (String.eqb x.1) (map fst l)) eqn:E; [done|].
  cbn. apply NoDup_cons. split; [|done]. intros H%last_wins_keys.
  assert (existsb (String.eqb x.1) (map fst l) = true); [|congruence].
  apply existsb_exists. exists x.1. rewrite String.eqb_refl. by apply list_elem_of_In in H.
Qed.

Lemma last_wins_Forall {V} (P : string * V -> Prop) l : Forall P l -> Forall P (last_wins l).
Proof. induction 1 as [|x l Hx Hl IH]; cbn; [constructor|]. destruct (existsb _ _); auto. Qed.

Lemma last_wins_nil {V} (l : list (string * V)) : last_wins l = [] -> l = [].
Proof.
  induction l as [|x l IH]; cbn; [done|].
  destruct (existsb (String.eqb x.1) (map fst l)) eqn:E; [|done].
  intros ->%IH. done.
Qed.

Lemma last_wins_id {V} (l : list (string * V)) : NoDup l.*1 -> last_wins l = l.
Proof.
  induction l as [|x l IH]; cbn; [done|]. rewrite NoDup_cons. intros [Hx Hn].
  destruct (existsb (String.eqb x.1) (map fst l)) eqn:E; [|by rewrite IH].
  apply existsb_exists in E as (k&Hk&Ek%String.eqb_eq). subst.
  by apply list_elem_of_In in Hk.
Qed.

Lemma reparse_wf v : json_wf v = true -> json_wf (reparse v) = true.
Proof.
  induction v as [| | |s|l IH|l IH] using json_rect'; cbn; try done.
  - rewrite forallb_map, !forallb_Forall, !Forall_forall in *. auto.
  - intros [_ Hw]%andb_true_iff. apply andb_true_iff. split.
    + apply bool_decide_eq_true, last_wins_NoDup.
    + apply forallb_Forall, last_wins_Forall, Forall_map.
      rewrite forallb_Forall, !Forall_forall in *. cbn. auto.
Qed.

Lemma reparse_nodup v : json_nodup (reparse v) = true.
Proof.
  induction v as [| | |s|l IH|l IH] using json_rect'; cbn; try done.
  - by rewrite forallb_map, forallb_Forall.
  - apply andb_true_iff. split.
    + apply bool_decide_eq_true, last_wins_NoDup.
    + apply forallb_Forall, last_wins_Forall, Forall_map. done.
Qed.

Lemma sanitize_string_valid s : valid_string (sanitize_string s) = true.
Proof.
  unfold valid_string, sanitize_string. rewrite to_of_bytes. apply sanitize_valid.
Qed.

Lemma reparse_valid v : all_valid (reparse v) = true.
Proof.
  induction v as [| | |s|l IH|l IH] using json_rect'; cbn; try done.
  - apply sanitize_string_valid.
  - by rewrite forallb_map, forallb_Forall.
  - apply forallb_Forall, last_wins_Forall, Forall_map.
    eapply Forall_impl; [exact IH|]. intros kv H. cbn in *.
    by rewrite sanitize_string_valid, H.
Qed.

Lemma sanitize_string_id s : valid_string s = true -> sanitize_string s = s.
Proof.
  unfold valid_string, sanitize_string. intros H.
  by rewrite sanitize_id, of_to_bytes.
Qed.

(** Well-formed values pass through [json.Marshal] and [Decode] unchanged. *)
Lemma reparse_id v : json_nodup v = true -> all_valid v = true -> reparse v = v.
Proof.
  induction v as [| | |s|l IH|l IH] using json_rect'; cbn; try done.
  - intros _ H. by rewrite sanitize_string_id.
  - intros Hw Hv. f_equal. rewrite forallb_Forall in *. rewrite Forall_forall in *.
    rewrite <-(map_id l) at 2. apply map_ext_in. intros x Hx%list_elem_of_In. auto.
  - intros [Hn Hw]%andb_true_iff Hv. apply bool_decide_eq_true in Hn. f_equal.
    replace (map _ l) with l; [by apply last_wins_id|].
    rewrite forallb_Forall in *. rewrite Forall_forall in *.
    rewrite <-(map_id l) at 1. apply map_ext_in. intros [k x] Hx%list_elem_of_In.
    specialize (Hv _ Hx). apply andb_true_iff in Hv as [Hk Hv]. cbn in *.
    rewrite sanitize_string_id by done. f_equal. symmetry. by apply (IH _ Hx (Hw _ Hx)).
Qed.

Lemma JCS_Ok v : JCS v = Ok (enc (reparse v)).
Proof. unfold JCS. by rewrite marshalRecursive_spec, reparse_valid. Qed.

Lemma enc_jeq j k :
  json_wf j = true -> json_wf k = true -> enc j = enc k -> jeq j k.
Proof.
  intros Hj Hk E. apply norm_jeq. rewrite !enc_render in E.
  eapply (render_inj (norm j)) with (r := []) (s := []); auto using norm_wf.
  by rewrite E.
Qed.

Lemma jeq_nodup j k : jeq j k -> json_nodup j = json_nodup k.
Proof.
  revert k. induction j as [| | |s|l IH|l IH] using json_rect'; intros k E;
    inversion E as [|l1 k1 H2|l1 k' k1 H2 Hp]; subst; try done; cbn; clear E.
  - induction H2 as [|x y l k Hxy H2 IH2]; [done|]. inversion IH; subst. cbn.
    f_equal; auto.
  - rewrite <-(forallb_perm _ _ _ Hp).
    assert (Hk : l.*1 = k'.*1).
    { clear -H2. by induction H2 as [|x y ?? [Hk _] ? IH']; [done|cbn; f_equal]. }
    f_equal; [rewrite Hk; apply bool_decide_ext; by rewrite Hp|]. clear Hk Hp.
    induction H2 as [|x y l k [Hk Hxy] H2 IH2]; [done|]. inversion IH; subst. cbn.
    f_equal; auto.
Qed.

Lemma JCS_jeq j k : jeq (reparse j) (reparse k) -> JCS j = JCS k.
Proof.
  intros E. rewrite !JCS_Ok. f_equal. apply jeq_enc; auto using reparse_nodup, reparse_valid.
Qed.


(** * [json.Marshal] as such

    Used where the kernel hashes the output of [encoding/json] directly: fields
    in declaration order, HTML characters and U+2028/U+2029 escaped, ill-formed
    bytes written as an escaped U+FFFD. *)
Definition u_escape16 (r : Z) : bytes :=
  [backslash; "u"%char; hex_digit (r / 4096); hex_digit (r / 256 mod 16);
   hex_digit (r / 16 mod 16); hex_digit (r mod 16)].

Definition go_esc (c : chunk) : bytes :=
  match c with
  | Bad => u_escape16 rune_error
  | Rune r =>
      match short_escape r with
      | Some e => e
      | None =>
          if (r <? 32) || (r =? 60) || (r =? 62) || (r =? 38) || (r =? 8232) || (r =? 8233)
          then u_escape16 r else encode_rune r
      end
  end.

Definition go_quote (s : string) : bytes :=
  (dquote :: flat_map go_esc (scan (to_bytes s)) ++ [dquote])%list.

Fixpoint json_marshal (v : json) : bytes :=
  match v with
  | JNull => to_bytes "null"
  | JBool b => to_bytes (if b then "true" else "false")
  | JNum lit => to_bytes lit
  | JStr s => go_quote s
  | JArr l => brackets (map json_marshal l)
  | JObj l => braces (map (fun kv => go_quote kv.1 ++ ":"%char :: json_marshal kv.2)%list l)
  end.


(** * The interoperable number subset *)

Definition MaxSafeInteger : Z := 9007199254740991.

Definition digit (c : ascii) : bool := (48 <=? bz c) && (bz c <=? 57).

Definition point (c : ascii) : bool := existsb (Ascii.eqb c) (to_bytes ".eE").

Definition isInteroperableNumberLiteral (lit : string) : bool :=
  if String.eqb lit "" then false
  else if existsb point (to_bytes lit) then false
  else
    let negative := match lit with String c _ => Ascii.eqb c "-"%char | _ => false end in
    let body := if negative then match lit with String _ b => b | _ => lit end else lit in
    if negative && String.eqb body "0" then false
    else if String.eqb body "" then false
    else if (1 <? Z.of_nat (String.length body))
         && match body with String c _ => Ascii.eqb c "0"%char | _ => false end then false
    else if negb (forallb digit (to_bytes body)) then false
    else match parse_int64 lit with
         | None => false
         | Some n => (- MaxSafeInteger <=? n) && (n <=? MaxSafeInteger)
         end.

(** [fmt.Errorf("%w: %s is %q", ...)] *)
Definition err_number (path lit : string) : error :=
  ("canonicalize: number outside the interoperable subset: " +:+ path +:+ " is " +:+ goq lit)%string.

Fixpoint first_error (l : list (option error)) : option error :=
  match l with
  | [] => None
  | Some e :: _ => Some e
  | None :: l' => first_error l'
  end.

Fixpoint checkNumbers (v : json) (path : string) : option error :=
  match v with
  | JNum lit => if isInteroperableNumberLiteral lit then None else Some (err_number path lit)
  | JArr l =>
      (fix go (l : list json) (i : Z) : option error :=
         match l with
         | [] => None
         | x :: l' =>
             match checkNumbers x (path +:+ "[" +:+ dec i +:+ "]")%string with
             | Some e => Some e
             | None => go l' (i + 1)
             end
         end) l 0
  | JObj l =>
      first_error (map (fun kc => kc.2 (path +:+ "." +:+ kc.1)%string)
        (sort_by lessUTF16 (map (fun kv => (kv.1, checkNumbers kv.2)) l)))
  | _ => None
  end.

Definition CheckInteroperableNumbers (v : json) : option error := checkNumbers (reparse v) "$".

Definition InteroperableJCS (v : json) : res bytes :=
  match CheckInteroperableNumbers v with
  | Some e => Fail e
  | None => JCS v
  end.

(** The number literals of a value. *)
Fixpoint numbers (v : json) : list string :=
  match v with
  | JNum lit => [lit]
  | JArr l => flat_map numbers l
  | JObj l => flat_map (fun kv => numbers kv.2) l
  | _ => []
  end.

Lemma first_error_None l : first_error l = None <-> Forall (fun x => x = None) l.
Proof.
  induction l as [|[e|] l IH]; cbn; [done| |].
  - split; [done|]. intros H. by inversion H.
  - rewrite IH. split; [by constructor|by inversion 1].
Qed.

Lemma Forall_flat_map_iff {A B} (P : B -> Prop) (f : A -> list B) l :
  Forall P (flat_map f l) <-> Forall (fun x => Forall P (f x)) l.
Proof.
  induction l as [|x l IH]; cbn; [by split|]. rewrite Forall_app, Forall_cons. naive_solver.
Qed.

Lemma checkNumbers_spec v path :
  checkNumbers v path = None
  <-> Forall (fun lit => isInteroperableNumberLiteral lit = true) (numbers v).
Proof.
  revert path. induction v as [| |lit|s|l IH|l IH] using json_rect'; intros path; cbn;
    try (by split).
  - rewrite Forall_singleton. by destruct (isInteroperableNumberLiteral lit).
  - generalize 0. induction IH as [|x l Hx IH IHl]; intros i; cbn; [by split|].
    specialize (Hx (path +:+ "[" +:+ dec i +:+ "]")%string).
    rewrite Forall_app, <-Hx. destruct (checkNumbers x _); [naive_solver|].
    rewrite IHl. naive_solver.
  - rewrite first_error_None, Forall_map, sort_by_perm, Forall_map, Forall_flat_map_iff.
    rewrite !Forall_forall in *. cbn. naive_solver.
Qed.

Section Decimals.
Import Decimal.

Lemma string_of_uint_digits u : forallb digit (to_bytes (NilEmpty.string_of_uint u)) = true.
Proof. induction u; cbn; auto. Qed.

Lemma digit_no_point l :
  forallb digit l = true ->
  existsb point l = false.
Proof.
  induction l as [|c l IH]; cbn [forallb existsb]; [done|]. intros [Hc Hl]%andb_true_iff.
  rewrite (IH Hl), orb_false_r. revert Hc.
  destruct c as [[] [] [] [] [] [] [] []]; vm_compute; congruence.
Qed.

Definition lead0 (s : string) : bool :=
  (1 <? Z.of_nat (String.length s))
  && match s with String c _ => Ascii.eqb c "0"%char | _ => false end.

(** A digit string without superfluous leading zeros is its own normal form. *)
Lemma lead0_unorm u : u <> Nil ->
  lead0 (NilEmpty.string_of_uint u) = false <-> unorm u = u.
Proof.
  intros Hn. destruct u as [|u|u|u|u|u|u|u|u|u|u]; try done; unfold lead0;
    try (cbn; rewrite andb_false_r; by unfold unorm).
  destruct u as [|u|u|u|u|u|u|u|u|u|u]; try done; cbn -[nzhead];
    (split; [intros H; exfalso; revert H; rewrite andb_true_r, Z.ltb_ge; lia|]);
    unfold unorm; intros E; exfalso;
    match type of E with match nzhead ?d with _ => _ end = ?e =>
      destruct (nzhead d) eqn:Ez; try discriminate;
      apply (nzhead_nonzero d) in Ez; done
    end.
Qed.

Lemma unorm_nonzero u : unorm u = u -> u <> D0 Nil -> nzhead u = u.
Proof.
  unfold unorm. intros H Hz. by destruct (nzhead u) eqn:E.
Qed.
End Decimals.

Section Literals.
Import Decimal.

Lemma string_of_uint_head u :
  u <> Nil -> exists c s, NilEmpty.string_of_uint u = String c s /\ digit c = true.
Proof. destruct u; intros H; try done; cbn; by do 2 eexists. Qed.

Lemma NilZero_string u : u <> Nil -> NilZero.string_of_uint u = NilEmpty.string_of_uint u.
Proof. by destruct u. Qed.

(** Unfolds the scanner on a literal known to be [sign] followed by digits. *)
Lemma literal_digits (neg : bool) u :
  u <> Nil ->
  isInteroperableNumberLiteral
    (if neg then String "-" (NilEmpty.string_of_uint u) else NilEmpty.string_of_uint u)
  = negb (neg && String.eqb (NilEmpty.string_of_uint u) "0")
    && negb (lead0 (NilEmpty.string_of_uint u))
    && match parse_int64 (if neg then String "-" (NilEmpty.string_of_uint u)
                          else NilEmpty.string_of_uint u) with
       | None => false
       | Some n => (- MaxSafeInteger <=? n) && (n <=? MaxSafeInteger)
       end.
Proof.
  intros Hu. destruct (string_of_uint_head u Hu) as (c&s&E&Hc).
  pose proof (string_of_uint_digits u) as Hd. rewrite E in *.
  pose proof (digit_no_point _ Hd) as Hp.
  unfold isInteroperableNumberLiteral, lead0. destruct neg; cbn [andb].
  - change (to_bytes (String "-" (String c s)))
      with ("-"%char :: to_bytes (String c s)).
    cbn [existsb]. rewrite Hp. change (Ascii.eqb "-" "-") with true. cbv iota zeta.
    rewrite Hd. cbn [Ascii.eqb orb andb negb].
    change (point "-" || false) with false. change (String.eqb _ "") with false.
    change (String.eqb (String c s) "") with false. cbv iota.
    destruct (String.eqb (String c s) "0"); [done|].
    by destruct ((1 <? _) && _).
  - rewrite Hp. replace (Ascii.eqb c "-") with false.
    2: { destruct c as [[] [] [] [] [] [] [] []]; try reflexivity; discriminate. }
    cbv iota zeta. rewrite Hd. change (String.eqb (String c s) "") with false. cbn [andb negb].
    by destruct ((1 <? _) && _).
Qed.

Lemma parse_dec n : in_int64 n = true -> parse_int64 (dec n) = Some n.
Proof.
  intros Hn. unfold parse_int64, dec.
  assert (H : NilZero.int_of_string (NilZero.string_of_int (Z.to_int n)) = Some (Z.to_int n)).
  { apply NilZero.isi; destruct n; cbn; try done; intros [= E];
      by apply DecimalPos.Unsigned.to_uint_nonnil in E. }
  replace (match _ with String "+" r => _ | _ => _ end) with (Some (Z.to_int n)).
  - by rewrite DecimalZ.of_to, Hn.
  - rewrite <-H. destruct (NilZero.string_of_int _) as [|c s] eqn:E; [done|].
    destruct (decide (c = "+"%char)) as [->|Hc].
    + exfalso. cbn in H. by destruct (NilEmpty.uint_of_string s).
    + destruct c as [[] [] [] [] [] [] [] []]; try reflexivity; done.
Qed.
End Literals.

Section LiteralIff.
Import Decimal.

Lemma norm_to_int n : norm (Z.to_int n) = Z.to_int n.
Proof. by rewrite <-DecimalZ.to_of, DecimalZ.of_to. Qed.

Lemma safe_in_int64 n :
  - MaxSafeInteger <= n <= MaxSafeInteger -> in_int64 n = true.
Proof.
  unfold MaxSafeInteger, in_int64, int64_min, int64_max. rewrite andb_true_iff. lia.
Qed.

Lemma interoperable_dec n :
  - MaxSafeInteger <= n <= MaxSafeInteger -> isInteroperableNumberLiteral (dec n) = true.
Proof.
  intros Hn. pose proof (parse_dec n (safe_in_int64 n Hn)) as Hp.
  pose proof (norm_to_int n) as Hnorm. unfold dec in *.
  assert (Hb : (- MaxSafeInteger <=? n) && (n <=? MaxSafeInteger) = true)
    by (rewrite andb_true_iff; lia).
  destruct n as [|p|p]; [reflexivity|..]; cbn [Z.to_int NilZero.string_of_int] in *;
    pose proof (DecimalPos.Unsigned.to_uint_nonnil p) as Hu;
    rewrite NilZero_string in * by done; cbn [norm] in Hnorm.
  - injection Hnorm as Hnorm. apply lead0_unorm in Hnorm; [|done].
    pose proof (literal_digits false _ Hu) as L. cbn [andb negb] in L.
    by rewrite L, Hp, Hb, Hnorm.
  - destruct (nzhead (Pos.to_uint p)) eqn:E; try discriminate;
      [by apply nzhead_nonzero in E|..]; rewrite <-E in Hnorm;
      injection Hnorm as Hnorm;
      (assert (Hl : lead0 (NilEmpty.string_of_uint (Pos.to_uint p)) = false);
       [apply lead0_unorm; [done|]; unfold unorm; rewrite E; congruence|]);
      pose proof (literal_digits true _ Hu) as L; cbv iota in L;
      rewrite L, Hp, Hb, Hl; rewrite <-Hnorm, E; reflexivity.
Qed.

Lemma interoperable_parse lit :
  isInteroperableNumberLiteral lit = true ->
  exists n d, parse_int64 lit = Some n /\ - MaxSafeInteger <= n <= MaxSafeInteger
    /\ NilZero.int_of_string lit = Some d /\ n = Z.of_int d.
Proof.
  intros H. assert (Hplus : forall r, lit <> String "+" r).
  { intros r ->. revert H. unfold isInteroperableNumberLiteral.
    change (Ascii.eqb "+" "-") with false. cbv iota zeta.
    change (forallb digit (to_bytes (String "+" r))) with false. cbn [negb andb].
    repeat case_match; done. }
  unfold isInteroperableNumberLiteral in H. cbv zeta in H.
  destruct (parse_int64 lit) as [n|] eqn:E.
  2: { exfalso. revert H. clear. repeat case_match; done. }
  exists n. assert (Hn : (- MaxSafeInteger <=? n) && (n <=? MaxSafeInteger) = true).
  { revert H. clear. repeat case_match; done. }
  apply andb_true_iff in Hn. unfold parse_int64 in E.
  replace (match lit with String "+" r => Pos <$> NilZero.uint_of_string r | _ => _ end)
    with (NilZero.int_of_string lit) in E.
  - destruct (NilZero.int_of_string lit) as [d|] eqn:Ed; [|done].
    destruct (in_int64 (Z.of_int d)); [|done]. injection E as <-.
    exists d. split_and!; [done|lia|lia|done|done].
  - destruct lit as [|c s]; [done|].
    destruct c as [[] [] [] [] [] [] [] []]; try reflexivity. exfalso. by eapply Hplus.
Qed.

Lemma interoperable_literal lit :
  isInteroperableNumberLiteral lit = true ->
  exists n, - MaxSafeInteger <= n <= MaxSafeInteger /\ lit = dec n.
Proof.
  intros H. destruct (interoperable_parse lit H) as (n&d&_&Hn&Ed&->).
  exists (Z.of_int d). split; [done|]. unfold dec. rewrite DecimalZ.to_of.
  pose proof (NilZero.sis _ _ Ed) as Es. rewrite <-Es in H. rewrite <-Es at 1. f_equal.
  assert (Hnn : d <> Pos Nil /\ d <> Neg Nil).
  { split; intros ->; cbn in Es; subst lit; vm_compute in Ed; discriminate. }
  destruct d as [u|u], Hnn as [Hp Hm]; cbn [NilZero.string_of_int norm] in *;
    (assert (Hu : u <> Nil) by congruence); rewrite NilZero_string in H by done.
  - pose proof (literal_digits false _ Hu) as L. cbv iota in L.
    rewrite L in H. boolean.
    apply lead0_unorm in H1; [|done]. by rewrite H1.
  - pose proof (literal_digits true _ Hu) as L. cbv iota in L.
    rewrite L in H. boolean.
    apply lead0_unorm in H1; [|done]. cbn [andb] in *.
    assert (Hz : u <> D0 Nil) by (intros ->; done).
    rewrite (unorm_nonzero u H1 Hz). by destruct u.
Qed.
End LiteralIff.


(** C32. Canonical JSON is a faithful name for a value: [JCS] never fails on a
    value whose objects have distinct keys, and two values get the same bytes
    exactly when, after the decoder's repair of ill-formed text, they differ
    only in the order of object members. *)
Theorem jcs_canonical j k :
  json_wf j = true -> json_wf k = true ->
  (exists b, JCS j = Ok b) /\ (JCS j = JCS k <-> jeq (reparse j) (reparse k)).
Proof.
  intros Hj Hk. rewrite !JCS_Ok. split; [eauto|]. split.
  - intros [= E]. apply enc_jeq; auto using reparse_wf.
  - intros E. f_equal. apply jeq_enc; auto using reparse_wf, reparse_valid, json_wf_nodup.
Qed.

Definition sample_json : json :=
  JObj [("b", JArr [JNum "1"; JNull]); ("a", JStr "x")]%string.
Definition sample_json' : json :=
  JObj [("a", JStr "x"); ("b", JArr [JNum "1"; JNull])]%string.

Lemma jcs_canonical_witness : JCS sample_json = JCS sample_json'.
Proof.
  apply (jcs_canonical sample_json sample_json'); [reflexivity|reflexivity|].
  eapply jeq_obj with (k' := [("b", JArr [JNum "1"; JNull]); ("a", JStr "x")]%string).
  - repeat constructor.
  - apply Permutation_swap.
Defined.

(** The comparison of object keys orders them by UTF-16 code units, as RFC
    8785 requires, although the code takes a byte-wise fast path on ASCII
    names; on well-formed names it is a strict total order, so the sorted key
    sequence is unique. *)
Theorem lessUTF16_order a b c :
  lessUTF16 a b = lexb (utf16_key a) (utf16_key b) /\
  lessUTF16 a a = false /\
  (lessUTF16 a b = true -> lessUTF16 b c = true -> lessUTF16 a c = true) /\
  (valid_string a = true -> valid_string b = true ->
   lessUTF16 a b = true \/ a = b \/ lessUTF16 b a = true).
Proof.
  rewrite !lessUTF16_spec. split_and!; [done|apply lexb_irrefl|apply lexb_trans|].
  intros Ha Hb. destruct (lexb_total (utf16_key a) (utf16_key b)) as [?|[?|?]]; auto.
  right; left. by apply utf16_key_inj.
Qed.

(** [InteroperableJCS] accepts exactly the values whose numbers are spelled
    as the decimal of an integer in the safe range [-(2^53-1), 2^53-1] (no sign
    on zero, no leading zeros, no fraction, no exponent), and on those it is
    [JCS]. *)
Theorem interoperable_jcs v b :
  InteroperableJCS v = Ok b <->
  JCS v = Ok b /\
  Forall (fun lit => exists n, - MaxSafeInteger <= n <= MaxSafeInteger /\ lit = dec n)
    (numbers (reparse v)).
Proof.
  unfold InteroperableJCS, CheckInteroperableNumbers.
  destruct (checkNumbers (reparse v) "$") eqn:E.
  - split; [done|]. intros [_ H]. exfalso.
    assert (checkNumbers (reparse v) "$" = None); [|congruence].
    apply checkNumbers_spec. eapply Forall_impl; [exact H|].
    intros lit (n&Hn&->). by apply interoperable_dec.
  - apply checkNumbers_spec in E. split; [|by intros []]. intros H. split; [done|].
    eapply Forall_impl; [exact E|]. apply interoperable_literal.
Qed.

Example interoperable_examples :
  map isInteroperableNumberLiteral
    ["0"; "-0"; "-7"; "01"; "1.0"; "1e2"; "9007199254740991"; "9007199254740992"; "+1"]%string
  = [true; false; true; false; false; false; true; false; false].
Proof. vm_compute. reflexivity. Qed.
