(* ===== verification/Contracts.v ===== *)
(** The wire contracts of the kernel, [core/pkg/contracts]: the verdict and
    reason-code registry, dynamic values ([any] and [map[string]any]) with
    their JSON form, taint labels, decision records, execution intents,
    effects and their canonical digest, observed assumptions and threat-scan
    evidence.  SHA-256 is a parameter. *)
From Stdlib Require Import Ascii.
From S2P Require Import Prelude GoLib GoFmt Utf8 Jcs.

Local Open Scope string_scope.

(** * Verdicts and reason codes (verdict.go) *)

Inductive Verdict := VerdictAllow | VerdictDeny | VerdictEscalate.

Definition verdict_text (v : Verdict) : string :=
  match v with
  | VerdictAllow => "ALLOW"
  | VerdictDeny => "DENY"
  | VerdictEscalate => "ESCALATE"
  end.

Coercion verdict_text : Verdict >-> string.

(** [Verdict] is a Go string type, so [IsTerminal] is asked of any text. *)
Definition IsTerminal (v : string) : bool :=
  String.eqb v VerdictAllow || String.eqb v VerdictDeny.

Definition CanonicalVerdicts : list Verdict := [VerdictAllow; VerdictDeny; VerdictEscalate].

Inductive ReasonCode :=
  | ReasonPolicyViolation | ReasonNoPolicy | ReasonPolicyNotReady
  | ReasonPolicyHashMismatch | ReasonPolicySigInvalid | ReasonPolicyEpochChanged
  | ReasonPRGEvalError | ReasonMissingRequirement | ReasonPDPDeny | ReasonPDPError
  | ReasonBudgetExceeded | ReasonBudgetError | ReasonEnvelopeInvalid
  | ReasonSchemaViolation | ReasonTemporalIntervene | ReasonTemporalThrottle
  | ReasonSessionRiskDeny | ReasonSandboxViolation | ReasonProvenance | ReasonVerification
  | ReasonTenantIsolation | ReasonJurisdiction | ReasonSystemFrozen
  | ReasonEmergencyStopFenced | ReasonEmergencyStopUnverified
  | ReasonEmergencyStopScopeRequired | ReasonContextMismatch | ReasonDataEgressBlocked
  | ReasonIdentityIsolationViolation | ReasonApprovalRequired | ReasonApprovalTimeout
  | ReasonActivationTrustUnavailable | ReasonActivationRecordInvalid
  | ReasonActivationBindingMismatch | ReasonActivationCeilingExceeded
  | ReasonDelegationInvalid | ReasonDelegationScopeViolation
  | ReasonDelegationPrincipalMismatch | ReasonInsufficientPrivilege | ReasonAgentKilled
  | ReasonTaintedInputDeny | ReasonPromptInjectionDetected
  | ReasonUnicodeObfuscationDetected | ReasonTaintedCredentialDeny
  | ReasonTaintedPublishDeny | ReasonTaintedInvokeDeny | ReasonTaintedEgressDeny
  | ReasonTaintedEscalate | ReasonSemanticThreatEscalate | ReasonTONActonUnknownCommand
  | ReasonTONActonUnsupportedVersion | ReasonTONTolkCompilerUnpinned
  | ReasonTONTolkCompilerMismatch | ReasonTONActonArgvRejected
  | ReasonTONActonRawShellForbidden | ReasonTONActonGenericMainnetScriptDenied
  | ReasonTONScriptManifestRequired | ReasonTONScriptManifestHashMismatch
  | ReasonTONExpectedEffectMismatch | ReasonTONSpendCeilingExceeded
  | ReasonTONMainnetRequiresApproval | ReasonTONApprovalCeremonyRequired
  | ReasonTONWalletRefRequired | ReasonTONPlaintextMnemonicForbidden
  | ReasonTONNetworkGrantRequired | ReasonTONSandboxGrantRequired
  | ReasonTONSourceVerificationRequired | ReasonTONVerifyDryRunRequired
  | ReasonTONVerifyBytecodeMismatch | ReasonTONCoverageThresholdFailed
  | ReasonTONMutationThresholdFailed | ReasonTONLibraryMainnetRequiresApproval
  | ReasonTONLibrarySpendCeilingExceeded | ReasonConnectorContractDrift
  | ReasonComputeGasExhausted | ReasonComputeTimeExhausted
  | ReasonVerificationScopeRequired | ReasonHarnessTraceRequired
  | ReasonPlanTransactionRequired | ReasonPlanTransactionConflict | ReasonAssumptionStale
  | ReasonHarnessMutationRequiresApproval | ReasonHarnessChangeContractInvalid
  | ReasonGreenTestScopeMissing | ReasonGroundedActionRefRequired
  | ReasonGUIPostconditionUnverified | ReasonHostEgressWithoutIntent
  | ReasonHostEgressAfterDeny | ReasonHostReceiptMissing | ReasonHostDestinationMismatch
  | ReasonHostVolumeExceeded | ReasonHostProcessUnbound
  | ReasonPolicyDeniedHostObservedEgress | ReasonSafeDepTerminalFreeze
  | ReasonSafeDepDegradedNarrowing | ReasonSafeDepDeprecatedReadonly
  | ReasonContinuityStale | ReasonEmergencyCapsuleInvalid | ReasonHardwareQuorumUnbound
  | ReasonAttestationResultRequired | ReasonDevFallbackPresent | ReasonCapabilityUnknown
  | ReasonCapabilityManifestDrift | ReasonCapabilityTokenInvalid
  | ReasonCapabilityRollbackPlanInvalid | ReasonCapabilityIrreversible.

Definition reason_text (c : ReasonCode) : string :=
  match c with
  | ReasonPolicyViolation => "POLICY_VIOLATION"
  | ReasonNoPolicy => "NO_POLICY_DEFINED"
  | ReasonPolicyNotReady => "POLICY_NOT_READY"
  | ReasonPolicyHashMismatch => "POLICY_HASH_MISMATCH"
  | ReasonPolicySigInvalid => "POLICY_SIGNATURE_INVALID"
  | ReasonPolicyEpochChanged => "POLICY_EPOCH_CHANGED"
  | ReasonPRGEvalError => "PRG_EVALUATION_ERROR"
  | ReasonMissingRequirement => "MISSING_REQUIREMENT"
  | ReasonPDPDeny => "PDP_DENY"
  | ReasonPDPError => "PDP_ERROR"
  | ReasonBudgetExceeded => "BUDGET_EXCEEDED"
  | ReasonBudgetError => "BUDGET_ERROR"
  | ReasonEnvelopeInvalid => "ENVELOPE_INVALID"
  | ReasonSchemaViolation => "SCHEMA_VIOLATION"
  | ReasonTemporalIntervene => "TEMPORAL_INTERVENTION"
  | ReasonTemporalThrottle => "TEMPORAL_THROTTLE"
  | ReasonSessionRiskDeny => "SESSION_RISK_MEMORY_DENY"
  | ReasonSandboxViolation => "SANDBOX_VIOLATION"
  | ReasonProvenance => "PROVENANCE_FAILURE"
  | ReasonVerification => "VERIFICATION_FAILURE"
  | ReasonTenantIsolation => "TENANT_ISOLATION"
  | ReasonJurisdiction => "JURISDICTION_VIOLATION"
  | ReasonSystemFrozen => "SYSTEM_FROZEN"
  | ReasonEmergencyStopFenced => "EMERGENCY_STOP_FENCED"
  | ReasonEmergencyStopUnverified => "EMERGENCY_STOP_UNVERIFIED"
  | ReasonEmergencyStopScopeRequired => "EMERGENCY_STOP_SCOPE_REQUIRED"
  | ReasonContextMismatch => "CONTEXT_MISMATCH"
  | ReasonDataEgressBlocked => "DATA_EGRESS_BLOCKED"
  | ReasonIdentityIsolationViolation => "IDENTITY_ISOLATION_VIOLATION"
  | ReasonApprovalRequired => "APPROVAL_REQUIRED"
  | ReasonApprovalTimeout => "APPROVAL_TIMEOUT"
  | ReasonActivationTrustUnavailable => "ACTIVATION_TRUST_UNAVAILABLE"
  | ReasonActivationRecordInvalid => "ACTIVATION_RECORD_INVALID"
  | ReasonActivationBindingMismatch => "ACTIVATION_BINDING_MISMATCH"
  | ReasonActivationCeilingExceeded => "ACTIVATION_CEILING_EXCEEDED"
  | ReasonDelegationInvalid => "DELEGATION_INVALID"
  | ReasonDelegationScopeViolation => "DELEGATION_SCOPE_VIOLATION"
  | ReasonDelegationPrincipalMismatch => "DELEGATION_PRINCIPAL_MISMATCH"
  | ReasonInsufficientPrivilege => "INSUFFICIENT_PRIVILEGE"
  | ReasonAgentKilled => "AGENT_KILLED"
  | ReasonTaintedInputDeny => "TAINTED_INPUT_HIGH_RISK_DENY"
  | ReasonPromptInjectionDetected => "PROMPT_INJECTION_DETECTED"
  | ReasonUnicodeObfuscationDetected => "UNICODE_OBFUSCATION_DETECTED"
  | ReasonTaintedCredentialDeny => "TAINTED_CREDENTIAL_ACCESS_DENY"
  | ReasonTaintedPublishDeny => "TAINTED_SOFTWARE_PUBLISH_DENY"
  | ReasonTaintedInvokeDeny => "TAINTED_PRIVILEGED_INVOKE_DENY"
  | ReasonTaintedEgressDeny => "TAINTED_DATA_EGRESS_DENY"
  | ReasonTaintedEscalate => "TAINTED_HIGH_RISK_ESCALATE"
  | ReasonSemanticThreatEscalate => "SEMANTIC_THREAT_REVIEW_REQUIRED"
  | ReasonTONActonUnknownCommand => "ERR_TON_ACTON_UNKNOWN_COMMAND"
  | ReasonTONActonUnsupportedVersion => "ERR_TON_ACTON_UNSUPPORTED_VERSION"
  | ReasonTONTolkCompilerUnpinned => "ERR_TON_TOLK_COMPILER_UNPINNED"
  | ReasonTONTolkCompilerMismatch => "ERR_TON_TOLK_COMPILER_MISMATCH"
  | ReasonTONActonArgvRejected => "ERR_TON_ACTON_ARGV_REJECTED"
  | ReasonTONActonRawShellForbidden => "ERR_TON_ACTON_RAW_SHELL_FORBIDDEN"
  | ReasonTONActonGenericMainnetScriptDenied => "ERR_TON_ACTON_GENERIC_MAINNET_SCRIPT_DENIED"
  | ReasonTONScriptManifestRequired => "ERR_TON_SCRIPT_MANIFEST_REQUIRED"
  | ReasonTONScriptManifestHashMismatch => "ERR_TON_SCRIPT_MANIFEST_HASH_MISMATCH"
  | ReasonTONExpectedEffectMismatch => "ERR_TON_EXPECTED_EFFECT_MISMATCH"
  | ReasonTONSpendCeilingExceeded => "ERR_TON_SPEND_CEILING_EXCEEDED"
  | ReasonTONMainnetRequiresApproval => "ERR_TON_MAINNET_REQUIRES_APPROVAL"
  | ReasonTONApprovalCeremonyRequired => "ERR_TON_APPROVAL_CEREMONY_REQUIRED"
  | ReasonTONWalletRefRequired => "ERR_TON_WALLET_REF_REQUIRED"
  | ReasonTONPlaintextMnemonicForbidden => "ERR_TON_PLAINTEXT_MNEMONIC_FORBIDDEN"
  | ReasonTONNetworkGrantRequired => "ERR_TON_NETWORK_GRANT_REQUIRED"
  | ReasonTONSandboxGrantRequired => "ERR_TON_SANDBOX_GRANT_REQUIRED"
  | ReasonTONSourceVerificationRequired => "ERR_TON_SOURCE_VERIFICATION_REQUIRED"
  | ReasonTONVerifyDryRunRequired => "ERR_TON_VERIFY_DRY_RUN_REQUIRED"
  | ReasonTONVerifyBytecodeMismatch => "ERR_TON_VERIFY_BYTECODE_MISMATCH"
  | ReasonTONCoverageThresholdFailed => "ERR_TON_COVERAGE_THRESHOLD_FAILED"
  | ReasonTONMutationThresholdFailed => "ERR_TON_MUTATION_THRESHOLD_FAILED"
  | ReasonTONLibraryMainnetRequiresApproval => "ERR_TON_LIBRARY_MAINNET_REQUIRES_APPROVAL"
  | ReasonTONLibrarySpendCeilingExceeded => "ERR_TON_LIBRARY_SPEND_CEILING_EXCEEDED"
  | ReasonConnectorContractDrift => "ERR_CONNECTOR_CONTRACT_DRIFT"
  | ReasonComputeGasExhausted => "ERR_COMPUTE_GAS_EXHAUSTED"
  | ReasonComputeTimeExhausted => "ERR_COMPUTE_TIME_EXHAUSTED"
  | ReasonVerificationScopeRequired => "ERR_VERIFICATION_SCOPE_REQUIRED"
  | ReasonHarnessTraceRequired => "ERR_HARNESS_TRACE_REQUIRED"
  | ReasonPlanTransactionRequired => "ERR_PLAN_TRANSACTION_REQUIRED"
  | ReasonPlanTransactionConflict => "ERR_PLAN_TRANSACTION_CONFLICT"
  | ReasonAssumptionStale => "ERR_ASSUMPTION_STALE"
  | ReasonHarnessMutationRequiresApproval => "ERR_HARNESS_MUTATION_REQUIRES_APPROVAL"
  | ReasonHarnessChangeContractInvalid => "ERR_HARNESS_CHANGE_CONTRACT_INVALID"
  | ReasonGreenTestScopeMissing => "ERR_GREEN_TEST_SCOPE_MISSING"
  | ReasonGroundedActionRefRequired => "ERR_GROUNDED_ACTION_REF_REQUIRED"
  | ReasonGUIPostconditionUnverified => "ERR_GUI_POSTCONDITION_UNVERIFIED"
  | ReasonHostEgressWithoutIntent => "ERR_HOST_EGRESS_WITHOUT_INTENT"
  | ReasonHostEgressAfterDeny => "ERR_HOST_EGRESS_AFTER_DENY"
  | ReasonHostReceiptMissing => "ERR_HOST_RECEIPT_MISSING"
  | ReasonHostDestinationMismatch => "ERR_HOST_DESTINATION_MISMATCH"
  | ReasonHostVolumeExceeded => "ERR_HOST_VOLUME_EXCEEDED"
  | ReasonHostProcessUnbound => "ERR_HOST_PROCESS_UNBOUND"
  | ReasonPolicyDeniedHostObservedEgress => "ERR_POLICY_DENIED_BUT_HOST_OBSERVED_EGRESS"
  | ReasonSafeDepTerminalFreeze => "SAFEDEP_TERMINAL_FREEZE"
  | ReasonSafeDepDegradedNarrowing => "SAFEDEP_DEGRADED_NARROWING"
  | ReasonSafeDepDeprecatedReadonly => "SAFEDEP_DEPRECATED_READONLY"
  | ReasonContinuityStale => "ERR_CONTINUITY_STALE"
  | ReasonEmergencyCapsuleInvalid => "ERR_EMERGENCY_CAPSULE_INVALID"
  | ReasonHardwareQuorumUnbound => "ERR_HARDWARE_QUORUM_UNBOUND"
  | ReasonAttestationResultRequired => "ERR_ATTESTATION_RESULT_REQUIRED"
  | ReasonDevFallbackPresent => "ERR_DEV_FALLBACK_PRESENT"
  | ReasonCapabilityUnknown => "CAPABILITY_UNKNOWN"
  | ReasonCapabilityManifestDrift => "CAPABILITY_MANIFEST_DRIFT"
  | ReasonCapabilityTokenInvalid => "CAPABILITY_TOKEN_INVALID"
  | ReasonCapabilityRollbackPlanInvalid => "CAPABILITY_ROLLBACK_PLAN_INVALID"
  | ReasonCapabilityIrreversible => "CAPABILITY_IRREVERSIBLE"
  end.

Coercion reason_text : ReasonCode >-> string.

Definition CoreReasonCodes : list ReasonCode :=
  [ReasonPolicyViolation; ReasonNoPolicy; ReasonPolicyNotReady; ReasonPolicyHashMismatch;
   ReasonPolicySigInvalid; ReasonPolicyEpochChanged; ReasonPRGEvalError;
   ReasonMissingRequirement; ReasonPDPDeny; ReasonPDPError; ReasonBudgetExceeded;
   ReasonBudgetError; ReasonEnvelopeInvalid; ReasonSchemaViolation;
   ReasonTemporalIntervene; ReasonTemporalThrottle; ReasonSessionRiskDeny;
   ReasonSandboxViolation; ReasonProvenance; ReasonVerification; ReasonTenantIsolation;
   ReasonJurisdiction; ReasonSystemFrozen; ReasonEmergencyStopFenced;
   ReasonEmergencyStopUnverified; ReasonEmergencyStopScopeRequired; ReasonContextMismatch;
   ReasonDataEgressBlocked; ReasonIdentityIsolationViolation; ReasonApprovalRequired;
   ReasonApprovalTimeout; ReasonActivationTrustUnavailable; ReasonActivationRecordInvalid;
   ReasonActivationBindingMismatch; ReasonActivationCeilingExceeded;
   ReasonDelegationInvalid; ReasonDelegationScopeViolation;
   ReasonDelegationPrincipalMismatch; ReasonInsufficientPrivilege; ReasonAgentKilled;
   ReasonTaintedInputDeny; ReasonPromptInjectionDetected; ReasonUnicodeObfuscationDetected;
   ReasonTaintedCredentialDeny; ReasonTaintedPublishDeny; ReasonTaintedInvokeDeny;
   ReasonTaintedEgressDeny; ReasonTaintedEscalate; ReasonSemanticThreatEscalate;
   ReasonTONActonUnknownCommand; ReasonTONActonUnsupportedVersion;
   ReasonTONTolkCompilerUnpinned; ReasonTONTolkCompilerMismatch;
   ReasonTONActonArgvRejected; ReasonTONActonRawShellForbidden;
   ReasonTONActonGenericMainnetScriptDenied; ReasonTONScriptManifestRequired;
   ReasonTONScriptManifestHashMismatch; ReasonTONExpectedEffectMismatch;
   ReasonTONSpendCeilingExceeded; ReasonTONMainnetRequiresApproval;
   ReasonTONApprovalCeremonyRequired; ReasonTONWalletRefRequired;
   ReasonTONPlaintextMnemonicForbidden; ReasonTONNetworkGrantRequired;
   ReasonTONSandboxGrantRequired; ReasonTONSourceVerificationRequired;
   ReasonTONVerifyDryRunRequired; ReasonTONVerifyBytecodeMismatch;
   ReasonTONCoverageThresholdFailed; ReasonTONMutationThresholdFailed;
   ReasonTONLibraryMainnetRequiresApproval; ReasonTONLibrarySpendCeilingExceeded;
   ReasonConnectorContractDrift; ReasonComputeGasExhausted; ReasonComputeTimeExhausted;
   ReasonVerificationScopeRequired; ReasonHarnessTraceRequired;
   ReasonPlanTransactionRequired; ReasonPlanTransactionConflict; ReasonAssumptionStale;
   ReasonHarnessMutationRequiresApproval; ReasonHarnessChangeContractInvalid;
   ReasonGreenTestScopeMissing; ReasonGroundedActionRefRequired;
   ReasonGUIPostconditionUnverified; ReasonHostEgressWithoutIntent;
   ReasonHostEgressAfterDeny; ReasonHostReceiptMissing; ReasonHostDestinationMismatch;
   ReasonHostVolumeExceeded; ReasonHostProcessUnbound;
   ReasonPolicyDeniedHostObservedEgress; ReasonSafeDepTerminalFreeze;
   ReasonSafeDepDegradedNarrowing; ReasonSafeDepDeprecatedReadonly; ReasonContinuityStale;
   ReasonEmergencyCapsuleInvalid; ReasonHardwareQuorumUnbound;
   ReasonAttestationResultRequired; ReasonDevFallbackPresent; ReasonCapabilityUnknown;
   ReasonCapabilityManifestDrift; ReasonCapabilityTokenInvalid;
   ReasonCapabilityRollbackPlanInvalid; ReasonCapabilityIrreversible].

Definition IsCanonicalVerdict (v : string) : bool :=
  existsb (fun w => String.eqb (verdict_text w) v) CanonicalVerdicts.

Definition IsCanonicalReasonCode (code : string) : bool :=
  existsb (fun r => String.eqb (reason_text r) code) CoreReasonCodes.

Lemma canonical_verdict_spec v :
  IsCanonicalVerdict v = true <-> exists w : Verdict, v = w.
Proof.
  unfold IsCanonicalVerdict. rewrite existsb_exists. split.
  - intros (w&_&E%String.eqb_eq). by exists w.
  - intros [w ->]. exists w. rewrite String.eqb_refl. split; [|done].
    destruct w; cbn; auto.
Qed.

(** The reason-code registry is complete and unambiguous: every declared
    code is in the normative list, no two codes share a wire text, and
    [IsCanonicalReasonCode] accepts exactly the wire texts of declared codes. *)
Theorem reason_registry_complete :
  (forall c, In c CoreReasonCodes) /\
  NoDup (map reason_text CoreReasonCodes) /\
  (forall s, IsCanonicalReasonCode s = true <-> exists c : ReasonCode, s = c).
Proof.
  assert (Hall : forall c, In c CoreReasonCodes).
  { intros c. destruct c; vm_compute; tauto. }
  split_and!; [exact Hall| |].
  - apply (bool_decide_unpack _). vm_compute. exact I.
  - intros s. unfold IsCanonicalReasonCode. rewrite existsb_exists. split.
    + intros (c&_&E%String.eqb_eq). by exists c.
    + intros [c ->]. exists c. split; [apply Hall|apply String.eqb_refl].
Qed.

(** * Dynamic values *)

(** A Go [any]: the types the kernel distinguishes by type assertion, plus
    [AOther] for a value of any other type, known by the JSON it marshals to. *)
Inductive any :=
| ANil
| ABool (b : bool)
| AString (s : string)
| AInt (z : Z)
| AFloat (f : float64)
| ANumber (lit : string)
| AStrings (l : list string)
| AList (l : list any)
| AMap (l : list (string * any))
| AOther (j : json).

(** [map[string]any]; [None] is the nil map. *)
Abbreviation obj := (gmap string any).
Abbreviation ctx := (option obj).

(** [m[k]]: the zero value [ANil] when absent or when the map is nil. *)
Definition ctx_lookup (c : ctx) (k : string) : option any := c ≫= lookup k.
Definition ctx_get (c : ctx) (k : string) : any := default ANil (ctx_lookup c k).
(** [if m == nil { m = make(map) }; m[k] = v] *)
Definition ctx_put (c : ctx) (k : string) (v : any) : ctx := Some (<[k := v]> (default ∅ c)).
Definition ctx_delete (c : ctx) (k : string) : ctx := delete k <$> c.

(** [v.(string)], [v.(bool)] *)
Definition as_string (v : any) : option string :=
  match v with AString s => Some s | _ => None end.
Definition as_bool (v : any) : option bool :=
  match v with ABool b => Some b | _ => None end.
Definition as_float (v : any) : option float64 :=
  match v with AFloat f => Some f | _ => None end.
(** [s, _ := v.(string)] *)
Definition string_or_empty (v : any) : string := default "" (as_string v).

(** ** JSON form *)

Definition err_float : error := "json: unsupported value".

Fixpoint json_of_any (v : any) : res json :=
  match v with
  | ANil => Ok JNull
  | ABool b => Ok (JBool b)
  | AString s => Ok (JStr s)
  | AInt z => Ok (JNum (dec z))
  | AFloat f => match json_float f with Some s => Ok (JNum s) | None => Fail err_float end
  | ANumber lit => Ok (JNum lit)
  | AStrings l => Ok (JArr (map JStr l))
  | AList l => js ← traverse json_of_any l; Ok (JArr js)
  | AMap l =>
      js ← traverse (fun kv => j ← json_of_any kv.2; Ok (kv.1, j)) l;
      Ok (JObj (sort_by string_lt js))
  | AOther j => Ok j
  end.

(** [json.Marshal] writes the entries of a map in key order. *)
Definition json_of_obj (m : obj) : res json :=
  js ← traverse (fun kv => j ← json_of_any kv.2; Ok (kv.1, j)) (map_to_list m);
  Ok (JObj (sort_by string_lt js)).

(** [Decode] with [UseNumber] into an [any]. *)
Fixpoint any_of_json (j : json) : any :=
  match j with
  | JNull => ANil
  | JBool b => ABool b
  | JNum lit => ANumber lit
  | JStr s => AString s
  | JArr l => AList (map any_of_json l)
  | JObj l => AMap (map (fun kv => (kv.1, any_of_json kv.2)) l)
  end.

(** [canonicalize.JCS] of a value whose JSON form may fail to exist. *)
Definition JCS_res (r : res json) : res bytes :=
  j ← wrap_err "jcs: pre-marshal failed: " r; JCS j.

Lemma JCS_res_Ok r b : JCS_res r = Ok b <-> exists j, r = Ok j /\ JCS j = Ok b.
Proof. unfold JCS_res. rewrite res_bind_Ok. by setoid_rewrite wrap_err_Ok. Qed.

(** A struct field with [omitempty]. *)
Definition opt_field (empty : bool) (k : string) (j : json) : list (string * json) :=
  if empty then [] else [(k, j)].
Definition opt_string (k s : string) : list (string * json) :=
  opt_field (String.eqb s "") k (JStr s).

(** * Taint labels (taint.go) *)

Definition TaintPII := "pii".
Definition TaintCredential := "credential".
Definition TaintSecret := "secret".

Definition normalize_label (label : string) : string := to_lower (trim_space label).

Fixpoint normalize_loop (seen : list string) (labels : list string) : list string :=
  match labels with
  | [] => []
  | label :: rest =>
      let label := normalize_label label in
      if String.eqb label "" then normalize_loop seen rest
      else if existsb (String.eqb label) seen then normalize_loop seen rest
      else label :: normalize_loop (label :: seen) rest
  end.

(** Go distinguishes the nil slice of the early return from an empty one; both
    have length 0 and are omitted from JSON. *)
Definition NormalizeTaintLabels (labels : list string) : list string :=
  normalize_loop [] labels.

Definition TaintContains (labels : list string) (label : string) : bool :=
  let label := normalize_label label in existsb (fun c => String.eqb c label) labels.

Definition TaintContainsAny (labels candidates : list string) : bool :=
  existsb (TaintContains labels) candidates.

Definition label_sep (c : ascii) : bool :=
  existsb (Ascii.eqb c) [","; ";"; " "; byte 10; byte 9]%char.

Definition labelsFromAny (value : any) : list string :=
  match value with
  | AString s => fields_func label_sep s
  | AStrings l => l
  | AList l => omap as_string l
  | _ => []
  end.

Definition TaintLabelsFromContext (c : ctx) : list string :=
  match c with
  | None => []
  | Some _ =>
      match labelsFromAny (ctx_get c "taint") with
      | [] => match labelsFromAny (ctx_get c "taint_labels") with
              | [] => []
              | l => NormalizeTaintLabels l
              end
      | l => NormalizeTaintLabels l
      end
  end.

Lemma normalize_label_idemp l : normalize_label (normalize_label l) = normalize_label l.
Proof.
  unfold normalize_label. by rewrite trim_space_lower, trim_space_idemp, to_lower_idemp.
Qed.

Lemma normalize_loop_spec labels seen x :
  x ∈ normalize_loop seen labels <->
  x <> "" /\ x ∉ seen /\ exists l, l ∈ labels /\ normalize_label l = x.
Proof.
  revert seen. induction labels as [|l labels IH]; intros seen; cbn; [set_solver|].
  destruct (String.eqb_spec (normalize_label l) "") as [E|Hne].
  { rewrite IH. set_solver. }
  destruct (existsb (String.eqb (normalize_label l)) seen) eqn:Es.
  - apply existsb_Exists, Exists_exists in Es as (y&Hy&E%String.eqb_eq). subst.
    rewrite IH. set_solver.
  - assert (Hns : normalize_label l ∉ seen).
    { intros H. assert (existsb (String.eqb (normalize_label l)) seen = true); [|congruence].
      apply existsb_Exists, Exists_exists. exists (normalize_label l).
      by rewrite String.eqb_refl. }
    rewrite elem_of_cons, IH. split.
    + intros [->|(?&?&?)]; set_solver.
    + intros (?&?&l'&[->|?]%elem_of_cons&<-); [by left|].
      destruct (decide (normalize_label l' = normalize_label l)) as [->|]; [by left|].
      right. set_solver.
Qed.

Lemma normalize_loop_NoDup labels seen : NoDup (normalize_loop seen labels).
Proof.
  revert seen. induction labels as [|l labels IH]; intros seen; cbn; [constructor|].
  case_match; [done|]. case_match; [done|]. apply NoDup_cons. split; [|done].
  rewrite normalize_loop_spec. set_solver.
Qed.

(** Normal forms are left alone. *)
Lemma normalize_loop_id labels seen :
  NoDup labels -> (forall l, l ∈ labels -> l <> "" /\ normalize_label l = l /\ l ∉ seen) ->
  normalize_loop seen labels = labels.
Proof.
  revert seen. induction labels as [|l labels IH]; intros seen Hnd H; cbn; [done|].
  apply NoDup_cons in Hnd as [Hl Hnd].
  destruct (H l) as (Hne&E&Hs); [by left|]. rewrite E.
  destruct (String.eqb_spec l "") as [|_]; [done|].
  destruct (existsb (String.eqb l) seen) eqn:Es.
  { apply existsb_Exists, Exists_exists in Es as (y&Hy&->%String.eqb_eq). done. }
  f_equal. apply IH; [done|]. set_solver.
Qed.

Lemma NormalizeTaintLabels_elem labels x :
  x ∈ NormalizeTaintLabels labels <->
  x <> "" /\ exists l, l ∈ labels /\ normalize_label l = x.
Proof. unfold NormalizeTaintLabels. rewrite normalize_loop_spec. set_solver. Qed.

Lemma NormalizeTaintLabels_idemp labels :
  NormalizeTaintLabels (NormalizeTaintLabels labels) = NormalizeTaintLabels labels.
Proof.
  apply normalize_loop_id; [apply normalize_loop_NoDup|]. intros l.
  rewrite NormalizeTaintLabels_elem. intros (Hne&l'&_&<-).
  split_and!; [done|apply normalize_label_idemp|set_solver].
Qed.

(** Taint normalisation keeps exactly the non-blank labels, case-folded and
    trimmed, once each and in order of first appearance; it is idempotent, and
    [TaintContains] on its result ignores the case and padding of the query. *)
Theorem taint_normalization labels x :
  NoDup (NormalizeTaintLabels labels) /\
  NormalizeTaintLabels (NormalizeTaintLabels labels) = NormalizeTaintLabels labels /\
  (x ∈ NormalizeTaintLabels labels <->
   x <> "" /\ exists l, l ∈ labels /\ normalize_label l = x) /\
  (TaintContains (NormalizeTaintLabels labels) x = true <->
   normalize_label x <> "" /\ exists l, l ∈ labels /\ normalize_label l = normalize_label x).
Proof.
  split_and!.
  - apply normalize_loop_NoDup.
  - apply NormalizeTaintLabels_idemp.
  - apply NormalizeTaintLabels_elem.
  - unfold TaintContains. rewrite existsb_Exists, Exists_exists.
    rewrite <-NormalizeTaintLabels_elem. split.
    + by intros (y&Hy&->%String.eqb_eq).
    + intros H. exists (normalize_label x). by rewrite String.eqb_refl.
Qed.

(** * Effects and their digest (workflow.go, effect_digest.go) *)

(** A pointer to an [Effect]. *)
Abbreviation loc := positive.

Record Effect := {
  ef_EffectID : string;
  ef_EffectType : string;
  ef_Params : ctx;
  ef_Example : string;
  ef_DecisionID : string;
  ef_IdempotencyKey : string;
  ef_Compensation : option loc;
  ef_Irreversible : bool;
  ef_ArgsHash : string;
  ef_OutputHash : string;
  ef_Taint : list string;
}.
#[export] Instance Effect_eta : Eta Effect := fun e => {|
  ef_EffectID := ef_EffectID e; ef_EffectType := ef_EffectType e; ef_Params := ef_Params e;
  ef_Example := ef_Example e; ef_DecisionID := ef_DecisionID e;
  ef_IdempotencyKey := ef_IdempotencyKey e; ef_Compensation := ef_Compensation e;
  ef_Irreversible := ef_Irreversible e; ef_ArgsHash := ef_ArgsHash e;
  ef_OutputHash := ef_OutputHash e; ef_Taint := ef_Taint e |}.

(** [&contracts.Effect{}] *)
Definition zero_effect : Effect := {|
  ef_EffectID := ""; ef_EffectType := ""; ef_Params := None; ef_Example := "";
  ef_DecisionID := ""; ef_IdempotencyKey := ""; ef_Compensation := None;
  ef_Irreversible := false; ef_ArgsHash := ""; ef_OutputHash := ""; ef_Taint := [] |}.

(** The effects reachable through [Compensation] pointers, which the caller may
    have tied into a cycle. *)
Abbreviation effects := (gmap loc Effect).

(** The projection that is signed; always a finite tree. *)
Inductive EffectDigestBinding := Binding {
  eb_EffectType : string;
  eb_Params : ctx;
  eb_IdempotencyKey : string;
  eb_Irreversible : bool;
  eb_ArgsHash : string;
  eb_OutputHash : string;
  eb_Taint : list string;
  eb_Compensation : option EffectDigestBinding;
}.

Definition empty_obj (c : ctx) : bool := bool_decide (default ∅ c = (∅ : obj)).

Definition json_of_params (c : ctx) : res (list (string * json)) :=
  if empty_obj c then Ok [] else j ← json_of_obj (default ∅ c); Ok [("params", j)].

Fixpoint json_of_binding (b : EffectDigestBinding) : res json :=
  params ← json_of_params (eb_Params b);
  comp ← match eb_Compensation b with
         | None => Ok []
         | Some c => j ← json_of_binding c; Ok [("compensation", j)]
         end;
  Ok (JObj (([("effect_type", JStr (eb_EffectType b))] ++ params
    ++ opt_string "idempotency_key" (eb_IdempotencyKey b)
    ++ opt_field (negb (eb_Irreversible b)) "irreversible" (JBool true)
    ++ opt_string "args_hash" (eb_ArgsHash b)
    ++ opt_string "output_hash" (eb_OutputHash b)
    ++ opt_field (bool_decide (eb_Taint b = [])) "taint" (JArr (map JStr (eb_Taint b)))
    ++ comp)%list)).

(** [JCS] followed by [Decode]: the decoder inverts the encoder up to the order
    of members ([Jcs.jcs_canonical]), so the copy is the reparsed value. *)
Definition cloneEffectDigestParams (params : ctx) : res ctx :=
  match params with
  | None => Ok None
  | Some m =>
      j ← wrap_err "jcs: pre-marshal failed: " (json_of_obj m);
      match reparse j with
      | JObj l => Ok (Some (list_to_map (map (fun kv => (kv.1, any_of_json kv.2)) l)))
      | _ => Fail "json: cannot unmarshal into Go value"
      end
  end.

Definition err_cycle : error := "effect compensation graph contains a cycle".
(** A nil or dangling pointer is dereferenced: the program stops. *)
Definition err_panic : error := "invalid memory address or nil pointer dereference".
Definition err_fuel : error := "out of fuel".

(** [ancestors] is the path from the root; the deferred [delete] restores it
    when a call returns, so each call sees exactly its callers. *)
Fixpoint effectDigestBindingFromEffect (fuel : nat) (h : effects) (p : option loc)
    (ancestors : list loc) (cloneParams : bool) : res (option EffectDigestBinding) :=
  match p with
  | None => Ok None
  | Some l =>
      match fuel with
      | O => Fail err_fuel
      | S fuel' =>
          if existsb (Pos.eqb l) ancestors then Fail err_cycle
          else match h !! l with
          | None => Fail err_panic
          | Some e =>
              comp ← effectDigestBindingFromEffect fuel' h (ef_Compensation e)
                       (l :: ancestors) cloneParams;
              params ← (if cloneParams
                        then wrap_err "canonicalize effect parameters: "
                               (cloneEffectDigestParams (ef_Params e))
                        else Ok (ef_Params e));
              Ok (Some {|
                eb_EffectType := ef_EffectType e;
                eb_Params := params;
                eb_IdempotencyKey := ef_IdempotencyKey e;
                eb_Irreversible := ef_Irreversible e;
                eb_ArgsHash := ef_ArgsHash e;
                eb_OutputHash := ef_OutputHash e;
                eb_Taint := NormalizeTaintLabels (ef_Taint e);
                eb_Compensation := comp |})
          end
      end
  end.

(** Enough calls for any graph: each one visits a new effect or stops. *)
Definition digest_fuel (h : effects) : nat := S (S (size h)).

Definition NewEffectDigestBinding (h : effects) (p : option loc) : res EffectDigestBinding :=
  match p with
  | None => Fail "effect is nil"
  | Some _ =>
      b ← effectDigestBindingFromEffect (digest_fuel h) h p [] true;
      match b with Some b => Ok b | None => Fail err_panic end
  end.

Fixpoint normalizeEffectDigestBinding (b : EffectDigestBinding) (cloneParams : bool)
    : res EffectDigestBinding :=
  comp ← match eb_Compensation b with
         | None => Ok None
         | Some c => c' ← normalizeEffectDigestBinding c cloneParams; Ok (Some c')
         end;
  params ← (if cloneParams
            then wrap_err "canonicalize effect binding parameters: "
                   (cloneEffectDigestParams (eb_Params b))
            else Ok (eb_Params b));
  Ok {| eb_EffectType := eb_EffectType b;
        eb_Params := params;
        eb_IdempotencyKey := eb_IdempotencyKey b;
        eb_Irreversible := eb_Irreversible b;
        eb_ArgsHash := eb_ArgsHash b;
        eb_OutputHash := eb_OutputHash b;
        eb_Taint := NormalizeTaintLabels (eb_Taint b);
        eb_Compensation := comp |}.

Definition NormalizeEffectDigestBinding (b : option EffectDigestBinding) : res EffectDigestBinding :=
  match b with
  | None => Fail "effect digest binding is nil"
  | Some b => normalizeEffectDigestBinding b true
  end.

(** ** Hashing *)

Class Hash := sha256 : bytes -> bytes.

(** Two different preimages of one digest. *)
Definition collision `{Hash} : Prop := exists x y, x <> y /\ sha256 x = sha256 y.

Section Digest.
Context `{Hash}.

(** [canonicalize.HashBytes] *)
Definition HashBytes (b : bytes) : string := hex_encode (sha256 b).

(** [canonicalize.CanonicalHash] *)
Definition CanonicalHash (j : res json) : res string :=
  b ← JCS_res j; Ok (HashBytes b).

Definition hashEffectDigestBinding (b : EffectDigestBinding) : res string :=
  bs ← JCS_res (json_of_binding b); Ok (HashBytes bs).

Definition CanonicalEffectDigest (h : effects) (p : option loc) : res string :=
  match p with
  | None => Fail "effect is nil"
  | Some _ =>
      b ← effectDigestBindingFromEffect (digest_fuel h) h p [] false;
      match b with Some b => hashEffectDigestBinding b | None => Fail err_panic end
  end.

Definition CanonicalEffectDigestFromBinding (b : option EffectDigestBinding) : res string :=
  match b with
  | None => Fail "effect digest binding is nil"
  | Some b => b' ← normalizeEffectDigestBinding b false; hashEffectDigestBinding b'
  end.
End Digest.

(** ** Compensation chains *)

(** Following [Compensation] from [p] reaches nil after [n] effects. *)
Inductive chain_length (h : effects) : option loc -> nat -> Prop :=
| chain_nil : chain_length h None 0
| chain_step l e n :
    h !! l = Some e -> chain_length h (ef_Compensation e) n ->
    chain_length h (Some l) (S n).

(** Every pointer stored in the heap points into it. *)
Definition heap_closed (h : effects) : Prop :=
  forall l e l', h !! l = Some e -> ef_Compensation e = Some l' -> is_Some (h !! l').

(** The projection of a chain: that of its first effect, with its taint
    normalised, over that of the rest. *)
Inductive projects (h : effects) : option loc -> option EffectDigestBinding -> Prop :=
| projects_nil : projects h None None
| projects_step l e c :
    h !! l = Some e -> projects h (ef_Compensation e) c ->
    projects h (Some l) (Some {|
      eb_EffectType := ef_EffectType e; eb_Params := ef_Params e; eb_IdempotencyKey := ef_IdempotencyKey e;
      eb_Irreversible := ef_Irreversible e; eb_ArgsHash := ef_ArgsHash e; eb_OutputHash := ef_OutputHash e;
      eb_Taint := NormalizeTaintLabels (ef_Taint e); eb_Compensation := c |}).

(** The effects of a chain. *)
Inductive on_chain (h : effects) : option loc -> Effect -> Prop :=
| on_chain_here l e : h !! l = Some e -> on_chain h (Some l) e
| on_chain_later l e e' : h !! l = Some e -> on_chain h (ef_Compensation e) e' -> on_chain h (Some l) e'.

(** The parameters of an effect have a JSON encoding. *)
Definition encodable (e : Effect) : Prop := exists fields, json_of_params (ef_Params e) = Ok fields.

Lemma json_of_binding_eq b :
  json_of_binding b =
  (params ← json_of_params (eb_Params b);
   comp ← match eb_Compensation b with
          | None => Ok []
          | Some c => j ← json_of_binding c; Ok [("compensation", j)]
          end;
   Ok (JObj (([("effect_type", JStr (eb_EffectType b))] ++ params
     ++ opt_string "idempotency_key" (eb_IdempotencyKey b)
     ++ opt_field (negb (eb_Irreversible b)) "irreversible" (JBool true)
     ++ opt_string "args_hash" (eb_ArgsHash b)
     ++ opt_string "output_hash" (eb_OutputHash b)
     ++ opt_field (bool_decide (eb_Taint b = [])) "taint" (JArr (map JStr (eb_Taint b)))
     ++ comp)%list))).
Proof. by destruct b. Qed.


(** A projection is encoded exactly when the parameters of its chain are. *)
Lemma projects_encodable h p ob : projects h p ob ->
  match ob with
  | Some b => (exists j, json_of_binding b = Ok j) <-> forall e, on_chain h p e -> encodable e
  | None => forall e, ~ on_chain h p e
  end.
Proof.
  induction 1 as [|l e c Hl Hc IH]; [by inversion 1|].
  rewrite json_of_binding_eq. cbn [eb_Params eb_Compensation]. split.
  - intros (j & (fs & Hfs & (comp & Hcomp & _)%res_bind_Ok)%res_bind_Ok) e' He'.
    inversion He' as [|? ? ? ? Hon]; simplify_eq; [by exists fs|].
    destruct c as [b|]; [|by apply IH in Hon]. apply res_bind_Ok in Hcomp as (jc & Hj & _).
    by apply IH; [exists jc|].
  - intros He. destruct (He e) as [fs ->]; [by constructor|]. cbn [mbind res_bind].
    destruct c as [b|]; [|by eexists]. assert (exists j, json_of_binding b = Ok j) as [j ->]; [|by eexists].
    apply IH. intros e' Hon. by eapply He, on_chain_later.
Qed.

Section Chains.
Context (h : effects) (Hclosed : heap_closed h).

Lemma chain_length_fun p n m : chain_length h p n -> chain_length h p m -> n = m.
Proof.
  intros Hn. revert m. induction Hn as [|l e n Hl Hn IH]; intros m Hm;
    inversion Hm; simplify_eq; auto.
Qed.

(** The path from the root: distinct effects of the heap. *)
Definition path_ok (anc : list loc) : Prop := NoDup anc /\ forall a, a ∈ anc -> is_Some (h !! a).

Lemma path_bound anc : path_ok anc -> (length anc <= size h)%nat.
Proof.
  intros [Hn Hd]. rewrite <-size_dom, <-(size_list_to_set (C := gset loc)) by done.
  apply subseteq_size. intros a Ha. apply elem_of_list_to_set in Ha.
  by apply elem_of_dom, Hd.
Qed.

Lemma path_cons anc l e :
  path_ok anc -> h !! l = Some e -> existsb (Pos.eqb l) anc = false -> path_ok (l :: anc).
Proof.
  intros [Hn Hd] Hl Hx. split.
  - apply NoDup_cons. split; [|done]. intros Hin.
    assert (existsb (Pos.eqb l) anc = true); [|congruence].
    apply existsb_Exists, Exists_exists. exists l. by rewrite Pos.eqb_refl.
  - intros a [->|?]%elem_of_cons; eauto.
Qed.

Lemma projection_cycle fuel p anc clone :
  path_ok anc -> (size h + 1 <= fuel + length anc)%nat ->
  (forall l, p = Some l -> is_Some (h !! l)) -> (forall n, ~ chain_length h p n) ->
  effectDigestBindingFromEffect fuel h p anc clone = Fail err_cycle.
Proof.
  revert p anc. induction fuel as [|fuel IH]; intros [l|] anc Hp Hf Hv Hc; cbn;
    try (by exfalso; eapply Hc; constructor).
  - exfalso. pose proof (path_bound _ Hp). lia.
  - destruct (existsb (Pos.eqb l) anc) eqn:Ex; [done|].
    destruct (Hv l eq_refl) as [e He]. rewrite He.
    rewrite (IH (ef_Compensation e) (l :: anc)); [done|by eapply path_cons|cbn; lia| |].
    + intros l' Hl'. by eapply Hclosed.
    + intros n Hn. eapply Hc. by econstructor.
Qed.

Lemma projection_total fuel p anc n :
  path_ok anc -> (size h + 1 <= fuel + length anc)%nat ->
  chain_length h p n ->
  (forall a, a ∈ anc -> exists m, chain_length h (Some a) m /\ (n < m)%nat) ->
  exists b, effectDigestBindingFromEffect fuel h p anc false = Ok b /\ projects h p b.
Proof.
  revert p anc n. induction fuel as [|fuel IH]; intros p anc n Hp Hf Hc Ha;
    (destruct Hc as [|l e n Hl Hc]; [exists None; by split; [|constructor]|]); cbn.
  - exfalso. pose proof (path_bound _ Hp). lia.
  - destruct (existsb (Pos.eqb l) anc) eqn:Ex.
    { exfalso. apply existsb_Exists, Exists_exists in Ex as (a&Hin&->%Pos.eqb_eq).
      destruct (Ha _ Hin) as (m&Hm&Hlt).
      rewrite (chain_length_fun (Some a) m (S n)) in Hlt; [lia|done|by econstructor]. }
    rewrite Hl.
    destruct (IH (ef_Compensation e) (l :: anc) n) as (b&->&Hb); [by eapply path_cons|cbn; lia|done| |].
    + intros a [->|Hin]%elem_of_cons; [exists (S n); split; [by econstructor|lia]|].
      destruct (Ha _ Hin) as (m&?&?). exists m. split; [done|lia].
    + eexists. split; [done|]. by constructor.
Qed.
End Chains.

(** C37. The effect digest is defined on every compensation graph and fails
    closed on cyclic ones.  When the compensation chain of an effect ends, the
    digest is the hash of the projection of that chain, and it exists exactly
    when the parameters of every effect of the chain have a JSON encoding; the
    only other failure is theirs.  When the chain does not end, the digest is
    the cycle error.  The fuel of the model, one call per effect and two more,
    is never exhausted. *)
Theorem effect_digest_total `{Hash} (h : effects) l :
  heap_closed h -> is_Some (h !! l) ->
  ((exists n, chain_length h (Some l) n) ->
   exists b, projects h (Some l) (Some b) /\
     CanonicalEffectDigest h (Some l) = hashEffectDigestBinding b /\
     ((exists d, CanonicalEffectDigest h (Some l) = Ok d) <->
      forall e, on_chain h (Some l) e -> encodable e)) /\
  ((forall n, ~ chain_length h (Some l) n) ->
   CanonicalEffectDigest h (Some l) = Fail err_cycle).
Proof.
  intros Hc Hl. assert (Hp : path_ok h []) by (split; [constructor|set_solver]).
  unfold CanonicalEffectDigest, digest_fuel. split.
  - intros [n Hn].
    destruct (projection_total h (S (S (size h))) (Some l) [] n) as (ob&E&Hb);
      [done|cbn; lia|done|set_solver|].
    assert (exists b, ob = Some b) as [b ->] by (inversion Hb; by eexists).
    exists b. split; [done|]. rewrite E. cbn [mbind res_bind]. split; [done|].
    rewrite <- (projects_encodable _ _ _ Hb). unfold hashEffectDigestBinding, JCS_res.
    destruct (json_of_binding b) as [j|err]; cbn [wrap_err mbind res_bind]; [|by split; intros [? ?]].
    rewrite JCS_Ok. split; intros _; by eexists.
  - intros Hn. rewrite projection_cycle; [done|done|done|cbn; lia| |done].
    by intros l' [= <-].
Qed.

(** A stand-in digest for the worked examples. *)
Definition id_hash : Hash := fun b => b.

Definition sample_effect : Effect := zero_effect <| ef_EffectType := "SEND_EMAIL" |>.
Definition sample_heap : effects :=
  {[ 1%positive := sample_effect <| ef_Compensation := Some 2%positive |>;
     2%positive := sample_effect ]}.
Definition cyclic_heap : effects :=
  {[ 1%positive := sample_effect <| ef_Compensation := Some 2%positive |>;
     2%positive := sample_effect <| ef_Compensation := Some 1%positive |> ]}.

Lemma cyclic_heap_closed : heap_closed cyclic_heap.
Proof.
  intros l e l' Hl Hc. unfold cyclic_heap in *.
  apply lookup_insert_Some in Hl as [[<- <-]|[_ Hl]].
  - injection Hc as <-. by eexists.
  - apply lookup_singleton_Some in Hl as [<- <-]. injection Hc as <-. by eexists.
Qed.

Lemma cyclic_heap_no_end n : ~ chain_length cyclic_heap (Some 1%positive) n
  /\ ~ chain_length cyclic_heap (Some 2%positive) n.
Proof.
  induction n as [|n [IH1 IH2]]; split; intros Hn; inversion Hn as [|l e m Hl Hm]; subst.
  - injection Hl as <-. done.
  - injection Hl as <-. done.
Qed.

(** A parameter that JSON cannot encode, behind an effect that has none. *)
Definition nan_effect : Effect := sample_effect <| ef_Params := Some {["ratio" := AFloat SpecFloat.S754_nan]} |>.
Definition unencodable_heap : effects :=
  {[ 1%positive := sample_effect <| ef_Compensation := Some 2%positive |>;
     2%positive := nan_effect ]}.

Lemma nan_not_encodable : ~ encodable nan_effect.
Proof. intros [fs E]. vm_compute in E. discriminate E. Qed.

Lemma effect_digest_total_witness :
  @CanonicalEffectDigest id_hash cyclic_heap (Some 1%positive) = Fail err_cycle /\
  (exists d, @CanonicalEffectDigest id_hash sample_heap (Some 1%positive) = Ok d) /\
  ~ (exists d, @CanonicalEffectDigest id_hash unencodable_heap (Some 1%positive) = Ok d).
Proof.
  assert (Ends : forall e2 : Effect, ef_Compensation e2 = None ->
    let h : effects := {[ 1%positive := sample_effect <| ef_Compensation := Some 2%positive |>; 2%positive := e2 ]} in
    heap_closed h /\ exists n, chain_length h (Some 1%positive) n).
  { intros e2 E2 h. split.
    - intros l e l' Hl Hc. apply lookup_insert_Some in Hl as [[<- <-]|[_ Hl]]; [injection Hc as <-; by eexists|].
      apply lookup_singleton_Some in Hl as [<- <-]. congruence.
    - eexists. eapply chain_step; [reflexivity|]. eapply chain_step; [reflexivity|]. rewrite E2. constructor. }
  split_and!.
  - apply (@effect_digest_total id_hash cyclic_heap 1%positive); [apply cyclic_heap_closed|by eexists|].
    intros n. apply cyclic_heap_no_end.
  - destruct (Ends sample_effect eq_refl) as [Hc Hn].
    destruct (@effect_digest_total id_hash sample_heap 1%positive Hc ltac:(by eexists)) as [D _].
    destruct (D Hn) as (b & _ & _ & D2). apply D2. intros e He.
    inversion He as [? ? H1|? ? ? H1 H2]; subst; injection H1 as <-; [by eexists|].
    inversion H2 as [? ? H3|? ? ? H3 H4]; subst; injection H3 as <-; [by eexists|inversion H4].
  - destruct (Ends nan_effect eq_refl) as [Hc Hn].
    destruct (@effect_digest_total id_hash unencodable_heap 1%positive Hc ltac:(by eexists)) as [D _].
    destruct (D Hn) as (b & _ & _ & D2). intros Hd. rewrite D2 in Hd.
    apply nan_not_encodable, Hd.
    apply (on_chain_later _ _ (sample_effect <| ef_Compensation := Some 2%positive |>)); [reflexivity|].
    by apply on_chain_here.
Defined.

(** ** The signed binding carries the digest of its effect *)

Lemma traverse_Forall2 {A B} (f : A -> res B) l k :
  traverse f l = Ok k <-> Forall2 (fun x y => f x = Ok y) l k.
Proof.
  revert k. induction l as [|x l IH]; intros k; cbn.
  - split; [by intros [= <-]|by inversion 1].
  - rewrite res_bind_Ok. split.
    + intros (y&Hy&E). apply res_bind_Ok in E as (ys&Hys&[= <-]).
      constructor; [done|by apply IH].
    + inversion 1 as [|? y ? ys Hy Hys]; subst. exists y. split; [done|].
      apply IH in Hys. by rewrite Hys.
Qed.

(** Decoding and encoding again gives the same value up to member order. *)
Lemma json_of_any_of_json j : exists j', json_of_any (any_of_json j) = Ok j' /\ jeq j' j.
Proof.
  induction j as [| | |s|l IH|l IH] using json_rect'; cbn; try (eexists; split; [done|constructor]).
  - assert (H : exists k, traverse json_of_any (map any_of_json l) = Ok k /\ Forall2 jeq k l).
    { induction IH as [|x l (x'&Ex&Hx) IH (k&Ek&Hk)]; cbn; [by exists []|].
      exists (x' :: k). rewrite Ex. cbn. rewrite Ek. by split; [|constructor]. }
    destruct H as (k&->&Hk). eexists. split; [done|by constructor].
  - assert (H : exists k,
      traverse (fun kv => j ← json_of_any kv.2; Ok (kv.1, j))
        (map (fun kv => (kv.1, any_of_json kv.2)) l) = Ok k
      /\ Forall2 (fun x y => x.1 = y.1 /\ jeq x.2 y.2) k l).
    { induction IH as [|x l (x'&Ex&Hx) IH (k&Ek&Hk)]; cbn; [by exists []|].
      exists ((x.1, x') :: k). rewrite Ex. cbn. rewrite Ek. by split; [|constructor]. }
    destruct H as (k&->&Hk). eexists. split; [done|].
    apply (Permutation_Forall2 (l1' := sort_by string_lt k)) in Hk as (k'&Hp&Hk);
      [|by rewrite sort_by_perm].
    by apply (jeq_obj _ k').
Qed.

Lemma reparse_of_jeq j k : jeq j (reparse k) -> reparse j = j.
Proof.
  intros E. apply reparse_id.
  - by rewrite (jeq_nodup _ _ E), reparse_nodup.
  - by rewrite (jeq_all_valid _ _ E), reparse_valid.
Qed.

Lemma clone_params m c :
  cloneEffectDigestParams (Some m) = Ok c ->
  exists j m' j', json_of_obj m = Ok j /\ c = Some m' /\ json_of_obj m' = Ok j' /\
    jeq j' (reparse j) /\ (m = ∅ <-> m' = ∅).
Proof.
  unfold cloneEffectDigestParams, json_of_obj. cbn [wrap_err].
  destruct (traverse _ (map_to_list m)) as [js|] eqn:Et; cbn; [|done]. intros [= <-].
  set (l := last_wins _).
  set (L := map (fun kv => (kv.1, any_of_json kv.2)) l).
  assert (HL : NoDup L.*1).
  { replace (L.*1) with (l.*1); [apply last_wins_NoDup|].
    unfold L. generalize l. intros q. induction q; cbn; congruence. }
  assert (Hk : exists k, Forall2 (fun x y => (j ← json_of_any x.2; Ok (x.1, j)) = Ok y) L k
    /\ Forall2 (fun x y => x.1 = y.1 /\ jeq x.2 y.2) k l).
  { unfold L. generalize l. intros q. induction q as [|[s x] q (k&H1&H2)]; [by exists []|].
    destruct (json_of_any_of_json x) as (x'&Ex&Hx). exists ((s, x') :: k). cbn.
    split; constructor; auto. cbn. by rewrite Ex. }
  destruct Hk as (k&H1&H2).
  pose proof (map_to_list_to_map (M := gmap string) L HL) as Hp. symmetry in Hp.
  apply (Permutation_Forall2 Hp) in H1 as (k1&Hk1&H1).
  apply traverse_Forall2 in H1.
  exists (JObj (sort_by string_lt js)), (list_to_map L), (JObj (sort_by string_lt k1)).
  rewrite H1. do 3 (split; [done|]). split.
  - assert (Hs : k ≡ₚ sort_by string_lt k1) by (by rewrite sort_by_perm).
    apply (Permutation_Forall2 Hs) in H2 as (l'&Hl'&H2). by apply (jeq_obj _ l').
  - apply traverse_Forall2 in Et. split.
    + intros ->. rewrite map_to_list_empty in Et. inversion Et; subst. done.
    + intros E. destruct L as [|x L'] eqn:EL.
      * apply map_to_list_empty_iff. destruct (map_to_list m) as [|y ys]; [done|].
        inversion Et as [|? z ? zs Hz Hzs]; subst.
        exfalso. apply map_eq_nil in EL. subst l. apply last_wins_nil, map_eq_nil in EL.
        pose proof (sort_by_perm (less := string_lt) (z :: zs)) as Hz'.
        rewrite EL in Hz'. by apply Permutation_nil_cons in Hz'.
      * exfalso. apply (f_equal (lookup x.1)) in E. rewrite lookup_empty in E.
        destruct x as [xk xv]. cbn in E. by rewrite lookup_insert_eq in E.
Qed.

Lemma last_wins_Forall2 {V U} (R : V -> U -> Prop) l k :
  Forall2 (fun x y => x.1 = y.1 /\ R x.2 y.2) l k ->
  Forall2 (fun x y => x.1 = y.1 /\ R x.2 y.2) (last_wins l) (last_wins k).
Proof.
  induction 1 as [|x y l k [Hk Hr] H2 IH]; cbn; [constructor|].
  replace (map fst l) with (map fst k).
  - rewrite Hk. destruct (existsb _ _); [done|by constructor].
  - clear -H2. by induction H2 as [|x y l k [Hk _] ? IH]; cbn; [|f_equal].
Qed.

(** Objects with the same keys and canonically equal values are canonically
    equal. *)
Lemma reparse_obj_jeq l k :
  Forall2 (fun x y => x.1 = y.1 /\ jeq (reparse x.2) (reparse y.2)) l k ->
  jeq (reparse (JObj l)) (reparse (JObj k)).
Proof.
  intros H. cbn. eapply jeq_obj; [|reflexivity]. apply last_wins_Forall2.
  induction H as [|x y l k [Hk Hj] H IH]; cbn; [constructor|].
  constructor; [|done]. cbn. by rewrite Hk.
Qed.

Definition member_eq (x y : string * json) : Prop :=
  x.1 = y.1 /\ jeq (reparse x.2) (reparse y.2).

Lemma member_eq_refl l : Forall2 member_eq l l.
Proof. induction l; constructor; [|done]. split; [done|constructor]. Qed.

Lemma clone_params_member p p' :
  cloneEffectDigestParams p = Ok p' ->
  exists f f', json_of_params p = Ok f /\ json_of_params p' = Ok f' /\ Forall2 member_eq f' f.
Proof.
  destruct p as [m|]; [|by intros [= <-]; exists [], []].
  intros (j&m'&j'&Ej&->&Ej'&Hj&Hemp)%clone_params.
  unfold json_of_params, empty_obj. cbn [default from_option id].
  destruct (decide (m = ∅)) as [Hm|Hm].
  - rewrite !bool_decide_true by tauto. exists [], []. by repeat constructor.
  - rewrite !bool_decide_false by tauto. rewrite Ej, Ej'. cbn.
    eexists _, _. split_and!; [done..|]. repeat constructor. cbn.
    by rewrite (reparse_of_jeq _ _ Hj).
Qed.

Lemma normalize_binding_eq b :
  normalizeEffectDigestBinding b false =
  (comp ← match eb_Compensation b with
          | None => Ok None
          | Some c => c' ← normalizeEffectDigestBinding c false; Ok (Some c')
          end;
   Ok {| eb_EffectType := eb_EffectType b; eb_Params := eb_Params b;
         eb_IdempotencyKey := eb_IdempotencyKey b; eb_Irreversible := eb_Irreversible b;
         eb_ArgsHash := eb_ArgsHash b; eb_OutputHash := eb_OutputHash b;
         eb_Taint := NormalizeTaintLabels (eb_Taint b); eb_Compensation := comp |}).
Proof. by destruct b as [? ? ? ? ? ? ? []]. Qed.

(** What the copying projection [b1] and the plain one [b0] have in common. *)
Definition agrees (b1 b0 : option EffectDigestBinding) : Prop :=
  match b1, b0 with
  | None, None => True
  | Some y, Some x =>
      normalizeEffectDigestBinding y false = Ok y /\
      exists j j', json_of_binding y = Ok j' /\ json_of_binding x = Ok j /\
        jeq (reparse j') (reparse j)
  | _, _ => False
  end.

Lemma projection_clone fuel h p anc b1 :
  effectDigestBindingFromEffect fuel h p anc true = Ok b1 ->
  exists b0, effectDigestBindingFromEffect fuel h p anc false = Ok b0 /\ agrees b1 b0.
Proof.
  revert p anc b1. induction fuel as [|fuel IH]; intros [l|] anc b1; cbn;
    try (by intros [= <-]; exists None).
  destruct (existsb _ _); [done|]. destruct (h !! l) as [e|]; [|done].
  intros (c1&E1&H)%res_bind_Ok. apply res_bind_Ok in H as (p1&Ep&[= <-]).
  apply wrap_err_Ok, clone_params_member in Ep as (f&f'&Ef&Ef'&Hf).
  destruct (IH _ _ _ E1) as (c0&->&Hc). cbn [mbind res_bind].
  eexists. split; [done|]. cbn [agrees].
  split.
  - rewrite normalize_binding_eq. cbn [eb_Compensation eb_Taint].
    rewrite NormalizeTaintLabels_idemp.
    destruct c1 as [y|], c0 as [x|]; try done. destruct Hc as [-> _]. done.
  - rewrite !json_of_binding_eq. cbn [eb_Compensation eb_Params].
    rewrite Ef, Ef'. cbn.
    destruct c1 as [y|], c0 as [x|]; try done; cbn [agrees] in Hc.
    + destruct Hc as (_&j&j'&->&->&Hj). eexists _, _. split; [done|]. split; [done|].
      apply reparse_obj_jeq. constructor; [split; [done|constructor]|].
      apply Forall2_app; [done|]. repeat (apply Forall2_app; [apply member_eq_refl|]).
      by repeat constructor.
    + eexists _, _. split; [done|]. split; [done|].
      apply reparse_obj_jeq. constructor; [split; [done|constructor]|].
      apply Forall2_app; [done|]. apply member_eq_refl.
Qed.

(** The portable binding carried by an execution intent, whose parameters
    are a decoded copy of the effect's, hashes to the same digest as the effect
    itself: what the executor recomputes from the intent is what the decision
    was bound to. *)
Theorem binding_digest_agrees `{Hash} h p b :
  NewEffectDigestBinding h p = Ok b ->
  CanonicalEffectDigestFromBinding (Some b) = CanonicalEffectDigest h p /\
  exists d, CanonicalEffectDigest h p = Ok d.
Proof.
  destruct p as [l|]; [|done]. unfold NewEffectDigestBinding.
  intros ([b1|]&E&Hb)%res_bind_Ok; [|done]. injection Hb as ->.
  apply projection_clone in E as (b0&E&Ha). destruct b0 as [b0|]; [|done].
  destruct Ha as (Hn&j&j'&Ej'&Ej&Hj).
  unfold CanonicalEffectDigestFromBinding, CanonicalEffectDigest.
  rewrite Hn, E. cbn. unfold hashEffectDigestBinding, JCS_res. rewrite Ej, Ej'. cbn.
  rewrite (JCS_jeq _ _ Hj), JCS_Ok. cbn. eauto.
Qed.

Definition sample_params_heap : effects :=
  {[ 1%positive := sample_effect <| ef_Params := Some {[ "to" := AString "x"; "n" := AInt 3 ]} |>
       <| ef_Taint := [" PII "; "pii"] |> ]}.

Lemma binding_digest_agrees_witness :
  exists b, NewEffectDigestBinding sample_params_heap (Some 1%positive) = Ok b /\
  @CanonicalEffectDigestFromBinding id_hash (Some b)
  = @CanonicalEffectDigest id_hash sample_params_heap (Some 1%positive).
Proof.
  destruct (NewEffectDigestBinding sample_params_heap (Some 1%positive)) as [b|] eqn:E.
  - exists b. split; [done|].
    apply (@binding_digest_agrees id_hash sample_params_heap (Some 1%positive) b E).
  - vm_compute in E. discriminate.
Defined.

Local Open Scope Z_scope.

(** * Threat-scan evidence (threat_signal.go) *)

Definition ThreatSeverityInfo := "INFO".
Definition ThreatSeverityLow := "LOW".
Definition ThreatSeverityMedium := "MEDIUM".
Definition ThreatSeverityHigh := "HIGH".
Definition ThreatSeverityCritical := "CRITICAL".

Definition InputTrustTrusted := "TRUSTED".
Definition InputTrustInternalUnverified := "INTERNAL_UNVERIFIED".
Definition InputTrustExternalUntrusted := "EXTERNAL_UNTRUSTED".
Definition InputTrustTainted := "TAINTED".

Definition SourceChannelUnknown := "UNKNOWN".
Definition SourceChannelToolOutput := "TOOL_OUTPUT".

Definition ThreatClassPromptInjection := "PROMPT_INJECTION_PATTERN".
Definition ThreatClassUnicodeObfuscation := "UNICODE_OBFUSCATION_PATTERN".
Definition ThreatClassSuspiciousFetch := "SUSPICIOUS_EXTERNAL_FETCH_PATTERN".
Definition ThreatClassCredentialExposure := "CREDENTIAL_EXPOSURE_PATTERN".
Definition ThreatClassSoftwarePublish := "SOFTWARE_PUBLISH_PATTERN".

Record SemanticThreatAssessment := {
  sm_Available : bool;
  sm_ModelVersion : string;
  sm_ModelHash : string;
  sm_ExpectedModelHash : string;
  sm_FailureReason : string;
  sm_ThresholdBP : Z;
  sm_MaxBP : Z;
  sm_NearestClass : string;
  sm_Flagged : bool;
  sm_InputTruncated : bool;
}.
#[export] Instance SemanticThreatAssessment_eta : Eta SemanticThreatAssessment := fun r => {|
  sm_Available := sm_Available r; sm_ModelVersion := sm_ModelVersion r;
  sm_ModelHash := sm_ModelHash r; sm_ExpectedModelHash := sm_ExpectedModelHash r;
  sm_FailureReason := sm_FailureReason r; sm_ThresholdBP := sm_ThresholdBP r;
  sm_MaxBP := sm_MaxBP r; sm_NearestClass := sm_NearestClass r; sm_Flagged := sm_Flagged r;
  sm_InputTruncated := sm_InputTruncated r |}.
Definition zero_sm_rec : SemanticThreatAssessment := {|
  sm_Available := false; sm_ModelVersion := ""; sm_ModelHash := "";
  sm_ExpectedModelHash := ""; sm_FailureReason := ""; sm_ThresholdBP := 0; sm_MaxBP := 0;
  sm_NearestClass := ""; sm_Flagged := false; sm_InputTruncated := false |}.

(** The fields of a finding the kernel reads. *)
Record ThreatFinding := {
  tf_Class : string;
  tf_Severity : string;
  tf_RuleID : string;
}.
#[export] Instance ThreatFinding_eta : Eta ThreatFinding := fun r => {|
  tf_Class := tf_Class r; tf_Severity := tf_Severity r; tf_RuleID := tf_RuleID r |}.
Definition zero_tf_rec : ThreatFinding := {|
  tf_Class := ""; tf_Severity := ""; tf_RuleID := "" |}.

Record ThreatScanResult := {
  ts_ScanID : string;
  ts_Timestamp : time;
  ts_SourceChannel : string;
  ts_TrustLevel : string;
  ts_MaxSeverity : string;
  ts_FindingCount : Z;
  ts_Findings : list ThreatFinding;
  ts_RawInputHash : string;
  ts_NormalizedInputHash : string;
  ts_Semantic : option SemanticThreatAssessment;
}.
#[export] Instance ThreatScanResult_eta : Eta ThreatScanResult := fun r => {|
  ts_ScanID := ts_ScanID r; ts_Timestamp := ts_Timestamp r;
  ts_SourceChannel := ts_SourceChannel r; ts_TrustLevel := ts_TrustLevel r;
  ts_MaxSeverity := ts_MaxSeverity r; ts_FindingCount := ts_FindingCount r;
  ts_Findings := ts_Findings r; ts_RawInputHash := ts_RawInputHash r;
  ts_NormalizedInputHash := ts_NormalizedInputHash r; ts_Semantic := ts_Semantic r |}.
Definition zero_ts_rec : ThreatScanResult := {|
  ts_ScanID := ""; ts_Timestamp := zero_time; ts_SourceChannel := ""; ts_TrustLevel := "";
  ts_MaxSeverity := ""; ts_FindingCount := 0; ts_Findings := []; ts_RawInputHash := "";
  ts_NormalizedInputHash := ""; ts_Semantic := None |}.

Record ThreatScanRef := {
  tr_ScanID : string;
  tr_MaxSeverity : string;
  tr_FindingCount : Z;
  tr_TrustLevel : string;
  tr_InputHash : string;
  tr_Semantic : option SemanticThreatAssessment;
}.
#[export] Instance ThreatScanRef_eta : Eta ThreatScanRef := fun r => {|
  tr_ScanID := tr_ScanID r; tr_MaxSeverity := tr_MaxSeverity r;
  tr_FindingCount := tr_FindingCount r; tr_TrustLevel := tr_TrustLevel r;
  tr_InputHash := tr_InputHash r; tr_Semantic := tr_Semantic r |}.
Definition zero_tr_rec : ThreatScanRef := {|
  tr_ScanID := ""; tr_MaxSeverity := ""; tr_FindingCount := 0; tr_TrustLevel := "";
  tr_InputHash := ""; tr_Semantic := None |}.

(** A severity outside the table reads as 0, as an absent map key does. *)
Definition severityOrder (s : string) : Z :=
  if String.eqb s ThreatSeverityLow then 1
  else if String.eqb s ThreatSeverityMedium then 2
  else if String.eqb s ThreatSeverityHigh then 3
  else if String.eqb s ThreatSeverityCritical then 4
  else 0.

Definition SeverityAtLeast (severity threshold : string) : bool :=
  severityOrder threshold <=? severityOrder severity.

Definition MaxSeverityOf (findings : list ThreatFinding) : string :=
  foldl (fun max f => if severityOrder max <? severityOrder (tf_Severity f)
                      then tf_Severity f else max) ThreatSeverityInfo findings.

Definition IsTainted (t : string) : bool :=
  String.eqb t InputTrustTainted || String.eqb t InputTrustExternalUntrusted.

Definition Ref (r : ThreatScanResult) : ThreatScanRef := {|
  tr_ScanID := ts_ScanID r; tr_MaxSeverity := ts_MaxSeverity r;
  tr_FindingCount := ts_FindingCount r; tr_TrustLevel := ts_TrustLevel r;
  tr_InputHash := ts_RawInputHash r; tr_Semantic := ts_Semantic r |}.

Definition semantic_entries (p : string) (s : SemanticThreatAssessment) : list (string * any) :=
  [(p +:+ "available", ABool (sm_Available s));
   (p +:+ "model_version", AString (sm_ModelVersion s));
   (p +:+ "model_hash", AString (sm_ModelHash s));
   (p +:+ "expected_model_hash", AString (sm_ExpectedModelHash s));
   (p +:+ "failure_reason", AString (sm_FailureReason s));
   (p +:+ "threshold_bp", AInt (sm_ThresholdBP s));
   (p +:+ "max_bp", AInt (sm_MaxBP s));
   (p +:+ "nearest_class", AString (sm_NearestClass s));
   (p +:+ "flagged", ABool (sm_Flagged s));
   (p +:+ "input_truncated", ABool (sm_InputTruncated s))].

Definition PolicyContext (r : ThreatScanRef) : any :=
  AMap ([("scan_id", AString (tr_ScanID r));
         ("max_severity", AString (tr_MaxSeverity r));
         ("finding_count", AInt (tr_FindingCount r));
         ("trust_level", AString (tr_TrustLevel r));
         ("input_hash", AString (tr_InputHash r))]
        ++ match tr_Semantic r with
           | None => []
           | Some s => ("semantic", AMap (semantic_entries "" s)) :: semantic_entries "semantic_" s
           end)%list.

Definition json_of_semantic (s : SemanticThreatAssessment) : json :=
  JObj ([("available", JBool (sm_Available s))]
    ++ opt_string "model_version" (sm_ModelVersion s)
    ++ opt_string "model_hash" (sm_ModelHash s)
    ++ opt_string "expected_model_hash" (sm_ExpectedModelHash s)
    ++ opt_string "failure_reason" (sm_FailureReason s)
    ++ [("threshold_bp", JNum (dec (sm_ThresholdBP s))); ("max_bp", JNum (dec (sm_MaxBP s)))]
    ++ opt_string "nearest_class" (sm_NearestClass s)
    ++ [("flagged", JBool (sm_Flagged s))]
    ++ opt_field (negb (sm_InputTruncated s)) "input_truncated" (JBool true))%list.

Definition json_of_ref (r : ThreatScanRef) : json :=
  JObj ([("scan_id", JStr (tr_ScanID r)); ("max_severity", JStr (tr_MaxSeverity r));
         ("finding_count", JNum (dec (tr_FindingCount r)));
         ("trust_level", JStr (tr_TrustLevel r)); ("input_hash", JStr (tr_InputHash r))]
    ++ match tr_Semantic r with None => [] | Some s => [("semantic", json_of_semantic s)] end)%list.

(** * Decisions and intents (decision.go) *)

Inductive InterventionType :=
| InterventionNone | InterventionThrottle | InterventionInterrupt | InterventionQuarantine.

Definition intervention_text (t : InterventionType) : string :=
  match t with
  | InterventionNone => "NONE"
  | InterventionThrottle => "THROTTLE"
  | InterventionInterrupt => "INTERRUPT"
  | InterventionQuarantine => "QUARANTINE"
  end.

Record InterventionMetadata := {
  im_Type : InterventionType;
  im_ReasonCode : string;
  im_WaitDuration : duration;
  im_TokensSaved : Z;
}.
#[export] Instance InterventionMetadata_eta : Eta InterventionMetadata := fun r => {|
  im_Type := im_Type r; im_ReasonCode := im_ReasonCode r;
  im_WaitDuration := im_WaitDuration r; im_TokensSaved := im_TokensSaved r |}.
Definition zero_intervention : InterventionMetadata := {|
  im_Type := InterventionNone; im_ReasonCode := ""; im_WaitDuration := 0;
  im_TokensSaved := 0 |}.

Record DecisionRecord := {
  dr_ID : string;
  dr_ProposalID : string;
  dr_CorrelationID : string;
  dr_StepID : string;
  dr_PhenotypeHash : string;
  dr_PolicyVersion : string;
  dr_SubjectID : string;
  dr_Action : string;
  dr_Resource : string;
  dr_EffectDigest : string;
  dr_PolicyBackend : string;
  dr_PolicyContentHash : string;
  dr_PolicyEpoch : string;
  dr_PolicyDecisionHash : string;
  dr_StateCursor : string;
  dr_Snapshot : string;
  dr_EnvFingerprint : string;
  dr_Verdict : string;
  dr_Reason : string;
  dr_ReasonCode : string;
  dr_InputContext : ctx;
  dr_ThreatScan : option ThreatScanRef;
  dr_TrajectoryRiskScore : float64;
  dr_SessionCentroidHash : string;
  dr_RiskAccumulationWindow : Z;
  dr_RequirementSetHash : string;
  dr_GateRosterHash : string;
  dr_Signature : string;
  dr_SignatureType : string;
  dr_SignatureVersion : string;
  dr_Timestamp : time;
  dr_Intervention : option InterventionMetadata;
}.
#[export] Instance DecisionRecord_eta : Eta DecisionRecord := fun r => {|
  dr_ID := dr_ID r; dr_ProposalID := dr_ProposalID r;
  dr_CorrelationID := dr_CorrelationID r; dr_StepID := dr_StepID r;
  dr_PhenotypeHash := dr_PhenotypeHash r; dr_PolicyVersion := dr_PolicyVersion r;
  dr_SubjectID := dr_SubjectID r; dr_Action := dr_Action r; dr_Resource := dr_Resource r;
  dr_EffectDigest := dr_EffectDigest r; dr_PolicyBackend := dr_PolicyBackend r;
  dr_PolicyContentHash := dr_PolicyContentHash r; dr_PolicyEpoch := dr_PolicyEpoch r;
  dr_PolicyDecisionHash := dr_PolicyDecisionHash r; dr_StateCursor := dr_StateCursor r;
  dr_Snapshot := dr_Snapshot r; dr_EnvFingerprint := dr_EnvFingerprint r;
  dr_Verdict := dr_Verdict r; dr_Reason := dr_Reason r; dr_ReasonCode := dr_ReasonCode r;
  dr_InputContext := dr_InputContext r; dr_ThreatScan := dr_ThreatScan r;
  dr_TrajectoryRiskScore := dr_TrajectoryRiskScore r;
  dr_SessionCentroidHash := dr_SessionCentroidHash r;
  dr_RiskAccumulationWindow := dr_RiskAccumulationWindow r;
  dr_RequirementSetHash := dr_RequirementSetHash r;
  dr_GateRosterHash := dr_GateRosterHash r; dr_Signature := dr_Signature r;
  dr_SignatureType := dr_SignatureType r; dr_SignatureVersion := dr_SignatureVersion r;
  dr_Timestamp := dr_Timestamp r; dr_Intervention := dr_Intervention r |}.
Definition zero_decision : DecisionRecord := {|
  dr_ID := ""; dr_ProposalID := ""; dr_CorrelationID := ""; dr_StepID := "";
  dr_PhenotypeHash := ""; dr_PolicyVersion := ""; dr_SubjectID := ""; dr_Action := "";
  dr_Resource := ""; dr_EffectDigest := ""; dr_PolicyBackend := "";
  dr_PolicyContentHash := ""; dr_PolicyEpoch := ""; dr_PolicyDecisionHash := "";
  dr_StateCursor := ""; dr_Snapshot := ""; dr_EnvFingerprint := ""; dr_Verdict := "";
  dr_Reason := ""; dr_ReasonCode := ""; dr_InputContext := None; dr_ThreatScan := None;
  dr_TrajectoryRiskScore := SpecFloat.S754_zero false; dr_SessionCentroidHash := "";
  dr_RiskAccumulationWindow := 0; dr_RequirementSetHash := ""; dr_GateRosterHash := "";
  dr_Signature := ""; dr_SignatureType := ""; dr_SignatureVersion := "";
  dr_Timestamp := zero_time; dr_Intervention := None |}.

Definition VerdictPending := "PENDING".
Definition AuthorizedExecutionIntentSignatureV2 := "authorized_execution_intent.v2".
Definition DecisionRecordSignatureV2 := "decision_record.v2".
Definition DecisionRecordSignatureV3 := "decision_record.v3".
Definition DecisionRecordSignatureV4 := "decision_record.v4".

(** The first of a list of named fields that is blank. *)
Fixpoint first_blank (fields : list (string * string)) : option string :=
  match fields with
  | [] => None
  | (name, value) :: fields' => if blank value then Some name else first_blank fields'
  end.

Definition ValidateDecisionAuthorityForUse (d : option DecisionRecord) : res unit :=
  match d with
  | None => Fail "decision is required"
  | Some d =>
      if negb (String.eqb (dr_SignatureVersion d) DecisionRecordSignatureV4)
      then Fail ("execution authority requires " +:+ DecisionRecordSignatureV4 +:+ ", got "
                 +:+ goq (dr_SignatureVersion d))
      else match first_blank [("subject ID", dr_SubjectID d); ("action", dr_Action d);
                              ("resource", dr_Resource d);
                              ("signature type", dr_SignatureType d)] with
           | Some name => Fail ("execution authority missing " +:+ name)
           | None => Ok tt
           end
  end.

Record AuthorizedExecutionIntent := {
  ai_ID : string;
  ai_DecisionID : string;
  ai_EffectDigestHash : string;
  ai_EffectBinding : option EffectDigestBinding;
  ai_IdempotencyKey : string;
  ai_IssuedAt : time;
  ai_ExpiresAt : time;
  ai_Signer : string;
  ai_Signature : string;
  ai_SignatureType : string;
  ai_SignatureVersion : string;
  ai_AllowedTool : string;
  ai_Taint : list string;
  ai_EmergencyActivationID : string;
  ai_EmergencyDelegationSessionID : string;
  ai_EmergencyScopeHash : string;
}.
#[export] Instance AuthorizedExecutionIntent_eta : Eta AuthorizedExecutionIntent := fun r => {|
  ai_ID := ai_ID r; ai_DecisionID := ai_DecisionID r;
  ai_EffectDigestHash := ai_EffectDigestHash r; ai_EffectBinding := ai_EffectBinding r;
  ai_IdempotencyKey := ai_IdempotencyKey r; ai_IssuedAt := ai_IssuedAt r;
  ai_ExpiresAt := ai_ExpiresAt r; ai_Signer := ai_Signer r; ai_Signature := ai_Signature r;
  ai_SignatureType := ai_SignatureType r; ai_SignatureVersion := ai_SignatureVersion r;
  ai_AllowedTool := ai_AllowedTool r; ai_Taint := ai_Taint r;
  ai_EmergencyActivationID := ai_EmergencyActivationID r;
  ai_EmergencyDelegationSessionID := ai_EmergencyDelegationSessionID r;
  ai_EmergencyScopeHash := ai_EmergencyScopeHash r |}.
Definition zero_intent : AuthorizedExecutionIntent := {|
  ai_ID := ""; ai_DecisionID := ""; ai_EffectDigestHash := ""; ai_EffectBinding := None;
  ai_IdempotencyKey := ""; ai_IssuedAt := zero_time; ai_ExpiresAt := zero_time;
  ai_Signer := ""; ai_Signature := ""; ai_SignatureType := ""; ai_SignatureVersion := "";
  ai_AllowedTool := ""; ai_Taint := []; ai_EmergencyActivationID := "";
  ai_EmergencyDelegationSessionID := ""; ai_EmergencyScopeHash := "" |}.

(** The window of a signed intent; the text of the error names the instant. *)
Definition ValidateAt (i : option AuthorizedExecutionIntent) (now : time) : res unit :=
  match i with
  | None => Fail "execution intent is required"
  | Some i =>
      if after (ai_IssuedAt i) now
      then Fail ("execution intent is not active until " +:+ fmt_seconds (ai_IssuedAt i))
      else if is_zero (ai_ExpiresAt i) || negb (before now (ai_ExpiresAt i))
      then Fail ("execution intent expired at " +:+ fmt_seconds (ai_ExpiresAt i))
      else Ok tt
  end.

Lemma first_blank_None fields :
  first_blank fields = None <-> Forall (fun f => blank f.2 = false) fields.
Proof.
  induction fields as [|[n v] fields IH]; cbn; [by split|].
  destruct (blank v) eqn:E.
  - split; [done|]. rewrite Forall_cons. cbn [snd]. intros [H _]. congruence.
  - rewrite IH, Forall_cons. cbn. naive_solver.
Qed.

(** * Observed assumptions (observation.go) *)

Record ObservedAssumption := {
  oa_AssumptionID : string;
  oa_Subject : string;
  oa_ObservationType : string;
  oa_ContentHash : string;
  oa_CapturedAt : time;
  oa_TTLSeconds : Z;
  oa_AssumptionHash : string;
}.
#[export] Instance ObservedAssumption_eta : Eta ObservedAssumption := fun r => {|
  oa_AssumptionID := oa_AssumptionID r; oa_Subject := oa_Subject r;
  oa_ObservationType := oa_ObservationType r; oa_ContentHash := oa_ContentHash r;
  oa_CapturedAt := oa_CapturedAt r; oa_TTLSeconds := oa_TTLSeconds r;
  oa_AssumptionHash := oa_AssumptionHash r |}.
Definition zero_assumption : ObservedAssumption := {|
  oa_AssumptionID := ""; oa_Subject := ""; oa_ObservationType := ""; oa_ContentHash := "";
  oa_CapturedAt := zero_time; oa_TTLSeconds := 0; oa_AssumptionHash := "" |}.

Definition observationTypes := "dom_snapshot accessibility_tree screenshot api_response".

Definition Validate (a : ObservedAssumption) : res unit :=
  let id := goq (oa_AssumptionID a) in
  if blank (oa_AssumptionID a) then Fail "observed assumption requires assumption_id"
  else if blank (oa_Subject a)
  then Fail ("observed assumption " +:+ id +:+ " requires subject")
  else if negb (contains observationTypes (oa_ObservationType a))
          || String.eqb (oa_ObservationType a) ""
  then Fail ("observed assumption " +:+ id +:+ " has unknown observation_type "
             +:+ goq (oa_ObservationType a))
  else if negb (has_prefix (oa_ContentHash a) "sha256:")
          || negb (Nat.eqb (String.length (oa_ContentHash a)) (String.length "sha256:" + 64))
  then Fail ("observed assumption " +:+ id +:+ " requires a sha256: content_hash")
  else if is_zero (oa_CapturedAt a)
  then Fail ("observed assumption " +:+ id +:+ " requires captured_at")
  else if oa_TTLSeconds a <? 0
  then Fail ("observed assumption " +:+ id +:+ " has negative ttl_seconds")
  else Ok tt.

Definition ExpiresAt (a : ObservedAssumption) : time :=
  time_add (oa_CapturedAt a) (dur_mul (oa_TTLSeconds a) second).

Definition Expired (a : ObservedAssumption) (now : time) : bool :=
  negb (before now (ExpiresAt a)).

Definition json_of_assumption (a : ObservedAssumption) : res json :=
  t ← fmt_time (oa_CapturedAt a);
  Ok (JObj ([("assumption_id", JStr (oa_AssumptionID a)); ("subject", JStr (oa_Subject a));
             ("observation_type", JStr (oa_ObservationType a));
             ("content_hash", JStr (oa_ContentHash a)); ("captured_at", JStr t);
             ("ttl_seconds", JNum (dec (oa_TTLSeconds a)))]
            ++ opt_string "assumption_hash" (oa_AssumptionHash a))%list).

Section Seal.
Context `{Hash}.

Definition hashJCS (j : res json) : res string :=
  h ← CanonicalHash j; Ok ("sha256:" +:+ h).

Definition Seal (a : ObservedAssumption) : res ObservedAssumption :=
  let a := a <| oa_AssumptionHash := "" |> in
  h ← wrap_err "sealing observed assumption: " (hashJCS (json_of_assumption a));
  Ok (a <| oa_AssumptionHash := h |>).

(** A seal covers every field but itself. *)
Lemma Seal_spec a a' :
  Seal a = Ok a' ->
  a' = a <| oa_AssumptionHash := oa_AssumptionHash a' |> /\ Seal a' = Ok a'.
Proof.
  unfold Seal. intros (h&Eh&[= <-])%res_bind_Ok. split; [done|].
  change (wrap_err _ (hashJCS (json_of_assumption _)))
    with (wrap_err "sealing observed assumption: "
            (hashJCS (json_of_assumption (a <| oa_AssumptionHash := "" |>)))).
  by rewrite Eh.
Qed.
End Seal.

(** An assumption is usable exactly while the clock is before capture plus
    time-to-live, a zero time-to-live is never fresh, and freshness is only
    ever lost as time passes. *)
Theorem assumption_freshness a now now' :
  0 <= oa_TTLSeconds a -> in_int64 (oa_TTLSeconds a * second) = true -> now <= now' ->
  (Expired a now = false <-> now < oa_CapturedAt a + oa_TTLSeconds a * second) /\
  (oa_TTLSeconds a = 0 -> oa_CapturedAt a <= now -> Expired a now = true) /\
  (Expired a now = true -> Expired a now' = true).
Proof.
  intros H0 Hr Hle. unfold Expired, ExpiresAt, before, time_add, dur_mul.
  rewrite wrap64_id by done.
  rewrite !negb_true_iff, negb_false_iff, Z.ltb_lt, !Z.ltb_ge. lia.
Qed.

Definition sample_assumption : ObservedAssumption := zero_assumption
  <| oa_AssumptionID := "a1" |> <| oa_Subject := "page" |>
  <| oa_ObservationType := "screenshot" |> <| oa_CapturedAt := 0 |>
  <| oa_TTLSeconds := 60 |>.

Lemma assumption_freshness_witness : Expired sample_assumption (59 * second) = false.
Proof.
  apply (assumption_freshness sample_assumption (59 * second) (60 * second));
    vm_compute; try reflexivity; discriminate.
Defined.

(** The observation-type check is a substring test on the list of types,
    so it accepts text that is no type of the schema's enumeration, such as
    the blank between two types. *)
Theorem observation_type_substring :
  exists a, Validate a = Ok tt /\ oa_ObservationType a = " " /\
    ~ In (oa_ObservationType a) (fields_func (Ascii.eqb " ") observationTypes).
Proof.
  exists (sample_assumption <| oa_ObservationType := " " |>
    <| oa_ContentHash := "sha256:" +:+ zeros 64 |>).
  split; [vm_compute; reflexivity|]. split; [done|].
  vm_compute. intros [H|[H|[H|[H|[]]]]]; discriminate.
Qed.

(** ** The JSON form of a decision, as the audit log records it *)

Definition json_of_intervention (i : InterventionMetadata) : json :=
  JObj ([("type", JStr (intervention_text (im_Type i))); ("reason_code", JStr (im_ReasonCode i))]
    ++ opt_field (im_WaitDuration i =? 0) "wait_duration" (JNum (dec (im_WaitDuration i)))
    ++ opt_field (im_TokensSaved i =? 0) "tokens_saved" (JNum (dec (im_TokensSaved i))))%list.

Definition float_is_zero (f : float64) : bool :=
  match f with SpecFloat.S754_zero _ => true | _ => false end.

Definition json_of_decision (d : DecisionRecord) : res json :=
  input ← (if empty_obj (dr_InputContext d) then Ok []
           else j ← json_of_obj (default ∅ (dr_InputContext d)); Ok [("input_context", j)]);
  score ← (if float_is_zero (dr_TrajectoryRiskScore d) then Ok []
           else match json_float (dr_TrajectoryRiskScore d) with
                | Some s => Ok [("trajectory_risk_score", JNum s)]
                | None => Fail err_float
                end);
  ts ← fmt_time (dr_Timestamp d);
  Ok (JObj ([("id", JStr (dr_ID d)); ("proposal_id", JStr (dr_ProposalID d))]
    ++ opt_string "correlation_id" (dr_CorrelationID d)
    ++ [("step_id", JStr (dr_StepID d)); ("phenotype_hash", JStr (dr_PhenotypeHash d));
        ("policy_version", JStr (dr_PolicyVersion d)); ("subject_id", JStr (dr_SubjectID d));
        ("action", JStr (dr_Action d)); ("resource", JStr (dr_Resource d))]
    ++ opt_string "effect_digest" (dr_EffectDigest d)
    ++ opt_string "policy_backend" (dr_PolicyBackend d)
    ++ opt_string "policy_content_hash" (dr_PolicyContentHash d)
    ++ opt_string "policy_epoch" (dr_PolicyEpoch d)
    ++ opt_string "policy_decision_hash" (dr_PolicyDecisionHash d)
    ++ [("state_cursor", JStr (dr_StateCursor d))]
    ++ opt_string "snapshot" (dr_Snapshot d)
    ++ [("env_fingerprint", JStr (dr_EnvFingerprint d)); ("verdict", JStr (dr_Verdict d));
        ("reason", JStr (dr_Reason d))]
    ++ opt_string "reason_code" (dr_ReasonCode d)
    ++ input
    ++ match dr_ThreatScan d with None => [] | Some r => [("threat_scan", json_of_ref r)] end
    ++ score
    ++ opt_string "session_centroid_hash" (dr_SessionCentroidHash d)
    ++ opt_field (dr_RiskAccumulationWindow d =? 0) "risk_accumulation_window"
         (JNum (dec (dr_RiskAccumulationWindow d)))
    ++ opt_string "requirement_set_hash" (dr_RequirementSetHash d)
    ++ opt_string "gate_roster_hash" (dr_GateRosterHash d)
    ++ [("signature", JStr (dr_Signature d)); ("signature_type", JStr (dr_SignatureType d))]
    ++ opt_string "signature_version" (dr_SignatureVersion d)
    ++ [("timestamp", JStr ts)]
    ++ match dr_Intervention d with
       | None => []
       | Some i => [("intervention", json_of_intervention i)]
       end)%list).
