(* ===== verification/Signing.v ===== *)
(** Signing preimages and the Ed25519 signer, [core/pkg/crypto/canonical.go]
    and [signer.go].

    SHA-256 and Ed25519 are parameters.  The interface [Signer] states what the
    Guardian relies on; the Ed25519 signer discharges it from the documented
    correctness of [ed25519.Sign]/[ed25519.Verify]. *)
From Stdlib Require Import Ascii.
From S2P Require Import Prelude GoLib GoFmt Utf8 Jcs Contracts.

Local Open Scope string_scope.

(** * Preimages (canonical.go) *)

Definition SigSeparator := ":".
Definition SigPrefixEd25519 := "ed25519".

(** The text [appendJCSQuotedString] escapes: ill-formed input repaired with
    [strings.ToValidUTF8]. *)
Definition repair (s : string) : bytes :=
  if valid_utf8 (to_bytes s) then to_bytes s else to_valid_utf8 (to_bytes s).

Definition appendJCSQuotedString (dst : bytes) (value : string) : bytes :=
  (dst ++ quote_bytes (repair value))%list.

(** The literal [{"key":] or [,"key":]. *)
Definition key_literal (open : ascii) (key : string) : bytes :=
  (open :: dquote :: to_bytes key ++ [dquote; ":"%char])%list.

Definition append_field (payload : bytes) (open : ascii) (key value : string) : bytes :=
  appendJCSQuotedString (payload ++ key_literal open key)%list value.

Section Preimages.
Context `{Hash}.

Definition HashReason (reason : string) : string := hex_encode (sha256 (to_bytes reason)).

Definition CanonicalizeDecision (id verdict reason phenotypeHash policyContentHash
    effectDigest : string) : bytes :=
  to_bytes (id +:+ SigSeparator +:+ verdict +:+ SigSeparator +:+ reason +:+ SigSeparator
    +:+ phenotypeHash +:+ SigSeparator +:+ policyContentHash +:+ SigSeparator +:+ effectDigest).

Definition CanonicalizeDecisionV2 (id verdict reason reasonCode phenotypeHash
    policyContentHash effectDigest : string) : res bytes :=
  let payload := append_field [] "{" "effect_digest" effectDigest in
  let payload := append_field payload "," "id" id in
  let payload := append_field payload "," "phenotype_hash" phenotypeHash in
  let payload := append_field payload "," "policy_content_hash" policyContentHash in
  let payload := append_field payload "," "reason_code" reasonCode in
  let payload := append_field payload "," "reason_hash" (HashReason reason) in
  let payload := append_field payload "," "signature_version" DecisionRecordSignatureV2 in
  let payload := append_field payload "," "verdict" verdict in
  Ok (payload ++ ["}"%char])%list.

Definition decisionThreatScanHash (ref : option ThreatScanRef) : res string :=
  match ref with
  | None => Fail "decision.v3 requires threat scan evidence"
  | Some r =>
      payload ← wrap_err "canonicalize decision threat scan: " (JCS (json_of_ref r));
      Ok ("sha256:" +:+ hex_encode (sha256 payload))
  end.

(** [decisionV3SigningEnvelope] *)
Definition decisionV3SigningEnvelope (id verdict reasonCode reasonHash phenotypeHash
    policyContentHash effectDigest threatScanHash : string) : json :=
  JObj [("signature_version", JStr DecisionRecordSignatureV3); ("id", JStr id);
        ("verdict", JStr verdict); ("reason_code", JStr reasonCode);
        ("reason_hash", JStr reasonHash); ("phenotype_hash", JStr phenotypeHash);
        ("policy_content_hash", JStr policyContentHash);
        ("effect_digest", JStr effectDigest); ("threat_scan_hash", JStr threatScanHash)].

Definition CanonicalizeDecisionV3 (id verdict reason reasonCode phenotypeHash
    policyContentHash effectDigest : string) (threatScan : option ThreatScanRef) : res bytes :=
  threatScanHash ← decisionThreatScanHash threatScan;
  JCS (decisionV3SigningEnvelope id verdict reasonCode (HashReason reason) phenotypeHash
         policyContentHash effectDigest threatScanHash).

Definition v4_required (d : DecisionRecord) : list (string * string) :=
  [("decision ID", dr_ID d); ("verdict", dr_Verdict d); ("subject ID", dr_SubjectID d);
   ("action", dr_Action d); ("resource", dr_Resource d);
   ("signature type", dr_SignatureType d)].

Definition threat_hash (d : DecisionRecord) : res string :=
  match dr_ThreatScan d with
  | None => Ok ""
  | Some r => decisionThreatScanHash (Some r)
  end.

Definition CanonicalizeDecisionV4 (d : option DecisionRecord) : res bytes :=
  match d with
  | None => Fail "decision is nil"
  | Some d =>
      match first_blank (v4_required d) with
      | Some name => Fail (name +:+ " is required for " +:+ DecisionRecordSignatureV4)
      | None =>
          threatScanHash ← threat_hash d;
          let payload := append_field [] "{" "action" (dr_Action d) in
          let payload := append_field payload "," "effect_digest" (dr_EffectDigest d) in
          let payload := append_field payload "," "id" (dr_ID d) in
          let payload := append_field payload "," "phenotype_hash" (dr_PhenotypeHash d) in
          let payload := append_field payload "," "policy_content_hash" (dr_PolicyContentHash d) in
          let payload := append_field payload "," "reason_code" (dr_ReasonCode d) in
          let payload := append_field payload "," "reason_hash" (HashReason (dr_Reason d)) in
          let payload := append_field payload "," "resource" (dr_Resource d) in
          let payload := append_field payload "," "signature_type" (dr_SignatureType d) in
          let payload := append_field payload "," "signature_version" DecisionRecordSignatureV4 in
          let payload := append_field payload "," "subject_id" (dr_SubjectID d) in
          let payload := append_field payload "," "threat_scan_hash" threatScanHash in
          let payload := append_field payload "," "verdict" (dr_Verdict d) in
          Ok (payload ++ ["}"%char])%list
      end
  end.

(** [decisionV4SigningEnvelope], fields in declaration order. *)
Definition decisionV4SigningEnvelope (d : DecisionRecord) (threatScanHash : string) : json :=
  JObj [("signature_version", JStr DecisionRecordSignatureV4); ("id", JStr (dr_ID d));
        ("verdict", JStr (dr_Verdict d)); ("reason_code", JStr (dr_ReasonCode d));
        ("reason_hash", JStr (HashReason (dr_Reason d)));
        ("phenotype_hash", JStr (dr_PhenotypeHash d));
        ("policy_content_hash", JStr (dr_PolicyContentHash d));
        ("effect_digest", JStr (dr_EffectDigest d));
        ("threat_scan_hash", JStr threatScanHash);
        ("subject_id", JStr (dr_SubjectID d)); ("action", JStr (dr_Action d));
        ("resource", JStr (dr_Resource d)); ("signature_type", JStr (dr_SignatureType d))].

(** Returns the payload and the record as left behind: stamped on success,
    untouched on error. *)
Definition prepareDecisionForSigning (d : option DecisionRecord) (signatureType : string)
    : res (bytes * DecisionRecord) :=
  match d with
  | None => Fail "decision is nil"
  | Some d =>
      let candidate := d <| dr_SignatureVersion := DecisionRecordSignatureV4 |>
                         <| dr_SignatureType := signatureType |> in
      payload ← CanonicalizeDecisionV4 (Some candidate);
      Ok (payload, d <| dr_SignatureVersion := dr_SignatureVersion candidate |>
                     <| dr_SignatureType := dr_SignatureType candidate |>)
  end.

Definition DecisionSigningPayload (d : option DecisionRecord) : res (bytes * DecisionRecord) :=
  match d with
  | None => Fail "decision is nil"
  | Some d => prepareDecisionForSigning (Some d) (dr_SignatureType d)
  end.

Definition DecisionVerifyPayload (d : option DecisionRecord) : res bytes :=
  match d with
  | None => Fail "decision is nil"
  | Some d =>
      let v := dr_SignatureVersion d in
      if String.eqb v "" then
        Ok (CanonicalizeDecision (dr_ID d) (dr_Verdict d) (dr_Reason d) (dr_PhenotypeHash d)
              (dr_PolicyContentHash d) (dr_EffectDigest d))
      else if String.eqb v DecisionRecordSignatureV2 then
        CanonicalizeDecisionV2 (dr_ID d) (dr_Verdict d) (dr_Reason d) (dr_ReasonCode d)
          (dr_PhenotypeHash d) (dr_PolicyContentHash d) (dr_EffectDigest d)
      else if String.eqb v DecisionRecordSignatureV3 then
        CanonicalizeDecisionV3 (dr_ID d) (dr_Verdict d) (dr_Reason d) (dr_ReasonCode d)
          (dr_PhenotypeHash d) (dr_PolicyContentHash d) (dr_EffectDigest d) (dr_ThreatScan d)
      else if String.eqb v DecisionRecordSignatureV4 then CanonicalizeDecisionV4 (Some d)
      else Fail ("unsupported decision signature version " +:+ goq v)
  end.

Definition DecisionContentHash (d : option DecisionRecord) : res string :=
  payload ← DecisionVerifyPayload d; Ok ("sha256:" +:+ hex_encode (sha256 payload)).

Definition DecisionSemanticHash (d : option DecisionRecord) : res string :=
  DecisionContentHash d.

(** [authorizedExecutionIntentSigningEnvelope] *)
Definition json_of_intent_envelope (i : AuthorizedExecutionIntent)
    (binding : option EffectDigestBinding) : res json :=
  b ← match binding with
      | None => Ok []
      | Some b => j ← json_of_binding b; Ok [("effect_binding", j)]
      end;
  issued ← fmt_time (ai_IssuedAt i);
  expires ← fmt_time (ai_ExpiresAt i);
  let taint := NormalizeTaintLabels (ai_Taint i) in
  Ok (JObj ([("signature_version", JStr (ai_SignatureVersion i)); ("id", JStr (ai_ID i));
             ("decision_id", JStr (ai_DecisionID i));
             ("effect_digest_hash", JStr (ai_EffectDigestHash i))]
    ++ b
    ++ opt_string "idempotency_key" (ai_IdempotencyKey i)
    ++ [("issued_at", JStr issued); ("expires_at", JStr expires);
        ("signer", JStr (ai_Signer i)); ("signature_type", JStr (ai_SignatureType i));
        ("allowed_tool", JStr (ai_AllowedTool i))]
    ++ opt_field (bool_decide (taint = [])) "taint" (JArr (map JStr taint))
    ++ opt_string "emergency_activation_id" (ai_EmergencyActivationID i)
    ++ opt_string "emergency_delegation_session_id" (ai_EmergencyDelegationSessionID i)
    ++ opt_string "emergency_scope_hash" (ai_EmergencyScopeHash i))%list).

Definition CanonicalizeAuthorizedExecutionIntent (i : option AuthorizedExecutionIntent)
    : res bytes :=
  match i with
  | None => Fail "execution intent is nil"
  | Some i =>
      if negb (String.eqb (ai_SignatureVersion i) AuthorizedExecutionIntentSignatureV2)
      then Fail ("unsupported execution intent signature version "
                 +:+ goq (ai_SignatureVersion i))
      else
        binding ← match ai_EffectBinding i with
                  | None => Ok None
                  | Some b =>
                      b' ← wrap_err "normalize execution intent effect binding: "
                             (NormalizeEffectDigestBinding (Some b));
                      Ok (Some b')
                  end;
        JCS_res (json_of_intent_envelope i binding)
  end.

(** The intent is stamped before the preimage is derived, whatever comes of it. *)
Definition prepareAuthorizedExecutionIntent (i : option AuthorizedExecutionIntent)
    (signatureType : string) : res (bytes * AuthorizedExecutionIntent) :=
  match i with
  | None => Fail "execution intent is nil"
  | Some i =>
      let i := i <| ai_SignatureVersion := AuthorizedExecutionIntentSignatureV2 |>
                 <| ai_SignatureType := signatureType |> in
      payload ← CanonicalizeAuthorizedExecutionIntent (Some i);
      Ok (payload, i)
  end.
End Preimages.

(** * What the V4 preimage says *)

Lemma hex_valid l : valid_string (hex_encode l) = true.
Proof.
  unfold valid_string, hex_encode. rewrite to_of_bytes. apply valid_ascii.
  apply Forall_flat_map_iff, Forall_true. intros c.
  destruct c as [[] [] [] [] [] [] [] []]; repeat constructor.
Qed.

Lemma valid_string_app s t :
  isASCII s = true -> valid_string t = true -> valid_string (s +:+ t) = true.
Proof.
  unfold valid_string. rewrite to_bytes_app. intros Hs%isASCII_spec Ht.
  induction Hs as [|c l Hc Hl IH]; [done|].
  cbn [app]. rewrite (valid_next (c :: (l ++ to_bytes t))%list (Rune (bz c)) (l ++ to_bytes t)%list);
    [done|]. unfold next. by rewrite (proj2 (Z.ltb_lt _ _)).
Qed.

Lemma repair_valid s : valid_string s = true -> repair s = to_bytes s.
Proof. unfold valid_string, repair. by intros ->. Qed.

(** The bytes of a flat object of strings, in the given order. *)
Definition fields_payload (l : list (string * string)) : bytes :=
  braces (map (fun kv => quote kv.1 ++ ":"%char :: quote_bytes (repair kv.2))%list l).

Lemma fields_payload_inj l k :
  fields_payload l = fields_payload k ->
  map (fun kv => (kv.1, repair kv.2)) l = map (fun kv => (kv.1, repair kv.2)) k.
Proof.
  set (item := fun kb : string * bytes => (quote kb.1 ++ ":"%char :: quote_bytes kb.2)%list).
  assert (Hm : forall q, map (fun kv => quote kv.1 ++ ":"%char :: quote_bytes (repair kv.2))%list q
                 = map item (map (fun kv => (kv.1, repair kv.2)) q))
    by (intros q; by rewrite map_map).
  unfold fields_payload, braces. rewrite !Hm. intros E. apply (f_equal tail) in E.
  cbn [tail] in E.
  eapply (commas_inj item "}" (fun _ => True)); [done| | | | |exact E].
  - intros x _. by do 2 eexists.
  - apply Forall_true. intros [xk xb] [yk yb] r s _ _ _ F. unfold item in F. cbn [fst snd] in F.
    rewrite <-!app_assoc in F. cbn [app] in F.
    apply quote_inj in F as [-> F]. apply (f_equal tail) in F. cbn [tail] in F.
    by apply quote_bytes_inj in F as [-> ->].
  - by apply Forall_true.
  - by apply Forall_true.
Qed.

(** Appending the fields one by one, as the hand-written serializers do. *)
Definition append_all (k v : string) (l : list (string * string)) : bytes :=
  (foldl (fun p kv => append_field p "," kv.1 kv.2) (append_field [] "{" k v) l ++ ["}"%char])%list.

(** Keys without characters to escape. *)
Definition plain_key (k : string) : bool :=
  bool_decide (quote k = (dquote :: to_bytes k ++ [dquote])%list).

Lemma key_literal_plain open k : plain_key k = true ->
  key_literal open k = (open :: quote k ++ [":"%char])%list.
Proof.
  intros E%bool_decide_eq_true. unfold key_literal. rewrite E. cbn. by rewrite <-app_assoc.
Qed.

Lemma append_all_payload k v l :
  forallb plain_key (k :: l.*1) = true -> append_all k v l = fields_payload ((k, v) :: l).
Proof.
  set (item := fun kv : string * string =>
    (quote kv.1 ++ ":"%char :: quote_bytes (repair kv.2))%list).
  assert (F : forall p, forallb plain_key l.*1 = true ->
    foldl (fun p kv => append_field p "," kv.1 kv.2) p l
    = (p ++ flat_map (fun kv => ","%char :: item kv) l)%list).
  { induction l as [|x l IH]; intros p Hl; cbn [foldl flat_map]; [by rewrite app_nil_r|].
    cbn in Hl. apply andb_true_iff in Hl as [Hx Hl]. rewrite IH by done.
    unfold append_field, appendJCSQuotedString, item. rewrite key_literal_plain by done.
    rewrite <-!app_assoc. cbn [app]. by rewrite <-!app_assoc. }
  assert (C : forall x, (item x ++ flat_map (fun kv => ","%char :: item kv) l)%list
                        = commas (map item (x :: l))).
  { clear F. induction l as [|y l IH]; intros x; cbn [flat_map map]; [by rewrite app_nil_r|].
    cbn [app]. by rewrite IH. }
  cbn [forallb]. intros [Hk Hl]%andb_true_iff. unfold append_all. rewrite F by done.
  unfold fields_payload, braces. fold item. rewrite <-C.
  unfold append_field, appendJCSQuotedString. rewrite key_literal_plain by done.
  unfold item at 2. cbn [fst snd]. rewrite <-!app_assoc. cbn [app]. by rewrite <-!app_assoc.
Qed.

Section V4.
Context `{Hash}.

Definition v4_fields (d : DecisionRecord) (th : string) : list (string * string) :=
  [("action", dr_Action d); ("effect_digest", dr_EffectDigest d); ("id", dr_ID d);
   ("phenotype_hash", dr_PhenotypeHash d); ("policy_content_hash", dr_PolicyContentHash d);
   ("reason_code", dr_ReasonCode d); ("reason_hash", HashReason (dr_Reason d));
   ("resource", dr_Resource d); ("signature_type", dr_SignatureType d);
   ("signature_version", DecisionRecordSignatureV4); ("subject_id", dr_SubjectID d);
   ("threat_scan_hash", th); ("verdict", dr_Verdict d)].

Lemma CanonicalizeDecisionV4_Ok d p :
  CanonicalizeDecisionV4 (Some d) = Ok p <->
  first_blank (v4_required d) = None /\
  exists th, threat_hash d = Ok th /\ p = fields_payload (v4_fields d th).
Proof.
  assert (R : CanonicalizeDecisionV4 (Some d) =
    match first_blank (v4_required d) with
    | Some name => Fail (name +:+ " is required for " +:+ DecisionRecordSignatureV4)
    | None => th ← threat_hash d; Ok (append_all "action" (dr_Action d) (tail (v4_fields d th)))
    end) by reflexivity.
  rewrite R. destruct (first_blank (v4_required d)) eqn:Eb.
  { split; [done|]. by intros [? _]. }
  destruct (threat_hash d) as [th|e]; cbn [mbind res_bind].
  2: { split; [done|]. by intros (_&?&?&_). }
  rewrite append_all_payload by (vm_compute; reflexivity).
  change ((_, _) :: tail (v4_fields d th)) with (v4_fields d th). split.
  - intros E%Ok_inj. eauto.
  - intros (_&th'&Eth%Ok_inj&->). by rewrite Eth.
Qed.

Lemma threat_hash_Ok d : exists th, threat_hash d = Ok th /\ valid_string th = true.
Proof.
  unfold threat_hash, decisionThreatScanHash. destruct (dr_ThreatScan d) as [r|]; [|by eexists].
  rewrite JCS_Ok. cbn. eexists. split; [done|].
  apply valid_string_app; [done|apply hex_valid].
Qed.
End V4.

(** A text field is valid by assumption, as hex, or because it is a constant. *)
Ltac valid_field :=
  first [ assumption
        | lazymatch goal with |- context [HashReason] => apply hex_valid end
        | reflexivity ].

Section V4Theorems.
Context `{Hash}.

(** The text fields of a decision that enter the preimage. *)
Definition signed_text (d : DecisionRecord) : list string :=
  [dr_Action d; dr_EffectDigest d; dr_ID d; dr_PhenotypeHash d; dr_PolicyContentHash d;
   dr_ReasonCode d; dr_Resource d; dr_SignatureType d; dr_SubjectID d; dr_Verdict d].

Definition text_valid (d : DecisionRecord) : bool := forallb valid_string (signed_text d).

(** Sorting an envelope whose values are symbolic: sort key/position pairs. *)
Lemma sort_positions {V} (keys : list (string * nat)) (val : nat -> V) :
  sort_by lessUTF16 (map (fun ki => (ki.1, val ki.2)) keys)
  = map (fun ki => (ki.1, val ki.2)) (sort_by lessUTF16 keys).
Proof. apply sort_by_map. Qed.

Definition v4_keys : list (string * nat) :=
  [("signature_version", 9); ("id", 2); ("verdict", 12); ("reason_code", 5);
   ("reason_hash", 6); ("phenotype_hash", 3); ("policy_content_hash", 4);
   ("effect_digest", 1); ("threat_scan_hash", 11); ("subject_id", 10); ("action", 0);
   ("resource", 7); ("signature_type", 8)]%nat.

Lemma v4_keys_sorted :
  sort_by lessUTF16 v4_keys =
  [("action", 0); ("effect_digest", 1); ("id", 2); ("phenotype_hash", 3);
   ("policy_content_hash", 4); ("reason_code", 5); ("reason_hash", 6); ("resource", 7);
   ("signature_type", 8); ("signature_version", 9); ("subject_id", 10);
   ("threat_scan_hash", 11); ("verdict", 12)]%nat.
Proof. vm_compute. reflexivity. Qed.

Lemma v4_envelope_enc d th :
  enc (decisionV4SigningEnvelope d th)
  = braces (map (fun kv => quote kv.1 ++ ":"%char :: quote kv.2)%list (v4_fields d th)).
Proof.
  set (vals := map (fun kv => quote kv.2) (v4_fields d th)).
  transitivity (braces (map (fun kv => quote kv.1 ++ ":"%char :: kv.2)%list
    (sort_by lessUTF16 (map (fun ki => (ki.1, nth ki.2 vals [])) v4_keys)))); [done|].
  by rewrite (sort_positions v4_keys (fun i => nth i vals [])), v4_keys_sorted.
Qed.

Lemma v4_envelope_valid d th :
  text_valid d = true -> valid_string th = true ->
  json_nodup (decisionV4SigningEnvelope d th) = true /\
  all_valid (decisionV4SigningEnvelope d th) = true.
Proof.
  unfold text_valid, signed_text. cbn [forallb]. intros Hd Hth. boolean.
  split; [vm_compute; reflexivity|]. cbn [decisionV4SigningEnvelope all_valid forallb fst snd].
  repeat (apply andb_true_iff; split); valid_field.
Qed.

Lemma fields_payload_valid l :
  Forall (fun kv => valid_string kv.2 = true) l ->
  fields_payload l = braces (map (fun kv => quote kv.1 ++ ":"%char :: quote kv.2)%list l).
Proof.
  intros Hl. unfold fields_payload. f_equal. induction Hl as [|x l Hx Hl IH]; [done|].
  cbn [map]. rewrite repair_valid by done. by f_equal.
Qed.

Lemma v4_fields_valid d th :
  text_valid d = true -> valid_string th = true ->
  Forall (fun kv => valid_string kv.2 = true) (v4_fields d th).
Proof.
  unfold text_valid, signed_text, v4_fields. cbn [forallb]. intros Hd Hth. boolean.
  repeat constructor; cbn [snd]; valid_field.
Qed.
End V4Theorems.

(** C33. The hand-written V4 serializer equals the generic one: for a decision
    whose text is well-formed UTF-8 the preimage is byte for byte
    [canonicalize.JCS] of the 13-field signing envelope, and it exists exactly
    when none of the six required fields is blank. *)
Theorem decision_v4_is_jcs `{Hash} d :
  text_valid d = true ->
  (first_blank (v4_required d) = None <-> exists p, CanonicalizeDecisionV4 (Some d) = Ok p) /\
  (forall p, CanonicalizeDecisionV4 (Some d) = Ok p ->
   exists th, threat_hash d = Ok th /\ JCS (decisionV4SigningEnvelope d th) = Ok p).
Proof.
  intros Hv. destruct (threat_hash_Ok d) as (th&Eth&Hth). split.
  - split; [|intros [p Hp]; by apply CanonicalizeDecisionV4_Ok in Hp as [? _]].
    intros Hb. exists (fields_payload (v4_fields d th)).
    apply CanonicalizeDecisionV4_Ok. eauto.
  - intros p (_&th'&Eth'&->)%CanonicalizeDecisionV4_Ok. rewrite Eth in Eth'. apply Ok_inj in Eth' as <-.
    exists th. split; [done|]. destruct (v4_envelope_valid d th Hv Hth) as [Hn Ha].
    rewrite JCS_Ok, reparse_id, v4_envelope_enc by done.
    f_equal. symmetry. apply fields_payload_valid. by apply v4_fields_valid.
Qed.

Definition sample_decision : DecisionRecord := zero_decision
  <| dr_ID := "dec-1" |> <| dr_Verdict := "ALLOW" |> <| dr_SubjectID := "alice" |>
  <| dr_Action := "EXECUTE_TOOL" |> <| dr_Resource := "mail.send" |>
  <| dr_SignatureType := "ed25519:k1" |>.

Lemma decision_v4_is_jcs_witness :
  exists p, @CanonicalizeDecisionV4 id_hash (Some sample_decision) = Ok p.
Proof.
  apply (@decision_v4_is_jcs id_hash sample_decision); vm_compute; reflexivity.
Defined.

(** On ill-formed text the two serializers differ, although the comment on
    [CanonicalizeDecisionV4] claims equal bytes: [strings.ToValidUTF8] writes
    one U+FFFD for a run of bad bytes where [encoding/json] writes one per
    byte. *)
Theorem decision_v4_differs_on_bad_utf8 `{Hash} :
  exists d p q, CanonicalizeDecisionV4 (Some d) = Ok p /\
    JCS (decisionV4SigningEnvelope d "") = Ok q /\ threat_hash d = Ok "" /\ p <> q.
Proof.
  set (d := sample_decision <| dr_ReasonCode := of_bytes [byte 255; byte 255] |>).
  exists d, (fields_payload (v4_fields d "")), (enc (reparse (decisionV4SigningEnvelope d ""))).
  split; [|split; [apply JCS_Ok|split; [done|]]].
  - apply CanonicalizeDecisionV4_Ok. split; [vm_compute; reflexivity|by exists ""].
  - set (d' := d <| dr_ReasonCode := sanitize_string (dr_ReasonCode d) |>).
    assert (R : reparse (decisionV4SigningEnvelope d "") = decisionV4SigningEnvelope d' "").
    { unfold decisionV4SigningEnvelope. cbn [reparse map fst snd].
      rewrite (sanitize_string_id (HashReason _)) by apply hex_valid.
      change (HashReason (dr_Reason d')) with (HashReason (dr_Reason d)).
      generalize (HashReason (dr_Reason d)). intros h. vm_compute. reflexivity. }
    rewrite R, v4_envelope_enc, <-fields_payload_valid.
    + intros E%fields_payload_inj. apply (f_equal (fun l => nth 5 l ("", []))) in E.
      vm_compute in E. discriminate.
    + apply v4_fields_valid; vm_compute; reflexivity.
Qed.

(** C30. The V4 preimage binds the decision: two decisions with well-formed text
    and the same preimage agree on identity, verdict, reason code, hashes, the
    authorization tuple and the signer metadata, and on the reason and the
    threat evidence unless SHA-256 collides. *)
Theorem decision_v4_binds `{Hash} d e p :
  text_valid d = true -> text_valid e = true ->
  CanonicalizeDecisionV4 (Some d) = Ok p -> CanonicalizeDecisionV4 (Some e) = Ok p ->
  signed_text d = signed_text e /\
  (dr_Reason d = dr_Reason e \/ collision) /\
  (JCS <$> (json_of_ref <$> dr_ThreatScan d) = JCS <$> (json_of_ref <$> dr_ThreatScan e)
   \/ collision).
Proof.
  intros Hd He (_&th&Eth&->)%CanonicalizeDecisionV4_Ok (_&th'&Eth'&E)%CanonicalizeDecisionV4_Ok.
  destruct (threat_hash_Ok d) as (?&Eth2&Hth), (threat_hash_Ok e) as (?&Eth2'&Hth').
  rewrite Eth in Eth2. rewrite Eth' in Eth2'. apply Ok_inj in Eth2 as <-, Eth2' as <-.
  apply fields_payload_inj in E.
  assert (V : map snd (v4_fields d th) = map snd (v4_fields e th')).
  { pose proof (v4_fields_valid d th Hd Hth) as Vd. pose proof (v4_fields_valid e th' He Hth') as Ve.
    revert E Vd Ve. generalize (v4_fields d th) (v4_fields e th'). intros l k. revert k.
    induction l as [|x l IH]; intros [|y k] E Vd Ve; try done.
    cbn [map] in E. injection E as E1 E2 E3.
    inversion Vd; inversion Ve; subst. cbn [map]. f_equal; [|by apply IH].
    apply to_bytes_inj. by rewrite <-(repair_valid x.2), <-(repair_valid y.2), E2. }
  unfold v4_fields in V. cbn [map snd] in V.
  injection V as Va Ved Vid Vph Vpc Vrc Vrh Vr Vst Vs Vt Vv.
  split; [unfold signed_text; congruence|]. split.
  - apply hex_encode_inj in Vrh. destruct (decide (dr_Reason d = dr_Reason e)) as [|Hne]; [by left|].
    right. exists (to_bytes (dr_Reason d)), (to_bytes (dr_Reason e)). split; [|done].
    by intros ?%to_bytes_inj.
  - unfold threat_hash, decisionThreatScanHash in Eth, Eth'.
    destruct (dr_ThreatScan d) as [r|], (dr_ThreatScan e) as [r'|]; [| | |by left];
      rewrite ?JCS_Ok in Eth; rewrite ?JCS_Ok in Eth'; cbn in Eth, Eth'; apply Ok_inj in Eth, Eth'; subst; try done.
    injection Vt as Vt. apply hex_encode_inj in Vt.
    destruct (decide (enc (reparse (json_of_ref r)) = enc (reparse (json_of_ref r')))) as [Heq|Hne];
      [left|right; by eexists _, _].
    change (Some (JCS (json_of_ref r)) = Some (JCS (json_of_ref r'))).
    by rewrite !JCS_Ok, Heq.
Qed.

Lemma decision_v4_binds_witness :
  signed_text sample_decision = signed_text (sample_decision <| dr_StepID := "s" |>).
Proof.
  apply (@decision_v4_binds id_hash sample_decision (sample_decision <| dr_StepID := "s" |>)
    (default [] (match @CanonicalizeDecisionV4 id_hash (Some sample_decision) with
                 | Ok p => Some p | Fail _ => None end)));
    vm_compute; reflexivity.
Defined.

(** The V4 preimage covers neither the input context nor the gate roster,
    epoch, timestamp, requirement hash or intervention of a decision: records
    that differ only there carry the same signature payload. *)
Theorem decision_v4_leaves_out `{Hash} d c roster epoch ts req iv :
  CanonicalizeDecisionV4 (Some (d <| dr_InputContext := c |> <| dr_GateRosterHash := roster |>
    <| dr_PolicyEpoch := epoch |> <| dr_Timestamp := ts |> <| dr_RequirementSetHash := req |>
    <| dr_Intervention := iv |>))
  = CanonicalizeDecisionV4 (Some d).
Proof. reflexivity. Qed.

(** * The signer (signer.go) *)

(** [crypto/ed25519] on private keys, public keys, messages and signatures. *)
Class Ed25519 := {
  ed_sign : bytes -> bytes -> bytes;
  ed_public : bytes -> bytes;
  ed_verify : bytes -> bytes -> bytes -> bool;
}.

Definition PublicKeySize : nat := 32.
Definition SignatureSize : nat := 64.

(** Its documented behaviour: fixed sizes, and a signature verifies under the
    public half of the key that made it. *)
Class Ed25519Laws `{Ed25519} : Prop := {
  ed_public_size k : length (ed_public k) = PublicKeySize;
  ed_sign_size k m : length (ed_sign k m) = SignatureSize;
  ed_verify_sign k m : ed_verify (ed_public k) m (ed_sign k m) = true;
}.

(** What the Guardian uses of [crypto.Signer].  A record passed by pointer is
    returned as the call leaves it; a caller drops it on error. *)
Class Signer := {
  signature_type : string;
  SignDecision : DecisionRecord -> res DecisionRecord;
  VerifyDecision : DecisionRecord -> res bool;
  SignIntent : AuthorizedExecutionIntent -> res AuthorizedExecutionIntent;
  VerifyIntent : AuthorizedExecutionIntent -> res bool;
}.

(** The record a successful [SignDecision] leaves behind. *)
Definition stamped `{Signer} (d : DecisionRecord) (sig : string) : DecisionRecord :=
  d <| dr_SignatureVersion := DecisionRecordSignatureV4 |>
    <| dr_SignatureType := signature_type |> <| dr_Signature := sig |>.

Definition stamped_intent `{Signer} (i : AuthorizedExecutionIntent) (sig : string)
    : AuthorizedExecutionIntent :=
  i <| ai_SignatureVersion := AuthorizedExecutionIntentSignatureV2 |>
    <| ai_SignatureType := signature_type |> <| ai_Signature := sig |>.

(** The authority tuple, identity and verdict are all present. *)
Definition tuple_present (d : DecisionRecord) : bool :=
  bool_decide (first_blank [("decision ID", dr_ID d); ("verdict", dr_Verdict d);
    ("subject ID", dr_SubjectID d); ("action", dr_Action d);
    ("resource", dr_Resource d)] = None).

Class SignerLaws `{Hash} (S : Signer) : Prop := {
  sign_decision_stamps d d' :
    SignDecision d = Ok d' -> d' = stamped d (dr_Signature d') /\ tuple_present d = true;
  sign_decision_verifies d d' : SignDecision d = Ok d' -> VerifyDecision d' = Ok true;
  sign_decision_total d : tuple_present d = true -> exists d', SignDecision d = Ok d';
  sign_intent_stamps i i' :
    SignIntent i = Ok i' -> i' = stamped_intent i (ai_Signature i');
  sign_intent_verifies i i' : SignIntent i = Ok i' -> VerifyIntent i' = Ok true;
}.

Record Ed25519Signer := { privKey : bytes; pubKey : bytes; KeyID : string }.

Section Ed25519Signer.
Context `{Hash} `{Ed25519}.
Implicit Types s : Ed25519Signer.

Definition NewEd25519SignerFromKey (priv : bytes) (keyID : string) : Ed25519Signer :=
  {| privKey := priv; pubKey := ed_public priv; KeyID := keyID |}.

Definition Sign s (data : bytes) : res string := Ok (hex_encode (ed_sign (privKey s) data)).

Definition PublicKey s : string := hex_encode (pubKey s).

Definition Verify (pubKeyHex sigHex : string) (data : bytes) : res bool :=
  match hex_decode pubKeyHex with
  | None => Fail "invalid public key hex"
  | Some pub =>
      match hex_decode sigHex with
      | None => Fail "invalid signature hex"
      | Some sig =>
          if negb (Nat.eqb (length pub) PublicKeySize)
          then Fail ("invalid public key size: got " +:+ dec (Z.of_nat (length pub)) +:+ ", want 32")
          else if negb (Nat.eqb (length sig) SignatureSize)
          then Fail ("invalid signature size: got " +:+ dec (Z.of_nat (length sig)) +:+ ", want 64")
          else Ok (ed_verify pub data sig)
      end
  end.

Definition sig_type s : string := SigPrefixEd25519 +:+ SigSeparator +:+ KeyID s.

Definition ed_SignDecision s (d : DecisionRecord) : res DecisionRecord :=
  pd ← prepareDecisionForSigning (Some d) (sig_type s);
  sig ← Sign s pd.1;
  Ok (pd.2 <| dr_Signature := sig |>).

Definition ed_SignIntent s (i : AuthorizedExecutionIntent) : res AuthorizedExecutionIntent :=
  pi ← prepareAuthorizedExecutionIntent (Some i) (sig_type s);
  sig ← Sign s pi.1;
  Ok (pi.2 <| ai_Signature := sig |>).

Definition ed_VerifyDecision s (d : DecisionRecord) : res bool :=
  if String.eqb (dr_Signature d) "" then Fail "missing signature"
  else payload ← DecisionVerifyPayload (Some d); Verify (PublicKey s) (dr_Signature d) payload.

Definition ed_VerifyIntent s (i : AuthorizedExecutionIntent) : res bool :=
  if String.eqb (ai_Signature i) "" then Fail "missing signature"
  else payload ← CanonicalizeAuthorizedExecutionIntent (Some i);
       Verify (PublicKey s) (ai_Signature i) payload.

#[global] Instance ed25519_signer s : Signer := {
  signature_type := sig_type s;
  SignDecision := ed_SignDecision s;
  VerifyDecision := ed_VerifyDecision s;
  SignIntent := ed_SignIntent s;
  VerifyIntent := ed_VerifyIntent s;
}.

Context `{!Ed25519Laws}.

Lemma verify_own priv keyID data :
  let s := NewEd25519SignerFromKey priv keyID in
  Verify (PublicKey s) (hex_encode (ed_sign priv data)) data = Ok true /\
  hex_encode (ed_sign priv data) <> "".
Proof.
  intros s. unfold Verify, PublicKey, s. cbn [pubKey NewEd25519SignerFromKey].
  rewrite !hex_decode_encode, ed_public_size, ed_sign_size, ed_verify_sign. split; [done|].
  intros E. apply (f_equal hex_decode) in E. rewrite hex_decode_encode in E.
  pose proof (ed_sign_size priv data) as L. injection E as E. by rewrite E in L.
Qed.

Lemma sig_type_not_blank s : blank (sig_type s) = false.
Proof. by apply not_blank_head. Qed.

(** The Ed25519 signer keeps the promises of the interface. *)
#[global] Instance ed25519_laws priv keyID :
  SignerLaws (ed25519_signer (NewEd25519SignerFromKey priv keyID)).
Proof.
  set (s := NewEd25519SignerFromKey priv keyID). split; cbn [SignDecision VerifyDecision
    SignIntent VerifyIntent ed25519_signer].
  - intros d d' ([p d1]&E&Hs)%res_bind_Ok. apply res_bind_Ok in E as (p'&E&[= <- <-]).
    cbn in Hs. apply Ok_inj in Hs as <-. split; [done|].
    apply CanonicalizeDecisionV4_Ok in E as [E _]. apply bool_decide_eq_true.
    apply first_blank_None in E. apply first_blank_None.
    unfold v4_required in E. repeat (apply Forall_cons in E as [? E]). by repeat constructor.
  - intros d d' ([p d1]&E&Hs)%res_bind_Ok. apply res_bind_Ok in E as (p'&E&[= <- <-]).
    cbn [fst snd Sign mbind res_bind] in Hs. apply Ok_inj in Hs as <-.
    destruct (verify_own priv keyID p') as [V Hne]. unfold ed_VerifyDecision.
    apply String.eqb_neq in Hne. cbn [privKey s NewEd25519SignerFromKey].
    transitivity (if String.eqb (hex_encode (ed_sign priv p')) "" then Fail "missing signature"
      else payload ← CanonicalizeDecisionV4 (Some (d
             <| dr_SignatureVersion := DecisionRecordSignatureV4 |>
             <| dr_SignatureType := sig_type s |>));
           Verify (PublicKey s) (hex_encode (ed_sign priv p')) payload); [reflexivity|].
    rewrite Hne, E. exact V.
  - intros d Ht. apply bool_decide_eq_true in Ht.
    set (c := d <| dr_SignatureVersion := DecisionRecordSignatureV4 |>
         <| dr_SignatureType := sig_type s |>).
    destruct (threat_hash_Ok c) as (th&Eth&_).
    assert (E : CanonicalizeDecisionV4 (Some c) = Ok (fields_payload (v4_fields c th))).
    { apply CanonicalizeDecisionV4_Ok. split; [|by exists th].
      apply first_blank_None. apply first_blank_None in Ht.
      repeat (apply Forall_cons in Ht as [? Ht]). unfold v4_required.
      repeat constructor; try done. apply sig_type_not_blank. }
    unfold ed_SignDecision, prepareDecisionForSigning. fold c. rewrite E. cbn. by eexists.
  - intros i i' ([p i1]&E&Hs)%res_bind_Ok. apply res_bind_Ok in E as (p'&E&[= <- <-]).
    cbn in Hs. by apply Ok_inj in Hs as <-.
  - intros i i' ([p i1]&E&Hs)%res_bind_Ok. apply res_bind_Ok in E as (p'&E&[= <- <-]).
    cbn [fst snd Sign mbind res_bind] in Hs. apply Ok_inj in Hs as <-.
    destruct (verify_own priv keyID p') as [V Hne]. unfold ed_VerifyIntent.
    apply String.eqb_neq in Hne. cbn [privKey s NewEd25519SignerFromKey].
    transitivity (if String.eqb (hex_encode (ed_sign priv p')) "" then Fail "missing signature"
      else payload ← CanonicalizeAuthorizedExecutionIntent (Some (i
             <| ai_SignatureVersion := AuthorizedExecutionIntentSignatureV2 |>
             <| ai_SignatureType := sig_type s |>));
           Verify (PublicKey s) (hex_encode (ed_sign priv p')) payload); [reflexivity|].
    rewrite Hne, E. exact V.
Qed.
End Ed25519Signer.

(** Sign and verify: an Ed25519 signer signs every decision whose identity,
    verdict and authority tuple are present, stamps it as V4 with its own
    algorithm and key id, leaves every other field alone, and accepts its own
    signature. *)
Theorem ed25519_sign_verify `{Hash} `{Ed25519Laws} priv keyID d :
  let s := NewEd25519SignerFromKey priv keyID in
  tuple_present d = true ->
  exists sig, ed_SignDecision s d
    = Ok (d <| dr_SignatureVersion := DecisionRecordSignatureV4 |>
            <| dr_SignatureType := SigPrefixEd25519 +:+ SigSeparator +:+ keyID |>
            <| dr_Signature := sig |>) /\
  ed_VerifyDecision s (d <| dr_SignatureVersion := DecisionRecordSignatureV4 |>
            <| dr_SignatureType := SigPrefixEd25519 +:+ SigSeparator +:+ keyID |>
            <| dr_Signature := sig |>) = Ok true.
Proof.
  intros s Ht. pose proof (ed25519_laws priv keyID) as L.
  destruct (@sign_decision_total _ _ L d Ht) as [d' E].
  pose proof (@sign_decision_verifies _ _ L d d' E) as V.
  destruct (@sign_decision_stamps _ _ L d d' E) as [E' _].
  exists (dr_Signature d'). cbn [SignDecision VerifyDecision ed25519_signer] in E, V.
  fold s in E, V. rewrite E' in E, V. split; [exact E|exact V].
Qed.

(** A degenerate Ed25519 for the worked examples: every signature is zeros and
    verifies. *)
Definition toy_ed25519 : Ed25519 := {|
  ed_sign := fun _ _ => repeat (byte 0) SignatureSize;
  ed_public := fun _ => repeat (byte 0) PublicKeySize;
  ed_verify := fun _ _ _ => true |}.

Lemma toy_ed25519_laws : @Ed25519Laws toy_ed25519.
Proof. by split. Qed.

Lemma ed25519_sign_verify_witness :
  exists d', @ed_SignDecision id_hash toy_ed25519
    (@NewEd25519SignerFromKey toy_ed25519 [] "k1") sample_decision = Ok d'.
Proof.
  destruct (@ed25519_sign_verify id_hash toy_ed25519 toy_ed25519_laws [] "k1" sample_decision)
    as (sig&E&_).
  - vm_compute. reflexivity.
  - eexists. exact E.
Defined.
