(* ===== verification/KillSwitch.v ===== *)
(** The kill switches of the kernel, [core/pkg/kernel]: the global freeze
    (freeze.go), the per-agent kill switch (agent_kill.go) and the boot
    fingerprint guard (context_guard.go).

    Every operation takes the reading of the injected clock it uses.  A state
    source, when connected, is an operator-owned file; its answer at a refresh
    is an argument.  Mutexes and atomics serialise the operations, so a
    concurrent history is a list of operations. *)
From S2P Require Import Prelude GoLib GoFmt Utf8 Jcs Contracts.

Local Open Scope string_scope.

Module Freeze.

Record FreezeReceipt := {
  r_Action : string;
  r_Principal : string;
  r_Timestamp : time;
  r_ContentHash : string;
}.

Record FreezeStateSnapshot := {
  s_Frozen : bool;
  s_FrozenBy : string;
  s_FrozenAt : time;
}.

Record FreezeController := {
  frozen : bool;
  hasStateSource : bool;
  frozenBy : string;
  frozenAt : time;
  receipts : list FreezeReceipt;
}.
#[export] Instance FreezeController_eta : Eta FreezeController := fun r => {|
  frozen := frozen r; hasStateSource := hasStateSource r; frozenBy := frozenBy r;
  frozenAt := frozenAt r; receipts := receipts r |}.

Definition NewFreezeController : FreezeController :=
  {| frozen := false; hasStateSource := false; frozenBy := ""; frozenAt := zero_time;
     receipts := [] |}.

Definition WithStateSource (fc : FreezeController) (connected : bool) : FreezeController :=
  fc <| hasStateSource := connected |>.

(** [Format(time.RFC3339Nano)] has no year check. *)
Definition rfc3339nano (t : time) : string :=
  match fmt_time t with Ok s => s | Fail _ => fmt_seconds t +:+ "Z" end.

Section Ops.
Context `{Hash}.

Definition hashReceipt (action principal : string) (ts : time) : string :=
  hex_encode (sha256 (json_marshal (JObj [("action", JStr action);
    ("principal", JStr principal); ("timestamp", JStr (rfc3339nano ts))]))).

Definition receipt (action principal : string) (now : time) : FreezeReceipt :=
  {| r_Action := action; r_Principal := principal; r_Timestamp := now;
     r_ContentHash := hashReceipt action principal now |}.

Definition RefreshState (source : res FreezeStateSnapshot) (fc : FreezeController)
    : FreezeController * res unit :=
  if negb (hasStateSource fc) then (fc, Ok tt)
  else match source with
       | Fail e => (fc <| frozen := true |>, Fail e)
       | Ok st =>
           let fc := fc <| frozen := s_Frozen st |> in
           (if s_Frozen st
            then fc <| frozenBy := s_FrozenBy st |> <| frozenAt := s_FrozenAt st |>
            else fc <| frozenBy := "" |> <| frozenAt := zero_time |>, Ok tt)
       end.

Definition IsFrozen (source : res FreezeStateSnapshot) (fc : FreezeController)
    : FreezeController * bool :=
  match RefreshState source fc with
  | (fc, Fail _) => (fc, true)
  | (fc, Ok _) => (fc, frozen fc)
  end.

Definition FreezeState (source : res FreezeStateSnapshot) (fc : FreezeController)
    : FreezeController * (bool * string * time) :=
  let '(fc, _) := RefreshState source fc in (fc, (frozen fc, frozenBy fc, frozenAt fc)).

Definition Freeze (principal : string) (now : time) (fc : FreezeController)
    : FreezeController * res FreezeReceipt :=
  if frozen fc
  then (fc, Fail ("system already frozen by " +:+ frozenBy fc +:+ " at "
                  +:+ fmt_seconds (frozenAt fc) +:+ "Z"))
  else
    let r := receipt "freeze" principal now in
    (fc <| frozen := true |> <| frozenBy := principal |> <| frozenAt := now |>
        <| receipts := (receipts fc ++ [r])%list |>, Ok r).

Definition Unfreeze (principal : string) (now : time) (fc : FreezeController)
    : FreezeController * res FreezeReceipt :=
  if negb (frozen fc) then (fc, Fail "system is not frozen")
  else
    let r := receipt "unfreeze" principal now in
    (fc <| frozen := false |> <| receipts := (receipts fc ++ [r])%list |>
        <| frozenBy := "" |> <| frozenAt := zero_time |>, Ok r).

(** The operator-visible calls. *)
Inductive op :=
| OpFreeze (principal : string) (now : time)
| OpUnfreeze (principal : string) (now : time)
| OpIsFrozen (source : res FreezeStateSnapshot).

Definition step (o : op) (fc : FreezeController) : FreezeController :=
  match o with
  | OpFreeze p t => (Freeze p t fc).1
  | OpUnfreeze p t => (Unfreeze p t fc).1
  | OpIsFrozen src => (IsFrozen src fc).1
  end.

Definition run (ops : list op) (fc : FreezeController) : FreezeController :=
  foldl (fun fc o => step o fc) fc ops.

(** The state the receipts alone describe: the last transition. *)
Definition state_of_receipts (rs : list FreezeReceipt) : bool * string * time :=
  match last rs with
  | Some r => if String.eqb (r_Action r) "freeze"
              then (true, r_Principal r, r_Timestamp r) else (false, "", zero_time)
  | None => (false, "", zero_time)
  end.

(** Transitions alternate, starting with a freeze, and carry their own hash. *)
Fixpoint alternates (expect : bool) (rs : list FreezeReceipt) : bool :=
  match rs with
  | [] => true
  | r :: rs' =>
      String.eqb (r_Action r) (if expect then "freeze" else "unfreeze")
      && String.eqb (r_ContentHash r) (hashReceipt (r_Action r) (r_Principal r) (r_Timestamp r))
      && alternates (negb expect) rs'
  end.

Lemma alternates_app e rs r :
  alternates e (rs ++ [r]) =
  alternates e rs && alternates (if Nat.even (length rs) then e else negb e) [r].
Proof.
  revert e. induction rs as [|x rs IH]; intros e; [done|].
  cbn [app alternates]. rewrite IH. cbn [length]. rewrite Nat.even_succ, <-Nat.negb_even.
  destruct (Nat.even (length rs)); cbn [negb]; rewrite ?negb_involutive;
    by rewrite andb_assoc.
Qed.

Definition receipts_ok (fc : FreezeController) : Prop :=
  hasStateSource fc = false /\
  (frozen fc, frozenBy fc, frozenAt fc) = state_of_receipts (receipts fc) /\
  alternates true (receipts fc) = true /\
  frozen fc = negb (Nat.even (length (receipts fc))).

(** Appending the next transition. *)
Lemma push_ok rs b p t :
  alternates true rs = true -> Nat.even (length rs) = b ->
  let r := receipt (if b then "freeze" else "unfreeze") p t in
  state_of_receipts (rs ++ [r]) = (b, if b then p else "", if b then t else zero_time) /\
  alternates true (rs ++ [r]) = true /\ negb (Nat.even (length (rs ++ [r]))) = b.
Proof.
  intros Ha He r. unfold state_of_receipts.
  rewrite last_snoc, alternates_app, Ha, He, length_app, Nat.add_1_r, Nat.even_succ.
  rewrite <-Nat.negb_even, He, negb_involutive. unfold r.
  destruct b; cbn; rewrite String.eqb_refl; done.
Qed.

Lemma step_receipts_ok o fc : receipts_ok fc -> receipts_ok (step o fc).
Proof.
  intros Hok. pose proof Hok as (Hs&Hst&Ha&He). destruct o as [p t|p t|src]; cbn [step].
  - unfold Freeze. destruct (frozen fc) eqn:Ef; [exact Hok|].
    symmetry in He. apply negb_false_iff in He.
    destruct (push_ok (receipts fc) true p t Ha He) as (H1&H2&H3).
    split_and!; [exact Hs|symmetry; exact H1|exact H2|symmetry; exact H3].
  - unfold Unfreeze. destruct (frozen fc) eqn:Ef; [|exact Hok].
    symmetry in He. apply negb_true_iff in He.
    destruct (push_ok (receipts fc) false p t Ha He) as (H1&H2&H3).
    split_and!; [exact Hs|symmetry; exact H1|exact H2|symmetry; exact H3].
  - unfold IsFrozen, RefreshState. rewrite Hs. exact Hok.
Qed.
End Ops.

(** The freeze controller refines its receipts: after any sequence of calls
    on a controller without a state source, the frozen flag, the freezing
    principal and the freeze time are exactly those of the last receipt, the
    receipts alternate freeze/unfreeze and each carries the hash of its own
    content, and [IsFrozen] reports that state. *)
Theorem freeze_refines_receipts `{Hash} ops source :
  let fc := run ops NewFreezeController in
  (frozen fc, frozenBy fc, frozenAt fc) = state_of_receipts (receipts fc) /\
  alternates true (receipts fc) = true /\
  IsFrozen source fc = (fc, frozen fc).
Proof.
  intros fc. assert (R : receipts_ok fc).
  { unfold fc, run. generalize NewFreezeController (conj eq_refl (conj eq_refl (conj eq_refl eq_refl)) : receipts_ok NewFreezeController).
    induction ops as [|o ops IH]; intros f Hf; cbn; [done|]. by apply IH, step_receipts_ok. }
  destruct R as (Hs&Hst&Ha&_). split_and!; [done..|].
  unfold IsFrozen, RefreshState. by rewrite Hs.
Qed.

(** A state source fails closed, and it is the authority: when it cannot be
    read [IsFrozen] answers frozen, and otherwise it answers what the source
    says. So [Freeze] on a sourced controller holds only until the next check:
    its comment promises that decisions are denied until [Unfreeze]. *)
Theorem sourced_freeze `{Hash} fc principal now source :
  hasStateSource fc = true ->
  (IsFrozen source fc).2 = match source with Ok st => s_Frozen st | Fail _ => true end /\
  (frozen fc = false ->
   exists r, Freeze principal now fc = ((Freeze principal now fc).1, Ok r) /\
   forall by_ at_, (IsFrozen (Ok {| s_Frozen := false; s_FrozenBy := by_; s_FrozenAt := at_ |})
      (Freeze principal now fc).1).2 = false).
Proof.
  intros Hs. unfold IsFrozen, RefreshState. rewrite Hs. cbn [negb]. split.
  - destruct source as [[[] ? ?]|e]; done.
  - intros Hf. unfold Freeze. rewrite Hf. eexists. split; [done|]. intros by_ at_.
    cbn. by rewrite Hs.
Qed.

Lemma sourced_freeze_witness :
  (@IsFrozen (Fail "unreadable") (WithStateSource NewFreezeController true)).2 = true.
Proof.
  apply (@sourced_freeze id_hash (WithStateSource NewFreezeController true) "op" 0%Z (Fail "unreadable")).
  reflexivity.
Defined.

End Freeze.

Module AgentKill.

Record agentKillState := {
  KilledBy : string;
  KilledAt : time;
  Reason : string;
  SagaRunID : string;
}.

Record AgentKillReceipt := {
  k_Action : string;
  k_AgentID : string;
  k_Principal : string;
  k_Reason : string;
  k_SagaRunID : string;
  k_Timestamp : time;
  k_ContentHash : string;
}.

Record AgentKillSwitch := {
  killed : gmap string agentKillState;
  receipts : list AgentKillReceipt;
}.
#[export] Instance AgentKillSwitch_eta : Eta AgentKillSwitch := fun r => {|
  killed := killed r; receipts := receipts r |}.

Definition NewAgentKillSwitch : AgentKillSwitch := {| killed := ∅; receipts := [] |}.

Section Ops.
Context `{Hash}.

Definition hashKillReceipt (action agent principal reason saga : string) (ts : time) : string :=
  hex_encode (sha256 (json_marshal (JObj ([("action", JStr action); ("agent_id", JStr agent);
    ("principal", JStr principal)] ++ opt_string "reason" reason
    ++ opt_string "saga_run_id" saga
    ++ [("timestamp", JStr (Freeze.rfc3339nano ts))])%list))).

Definition kill_receipt (action agent principal reason : string) (now : time) : AgentKillReceipt :=
  {| k_Action := action; k_AgentID := agent; k_Principal := principal; k_Reason := reason;
     k_SagaRunID := ""; k_Timestamp := now;
     k_ContentHash := hashKillReceipt action agent principal reason "" now |}.

Definition IsKilled (agentID : string) (k : AgentKillSwitch) : bool :=
  bool_decide (is_Some (killed k !! agentID)).

Definition Kill (agentID principal reason : string) (now : time) (k : AgentKillSwitch)
    : AgentKillSwitch * res AgentKillReceipt :=
  match killed k !! agentID with
  | Some _ => (k, Fail ("agent " +:+ agentID +:+ " is already killed"))
  | None =>
      let st := {| KilledBy := principal; KilledAt := now; Reason := reason; SagaRunID := "" |} in
      let r := kill_receipt "KILL" agentID principal reason now in
      (k <| killed := <[agentID := st]> (killed k) |>
         <| receipts := (receipts k ++ [r])%list |>, Ok r)
  end.

Definition Revive (agentID principal : string) (now : time) (k : AgentKillSwitch)
    : AgentKillSwitch * res AgentKillReceipt :=
  match killed k !! agentID with
  | None => (k, Fail ("agent " +:+ agentID +:+ " is not killed"))
  | Some _ =>
      let r := kill_receipt "REVIVE" agentID principal "" now in
      (k <| killed := delete agentID (killed k) |>
         <| receipts := (receipts k ++ [r])%list |>, Ok r)
  end.

Definition ListKilled (k : AgentKillSwitch) : list string := (map_to_list (killed k)).*1.

Inductive op :=
| OpKill (agentID principal reason : string) (now : time)
| OpRevive (agentID principal : string) (now : time).

Definition step (o : op) (k : AgentKillSwitch) : AgentKillSwitch :=
  match o with
  | OpKill a p r t => (Kill a p r t k).1
  | OpRevive a p t => (Revive a p t k).1
  end.

Definition run (ops : list op) (k : AgentKillSwitch) : AgentKillSwitch :=
  foldl (fun k o => step o k) k ops.

(** Replaying the receipts in order: a KILL stops its agent, a REVIVE lets it
    go. *)
Definition replay1 (m : gmap string agentKillState) (r : AgentKillReceipt)
    : gmap string agentKillState :=
  if String.eqb (k_Action r) "KILL"
  then <[k_AgentID r := {| KilledBy := k_Principal r; KilledAt := k_Timestamp r;
                           Reason := k_Reason r; SagaRunID := k_SagaRunID r |}]> m
  else delete (k_AgentID r) m.

Definition replay (rs : list AgentKillReceipt) : gmap string agentKillState :=
  foldl replay1 ∅ rs.

Lemma step_replay o k : killed k = replay (receipts k) ->
  killed (step o k) = replay (receipts (step o k)).
Proof.
  intros E. destruct o as [a p r t|a p t]; cbn [step].
  - unfold Kill. destruct (killed k !! a); [done|]. cbn. unfold replay.
    rewrite foldl_app. cbn. unfold replay in E. by rewrite <-E.
  - unfold Revive. destruct (killed k !! a); [|done]. cbn. unfold replay.
    rewrite foldl_app. cbn. unfold replay in E. by rewrite <-E.
Qed.

(** A killed agent stays killed through every step but its own revival. *)
Lemma step_killed o k a :
  IsKilled a k = true -> (forall p t, o <> OpRevive a p t) -> IsKilled a (step o k) = true.
Proof.
  unfold IsKilled. intros Hk%bool_decide_eq_true Ho. apply bool_decide_eq_true.
  destruct o as [b p r t|b p t]; cbn [step].
  - unfold Kill. destruct (killed k !! b) eqn:E; [done|]. cbn.
    destruct (decide (b = a)) as [->|]; [by rewrite lookup_insert_eq|by rewrite lookup_insert_ne].
  - unfold Revive. destruct (killed k !! b) eqn:E; [|done]. cbn.
    destruct (decide (b = a)) as [->|]; [by destruct (Ho p t)|by rewrite lookup_delete_ne].
Qed.
End Ops.

(** The kill switch refines its receipts: after any sequence of kills and
    revivals the set of killed agents, with who killed them, when and why, is
    exactly what replaying the receipts gives. *)
Theorem kill_switch_refines_receipts `{Hash} ops :
  let k := run ops NewAgentKillSwitch in killed k = replay (receipts k).
Proof.
  intros k. unfold k, run. generalize NewAgentKillSwitch (eq_refl : killed NewAgentKillSwitch = replay (receipts NewAgentKillSwitch)).
  induction ops as [|o ops IH]; intros f Hf; cbn; [done|]. by apply IH, step_replay.
Qed.

(** A kill is permanent until it is revoked: once an agent is killed it is
    reported killed after every later sequence of operations that does not
    revive that agent, whatever happens to others. *)
Theorem killed_until_revived `{Hash} agent principal reason now ops k :
  (forall p t, OpRevive agent p t ∉ ops) ->
  IsKilled agent (run ops (Kill agent principal reason now k).1) = true.
Proof.
  assert (H0 : IsKilled agent (Kill agent principal reason now k).1 = true).
  { unfold IsKilled, Kill. apply bool_decide_eq_true.
    destruct (killed k !! agent) eqn:E; cbn; [by rewrite E|]. by rewrite lookup_insert_eq. }
  revert H0. generalize (Kill agent principal reason now k).1. unfold run.
  induction ops as [|o ops IH]; intros f Hf Hr; cbn; [done|].
  apply IH.
  - apply step_killed; [done|]. intros p t ->. by apply (Hr p t); left.
  - intros p t Hin. by apply (Hr p t); right.
Qed.

Lemma killed_until_revived_witness :
  @IsKilled "a" (@run id_hash [OpKill "b" "op" "r" 1%Z; OpRevive "b" "op" 2%Z]
    (@Kill id_hash "a" "op" "r" 0%Z NewAgentKillSwitch).1) = true.
Proof.
  apply (@killed_until_revived id_hash "a" "op" "r" 0%Z
    [OpKill "b" "op" "r" 1%Z; OpRevive "b" "op" 2%Z] NewAgentKillSwitch).
  intros p t H. apply elem_of_cons in H as [H|H]; [done|].
  apply list_elem_of_singleton in H. done.
Defined.

End AgentKill.

Module ContextGuard.

Record ContextGuard := {
  bootFingerprint : string;
  bootTime : time;
  validationCount : Z;
  mismatchCount : Z;
}.
#[export] Instance ContextGuard_eta : Eta ContextGuard := fun r => {|
  bootFingerprint := bootFingerprint r; bootTime := bootTime r;
  validationCount := validationCount r; mismatchCount := mismatchCount r |}.

Record ContextMismatchError := {
  e_BootFingerprint : string;
  e_CurrentFingerprint : string;
  e_BootTime : time;
  e_DetectedAt : time;
}.

(** [s[:12]]; Go panics on a shorter string, and [fmt] prints the panic. *)
Definition slice12 (s : string) : option string :=
  if (String.length s <? 12)%nat then None else Some (String.substring 0 12 s).

Definition Error (e : ContextMismatchError) : string :=
  match slice12 (e_BootFingerprint e), slice12 (e_CurrentFingerprint e) with
  | Some b, Some c => "CONTEXT_MISMATCH: boot=" +:+ b +:+ " current=" +:+ c
  | _, _ => "%!v(PANIC=Error method: runtime error: slice bounds out of range)"
  end.

Definition NewContextGuardWithFingerprint (fingerprint : string) (now : time) : ContextGuard :=
  {| bootFingerprint := fingerprint; bootTime := now; validationCount := 0; mismatchCount := 0 |}.

Section Ops.
Context `{Hash}.

(** The environment, each part absent when the system call fails. *)
Record environment := {
  goos : string;
  goarch : string;
  hostname : option string;
  executable : option string;
  workdir : option string;
}.

Definition computeFingerprint (env : environment) : string :=
  let parts := ([goos env; goarch env] ++ option_list (hostname env)
                ++ option_list (executable env) ++ option_list (workdir env))%list in
  hex_encode (sha256 (to_bytes (join "|" parts))).

Definition NewContextGuard (env : environment) (now : time) : ContextGuard :=
  NewContextGuardWithFingerprint (computeFingerprint env) now.

Definition Validate (current : string) (now : time) (cg : ContextGuard)
    : ContextGuard * option ContextMismatchError :=
  let cg := cg <| validationCount := wrap64 (validationCount cg + 1) |> in
  if String.eqb (bootFingerprint cg) "" then (cg, None)
  else if negb (String.eqb current (bootFingerprint cg))
  then (cg <| mismatchCount := wrap64 (mismatchCount cg + 1) |>,
        Some {| e_BootFingerprint := bootFingerprint cg; e_CurrentFingerprint := current;
                e_BootTime := bootTime cg; e_DetectedAt := now |})
  else (cg, None).

Definition ValidateCurrent (env : environment) (now : time) (cg : ContextGuard)
    : ContextGuard * option ContextMismatchError :=
  Validate (computeFingerprint env) now cg.

(** Validation never changes the boot fingerprint, and accepts exactly it. *)
Lemma Validate_spec current now cg cg' r :
  Validate current now cg = (cg', r) ->
  bootFingerprint cg' = bootFingerprint cg /\
  (r = None <-> bootFingerprint cg = "" \/ current = bootFingerprint cg).
Proof.
  unfold Validate. cbn. intros E.
  destruct (String.eqb_spec (bootFingerprint cg) "");
    [|destruct (String.eqb_spec current (bootFingerprint cg))];
    simplify_eq/=; (split; [done|]); naive_solver.
Qed.
End Ops.

End ContextGuard.
