(* ===== verification/ScopedStop.v ===== *)
(** Scoped emergency stops, [core/pkg/kernel/scoped_stop.go]: the durable fence that a control plane puts around a tenant's
    workspace and that the Guardian reads before every dispatch, with the route that takes the signed command and
    signs the acknowledgement ([core/cmd/helm-ai-kernel/emergency_stop_routes.go]).

    The database table is a map from tenant and workspace to a row of columns, with instants as text.  A statement
    may fail before or after it took effect, and the outcome of each is an argument, so the theorems hold for every
    pattern of failures.  Without the Postgres locks each statement of a call commits on its own and the
    calls of several processes interleave between them. *)
From Stdlib Require Import Ascii.
From S2P Require Import Prelude GoLib GoFmt GoTime Utf8 Jcs Contracts Signing.

Local Open Scope string_scope.

(** * Commands and states *)

Definition ErrScopedStopInvalid := "invalid scoped emergency-stop command".
Definition ErrScopedStopStaleEpoch := "stale scoped emergency-stop epoch".
Definition ErrScopedStopConflict := "scoped emergency-stop command conflict".
Definition EmergencyStopFenceContractVersion := "emergency-stop-fence.v1".
Definition EmergencyStopSignerClassical := "classical".
Definition EmergencyStopSignerHybrid := "hybrid".
Definition EmergencyStopMaxEpoch : Z := 9007199254740991.

Definition invalid {A} (text : string) : res A := Fail (ErrScopedStopInvalid +:+ ": " +:+ text).
Definition conflict {A} (text : string) : res A := Fail (ErrScopedStopConflict +:+ ": " +:+ text).
Definition stale {A} (requested active : Z) : res A :=
  Fail (ErrScopedStopStaleEpoch +:+ ": requested=" +:+ dec requested +:+ " active=" +:+ dec active).

Definition hasOuterWhitespace (value : string) : bool := negb (String.eqb value (trim_space value)).

(** Every rune outside ASCII is refused, so the bytes can be looked at one by one. *)
Definition key_char (c : ascii) : bool :=
  in_range 97 122 c || in_range 65 90 c || digit_char c || is_char "." c || is_char "_" c || is_char "-" c.
Definition validEmergencyStopKeyID (value : string) : bool :=
  negb (Nat.eqb (String.length value) 0) && (String.length value <=? 128)%nat && forallb key_char (to_bytes value).

Abbreviation StopScope := (string * string)%type.

Definition normalized_scope (s : StopScope) : res StopScope :=
  let '(tenant, workspace) := s in
  if String.eqb tenant "" || String.eqb workspace "" || hasOuterWhitespace tenant || hasOuterWhitespace workspace
  then invalid "tenant_id and workspace_id are required"
  else if negb (String.length tenant <=? 255)%nat || negb (String.length workspace <=? 255)%nat
  then invalid "scope exceeds maximum length"
  else Ok s.

Record AcknowledgementIdentity := { ak_KeyID : string; ak_SignerProfile : string; ak_PublicKey : string }.
#[export] Instance AcknowledgementIdentity_eq_dec : EqDecision AcknowledgementIdentity.
Proof. solve_decision. Defined.

Definition normalize_identity (i : AcknowledgementIdentity) : res AcknowledgementIdentity :=
  if hasOuterWhitespace (ak_KeyID i) || negb (validEmergencyStopKeyID (ak_KeyID i)) then invalid "kernel_key_id is invalid"
  else if hasOuterWhitespace (ak_SignerProfile i) then invalid "kernel_signer_profile is invalid"
  else if negb (String.eqb (ak_SignerProfile i) EmergencyStopSignerClassical)
          && negb (String.eqb (ak_SignerProfile i) EmergencyStopSignerHybrid)
  then invalid "kernel_signer_profile is unsupported"
  else if String.eqb (ak_PublicKey i) "" || hasOuterWhitespace (ak_PublicKey i)
          || (16384 <? Z.of_nat (String.length (ak_PublicKey i)))%Z
  then invalid "kernel_public_key is invalid"
  else Ok i.

Record FenceCommand := {
  fc_ContractVersion : string;
  fc_Audience : string;
  fc_KeyID : string;
  fc_CommandID : string;
  fc_TenantID : string;
  fc_WorkspaceID : string;
  fc_Epoch : Z;
  fc_ActorID : string;
  fc_Reason : string;
  fc_IssuedAt : time;
  fc_ExpiresAt : time;
}.
Definition Scope (c : FenceCommand) : StopScope := (fc_TenantID c, fc_WorkspaceID c).

(** An instant has no zone, so [UTC] changes nothing. *)
Definition normalize (c : FenceCommand) : res FenceCommand :=
  if existsb hasOuterWhitespace [fc_ContractVersion c; fc_Audience c; fc_KeyID c; fc_CommandID c; fc_TenantID c; fc_WorkspaceID c;
                                 fc_ActorID c; fc_Reason c]
  then invalid "command strings must not have outer whitespace"
  else if negb (String.eqb (fc_ContractVersion c) EmergencyStopFenceContractVersion) then invalid "unsupported contract_version"
  else if existsb (String.eqb "") [fc_Audience c; fc_KeyID c; fc_CommandID c; fc_ActorID c; fc_Reason c]
          || (fc_Epoch c =? 0)%Z || is_zero (fc_IssuedAt c) || is_zero (fc_ExpiresAt c)
  then invalid "audience, key_id, command_id, actor_id, reason, epoch, issued_at, and expires_at are required"
  else if (EmergencyStopMaxEpoch <? fc_Epoch c)%Z then invalid "epoch exceeds the JCS-safe integer range"
  else if negb (String.length (fc_Audience c) <=? 255)%nat || negb (validEmergencyStopKeyID (fc_KeyID c))
          || negb (String.length (fc_CommandID c) <=? 128)%nat || negb (String.length (fc_ActorID c) <=? 255)%nat
          || negb (String.length (fc_Reason c) <=? 2048)%nat
  then invalid "command fields exceed maximum length"
  else
    _ ← normalized_scope (Scope c);
    if negb (fc_IssuedAt c <? fc_ExpiresAt c)%Z || (10 * minute <? time_sub (fc_ExpiresAt c) (fc_IssuedAt c))%Z
    then invalid "expires_at must be after issued_at and within ten minutes"
    else Ok c.

Definition json_of_command (c : FenceCommand) : json := JObj [
  ("action", JStr "FENCE"); ("contract_version", JStr (fc_ContractVersion c)); ("audience", JStr (fc_Audience c));
  ("key_id", JStr (fc_KeyID c)); ("command_id", JStr (fc_CommandID c)); ("tenant_id", JStr (fc_TenantID c));
  ("workspace_id", JStr (fc_WorkspaceID c)); ("epoch", JNum (dec (fc_Epoch c))); ("actor_id", JStr (fc_ActorID c));
  ("reason", JStr (fc_Reason c)); ("issued_at", JStr (time_format (fc_IssuedAt c)));
  ("expires_at", JStr (time_format (fc_ExpiresAt c)))].

Definition CanonicalPayload (c : FenceCommand) : res bytes := c ← normalize c; JCS (json_of_command c).

Record FenceState := {
  fs_Scope : StopScope;
  fs_ContractVersion : string;
  fs_Audience : string;
  fs_KeyID : string;
  fs_CommandID : string;
  fs_CommandHash : string;
  fs_Epoch : Z;
  fs_ActorID : string;
  fs_Reason : string;
  fs_IssuedAt : time;
  fs_ExpiresAt : time;
  fs_FencedAt : time;
  fs_Identity : AcknowledgementIdentity;
  fs_ReceiptHash : string;
}.
#[export] Instance FenceState_eta : Eta FenceState := fun s => {|
  fs_Scope := fs_Scope s; fs_ContractVersion := fs_ContractVersion s; fs_Audience := fs_Audience s; fs_KeyID := fs_KeyID s;
  fs_CommandID := fs_CommandID s; fs_CommandHash := fs_CommandHash s; fs_Epoch := fs_Epoch s; fs_ActorID := fs_ActorID s;
  fs_Reason := fs_Reason s; fs_IssuedAt := fs_IssuedAt s; fs_ExpiresAt := fs_ExpiresAt s; fs_FencedAt := fs_FencedAt s;
  fs_Identity := fs_Identity s; fs_ReceiptHash := fs_ReceiptHash s |}.

Definition json_of_state (s : FenceState) : json := JObj [
  ("action", JStr "FENCE_ACK"); ("contract_version", JStr (fs_ContractVersion s)); ("audience", JStr (fs_Audience s));
  ("key_id", JStr (fs_KeyID s)); ("command_id", JStr (fs_CommandID s)); ("command_hash", JStr (fs_CommandHash s));
  ("tenant_id", JStr (fs_Scope s).1); ("workspace_id", JStr (fs_Scope s).2); ("epoch", JNum (dec (fs_Epoch s)));
  ("actor_id", JStr (fs_ActorID s)); ("reason", JStr (fs_Reason s)); ("issued_at", JStr (time_format (fs_IssuedAt s)));
  ("expires_at", JStr (time_format (fs_ExpiresAt s))); ("fenced_at", JStr (time_format (fs_FencedAt s)));
  ("kernel_key_id", JStr (ak_KeyID (fs_Identity s))); ("kernel_signer_profile", JStr (ak_SignerProfile (fs_Identity s)));
  ("kernel_public_key", JStr (ak_PublicKey (fs_Identity s)))].
Definition AcknowledgementPayload (s : FenceState) : res bytes := JCS (json_of_state s).

(** * The table *)

(** A row of [emergency_stop_fences] beside its key. *)
Record Row := {
  rw_contract_version : string; rw_audience : string; rw_key_id : string; rw_command_id : string; rw_command_hash : string;
  rw_epoch : Z; rw_actor_id : string; rw_reason : string; rw_issued_at : string; rw_expires_at : string; rw_fenced_at : string;
  rw_kernel_key_id : string; rw_kernel_signer_profile : string; rw_kernel_public_key : string; rw_receipt_hash : string }.
Abbreviation Table := (gmap StopScope Row).

(** The values an insert binds. *)
Definition row_of (s : FenceState) : Row := {|
  rw_contract_version := fs_ContractVersion s; rw_audience := fs_Audience s; rw_key_id := fs_KeyID s;
  rw_command_id := fs_CommandID s; rw_command_hash := fs_CommandHash s; rw_epoch := fs_Epoch s; rw_actor_id := fs_ActorID s;
  rw_reason := fs_Reason s; rw_issued_at := time_format (fs_IssuedAt s); rw_expires_at := time_format (fs_ExpiresAt s);
  rw_fenced_at := time_format (fs_FencedAt s); rw_kernel_key_id := ak_KeyID (fs_Identity s);
  rw_kernel_signer_profile := ak_SignerProfile (fs_Identity s); rw_kernel_public_key := ak_PublicKey (fs_Identity s);
  rw_receipt_hash := fs_ReceiptHash s |}.

(** How a statement ends: it is done, or fails before or after its effect. *)
Inductive outcome := Done | FailedBefore (e : error) | FailedAfter (e : error).
Definition proceed (o : outcome) : res unit := match o with Done => Ok tt | FailedBefore e | FailedAfter e => Fail e end.

(** The key of another row with this command, which [UNIQUE (command_id)] excludes. *)
Definition command_taken (key : StopScope) (id : string) (t : Table) : bool :=
  existsb (fun '(k, r) => bool_decide (k <> key) && String.eqb (rw_command_id r) id) (map_to_list t).

(** [INSERT .. ON CONFLICT (tenant_id, workspace_id) DO UPDATE .. WHERE epoch < excluded.epoch] and the number of rows it changes. *)
Definition upsert (key : StopScope) (r : Row) (t : Table) : Table * res Z :=
  match t !! key with
  | Some old => if negb (rw_epoch old <? rw_epoch r)%Z then (t, Ok 0%Z)
                else if command_taken key (rw_command_id r) t then (t, Fail "UNIQUE constraint failed")
                else (<[key := r]> t, Ok 1%Z)
  | None => if command_taken key (rw_command_id r) t then (t, Fail "UNIQUE constraint failed") else (<[key := r]> t, Ok 1%Z)
  end.

Definition exec_upsert (o : outcome) (key : StopScope) (r : Row) (t : Table) : Table * res Z :=
  match o with
  | Done => upsert key r t
  | FailedBefore e => (t, Fail e)
  | FailedAfter e => ((upsert key r t).1, Fail e)
  end.

(** The text of the parser's own error is abridged. *)
Definition parse_time (what s : string) : res time :=
  match time_parse s with Some t => Ok t | None => Fail ("parse scoped emergency-stop " +:+ what +:+ ": cannot parse " +:+ goq s) end.

Definition state_of (scope : StopScope) (r : Row) : res FenceState :=
  issued ← parse_time "issued_at" (rw_issued_at r);
  expires ← parse_time "expires_at" (rw_expires_at r);
  fenced ← parse_time "fenced_at" (rw_fenced_at r);
  Ok {| fs_Scope := scope; fs_ContractVersion := rw_contract_version r; fs_Audience := rw_audience r; fs_KeyID := rw_key_id r;
        fs_CommandID := rw_command_id r; fs_CommandHash := rw_command_hash r; fs_Epoch := rw_epoch r; fs_ActorID := rw_actor_id r;
        fs_Reason := rw_reason r; fs_IssuedAt := issued; fs_ExpiresAt := expires; fs_FencedAt := fenced;
        fs_Identity := {| ak_KeyID := rw_kernel_key_id r; ak_SignerProfile := rw_kernel_signer_profile r;
                          ak_PublicKey := rw_kernel_public_key r |};
        fs_ReceiptHash := rw_receipt_hash r |}.

(** [None] when there is no fence. *)
Definition getScopedStop (o : outcome) (scope : StopScope) (t : Table) : res (option FenceState) :=
  scope ← normalized_scope scope;
  _ ← wrap_err "read scoped emergency-stop fence: " (proceed o);
  match t !! scope with None => Ok None | Some r => s ← state_of scope r; Ok (Some s) end.

(** * Fencing *)

(** The outcomes of the statements of one call; those of the transaction matter only with the Postgres locks. *)
Record Outcomes := {
  o_begin : outcome; o_tenant : outcome; o_workspace : outcome; o_lock : outcome;
  o_read : outcome; o_write : outcome; o_affected : outcome; o_reread : outcome; o_commit : outcome }.

(** [setPostgresStopScope] *)
Definition setPostgresStopScope (o : Outcomes) (scope : StopScope) : res unit :=
  _ ← normalized_scope scope;
  _ ← wrap_err "set scoped emergency-stop tenant: " (proceed (o_tenant o));
  wrap_err "set scoped emergency-stop workspace: " (proceed (o_workspace o)).
Definition lockPostgresStopScope (o : Outcomes) (scope : StopScope) : res unit :=
  _ ← setPostgresStopScope o scope;
  wrap_err "coordinate scoped emergency-stop fence: " (proceed (o_lock o)).

Definition Get (postgres : bool) (o : Outcomes) (scope : StopScope) (t : Table) : res (option FenceState) :=
  if negb postgres then getScopedStop (o_read o) scope t
  else
    _ ← wrap_err "begin scoped emergency-stop read transaction: " (proceed (o_begin o));
    _ ← setPostgresStopScope o scope;
    state ← getScopedStop (o_read o) scope t;
    _ ← wrap_err "commit scoped emergency-stop read transaction: " (proceed (o_commit o));
    Ok state.

Section Fencing.
Context `{Hash}.

Definition withReceiptHash (s : FenceState) : res FenceState :=
  payload ← AcknowledgementPayload s;
  Ok (s <| fs_ReceiptHash := "sha256:" +:+ hex_encode (sha256 payload) |>).

(** The state a command asks for. *)
Definition requested_state (c : FenceCommand) (ack : AcknowledgementIdentity) (commandHash : string) (now : time) : FenceState := {|
  fs_Scope := Scope c; fs_ContractVersion := fc_ContractVersion c; fs_Audience := fc_Audience c; fs_KeyID := fc_KeyID c;
  fs_CommandID := fc_CommandID c; fs_CommandHash := commandHash; fs_Epoch := fc_Epoch c; fs_ActorID := fc_ActorID c;
  fs_Reason := fc_Reason c; fs_IssuedAt := fc_IssuedAt c; fs_ExpiresAt := fc_ExpiresAt c; fs_FencedAt := now; fs_Identity := ack;
  fs_ReceiptHash := "" |}.

Definition replay_mismatch : error := "command_id replay does not match its original payload".
Definition identity_mismatch : error := "command replay does not match its persisted kernel acknowledgement identity".

(** [fenceWithExecutor] up to its insert: a replayed state, or the state to write. *)
Definition fence_read (o : outcome) (c : FenceCommand) (ack : AcknowledgementIdentity) (commandHash : string) (now : time) (t : Table)
    : res (FenceState + FenceState) :=
  found ← getScopedStop o (Scope c) t;
  let write := s ← wrap_err "hash scoped emergency-stop receipt: " (withReceiptHash (requested_state c ack commandHash now)); Ok (inr s) in
  match found with
  | None => write
  | Some existing =>
      if String.eqb (fs_CommandID existing) (fc_CommandID c) then
        if negb (String.eqb (fs_CommandHash existing) commandHash) then conflict replay_mismatch
        else if bool_decide (fs_Identity existing <> ack) then conflict identity_mismatch
        else Ok (inl existing)
      else if (fc_Epoch c <=? fs_Epoch existing)%Z then stale (fc_Epoch c) (fs_Epoch existing)
      else write
  end.

(** The insert. *)
Definition fence_write (o oaffected : outcome) (s : FenceState) (t : Table) : Table * res Z :=
  let '(t, r) := exec_upsert o (fs_Scope s) (row_of s) t in
  (t, match r with
      | Fail e => conflict ("persist scoped emergency-stop fence: " +:+ e)
      | Ok n => _ ← wrap_err "read scoped emergency-stop fence result: " (proceed oaffected); Ok n
      end).

(** What follows an insert that changed nothing. *)
Definition fence_settle (o : outcome) (s : FenceState) (ack : AcknowledgementIdentity) (t : Table) : res FenceState :=
  found ← getScopedStop o (fs_Scope s) t;
  match found with
  | None => conflict "fence write was not applied"
  | Some current =>
      if String.eqb (fs_CommandID current) (fs_CommandID s) then
        if String.eqb (fs_CommandHash current) (fs_CommandHash s) then
          if bool_decide (fs_Identity current <> ack) then conflict identity_mismatch else Ok current
        else conflict replay_mismatch
      else stale (fs_Epoch s) (fs_Epoch current)
  end.

(** The state and whether it is replayed. *)
Definition fenceWithExecutor (o : Outcomes) (c : FenceCommand) (ack : AcknowledgementIdentity) (commandHash : string) (now : time)
    (t : Table) : Table * res (FenceState * bool) :=
  match fence_read (o_read o) c ack commandHash now t with
  | Fail e => (t, Fail e)
  | Ok (inl existing) => (t, Ok (existing, true))
  | Ok (inr s) =>
      let '(t, r) := fence_write (o_write o) (o_affected o) s t in
      (t, affected ← r;
          if (affected =? 0)%Z then current ← fence_settle (o_reread o) s ack t; Ok (current, true) else Ok (s, false))
  end.

(** The checks before the table is touched: the command, the identity and the hash of the command. *)
Definition prepare (c : FenceCommand) (ack : AcknowledgementIdentity) : res (FenceCommand * AcknowledgementIdentity * string) :=
  c ← normalize c;
  ack ← normalize_identity ack;
  payload ← wrap_err "canonicalize scoped emergency-stop command: " (CanonicalPayload c);
  Ok (c, ack, "sha256:" +:+ hex_encode (sha256 payload)).

(** A transaction that does not commit leaves the table as it was. *)
Definition Fence (postgres : bool) (o : Outcomes) (c : FenceCommand) (ack : AcknowledgementIdentity) (now : time) (t : Table)
    : Table * res (FenceState * bool) :=
  match prepare c ack with
  | Fail e => (t, Fail e)
  | Ok (c, ack, commandHash) =>
      if negb postgres then fenceWithExecutor o c ack commandHash now t
      else
        match (_ ← wrap_err "begin scoped emergency-stop transaction: " (proceed (o_begin o)); lockPostgresStopScope o (Scope c)) with
        | Fail e => (t, Fail e)
        | Ok _ =>
            match fenceWithExecutor o c ack commandHash now t with
            | (_, Fail e) => (t, Fail e)
            | (t', Ok r) =>
                match o_commit o with
                | Done => (t', Ok r)
                | FailedBefore e => (t, Fail ("commit scoped emergency-stop transaction: " +:+ e))
                | FailedAfter e => (t', Fail ("commit scoped emergency-stop transaction: " +:+ e))
                end
            end
        end
  end.
End Fencing.

(** * Calls of several processes *)

(** A call as one step, or one statement of a call of a thread. *)
Inductive event :=
| EFence (postgres : bool) (o : Outcomes) (c : FenceCommand) (ack : AcknowledgementIdentity) (now : time)
| ERead (thread : nat) (o : outcome) (c : FenceCommand) (ack : AcknowledgementIdentity) (now : time)
| EWrite (thread : nat) (o oaffected : outcome)
| ESettle (thread : nat) (o : outcome).

(** Where a call is: at its insert or at the read after it. *)
Inductive pending := PWrite (ack : AcknowledgementIdentity) (s : FenceState) | PSettle (ack : AcknowledgementIdentity) (s : FenceState).

(** The states that were returned to callers are kept in [sy_acked]. *)
Record System := { sy_table : Table; sy_pending : gmap nat pending; sy_acked : list (FenceState * bool) }.
Definition fresh : System := {| sy_table := ∅; sy_pending := ∅; sy_acked := [] |}.

Section Run.
Context `{Hash}.

Definition ack (r : res (FenceState * bool)) (l : list (FenceState * bool)) : list (FenceState * bool) :=
  match r with Ok x => x :: l | Fail _ => l end.

Definition happen (e : event) (y : System) : System :=
  match e with
  | EFence postgres o c k now =>
      let '(t, r) := Fence postgres o c k now (sy_table y) in
      {| sy_table := t; sy_pending := sy_pending y; sy_acked := ack r (sy_acked y) |}
  | ERead n o c k now =>
      match ('(c, k, commandHash) ← prepare c k; r ← fence_read o c k commandHash now (sy_table y); Ok (k, r)) with
      | Fail _ => {| sy_table := sy_table y; sy_pending := delete n (sy_pending y); sy_acked := sy_acked y |}
      | Ok (_, inl s) => {| sy_table := sy_table y; sy_pending := delete n (sy_pending y); sy_acked := (s, true) :: sy_acked y |}
      | Ok (k, inr s) => {| sy_table := sy_table y; sy_pending := <[n := PWrite k s]> (sy_pending y); sy_acked := sy_acked y |}
      end
  | EWrite n o oa =>
      match sy_pending y !! n with
      | Some (PWrite k s) =>
          let '(t, r) := fence_write o oa s (sy_table y) in
          match r with
          | Fail _ => {| sy_table := t; sy_pending := delete n (sy_pending y); sy_acked := sy_acked y |}
          | Ok affected =>
              if (affected =? 0)%Z
              then {| sy_table := t; sy_pending := <[n := PSettle k s]> (sy_pending y); sy_acked := sy_acked y |}
              else {| sy_table := t; sy_pending := delete n (sy_pending y); sy_acked := (s, false) :: sy_acked y |}
          end
      | _ => y
      end
  | ESettle n o =>
      match sy_pending y !! n with
      | Some (PSettle k s) =>
          {| sy_table := sy_table y; sy_pending := delete n (sy_pending y);
             sy_acked := ack (c ← fence_settle o s k (sy_table y); Ok (c, true)) (sy_acked y) |}
      | _ => y
      end
  end.
Definition run (es : list event) (y : System) : System := foldl (fun y e => happen e y) y es.

(** The instants of a command are decoded from JSON, which gives four-digit years, and so has the clock. *)
Definition sane_command (c : FenceCommand) (now : time) : bool := in_years (fc_IssuedAt c) && in_years (fc_ExpiresAt c) && in_years now.
Definition sane (e : event) : bool :=
  match e with EFence _ _ c _ now | ERead _ _ c _ now => sane_command c now | _ => true end.

(** ** States and rows *)

(** A state as [Fence] makes it: its receipt hash is that of its payload, and its text can be read back. *)
Record state_ok (s : FenceState) : Prop := {
  so_receipt : withReceiptHash s = Ok s;
  so_scope : normalized_scope (fs_Scope s) = Ok (fs_Scope s);
  so_years : in_years (fs_IssuedAt s) && in_years (fs_ExpiresAt s) && in_years (fs_FencedAt s) = true;
}.

Lemma parse_format what t : in_years t = true -> parse_time what (time_format t) = Ok t.
Proof. intros Y. unfold parse_time. by rewrite time_format_parse. Qed.

Lemma state_of_row_of s : in_years (fs_IssuedAt s) && in_years (fs_ExpiresAt s) && in_years (fs_FencedAt s) = true ->
  state_of (fs_Scope s) (row_of s) = Ok s.
Proof.
  rewrite !andb_true_iff. intros [[Y1 Y2] Y3]. unfold state_of. cbn [row_of rw_issued_at rw_expires_at rw_fenced_at].
  rewrite !parse_format by done. destruct s as [? ? ? ? ? ? ? ? ? ? ? ? [] ?]. done.
Qed.

(** The payload leaves the receipt hash out. *)
Lemma payload_receipt s h : AcknowledgementPayload (s <| fs_ReceiptHash := h |>) = AcknowledgementPayload s.
Proof. unfold AcknowledgementPayload. f_equal. Qed.

Lemma withReceiptHash_twice s s' : withReceiptHash s = Ok s' -> withReceiptHash s' = Ok s'.
Proof. unfold withReceiptHash. intros (p & Hp & [= <-])%res_bind_Ok. rewrite payload_receipt, Hp. reflexivity. Qed.

Lemma withReceiptHash_Ok s s' : withReceiptHash s = Ok s' -> exists h, s' = s <| fs_ReceiptHash := h |>.
Proof. unfold withReceiptHash. intros (p & _ & [= <-])%res_bind_Ok. eexists. reflexivity. Qed.

Lemma requested_ok c k h now s : normalized_scope (Scope c) = Ok (Scope c) -> sane_command c now = true ->
  withReceiptHash (requested_state c k h now) = Ok s -> state_ok s /\ fs_Scope s = Scope c /\ fs_Epoch s = fc_Epoch c /\
  fs_CommandID s = fc_CommandID c /\ fs_CommandHash s = h /\ fs_Identity s = k.
Proof.
  intros Sc Sn E. pose proof (withReceiptHash_twice _ _ E) as T. apply withReceiptHash_Ok in E as [h' ->].
  split; [split; [exact T|exact Sc|exact Sn]|]. split_and!; reflexivity.
Qed.

Definition table_ok (t : Table) : Prop := forall k r, t !! k = Some r -> exists s, r = row_of s /\ fs_Scope s = k /\ state_ok s.

Lemma normalized_scope_id s s' : normalized_scope s = Ok s' -> s' = s.
Proof. unfold normalized_scope. destruct s as [a b]. by repeat (case_match; [done|]); intros [= <-]. Qed.

(** Reading a table of such rows gives back the state that was written. *)
Lemma getScopedStop_Ok t o scope r : table_ok t -> getScopedStop o scope t = Ok r ->
  match r with None => t !! scope = None | Some s => t !! scope = Some (row_of s) /\ fs_Scope s = scope /\ state_ok s end.
Proof.
  intros T E. unfold getScopedStop in E. apply res_bind_Ok in E as (sc & ->%normalized_scope_id & E).
  apply res_bind_Ok in E as (u & _ & E). destruct (t !! scope) as [row|] eqn:L; [|by injection E as <-].
  destruct (T _ _ L) as (s & -> & <- & [S1 S2 S3]). rewrite state_of_row_of in E by done. by injection E as <-.
Qed.

Lemma getScopedStop_done t s : state_ok s -> t !! fs_Scope s = Some (row_of s) -> getScopedStop Done (fs_Scope s) t = Ok (Some s).
Proof. intros [S1 S2 S3] L. unfold getScopedStop. rewrite S2. cbn. rewrite L, state_of_row_of by done. done. Qed.

(** ** The table only grows *)

Definition grows (t t' : Table) : Prop :=
  forall k r, t !! k = Some r -> exists r', t' !! k = Some r' /\ (r' = r \/ (rw_epoch r < rw_epoch r')%Z).
#[export] Instance grows_refl : Reflexive grows.
Proof. intros t k r L. by eauto. Qed.
#[export] Instance grows_trans : Transitive grows.
Proof.
  intros t1 t2 t3 G1 G2 k r (r2 & L2 & C2)%G1. destruct (G2 _ _ L2) as (r3 & L3 & C3). exists r3. split; [done|].
  destruct C2 as [->|], C3 as [->|]; try (by left); right; lia.
Qed.

Definition commands_unique (t : Table) : Prop :=
  forall k1 k2 r1 r2, t !! k1 = Some r1 -> t !! k2 = Some r2 -> rw_command_id r1 = rw_command_id r2 -> k1 = k2.

Lemma command_free key id t k r : command_taken key id t = false -> t !! k = Some r -> rw_command_id r = id -> k = key.
Proof.
  intros F L <-. destruct (decide (k = key)) as [|N]; [done|]. exfalso. apply not_true_iff_false in F. apply F, existsb_exists.
  exists (k, r). split; [by apply list_elem_of_In, elem_of_map_to_list|]. by rewrite bool_decide_true, String.eqb_refl.
Qed.

Lemma upsert_cases key r t t' x : upsert key r t = (t', x) ->
  (t' = t /\ (x = Ok 0%Z \/ exists e, x = Fail e)) \/
  (t' = <[key := r]> t /\ x = Ok 1%Z /\ command_taken key (rw_command_id r) t = false /\
   forall old, t !! key = Some old -> (rw_epoch old < rw_epoch r)%Z).
Proof.
  unfold upsert. destruct (t !! key) as [old|].
  - destruct (Z.ltb_spec (rw_epoch old) (rw_epoch r)); cbn [negb]; [|intros [= <- <-]; left; by eauto].
    destruct (command_taken _ _ _); intros [= <- <-]; [left; by eauto|right]. split_and!; try done. by intros ? [= <-].
  - destruct (command_taken _ _ _); intros [= <- <-]; [left; by eauto|right]. by split_and!.
Qed.

Lemma insert_grows key r t : (forall old, t !! key = Some old -> (rw_epoch old < rw_epoch r)%Z) -> grows t (<[key := r]> t).
Proof.
  intros Lt k row L. destruct (decide (k = key)) as [->|N]; [exists r|exists row].
  - rewrite lookup_insert_eq. split; [done|]. right. by apply Lt.
  - rewrite lookup_insert_ne by done. by split; [|left].
Qed.

Lemma insert_unique key r t : commands_unique t -> command_taken key (rw_command_id r) t = false -> commands_unique (<[key := r]> t).
Proof.
  intros U F k1 k2 r1 r2. destruct (decide (k1 = key)) as [->|N1], (decide (k2 = key)) as [->|N2];
    rewrite ?lookup_insert_eq, ?lookup_insert_ne by done; [done|..].
  - intros [= <-] L E. by rewrite (command_free _ _ _ _ _ F L).
  - intros L [= <-] E. by rewrite (command_free _ _ _ _ _ F L).
  - apply U.
Qed.

Record table_inv (t : Table) : Prop := { ti_ok : table_ok t; ti_unique : commands_unique t }.

(** The row of [s] was written over none or one of a lower epoch, and its command is in force nowhere else. *)
Definition written (s : FenceState) (t t' : Table) : Prop :=
  t' = <[fs_Scope s := row_of s]> t /\ command_taken (fs_Scope s) (fs_CommandID s) t = false /\
  forall old, t !! fs_Scope s = Some old -> (rw_epoch old < fs_Epoch s)%Z.

Definition persist_failed : error := "persist scoped emergency-stop fence: ".
Definition result_failed : error := "read scoped emergency-stop fence result: ".

(** A write changes nothing, or it writes the row; it may do so and still report that the insert, or the count of its
    rows, failed. *)
Lemma fence_write_table o oa s t t' x : fence_write o oa s t = (t', x) ->
  (t' = t /\ forall n, x = Ok n -> n = 0%Z) \/
  (written s t t' /\ (x = Ok 1%Z \/ (exists e, o = FailedAfter e /\ x = conflict (persist_failed +:+ e)) \/
                      (oa <> Done /\ exists e, x = Fail (result_failed +:+ e)))).
Proof.
  unfold fence_write, written. destruct (exec_upsert o (fs_Scope s) (row_of s) t) as [t1 r] eqn:E. intros [= <- <-].
  destruct o as [|e|e]; cbn in E.
  - apply upsert_cases in E as [[-> [->|[e ->]]]|(-> & -> & F & Lt)].
    + left. split; [done|]. by intros n (u & _ & [= <-])%res_bind_Ok.
    + by left.
    + right. split; [done|]. destruct oa as [|e|e]; [by left|right; right..]; (split; [done|]); by exists e.
  - injection E as <- <-. by left.
  - destruct (upsert (fs_Scope s) (row_of s) t) as [t2 r2] eqn:E2. injection E as <- <-.
    apply upsert_cases in E2 as [[-> _]|(-> & _ & F & Lt)]; [by left|right]. split; [done|]. right. left. by exists e.
Qed.

(** A write leaves the table as it was, or with the new state in a scope that had none or an older one. *)
Lemma fence_write_cases o oa s t t' x : fence_write o oa s t = (t', x) -> table_inv t -> state_ok s ->
  table_inv t' /\ grows t t' /\ (forall n, x = Ok n -> (n =? 0)%Z = false -> t' !! fs_Scope s = Some (row_of s)).
Proof.
  intros [[-> C]|[(-> & F & Lt) _]]%fence_write_table [Tk Tu] Sk.
  - split; [by split|]. split; [done|]. by intros n ->%C.
  - split; [|split; [by apply insert_grows|intros; apply lookup_insert_eq]]. split; [|by apply insert_unique].
    intros k row. destruct (decide (k = fs_Scope s)) as [->|N]; [rewrite lookup_insert_eq; intros [= <-]; by exists s|].
    rewrite lookup_insert_ne by done. apply Tk.
Qed.

(** ** What a call returns stands in the table *)

Lemma normalize_Ok c c' : normalize c = Ok c' -> c' = c /\ normalized_scope (Scope c) = Ok (Scope c).
Proof.
  unfold normalize. repeat (case_match; [done|]). intros (sc & N & E)%res_bind_Ok. destruct (_ || _) in E; [done|].
  injection E as <-. split; [done|]. rewrite N. f_equal. by apply normalized_scope_id.
Qed.

Lemma normalize_identity_id k k' : normalize_identity k = Ok k' -> k' = k.
Proof. unfold normalize_identity. by repeat (case_match; [done|]); intros [= <-]. Qed.

Lemma prepare_Ok c k c' k' h : prepare c k = Ok (c', k', h) ->
  c' = c /\ k' = k /\ normalized_scope (Scope c) = Ok (Scope c) /\
  exists p, CanonicalPayload c = Ok p /\ h = "sha256:" +:+ hex_encode (sha256 p).
Proof.
  unfold prepare. intros (c1 & [-> Sc]%normalize_Ok & (k1 & ->%normalize_identity_id & (p & Hp%wrap_err_Ok & [= <- <- <-])%res_bind_Ok)%res_bind_Ok)%res_bind_Ok.
  split_and!; [done|done|done|]. by exists p.
Qed.

(** The state of a scope that answers a command. *)
Definition answers (c : FenceCommand) (k : AcknowledgementIdentity) (h : string) (s : FenceState) : Prop :=
  fs_Scope s = Scope c /\ fs_CommandID s = fc_CommandID c /\ fs_CommandHash s = h /\ fs_Identity s = k.

Lemma fence_read_Ok o c k h now t r : table_inv t -> normalized_scope (Scope c) = Ok (Scope c) -> sane_command c now = true ->
  fence_read o c k h now t = Ok r ->
  match r with
  | inl s => t !! fs_Scope s = Some (row_of s) /\ state_ok s /\ answers c k h s
  | inr s => state_ok s /\ answers c k h s
  end.
Proof.
  intros [Tk _] Sc Sn. unfold fence_read. intros (found & G & E)%res_bind_Ok. pose proof (getScopedStop_Ok _ _ _ _ Tk G) as F.
  assert (W : (s ← wrap_err "hash scoped emergency-stop receipt: " (withReceiptHash (requested_state c k h now)); Ok (inr s)) = Ok r ->
    match r with inl s => t !! fs_Scope s = Some (row_of s) /\ state_ok s /\ answers c k h s | inr s => state_ok s /\ answers c k h s end).
  { intros (s & Hs%wrap_err_Ok & [= <-])%res_bind_Ok. destruct (requested_ok _ _ _ _ _ Sc Sn Hs) as (? & ? & ? & ? & ? & ?). by split_and!. }
  destruct found as [s|]; [|by apply W]. destruct F as (L & Es & Ok').
  destruct (String.eqb_spec (fs_CommandID s) (fc_CommandID c)) as [Ei|].
  - destruct (String.eqb_spec (fs_CommandHash s) h) as [Eh|]; [|done]. cbn [negb] in E.
    case_bool_decide as Ek; [done|]. injection E as <-. rewrite Es. by split_and!.
  - destruct (Z.leb_spec (fc_Epoch c) (fs_Epoch s)); [done|]. by apply W.
Qed.

Lemma fence_settle_Ok o c k h s t s' : table_inv t -> answers c k h s -> fence_settle o s k t = Ok s' ->
  t !! fs_Scope s' = Some (row_of s') /\ state_ok s' /\ answers c k h s'.
Proof.
  intros [Tk _] (A1 & A2 & A3 & A4). unfold fence_settle. intros (found & G & E)%res_bind_Ok.
  pose proof (getScopedStop_Ok _ _ _ _ Tk G) as F. destruct found as [cur|]; [|done]. destruct F as (L & Es & Ok').
  destruct (String.eqb_spec (fs_CommandID cur) (fs_CommandID s)) as [Ei|]; [|done].
  destruct (String.eqb_spec (fs_CommandHash cur) (fs_CommandHash s)) as [Eh|]; [|done].
  case_bool_decide as Ek; [done|]. injection E as <-. rewrite Es. split; [done|]. split; [done|].
  split_and!; congruence.
Qed.

(** What a returned state means. *)
Definition stands (t : Table) (s : FenceState) : Prop := t !! fs_Scope s = Some (row_of s) /\ state_ok s.

Lemma executor_spec o c k h now t t' r : table_inv t -> normalized_scope (Scope c) = Ok (Scope c) -> sane_command c now = true ->
  fenceWithExecutor o c k h now t = (t', r) ->
  table_inv t' /\ grows t t' /\ forall s b, r = Ok (s, b) -> stands t' s /\ answers c k h s.
Proof.
  intros Ti Sc Sn. unfold fenceWithExecutor. destruct (fence_read (o_read o) c k h now t) as [[s|s]|e] eqn:Er.
  - apply fence_read_Ok in Er as (L & Sk & A); [|done..]. intros [= <- <-]. split; [done|]. split; [done|]. by intros ? ? [= <- <-].
  - apply fence_read_Ok in Er as (Sk & A); [|done..]. destruct (fence_write (o_write o) (o_affected o) s t) as [t1 r1] eqn:Ew.
    intros [= <- <-]. destruct (fence_write_cases _ _ _ _ _ _ Ew Ti Sk) as (Ti' & G & W). split; [done|]. split; [done|].
    intros s' b (n & En & E)%res_bind_Ok. destruct (n =? 0)%Z eqn:Z0.
    + apply res_bind_Ok in E as (cur & Hc & [= <- <-]).
      destruct (fence_settle_Ok _ c k h _ _ _ Ti' A Hc) as (L & ? & ?). by split; [split|].
    + injection E as <- <-. split; [|done]. split; [by apply (W n)|done].
  - intros [= <- <-]. split; [done|]. by split.
Qed.

Lemma Fence_spec postgres o c k now t t' r : table_inv t -> sane_command c now = true -> Fence postgres o c k now t = (t', r) ->
  table_inv t' /\ grows t t' /\ forall s b, r = Ok (s, b) -> stands t' s /\ exists h, prepare c k = Ok (c, k, h) /\ answers c k h s.
Proof.
  intros Ti Sn. unfold Fence. destruct (prepare c k) as [[[c' k'] h]|e] eqn:Ep; [|intros [= <- <-]; split; [done|by split]].
  apply prepare_Ok in Ep as (-> & -> & Sc & _).
  assert (X : forall t1 r1, fenceWithExecutor o c k h now t = (t1, r1) ->
    table_inv t1 /\ grows t t1 /\ forall s b, r1 = Ok (s, b) -> stands t1 s /\ exists h', Ok (c, k, h) = Ok (c, k, h') /\ answers c k h' s).
  { intros t1 r1 E. destruct (executor_spec _ _ _ _ _ _ _ _ Ti Sc Sn E) as (? & ? & A). split; [done|]. split; [done|].
    intros s b Es. destruct (A s b Es). split; [done|]. by exists h. }
  destruct postgres; cbn [negb]; [|by apply X].
  match goal with |- context [match ?x with Ok _ => _ | Fail _ => _ end] => destruct x; [|intros [= <- <-]; split; [done|by split]] end.
  destruct (fenceWithExecutor o c k h now t) as [t1 r1] eqn:E. destruct (X _ _ eq_refl) as (T1 & G1 & A1).
  destruct r1 as [x|e]; [|intros [= <- <-]; split; [done|by split]].
  destruct (o_commit o); intros [= <- <-]; (split; [done|]); (split; [done|]); [exact A1|done|done].
Qed.

(** ** What a call does to the table *)

Definition commit_failed : error := "commit scoped emergency-stop transaction: ".

(** A failed call has changed nothing; or a statement failed after its effect, and the command's own row was written:
    the insert or the count of its rows, outside a transaction, or the commit. *)
Definition failed_call (postgres : bool) (o : Outcomes) (c : FenceCommand) (k : AcknowledgementIdentity) (t t' : Table) (e : error) : Prop :=
  t' = t \/
  exists s h, answers c k h s /\ written s t t' /\
    ((postgres = false /\ exists x, o_write o = FailedAfter x /\ e = ErrScopedStopConflict +:+ ": " +:+ persist_failed +:+ x) \/
     (postgres = false /\ o_affected o <> Done /\ exists x, e = result_failed +:+ x) \/
     (postgres = true /\ exists x, o_commit o = FailedAfter x /\ e = commit_failed +:+ x)).

Lemma executor_table o c k h now t t' r : table_inv t -> normalized_scope (Scope c) = Ok (Scope c) -> sane_command c now = true ->
  fenceWithExecutor o c k h now t = (t', r) ->
  match r with
  | Ok (s, replayed) => if replayed then t' = t else written s t t'
  | Fail e => failed_call false o c k t t' e
  end.
Proof.
  intros Ti Sc Sn. unfold fenceWithExecutor. destruct (fence_read (o_read o) c k h now t) as [[s|s]|e] eqn:Er;
    [by intros [= <- <-]| |intros [= <- <-]; by left].
  apply fence_read_Ok in Er as (_ & A); [|done..].
  destruct (fence_write (o_write o) (o_affected o) s t) as [t1 r1] eqn:Ew. intros [= <- <-].
  apply fence_write_table in Ew as [[-> Z0]|[W [->|[(x & Ho & ->)|(Ho & x & ->)]]]].
  - destruct r1 as [n|e]; cbn [mbind res_bind]; [|by left]. rewrite (Z0 n eq_refl). cbn.
    destruct (fence_settle _ _ _ _); [done|by left].
  - exact W.
  - right. exists s, h. split_and!; [exact A..|exact W|]. left. split; [done|]. by exists x.
  - right. exists s, h. split_and!; [exact A..|exact W|]. right. left. split; [done|]. split; [done|]. by exists x.
Qed.

Lemma Fence_table postgres o c k now t t' r : table_inv t -> sane_command c now = true -> Fence postgres o c k now t = (t', r) ->
  match r with
  | Ok (s, replayed) => if replayed then t' = t else written s t t'
  | Fail e => failed_call postgres o c k t t' e
  end.
Proof.
  intros Ti Sn. unfold Fence. destruct (prepare c k) as [[[c' k'] h]|e] eqn:Ep; [|intros [= <- <-]; by left].
  apply prepare_Ok in Ep as (-> & -> & Sc & _). destruct postgres; cbn [negb]; [|by apply executor_table].
  match goal with |- context [match ?x with Ok _ => _ | Fail _ => _ end] => destruct x; [|intros [= <- <-]; by left] end.
  destruct (fenceWithExecutor o c k h now t) as [t1 r1] eqn:E. pose proof (executor_table _ _ _ _ _ _ _ _ Ti Sc Sn E) as T1.
  destruct r1 as [[s b]|e]; [|intros [= <- <-]; by left].
  destruct (o_commit o) as [|x|x] eqn:Eo; intros [= <- <-]; [exact T1|by left|].
  destruct b; [subst t1; by left|]. right. exists s, h.
  destruct (executor_spec _ _ _ _ _ _ _ _ Ti Sc Sn E) as (_ & _ & A). destruct (A s false eq_refl) as [_ An].
  split_and!; [apply An..|exact T1|]. right. right. split; [done|]. by exists x.
Qed.

(** Every statement of a call is done. *)
Definition all_done : Outcomes := {|
  o_begin := Done; o_tenant := Done; o_workspace := Done; o_lock := Done; o_read := Done; o_write := Done;
  o_affected := Done; o_reread := Done; o_commit := Done |}.

(** ** Runs *)

(** A returned state still stands, or a state of a higher epoch has replaced it. *)
Definition holds (t : Table) (s : FenceState) : Prop :=
  state_ok s /\ exists r, t !! fs_Scope s = Some r /\ (r = row_of s \/ (fs_Epoch s < rw_epoch r)%Z).

Definition agree (l : list (FenceState * bool)) : Prop :=
  forall x1 x2, x1 ∈ l -> x2 ∈ l -> fs_Scope x1.1 = fs_Scope x2.1 -> fs_Epoch x1.1 = fs_Epoch x2.1 -> x1.1 = x2.1.

Definition pending_ok (p : pending) : Prop :=
  match p with PWrite k s | PSettle k s => state_ok s /\ exists c h, answers c k h s end.

Record system_inv (y : System) : Prop := {
  si_table : table_inv (sy_table y);
  si_pending : forall n p, sy_pending y !! n = Some p -> pending_ok p;
  si_holds : Forall (fun x => holds (sy_table y) x.1) (sy_acked y);
  si_agree : agree (sy_acked y);
}.

Lemma row_of_inj s1 s2 : state_ok s1 -> state_ok s2 -> fs_Scope s1 = fs_Scope s2 -> row_of s1 = row_of s2 -> s1 = s2.
Proof.
  intros [_ _ Y1] [_ _ Y2] Es Er. apply state_of_row_of in Y1, Y2. rewrite Es, Er in Y1. congruence.
Qed.

Lemma holds_grows t t' s : grows t t' -> holds t s -> holds t' s.
Proof.
  intros G (Sk & r & L & C). split; [done|]. destruct (G _ _ L) as (r' & L' & C'). exists r'. split; [done|].
  destruct C as [->|], C' as [->|]; try (by left); right; cbn in *; lia.
Qed.

Lemma stands_holds t s : stands t s -> holds t s.
Proof. intros [L Sk]. split; [done|]. exists (row_of s). split; [done|]. by left. Qed.

Lemma ack_inv t l s b : Forall (fun x => holds t x.1) l -> agree l -> stands t s ->
  Forall (fun x => holds t x.1) ((s, b) :: l) /\ agree ((s, b) :: l).
Proof.
  intros Hl Ag St. split; [constructor; [by apply stands_holds|done]|].
  assert (N : forall x, x ∈ l -> fs_Scope s = fs_Scope x.1 -> fs_Epoch s = fs_Epoch x.1 -> s = x.1).
  { intros x Hx Es Ee. rewrite Forall_forall in Hl. destruct (Hl x Hx) as (Sx & r & Lr & C), St as [L Sk].
    apply row_of_inj; [done|done|done|]. rewrite Es in L. rewrite L in Lr. injection Lr as <-. destruct C as [|C]; [done|]. cbn in C. lia. }
  intros x1 x2 [->|H1]%elem_of_cons [->|H2]%elem_of_cons Es Ee; cbn [fst] in *; [done|by apply N|symmetry; by apply N|by apply Ag].
Qed.

Lemma grown_inv y t : table_inv t -> grows (sy_table y) t -> system_inv y ->
  forall p, (forall n q, p !! n = Some q -> pending_ok q) -> system_inv {| sy_table := t; sy_pending := p; sy_acked := sy_acked y |}.
Proof.
  intros Ti G [_ _ Hh Ha] p Hp. split; [done|done| |done]. cbn. eapply Forall_impl; [exact Hh|]. intros x. by apply holds_grows.
Qed.

Lemma acked_inv t p l s b : system_inv {| sy_table := t; sy_pending := p; sy_acked := l |} -> stands t s ->
  system_inv {| sy_table := t; sy_pending := p; sy_acked := (s, b) :: l |}.
Proof. intros [Ti Hp Hh Ha] St. destruct (ack_inv _ _ s b Hh Ha St). by split. Qed.

Lemma happen_inv e y : sane e = true -> system_inv y -> system_inv (happen e y) /\ grows (sy_table y) (sy_table (happen e y)).
Proof.
  intros Sn I. destruct (I) as [Ti Hp Hh Ha].
  assert (D : forall n m q, delete n (sy_pending y) !! m = Some q -> pending_ok q) by (intros n m q [_ L]%lookup_delete_Some; by eapply Hp).
  destruct e as [pg o c k now|n o c k now|n o oa|n o]; cbn [happen].
  - destruct (Fence pg o c k now (sy_table y)) as [t r] eqn:E. destruct (Fence_spec _ _ _ _ _ _ _ _ Ti Sn E) as (T1 & G & A).
    split; [|done]. pose proof (grown_inv y t T1 G I _ Hp) as I1. destruct r as [[s b]|]; [|done].
    apply acked_inv; [exact I1|]. by apply (A s b).
  - destruct (prepare c k) as [[[c' k'] h]|] eqn:Ep; cbn [mbind res_bind]; [|split; [apply (grown_inv y); [done|done|done|apply D]|done]].
    apply prepare_Ok in Ep as (-> & -> & Sc & _). destruct (fence_read o c k h now (sy_table y)) as [[s|s]|] eqn:Er; cbn [mbind res_bind].
    + apply fence_read_Ok in Er as (L & Sk & A); [|done..]. split; [|done].
      apply acked_inv; [apply (grown_inv y); [done|done|done|apply D]|done].
    + apply fence_read_Ok in Er as (Sk & A); [|done..]. split; [|done]. apply (grown_inv y); [done|done|done|].
      intros m q. destruct (decide (m = n)) as [->|N]; [rewrite lookup_insert_eq; intros [= <-]; split; [done|by exists c, h]|].
      rewrite lookup_insert_ne by done. apply Hp.
    + split; [apply (grown_inv y); [done|done|done|apply D]|done].
  - destruct (sy_pending y !! n) as [[k s|k s]|] eqn:En; [|done..]. destruct (Hp _ _ En) as (Sk & A).
    destruct (fence_write o oa s (sy_table y)) as [t r] eqn:Ew. destruct (fence_write_cases _ _ _ _ _ _ Ew Ti Sk) as (T1 & G & W).
    destruct r as [m|]; [|split; [apply (grown_inv y); [done|done|done|apply D]|done]]. destruct (m =? 0)%Z eqn:Z0; (split; [|done]).
    + apply (grown_inv y); [done|done|done|]. intros j q. destruct (decide (j = n)) as [->|N]; [rewrite lookup_insert_eq; by intros [= <-]|].
      rewrite lookup_insert_ne by done. apply Hp.
    + apply acked_inv; [apply (grown_inv y); [done|done|done|apply D]|].
      split; [by apply (W m)|done].
  - destruct (sy_pending y !! n) as [[k s|k s]|] eqn:En; [done| |done]. destruct (Hp _ _ En) as (Sk & c & h & A). split; [|done].
    destruct (fence_settle o s k (sy_table y)) as [s'|] eqn:Es; cbn [mbind res_bind ack]; [|apply (grown_inv y); [done|done|done|apply D]].
    destruct (fence_settle_Ok _ c k h _ _ _ Ti A Es) as (L & ? & _).
    apply acked_inv; [apply (grown_inv y); [done|done|done|apply D]|done].
Qed.

Lemma fences_run_inv es y : forallb sane es = true -> system_inv y -> system_inv (run es y) /\ grows (sy_table y) (sy_table (run es y)).
Proof.
  revert y. induction es as [|e es IH]; intros y; [done|]. cbn [forallb]. intros [S1 S2]%andb_true_iff I.
  destruct (happen_inv e y S1 I) as [I1 G1]. destruct (IH (happen e y) S2 I1) as [I2 G2]. split; [exact I2|]. by etrans.
Qed.

Lemma executor_replays c k h now t s : answers c k h s -> stands t s ->
  fenceWithExecutor all_done c k h now t = (t, Ok (s, true)).
Proof.
  intros (A1 & A2 & A3 & A4) [L Sk]. unfold fenceWithExecutor, fence_read. cbn [o_read all_done].
  rewrite <- A1, getScopedStop_done by done. cbn [mbind res_bind]. rewrite A2, A3, A4, !String.eqb_refl, bool_decide_false by auto. done.
Qed.

Lemma no_fences_inv : system_inv fresh.
Proof. split; [by split|done|by constructor|]. by intros ? ? ?%elem_of_nil. Qed.

(** A fenced scope is never read as free, whatever fails. *)
Lemma fenced_not_free postgres o scope t r : t !! scope = Some r -> Get postgres o scope t <> Ok None.
Proof.
  intros L. assert (G : getScopedStop (o_read o) scope t <> Ok None).
  { unfold getScopedStop. intros (sc & ->%normalized_scope_id & (u & _ & E)%res_bind_Ok)%res_bind_Ok. rewrite L in E.
    by apply res_bind_Ok in E as (s & _ & ?). }
  unfold Get. destruct postgres; [|done]. cbn [negb].
  intros (? & _ & (? & _ & (st & Hs & (? & _ & [= ->])%res_bind_Ok)%res_bind_Ok)%res_bind_Ok)%res_bind_Ok. done.
Qed.

Lemma acked_scope_fenced es1 es2 s b : forallb sane es1 = true -> forallb sane es2 = true -> (s, b) ∈ sy_acked (run es1 fresh) ->
  is_Some (sy_table (run es2 (run es1 fresh)) !! fs_Scope s).
Proof.
  intros S1 S2 Hs. destruct (fences_run_inv es1 fresh S1 no_fences_inv) as [I1 _]. destruct (fences_run_inv es2 _ S2 I1) as [_ G].
  destruct I1 as [_ _ Hh _]. rewrite Forall_forall in Hh. apply Hh, (holds_grows _ _ _ G) in Hs as (_ & r & L & _). by exists r.
Qed.
End Run.


(** * The route *)

Definition emergencyStopCommandReplayKeyringVersion := "emergency-stop-fence-command-replay-keyring.v1".
Definition emergencyStopCommandMaxFutureSkew : duration := minute.

Record Authority := { au_keyID : string; au_audience : string; au_publicKey : bytes }.
#[export] Instance Authority_eq_dec : EqDecision Authority.
Proof. solve_decision. Defined.
Abbreviation Authorities := (gmap (string * string) Authority).

Record ReplayAuthority := { ra_CommandKeyID : string; ra_CommandAudience : string; ra_CommandPublicKey : string }.
Record ReplayKeyring := { kr_KeyringVersion : string; kr_Keys : list ReplayAuthority }.

Definition isLowerHex (value : string) (expectedLength : nat) : bool :=
  Nat.eqb (String.length value) expectedLength && forallb (fun c => digit_char c || in_range 97 102 c) (to_bytes value).

(** A public key in hexadecimal. *)
Definition decode_key (s : string) : option bytes :=
  k ← hex_decode s; if Nat.eqb (length k) PublicKeySize then Some k else None.

Fixpoint replay_authorities (keys : list ReplayAuthority) (authorities : Authorities) (publicKeys : gmap string bytes) : res Authorities :=
  match keys with
  | [] => Ok authorities
  | key :: keys =>
      let id := ra_CommandKeyID key in
      let audience := ra_CommandAudience key in
      if negb (validEmergencyStopKeyID id) || hasOuterWhitespace id || String.eqb audience "" || hasOuterWhitespace audience
         || negb (String.length audience <=? 255)%nat
      then Fail "emergency-stop command replay authority is invalid"
      else if negb (isLowerHex (ra_CommandPublicKey key) (PublicKeySize * 2)) then Fail "emergency-stop command replay public key is invalid"
      else match decode_key (ra_CommandPublicKey key) with
      | None => Fail "emergency-stop command replay public key is invalid"
      | Some publicKey =>
          match authorities !! (id, audience) with
          | Some _ => Fail "emergency-stop command replay keyring has duplicate key id and audience"
          | None =>
              if match publicKeys !! id with Some existing => bool_decide (existing <> publicKey) | None => false end
              then Fail "emergency-stop command replay keyring reuses a key id with conflicting public key"
              else replay_authorities keys (<[(id, audience) := {| au_keyID := id; au_audience := audience; au_publicKey := publicKey |}]> authorities)
                     (<[id := publicKey]> publicKeys)
          end
      end
  end.

Definition parseEmergencyStopCommandReplayAuthorities (keyring : ReplayKeyring) : res Authorities :=
  match kr_Keys keyring with
  | [] => if negb (String.eqb (kr_KeyringVersion keyring) "") then Fail "emergency-stop command replay keyring is invalid" else Ok ∅
  | keys =>
      if negb (String.eqb (kr_KeyringVersion keyring) emergencyStopCommandReplayKeyringVersion) || negb (length keys <=? 64)%nat
      then Fail "emergency-stop command replay keyring is invalid"
      else replay_authorities keys ∅ ∅
  end.

Definition addEmergencyStopCommandAuthority (a : Authority) (authorities : Authorities) : res Authorities :=
  match authorities !! (au_keyID a, au_audience a) with
  | Some existing =>
      if bool_decide (existing <> a) then Fail "emergency-stop command replay keyring conflicts with active authority" else Ok authorities
  | None =>
      if existsb (fun '(_, b) => String.eqb (au_keyID b) (au_keyID a) && bool_decide (au_publicKey b <> au_publicKey a)) (map_to_list authorities)
      then Fail "emergency-stop command replay keyring reuses a key id with conflicting public key"
      else Ok (<[(au_keyID a, au_audience a) := a]> authorities)
  end.

(** [strings.SplitN(entry, "=", 2)] with two parts. *)
Fixpoint cut_at (sep : ascii) (cur : bytes) (l : bytes) : option (bytes * bytes) :=
  match l with
  | [] => None
  | c :: l => if Ascii.eqb c sep then Some (rev cur, l) else cut_at sep (c :: cur) l
  end.

Fixpoint active_keys (entries : list bytes) (publicKeys : gmap string bytes) : res (gmap string bytes) :=
  match entries with
  | [] => Ok publicKeys
  | entry :: entries =>
      match cut_at "=" [] (trim_bytes entry) with
      | None => Fail "emergency-stop command keyring entry is invalid"
      | Some (id, key) =>
          let keyID := trim_space (of_bytes id) in
          if negb (validEmergencyStopKeyID keyID) then Fail "emergency-stop command key id is invalid"
          else match decode_key (trim_space (of_bytes key)) with
          | None => Fail "emergency-stop command public key is invalid"
          | Some decoded =>
              match publicKeys !! keyID with
              | Some _ => Fail "emergency-stop command key id is duplicated"
              | None => active_keys entries (<[keyID := decoded]> publicKeys)
              end
          end
      end
  end.

Fixpoint add_active (audience : string) (keys : list (string * bytes)) (authorities : Authorities) : res Authorities :=
  match keys with
  | [] => Ok authorities
  | (id, key) :: keys =>
      authorities ← addEmergencyStopCommandAuthority {| au_keyID := id; au_audience := audience; au_publicKey := key |} authorities;
      add_active audience keys authorities
  end.

(** The environment: the audience, the active keys and the decoded replay keyring, if one is set.  Each active key has an
    identifier of its own, so the order in which Go ranges over them does not matter. *)
Definition configuredEmergencyStopCommandVerifier (audience raw : string) (replay : option (res ReplayKeyring)) : res Authorities :=
  let audience := trim_space audience in
  if String.eqb audience "" || negb (String.length audience <=? 255)%nat then Fail "emergency-stop command audience not configured"
  else if String.eqb (trim_space raw) "" then Fail "emergency-stop command public keys not configured"
  else
    publicKeys ← active_keys (split_on "," [] (trim_bytes (to_bytes raw))) ∅;
    authorities ← match replay with
                  | None => Ok ∅
                  | Some keyring =>
                      keyring ← wrap_err "decode emergency-stop command replay keyring: " keyring;
                      parseEmergencyStopCommandReplayAuthorities keyring
                  end;
    add_active audience (map_to_list publicKeys) authorities.

Section Route.
Context `{Hash} `{Ed25519}.

Definition verifyEmergencyStopFenceEnvelope (c : FenceCommand) (signature : string) (authorities : Authorities) (now : time) : res unit :=
  payload ← CanonicalPayload c;
  match authorities !! (fc_KeyID c, fc_Audience c) with
  | None => Fail "emergency-stop command does not match a configured authority"
  | Some authority =>
      if negb (String.eqb (au_keyID authority) (fc_KeyID c)) || negb (String.eqb (fc_Audience c) (au_audience authority))
      then Fail "emergency-stop command does not match a configured authority"
      else if negb (now <? fc_ExpiresAt c)%Z then Fail "emergency-stop command expired"
      else if (time_add now emergencyStopCommandMaxFutureSkew <? fc_IssuedAt c)%Z
      then Fail "emergency-stop command issued too far in the future"
      else if negb (isLowerHex signature (SignatureSize * 2)) then Fail "emergency-stop command signature must be lowercase hexadecimal"
      else match hex_decode signature with
      | None => Fail "emergency-stop command signature is invalid"
      | Some sig =>
          if negb (Nat.eqb (length sig) SignatureSize) then Fail "emergency-stop command signature is invalid"
          else if negb (ed_verify (au_publicKey authority) payload sig) then Fail "emergency-stop command signature does not verify"
          else Ok tt
      end
  end.

Definition emergencyStopAcknowledgementIdentity (signer : Ed25519Signer) : AcknowledgementIdentity :=
  {| ak_KeyID := KeyID signer; ak_SignerProfile := EmergencyStopSignerClassical; ak_PublicKey := PublicKey signer |}.

Inductive response :=
| Unavailable | BadRequest | Forbidden | ConflictResponse | InternalError
| Acknowledged (s : FenceState) (replayed : bool) (kernelSignature : string).

(** The sentinel is the first text of an error that wraps it. *)
Definition errors_Is (e sentinel : error) : bool := has_prefix e sentinel.

(** A POST to an initialised service with an Ed25519 receipt signer: [wall] is the clock of the route, [now] that of the store. *)
Definition fence_route (postgres : bool) (o : Outcomes) (signer : Ed25519Signer) (verifier : res Authorities)
    (envelope : res (FenceCommand * string)) (wall now : time) (t : Table) : Table * response :=
  match verifier with
  | Fail _ => (t, Unavailable)
  | Ok authorities =>
      match envelope with
      | Fail _ => (t, BadRequest)
      | Ok (command, signature) =>
          match verifyEmergencyStopFenceEnvelope command signature authorities wall with
          | Fail _ => (t, Forbidden)
          | Ok _ =>
              let '(t, r) := Fence postgres o command (emergencyStopAcknowledgementIdentity signer) now t in
              (t, match r with
                  | Fail e => if errors_Is e ErrScopedStopInvalid then BadRequest
                              else if errors_Is e ErrScopedStopStaleEpoch || errors_Is e ErrScopedStopConflict then ConflictResponse
                              else InternalError
                  | Ok (s, replayed) =>
                      match (payload ← AcknowledgementPayload s; Sign signer payload) with
                      | Fail _ => InternalError
                      | Ok sig => Acknowledged s replayed sig
                      end
                  end)
          end
      end
  end.
End Route.


(** ** Authorities *)

(** Authorities stand under their own names, and a key identifier names one public key. *)
Record authorities_ok (a : Authorities) : Prop := {
  ao_named : forall key au, a !! key = Some au -> key = (au_keyID au, au_audience au);
  ao_one_key : forall k1 k2 a1 a2, a !! k1 = Some a1 -> a !! k2 = Some a2 -> au_keyID a1 = au_keyID a2 -> au_publicKey a1 = au_publicKey a2;
}.

Lemma empty_authorities_ok : authorities_ok ∅.
Proof. by split. Qed.

Lemma insert_authorities_ok a au : authorities_ok a ->
  (forall k b, a !! k = Some b -> au_keyID b = au_keyID au -> au_publicKey b = au_publicKey au) ->
  authorities_ok (<[(au_keyID au, au_audience au) := au]> a).
Proof.
  intros [Hn Hk] New. split.
  - intros key b. destruct (decide (key = (au_keyID au, au_audience au))) as [->|N]; [rewrite lookup_insert_eq; by intros [= <-]|].
    rewrite lookup_insert_ne by done. apply Hn.
  - intros k1 k2 a1 a2. destruct (decide (k1 = (au_keyID au, au_audience au))) as [->|N1], (decide (k2 = (au_keyID au, au_audience au))) as [->|N2];
      rewrite ?lookup_insert_eq, ?lookup_insert_ne by done; [congruence|..].
    + intros [= <-] L E. symmetry. by apply (New k2).
    + intros L [= <-] E. by apply (New k1).
    + apply Hk.
Qed.

Lemma replay_authorities_ok keys : forall a pk r, authorities_ok a ->
  (forall k b, a !! k = Some b -> pk !! au_keyID b = Some (au_publicKey b)) ->
  replay_authorities keys a pk = Ok r -> authorities_ok r.
Proof.
  induction keys as [|key keys IH]; intros a pk r A P; cbn [replay_authorities]; [by intros [= <-]|]. cbv zeta.
  case_match; [done|]. case_match; [done|]. destruct (decode_key _) as [publicKey|]; [|done].
  destruct (a !! (ra_CommandKeyID key, ra_CommandAudience key)) eqn:La; [done|].
  match goal with |- context [if ?b then _ else _] => destruct b eqn:B; [done|] end.
  set (au := {| au_keyID := _; au_audience := _; au_publicKey := _ |}).
  assert (New : forall k b, a !! k = Some b -> au_keyID b = au_keyID au -> au_publicKey b = au_publicKey au).
  { intros k b L E. cbn [au au_keyID au_publicKey] in *. specialize (P k b L). rewrite E in P. rewrite P in B.
    by case_bool_decide as Eb. }
  apply IH; [exact (insert_authorities_ok a au A New)|].
  intros k b. destruct (decide (k = (ra_CommandKeyID key, ra_CommandAudience key))) as [->|N].
  - rewrite lookup_insert_eq. intros [= <-]. apply lookup_insert_eq.
  - rewrite lookup_insert_ne by done. intros L. destruct (decide (au_keyID b = ra_CommandKeyID key)) as [E|Ne].
    + rewrite E, lookup_insert_eq. f_equal. symmetry. by apply (New k).
    + rewrite lookup_insert_ne by done. by apply (P k).
Qed.

Lemma add_authority_ok a au r : authorities_ok a -> addEmergencyStopCommandAuthority au a = Ok r -> authorities_ok r.
Proof.
  intros A. unfold addEmergencyStopCommandAuthority. destruct (a !! (au_keyID au, au_audience au)) eqn:L.
  { case_bool_decide; [done|]. by intros [= <-]. }
  destruct (existsb _ _) eqn:X; [done|]. intros [= <-]. apply insert_authorities_ok; [done|]. intros k b Lb E.
  destruct (decide (au_publicKey b = au_publicKey au)) as [|N]; [done|]. exfalso. apply not_true_iff_false in X.
  apply X, existsb_exists. exists (k, b). split; [by apply list_elem_of_In, elem_of_map_to_list|].
  by rewrite E, String.eqb_refl, bool_decide_true.
Qed.

Lemma add_active_ok audience keys : forall a r, authorities_ok a -> add_active audience keys a = Ok r -> authorities_ok r.
Proof.
  induction keys as [|[id key] keys IH]; intros a r A; cbn [add_active]; [by intros [= <-]|].
  intros (a1 & E1 & E2)%res_bind_Ok. eapply IH; [|exact E2]. by eapply add_authority_ok.
Qed.

Lemma configured_ok audience raw replay r : configuredEmergencyStopCommandVerifier audience raw replay = Ok r -> authorities_ok r.
Proof.
  unfold configuredEmergencyStopCommandVerifier. cbv zeta. case_match; [done|]. case_match; [done|].
  intros (pk & _ & (a & Ea & E)%res_bind_Ok)%res_bind_Ok. eapply add_active_ok; [|exact E].
  destruct replay as [keyring|]; [|injection Ea as <-; apply empty_authorities_ok].
  apply res_bind_Ok in Ea as (kr & _ & Ea). unfold parseEmergencyStopCommandReplayAuthorities in Ea.
  destruct (kr_Keys kr) as [|key keys] eqn:Ek; [case_match; [done|]; injection Ea as <-; apply empty_authorities_ok|].
  case_match; [done|]. eapply replay_authorities_ok; [apply empty_authorities_ok| |exact Ea]. done.
Qed.

Section RouteProps.
Context `{Hash} `{Ed25519}.

(** The command is signed by an authority, within its time. *)
Definition commanded (a : Authorities) (c : FenceCommand) (signature : string) (wall : time) : Prop :=
  exists au payload sig, a !! (fc_KeyID c, fc_Audience c) = Some au /\ CanonicalPayload c = Ok payload /\
    hex_decode signature = Some sig /\ ed_verify (au_publicKey au) payload sig = true /\
    (wall < fc_ExpiresAt c)%Z /\ (fc_IssuedAt c <= wall + minute)%Z.

Lemma envelope_Ok c signature a wall u : verifyEmergencyStopFenceEnvelope c signature a wall = Ok u -> commanded a c signature wall.
Proof.
  unfold verifyEmergencyStopFenceEnvelope. intros (payload & Hp & E)%res_bind_Ok.
  destruct (a !! (fc_KeyID c, fc_Audience c)) as [au|] eqn:La; [|done]. destruct (_ || _) in E; [done|].
  destruct (Z.ltb_spec wall (fc_ExpiresAt c)); [|done]. cbn [negb] in E.
  destruct (Z.ltb_spec (time_add wall emergencyStopCommandMaxFutureSkew) (fc_IssuedAt c)) as [|Le]; [done|].
  destruct (isLowerHex _ _); [|done]. cbn [negb] in E. destruct (hex_decode signature) as [sig|] eqn:Hs; [|done].
  destruct (Nat.eqb _ _); [|done]. cbn [negb] in E. destruct (ed_verify _ _ _) eqn:V; [|done].
  exists au, payload, sig. unfold time_add, emergencyStopCommandMaxFutureSkew in Le. by split_and!.
Qed.

(** The one change of the table is the row of this command, in a scope that had none or a lower epoch. *)
Definition own_row_written (c : FenceCommand) (k : AcknowledgementIdentity) (t t' : Table) : Prop :=
  exists s h, answers c k h s /\ written s t t'.

(** The response to a call that failed. *)
Lemma failed_response postgres o c k t t' e : failed_call postgres o c k t t' e ->
  match (if errors_Is e ErrScopedStopInvalid then BadRequest
         else if errors_Is e ErrScopedStopStaleEpoch || errors_Is e ErrScopedStopConflict then ConflictResponse
         else InternalError) with
  | BadRequest => t' = t
  | ConflictResponse => t' = t \/ (postgres = false /\ (exists x, o_write o = FailedAfter x) /\ own_row_written c k t t')
  | InternalError => t' = t \/
      ((if postgres then exists x, o_commit o = FailedAfter x else o_affected o <> Done) /\ own_row_written c k t t')
  | _ => False
  end.
Proof.
  intros [->|(s & h & A & W & C)]; [repeat case_match; by try left|].
  assert (O : own_row_written c k t t') by (by exists s, h).
  destruct C as [(Hp & x & Ho & ->)|[(-> & Ho & x & ->)|(-> & x & Ho & ->)]].
  - change (match ConflictResponse with BadRequest => t' = t
      | ConflictResponse => t' = t \/ (postgres = false /\ (exists x, o_write o = FailedAfter x) /\ own_row_written c k t t')
      | _ => False end). right. split_and!; [done|by exists x|done].
  - change (t' = t \/ o_affected o <> Done /\ own_row_written c k t t'). by right.
  - change (t' = t \/ (exists x, o_commit o = FailedAfter x) /\ own_row_written c k t t'). right. split; [by exists x|done].
Qed.
End RouteProps.

(** * Theorems *)

Section Theorems.
Context `{Hash}.

(** C12. An acknowledged fence is never lifted and never disputed.  Over any interleaving of fence calls of several processes,
    with statements that fail before or after their effect: the receipt of a state that was returned is the hash of
    its content; two returned states of one scope and epoch are the same; and from then on, reading the scope finds that
    state or one of a higher epoch. *)
Theorem acknowledged_fences_hold (es1 es2 : list event) :
  forallb sane es1 = true -> forallb sane es2 = true ->
  let y := run es1 fresh in let y' := run es2 y in
  agree (sy_acked y) /\ commands_unique (sy_table y') /\
  forall s b, (s, b) ∈ sy_acked y -> withReceiptHash s = Ok s /\
    exists cur, getScopedStop Done (fs_Scope s) (sy_table y') = Ok (Some cur) /\ (cur = s \/ (fs_Epoch s < fs_Epoch cur)%Z).
Proof.
  intros S1 S2 y y'. destruct (fences_run_inv es1 fresh S1 no_fences_inv) as [I1 _]. fold y in I1.
  destruct (fences_run_inv es2 y S2 I1) as [I2 G]. fold y' in I2, G. destruct I1 as [_ _ Hh Ha]. split; [done|]. split; [apply I2|].
  intros s b Hs. rewrite Forall_forall in Hh. apply Hh, (holds_grows _ _ _ G) in Hs as (Sk & r & L & C). cbn [fst] in *.
  split; [apply Sk|]. destruct I2 as [[Tk _] _ _ _]. destruct (Tk _ _ L) as (cur & -> & Es & Ck).
  exists cur. rewrite <- Es in *. split; [by apply getScopedStop_done|]. destruct C as [E|]; [left|by right].
  by apply row_of_inj.
Qed.

(** Replays are answered with the original: a command that was put into force is answered, as often as it comes back with
    the same kernel identity and while its fence stands, with the very state of the first time, marked as a replay,
    and the table does not change; whatever the mode and the clock. *)
Theorem fence_replay_idempotent (postgres postgres' : bool) (o : Outcomes) (c : FenceCommand) (k : AcknowledgementIdentity)
    (now now' : time) (es : list event) (t' : Table) (s : FenceState) (b : bool) :
  forallb sane es = true -> sane_command c now = true ->
  Fence postgres o c k now (sy_table (run es fresh)) = (t', Ok (s, b)) ->
  Fence postgres' all_done c k now' t' = (t', Ok (s, true)).
Proof.
  intros Se Sc F. destruct (fences_run_inv es fresh Se no_fences_inv) as [[Ti _ _ _] _].
  destruct (Fence_spec _ _ _ _ _ _ _ _ Ti Sc F) as (_ & _ & A). destruct (A s b eq_refl) as [St (h & Ep & An)].
  unfold Fence. rewrite Ep, (executor_replays c k h now' t' s An St). destruct postgres'; [|done]. cbn [negb].
  apply prepare_Ok in Ep as (_ & _ & Sk & _). unfold lockPostgresStopScope, setPostgresStopScope. by rewrite Sk.
Qed.

(** C13. The route acknowledges only what an authority commanded and the table holds.  An acknowledgement means that the command was
    signed, within its time, by an authority of the configured keyring, in which a key identifier names one public
    key; that the table has the returned state for the command's scope, for this very command and this kernel's
    identity, written by this call over none or a lower epoch unless it is a replay, which changes nothing; and that
    the signature on the acknowledgement verifies under the kernel's key.  A command that is refused, as malformed, as
    unauthorised, or as stale or in conflict, leaves the table as it was.  The one exception is a database that fails
    after the effect: when the insert itself (which the store reports as a conflict) or the count of its rows fails in
    this way outside a transaction, or the commit of a transaction does, the command's own row may have been written. *)
Theorem fence_route_sound `{Ed25519} `{!Ed25519Laws} (priv : bytes) (keyID audience raw signature : string)
    (replay : option (res ReplayKeyring)) (postgres : bool) (o : Outcomes) (c : FenceCommand) (wall now : time)
    (es : list event) (t' : Table) (resp : response) :
  let signer := NewEd25519SignerFromKey priv keyID in
  let t := sy_table (run es fresh) in
  forallb sane es = true -> sane_command c now = true ->
  fence_route postgres o signer (configuredEmergencyStopCommandVerifier audience raw replay) (Ok (c, signature)) wall now t = (t', resp) ->
  match resp with
  | Acknowledged s replayed sig => (if replayed then t' = t else written s t t') /\ exists a payload p,
      configuredEmergencyStopCommandVerifier audience raw replay = Ok a /\ authorities_ok a /\ commanded a c signature wall /\
      t' !! Scope c = Some (row_of s) /\ withReceiptHash s = Ok s /\
      CanonicalPayload c = Ok p /\ answers c (emergencyStopAcknowledgementIdentity signer) ("sha256:" +:+ hex_encode (sha256 p)) s /\
      AcknowledgementPayload s = Ok payload /\ Verify (PublicKey signer) sig payload = Ok true
  | Unavailable | BadRequest | Forbidden => t' = t
  | ConflictResponse => t' = t \/
      (postgres = false /\ (exists x, o_write o = FailedAfter x) /\ own_row_written c (emergencyStopAcknowledgementIdentity signer) t t')
  | InternalError => t' = t \/
      ((if postgres then exists x, o_commit o = FailedAfter x else o_affected o <> Done) /\
       own_row_written c (emergencyStopAcknowledgementIdentity signer) t t')
  end.
Proof.
  intros signer t Se Sc. unfold fence_route. destruct (configuredEmergencyStopCommandVerifier audience raw replay) as [a|] eqn:Ec; [|by intros [= <- <-]].
  destruct (verifyEmergencyStopFenceEnvelope c signature a wall) as [u|] eqn:Ev; [|by intros [= <- <-]].
  destruct (Fence postgres o c _ now t) as [t1 r] eqn:F. intros [= <- <-].
  destruct (fences_run_inv es fresh Se no_fences_inv) as [[Ti _ _ _] _]. destruct (Fence_spec _ _ _ _ _ _ _ _ Ti Sc F) as (_ & _ & A).
  pose proof (Fence_table _ _ _ _ _ _ _ _ Ti Sc F) as T. destruct r as [[s b]|e].
  2: { pose proof (failed_response _ _ _ _ _ _ _ T) as R. revert R.
       by destruct (errors_Is e ErrScopedStopInvalid), (errors_Is e ErrScopedStopStaleEpoch || errors_Is e ErrScopedStopConflict). }
  destruct (A s b eq_refl) as [[L Sk] (h & Ep & An)].
  pose proof (so_receipt s Sk) as (payload & Pa & _)%res_bind_Ok. rewrite Pa. cbn [mbind res_bind Sign].
  apply prepare_Ok in Ep as (_ & _ & _ & p & Hp & ->). destruct (An) as (As & _). split; [exact T|].
  exists a, payload, p. rewrite <- As. split; [done|]. split; [by eapply configured_ok|]. split; [by eapply envelope_Ok|]. split; [exact L|]. split; [apply Sk|].
  split; [exact Hp|]. split; [exact An|]. split; [exact Pa|].
  apply (verify_own priv keyID payload).
Qed.

End Theorems.

(** * An instance *)

Module ScopedStopDemo.
#[local] Instance toy_hash : Hash := fun b => (repeat (byte 0) 31 ++ [byte (length b mod 256)])%list.
#[local] Existing Instance toy_ed25519.
#[local] Existing Instance toy_ed25519_laws.

Definition command (id : string) (epoch : Z) : FenceCommand := {|
  fc_ContractVersion := EmergencyStopFenceContractVersion; fc_Audience := "kernel-eu"; fc_KeyID := "cp-1"; fc_CommandID := id;
  fc_TenantID := "acme"; fc_WorkspaceID := "prod"; fc_Epoch := epoch; fc_ActorID := "oncall"; fc_Reason := "runaway agent";
  fc_IssuedAt := second; fc_ExpiresAt := (5 * minute)%Z |}.
Definition signer : Ed25519Signer := NewEd25519SignerFromKey [] "kernel-1".
Definition identity : AcknowledgementIdentity := emergencyStopAcknowledgementIdentity signer.
Definition keyring : string := " cp-1=" +:+ hex_encode (repeat (byte 0) 32) +:+ ", cp-2 = " +:+ hex_encode (repeat (byte 1) 32).
Definition signature : string := hex_encode (repeat (byte 0) 64).

(** Two commands race after both found the scope free; the higher epoch is written first and the lower one is refused.  A
    later write fails after its effect, and its replay finds it. *)
Definition race : list event :=
  [ERead 1 Done (command "stop-1" 1) identity minute; ERead 2 Done (command "stop-2" 2) identity minute; EWrite 2 Done Done;
   EWrite 1 Done Done; ESettle 1 Done;
   EFence false (all_done) (command "stop-2" 2) identity (2 * minute)].
Definition lost_reply : Outcomes := {|
  o_begin := Done; o_tenant := Done; o_workspace := Done; o_lock := Done; o_read := Done; o_write := FailedAfter "connection lost";
  o_affected := Done; o_reread := Done; o_commit := Done |}.
Definition later : list event :=
  [EFence false lost_reply (command "stop-3" 3) identity (3 * minute); EFence true all_done (command "stop-3" 3) identity (4 * minute)].

Definition seen (y : System) : list (string * Z * bool) := map (fun '(s, b) => (fs_CommandID s, fs_FencedAt s, b)) (sy_acked y).

Example race_outcome :
  (seen (run race fresh), seen (run later (run race fresh)))
  = ([("stop-2", minute, true); ("stop-2", minute, false)],
     [("stop-3", (3 * minute)%Z, true); ("stop-2", minute, true); ("stop-2", minute, false)]).
Proof. vm_compute. reflexivity. Qed.

Lemma runs_sane : forallb sane race = true /\ forallb sane later = true.
Proof. vm_compute. split; reflexivity. Qed.
Lemma two_acked : match sy_acked (run race fresh) with [_; (_, b)] => b = false | _ => False end.
Proof. vm_compute. reflexivity. Qed.
Lemma stop_sane now : in_years now = true -> sane_command (command "stop-1" 1) now = true.
Proof. intros Y. unfold sane_command. rewrite Y. vm_compute. reflexivity. Qed.

Lemma acknowledged_fences_hold_witness :
  exists s cur, (s, false) ∈ sy_acked (run race fresh) /\
    getScopedStop Done (fs_Scope s) (sy_table (run later (run race fresh))) = Ok (Some cur) /\ (cur = s \/ (fs_Epoch s < fs_Epoch cur)%Z).
Proof.
  destruct (acknowledged_fences_hold race later (proj1 runs_sane) (proj2 runs_sane)) as (_ & _ & A). pose proof two_acked as V.
  destruct (sy_acked (run race fresh)) as [|x1 [|[s b] [|]]]; try (exfalso; exact V). subst b.
  destruct (A s false) as (_ & cur & G & C); [right; left|]. exists s, cur. split; [right; left|]. by split.
Defined.

Abbreviation first := (Fence false all_done (command "stop-1" 1) identity minute (sy_table (run [] fresh))).

Lemma first_written : match first.2 with Ok (_, b) => b = false | Fail _ => False end.
Proof. vm_compute. reflexivity. Qed.

Lemma fence_replay_idempotent_witness :
  match first with
  | (t', Ok (s, _)) => Fence true all_done (command "stop-1" 1) identity (9 * minute) t' = (t', Ok (s, true))
  | _ => False
  end.
Proof.
  pose proof first_written as V.
  destruct first as [t' [[s b]|e]] eqn:F; [|exact V]. 
  apply (fence_replay_idempotent false true all_done (command "stop-1" 1) identity minute (9 * minute) [] t' s b);
    [reflexivity|apply stop_sane; vm_compute; reflexivity|exact F].
Defined.

Abbreviation posted :=
  (fence_route false all_done (NewEd25519SignerFromKey [] "kernel-1") (configuredEmergencyStopCommandVerifier "kernel-eu" keyring None)
    (Ok (command "stop-1" 1, signature)) (2 * second) (2 * second) (sy_table (run [] fresh))).

(** The exception is real: an insert whose reply is lost is answered as a conflict, and the fence is in force. *)
Example lost_insert_conflicts :
  let '(t, resp) := fence_route false lost_reply signer (configuredEmergencyStopCommandVerifier "kernel-eu" keyring None)
    (Ok (command "stop-1" 1, signature)) (2 * second) (2 * second) ∅ in
  resp = ConflictResponse /\ (rw_command_id <$> t !! ("acme", "prod")) = Some "stop-1".
Proof. vm_compute. split; reflexivity. Qed.

Lemma posted_acknowledged : match posted.2 with Acknowledged _ b _ => b = false | _ => False end.
Proof. vm_compute. reflexivity. Qed.

Lemma fence_route_sound_witness :
  exists a s sig, posted.2 = Acknowledged s false sig /\ commanded a (command "stop-1" 1) signature (2 * second) /\
    posted.1 !! ("acme", "prod") = Some (row_of s).
Proof.
  pose proof posted_acknowledged as V.
  destruct posted as [t' resp] eqn:P. cbn [snd] in V. 
  pose proof (fence_route_sound [] "kernel-1" "kernel-eu" keyring signature None false all_done (command "stop-1" 1) (2 * second) (2 * second)
    [] t' resp eq_refl (stop_sane (2 * second) ltac:(vm_compute; reflexivity)) P) as R.
  destruct resp as [| | | | |s b sig]; try (exfalso; exact V). subst b.
  destruct R as (_ & a & payload & p & _ & _ & C & L & _). exists a, s, sig. split; [reflexivity|]. split; [exact C|exact L].
Defined.
End ScopedStopDemo.
