(* ===== verification/Identity.v ===== *)
(** Identity gates, [core/pkg/identity]: credential isolation (isolation.go) and
    delegation sessions with their in-memory store (delegation.go, types.go). *)
From S2P Require Import Prelude GoLib GoFmt Utf8 Jcs Contracts.

Local Open Scope string_scope.

Module Isolation.

Record IsolationViolationRecord := {
  v_CredentialHash : string;
  v_AttemptingPrincipal : string;
  v_BoundPrincipal : string;
  v_SessionID : string;
  v_DetectedAt : time;
}.

Record IsolationChecker := {
  bindings : gmap string string;
  history : list IsolationViolationRecord;
}.
#[export] Instance IsolationChecker_eta : Eta IsolationChecker := fun r => {|
  bindings := bindings r; history := history r |}.

Definition NewIsolationChecker : IsolationChecker := {| bindings := ∅; history := [] |}.

(** [IsolationViolationError.Error] *)
Definition violation_text (bound attempting : string) : error :=
  "IDENTITY_ISOLATION_VIOLATION: credential bound to " +:+ bound +:+ ", attempted by " +:+ attempting.

Definition ValidateAgentIdentity (principalID credentialHash sessionID : string) (now : time)
    (ic : IsolationChecker) : IsolationChecker * res unit :=
  match bindings ic !! credentialHash with
  | Some existing =>
      if negb (String.eqb existing principalID) then
        let violation := {| v_CredentialHash := credentialHash;
                            v_AttemptingPrincipal := principalID;
                            v_BoundPrincipal := existing; v_SessionID := sessionID;
                            v_DetectedAt := now |} in
        (ic <| history := (history ic ++ [violation])%list |>,
         Fail (violation_text existing principalID))
      else (ic, Ok tt)
  | None => (ic <| bindings := <[credentialHash := principalID]> (bindings ic) |>, Ok tt)
  end.

Definition Violations (ic : IsolationChecker) : list IsolationViolationRecord := history ic.
Definition BindingCount (ic : IsolationChecker) : nat := size (bindings ic).

(** A call: principal, credential, session, clock reading. *)
Definition call : Type := string * string * string * time.

Definition do_call (ic : IsolationChecker) (c : call) : IsolationChecker :=
  let '(p, cr, s, t) := c in (ValidateAgentIdentity p cr s t ic).1.

Definition run (calls : list call) (ic : IsolationChecker) : IsolationChecker :=
  foldl do_call ic calls.

Lemma do_call_binding c ic cred p :
  bindings ic !! cred = Some p -> bindings (do_call ic c) !! cred = Some p.
Proof.
  destruct c as [[[p' cr'] s] t]. unfold do_call, ValidateAgentIdentity. intros Hb.
  destruct (bindings ic !! cr') as [q|] eqn:E; [destruct (String.eqb_spec q p'); done|].
  cbn. rewrite lookup_insert_ne; [done|]. congruence.
Qed.

Lemma run_binding calls ic cred p :
  bindings ic !! cred = Some p -> bindings (run calls ic) !! cred = Some p.
Proof.
  revert ic. induction calls as [|c calls IH]; intros ic Hb; cbn; [done|].
  apply IH. by apply do_call_binding.
Qed.

Lemma ValidateAgentIdentity_Ok p cr s t ic ic' :
  ValidateAgentIdentity p cr s t ic = (ic', Ok tt) -> bindings ic' !! cr = Some p.
Proof.
  unfold ValidateAgentIdentity. destruct (bindings ic !! cr) as [q|] eqn:E.
  - destruct (String.eqb_spec q p) as [->|]; cbn; intros [=]; by simplify_eq.
  - intros [=]; subst. cbn. by rewrite lookup_insert_eq.
Qed.

(** A credential belongs to the first principal that used it, for good: once
    [alice] was accepted with a credential, every later attempt with it, after
    any number of other calls, succeeds for alice and is refused for anyone
    else, and each refusal is recorded with the bound and the attempting
    principal. *)
Theorem credential_binding_permanent alice cred s t ic ic1 calls p s' t' :
  ValidateAgentIdentity alice cred s t ic = (ic1, Ok tt) ->
  let ic2 := run calls ic1 in
  let '(ic3, r) := ValidateAgentIdentity p cred s' t' ic2 in
  (r = Ok tt <-> p = alice) /\
  (p <> alice -> r = Fail (violation_text alice p) /\
     last (history ic3) = Some {| v_CredentialHash := cred; v_AttemptingPrincipal := p;
       v_BoundPrincipal := alice; v_SessionID := s'; v_DetectedAt := t' |}).
Proof.
  intros H%ValidateAgentIdentity_Ok. cbn zeta.
  apply (run_binding calls) in H. unfold ValidateAgentIdentity. rewrite H.
  destruct (String.eqb_spec alice p) as [->|Hne]; cbn.
  - by split.
  - split; [naive_solver|]. intros _. by rewrite last_snoc.
Qed.

Lemma credential_binding_permanent_witness :
  (ValidateAgentIdentity "mallory" "c1" "s" 5%Z
     (run [("bob", "c2", "s", 3%Z)] (ValidateAgentIdentity "alice" "c1" "s" 0%Z NewIsolationChecker).1)).2
  = Fail (violation_text "alice" "mallory").
Proof.
  pose proof (credential_binding_permanent "alice" "c1" "s" 0%Z NewIsolationChecker
    (ValidateAgentIdentity "alice" "c1" "s" 0%Z NewIsolationChecker).1
    [("bob", "c2", "s", 3%Z)] "mallory" "s" 5%Z eq_refl) as H. cbv zeta in H.
  destruct (ValidateAgentIdentity "mallory" "c1" "s" 5%Z _) as [ic3 r].
  destruct H as [_ H]. destruct H as [H _]; [done|exact H].
Defined.

End Isolation.

Module Delegation.

Record CapabilityGrant := {
  g_Resource : string;
  g_Actions : list string;
  g_Conditions : list string;
}.

Record DelegationSession := {
  SessionID : string;
  DelegatorPrincipal : string;
  DelegatePrincipal : string;
  AllowedTools : list string;
  Capabilities : list CapabilityGrant;
  RiskCeiling : string;
  SessionNonce : string;
  VerifierBinding : string;
  DelegationPolicyHash : string;
  TrustRootRef : string;
  PrincipalSeqFloor : Z;
  CreatedWithMFA : bool;
  ExpiresAt : time;
  CreatedAt : time;
  SignatureEd25519 : string;
}.
#[export] Instance DelegationSession_eta : Eta DelegationSession := fun r => {|
  SessionID := SessionID r; DelegatorPrincipal := DelegatorPrincipal r;
  DelegatePrincipal := DelegatePrincipal r; AllowedTools := AllowedTools r;
  Capabilities := Capabilities r; RiskCeiling := RiskCeiling r;
  SessionNonce := SessionNonce r; VerifierBinding := VerifierBinding r;
  DelegationPolicyHash := DelegationPolicyHash r; TrustRootRef := TrustRootRef r;
  PrincipalSeqFloor := PrincipalSeqFloor r; CreatedWithMFA := CreatedWithMFA r;
  ExpiresAt := ExpiresAt r; CreatedAt := CreatedAt r;
  SignatureEd25519 := SignatureEd25519 r |}.

(** [DelegationError.Error] with the code every failure here carries. *)
Definition invalid (message : string) : error := "DELEGATION_INVALID: " +:+ message.

Definition NewDelegationSession (sessionID delegator delegate nonce policyHash trustRootRef : string)
    (principalSeqFloor : Z) (expiresAt : time) (createdWithMFA : bool) (now : time)
    : DelegationSession :=
  {| SessionID := sessionID; DelegatorPrincipal := delegator; DelegatePrincipal := delegate;
     AllowedTools := []; Capabilities := []; RiskCeiling := ""; SessionNonce := nonce;
     VerifierBinding := ""; DelegationPolicyHash := policyHash; TrustRootRef := trustRootRef;
     PrincipalSeqFloor := principalSeqFloor; CreatedWithMFA := createdWithMFA;
     ExpiresAt := expiresAt; CreatedAt := now; SignatureEd25519 := "" |}.

Definition AddCapability (grant : CapabilityGrant) (s : DelegationSession) : res DelegationSession :=
  if String.eqb (g_Resource grant) "" then Fail (invalid "capability grant must specify a resource")
  else match g_Actions grant with
       | [] => Fail (invalid "capability grant must specify at least one action")
       | _ => Ok (s <| Capabilities := (Capabilities s ++ [grant])%list |>)
       end.

Definition AddAllowedTool (toolName : string) (s : DelegationSession) : DelegationSession :=
  s <| AllowedTools := (AllowedTools s ++ [toolName])%list |>.

Definition SetRiskCeiling (ceiling : string) (s : DelegationSession) : DelegationSession :=
  s <| RiskCeiling := ceiling |>.

Section Ops.
Context `{Hash}.

Definition verifier_hash (verifier : string) : string := hex_encode (sha256 (to_bytes verifier)).

Definition BindVerifier (verifier : string) (s : DelegationSession) : DelegationSession :=
  s <| VerifierBinding := verifier_hash verifier |>.

Definition ValidateSession (s : option DelegationSession) (verifier : string) (now : time)
    (nonceUsed : string -> bool) : res unit :=
  match s with
  | None => Fail (invalid "delegation session is nil")
  | Some s =>
      if String.eqb (SessionID s) "" || String.eqb (DelegatorPrincipal s) ""
         || String.eqb (DelegatePrincipal s) ""
      then Fail (invalid "session missing required identity fields")
      else if after now (ExpiresAt s)
      then Fail (invalid ("session expired at " +:+ fmt_seconds (ExpiresAt s) +:+ "Z"))
      else if String.eqb (SessionNonce s) "" then Fail (invalid "session nonce is required")
      else if nonceUsed (SessionNonce s) then Fail (invalid "session nonce has been replayed")
      else if negb (String.eqb (VerifierBinding s) "") && String.eqb verifier ""
      then Fail (invalid "verifier required for bound session")
      else if negb (String.eqb (VerifierBinding s) "")
              && negb (String.eqb (VerifierBinding s) (verifier_hash verifier))
      then Fail (invalid "verifier binding mismatch")
      else if String.eqb (DelegationPolicyHash s) ""
      then Fail (invalid "delegation policy hash is required")
      else Ok tt
  end.

(** What a session must be for [ValidateSession] to accept it. *)
Definition session_valid (s : DelegationSession) (verifier : string) (now : time)
    (nonceUsed : string -> bool) : Prop :=
  SessionID s <> "" /\ DelegatorPrincipal s <> "" /\ DelegatePrincipal s <> "" /\
  (now <= ExpiresAt s)%Z /\ SessionNonce s <> "" /\ nonceUsed (SessionNonce s) = false /\
  (VerifierBinding s = "" \/ verifier <> "" /\ VerifierBinding s = verifier_hash verifier) /\
  DelegationPolicyHash s <> "".

Lemma ValidateSession_Ok s verifier now nonceUsed :
  ValidateSession (Some s) verifier now nonceUsed = Ok tt
  <-> session_valid s verifier now nonceUsed.
Proof.
  unfold ValidateSession, session_valid, after.
  destruct (String.eqb_spec (SessionID s) ""); cbn; [naive_solver|].
  destruct (String.eqb_spec (DelegatorPrincipal s) ""); cbn; [naive_solver|].
  destruct (String.eqb_spec (DelegatePrincipal s) ""); cbn; [naive_solver|].
  destruct (Z.ltb_spec (ExpiresAt s) now); [split; [done|lia]|].
  destruct (String.eqb_spec (SessionNonce s) ""); [naive_solver|].
  destruct (nonceUsed (SessionNonce s)); [naive_solver|].
  destruct (String.eqb_spec (VerifierBinding s) "") as [Ev|Hv]; cbn.
  - destruct (String.eqb_spec (DelegationPolicyHash s) ""); naive_solver.
  - destruct (String.eqb_spec verifier ""); cbn; [naive_solver|].
    destruct (String.eqb_spec (VerifierBinding s) (verifier_hash verifier)); cbn; [|naive_solver].
    destruct (String.eqb_spec (DelegationPolicyHash s) ""); naive_solver.
Qed.
End Ops.

Definition IsToolAllowed (s : DelegationSession) (toolName : string) : bool :=
  match AllowedTools s with
  | [] => false
  | l => existsb (fun t => String.eqb t toolName) l
  end.

Definition IsActionAllowed (s : DelegationSession) (resource action : string) : bool :=
  existsb (fun cap => String.eqb (g_Resource cap) resource
                      && existsb (fun a => String.eqb a action) (g_Actions cap))
    (Capabilities s).

Definition EffectiveTools (s : DelegationSession) (available : list string) : list string :=
  match AllowedTools s with
  | [] => []
  | l => let allowed := set_of_list l in filter (fun t => set_mem allowed t = true) available
  end.

Lemma IsToolAllowed_spec s t : IsToolAllowed s t = true <-> t ∈ AllowedTools s.
Proof.
  unfold IsToolAllowed. destruct (AllowedTools s) as [|x l]; [set_solver|].
  rewrite existsb_Exists, Exists_exists. split.
  - by intros (y&Hy&->%String.eqb_eq).
  - intros H. exists t. by rewrite String.eqb_refl.
Qed.

(** The scope of a session as the set of its decisions. *)
Lemma EffectiveTools_spec s available t :
  t ∈ EffectiveTools s available <-> t ∈ available /\ IsToolAllowed s t = true.
Proof.
  rewrite IsToolAllowed_spec. unfold EffectiveTools.
  destruct (AllowedTools s) as [|x l] eqn:E; [set_solver|].
  rewrite list_elem_of_filter, set_mem_of_list. naive_solver.
Qed.

(** ** The in-memory store *)

Record InMemoryDelegationStore := {
  sessions : gmap string DelegationSession;
  revoked : gmap string bool;
  nonces : gmap string bool;
}.
#[export] Instance InMemoryDelegationStore_eta : Eta InMemoryDelegationStore := fun r => {|
  sessions := sessions r; revoked := revoked r; nonces := nonces r |}.

Definition NewInMemoryDelegationStore : InMemoryDelegationStore :=
  {| sessions := ∅; revoked := ∅; nonces := ∅ |}.

Definition Store (s : DelegationSession) (st : InMemoryDelegationStore) : InMemoryDelegationStore :=
  st <| sessions := <[SessionID s := s]> (sessions st) |>.

Definition Load (st : InMemoryDelegationStore) (sessionID : string)
    : res (option DelegationSession) :=
  if set_mem (revoked st) sessionID then Fail (invalid "session has been revoked")
  else Ok (sessions st !! sessionID).

Definition Revoke (sessionID : string) (st : InMemoryDelegationStore) : InMemoryDelegationStore :=
  st <| revoked := <[sessionID := true]> (revoked st) |>.

Definition IsNonceUsed (st : InMemoryDelegationStore) (nonce : string) : bool :=
  set_mem (nonces st) nonce.

Definition MarkNonceUsed (nonce : string) (st : InMemoryDelegationStore) : InMemoryDelegationStore :=
  st <| nonces := <[nonce := true]> (nonces st) |>.

Inductive op := OpStore (s : DelegationSession) | OpRevoke (id : string) | OpMark (nonce : string).

Definition step (o : op) (st : InMemoryDelegationStore) : InMemoryDelegationStore :=
  match o with
  | OpStore s => Store s st
  | OpRevoke id => Revoke id st
  | OpMark n => MarkNonceUsed n st
  end.

Definition run (ops : list op) (st : InMemoryDelegationStore) : InMemoryDelegationStore :=
  foldl (fun st o => step o st) st ops.

Lemma run_nonce ops st n : IsNonceUsed st n = true -> IsNonceUsed (run ops st) n = true.
Proof.
  revert st. induction ops as [|o ops IH]; intros st H; cbn; [done|]. apply IH.
  destruct o; [done|done|]. unfold IsNonceUsed. cbn. rewrite set_mem_insert.
  unfold IsNonceUsed in H. rewrite H. apply orb_true_r.
Qed.

Lemma run_revoked ops st id :
  set_mem (revoked st) id = true -> set_mem (revoked (run ops st)) id = true.
Proof.
  revert st. induction ops as [|o ops IH]; intros st H; cbn; [done|]. apply IH.
  destruct o; [done| |done]. cbn. rewrite set_mem_insert, H. apply orb_true_r.
Qed.

(** Delegation sessions are single-use and revocation is final: once a nonce
    is marked, no session carrying it validates again, and once a session id is
    revoked, loading it fails, after any later operations on the store,
    including storing the session again. *)
Theorem delegation_single_use `{Hash} st ops nonce id s verifier now :
  (SessionNonce s = nonce ->
   ValidateSession (Some s) verifier now (IsNonceUsed (run ops (MarkNonceUsed nonce st))) <> Ok tt) /\
  Load (run ops (Revoke id st)) id = Fail (invalid "session has been revoked").
Proof.
  split.
  - intros <- V. apply ValidateSession_Ok in V as (_&_&_&_&_&V&_).
    rewrite run_nonce in V; [done|]. unfold IsNonceUsed. cbn.
    by rewrite set_mem_insert, bool_decide_true.
  - unfold Load. rewrite run_revoked; [done|]. cbn. by rewrite set_mem_insert, bool_decide_true.
Qed.

(** A delegation can only narrow: the tools a session makes effective are
    among those offered and among those explicitly added to it, a fresh session
    permits no tool and no action at all, and its scope is empty although the
    comment on [IsToolAllowed] says an empty list permits every tool. *)
Theorem delegation_narrows s available t sid d e n ph tr fl ex mfa now r a :
  (t ∈ EffectiveTools s available -> t ∈ available /\ t ∈ AllowedTools s) /\
  (AllowedTools s = [] -> IsToolAllowed s t = false) /\
  let fresh := NewDelegationSession sid d e n ph tr fl ex mfa now in
  IsToolAllowed fresh t = false /\ IsActionAllowed fresh r a = false /\
  EffectiveTools fresh available = [].
Proof.
  split_and!; [|by unfold IsToolAllowed; intros ->|done..].
  rewrite EffectiveTools_spec, IsToolAllowed_spec. done.
Qed.

(** ** Two requests on one session

    The gate reads the nonce when it validates and marks it after its last
    check, in two critical sections.  A request is a thread of those two steps. *)
Inductive phase := Start | Passed | Refused | Done.

Section Race.
Context `{Hash} (s : DelegationSession) (verifier : string) (now : time).

Record shared := { store : InMemoryDelegationStore; t1 : phase; t2 : phase }.

Definition check_step (st : InMemoryDelegationStore) (p : phase)
    : InMemoryDelegationStore * phase :=
  match p with
  | Start => (st, if is_ok (ValidateSession (Some s) verifier now (IsNonceUsed st))
                  then Passed else Refused)
  | Passed => (MarkNonceUsed (SessionNonce s) st, Done)
  | _ => (st, p)
  end.

Inductive race : shared -> shared -> Prop :=
| race1 st a b st' a' : check_step st a = (st', a') ->
    race {| store := st; t1 := a; t2 := b |} {| store := st'; t1 := a'; t2 := b |}
| race2 st a b st' b' : check_step st b = (st', b') ->
    race {| store := st; t1 := a; t2 := b |} {| store := st'; t1 := a; t2 := b' |}.

(** One request running its two steps without interruption. *)
Definition atomically (st : InMemoryDelegationStore) : InMemoryDelegationStore * phase :=
  let '(st', p) := check_step st Start in check_step st' p.
End Race.

(** Checking and burning the nonce is not atomic: requests that run one after
    the other use a session at most once, but there is an interleaving of two
    requests in which both pass every check before either marks the nonce. *)
Theorem nonce_check_then_mark_race `{Hash} s verifier now st :
  session_valid s verifier now (IsNonceUsed st) ->
  (atomically s verifier now st).2 = Done /\
  (atomically s verifier now (atomically s verifier now st).1).2 = Refused /\
  exists st', rtc (race s verifier now)
    {| store := st; t1 := Start; t2 := Start |} {| store := st'; t1 := Done; t2 := Done |}.
Proof.
  intros V%ValidateSession_Ok. unfold atomically, check_step. rewrite V. cbn [is_ok fst snd].
  split_and!; [done| |].
  - destruct (ValidateSession (Some s) verifier now
      (IsNonceUsed (MarkNonceUsed (SessionNonce s) st))) as [[]|] eqn:E; [|done].
    apply ValidateSession_Ok in E as (_&_&_&_&_&E&_). unfold IsNonceUsed in E. cbn in E.
    by rewrite set_mem_insert, bool_decide_true in E.
  - eexists.
    eapply rtc_l; [apply race1; unfold check_step; rewrite V; reflexivity|].
    eapply rtc_l; [apply race2; unfold check_step; rewrite V; reflexivity|].
    eapply rtc_l; [apply race1; reflexivity|].
    eapply rtc_l; [apply race2; reflexivity|]. apply rtc_refl.
Qed.

Definition sample_session : DelegationSession :=
  AddAllowedTool "mail.send"
    (NewDelegationSession "s1" "alice" "bot" "n1" "ph" "tr" 0%Z 100%Z true 0%Z).

Lemma nonce_check_then_mark_race_witness :
  (@atomically id_hash sample_session "" 5%Z NewInMemoryDelegationStore).2 = Done.
Proof.
  apply (@nonce_check_then_mark_race id_hash sample_session "" 5%Z NewInMemoryDelegationStore).
  apply ValidateSession_Ok. vm_compute. reflexivity.
Defined.

Lemma delegation_single_use_witness :
  @ValidateSession id_hash (Some sample_session) "" 5%Z
    (IsNonceUsed (run [OpStore sample_session] (MarkNonceUsed "n1" NewInMemoryDelegationStore)))
  <> Ok tt.
Proof.
  apply (@delegation_single_use id_hash NewInMemoryDelegationStore [OpStore sample_session]
    "n1" "s1" sample_session "" 5%Z). reflexivity.
Defined.

Lemma delegation_narrows_witness :
  "mail.send" ∈ ["mail.send"; "other"] /\ "mail.send" ∈ AllowedTools sample_session.
Proof.
  apply (delegation_narrows sample_session ["mail.send"; "other"] "mail.send"
    "" "" "" "" "" "" 0%Z 0%Z true 0%Z "" "").
  apply EffectiveTools_spec. split; [left|vm_compute; reflexivity].
Defined.

End Delegation.
