(* ===== verification/Egress.v ===== *)
(** The tool firewall, [core/pkg/firewall]: the egress checker (egress.go)
    and the tool allowlist in front of a dispatcher (firewall.go).

    The parts of package net the checker uses ([ParseIP], [ParseCIDR] and
    [IPNet.Contains]) are in [Module Net], an address being the 128-bit number
    of its 16-byte form.  The JSON Schema compiler and the dispatcher are
    parameters. *)
From Stdlib Require Import Ascii.
From S2P Require Import Prelude GoLib Contracts.

Local Open Scope string_scope.

Module Net.

Local Open Scope Z_scope.

Definition v4InV6 (z : Z) : Z := Z.lor (Z.shiftl 65535 32) z.

(** [IP.To4]: the low 32 bits of an IPv4-mapped address. *)
Definition To4 (ip : Z) : option Z :=
  if Z.shiftr ip 32 =? 65535 then Some (Z.land ip 4294967295) else None.

Definition digit (c : ascii) : option Z :=
  let n := Z.of_nat (nat_of_ascii c) in
  if (48 <=? n) && (n <=? 57) then Some (n - 48) else None.

(** [parseIPv4Fields]: [acc] holds the finished octets, [cur] the octet being
    read. *)
Fixpoint parseIPv4Fields (acc : list Z) (cur : option Z) (l : bytes) : option (list Z) :=
  match l with
  | [] => v ← cur;
          if Nat.eqb (length acc) 3 then Some (acc ++ [v])%list else None
  | c :: l' =>
      match digit c with
      | Some d =>
          if bool_decide (cur = Some 0) then None
          else let v := default 0 cur * 10 + d in
               if 255 <? v then None else parseIPv4Fields acc (Some v) l'
      | None =>
          if Ascii.eqb c "."%char
          then v ← cur;
               if Nat.eqb (length acc) 3 then None
               else parseIPv4Fields (acc ++ [v])%list None l'
          else None
      end
  end.

Definition big_endian (base : Z) (l : list Z) : Z := foldl (fun z v => z * base + v) 0 l.

Definition hexdigit (c : ascii) : option Z := Z.of_nat <$> hexval c.

(** One hexadecimal group: its value, the number of digits and the rest. *)
Fixpoint hex_group (n : nat) (acc : Z) (l : bytes) : option (Z * nat * bytes) :=
  match l with
  | c :: l' =>
      match hexdigit c with
      | Some d => if Nat.ltb 3 n then None else hex_group (S n) (acc * 16 + d) l'
      | None => Some (acc, n, l)
      end
  | [] => Some (acc, n, [])
  end.

(** The group loop of [parseIPv6]: the 16-bit groups read so far, the position
    of the ellipsis and the unread input. *)
Fixpoint parseIPv6_groups (fuel : nat) (groups : list Z) (ellipsis : option nat) (s : bytes)
    : option (list Z * option nat * bytes) :=
  match fuel with
  | O => Some (groups, ellipsis, s)
  | S fuel =>
      if Nat.leb 8 (length groups) then Some (groups, ellipsis, s)
      else
        '(acc, off, rest) ← hex_group 0 0 s;
        if Nat.eqb off 0 then None
        else match rest with
             | [] => Some ((groups ++ [acc])%list, ellipsis, [])
             | c :: rest' =>
                 if Ascii.eqb c "."%char then
                   if bool_decide (ellipsis = None) && negb (Nat.eqb (length groups) 6) then None
                   else if Nat.ltb 8 (length groups + 2) then None
                   else octets ← parseIPv4Fields [] None s;
                        let v := big_endian 256 octets in
                        Some ((groups ++ [Z.shiftr v 16; Z.land v 65535])%list, ellipsis, [])
                 else if negb (Ascii.eqb c ":"%char) then None
                 else match rest' with
                      | [] => None
                      | c' :: rest'' =>
                          let groups := (groups ++ [acc])%list in
                          if Ascii.eqb c' ":"%char then
                            match ellipsis, rest'' with
                            | Some _, _ => None
                            | None, [] => Some (groups, Some (length groups), [])
                            | None, _ => parseIPv6_groups fuel groups (Some (length groups)) rest''
                            end
                          else parseIPv6_groups fuel groups ellipsis rest'
                      end
             end
  end.

Definition expand_ellipsis (groups : list Z) (ellipsis : option nat) : option (list Z) :=
  match ellipsis with
  | Some e =>
      if Nat.ltb (length groups) 8
      then Some (take e groups ++ replicate (8 - length groups) 0 ++ drop e groups)%list
      else None
  | None => if Nat.eqb (length groups) 8 then Some groups else None
  end.

(** [netip.parseIPv6] for an address without a zone; a zoned address is
    refused by both callers. *)
Definition parseIPv6 (l : bytes) : option Z :=
  let '(ell, s) := match strip_prefix (to_bytes "::") l with
                   | Some s => (Some O, s) | None => (None, l) end in
  match ell, s with
  | Some _, [] => Some 0
  | _, _ =>
      '(groups, ellipsis, rest) ← parseIPv6_groups 9 [] ell s;
      match rest with
      | [] => big_endian 65536 <$> expand_ellipsis groups ellipsis
      | _ => None
      end
  end.

(** [netip.ParseAddr]: the first of ['.'], [':'] and ['%'] decides the family.
    The flag tells an IPv4 address. *)
Definition ParseAddr (s : string) : option (bool * Z) :=
  let l := to_bytes s in
  match List.find (fun c => Ascii.eqb c "."%char || Ascii.eqb c ":"%char || Ascii.eqb c "%"%char) l with
  | Some c =>
      if Ascii.eqb c "."%char
      then octets ← parseIPv4Fields [] None l; Some (true, big_endian 256 octets)
      else if Ascii.eqb c ":"%char
           then if existsb (Ascii.eqb "%"%char) l then None
                else v ← parseIPv6 l; Some (false, v)
           else None
  | None => None
  end.

Definition ParseIP (s : string) : option Z :=
  '(v4, v) ← ParseAddr s; Some (if v4 : bool then v4InV6 v else v).

(** A network: the masked address and the number of leading ones of a mask of
    [bits] bits. *)
Record IPNet := { IP : Z; ones : Z; bits : Z }.

Definition mask (ones bits : Z) (z : Z) : Z :=
  Z.shiftl (Z.shiftr z (bits - ones)) (bits - ones).

(** [dtoi]: a decimal prefix, refused from 0xFFFFFF on. *)
Fixpoint dtoi (seen : bool) (n : Z) (l : bytes) : option Z :=
  match l with
  | [] => if seen then Some n else None
  | c :: l' =>
      d ← digit c;
      let n := n * 10 + d in
      if 16777215 <=? n then None else dtoi true n l'
  end.

Fixpoint cut_slash (acc : bytes) (l : bytes) : option (bytes * bytes) :=
  match l with
  | [] => None
  | c :: l' => if Ascii.eqb c "/"%char then Some (rev acc, l') else cut_slash (c :: acc) l'
  end.

Definition ParseCIDR (s : string) : option IPNet :=
  '(addr, m) ← cut_slash [] (to_bytes s);
  '(v4, v) ← ParseAddr (of_bytes addr);
  n ← dtoi false 0 m;
  let width := if v4 : bool then 32 else 128 in
  if width <? n then None
  else Some {| IP := mask n width v; ones := n; bits := width |}.

(** [IPNet.Contains]: both sides are reduced to four bytes when they are
    IPv4(-mapped) addresses, and a 16-byte mask to its last four bytes. *)
Definition Contains (net : IPNet) (ip : Z) : bool :=
  if bits net =? 32 then
    match To4 ip with
    | Some x => mask (ones net) 32 (IP net) =? mask (ones net) 32 x
    | None => false
    end
  else
    match To4 (IP net), To4 ip with
    | Some n, Some x => let k := Z.max 0 (ones net - 96) in mask k 32 n =? mask k 32 x
    | None, None => mask (ones net) 128 (IP net) =? mask (ones net) 128 ip
    | _, _ => false
    end.

Example cidr_v4 : (fun n => (Contains n <$> ParseIP "10.1.2.3", Contains n <$> ParseIP "11.1.2.3",
                             Contains n <$> ParseIP "::ffff:10.9.9.9")) <$> ParseCIDR "10.0.0.0/8"
                  = Some (Some true, Some false, Some true).
Proof. reflexivity. Qed.
Example cidr_v6 : (fun n => (Contains n <$> ParseIP "2001:db8::1", Contains n <$> ParseIP "2001:db9::1"))
                  <$> ParseCIDR "2001:db8::/32" = Some (Some true, Some false).
Proof. reflexivity. Qed.
Example ip_bad : map ParseIP ["1.2.3"; "1.2.3.04"; "1.2.3.256"; "1:2"; "fe80::1%eth0"; "a.b"; ":::"; "1::2::3"]
                 = replicate 8 None.
Proof. reflexivity. Qed.
Example cidr_bad : map ParseCIDR ["10.0.0.0"; "10.0.0.0/33"; "10.0.0.0/"; "::/129"] = replicate 4 None.
Proof. reflexivity. Qed.

End Net.

Module EgressChecker.

Record EgressPolicy := {
  AllowedDomains : list string;
  DeniedDomains : list string;
  AllowedCIDRs : list string;
  AllowedProtocols : list string;
  MaxPayloadBytes : Z;
}.

Definition zero_policy : EgressPolicy :=
  {| AllowedDomains := []; DeniedDomains := []; AllowedCIDRs := []; AllowedProtocols := [];
     MaxPayloadBytes := 0 |}.

Record EgressDecision := {
  Allowed : bool;
  ReasonCode : string;
  Destination : string;
  PayloadBytes : Z;
  CheckedAt : time;
}.

Record egressStats := { totalChecks : Z; denied : Z; allowed : Z }.

Record EgressChecker := {
  policy : EgressPolicy;
  stats : egressStats;
  allowedSet : gmap string bool;
  deniedSet : gmap string bool;
  protoSet : gmap string bool;
  parsedCIDRs : list Net.IPNet;
}.
#[export] Instance EgressChecker_eta : Eta EgressChecker := fun r => {|
  policy := policy r; stats := stats r; allowedSet := allowedSet r; deniedSet := deniedSet r;
  protoSet := protoSet r; parsedCIDRs := parsedCIDRs r |}.

Definition NewEgressChecker (p : option EgressPolicy) : EgressChecker :=
  let p := default zero_policy p in
  {| policy := p; stats := {| totalChecks := 0; denied := 0; allowed := 0 |};
     allowedSet := set_of_list (map to_lower (AllowedDomains p));
     deniedSet := set_of_list (map to_lower (DeniedDomains p));
     protoSet := set_of_list (map to_lower (AllowedProtocols p));
     parsedCIDRs := omap Net.ParseCIDR (AllowedCIDRs p) |}.

(** [stats.x++] on an [int64] counter. *)
Definition incr (z : Z) : Z := wrap64 (z + 1).

Definition count_check (ec : EgressChecker) : EgressChecker :=
  let s := stats ec in
  ec <| stats := {| totalChecks := incr (totalChecks s); denied := denied s; allowed := allowed s |} |>.
Definition count_denied (ec : EgressChecker) : EgressChecker :=
  let s := stats ec in
  ec <| stats := {| totalChecks := totalChecks s; denied := incr (denied s); allowed := allowed s |} |>.
Definition count_allowed (ec : EgressChecker) : EgressChecker :=
  let s := stats ec in
  ec <| stats := {| totalChecks := totalChecks s; denied := denied s; allowed := incr (allowed s) |} |>.

Definition CheckEgress (destination protocol : string) (payloadBytes : Z) (now : time)
    (ec : EgressChecker) : EgressChecker * EgressDecision :=
  let ec := count_check ec in
  let dest := to_lower destination in
  let proto := to_lower protocol in
  let decision b r := {| Allowed := b; ReasonCode := r; Destination := destination;
                         PayloadBytes := payloadBytes; CheckedAt := now |} in
  let deny := (count_denied ec, decision false "DATA_EGRESS_BLOCKED") in
  let allow := (count_allowed ec, decision true "") in
  if set_mem (deniedSet ec) dest then deny
  else if negb (Nat.eqb (size (protoSet ec)) 0) && negb (set_mem (protoSet ec) proto) then deny
  else if (0 <? MaxPayloadBytes (policy ec))%Z && (MaxPayloadBytes (policy ec) <? payloadBytes)%Z
  then deny
  else if set_mem (allowedSet ec) dest then allow
  else match Net.ParseIP destination with
       | Some ip => if existsb (fun cidr => Net.Contains cidr ip) (parsedCIDRs ec) then allow else deny
       | None => deny
       end.

Definition Stats (ec : EgressChecker) : Z * Z * Z :=
  (totalChecks (stats ec), allowed (stats ec), denied (stats ec)).

Definition request : Type := string * string * Z * time.

Definition run (reqs : list request) (ec : EgressChecker) : EgressChecker :=
  foldl (fun ec '(d, p, n, t) => (CheckEgress d p n t ec).1) ec reqs.

(** ** The policy as the operator reads it *)

Definition listed (l : list string) (s : string) : Prop := to_lower s ∈ map to_lower l.

Definition in_cidr (p : EgressPolicy) (destination : string) : Prop :=
  exists ip c net, Net.ParseIP destination = Some ip /\ c ∈ AllowedCIDRs p /\
    Net.ParseCIDR c = Some net /\ Net.Contains net ip = true.

Definition permitted (p : EgressPolicy) (destination protocol : string) (n : Z) : Prop :=
  ~ listed (DeniedDomains p) destination /\
  (AllowedProtocols p = [] \/ listed (AllowedProtocols p) protocol) /\
  ((MaxPayloadBytes p <= 0)%Z \/ (n <= MaxPayloadBytes p)%Z) /\
  (listed (AllowedDomains p) destination \/ in_cidr p destination).

Lemma set_of_list_size (l : list string) : size (set_of_list l) = 0 <-> l = [].
Proof.
  split; [|by intros ->]. intros Hs%map_size_empty_inv. destruct l as [|x l]; [done|].
  assert (set_mem (set_of_list (x :: l)) x = true) as Hm by (apply set_mem_of_list; set_solver).
  by rewrite Hs in Hm.
Qed.

(** The lookup tables computed from a policy; [CheckEgress] keeps them. *)
Definition tables_of (p : EgressPolicy) (ec : EgressChecker) : Prop :=
  policy ec = p /\ allowedSet ec = set_of_list (map to_lower (AllowedDomains p)) /\
  deniedSet ec = set_of_list (map to_lower (DeniedDomains p)) /\
  protoSet ec = set_of_list (map to_lower (AllowedProtocols p)) /\
  parsedCIDRs ec = omap Net.ParseCIDR (AllowedCIDRs p).

Lemma CheckEgress_tables d pr n t p ec :
  tables_of p ec -> tables_of p (CheckEgress d pr n t ec).1.
Proof. unfold CheckEgress. intros H. repeat case_match; exact H. Qed.

Lemma run_tables reqs p ec : tables_of p ec -> tables_of p (run reqs ec).
Proof.
  unfold run. revert ec. induction reqs as [|[[[d pr] n] t] reqs IH]; intros ec H; [done|].
  apply IH. by apply CheckEgress_tables.
Qed.

Lemma cidr_match p destination ip :
  Net.ParseIP destination = Some ip ->
  existsb (fun cidr => Net.Contains cidr ip) (omap Net.ParseCIDR (AllowedCIDRs p)) = true <->
  in_cidr p destination.
Proof.
  intros Hip. rewrite existsb_Exists, Exists_exists. setoid_rewrite list_elem_of_omap.
  unfold in_cidr. split.
  - intros (net & (c & Hc & Hn) & Hk). by exists ip, c, net.
  - intros (ip' & c & net & Hip' & Hc & Hn & Hk). rewrite Hip in Hip'.
    injection Hip' as <-. eauto.
Qed.

Lemma CheckEgress_spec d pr n t p ec :
  tables_of p ec ->
  Allowed (CheckEgress d pr n t ec).2 = true <-> permitted p d pr n.
Proof.
  intros (Hp & Ha & Hd & Hpr & Hc). unfold CheckEgress, permitted, listed.
  change (deniedSet (count_check ec)) with (deniedSet ec).
  change (allowedSet (count_check ec)) with (allowedSet ec).
  change (protoSet (count_check ec)) with (protoSet ec).
  change (policy (count_check ec)) with (policy ec).
  change (parsedCIDRs (count_check ec)) with (parsedCIDRs ec).
  rewrite Hp, Ha, Hd, Hpr, Hc.
  pose proof (set_mem_of_list (map to_lower (DeniedDomains p)) (to_lower d)) as Sd.
  pose proof (set_mem_of_list (map to_lower (AllowedProtocols p)) (to_lower pr)) as Sp.
  pose proof (set_mem_of_list (map to_lower (AllowedDomains p)) (to_lower d)) as Sa.
  pose proof (set_of_list_size (map to_lower (AllowedProtocols p))) as Sz.
  rewrite <-Sd, <-Sp, <-Sa.
  assert (AllowedProtocols p = [] <-> Nat.eqb (size (set_of_list (map to_lower (AllowedProtocols p)))) 0 = true)
    as -> by (rewrite Nat.eqb_eq, Sz; destruct (AllowedProtocols p); cbn; split; congruence).
  assert (in_cidr p d <-> match Net.ParseIP d with
    | Some ip => existsb (fun cidr => Net.Contains cidr ip) (omap Net.ParseCIDR (AllowedCIDRs p))
    | None => false end = true) as ->.
  { destruct (Net.ParseIP d) as [ip|] eqn:Hip; [by rewrite cidr_match|].
    split; [|done]. intros (?&?&?&Hs&_). by rewrite Hip in Hs. }
  clear. generalize (set_mem (set_of_list (map to_lower (DeniedDomains p))) (to_lower d)).
  generalize (set_mem (set_of_list (map to_lower (AllowedDomains p))) (to_lower d)).
  generalize (set_mem (set_of_list (map to_lower (AllowedProtocols p))) (to_lower pr)).
  generalize (Nat.eqb (size (set_of_list (map to_lower (AllowedProtocols p)))) 0).
  intros bz bp ba bd. generalize (MaxPayloadBytes p). intros m.
  destruct (Z.ltb_spec 0 m); destruct (Z.ltb_spec m n); destruct bd, bz, bp, ba; cbn [negb andb];
    (destruct (Net.ParseIP d); [destruct (existsb _ _)|]); cbn; intuition (discriminate || lia || tauto).
Qed.

(** Egress is fail-closed and decided by the policy alone: after any
    number of earlier checks, a transmission is allowed exactly when the
    destination is not denied (denial wins over every allowance), the protocol
    is listed if any is, the payload is within the limit if there is one, and
    the destination is an allowed domain or an address in an allowed,
    well-formed CIDR block.  In particular a checker without a policy, or with
    no allowed domain and no allowed block, denies everything; and an allowed
    decision carries no reason code where a denied one carries
    DATA_EGRESS_BLOCKED. *)
Theorem egress_fail_closed pol reqs d pr n t :
  let p := default zero_policy pol in
  let dec := (CheckEgress d pr n t (run reqs (NewEgressChecker pol))).2 in
  (Allowed dec = true <-> permitted p d pr n) /\
  (AllowedDomains p = [] /\ AllowedCIDRs p = [] -> Allowed dec = false) /\
  ReasonCode dec = (if Allowed dec then "" else "DATA_EGRESS_BLOCKED").
Proof.
  intros p dec.
  assert (tables_of p (run reqs (NewEgressChecker pol))) as Ht by by apply run_tables.
  pose proof (CheckEgress_spec d pr n t p _ Ht) as Hs. fold dec in Hs.
  split; [exact Hs|]. split.
  - intros [He Hc]. apply not_true_is_false. intros Ha%Hs.
    destruct Ha as (_ & _ & _ & [Hl|(?&c&?&_&Hin&_)]).
    + unfold listed in Hl. rewrite He in Hl. by apply not_elem_of_nil in Hl.
    + rewrite Hc in Hin. by apply not_elem_of_nil in Hin.
  - subst dec. unfold CheckEgress. by repeat case_match.
Qed.

(** The counters as [int64] values. *)
Lemma incr_add z k : incr (wrap64 (z + k)) = wrap64 (z + (k + 1)).
Proof.
  unfold incr, wrap64. set (M := 18446744073709551616%Z).
  replace (z + (k + 1) - int64_min)%Z with ((z + k - int64_min) + 1)%Z by lia.
  rewrite <-(Z.add_mod_idemp_l (z + k - int64_min) 1) by (unfold M; lia).
  f_equal. f_equal. lia.
Qed.

Lemma CheckEgress_stats d pr n t ec :
  stats (CheckEgress d pr n t ec).1 =
  let b := Allowed (CheckEgress d pr n t ec).2 in
  let s := stats ec in
  {| totalChecks := incr (totalChecks s);
     denied := if b then denied s else incr (denied s);
     allowed := if b then incr (allowed s) else allowed s |}.
Proof. unfold CheckEgress. by repeat case_match. Qed.

Lemma CheckEgress_tables_eq d pr n t p ec ec' :
  tables_of p ec -> tables_of p ec' ->
  Allowed (CheckEgress d pr n t ec).2 = Allowed (CheckEgress d pr n t ec').2.
Proof.
  intros H H'. apply eq_true_iff_eq.
  by rewrite (CheckEgress_spec _ _ _ _ _ _ H), (CheckEgress_spec _ _ _ _ _ _ H').
Qed.

Definition count (f : bool -> bool) (l : list bool) : Z := Z.of_nat (length (List.filter f l)).

Lemma count_cons f b l : count f (b :: l) = ((if f b then 1 else 0) + count f l)%Z.
Proof. unfold count. cbn. destruct (f b); cbn [length]; lia. Qed.

Lemma run_stats reqs p ec0 ec x y z :
  tables_of p ec0 -> tables_of p ec ->
  let decs := map (fun '(d, pr, n, t) => Allowed (CheckEgress d pr n t ec0).2) reqs in
  Stats ec = (wrap64 x, wrap64 y, wrap64 z) ->
  Stats (run reqs ec) =
    (wrap64 (x + Z.of_nat (length reqs)), wrap64 (y + count id decs), wrap64 (z + count negb decs)).
Proof.
  intros H0. revert ec x y z.
  induction reqs as [|[[[d pr] n] t] reqs IH]; intros ec x y z Ht decs Hst.
  - cbn. rewrite Hst. unfold count. cbn. by rewrite !Z.add_0_r.
  - cbn [run foldl]. fold (run reqs (CheckEgress d pr n t ec).1).
    set (b := Allowed (CheckEgress d pr n t ec0).2) in *.
    assert (Allowed (CheckEgress d pr n t ec).2 = b) as Hb by by apply (CheckEgress_tables_eq _ _ _ _ p).
    rewrite (IH _ (x + 1) (y + if b then 1 else 0) (z + if b then 0 else 1))%Z;
      [| by apply CheckEgress_tables |].
    + subst decs. cbn [map length]. fold b. rewrite !count_cons.
      destruct b; cbn [id negb]; (f_equal; [f_equal|]); f_equal; lia.
    + injection Hst as H1 H2 H3. unfold Stats. rewrite CheckEgress_stats, Hb. cbn -[incr wrap64].
      rewrite <-(Z.add_0_r x), <-(Z.add_0_r y), <-(Z.add_0_r z) in *.
      rewrite H1, H2, H3. destruct b; rewrite ?incr_add, ?Z.add_0_r; done.
Qed.

Lemma count_split l : (count id l + count negb l = Z.of_nat (length l))%Z.
Proof. induction l as [|b l IH]; [done|]. rewrite !count_cons. destruct b; cbn [id negb length]; lia. Qed.

(** The statistics account for every check: after any sequence of
    checks on a new checker, the number of checks is the number of requests
    and the allowed and denied counters are those of the decisions returned,
    so they add up to the total (as int64 counters). *)
Theorem egress_stats pol reqs :
  let ec := NewEgressChecker pol in
  let decs := map (fun '(d, pr, n, t) => Allowed (CheckEgress d pr n t ec).2) reqs in
  let yes := count id decs in
  let no := count negb decs in
  Stats (run reqs ec) = (wrap64 (Z.of_nat (length reqs)), wrap64 yes, wrap64 no) /\
  (yes + no = Z.of_nat (length reqs))%Z.
Proof.
  intros ec decs yes no. split.
  - apply (run_stats reqs (default zero_policy pol) ec ec 0 0 0); done.
  - subst yes no. rewrite count_split. subst decs. by rewrite length_map.
Qed.

End EgressChecker.

(** The allowlist in front of the dispatcher. *)
Module PolicyFirewall.

Section Firewall.
(** [jsonschema.Schema], its compiler and [Schema.Validate]. *)
Context {Schema : Type} (compile : string -> string -> res Schema)
        (schema_validate : Schema -> obj -> res unit).
(** The state of the dispatcher behind the firewall. *)
Context {W : Type}.

Record PolicyFirewall := {
  allowedTools : gmap string bool;
  schema : gmap string Schema;
  next : option (string -> ctx -> M W any);
}.
#[export] Instance PolicyFirewall_eta : Eta PolicyFirewall := fun r => {|
  allowedTools := allowedTools r; schema := schema r; next := next r |}.

Definition NewPolicyFirewall (n : option (string -> ctx -> M W any)) : PolicyFirewall :=
  {| allowedTools := ∅; schema := ∅; next := n |}.

(** [compile name schema] stands for [AddResource] and [Compile] under the
    URL derived from [name]. *)
Definition AllowTool (name sch : string) (f : PolicyFirewall) : PolicyFirewall * res unit :=
  let f := f <| allowedTools := <[name := true]> (allowedTools f) |> in
  if String.eqb sch "" then (f <| schema := delete name (schema f) |>, Ok tt)
  else match compile name sch with
       | Fail e => (f, Fail ("firewall schema compile failed: " +:+ e))
       | Ok c => (f <| schema := <[name := c]> (schema f) |>, Ok tt)
       end.

Definition CallTool (f : PolicyFirewall) (toolName : string) (params : ctx) : M W any :=
  if negb (set_mem (allowedTools f) toolName)
  then fail ("firewall blocked tool " +:+ goq toolName +:+ ": not in allowlist")
  else
    _ ← match schema f !! toolName with
        | None => mret tt
        | Some sch =>
            match params with
            | None => fail ("firewall blocked tool " +:+ goq toolName +:+ ": missing parameters")
            | Some m => lift (wrap_err ("firewall blocked tool " +:+ goq toolName
                                        +:+ ": schema validation failed: ") (schema_validate sch m))
            end
        end;
    match next f with
    | None => fail "firewall dispatcher not configured (fail-closed)"
    | Some dispatch => dispatch toolName params
    end.

(** The parameters satisfy the schema registered for the tool, if any. *)
Definition schema_ok (f : PolicyFirewall) (toolName : string) (params : ctx) : Prop :=
  forall sch, schema f !! toolName = Some sch ->
    exists m, params = Some m /\ schema_validate sch m = Ok tt.

Definition run_allow (l : list (string * string)) (f : PolicyFirewall) : PolicyFirewall :=
  foldl (fun f '(n, s) => (AllowTool n s f).1) f l.

Lemma run_allow_mem l f tool :
  set_mem (allowedTools (run_allow l f)) tool = true <->
  tool ∈ map fst l \/ set_mem (allowedTools f) tool = true.
Proof.
  unfold run_allow. revert f. induction l as [|[n s] l IH]; intros f; cbn [foldl map].
  - set_solver.
  - rewrite IH. assert (allowedTools (AllowTool n s f).1 = <[n := true]> (allowedTools f)) as ->
      by (unfold AllowTool; repeat case_match; done).
    rewrite set_mem_insert, orb_true_iff, bool_decide_eq_true. set_solver.
Qed.

Lemma run_allow_next l f : next (run_allow l f) = next f.
Proof.
  unfold run_allow. revert f. induction l as [|[n s] l IH]; intros f; cbn [foldl]; [done|].
  rewrite IH. unfold AllowTool. by repeat case_match.
Qed.
End Firewall.
Arguments PolicyFirewall : clear implicits.

(** The firewall mediates every call: whatever was registered before, a
    call changes the dispatcher's state or returns a result only by dispatching
    the very same tool and parameters to it, and it dispatches exactly when the
    tool was registered, the parameters satisfy the schema registered for it
    and a dispatcher is configured; otherwise it returns an error and leaves
    the dispatcher untouched. *)
Theorem firewall_mediates {Schema W} compile validate (d : string -> ctx -> M W any) regs tool params w :
  let f := run_allow (Schema := Schema) compile regs (NewPolicyFirewall (Some d)) in
  ((tool ∈ map fst regs /\ schema_ok validate f tool params) /\
     CallTool validate f tool params w = d tool params w) \/
  (~ (tool ∈ map fst regs /\ schema_ok validate f tool params) /\
     exists e, CallTool validate f tool params w = (w, Fail e)).
Proof.
  intros f. pose proof (run_allow_mem compile regs (NewPolicyFirewall (Some d)) tool) as Hm.
  pose proof (run_allow_next compile regs (NewPolicyFirewall (Some d))) as Hn.
  fold f in Hm, Hn. cbn in Hn. unfold CallTool, schema_ok.
  destruct (set_mem (allowedTools f) tool); cbn [negb].
  - destruct Hm as [Hm _]. destruct (Hm eq_refl) as [Hin|Hin]; [|by cbn in Hin].
    destruct (schema f !! tool) as [sch|]; cbn.
    + destruct params as [m|]; cbn.
      * destruct (validate sch m) as [[]|e] eqn:Hv; cbn.
        -- left. rewrite Hn. split; [|done]. split; [done|]. intros ? [= <-]. eauto.
        -- right. split; [|eauto]. intros [_ Hs]. destruct (Hs sch eq_refl) as (m' & [= <-] & Hv').
           congruence.
      * right. split; [|eauto]. intros [_ Hs]. by destruct (Hs sch eq_refl) as (m' & ? & _).
    + left. rewrite Hn. done.
  - right. split; [|eauto]. intros [Hin _]. destruct Hm as [_ Hm]. discriminate Hm. by left.
Qed.

(** A registration that is refused because its schema does not compile
    still opens the tool: [AllowTool] returns the error after it has put the
    tool on the allowlist, and a tool registered for the first time that way
    is dispatched with any parameters whatsoever. *)
Theorem refused_schema_opens_tool {Schema W} compile validate (d : string -> ctx -> M W any) tool sch e params w :
  sch <> "" -> compile tool sch = Fail e ->
  let '(f, r) := AllowTool (Schema := Schema) compile tool sch (NewPolicyFirewall (Some d)) in
  is_ok r = false /\ CallTool validate f tool params w = d tool params w.
Proof.
  intros Hs%String.eqb_neq Hc. unfold AllowTool. rewrite Hs, Hc. split; [done|].
  unfold CallTool. cbn. by rewrite set_mem_insert, bool_decide_true.
Qed.

Lemma refused_schema_opens_tool_witness :
  let d : string -> ctx -> M nat any := fun t p n => (S n, Ok (AString t)) in
  let compile : string -> string -> res unit := fun _ s =>
    if String.eqb s "{" then Fail "unexpected EOF" else Ok tt in
  let f := (AllowTool compile "rm" "{" (NewPolicyFirewall (Some d))).1 in
  CallTool (fun _ _ => Fail "no") f "rm" None 0 = (1, Ok (AString "rm")).
Proof.
  exact (proj2 (refused_schema_opens_tool
    (fun _ s => if String.eqb s "{" then Fail "unexpected EOF" else Ok tt)
    (fun _ _ => Fail "no") (fun t p n => (S n, Ok (AString t))) "rm" "{" "unexpected EOF" None 0
    ltac:(discriminate) eq_refl)).
Defined.

End PolicyFirewall.
