(* ===== verification/Temporal.v ===== *)
(** The temporal guardian, [core/pkg/guardian/temporal.go]: a sliding window
    over effect timestamps and a graded response that escalates on a sustained
    rate and de-escalates after a cooldown.

    The clock is an input: [Evaluate] reads it four times (the timestamp of the
    effect, the pruning of [Record], the pruning of [Rate] and [now]) and takes
    the four readings as one argument. *)
From Stdlib Require Import SpecFloat Sorted.
From S2P Require Import Prelude GoLib GoFmt.

Local Open Scope Z_scope.

(** [ResponseLevel] is a Go [int]. *)
Abbreviation ResponseLevel := Z.
Definition ResponseObserve : ResponseLevel := 0.
Definition ResponseThrottle : ResponseLevel := 1.
Definition ResponseInterrupt : ResponseLevel := 2.
Definition ResponseQuarantine : ResponseLevel := 3.
Definition ResponseFailClosed : ResponseLevel := 4.

Definition level_string (r : ResponseLevel) : string :=
  if r =? ResponseObserve then "OBSERVE"
  else if r =? ResponseThrottle then "THROTTLE"
  else if r =? ResponseInterrupt then "INTERRUPT"
  else if r =? ResponseQuarantine then "QUARANTINE"
  else if r =? ResponseFailClosed then "FAIL_CLOSED"
  else "UNKNOWN(" +:+ dec r +:+ ")".

Record GradedResponse := {
  Level : ResponseLevel;
  Reason : string;
  Duration : duration;
  AllowEffect : bool;
  WindowRate : float64;
}.

Record EscalationThreshold := {
  t_Level : ResponseLevel;
  MaxRate : float64;
  SustainedFor : duration;
  CooldownAfter : duration;
}.

Record EscalationPolicy := {
  Thresholds : list EscalationThreshold;
  WindowSize : duration;
}.

Definition DefaultEscalationPolicy : EscalationPolicy := {|
  WindowSize := 60 * second;
  Thresholds := [
    {| t_Level := ResponseThrottle; MaxRate := of_int 10; SustainedFor := 5 * second; CooldownAfter := 30 * second |};
    {| t_Level := ResponseInterrupt; MaxRate := of_int 50; SustainedFor := 3 * second; CooldownAfter := 60 * second |};
    {| t_Level := ResponseQuarantine; MaxRate := of_int 100; SustainedFor := 2 * second; CooldownAfter := 120 * second |};
    {| t_Level := ResponseFailClosed; MaxRate := of_int 200; SustainedFor := 1 * second; CooldownAfter := 300 * second |}] |}.

(** * The sliding window *)

Record ControllabilityEnvelope := {
  events : list time;
  window : duration;
}.
#[export] Instance ControllabilityEnvelope_eta : Eta ControllabilityEnvelope := fun r =>
  {| events := events r; window := window r |}.

Definition NewControllabilityEnvelope (w : duration) : ControllabilityEnvelope :=
  {| events := []; window := w |}.

Fixpoint drop_before (cutoff : time) (l : list time) : list time :=
  match l with
  | t :: l' => if before t cutoff then drop_before cutoff l' else l
  | [] => []
  end.

Definition prune (now : time) (e : ControllabilityEnvelope) : ControllabilityEnvelope :=
  let cutoff := time_add now (wrap64 (- window e)) in
  e <| events := drop_before cutoff (events e) |>.

Definition Record_ (ts now : time) (e : ControllabilityEnvelope) : ControllabilityEnvelope :=
  prune now (e <| events := (events e ++ [ts])%list |>).

Definition Rate (now : time) (e : ControllabilityEnvelope) : ControllabilityEnvelope * float64 :=
  let e := prune now e in
  match events e with
  | [] => (e, of_int 0)
  | _ =>
      let windowSecs := Seconds (window e) in
      if fle windowSecs (of_int 0) then (e, of_int 0)
      else (e, fdiv (of_int (Z.of_nat (length (events e)))) windowSecs)
  end.

Definition Count (now : time) (e : ControllabilityEnvelope) : ControllabilityEnvelope * Z :=
  let e := prune now e in (e, Z.of_nat (length (events e))).

(** * The graded response *)

Record TemporalGuardian := {
  envelope : ControllabilityEnvelope;
  policy : EscalationPolicy;
  currentLevel : ResponseLevel;
  levelSince : time;
  sustainStart : gmap Z time;
}.
#[export] Instance TemporalGuardian_eta : Eta TemporalGuardian := fun r => {|
  envelope := envelope r; policy := policy r; currentLevel := currentLevel r;
  levelSince := levelSince r; sustainStart := sustainStart r |}.

Definition NewTemporalGuardian (p : EscalationPolicy) (now : time) : TemporalGuardian :=
  {| envelope := NewControllabilityEnvelope (WindowSize p); policy := p;
     currentLevel := ResponseObserve; levelSince := now; sustainStart := ∅ |}.

(** One iteration of the loop of [checkEscalation]. *)
Definition escalation_step (rate : float64) (now : time) (tg : TemporalGuardian) (t : EscalationThreshold)
    : TemporalGuardian :=
  if t_Level t <=? currentLevel tg then tg
  else if fle (MaxRate t) rate then
    match sustainStart tg !! t_Level t with
    | None => tg <| sustainStart := <[t_Level t := now]> (sustainStart tg) |>
    | Some start =>
        if SustainedFor t <=? time_sub now start
        then tg <| currentLevel := t_Level t |> <| levelSince := now |>
                <| sustainStart := filter (fun kv => t_Level t < kv.1) (sustainStart tg) |>
        else tg
    end
  else tg <| sustainStart := delete (t_Level t) (sustainStart tg) |>.

Definition checkEscalation (rate : float64) (now : time) (tg : TemporalGuardian) : TemporalGuardian :=
  foldl (escalation_step rate now) tg (Thresholds (policy tg)).

Definition previousLevel (level : ResponseLevel) : ResponseLevel :=
  if level <=? ResponseObserve then ResponseObserve else level - 1.

Definition checkDeescalation (rate : float64) (now : time) (tg : TemporalGuardian) : TemporalGuardian :=
  if currentLevel tg =? ResponseObserve then tg
  else match List.find (fun t => t_Level t =? currentLevel tg) (Thresholds (policy tg)) with
       | None => tg
       | Some t =>
           if flt rate (MaxRate t) && (CooldownAfter t <=? time_sub now (levelSince tg))
           then tg <| currentLevel := previousLevel (t_Level t) |> <| levelSince := now |>
                   <| sustainStart := filter (fun kv => kv.1 < t_Level t) (sustainStart tg) |>
           else tg
       end.

Definition reason (tg : TemporalGuardian) (rate : float64) : string :=
  let r := fmt_fixed 1 rate in
  let l := currentLevel tg in
  (if l =? ResponseObserve then "Normal operation (" +:+ r +:+ " effects/s)"
   else if l =? ResponseThrottle then "Rate limiting active (" +:+ r +:+ " effects/s exceeds threshold)"
   else if l =? ResponseInterrupt
   then "Action paused — operator acknowledgment required (" +:+ r +:+ " effects/s)"
   else if l =? ResponseQuarantine
   then "Agent quarantined — all effects blocked pending review (" +:+ r +:+ " effects/s)"
   else if l =? ResponseFailClosed
   then "EMERGENCY HALT — fail-closed activated (" +:+ r +:+ " effects/s)"
   else "Unknown level " +:+ dec l +:+ " (" +:+ r +:+ " effects/s)").

Definition holdDuration (tg : TemporalGuardian) : duration :=
  let l := currentLevel tg in
  if l =? ResponseThrottle then 1 * second
  else if l =? ResponseInterrupt then 30 * second
  else if l =? ResponseQuarantine then 120 * second
  else if l =? ResponseFailClosed then 300 * second
  else 0.

(** The four clock readings of one [Evaluate]. *)
Record readings := { at_event : time; at_record : time; at_rate : time; at_now : time }.

(** The response level after one observed rate: de-escalation, then escalation. *)
Definition regulate (rate : float64) (now : time) (tg : TemporalGuardian) : TemporalGuardian :=
  checkEscalation rate now (checkDeescalation rate now tg).

Definition Evaluate (r : readings) (tg : TemporalGuardian) : TemporalGuardian * GradedResponse :=
  let '(env, rate) := Rate (at_rate r) (Record_ (at_event r) (at_record r) (envelope tg)) in
  let tg := regulate rate (at_now r) (tg <| envelope := env |>) in
  (tg, {| Level := currentLevel tg; Reason := reason tg rate; Duration := holdDuration tg;
          AllowEffect := currentLevel tg <=? ResponseThrottle; WindowRate := rate |}).

(** A history of evaluations, with what each observed: the rate and [now]. *)
Definition observe (st : TemporalGuardian * list (float64 * time)) (r : readings)
    : TemporalGuardian * list (float64 * time) :=
  let '(tg, resp) := Evaluate r st.1 in (tg, (st.2 ++ [(WindowRate resp, at_now r)])%list).

Definition run (rs : list readings) (st : TemporalGuardian * list (float64 * time))
    : TemporalGuardian * list (float64 * time) := foldl observe st rs.

(** * Comparisons of doubles *)

Lemma SFcompare_antisym x y : SFcompare y x = CompOpp <$> SFcompare x y.
Proof.
  destruct x as [[]|[]| |[] m e], y as [[]|[]| |[] m' e']; try done; cbn;
    rewrite (Z.compare_antisym e' e); destruct (e' ?= e) eqn:He; cbn; try done;
    change (Pos.compare_cont Eq m m') with (Pos.compare m m');
    change (Pos.compare_cont Eq m' m) with (Pos.compare m' m);
    rewrite (Pos.compare_antisym m' m); by destruct (m' ?= m)%positive.
Qed.

Lemma fle_not_flt m r : fle m r = true -> flt r m = false.
Proof.
  unfold fle, flt, SFleb, SFltb. rewrite (SFcompare_antisym m r).
  by destruct (SFcompare m r) as [[]|].
Qed.

(** The finite comparison is lexicographic on (sign, exponent, mantissa). *)
Lemma fle_trans x y z : fle x y = true -> fle y z = true -> fle x z = true.
Proof.
  unfold fle, SFleb.
  destruct x as [[]|[]| |[] m e], y as [[]|[]| |[] m' e'], z as [[]|[]| |[] m'' e''];
    try done; cbn;
    change (Pos.compare_cont Eq) with Pos.compare;
    repeat match goal with |- context [(?a ?= ?b)%Z] => destruct (Z.compare_spec a b) end;
    repeat match goal with |- context [(?a ?= ?b)%positive] => destruct (Pos.compare_spec a b) end;
    cbn; try done; lia.
Qed.

(** * The escalation ladder *)

(** The observations from the one at instant [s] to the last all reach the
    rate of [t]. *)
Definition held (t : EscalationThreshold) (s : time) (h : list (float64 * time)) : Prop :=
  exists h1 x h2, h = (h1 ++ x :: h2)%list /\ x.2 = s /\
    Forall (fun y => fle (MaxRate t) y.1 = true) (x :: h2).

Lemma held_snoc t s h rate now :
  held t s h -> fle (MaxRate t) rate = true -> held t s (h ++ [(rate, now)]).
Proof.
  intros (h1 & x & h2 & -> & Hx & Hf) Hr. exists h1, x, (h2 ++ [(rate, now)])%list.
  rewrite <-app_assoc. split; [done|]. split; [done|].
  change (x :: h2 ++ [(rate, now)])%list with ((x :: h2) ++ [(rate, now)])%list.
  apply Forall_app. auto.
Qed.

Lemma held_new t h rate now : fle (MaxRate t) rate = true -> held t now (h ++ [(rate, now)]).
Proof. intros Hr. exists h, (rate, now), []. auto. Qed.

(** One threshold per level, with rates that grow with the level. *)
Definition levels_distinct (p : EscalationPolicy) : Prop := NoDup (map t_Level (Thresholds p)).
Definition rates_ascending (p : EscalationPolicy) : Prop :=
  forall t u, t ∈ Thresholds p -> u ∈ Thresholds p -> t_Level t < t_Level u ->
    fle (MaxRate t) (MaxRate u) = true.

Lemma level_unique p t u : levels_distinct p ->
  t ∈ Thresholds p -> u ∈ Thresholds p -> t_Level t = t_Level u -> t = u.
Proof.
  unfold levels_distinct. intros Hnd Ht Hu He.
  apply list_elem_of_lookup in Ht as [i Hi]. apply list_elem_of_lookup in Hu as [j Hj].
  assert (i = j) as ->.
  { eapply NoDup_lookup; [exact Hnd| |]; rewrite list_lookup_fmap; [by rewrite Hi|].
    rewrite Hj. cbn. by rewrite He. }
  congruence.
Qed.

Section Ladder.
Context (p : EscalationPolicy) (Hnd : levels_distinct p).

(** Between observations: every running sustain timer belongs to a higher
    level whose rate has been reached at every observation since it started. *)
Definition timers_ok (tg : TemporalGuardian) (h : list (float64 * time)) : Prop :=
  policy tg = p /\
  forall l s, sustainStart tg !! l = Some s -> currentLevel tg < l /\
    exists t, t ∈ Thresholds p /\ t_Level t = l /\ held t s h.

(** Within the loop of [checkEscalation], with [todo] the thresholds still to
    be visited. *)
Definition timers_mid (todo : list EscalationThreshold) (tg : TemporalGuardian)
    (h : list (float64 * time)) (rate : float64) (now : time) : Prop :=
  policy tg = p /\
  forall l s, sustainStart tg !! l = Some s -> currentLevel tg < l /\
    exists t, t ∈ Thresholds p /\ t_Level t = l /\
      (t ∈ todo /\ held t s h \/ held t s (h ++ [(rate, now)])).

(** The level is the old one, or a threshold sustained long enough. *)
Definition justified (l0 : ResponseLevel) (tg : TemporalGuardian) (h : list (float64 * time))
    (rate : float64) (now : time) : Prop :=
  currentLevel tg = l0 \/
  exists t s, t ∈ Thresholds p /\ t_Level t = currentLevel tg /\
    held t s (h ++ [(rate, now)]) /\ SustainedFor t <= time_sub now s.

Lemma escalation_step_mid t todo tg h rate now l0 :
  t ∈ Thresholds p -> timers_mid (t :: todo) tg h rate now -> justified l0 tg h rate now ->
  let tg' := escalation_step rate now tg t in
  timers_mid todo tg' h rate now /\ justified l0 tg' h rate now.
Proof.
  intros Ht [Hp Hm] Hj. unfold escalation_step.
  (* a timer of another level is not affected by visiting [t] *)
  assert (forall l s, sustainStart tg !! l = Some s -> l <> t_Level t -> currentLevel tg < l /\
    exists u, u ∈ Thresholds p /\ t_Level u = l /\
      (u ∈ todo /\ held u s h \/ held u s (h ++ [(rate, now)]))) as Hother.
  { intros l s Hl Hne. destruct (Hm l s Hl) as (Hc & u & Hu & Hul & Hd). split; [done|].
    exists u. split; [done|]. split; [done|]. destruct Hd as [[Hin Hh]|Hh]; [|by right].
    apply elem_of_cons in Hin as [->|Hin]; [done|]. by left. }
  destruct (Z.leb_spec (t_Level t) (currentLevel tg)).
  { split; [|done]. split; [done|]. intros l s Hl. apply Hother; [done|].
    destruct (Hm l s Hl). lia. }
  destruct (fle (MaxRate t) rate) eqn:Hr.
  - destruct (sustainStart tg !! t_Level t) as [start|] eqn:Hs.
    + destruct (Hm _ _ Hs) as (_ & u & Hu & Hul & Hd).
      assert (u = t) as -> by (by eapply level_unique).
      assert (held t start (h ++ [(rate, now)])) as Hh.
      { destruct Hd as [[_ Hd]|Hd]; [by apply held_snoc|done]. }
      destruct (Z.leb_spec (SustainedFor t) (time_sub now start)).
      * split.
        -- split; [done|]. cbn. intros l s [Hl Hgt]%map_lookup_filter_Some. cbn in Hgt.
           split; [done|]. apply Hother; [done|lia].
        -- right. exists t, start. done.
      * split; [|done]. split; [done|]. intros l s Hl.
        destruct (decide (l = t_Level t)) as [->|Hne]; [|by apply Hother].
        split; [lia|]. exists t. rewrite Hs in Hl. injection Hl as <-. auto.
    + split; [|done]. split; [done|]. cbn. intros l s Hl.
      destruct (decide (l = t_Level t)) as [->|Hne].
      * rewrite lookup_insert_eq in Hl. injection Hl as <-. split; [lia|].
        exists t. split; [done|]. split; [done|]. right. by apply held_new.
      * rewrite lookup_insert_ne in Hl by done. by apply Hother.
  - split; [|done]. split; [done|]. cbn. intros l s [Hne Hl]%lookup_delete_Some. by apply Hother.
Qed.

Lemma checkEscalation_ok tg h rate now :
  timers_ok tg h ->
  timers_ok (checkEscalation rate now tg) (h ++ [(rate, now)]) /\
  justified (currentLevel tg) (checkEscalation rate now tg) h rate now.
Proof.
  intros [Hp Ht]. unfold checkEscalation. rewrite Hp.
  assert (timers_mid (Thresholds p) tg h rate now) as Hm.
  { split; [done|]. intros l s Hl. destruct (Ht l s Hl) as (?&t&?&?&?). eauto 8. }
  assert (justified (currentLevel tg) tg h rate now) as Hj by by left.
  assert (forall l tg l0, l ⊆ Thresholds p -> timers_mid l tg h rate now -> justified l0 tg h rate now ->
    let tg' := foldl (escalation_step rate now) tg l in
    timers_mid [] tg' h rate now /\ justified l0 tg' h rate now) as Hloop.
  { clear -Hnd. intros l. induction l as [|t l IH]; intros tg l0 Hsub Hm Hj; [done|]. cbn [foldl].
    destruct (escalation_step_mid t l tg h rate now l0) as [Hm' Hj']; [set_solver|done|done|].
    apply IH; [set_solver|done|done]. }
  destruct (Hloop _ _ _ (reflexivity _) Hm Hj) as [[Hp' Hm'] Hj']. split; [|done].
  split; [done|]. intros l s Hl. destruct (Hm' l s Hl) as (?&t&?&?&[[Hin _]|?]); [|eauto 8].
  by apply not_elem_of_nil in Hin.
Qed.

Lemma checkDeescalation_ok tg h rate now :
  timers_ok tg h -> timers_ok (checkDeescalation rate now tg) h.
Proof.
  intros [Hp Ht]. unfold checkDeescalation. rewrite Hp.
  destruct (currentLevel tg =? _); [done|].
  destruct (List.find _ _) as [t|] eqn:Hf; [|done].
  apply find_some in Hf as [_ Hl%Z.eqb_eq].
  destruct (_ && _); [|done]. split; [done|]. cbn.
  intros l s [Hs Hlt]%map_lookup_filter_Some. cbn in Hlt. destruct (Ht _ _ Hs). lia.
Qed.

Lemma Evaluate_ok r tg h tg' resp :
  timers_ok tg h -> Evaluate r tg = (tg', resp) ->
  timers_ok tg' (h ++ [(WindowRate resp, at_now r)]).
Proof.
  unfold Evaluate. intros Ht. destruct (Rate _ _) as [env rate]. intros [= <- <-].
  apply checkEscalation_ok, checkDeescalation_ok. exact Ht.
Qed.

Lemma run_ok rs tg h : timers_ok tg h -> timers_ok (run rs (tg, h)).1 (run rs (tg, h)).2.
Proof.
  revert tg h. induction rs as [|r rs IH]; intros tg h Ht; [done|].
  cbn [run foldl]. unfold observe at 2 4. cbn [fst snd].
  destruct (Evaluate r tg) as [tg' resp] eqn:He. apply IH. by eapply Evaluate_ok.
Qed.

Lemma New_ok now : timers_ok (NewTemporalGuardian p now) [].
Proof. split; [done|]. intros l s. cbn. by rewrite lookup_empty. Qed.
End Ladder.

Lemma escalation_policy l rate now tg : policy (foldl (escalation_step rate now) tg l) = policy tg.
Proof.
  revert tg. induction l as [|u l IH]; intros tg; [done|]. cbn. rewrite IH.
  unfold escalation_step. by repeat case_match.
Qed.

Lemma deescalation_policy rate now tg : policy (checkDeescalation rate now tg) = policy tg.
Proof. unfold checkDeescalation. by repeat case_match. Qed.

Lemma escalation_up l rate now tg :
  currentLevel tg <= currentLevel (foldl (escalation_step rate now) tg l).
Proof.
  revert tg. induction l as [|u l IH]; intros tg; [cbn; lia|]. cbn. etrans; [|apply IH].
  unfold escalation_step. repeat case_match; cbn; lia.
Qed.

Lemma run_history rs tg h :
  run rs (tg, h) = ((run rs (tg, [])).1, (h ++ (run rs (tg, [])).2)%list).
Proof.
  revert tg h. induction rs as [|r rs IH]; intros tg h; [by rewrite app_nil_r|].
  cbn [run foldl]. unfold observe at 2 4 6. cbn [fst snd].
  destruct (Evaluate r tg) as [tg' resp]. fold (run rs).
  change (foldl observe ?a rs) with (run rs a). rewrite (IH tg' (h ++ _)%list), (IH tg' ([] ++ _)%list).
  cbn [fst snd app]. by rewrite <-app_assoc.
Qed.

Lemma run_cons r rs tg :
  run (r :: rs) (tg, []) =
  let '(tg', resp) := Evaluate r tg in
  ((run rs (tg', [])).1, (WindowRate resp, at_now r) :: (run rs (tg', [])).2).
Proof.
  cbn [run foldl]. unfold observe at 2. cbn [fst snd]. destruct (Evaluate r tg) as [tg' resp].
  change (foldl observe ?a rs) with (run rs a). by rewrite run_history.
Qed.

Section Overload.
Context (p : EscalationPolicy) (Hnd : levels_distinct p) (Hasc : rates_ascending p).
Context (t : EscalationThreshold) (Ht : t ∈ Thresholds p).

(** The level is reached, or its timer reads [x]. *)
Definition armed (x : option time) (tg : TemporalGuardian) : Prop :=
  t_Level t <= currentLevel tg \/ sustainStart tg !! t_Level t = x.

Lemma escalation_step_other u tg rate now x :
  t_Level u <> t_Level t -> armed x tg -> armed x (escalation_step rate now tg u).
Proof.
  unfold armed, escalation_step. intros Hne Ha.
  destruct (Z.leb_spec (t_Level u) (currentLevel tg)); [done|].
  destruct (fle _ _); [destruct (sustainStart tg !! t_Level u); [case_match|]|]; cbn; try done.
  - destruct (decide (t_Level t <= t_Level u)); [by left|].
    destruct Ha as [Ha|Ha]; [lia|]. right. rewrite map_lookup_filter, Ha.
    destruct x as [s|]; cbn; [|done]. rewrite option_guard_True by (cbn; lia). done.
  - rewrite lookup_insert_ne by done. done.
  - rewrite lookup_delete_ne by done. done.
Qed.

Lemma fold_other l tg rate now x :
  Forall (fun u => t_Level u <> t_Level t) l -> armed x tg ->
  armed x (foldl (escalation_step rate now) tg l).
Proof.
  intros Hl. revert tg. induction Hl as [|u l Hu Hl IH]; intros tg Ha; [done|].
  cbn. apply IH. by apply escalation_step_other.
Qed.

(** Visiting the threshold itself with a sufficient rate. *)
Definition next_timer (now : time) (x : option time) : option time := Some (default now x).

Lemma escalation_step_self tg rate now x :
  fle (MaxRate t) rate = true -> armed x tg ->
  let tg' := escalation_step rate now tg t in
  armed (next_timer now x) tg' /\
  (forall s, x = Some s -> SustainedFor t <= time_sub now s -> t_Level t <= currentLevel tg').
Proof.
  unfold armed, escalation_step. intros Hr Ha. rewrite Hr.
  destruct (Z.leb_spec (t_Level t) (currentLevel tg)); [split; [by left|done]|].
  destruct Ha as [Ha|Ha]; [lia|]. rewrite Ha. destruct x as [s|]; cbn.
  - destruct (Z.leb_spec (SustainedFor t) (time_sub now s)); cbn.
    + split; [by left|]. intros; lia.
    + split; [by right|].
      intros ? [= <-]. lia.
  - split; [|done]. right. by rewrite lookup_insert_eq.
Qed.

Lemma checkEscalation_overload tg rate now x :
  policy tg = p -> fle (MaxRate t) rate = true -> armed x tg ->
  let tg' := checkEscalation rate now tg in
  armed (next_timer now x) tg' /\
  (forall s, x = Some s -> SustainedFor t <= time_sub now s -> t_Level t <= currentLevel tg').
Proof using Hnd Ht.
  intros Hp Hr Ha. unfold checkEscalation. rewrite Hp.
  apply list_elem_of_split in Ht as (l1 & l2 & Hl).
  assert (Forall (fun u => t_Level u <> t_Level t) (l1 ++ l2)) as [Hl1 Hl2]%Forall_app.
  { unfold levels_distinct in Hnd. rewrite Hl, map_app in Hnd. cbn in Hnd.
    apply NoDup_app in Hnd as (_ & H12 & [H2 _]%NoDup_cons).
    apply Forall_app; split; apply Forall_forall; intros u Hu He.
    - apply (H12 (t_Level u)); [by apply list_elem_of_fmap_2|]. rewrite He. apply list_elem_of_here.
    - apply H2. rewrite <-He. by apply list_elem_of_fmap_2. }
  rewrite Hl, foldl_app. cbn [foldl].
  destruct (escalation_step_self (foldl (escalation_step rate now) tg l1) rate now x Hr) as [H1 H2];
    [by apply fold_other|].
  split; [by apply fold_other|]. intros s Hs Hd.
  etrans; [by eapply H2|]. apply escalation_up.
Qed.

(** At the rate of [t] the ladder never comes down below [t]'s level. *)
Lemma checkDeescalation_overload tg rate now x :
  policy tg = p -> fle (MaxRate t) rate = true -> armed x tg ->
  armed x (checkDeescalation rate now tg).
Proof using Hnd Hasc Ht.
  intros Hp Hr Ha. unfold checkDeescalation. rewrite Hp.
  destruct (currentLevel tg =? _); [done|].
  destruct (List.find _ _) as [u|] eqn:Hf; [|done].
  apply find_some in Hf as [Hu Hl%Z.eqb_eq]. rewrite <-list_elem_of_In in Hu.
  destruct (flt rate (MaxRate u)) eqn:Hlt; cbn [andb]; [|done]. case_match; [|done].
  assert (t_Level t < t_Level u) as Htu.
  { apply Z.nle_gt. intros Hle. assert (fle (MaxRate u) rate = true) as Hur.
    { destruct (Z.eq_dec (t_Level u) (t_Level t)) as [He|Hne].
      - by rewrite (level_unique p u t).
      - eapply fle_trans; [|exact Hr]. apply Hasc; [done|done|lia]. }
    apply fle_not_flt in Hur. congruence. }
  left. cbn. unfold previousLevel, ResponseObserve.
  destruct Ha as [Ha|Ha]; case_match; lia.
Qed.

Lemma Evaluate_overload r tg x :
  policy tg = p -> armed x tg ->
  let '(tg', resp) := Evaluate r tg in
  policy tg' = p /\
  (fle (MaxRate t) (WindowRate resp) = true ->
   armed (next_timer (at_now r) x) tg' /\
   (forall s, x = Some s -> SustainedFor t <= time_sub (at_now r) s -> t_Level t <= currentLevel tg')).
Proof using Hnd Hasc Ht.
  intros Hp Ha. unfold Evaluate. destruct (Rate _ _) as [env rate]. cbn [WindowRate].
  unfold regulate. split.
  { unfold checkEscalation. by rewrite escalation_policy, deescalation_policy. }
  intros Hr. apply checkEscalation_overload; [by rewrite deescalation_policy|done|].
  by apply checkDeescalation_overload.
Qed.

(** A timer once started keeps running through observations at the rate. *)
Lemma run_overload rs tg s :
  policy tg = p -> armed (Some s) tg ->
  Forall (fun y => fle (MaxRate t) y.1 = true) (run rs (tg, [])).2 ->
  policy (run rs (tg, [])).1 = p /\ armed (Some s) (run rs (tg, [])).1.
Proof using Hnd Hasc Ht.
  revert tg. induction rs as [|r rs IH]; intros tg Hp Ha; [done|].
  pose proof (Evaluate_overload r tg (Some s) Hp Ha) as He.
  rewrite run_cons. destruct (Evaluate r tg) as [tg' resp]. destruct He as [Hp' He].
  cbn [fst snd]. intros [Hr Hf]%Forall_cons. apply IH; [done|by apply He|done].
Qed.
End Overload.

Lemma regulate_nonneg rate now tg : 0 <= currentLevel tg -> 0 <= currentLevel (regulate rate now tg).
Proof.
  intros Hge. unfold regulate, checkEscalation. etrans; [|apply escalation_up].
  unfold checkDeescalation. repeat case_match; cbn; try done.
  unfold previousLevel, ResponseObserve. case_match; lia.
Qed.

Lemma run_nonneg rs tg h : 0 <= currentLevel tg -> 0 <= currentLevel (run rs (tg, h)).1.
Proof.
  rewrite run_history. cbn [fst]. revert tg. induction rs as [|r rs IH]; intros tg Hge; [done|].
  rewrite run_cons. destruct (Evaluate r tg) as [tg' resp] eqn:He. apply IH. revert He.
  unfold Evaluate. destruct (Rate _ _). intros [= <- _]. by apply regulate_nonneg.
Qed.

(** No premature escalation: whenever an evaluation of a new temporal
    guardian raises the response level, the new level is that of a configured
    threshold whose rate was reached at every evaluation of an uninterrupted
    stretch ending with this one, and the stretch lasted at least the
    threshold's sustain period. *)
Theorem temporal_escalation_sustained p t0 rs r :
  levels_distinct p ->
  let st := run rs (NewTemporalGuardian p t0, []) in
  let resp := (Evaluate r st.1).2 in
  currentLevel st.1 < Level resp ->
  exists t s, t ∈ Thresholds p /\ t_Level t = Level resp /\
    held t s (st.2 ++ [(WindowRate resp, at_now r)]) /\ SustainedFor t <= time_sub (at_now r) s.
Proof.
  intros Hnd st resp. subst st resp. pose proof (run_ok p Hnd rs _ _ (New_ok p t0)) as Hok.
  pose proof (run_nonneg rs (NewTemporalGuardian p t0) [] ltac:(done)) as Hge.
  destruct (run rs _) as [tg h]. cbn [fst snd] in *. unfold Evaluate.
  destruct (Rate _ _) as [env rate]. cbn [snd Level WindowRate]. intros Hlt.
  assert (timers_ok p (tg <| envelope := env |>) h) as Hok' by exact Hok.
  apply (checkDeescalation_ok p _ _ rate (at_now r)) in Hok'.
  destruct (checkEscalation_ok p Hnd _ _ rate (at_now r) Hok') as [_ [Hj|Hj]]; [|exact Hj].
  exfalso. unfold regulate in Hlt. rewrite Hj in Hlt. revert Hlt.
  unfold checkDeescalation. change (currentLevel (tg <| envelope := env |>)) with (currentLevel tg).
  destruct (currentLevel tg =? _); [cbn; lia|].
  destruct (List.find _ _) as [t|] eqn:Hf; [|cbn; lia]. apply find_some in Hf as [Hin Hl%Z.eqb_eq].
  destruct (_ && _); cbn; [|lia]. unfold previousLevel, ResponseObserve. rewrite Hl.
  case_match; lia.
Qed.

(** Four equal readings. *)
Definition at_ (t : time) : readings := {| at_event := t; at_record := t; at_rate := t; at_now := t |}.

Definition small_policy : EscalationPolicy := {|
  WindowSize := second;
  Thresholds := [{| t_Level := ResponseThrottle; MaxRate := of_int 2; SustainedFor := second; CooldownAfter := 30 * second |};
                 {| t_Level := ResponseInterrupt; MaxRate := of_int 3; SustainedFor := second; CooldownAfter := 60 * second |}] |}.

Definition half : time := 500000000.

Lemma small_policy_distinct : levels_distinct small_policy.
Proof. unfold levels_distinct. cbn. repeat constructor; set_solver. Qed.

Lemma small_policy_ascending : rates_ascending small_policy.
Proof.
  intros t u Ht Hu. repeat (apply elem_of_cons in Ht as [->|Ht]); [| |by apply not_elem_of_nil in Ht];
    (repeat (apply elem_of_cons in Hu as [->|Hu]); [| |by apply not_elem_of_nil in Hu]); cbn; done.
Qed.

Lemma temporal_escalation_sustained_witness :
  let st := run (map at_ [0; half]) (NewTemporalGuardian small_policy 0, []) in
  let resp := (Evaluate (at_ (second + half)) st.1).2 in
  Level resp = ResponseThrottle /\
  exists t s, t ∈ Thresholds small_policy /\ t_Level t = Level resp /\
    held t s (st.2 ++ [(WindowRate resp, second + half)]) /\ SustainedFor t <= time_sub (second + half) s.
Proof.
  intros st resp. split; [vm_compute; reflexivity|].
  exact (temporal_escalation_sustained small_policy 0 (map at_ [0; half]) (at_ (second + half))
    small_policy_distinct ltac:(vm_compute; reflexivity)).
Defined.

(** A sustained overload is always caught: for a policy with one
    threshold per level and rates that grow with the level, once the observed
    rate has reached a threshold at every evaluation of a stretch that lasts
    the threshold's sustain period, the response level is at least that
    threshold's, whatever happened before; so from INTERRUPT on the effect is
    refused. *)
Theorem temporal_overload_caught p t0 t pre r1 mid r2 :
  levels_distinct p -> rates_ascending p -> t ∈ Thresholds p ->
  let st0 := run pre (NewTemporalGuardian p t0, []) in
  let st1 := run (r1 :: mid) (st0.1, []) in
  let resp := (Evaluate r2 st1.1).2 in
  Forall (fun y => y.2 <= at_now r1) st0.2 ->
  Forall (fun y => fle (MaxRate t) y.1 = true) (st1.2 ++ [(WindowRate resp, at_now r2)]) ->
  SustainedFor t <= time_sub (at_now r2) (at_now r1) ->
  t_Level t <= Level resp /\ (ResponseInterrupt <= t_Level t -> AllowEffect resp = false).
Proof.
  intros Hnd Hasc Ht st0 st1 resp. subst st1 resp.
  assert (timers_ok p st0.1 st0.2) as [Hp0 Htm] by (by apply run_ok, New_ok).
  destruct st0 as [tg0 h0]. cbn [fst snd] in *.
  pose proof (Evaluate_overload p Hnd Hasc t Ht r1 tg0 (sustainStart tg0 !! t_Level t) Hp0
    ltac:(by right)) as He1.
  rewrite run_cons. destruct (Evaluate r1 tg0) as [tg1 resp1]. destruct He1 as [Hp1 He1].
  set (s := default (at_now r1) (sustainStart tg0 !! t_Level t)).
  pose proof (run_overload p Hnd Hasc t Ht mid tg1 s Hp1) as Hmid.
  destruct (run mid (tg1, [])) as [tg2 h2]. cbn [fst snd] in *.
  intros Hmono [[Hr1 Hh2]%Forall_cons [Hr2 _]%Forall_cons]%Forall_app Hd. cbn [fst] in *.
  destruct (Hmid (proj1 (He1 Hr1)) Hh2) as [Hp2 Ha2].
  pose proof (Evaluate_overload p Hnd Hasc t Ht r2 tg2 (Some s) Hp2 Ha2) as He2.
  assert (Level (Evaluate r2 tg2).2 = currentLevel (Evaluate r2 tg2).1 /\
    AllowEffect (Evaluate r2 tg2).2 = (currentLevel (Evaluate r2 tg2).1 <=? ResponseThrottle)) as [HL HA]
    by (unfold Evaluate; by destruct (Rate _ _)).
  destruct (Evaluate r2 tg2) as [tg3 resp]. cbn [fst snd] in *. destruct He2 as [_ He2].
  assert (s <= at_now r1) as Hs.
  { subst s. destruct (sustainStart tg0 !! t_Level t) as [s'|] eqn:Hs'; cbn; [|lia].
    destruct (Htm _ _ Hs') as (_ & u & _ & _ & h1 & x & h3 & -> & <- & _).
    rewrite Forall_forall in Hmono. apply Hmono. set_solver. }
  assert (t_Level t <= currentLevel tg3) as Hfin.
  { apply (proj2 (He2 Hr2) s eq_refl). unfold time_sub in *. lia. }
  rewrite HL, HA. split; [done|]. unfold ResponseInterrupt, ResponseThrottle. lia.
Qed.

Lemma temporal_overload_caught_witness :
  let st := run (map at_ [0; 0; 0; half]) (NewTemporalGuardian small_policy 0, []) in
  let resp := (Evaluate (at_ second) st.1).2 in
  ResponseInterrupt <= Level resp /\ (ResponseInterrupt <= ResponseInterrupt -> AllowEffect resp = false).
Proof.
  refine (temporal_overload_caught small_policy 0
    {| t_Level := ResponseInterrupt; MaxRate := of_int 3; SustainedFor := second; CooldownAfter := 60 * second |}
    [at_ 0; at_ 0] (at_ 0) [at_ half] (at_ second) small_policy_distinct small_policy_ascending _ _ _ _).
  - apply list_elem_of_further, list_elem_of_here.
  - repeat constructor; vm_compute; discriminate.
  - apply forallb_Forall with (f := fun y : float64 * time => fle (of_int 3) y.1). vm_compute. reflexivity.
  - vm_compute. discriminate.
Defined.

(** De-escalation is gradual: an evaluation that lowers the response
    level lowers it by exactly one, and only if the level has a threshold, the
    rate observed now is below it and at least its cooldown has passed since
    the level was entered. *)
Theorem temporal_deescalation r tg :
  let resp := (Evaluate r tg).2 in
  Level resp < currentLevel tg ->
  Level resp = currentLevel tg - 1 /\ 0 < currentLevel tg /\
  exists t, t ∈ Thresholds (policy tg) /\ t_Level t = currentLevel tg /\
    flt (WindowRate resp) (MaxRate t) = true /\ CooldownAfter t <= time_sub (at_now r) (levelSince tg).
Proof.
  cbv zeta. unfold Evaluate. destruct (Rate _ _) as [env rate]. cbn [snd Level WindowRate].
  unfold regulate, checkEscalation. intros Hlt.
  set (tg1 := checkDeescalation rate (at_now r) (tg <| envelope := env |>)) in *.
  pose proof (escalation_up (Thresholds (policy tg1)) rate (at_now r) tg1) as Hup.
  assert (currentLevel tg1 < currentLevel tg) as Hd by lia. subst tg1.
  unfold checkDeescalation in *.
  change (currentLevel (tg <| envelope := env |>)) with (currentLevel tg) in *.
  change (policy (tg <| envelope := env |>)) with (policy tg) in *.
  change (levelSince (tg <| envelope := env |>)) with (levelSince tg) in *.
  destruct (currentLevel tg =? ResponseObserve) eqn:H0; [cbn in Hd; lia|].
  destruct (List.find _ _) as [t|] eqn:Hf; [|cbn in Hd; lia].
  apply find_some in Hf as [Hin Hl%Z.eqb_eq]. rewrite <-list_elem_of_In in Hin.
  destruct (flt rate (MaxRate t)) eqn:Hr; cbn [andb] in *; [|cbn in Hd; lia].
  destruct (Z.leb_spec (CooldownAfter t) (time_sub (at_now r) (levelSince tg))); [|cbn in Hd; lia].
  cbn [currentLevel assign] in Hup, Hd |- *.
  unfold previousLevel, ResponseObserve in *.
  destruct (Z.leb_spec (t_Level t) 0); [cbn in Hd; lia|]. cbn in Hup, Hd.
  split; [|split; [lia|by exists t]]. cbn. cbn in Hlt. lia.
Qed.

Lemma temporal_deescalation_witness :
  let tg := (run (map at_ [0; half; second + half]) (NewTemporalGuardian small_policy 0, [])).1 in
  let resp := (Evaluate (at_ (40 * second)) tg).2 in
  currentLevel tg = ResponseThrottle /\ Level resp = currentLevel tg - 1.
Proof.
  intros tg resp. split; [vm_compute; reflexivity|].
  exact (proj1 (temporal_deescalation (at_ (40 * second)) tg ltac:(vm_compute; reflexivity))).
Defined.

(** The cooldown counts from the moment the level was entered, not from
    the moment the rate dropped: in this run of a ladder with a cooldown of 30
    seconds the rate is still above the threshold of the current level 1 second
    before the evaluation that de-escalates. *)
Theorem cooldown_ignores_rate_history :
  exists t, t ∈ Thresholds small_policy /\ CooldownAfter t = 30 * second /\
  let st := run (map at_ [0; half; second + half; 31 * second; 31 * second])
                (NewTemporalGuardian small_policy 0, []) in
  currentLevel st.1 = t_Level t /\
  (exists rate, last st.2 = Some (rate, 31 * second) /\ fle (MaxRate t) rate = true) /\
  Level (Evaluate (at_ (32 * second + 1)) st.1).2 = t_Level t - 1.
Proof.
  eexists. split; [apply list_elem_of_here|]. split; [reflexivity|]. cbv zeta.
  split; [vm_compute; reflexivity|]. split; [|vm_compute; reflexivity].
  eexists. split; [vm_compute; reflexivity|]. vm_compute. reflexivity.
Qed.

(** * The window *)

Lemma drop_before_filter c l :
  StronglySorted Z.le l -> drop_before c l = filter (fun t => c <= t) l.
Proof.
  induction 1 as [|t l Hs IH Hf]; [done|]. cbn [drop_before]. unfold before.
  destruct (Z.ltb_spec t c).
  - by rewrite filter_cons_False by lia.
  - rewrite filter_cons_True by lia. f_equal. clear IH Hs. induction Hf as [|u l Hu Hf IH]; [done|].
    rewrite filter_cons_True by lia. by f_equal.
Qed.

Lemma filter_filter_le (c d : time) (l : list time) : c <= d ->
  filter (fun t => d <= t) (filter (fun t => c <= t) l) = filter (fun t => d <= t) l.
Proof. intros Hcd. rewrite list_filter_filter_l; [done|]. intros; lia. Qed.

(** Readings that never go back. *)
Fixpoint monotone (last : time) (rs : list readings) : Prop :=
  match rs with
  | [] => True
  | r :: rs => last <= at_event r /\ at_event r <= at_record r /\ at_record r <= at_rate r /\
               monotone (at_rate r) rs
  end.

(** What the envelope of a window [w] holds after the effects [ts], those
    before [cutoff] having been pruned. *)
Definition windowed (w : duration) (ts : list time) (cutoff : time) (e : ControllabilityEnvelope) : Prop :=
  window e = w /\ events e = filter (fun t => cutoff <= t) ts /\ StronglySorted Z.le ts.

Lemma filter_sorted (P : time -> Prop) `{forall x, Decision (P x)} l :
  StronglySorted Z.le l -> StronglySorted Z.le (filter P l).
Proof.
  induction 1 as [|t l Hs IH Hf]; [constructor|]. rewrite filter_cons. case_decide; [|done].
  constructor; [done|]. apply Forall_forall. intros x [_ Hx]%list_elem_of_filter.
  rewrite Forall_forall in Hf. auto.
Qed.

Lemma sorted_snoc l t : StronglySorted Z.le l -> Forall (fun x => x <= t) l -> StronglySorted Z.le (l ++ [t]).
Proof.
  induction 1 as [|x l Hs IH Hf]; intros Hle; cbn; [repeat constructor|].
  apply Forall_cons in Hle as [Hx Hle]. constructor; [by apply IH|].
  apply Forall_app. split; [done|]. by repeat constructor.
Qed.

Lemma prune_windowed w ts cutoff now e :
  in_int64 (- w) = true -> windowed w ts cutoff e -> cutoff <= now - w ->
  windowed w ts (now - w) (prune now e).
Proof.
  intros Hw (He & Hev & Hs) Hle. split; [done|]. split; [|done].
  unfold prune. rewrite He, Hev, wrap64_id by done. unfold time_add. cbn [events assign].
  change (events ?x) with (drop_before (now + - w) (filter (fun t => cutoff <= t) ts)).
  rewrite drop_before_filter by (by apply filter_sorted).
  by apply filter_filter_le.
Qed.

Lemma append_windowed w ts cutoff t e :
  windowed w ts cutoff e -> cutoff <= t -> Forall (fun x => x <= t) ts ->
  windowed w (ts ++ [t]) cutoff (e <| events := (events e ++ [t])%list |>).
Proof.
  intros (He & Hev & Hs) Hc Hf. split; [done|]. split; [|by apply sorted_snoc].
  change (events e ++ [t] = filter (fun t => cutoff <= t) (ts ++ [t]))%list.
  rewrite filter_app, Hev. f_equal. by rewrite filter_cons_True.
Qed.

Lemma regulate_envelope rate now tg : envelope (regulate rate now tg) = envelope tg.
Proof.
  assert (forall l tg, envelope (foldl (escalation_step rate now) tg l) = envelope tg) as Hl.
  { intros l. induction l as [|t l IH]; intros tg'; [done|]. cbn [foldl]. rewrite IH.
    unfold escalation_step. by repeat case_match. }
  unfold regulate, checkEscalation. rewrite Hl. unfold checkDeescalation. by repeat case_match.
Qed.

Lemma Evaluate_windowed w ts last r tg :
  in_int64 (- w) = true -> 0 <= w ->
  windowed w ts (last - w) (envelope tg) -> Forall (fun x => x <= last) ts ->
  monotone last [r] ->
  windowed w (ts ++ [at_event r]) (at_rate r - w) (envelope (Evaluate r tg).1) /\
  Forall (fun x => x <= at_rate r) (ts ++ [at_event r]) /\
  WindowRate (Evaluate r tg).2 =
    (let n := length (events (envelope (Evaluate r tg).1)) in
     if Nat.eqb n 0 || fle (Seconds w) (of_int 0) then of_int 0
     else fdiv (of_int (Z.of_nat n)) (Seconds w)).
Proof.
  intros Hw Hpos Hwin Hf (H1 & H2 & H3 & _).
  assert (Forall (fun x => x <= at_event r) ts) as Hf1 by (eapply Forall_impl; [exact Hf|]; cbn; lia).
  assert (windowed w (ts ++ [at_event r]) (at_rate r - w)
    (prune (at_rate r) (Record_ (at_event r) (at_record r) (envelope tg)))) as Hwin2.
  { apply (prune_windowed _ _ (at_record r - w)); [done| |lia].
    apply (prune_windowed _ _ (last - w)); [done| |lia]. by apply append_windowed; [|lia|]. }
  assert (envelope (Evaluate r tg).1 = prune (at_rate r) (Record_ (at_event r) (at_record r) (envelope tg))
    /\ WindowRate (Evaluate r tg).2 =
       (Rate (at_rate r) (Record_ (at_event r) (at_record r) (envelope tg))).2) as [-> ->].
  { unfold Evaluate. destruct (Rate _ _) as [env rate] eqn:HR. cbn [fst snd WindowRate]. split; [|done].
    assert (env = prune (at_rate r) (Record_ (at_event r) (at_record r) (envelope tg))) as <-.
    { revert HR. unfold Rate. repeat case_match; by intros [= <- _]. }
    by rewrite regulate_envelope. }
  split; [done|]. split.
  { apply Forall_app. split; [eapply Forall_impl; [exact Hf|]; cbn; lia|]. by repeat constructor; lia. }
  destruct Hwin2 as (Hwd & _). unfold Rate. rewrite Hwd.
  destruct (events _); [done|]. cbn [length Nat.eqb orb]. by destruct (fle _ _).
Qed.

(** The rate is that of a sliding window: as long as the clock does not
    go back, after any sequence of evaluations the envelope holds exactly the
    effects of the last window before the rate was read, and the observed rate
    is their number divided by the window in seconds. *)
Theorem temporal_window p t0 rs r :
  0 <= WindowSize p <= int64_max -> monotone t0 (rs ++ [r]) ->
  let tg := (run rs (NewTemporalGuardian p t0, [])).1 in
  let '(tg', resp) := Evaluate r tg in
  let inside := filter (fun t => at_rate r - WindowSize p <= t) (map at_event (rs ++ [r])) in
  events (envelope tg') = inside /\
  WindowRate resp =
    (let n := length inside in
     if Nat.eqb n 0 || fle (Seconds (WindowSize p)) (of_int 0) then of_int 0
     else fdiv (of_int (Z.of_nat n)) (Seconds (WindowSize p))).
Proof.
  intros Hw Hm tg. set (w := WindowSize p) in *.
  assert (in_int64 (- w) = true) as Hw64 by (unfold in_int64, int64_min, int64_max in *; lia).
  assert (exists last, monotone last [r] /\ windowed w (map at_event rs) (last - w) (envelope tg) /\
    Forall (fun x => x <= last) (map at_event rs)) as (last & Hml & Hwin & Hf).
  { subst tg. assert (windowed w [] (t0 - w) (envelope (NewTemporalGuardian p t0))) as H0
      by (split; [done|split; [done|constructor]]).
    pose proof (Forall_nil_2 (fun x => x <= t0)) as Hf0.
    change (map at_event rs) with ([] ++ map at_event rs)%list.
    revert Hm H0 Hf0. generalize (NewTemporalGuardian p t0). generalize (@nil time). generalize t0.
    clear t0. induction rs as [|x rs IH]; intros t0 ts tg Hm Hw0 Hf0.
    { exists t0. rewrite app_nil_r. done. }
    cbn [app monotone] in Hm. destruct Hm as (Ha & Hb & Hc & Hm).
    destruct (Evaluate_windowed w ts t0 x tg) as (Hw1 & Hf1 & _); [done|lia|done|done|done|].
    rewrite run_cons. destruct (Evaluate x tg) as [tg1 resp1]. cbn [fst] in *.
    cbn [map]. destruct (IH (at_rate x) (ts ++ [at_event x])%list tg1 Hm Hw1 Hf1) as (last & Hl).
    exists last. rewrite <-app_assoc in Hl. exact Hl. }
  destruct (Evaluate_windowed w _ last r tg Hw64 ltac:(lia) Hwin Hf Hml) as ((_ & Hev & _) & _ & Hr).
  destruct (Evaluate r tg) as [tg' resp]. cbn [fst snd] in *.
  rewrite map_app. cbn [map]. by rewrite Hr, Hev.
Qed.

Lemma temporal_window_witness :
  let tg := (run (map at_ [0; half]) (NewTemporalGuardian small_policy 0, [])).1 in
  WindowRate (Evaluate (at_ (second + half)) tg).2 = of_int 2.
Proof.
  pose proof (temporal_window small_policy 0 (map at_ [0; half]) (at_ (second + half))
    ltac:(vm_compute; split; discriminate)
    ltac:(cbn; repeat split; vm_compute; discriminate)) as H.
  cbv zeta in H |- *. revert H. generalize (Evaluate (at_ (second + half))
    (run (map at_ [0; half]) (NewTemporalGuardian small_policy 0, [])).1).
  intros [tg' resp] [_ H]. cbn [snd]. rewrite H. vm_compute. reflexivity.
Defined.
