(* ===== verification/Trust.v ===== *)
(** Behavioral trust and privilege: [core/pkg/trust/behavioral.go],
    [core/pkg/trust/behavioral_scorer.go] and [core/pkg/guardian/privilege.go].

    [math.Exp] is a parameter of the decay (its value is platform assembly);
    nothing is assumed about it.  The clock reading of an operation is its
    argument. *)
From Stdlib Require Import SpecFloat.
From S2P Require Import Prelude GoLib.

Local Open Scope Z_scope.

Inductive TrustTier := TierPristine | TierTrusted | TierNeutral | TierSuspect | TierHostile.
#[export] Instance TrustTier_eq_dec : EqDecision TrustTier.
Proof. solve_decision. Defined.

Definition tier_text (t : TrustTier) : string :=
  match t with
  | TierPristine => "PRISTINE" | TierTrusted => "TRUSTED" | TierNeutral => "NEUTRAL"
  | TierSuspect => "SUSPECT" | TierHostile => "HOSTILE"
  end.

Definition TierForScore (score : Z) : TrustTier :=
  if 900 <=? score then TierPristine
  else if 700 <=? score then TierTrusted
  else if 400 <=? score then TierNeutral
  else if 200 <=? score then TierSuspect
  else TierHostile.

(** [ScoreEventType] is a string; unknown types have no default delta. *)
Definition DefaultDeltas (t : string) : option Z :=
  if String.eqb t "POLICY_COMPLY" then Some 2
  else if String.eqb t "POLICY_VIOLATE" then Some (-25)
  else if String.eqb t "RATE_LIMIT_HIT" then Some (-15)
  else if String.eqb t "THREAT_DETECTED" then Some (-50)
  else if String.eqb t "DELEGATION_VALID" then Some 3
  else if String.eqb t "DELEGATION_ABUSE" then Some (-75)
  else if String.eqb t "EGRESS_BLOCKED" then Some (-30)
  else if String.eqb t "MANUAL_BOOST" then Some 50
  else if String.eqb t "MANUAL_PENALTY" then Some (-50)
  else None.

Record ScoreEvent := {
  EventType : string;
  Delta : Z;
  e_Reason : string;
  Timestamp : time;
}.

Record BehavioralTrustScore := {
  AgentID : string;
  Score : Z;
  Tier : TrustTier;
  UpdatedAt : time;
  History : list ScoreEvent;
}.
#[export] Instance BehavioralTrustScore_eta : Eta BehavioralTrustScore := fun r => {|
  AgentID := AgentID r; Score := Score r; Tier := Tier r; UpdatedAt := UpdatedAt r;
  History := History r |}.

Definition Normalized (b : BehavioralTrustScore) : float64 := fdiv (of_int (Score b)) (of_int 1000).

Record ScorerConfig := {
  InitialScore : Z;
  MaxHistorySize : Z;
  PositiveHalfLife : duration;
  NegativeHalfLife : duration;
}.

Definition DefaultScorerConfig : ScorerConfig := {|
  InitialScore := 500; MaxHistorySize := 100;
  PositiveHalfLife := 24 * hour; NegativeHalfLife := 72 * hour |}.

Definition clampScore (score : Z) : Z :=
  if score <? 0 then 0 else if 1000 <? score then 1000 else score.

(** [math.Ln2] as a double *)
Definition Ln2 : float64 := S754_finite false 6243314768165359 (-53).

Section Scorer.
Context (math_Exp : float64 -> float64) (config : ScorerConfig).

Abbreviation scores := (gmap string BehavioralTrustScore).

Definition getOrCreateLocked (agentID : string) (now : time) (s : scores)
    : scores * BehavioralTrustScore :=
  match s !! agentID with
  | Some sc => (s, sc)
  | None =>
      let sc := {| AgentID := agentID; Score := InitialScore config;
                   Tier := TierForScore (InitialScore config); UpdatedAt := now; History := [] |} in
      (<[agentID := sc]> s, sc)
  end.

Definition applyDecayLocked (now : time) (score : BehavioralTrustScore) : BehavioralTrustScore :=
  let elapsed := time_sub now (UpdatedAt score) in
  if elapsed <=? 0 then score
  else
    let initial := InitialScore config in
    let deviation := wrap64 (Score score - initial) in
    if deviation =? 0 then score <| UpdatedAt := now |>
    else
      let halfLife := if 0 <? deviation then PositiveHalfLife config else NegativeHalfLife config in
      if halfLife <=? 0 then score <| UpdatedAt := now |>
      else
        let lambda := fdiv Ln2 (Seconds halfLife) in
        let factor := math_Exp (fmul (SFopp lambda) (Seconds elapsed)) in
        let decayedDeviation := round_int (fmul (of_int deviation) factor) in
        let s := clampScore (wrap64 (initial + decayedDeviation)) in
        score <| Score := s |> <| Tier := TierForScore s |> <| UpdatedAt := now |>.

(** The pointer stored in the map is mutated in place: the updated entry
    replaces the old one. *)
Definition RecordEvent (agentID : string) (event : ScoreEvent) (now : time) (s : scores) : scores :=
  let delta := if Delta event =? 0 then default 0 (DefaultDeltas (EventType event)) else Delta event in
  let event := {| EventType := EventType event; Delta := delta; e_Reason := e_Reason event;
                  Timestamp := if is_zero (Timestamp event) then now else Timestamp event |} in
  let '(s, score) := getOrCreateLocked agentID now s in
  let score := applyDecayLocked now score in
  let v := clampScore (wrap64 (Score score + delta)) in
  let hist := (History score ++ [event])%list in
  let len := Z.of_nat (length hist) in
  let hist := if MaxHistorySize config <? len
              then drop (Z.to_nat (len - MaxHistorySize config)) hist else hist in
  <[agentID := score <| Score := v |> <| Tier := TierForScore v |> <| UpdatedAt := now |>
                     <| History := hist |>]> s.

Definition GetScore (agentID : string) (now : time) (s : scores) : scores * BehavioralTrustScore :=
  let '(s, score) := getOrCreateLocked agentID now s in
  let score := applyDecayLocked now score in
  (<[agentID := score]> s, score).

Definition GetTier (agentID : string) (now : time) (s : scores) : scores * TrustTier :=
  let '(s, score) := GetScore agentID now s in (s, Tier score).

(** ** Invariant *)

Definition score_ok (b : BehavioralTrustScore) : Prop :=
  0 <= Score b <= 1000 /\ Tier b = TierForScore (Score b) /\
  Z.of_nat (length (History b)) <= MaxHistorySize config.

Definition scores_ok (s : scores) : Prop := map_Forall (fun _ => score_ok) s.

Definition config_ok : Prop := 0 <= InitialScore config <= 1000 /\ 0 <= MaxHistorySize config.

Lemma clampScore_range z : 0 <= clampScore z <= 1000.
Proof. unfold clampScore. repeat case_match; lia. Qed.

Lemma decay_ok now b : score_ok b -> score_ok (applyDecayLocked now b).
Proof.
  intros (Hr & Ht & Hh). unfold applyDecayLocked. repeat case_match; try exact (conj Hr (conj Ht Hh)).
  all: split; [apply clampScore_range|split; [done|exact Hh]].
Qed.

Lemma getOrCreate_ok agent now s s' sc :
  config_ok -> scores_ok s -> getOrCreateLocked agent now s = (s', sc) -> scores_ok s' /\ score_ok sc.
Proof.
  intros [Hi Hm] Hs. unfold getOrCreateLocked. destruct (s !! agent) as [x|] eqn:Hx; intros [= <- <-].
  - split; [done|]. exact (Hs _ _ Hx).
  - assert (forall t, score_ok {| AgentID := agent; Score := InitialScore config;
      Tier := TierForScore (InitialScore config); UpdatedAt := t; History := [] |}) as Hn by (split; done).
    split; [|done]. by apply map_Forall_insert_2.
Qed.

Lemma GetScore_ok agent now s :
  config_ok -> scores_ok s -> scores_ok (GetScore agent now s).1 /\ score_ok (GetScore agent now s).2.
Proof.
  intros Hc Hs. unfold GetScore. destruct (getOrCreateLocked agent now s) as [s' sc] eqn:Hg.
  destruct (getOrCreate_ok _ _ _ _ _ Hc Hs Hg) as [Hs' Hsc]. cbn [fst snd].
  split; [apply map_Forall_insert_2; [by apply decay_ok|done]|by apply decay_ok].
Qed.

Lemma RecordEvent_ok agent event now s :
  config_ok -> scores_ok s -> scores_ok (RecordEvent agent event now s).
Proof.
  intros Hc Hs. unfold RecordEvent. destruct (getOrCreateLocked agent now s) as [s' sc] eqn:Hg.
  destruct (getOrCreate_ok _ _ _ _ _ Hc Hs Hg) as [Hs' Hsc]. apply (decay_ok now) in Hsc.
  apply map_Forall_insert_2; [|done]. destruct Hsc as (_ & _ & Hh), Hc as [_ Hm].
  split; [apply clampScore_range|]. split; [done|].
  set (l := (History (applyDecayLocked now sc) ++ [_])%list) in *.
  change (Z.of_nat (length (if MaxHistorySize config <? Z.of_nat (length l)
    then drop (Z.to_nat (Z.of_nat (length l) - MaxHistorySize config)) l else l)) <= MaxHistorySize config).
  destruct (Z.ltb_spec (MaxHistorySize config) (Z.of_nat (length l))); [|done].
  rewrite length_drop. lia.
Qed.

Inductive op := OpRecord (agent : string) (event : ScoreEvent) (now : time) | OpGet (agent : string) (now : time).

Definition step (s : scores) (o : op) : scores :=
  match o with
  | OpRecord a e t => RecordEvent a e t s
  | OpGet a t => (GetScore a t s).1
  end.

Lemma run_scores_ok ops s : config_ok -> scores_ok s -> scores_ok (foldl step s ops).
Proof.
  intros Hc. revert s. induction ops as [|o ops IH]; intros s Hs; [done|]. cbn [foldl]. apply IH.
  destruct o; [by apply RecordEvent_ok|by apply GetScore_ok].
Qed.
End Scorer.

(** * Privilege tiers, [guardian/privilege.go] *)

(** [PrivilegeTier] is a Go [int]. *)
Abbreviation PrivilegeTier := Z.
Definition TierRestricted : PrivilegeTier := 0.
Definition TierStandard : PrivilegeTier := 1.
Definition TierElevated : PrivilegeTier := 2.
Definition TierSystem : PrivilegeTier := 3.

Definition privilege_string (t : PrivilegeTier) : string :=
  if t =? TierRestricted then "RESTRICTED"
  else if t =? TierStandard then "STANDARD"
  else if t =? TierElevated then "ELEVATED"
  else if t =? TierSystem then "SYSTEM"
  else "UNKNOWN(" +:+ dec t +:+ ")".

Definition EffectTierMap : gmap string PrivilegeTier := list_to_map [
  ("SEND_EMAIL", TierStandard); ("SEND_CHAT_MESSAGE", TierStandard); ("CREATE_TASK", TierStandard);
  ("COMMENT_TICKET", TierStandard); ("UPDATE_DOC", TierStandard); ("EXECUTE_TOOL", TierStandard);
  ("SOFTWARE_PUBLISH", TierElevated); ("CI_CREDENTIAL_ACCESS", TierElevated);
  ("CLOUD_COMPUTE_BUDGET", TierElevated); ("EXECUTE_PAYMENT", TierElevated); ("FILE_WRITE", TierElevated);
  ("INFRA_DESTROY", TierSystem); ("ENV_RECREATE", TierSystem);
  ("PROTECTED_INFRA_STRUCTURE", TierSystem); ("TUNNEL_START", TierSystem)].

Definition RequiredTierForEffect (effectType : string) : PrivilegeTier :=
  default TierStandard (EffectTierMap !! effectType).

Definition EffectiveTier (assigned : PrivilegeTier) (trustTier : TrustTier) : PrivilegeTier :=
  match trustTier with
  | TierHostile => TierRestricted
  | TierSuspect => if TierStandard <? assigned then TierStandard else assigned
  | _ => assigned
  end.

(** [StaticPrivilegeResolver] *)
Record StaticPrivilegeResolver := { tiers : gmap string PrivilegeTier; defaultTier : PrivilegeTier }.
Definition SetTier (principal : string) (t : PrivilegeTier) (r : StaticPrivilegeResolver) : StaticPrivilegeResolver :=
  {| tiers := <[principal := t]> (tiers r); defaultTier := defaultTier r |}.
Definition ResolveTier (r : StaticPrivilegeResolver) (principal : string) : res PrivilegeTier :=
  Ok (default (defaultTier r) (tiers r !! principal)).

Lemma required_range e : TierStandard <= RequiredTierForEffect e <= TierSystem.
Proof.
  unfold RequiredTierForEffect. destruct (EffectTierMap !! e) as [t|] eqn:He; cbn; [|by vm_compute].
  assert (map_Forall (fun _ t => TierStandard <= t <= TierSystem) EffectTierMap) as Hall
    by (apply (bool_decide_unpack _); vm_compute; exact I).
  exact (Hall _ _ He).
Qed.

Lemma effective_le a t : 0 <= a -> EffectiveTier a t <= a.
Proof. destruct t; cbn; unfold TierRestricted, TierStandard; try case_match; lia. Qed.

Lemma TierForScore_cases s :
  TierForScore s = if s <? 200 then TierHostile else if s <? 400 then TierSuspect
                   else if s <? 700 then TierNeutral else if s <? 900 then TierTrusted else TierPristine.
Proof. unfold TierForScore. repeat case_match; try lia; done. Qed.

(** Trust caps privilege: whatever events were recorded and whenever the
    scores were read, an agent's score lies in [0, 1000], its tier is the one of
    its score and at most MaxHistorySize events are kept; and the privilege it
    can exercise is never above the assigned one, never grows when the score
    falls, and is below the requirement of every effect, known or unknown,
    while the agent is HOSTILE (score below 200). *)
Theorem trust_caps_privilege math_Exp config ops agent now assigned s' effect :
  config_ok config -> 0 <= assigned ->
  let b := (GetScore math_Exp config agent now (foldl (step math_Exp config) ∅ ops)).2 in
  score_ok config b /\
  EffectiveTier assigned (Tier b) <= assigned /\
  (s' <= Score b -> EffectiveTier assigned (TierForScore s') <= EffectiveTier assigned (Tier b)) /\
  (Score b < 200 -> EffectiveTier assigned (Tier b) < RequiredTierForEffect effect).
Proof.
  intros Hc Ha b.
  assert (score_ok config b) as Hb.
  { subst b. apply GetScore_ok; [done|]. apply run_scores_ok; [done|]. apply map_Forall_empty. }
  split; [done|]. split; [by apply effective_le|]. destruct Hb as (_ & -> & _).
  rewrite !TierForScore_cases. pose proof (required_range effect) as Hr.
  unfold TierStandard, TierSystem in *. split; intros Hs.
  - repeat case_match; cbn; unfold TierRestricted, TierStandard; repeat case_match; lia.
  - destruct (Z.ltb_spec (Score b) 200); [|lia]. cbn. unfold TierRestricted. lia.
Qed.

Lemma trust_caps_privilege_witness :
  let ops := [OpRecord "a" {| EventType := "DELEGATION_ABUSE"; Delta := -400; e_Reason := ""; Timestamp := 0 |} 0] in
  let b := (GetScore (fun _ => of_int 1) DefaultScorerConfig "a" 0
             (foldl (step (fun _ => of_int 1) DefaultScorerConfig) ∅ ops)).2 in
  EffectiveTier TierSystem (Tier b) < RequiredTierForEffect "UNKNOWN_EFFECT".
Proof.
  intros ops b.
  refine (proj2 (proj2 (proj2 (trust_caps_privilege (fun _ => of_int 1) DefaultScorerConfig ops "a" 0
    TierSystem 0 "UNKNOWN_EFFECT" _ _))) _); vm_compute; try reflexivity; repeat split; discriminate.
Defined.
