(* ===== verification/Prg.v ===== *)
(** The policy requirement graph, [core/pkg/prg] (graph.go, engine.go,
    compiler.go) with the expression rewriting of [core/pkg/policycel].

    The CEL compiler and interpreter are a class, [Cel]; a compiled program is
    an opaque value.  The engine's program cache is explicit state. *)
From stdpp Require Import sorting.
From Stdlib Require Import Ascii.
From S2P Require Import Prelude GoLib Contracts.

Local Open Scope string_scope.

(** * [policycel.RewritePRGTaintContains] *)

Definition is_word (c : ascii) : bool :=
  let n := nat_of_ascii c in
  ((48 <=? n) && (n <=? 57) || (65 <=? n) && (n <=? 90) || (97 <=? n) && (n <=? 122) || (n =? 95))%nat.

(** [\s] *)
Definition re_space (c : ascii) : bool :=
  let n := nat_of_ascii c in ((n =? 9) || (n =? 10) || (n =? 12) || (n =? 13) || (n =? 32))%nat.

Fixpoint skip_space (l : bytes) : bytes :=
  match l with
  | c :: l' => if re_space c then skip_space l' else l
  | [] => []
  end.

Definition quote_char : ascii := ascii_of_nat 34.
Definition backslash : ascii := ascii_of_nat 92.
Definition newline : ascii := ascii_of_nat 10.

(** The quoted literal of the pattern, up to its first unescaped quote: the
    group (reversed accumulator) and the rest after the closing quote. *)
Fixpoint scan_literal (acc l : bytes) : option (bytes * bytes) :=
  match l with
  | [] => None
  | c :: l' =>
      if Ascii.eqb c quote_char then Some (rev acc, l')
      else if Ascii.eqb c backslash then
        match l' with
        | d :: l'' => if Ascii.eqb d newline then None else scan_literal (d :: c :: acc) l''
        | [] => None
        end
      else scan_literal (c :: acc) l'
  end.

(** A match of the pattern (after its [\b]) at the head of the input. *)
Definition match_taint (l : bytes) : option (bytes * bytes) :=
  l ← strip_prefix (to_bytes "taint_contains(") l;
  match skip_space l with
  | c :: l => if Ascii.eqb c quote_char
              then '(lit, l) ← scan_literal [] l;
                   match skip_space l with
                   | d :: l => if Ascii.eqb d ")"%char then Some (lit, l) else None
                   | [] => None
                   end
              else None
  | [] => None
  end.

(** [ReplaceAllString]: [prev] is the previous input byte, for [\b]. *)
Fixpoint rewrite_fuel (fuel : nat) (prefix : bytes) (prev : option ascii) (l : bytes) : bytes :=
  match fuel, l with
  | S fuel, c :: l' =>
      let boundary := negb (default false (is_word <$> prev)) in
      match (if boundary then match_taint l else None) with
      | Some (lit, rest) =>
          (prefix ++ [quote_char] ++ lit ++ [quote_char; ")"%char]
           ++ rewrite_fuel fuel prefix (Some ")"%char) rest)%list
      | None => c :: rewrite_fuel fuel prefix (Some c) l'
      end
  | _, _ => []
  end.

Definition RewritePRGTaintContains (expression : string) : string :=
  let l := to_bytes expression in
  of_bytes (rewrite_fuel (length l) (to_bytes "taint_contains(input.taint, ") None l).

Definition quoted (s : string) : string := of_bytes ([quote_char] ++ to_bytes s ++ [quote_char])%list.

Example rewrite_taint :
  map RewritePRGTaintContains
    ["taint_contains(" +:+ quoted "pii" +:+ ") && true"; "!taint_contains( " +:+ quoted "a" +:+ " )";
     "my_taint_contains(" +:+ quoted "x" +:+ ")"; "taint_contains(input.taint, " +:+ quoted "x" +:+ ")"] =
  ["taint_contains(input.taint, " +:+ quoted "pii" +:+ ") && true";
   "!taint_contains(input.taint, " +:+ quoted "a" +:+ ")";
   "my_taint_contains(" +:+ quoted "x" +:+ ")"; "taint_contains(input.taint, " +:+ quoted "x" +:+ ")"].
Proof. vm_compute. reflexivity. Qed.

(** * Data *)

(** [artifacts.ArtifactEnvelope], as far as the graph reads it. *)
Record ArtifactEnvelope := { art_Type : string }.

(** The activation: the variables of [input], and the outcome of the type
    assertion [input["artifacts"].([]*ArtifactEnvelope)]. *)
Record PolicyInput := { in_vars : obj; in_artifacts : option (list ArtifactEnvelope) }.

Class Cel := {
  Ast : Type;
  Program : Type;
  env_Compile : string -> res Ast;
  env_Program : Ast -> res Program;
  prog_Eval : Program -> PolicyInput -> res any;
}.

Definition AND := "AND".
Definition OR := "OR".
Definition NOT := "NOT".

(** [sort.Strings] *)
Definition string_le (a b : string) : Prop := String.leb a b = true.
#[export] Instance string_le_dec : RelDecision string_le.
Proof. intros a b. unfold string_le. apply _. Defined.
Definition sort_strings (l : list string) : list string := merge_sort string_le l.

Section Prg.
Context `{Cel}.

Record Requirement := {
  req_ID : string;
  req_Description : string;
  req_ArtifactType : string;
  req_SignerID : string;
  req_Expression : string;
  compiledExpression : string;
  program : option Program;
}.
#[export] Instance Requirement_eta : Eta Requirement := fun r => {|
  req_ID := req_ID r; req_Description := req_Description r; req_ArtifactType := req_ArtifactType r;
  req_SignerID := req_SignerID r; req_Expression := req_Expression r;
  compiledExpression := compiledExpression r; program := program r |}.

Inductive RequirementSet := RSet {
  rs_ID : string;
  rs_Logic : string;
  rs_Requirements : list Requirement;
  rs_Children : list RequirementSet;
}.

(** ** [graph.go] *)

Fixpoint RequirementSet_Hash `{Hash} (rs : RequirementSet) : string :=
  match rs with
  | RSet id logic reqs children =>
      let content :=
        "id=" +:+ id +:+ ":logic=" +:+ logic +:+ ":"
        +:+ String.concat "" (map (fun r => "req=" +:+ req_ID r +:+ ":" +:+ req_ArtifactType r +:+ ":"
                                            +:+ req_Expression r +:+ ";") reqs)
        +:+ String.concat "" (map (fun c => "child=" +:+ RequirementSet_Hash c +:+ ";") children) in
      "sha256:" +:+ hex_encode (sha256 (to_bytes content))
  end.

(** [Graph.Rules] *)
Abbreviation Graph := (gmap string RequirementSet).

Definition NewGraph : Graph := ∅.
Definition AddRule (actionID : string) (set : RequirementSet) (g : Graph) : Graph := <[actionID := set]> g.
Definition BindByCapability (capabilityID : string) (set : RequirementSet) (g : Graph) : Graph :=
  <[capabilityID := set]> g.

Definition ContentHash `{Hash} (g : Graph) : res string :=
  if Nat.eqb (size g) 0 then Ok ""
  else
    let keys := sort_strings (map fst (map_to_list g)) in
    let content := String.concat "" (map (fun k =>
      k +:+ "=" +:+ default "" (RequirementSet_Hash <$> g !! k) +:+ ";") keys) in
    Ok (hex_encode (sha256 (to_bytes content))).

Fixpoint hasExpressionRequirement (rs : RequirementSet) : bool :=
  match rs with
  | RSet _ _ reqs children =>
      existsb (fun r => negb (String.eqb (req_Expression r) "")) reqs
      || existsb hasExpressionRequirement children
  end.

Fixpoint hasMalformedRequirement (rs : RequirementSet) : bool :=
  match rs with
  | RSet _ _ reqs children =>
      existsb (fun r => String.eqb (req_ArtifactType r) "" && String.eqb (req_Expression r) "") reqs
      || existsb hasMalformedRequirement children
  end.

Definition artifact_present (t : string) (artifacts : list ArtifactEnvelope) : bool :=
  existsb (fun a => String.eqb (art_Type a) t) artifacts.

Fixpoint check (rs : RequirementSet) (artifacts : list ArtifactEnvelope) : bool :=
  match rs with
  | RSet _ logic reqs children =>
      let leafResults :=
        (map (fun r => negb (String.eqb (req_ArtifactType r) "")
                       && artifact_present (req_ArtifactType r) artifacts) reqs
         ++ map (fun c => check c artifacts) children)%list in
      match leafResults with
      | [] => true
      | _ =>
          if String.eqb logic AND || String.eqb logic "" then forallb id leafResults
          else if String.eqb logic OR then existsb id leafResults
          else if String.eqb logic NOT then existsb negb leafResults
          else false
      end
  end.

Definition Validate `{Hash} (g : Graph) (actionID : string) (artifacts : list ArtifactEnvelope)
    : res string :=
  match g !! actionID with
  | None => Fail ("no policy defined for action " +:+ actionID)
  | Some rule =>
      if hasExpressionRequirement rule
      then Fail ("action " +:+ actionID +:+ " carries CEL expression requirements: Graph.Validate evaluates artifact presence only — use PolicyEngine.EvaluateRequirementSet")
      else if hasMalformedRequirement rule
      then Fail ("action " +:+ actionID +:+ " has malformed requirement: expected artifact_type or expression")
      else if check rule artifacts then Ok (RequirementSet_Hash rule)
      else Fail "missing requirement"
  end.

(** [compiler.go]: requirement sets are node-local, so the compiled graph is
    the single rule. *)
Definition Compile (reqs : RequirementSet) : res Graph := Ok (AddRule (rs_ID reqs) reqs NewGraph).

(** ** [engine.go] *)

(** [PolicyEngine.prgCache] *)
Abbreviation Cache := (gmap string Program).

Definition compile_expression (expression : string) : res Program :=
  ast ← wrap_err "CEL compile error: " (env_Compile expression);
  wrap_err "CEL program error: " (env_Program ast).

Definition programForExpression (expression : string) : M Cache Program := fun cache =>
  match cache !! expression with
  | Some prg => (cache, Ok prg)
  | None =>
      match compile_expression expression with
      | Ok prg => (<[expression := prg]> cache, Ok prg)
      | Fail e => (cache, Fail e)
      end
  end.

Definition Evaluate (expression : string) (input : PolicyInput) : M Cache bool :=
  prg ← programForExpression (RewritePRGTaintContains expression);
  out ← lift (wrap_err "CEL eval error: " (prog_Eval prg input));
  match as_bool out with
  | Some allowed => mret allowed
  | None => fail "result not boolean"
  end.

(** [warmRequirements]: the slice is updated in place, also when a later
    element fails. *)
Fixpoint warmRequirements (reqs : list Requirement) (cache : Cache) : Cache * list Requirement * res unit :=
  match reqs with
  | [] => (cache, [], Ok tt)
  | r :: reqs' =>
      if String.eqb (req_Expression r) ""
      then let '(cache, reqs', e) := warmRequirements reqs' cache in (cache, r :: reqs', e)
      else
        let expression := RewritePRGTaintContains (req_Expression r) in
        match programForExpression expression cache with
        | (cache, Fail e) => (cache, r :: reqs', Fail ("compile error in req " +:+ req_ID r +:+ ": " +:+ e))
        | (cache, Ok prog) =>
            let r := r <| compiledExpression := expression |> <| program := Some prog |> in
            let '(cache, reqs', e) := warmRequirements reqs' cache in (cache, r :: reqs', e)
        end
  end.

Fixpoint WarmRequirementSet (rs : RequirementSet) (cache : Cache) : Cache * RequirementSet * res unit :=
  match rs with
  | RSet id logic reqs children =>
      let '(cache, reqs, e) := warmRequirements reqs cache in
      match e with
      | Fail e => (cache, RSet id logic reqs children, Fail e)
      | Ok _ =>
          let '(cache, children, e) :=
            (fix warm_children (cs : list RequirementSet) (cache : Cache) :=
               match cs with
               | [] => (cache, [], Ok tt)
               | c :: cs' =>
                   let '(cache, c, e) := WarmRequirementSet c cache in
                   match e with
                   | Fail e => (cache, c :: cs', Fail e)
                   | Ok _ => let '(cache, cs', e) := warm_children cs' cache in (cache, c :: cs', e)
                   end
               end) children cache in
          (cache, RSet id logic reqs children, e)
      end
  end.

(** [WarmGraph] visits the rules in the (unspecified) order of the map. *)
Fixpoint WarmGraph (order : list string) (g : Graph) (cache : Cache) : Cache * Graph * res unit :=
  match order with
  | [] => (cache, g, Ok tt)
  | k :: order =>
      match g !! k with
      | None => WarmGraph order g cache
      | Some set =>
          let '(cache, set, e) := WarmRequirementSet set cache in
          let g := <[k := set]> g in
          match e with
          | Fail e => (cache, g, Fail ("warm policy " +:+ k +:+ ": " +:+ e))
          | Ok _ => WarmGraph order g cache
          end
      end
  end.

(** The verdict of a requirement and, when it is false, its ID. *)
Definition verdict (id : string) (val : bool) : bool * list string := (val, if val then [] else [id]).

Definition evaluate_leaf (r : Requirement) (input : PolicyInput) : M Cache (bool * list string) :=
  if negb (String.eqb (req_Expression r) "") then
    let expression := RewritePRGTaintContains (req_Expression r) in
    prog ← match program r with
           | Some p => if String.eqb (compiledExpression r) expression then mret p
                       else wrapM ("compile error in req " +:+ req_ID r +:+ ": ") (programForExpression expression)
           | None => wrapM ("compile error in req " +:+ req_ID r +:+ ": ") (programForExpression expression)
           end;
    out ← lift (wrap_err ("eval error in req " +:+ req_ID r +:+ ": ") (prog_Eval prog input));
    match as_bool out with
    | Some val => mret (verdict (req_ID r) val)
    | None => fail ("req " +:+ req_ID r +:+ " did not return bool")
    end
  else if negb (String.eqb (req_ArtifactType r) "") then
    mret (verdict (req_ID r) (match in_artifacts input with
                              | Some artifacts => artifact_present (req_ArtifactType r) artifacts
                              | None => false
                              end))
  else mret (true, []).

Fixpoint evaluateLeaves (reqs : list Requirement) (input : PolicyInput) : M Cache (list bool * list string) :=
  match reqs with
  | [] => mret ([], [])
  | r :: reqs =>
      '(v, f) ← evaluate_leaf r input;
      '(vs, fs) ← evaluateLeaves reqs input;
      mret (v :: vs, (f ++ fs)%list)
  end.

Definition combineResults (logic : string) (results : list bool) : res bool :=
  if String.eqb logic AND || String.eqb logic "" then Ok (forallb id results)
  else if String.eqb logic OR then Ok (existsb id results)
  else if String.eqb logic NOT then Ok (negb (forallb id results))
  else Fail ("unknown logic operator: " +:+ logic).

(** The verdict of a set and, when it is false, the failed leaves. *)
Definition conclude (id logic : string) (leaf child : list bool * list string) : res (bool * list string) :=
  valid ← combineResults logic (leaf.1 ++ child.1)%list;
  Ok (if valid : bool then (true, [])
      else if String.eqb logic NOT then (false, [id]) else (false, (leaf.2 ++ child.2)%list)).

Fixpoint EvaluateRequirementSetDetail (rs : RequirementSet) (input : PolicyInput)
    : M Cache (bool * list string) :=
  match rs with
  | RSet id logic reqs children =>
      if Nat.eqb (length reqs) 0 && Nat.eqb (length children) 0 then mret (true, [])
      else
        leaf ← evaluateLeaves reqs input;
        child ← (fix evaluateChildren (cs : list RequirementSet) : M Cache (list bool * list string) :=
                   match cs with
                   | [] => mret ([], [])
                   | c :: cs =>
                       '(v, f) ← EvaluateRequirementSetDetail c input;
                       '(vs, fs) ← evaluateChildren cs;
                       mret (v :: vs, ((if v : bool then [] else f) ++ fs)%list)
                   end) children;
        lift (conclude id logic leaf child)
  end.

Definition EvaluateRequirementSet (rs : RequirementSet) (input : PolicyInput) : M Cache bool :=
  '(valid, _) ← EvaluateRequirementSetDetail rs input; mret valid.
End Prg.

(** * The engine against a reference evaluator without caches *)

Section Reference.
Context `{Cel}.

Lemma RequirementSet_nested_ind (P : RequirementSet -> Prop)
    (IH : forall id logic reqs children, Forall P children -> P (RSet id logic reqs children)) :
  forall rs, P rs.
Proof.
  fix rec 1. intros [id logic reqs children]. apply IH.
  induction children as [|c cs IHcs]; constructor; [apply rec|exact IHcs].
Qed.

Definition leaf_reference (r : Requirement) (input : PolicyInput) : res (bool * list string) :=
  if negb (String.eqb (req_Expression r) "") then
    prog ← wrap_err ("compile error in req " +:+ req_ID r +:+ ": ")
             (compile_expression (RewritePRGTaintContains (req_Expression r)));
    out ← wrap_err ("eval error in req " +:+ req_ID r +:+ ": ") (prog_Eval prog input);
    match as_bool out with
    | Some val => Ok (verdict (req_ID r) val)
    | None => Fail ("req " +:+ req_ID r +:+ " did not return bool")
    end
  else if negb (String.eqb (req_ArtifactType r) "") then
    Ok (verdict (req_ID r) (match in_artifacts input with
                            | Some artifacts => artifact_present (req_ArtifactType r) artifacts
                            | None => false
                            end))
  else Ok (true, []).

Fixpoint leaves_reference (reqs : list Requirement) (input : PolicyInput) : res (list bool * list string) :=
  match reqs with
  | [] => Ok ([], [])
  | r :: reqs =>
      '(v, f) ← leaf_reference r input;
      '(vs, fs) ← leaves_reference reqs input;
      Ok (v :: vs, (f ++ fs)%list)
  end.

Definition children_reference (f : RequirementSet -> res (bool * list string)) :
    list RequirementSet -> res (list bool * list string) :=
  fix go cs :=
    match cs with
    | [] => Ok ([], [])
    | c :: cs =>
        '(v, fl) ← f c;
        '(vs, fs) ← go cs;
        Ok (v :: vs, ((if v : bool then [] else fl) ++ fs)%list)
    end.

Fixpoint reference (rs : RequirementSet) (input : PolicyInput) : res (bool * list string) :=
  match rs with
  | RSet id logic reqs children =>
      if Nat.eqb (length reqs) 0 && Nat.eqb (length children) 0 then Ok (true, [])
      else
        leaf ← leaves_reference reqs input;
        child ← children_reference (fun c => reference c input) children;
        conclude id logic leaf child
  end.

(** Cached and attached programs are the compilation of their expression. *)
Definition cache_ok (c : gmap string Program) : Prop := map_Forall (fun e p => compile_expression e = Ok p) c.
Definition req_ok (r : Requirement) : Prop :=
  forall p, program r = Some p -> compile_expression (compiledExpression r) = Ok p.
Fixpoint set_ok (rs : RequirementSet) : Prop :=
  match rs with
  | RSet _ _ reqs children => Forall req_ok reqs /\ foldr (fun c P => set_ok c /\ P) True children
  end.

Lemma set_ok_children cs : foldr (fun c P => set_ok c /\ P) True cs <-> Forall set_ok cs.
Proof. induction cs as [|c cs IH]; cbn; [by split|]. rewrite IH, Forall_cons. done. Qed.

(** A computation over the cache that computes [r] whatever the cache holds. *)
Definition transparent {A} (m : M (gmap string Program) A) (r : res A) : Prop :=
  forall c, cache_ok c -> exists c', m c = (c', r) /\ cache_ok c'.

Lemma transparent_lift {A} (r : res A) : transparent (lift r) r.
Proof. intros c Hc. by exists c. Qed.

Lemma transparent_bind {A B} (m : M (gmap string Program) A) r (f : A -> M (gmap string Program) B) g :
  transparent m r -> (forall a, transparent (f a) (g a)) -> transparent (m ≫= f) (r ≫= g).
Proof.
  intros Hm Hf c Hc. destruct (Hm c Hc) as (c1 & Hm1 & Hc1). unfold mbind at 1, M_bind. rewrite Hm1.
  destruct r as [a|e]; cbn; [by apply Hf|by exists c1].
Qed.

Lemma transparent_wrap {A} p (m : M (gmap string Program) A) r :
  transparent m r -> transparent (wrapM p m) (wrap_err p r).
Proof.
  intros Hm c Hc. destruct (Hm c Hc) as (c1 & Hm1 & Hc1). exists c1. unfold wrapM. by rewrite Hm1.
Qed.

Lemma programForExpression_transparent e : transparent (programForExpression e) (compile_expression e).
Proof.
  intros c Hc. unfold programForExpression. destruct (c !! e) as [p|] eqn:He.
  - exists c. split; [|done]. f_equal. symmetry. exact (Hc _ _ He).
  - destruct (compile_expression e) as [p|err] eqn:Hp; [|by exists c].
    eexists. split; [done|]. by apply map_Forall_insert_2.
Qed.

Lemma evaluate_leaf_transparent r input :
  req_ok r -> transparent (evaluate_leaf r input) (leaf_reference r input).
Proof.
  intros Hr. unfold evaluate_leaf, leaf_reference. case_match; [|case_match; apply transparent_lift].
  apply transparent_bind.
  - destruct (program r) as [p|] eqn:Hp; [destruct (String.eqb_spec (compiledExpression r)
      (RewritePRGTaintContains (req_Expression r))) as [He|He]|];
      try (apply transparent_wrap, programForExpression_transparent).
    rewrite <-He, (Hr _ Hp). apply transparent_lift.
  - intros p. apply transparent_bind; [apply transparent_lift|].
    intros out. destruct (as_bool out); apply transparent_lift.
Qed.

Lemma evaluateLeaves_transparent reqs input :
  Forall req_ok reqs -> transparent (evaluateLeaves reqs input) (leaves_reference reqs input).
Proof.
  induction 1 as [|r reqs Hr Hreqs IH]; cbn [evaluateLeaves leaves_reference]; [apply transparent_lift|].
  apply transparent_bind; [by apply evaluate_leaf_transparent|]. intros [v f].
  apply transparent_bind; [done|]. intros [vs fs]. apply transparent_lift.
Qed.

Lemma detail_transparent rs input :
  set_ok rs -> transparent (EvaluateRequirementSetDetail rs input) (reference rs input).
Proof.
  induction rs as [id logic reqs children IH] using RequirementSet_nested_ind.
  cbn [set_ok]. rewrite set_ok_children. intros [Hreqs Hcs].
  cbn [EvaluateRequirementSetDetail reference]. case_match; [apply transparent_lift|].
  apply transparent_bind; [by apply evaluateLeaves_transparent|]. intros leaf.
  apply transparent_bind; [|intros child; apply transparent_lift].
  clear -IH Hcs. induction IH as [|c cs Hc _ IHcs]; [apply transparent_lift|].
  apply Forall_cons in Hcs as [Hc0 Hcs].
  apply transparent_bind; [by apply Hc|]. intros [v f].
  apply transparent_bind; [by apply IHcs|]. intros [vs fs]. apply transparent_lift.
Qed.
End Reference.

(** * Warming *)

Section Warm.
Context `{Cel}.

(** The policy content of a set: everything but the attached programs. *)
Definition strip_req (r : Requirement) : Requirement := r <| compiledExpression := "" |> <| program := None |>.
Fixpoint strip (rs : RequirementSet) : RequirementSet :=
  match rs with RSet id logic reqs children => RSet id logic (map strip_req reqs) (map strip children) end.

Lemma reference_strip rs input : reference (strip rs) input = reference rs input.
Proof.
  induction rs as [id logic reqs children IH] using RequirementSet_nested_ind.
  cbn [strip reference]. rewrite !length_map.
  assert (leaves_reference (map strip_req reqs) input = leaves_reference reqs input) as ->.
  { clear. induction reqs as [|r reqs IH]; [done|]. cbn [map leaves_reference]. by rewrite IH. }
  assert (children_reference (fun c => reference c input) (map strip children) =
          children_reference (fun c => reference c input) children) as ->; [|done].
  induction IH as [|c cs Hc _ IHcs]; [done|]. cbn [map children_reference]. by rewrite Hc, IHcs.
Qed.

Lemma Hash_strip `{Hash} rs : RequirementSet_Hash (strip rs) = RequirementSet_Hash rs.
Proof.
  induction rs as [id logic reqs children IH] using RequirementSet_nested_ind.
  cbn [strip RequirementSet_Hash]. rewrite !map_map.
  assert (map (fun c => "child=" +:+ RequirementSet_Hash (strip c) +:+ ";") children =
          map (fun c => "child=" +:+ RequirementSet_Hash c +:+ ";") children) as ->; [|done].
  induction IH as [|c cs Hc _ IHcs]; [done|]. cbn [map]. by rewrite Hc, IHcs.
Qed.

Lemma warmRequirements_ok reqs c :
  cache_ok c -> Forall req_ok reqs ->
  let '(c', reqs', e) := warmRequirements reqs c in
  cache_ok c' /\ Forall req_ok reqs' /\ map strip_req reqs' = map strip_req reqs.
Proof.
  intros Hc Hr. revert c Hc. induction Hr as [|r reqs Hr Hreqs IH]; intros c Hc; [done|].
  cbn [warmRequirements]. destruct (String.eqb (req_Expression r) "").
  - specialize (IH c Hc). destruct (warmRequirements reqs c) as [[c' reqs'] e].
    destruct IH as (? & ? & Hs). split_and!; [done|by constructor|]. cbn [map]. by rewrite Hs.
  - destruct (programForExpression_transparent (RewritePRGTaintContains (req_Expression r)) c Hc) as (c1 & -> & Hc1).
    destruct (compile_expression _) as [p|e] eqn:Hp; [|split_and!; [done|by constructor|done]].
    specialize (IH c1 Hc1). destruct (warmRequirements reqs c1) as [[c' reqs'] e].
    destruct IH as (? & ? & Hs). split_and!; [done|constructor; [|done]|].
    + intros p' [= <-]. exact Hp.
    + cbn [map]. by rewrite Hs.
Qed.

Lemma Warm_ok rs c :
  cache_ok c -> set_ok rs ->
  let '(c', rs', e) := WarmRequirementSet rs c in
  cache_ok c' /\ set_ok rs' /\ strip rs' = strip rs.
Proof.
  revert c. induction rs as [id logic reqs children IH] using RequirementSet_nested_ind. intros c Hc.
  cbn [set_ok]. rewrite set_ok_children. intros [Hreqs Hcs].
  cbn [WarmRequirementSet]. pose proof (warmRequirements_ok reqs c Hc Hreqs) as Hw.
  destruct (warmRequirements reqs c) as [[c1 reqs'] [u|e]]; destruct Hw as (Hc1 & Hr1 & Hs1);
    [|cbn [set_ok strip]; rewrite set_ok_children, Hs1; done].
  match goal with |- context [?w children c1] => set (warm := w) end.
  assert (let '(c2, cs', e) := warm children c1 in
    cache_ok c2 /\ Forall set_ok cs' /\ map strip cs' = map strip children) as Hch.
  { clear -IH Hcs Hc1. revert c1 Hc1. induction IH as [|x cs Hx _ IHcs]; intros c1 Hc1; [done|].
    apply Forall_cons in Hcs as [Hx0 Hcs]. specialize (Hx c1 Hc1 Hx0).
    change (warm (x :: cs) c1) with (let '(cache, c, e) := WarmRequirementSet x c1 in
      match e with Fail e => (cache, c :: cs, Fail e)
      | Ok _ => let '(cache, cs', e) := warm cs cache in (cache, c :: cs', e) end).
    destruct (WarmRequirementSet x c1) as [[c2 x'] [u|e]]; destruct Hx as (Hc2 & Hx' & Hs).
    - specialize (IHcs Hcs c2 Hc2). destruct (warm cs c2) as [[c3 cs'] e].
      destruct IHcs as (? & ? & Hs'). split_and!; [done|by constructor|]. cbn [map]. by rewrite Hs, Hs'.
    - split_and!; [done|by constructor|]. cbn [map]. by rewrite Hs. }
  destruct (warm children c1) as [[c2 cs'] e]. destruct Hch as (Hc2 & Hcs' & Hs2).
  cbn [set_ok strip]. rewrite set_ok_children, Hs1, Hs2. done.
Qed.
End Warm.

(** C34. The program cache and the attached programs are invisible: with any
    coherent cache (the empty one is), evaluating a requirement set gives the
    verdict, the failed requirements or the error of the cache-free reference
    evaluator; warming the set first, even when the warming itself fails,
    changes neither that outcome nor the set's hash, and coherence is kept. *)
Theorem prg_cache_transparent `{Cel} `{Hash} rs input cache :
  cache_ok cache -> set_ok rs ->
  cache_ok ∅ /\
  (EvaluateRequirementSetDetail rs input cache).2 = reference rs input /\
  cache_ok (EvaluateRequirementSetDetail rs input cache).1 /\
  let '(cache', rs', _) := WarmRequirementSet rs cache in
  cache_ok cache' /\ RequirementSet_Hash rs' = RequirementSet_Hash rs /\
  (EvaluateRequirementSetDetail rs' input cache').2 = reference rs input.
Proof.
  intros Hc Hs. split; [apply map_Forall_empty|].
  destruct (detail_transparent rs input Hs cache Hc) as (c1 & -> & Hc1).
  split; [done|]. split; [done|].
  pose proof (Warm_ok rs cache Hc Hs) as Hw. destruct (WarmRequirementSet rs cache) as [[c2 rs'] e].
  destruct Hw as (Hc2 & Hs2 & Hst). split; [done|]. split.
  - by rewrite <-Hash_strip, Hst, Hash_strip.
  - destruct (detail_transparent rs' input Hs2 c2 Hc2) as (c3 & -> & _).
    cbn [snd]. by rewrite <-reference_strip, Hst, reference_strip.
Qed.

(** A compiler for the two literals, enough to run the engine. *)
Definition toy_cel : Cel := {|
  Ast := bool; Program := bool;
  env_Compile := fun e => if String.eqb e "true" then Ok true
                          else if String.eqb e "false" then Ok false else Fail "syntax error";
  env_Program := fun b => Ok b;
  prog_Eval := fun b _ => Ok (ABool b) |}.

Definition leaf_req `{Cel} (id artifact expression : string) : Requirement := {|
  req_ID := id; req_Description := ""; req_ArtifactType := artifact; req_SignerID := "";
  req_Expression := expression; compiledExpression := ""; program := None |}.

Definition no_input : PolicyInput := {| in_vars := ∅; in_artifacts := Some [] |}.

Lemma prg_cache_transparent_witness :
  let rs := @RSet toy_cel "r" "AND" [@leaf_req toy_cel "a" "" "true"; @leaf_req toy_cel "b" "" "false"] [] in
  (@EvaluateRequirementSetDetail toy_cel rs no_input {["true" := true]}).2 = Ok (false, ["b"]).
Proof.
  intros rs.
  destruct (@prg_cache_transparent toy_cel id_hash rs no_input {["true" := true]}) as (_ & Hr & _).
  - apply map_Forall_singleton. reflexivity.
  - split; [|done]. repeat constructor; by intros ?.
  - rewrite Hr. vm_compute. reflexivity.
Defined.

(** * The artifact-only validator *)

Section Agreement.
Context `{Cel} (artifacts : list ArtifactEnvelope) (vars : obj).
Let input : PolicyInput := {| in_vars := vars; in_artifacts := Some artifacts |}.

Definition plain_req (r : Requirement) : Prop := req_Expression r = "" /\ req_ArtifactType r <> "".

Lemma plain_reqs reqs :
  existsb (fun r => negb (String.eqb (req_Expression r) "")) reqs = false ->
  existsb (fun r => String.eqb (req_ArtifactType r) "" && String.eqb (req_Expression r) "") reqs = false ->
  Forall plain_req reqs.
Proof.
  induction reqs as [|r reqs IH]; [constructor|]. cbn [existsb].
  intros [H1%negb_false_iff%String.eqb_eq H1']%orb_false_iff [H2 H2']%orb_false_iff.
  constructor; [|by apply IH]. split; [done|]. intros Ha. by rewrite Ha, H1 in H2.
Qed.

Lemma plain_leaves reqs : Forall plain_req reqs ->
  exists fs, leaves_reference reqs input =
    Ok (map (fun r => negb (String.eqb (req_ArtifactType r) "")
                      && artifact_present (req_ArtifactType r) artifacts) reqs, fs).
Proof.
  induction 1 as [|r reqs [He Ha] _ [fs IH]]; [by exists []|].
  cbn [leaves_reference map]. unfold leaf_reference at 1. rewrite He. cbn [String.eqb negb].
  apply String.eqb_neq in Ha. rewrite Ha. cbn [negb andb]. rewrite IH. eexists. reflexivity.
Qed.

Definition known_logic (logic : string) : bool :=
  String.eqb logic AND || String.eqb logic "" || String.eqb logic OR || String.eqb logic NOT.

Lemma existsb_negb l : existsb negb l = negb (forallb id l).
Proof. induction l as [|[] l IH]; cbn; done. Qed.

(** The two aggregations, for a set that is not empty. *)
Lemma combine_agrees logic (results : list bool) :
  combineResults logic results =
  if known_logic logic
  then Ok (if String.eqb logic AND || String.eqb logic "" then forallb id results
           else if String.eqb logic OR then existsb id results
           else if String.eqb logic NOT then existsb negb results else false)
  else Fail ("unknown logic operator: " +:+ logic).
Proof.
  unfold combineResults, known_logic. rewrite existsb_negb.
  by destruct (String.eqb logic AND), (String.eqb logic ""), (String.eqb logic OR), (String.eqb logic NOT).
Qed.

(** Every operator of the tree is one the engine knows. *)
Fixpoint logic_ok (rs : RequirementSet) : bool :=
  match rs with
  | RSet _ logic reqs children =>
      (Nat.eqb (length reqs) 0 && Nat.eqb (length children) 0 || known_logic logic)
      && forallb logic_ok children
  end.

Lemma check_reference rs :
  hasExpressionRequirement rs = false -> hasMalformedRequirement rs = false -> logic_ok rs = true ->
  exists fs, reference rs input = Ok (check rs artifacts, fs).
Proof.
  induction rs as [id logic reqs children IH] using RequirementSet_nested_ind.
  cbn [hasExpressionRequirement hasMalformedRequirement logic_ok reference check].
  intros [He Hec]%orb_false_iff [Hm Hmc]%orb_false_iff [Hl Hlc]%andb_true_iff.
  destruct (plain_leaves reqs (plain_reqs reqs He Hm)) as [fs Hleaf].
  assert (exists fs, children_reference (fun c => reference c input) children =
    Ok (map (fun c => check c artifacts) children, fs)) as [gs Hch].
  { clear -IH Hec Hmc Hlc. induction IH as [|c cs Hc _ IHcs]; [by exists []|].
    cbn [existsb forallb] in *. boolean. destruct Hc as [f Hc]; [done..|]. destruct IHcs as [gs IHcs]; [done..|].
    cbn [children_reference map]. rewrite Hc, IHcs. eexists. reflexivity. }
  destruct (_ && _) eqn:Hempty.
  { apply andb_true_iff in Hempty as [H1%Nat.eqb_eq%nil_length_inv H2%Nat.eqb_eq%nil_length_inv].
    rewrite H1, H2. by exists []. }
  rewrite Hleaf, Hch. cbn [mbind res_bind]. unfold conclude. cbn [fst snd].
  rewrite combine_agrees. cbn [orb] in Hl. rewrite Hl. cbn [mbind res_bind].
  destruct (map _ reqs ++ map _ children)%list as [|x l] eqn:Hres.
  { apply app_eq_nil in Hres as [H1%map_eq_nil H2%map_eq_nil]. by rewrite H1, H2 in Hempty. }
  rewrite <-Hres. repeat case_match; eexists; try reflexivity; congruence.
Qed.
End Agreement.

(** The two evaluators agree where both apply: on a rule without CEL
    expressions and malformed leaves, and with known operators, Graph.Validate
    succeeds (returning the rule's hash) exactly when the policy engine, given
    the same artifacts, finds the requirement set satisfied; and Validate never
    succeeds without a rule, or on a rule with an expression it would not
    evaluate or with a malformed leaf. *)
Theorem prg_validators_agree `{Cel} `{Hash} (g : gmap string RequirementSet) action artifacts vars :
  (forall rs, g !! action = Some rs -> logic_ok rs = true) ->
  forall h, Validate g action artifacts = Ok h <->
  exists rs fs, g !! action = Some rs /\ hasExpressionRequirement rs = false /\
    hasMalformedRequirement rs = false /\ h = RequirementSet_Hash rs /\
    reference rs {| in_vars := vars; in_artifacts := Some artifacts |} = Ok (true, fs).
Proof.
  intros Hl h. unfold Validate. destruct (g !! action) as [rs|] eqn:Hg; [|split; [done|by intros (?&?&?&_)]].
  destruct (hasExpressionRequirement rs) eqn:He.
  { split; [done|]. intros (?&?&[= <-]&?&_). congruence. }
  destruct (hasMalformedRequirement rs) eqn:Hm.
  { split; [done|]. intros (?&?&[= <-]&_&?&_). congruence. }
  destruct (check_reference artifacts vars rs He Hm (Hl _ eq_refl)) as [fs Hr].
  destruct (check rs artifacts); split.
  - intros [= <-]. by exists rs, fs.
  - intros (?&?&[= <-]&_&_&->&_). done.
  - done.
  - intros (?&?&[= <-]&_&_&_&Hr'). congruence.
Qed.

Lemma prg_validators_agree_witness :
  let rs := @RSet toy_cel "r" "NOT" [@leaf_req toy_cel "a" "evidence/alert" ""] [] in
  @Validate toy_cel id_hash {["act" := rs]} "act" [] = Ok (@RequirementSet_Hash toy_cel id_hash rs).
Proof.
  intros rs. apply (@prg_validators_agree toy_cel id_hash {["act" := rs]} "act" [] ∅).
  - intros rs' [_ <-]%lookup_singleton_Some. reflexivity.
  - exists rs, []. rewrite lookup_singleton_eq. done.
Defined.

(** * Denials *)

Section Denials.
Context `{Cel} (input : PolicyInput).

(** The requirements a denial may name: a direct requirement of the set that
    evaluates to false, a NOT set, or one named by a child. *)
Inductive unmet : RequirementSet -> string -> Prop :=
| unmet_leaf id logic reqs children r fs :
    r ∈ reqs -> leaf_reference r input = Ok (false, fs) -> unmet (RSet id logic reqs children) (req_ID r)
| unmet_not id reqs children : unmet (RSet id NOT reqs children) id
| unmet_child id logic reqs children c i :
    c ∈ children -> unmet c i -> unmet (RSet id logic reqs children) i.

(** What the loops collect: nothing is named without a failed element, and
    a failed element contributes a name. *)
Lemma leaf_verdict r v f : leaf_reference r input = Ok (v, f) -> f = if v then [] else [req_ID r].
Proof.
  unfold leaf_reference, verdict. destruct (negb (String.eqb (req_Expression r) "")).
  - intros (p & _ & (out & _ & Hout)%res_bind_Ok)%res_bind_Ok.
    destruct (as_bool out); [|done]. by injection Hout as <- <-.
  - destruct (negb _); by intros [= <- <-].
Qed.

Lemma leaves_named reqs vs fs :
  leaves_reference reqs input = Ok (vs, fs) ->
  length vs = length reqs /\ (forallb id vs = false -> fs <> []) /\
  Forall (fun i => exists r f, r ∈ reqs /\ leaf_reference r input = Ok (false, f) /\ i = req_ID r) fs.
Proof.
  revert vs fs. induction reqs as [|r reqs IH]; intros vs fs; cbn [leaves_reference].
  { intros [= <- <-]. by repeat constructor. }
  intros ([v f] & Hr & ([vs' fs'] & Hrs & [= <- <-])%res_bind_Ok)%res_bind_Ok.
  destruct (IH _ _ Hrs) as (Hlen & Hne & Hall). pose proof (leaf_verdict r v f Hr) as Hf.
  cbn [length forallb]. split; [by rewrite Hlen|]. split.
  - destruct v; subst f; [|done]. exact Hne.
  - apply Forall_app. split.
    + destruct v; subst f; repeat constructor. eauto using list_elem_of_here.
    + eapply Forall_impl; [exact Hall|]. intros i (r' & f' & Hin & ?). eauto using list_elem_of_further.
Qed.

Lemma children_named f cs vs fs :
  (forall c fl, c ∈ cs -> f c = Ok (false, fl) -> fl <> []) ->
  children_reference f cs = Ok (vs, fs) ->
  length vs = length cs /\ (forallb id vs = false -> fs <> []) /\
  Forall (fun i => exists c fl, c ∈ cs /\ f c = Ok (false, fl) /\ i ∈ fl) fs.
Proof.
  revert vs fs. induction cs as [|c cs IH]; intros vs fs Hall; cbn [children_reference].
  { intros [= <- <-]. by repeat constructor. }
  intros ([v fl] & Hc & ([vs' fs'] & Hcs & [= <- <-])%res_bind_Ok)%res_bind_Ok.
  destruct (IH vs' fs') as (Hlen & Hne & Hf); [eauto using list_elem_of_further|done|].
  cbn [length forallb]. split; [by rewrite Hlen|]. split.
  - destruct v; [exact Hne|]. intros _ [He _]%app_eq_nil. by eapply Hall; [apply list_elem_of_here|..].
  - apply Forall_app. split.
    + destruct v; [constructor|]. apply Forall_forall. eauto 6 using list_elem_of_here.
    + eapply Forall_impl; [exact Hf|]. intros i (c' & f' & Hin & ?). eauto 6 using list_elem_of_further.
Qed.

(** A result that is false has a false argument, unless the operator is NOT. *)
Lemma combine_false logic results :
  combineResults logic results = Ok false -> results <> [] -> String.eqb logic NOT = false ->
  forallb id results = false.
Proof.
  unfold combineResults. intros Hc Hne Hn. rewrite Hn in Hc. repeat case_match; try done; [by injection Hc|].
  injection Hc as Hc. destruct results as [|b results]; [done|]. cbn in *. by destruct b.
Qed.

Lemma denial_named rs fs : reference rs input = Ok (false, fs) -> fs <> [] /\ Forall (unmet rs) fs.
Proof.
  revert fs. induction rs as [id0 logic reqs children IH] using RequirementSet_nested_ind. intros fs.
  cbn [reference]. destruct (_ && _) eqn:Hempty; [done|].
  intros ([vs fl] & Hleaf & ([ws gl] & Hch & Hcon)%res_bind_Ok)%res_bind_Ok.
  rewrite Forall_forall in IH.
  destruct (leaves_named _ _ _ Hleaf) as (Hl1 & Hn1 & Hf1).
  destruct (children_named _ _ _ _ (fun c fl Hin Hc => proj1 (IH c Hin fl Hc)) Hch) as (Hl2 & Hn2 & Hf2).
  apply res_bind_Ok in Hcon as ([] & Hv & Hcon); [done|]. cbn [fst snd] in *.
  destruct (String.eqb_spec logic NOT) as [->|Hnot].
  { injection Hcon as <-. split; [done|]. by repeat constructor. }
  injection Hcon as <-. split.
  - apply combine_false in Hv; [| |by apply String.eqb_neq].
    + rewrite forallb_app in Hv. apply andb_false_iff in Hv as [Hv|Hv].
      * intros [He _]%app_eq_nil. by apply Hn1.
      * intros [_ He]%app_eq_nil. by apply Hn2.
    + intros [-> ->]%app_eq_nil. cbn in Hl1, Hl2. by rewrite <-Hl1, <-Hl2 in Hempty.
  - apply Forall_app. split.
    + eapply Forall_impl; [exact Hf1|]. intros i (r & f & Hin & Hr & ->). by eapply unmet_leaf.
    + eapply Forall_impl; [exact Hf2|]. intros i (c & f & Hin & Hc & Hi).
      eapply unmet_child; [exact Hin|]. destruct (IH c Hin f Hc) as [_ Hu].
      rewrite Forall_forall in Hu. auto.
Qed.
End Denials.

(** A denial is explained: when the engine finds a requirement set
    unsatisfied it names at least one requirement, and every name it reports
    belongs to a requirement of the tree that evaluated to false, or to a NOT
    set. *)
Theorem prg_denial_explained `{Cel} rs input cache cache' fs :
  cache_ok cache -> set_ok rs ->
  EvaluateRequirementSetDetail rs input cache = (cache', Ok (false, fs)) ->
  fs <> [] /\ Forall (unmet input rs) fs.
Proof.
  intros Hc Hs He. apply denial_named.
  destruct (detail_transparent rs input Hs cache Hc) as (c1 & Hd & _). rewrite He in Hd. by injection Hd.
Qed.

Lemma prg_denial_explained_witness :
  let rs := @RSet toy_cel "r" "" [] [@RSet toy_cel "s" "OR" [@leaf_req toy_cel "a" "t" ""] []] in
  ["a"] <> [] /\ Forall (@unmet toy_cel no_input rs) ["a"].
Proof.
  intros rs. apply (@prg_denial_explained toy_cel rs no_input ∅ ∅ ["a"]).
  - apply map_Forall_empty.
  - cbn. split; [constructor|]. split; [|done]. split; [|done]. repeat constructor. by intros ?.
  - vm_compute. reflexivity.
Defined.

(** The hash of a requirement set does not identify its content: two
    sets hash alike under every hash function although the first lets every
    call through and the second demands an artifact; and the signer a
    requirement asks for is not part of the hash at all. *)
Theorem requirement_hash_ambiguous `{Cel} `{Hash} :
  let open := RSet "p" "AND" [leaf_req "x:evidence" "" ""] [] in
  let gated := RSet "p" "AND" [leaf_req "x" "evidence:" ""] [] in
  RequirementSet_Hash open = RequirementSet_Hash gated /\
  (forall cache, (EvaluateRequirementSetDetail open no_input cache).2 = Ok (true, [])) /\
  (forall cache, (EvaluateRequirementSetDetail gated no_input cache).2 = Ok (false, ["x"])) /\
  (forall r signer, RequirementSet_Hash (RSet "p" "AND" [r <| req_SignerID := signer |>] []) =
                    RequirementSet_Hash (RSet "p" "AND" [r] [])).
Proof. repeat split; done. Qed.
