(* ===== verification/AuditLog.v ===== *)
(** The guardian's tamper-evident audit log, [core/pkg/guardian/audit.go]. *)
From S2P Require Import Prelude GoLib GoFmt Utf8 Jcs Contracts Signing.

Local Open Scope string_scope.

Record AuditEntry := {
  ae_ID : string;
  ae_Timestamp : time;
  ae_Actor : string;
  ae_Action : string;
  ae_Target : string;
  ae_Details : string;
  ae_PreviousHash : string;
  ae_Hash : string;
}.
#[export] Instance AuditEntry_eta : Eta AuditEntry := fun r => {|
  ae_ID := ae_ID r; ae_Timestamp := ae_Timestamp r; ae_Actor := ae_Actor r; ae_Action := ae_Action r;
  ae_Target := ae_Target r; ae_Details := ae_Details r; ae_PreviousHash := ae_PreviousHash r;
  ae_Hash := ae_Hash r |}.

(** [AuditLog.Entries] *)
Abbreviation AuditLog := (list AuditEntry).

(** The hashed members, in the order they are written. *)
Definition entry_fields (e : AuditEntry) (ts : string) : list (string * string) :=
  [("id", ae_ID e); ("timestamp", ts); ("actor", ae_Actor e); ("action", ae_Action e);
   ("target", ae_Target e); ("details", ae_Details e); ("previous_hash", ae_PreviousHash e)].

Definition flat_object (l : list (string * string)) : json := JObj (map (fun kv => (kv.1, JStr kv.2)) l).

Section Log.
Context `{Hash}.

Definition computeEntryHash (e : AuditEntry) : res string :=
  ts ← fmt_time (ae_Timestamp e);
  canonicalBytes ← JCS (flat_object (entry_fields e ts));
  Ok (hex_encode (sha256 canonicalBytes)).

Definition last_hash (l : AuditLog) : string := default "" (ae_Hash <$> last l).

Definition Append (actor action target details : string) (now : time) (l : AuditLog)
    : AuditLog * res AuditEntry :=
  let entry := {| ae_ID := "evt_" +:+ dec (wrap64 now); ae_Timestamp := now; ae_Actor := actor;
                  ae_Action := action; ae_Target := target; ae_Details := details;
                  ae_PreviousHash := last_hash l; ae_Hash := "" |} in
  match computeEntryHash entry with
  | Fail e => (l, Fail e)
  | Ok h => let entry := entry <| ae_Hash := h |> in ((l ++ [entry])%list, Ok entry)
  end.

(** The loop of [VerifyChain] from index [i], [prev] being the previous
    entry's hash. *)
Fixpoint verify_from (i : nat) (prev : string) (l : AuditLog) : res unit :=
  match l with
  | [] => Ok tt
  | entry :: l' =>
      if negb (String.eqb (ae_PreviousHash entry) prev)
      then Fail (if Nat.ltb 0 i
                 then "chain broken at index " +:+ dec (Z.of_nat i) +:+ ": previous hash mismatch"
                 else "genesis block (index 0) has non-empty previous hash")
      else match computeEntryHash entry with
           | Fail e => Fail ("failed to recompute hash at index " +:+ dec (Z.of_nat i) +:+ ": " +:+ e)
           | Ok h => if String.eqb h (ae_Hash entry) then verify_from (S i) (ae_Hash entry) l'
                     else Fail ("integrity failure at index " +:+ dec (Z.of_nat i) +:+ ": computed "
                                +:+ h +:+ ", stored " +:+ ae_Hash entry)
           end
  end.

Definition VerifyChain (l : AuditLog) : res unit := verify_from 0 "" l.

Definition call : Type := string * string * string * string * time.
Definition run (calls : list call) (l : AuditLog) : AuditLog :=
  foldl (fun l '(a, b, c, d, t) => (Append a b c d t l).1) l calls.

(** The link condition of one entry. *)
Definition linked (prev : string) (e : AuditEntry) : Prop :=
  ae_PreviousHash e = prev /\ computeEntryHash e = Ok (ae_Hash e).

Lemma last_cons_hash e l prev : default prev (ae_Hash <$> last (e :: l)) = default (ae_Hash e) (ae_Hash <$> last l).
Proof. rewrite last_cons. by destruct (last l). Qed.

Lemma verify_snoc i prev l e :
  verify_from i prev (l ++ [e]) = Ok tt <->
  verify_from i prev l = Ok tt /\ linked (default prev (ae_Hash <$> last l)) e.
Proof.
  revert i prev. induction l as [|x l IH]; intros i prev.
  - cbn [app verify_from last fmap option_fmap option_map default]. unfold linked.
    destruct (String.eqb_spec (ae_PreviousHash e) prev) as [->|Hne]; cbn [negb];
      [|split; [done|]; by intros (_ & ? & _)].
    destruct (computeEntryHash e) as [h|]; [|split; [done|]; by intros (_ & _ & ?)].
    destruct (String.eqb_spec h (ae_Hash e)) as [->|Hne].
    + done.
    + split; [done|]. intros (_ & _ & ?%Ok_inj). done.
  - cbn [app verify_from]. rewrite last_cons_hash.
    destruct (negb _); [split; [done|]; by intros [? _]|].
    destruct (computeEntryHash x); [|split; [done|]; by intros [? _]].
    destruct (String.eqb _ _); [apply IH|split; [done|]; by intros [? _]].
Qed.

Lemma Append_ok a b c d t l :
  VerifyChain l = Ok tt -> VerifyChain (Append a b c d t l).1 = Ok tt.
Proof.
  intros Hv. unfold Append. destruct (computeEntryHash _) as [h|e] eqn:Hh; [|done].
  cbn [fst]. apply verify_snoc. split; [done|]. split; [done|]. exact Hh.
Qed.

Lemma Append_prefix a b c d t l : l `prefix_of` (Append a b c d t l).1.
Proof. unfold Append. destruct (computeEntryHash _); [by eexists|done]. Qed.
End Log.

(** Appending is safe: after any sequence of appends to an empty log, also
    when some of them fail, the chain verifies, and every later log extends the
    earlier one without changing an entry. *)
Theorem audit_log_appends `{Hash} calls1 calls2 :
  let l1 := run calls1 [] in
  VerifyChain l1 = Ok tt /\ VerifyChain (run calls2 l1) = Ok tt /\ l1 `prefix_of` run calls2 l1.
Proof.
  assert (forall calls l, VerifyChain l = Ok tt ->
    VerifyChain (run calls l) = Ok tt /\ l `prefix_of` run calls l) as Hrun.
  { intros calls. unfold run. induction calls as [|[[[[a b] c] d] t] calls IH]; intros l Hl; [done|].
    cbn [foldl]. destruct (IH _ (Append_ok a b c d t l Hl)) as [Hv Hp]. split; [done|].
    etrans; [apply (Append_prefix a b c d t)|exact Hp]. }
  cbv zeta. destruct (Hrun calls1 [] eq_refl) as [H1 _]. split; [done|]. by apply Hrun.
Qed.

(** * Tampering *)

(** Two lists of members with the same distinct keys, equal up to reordering,
    are equal. *)
Lemma perm_same_keys {V} (l k : list (string * V)) :
  l.*1 = k.*1 -> NoDup l.*1 -> l ≡ₚ k -> l = k.
Proof.
  intros Hk Hnd Hp. apply list_eq. intros i.
  assert (Hlen : length l = length k) by (by rewrite Hp).
  destruct (l !! i) as [[a v]|] eqn:Hi.
  - assert ((a, v) ∈ k) as [j Hj]%list_elem_of_lookup.
    { rewrite <-Hp. apply list_elem_of_lookup. by exists i. }
    assert (i = j) as ->; [|done].
    eapply NoDup_lookup; [exact Hnd| |].
    + rewrite list_lookup_fmap, Hi. reflexivity.
    + rewrite Hk, list_lookup_fmap, Hj. reflexivity.
  - symmetry. apply lookup_ge_None. apply lookup_ge_None in Hi. lia.
Qed.

Lemma flat_object_inj l k :
  l.*1 = k.*1 -> NoDup l.*1 -> forallb valid_string l.*1 = true ->
  JCS (flat_object l) = JCS (flat_object k) ->
  map (fun kv => sanitize_string kv.2) l = map (fun kv => sanitize_string kv.2) k.
Proof.
  intros Hk Hnd Hv. rewrite !JCS_Ok. intros E%Ok_inj.
  set (f := fun kv : string * string => (kv.1, JStr (sanitize_string kv.2))).
  assert (forall q, q.*1 = l.*1 -> reparse (flat_object q) = JObj (map f q)) as Hre.
  { intros q Hq. unfold flat_object. cbn [reparse]. f_equal. rewrite map_map.
    assert (map (fun x => (sanitize_string x.1, JStr (sanitize_string x.2))) q = map f q) as Hm.
    { assert (Forall (fun kv => valid_string kv.1 = true) q) as Hf.
      { apply Forall_forall. intros kv Hin. rewrite <-Hq, forallb_Forall, Forall_forall in Hv.
        apply Hv. by apply list_elem_of_fmap_2. }
      clear -Hf. induction Hf as [|x q Hx Hf IH]; [done|]. cbn [map]. rewrite IH. f_equal.
      unfold f. by rewrite sanitize_string_id. }
    etrans; [exact (f_equal last_wins Hm)|]. apply last_wins_id.
    assert ((map f q).*1 = q.*1) as -> by (rewrite <-list_fmap_compose; done). by rewrite Hq. }
  rewrite (Hre l eq_refl), (Hre k (eq_sym Hk)) in E.
  assert (forall q, q.*1 = l.*1 -> json_wf (JObj (map f q)) = true) as Hwf.
  { intros q Hq. cbn [json_wf]. apply andb_true_iff. split.
    - apply bool_decide_eq_true. assert ((map f q).*1 = q.*1) as -> by (rewrite <-list_fmap_compose; done).
      by rewrite Hq.
    - rewrite forallb_map. cbn. apply forallb_Forall, Forall_true. done. }
  apply enc_jeq in E; [|by apply Hwf|by apply Hwf].
  assert (map f l = map f k) as Hm.
  { inversion E as [?|?|? k' ? H2 Hp]; subst; [done|].
    assert (map f l = k') as <-.
    { assert (Forall (fun kv => exists s, kv.2 = JStr s) (map f l)) as Hs
        by (apply Forall_map, Forall_true; eauto).
      clear -H2 Hs. induction H2 as [|x y a b [Hxy Hj] H2 IH]; [done|].
      apply Forall_cons in Hs as [[s Hs] Hs']. f_equal; [|by apply IH].
      destruct x as [x1 x2], y as [y1 y2]; cbn in *. subst. by inversion Hj. }
    apply perm_same_keys; [| |done].
    - rewrite <-!list_fmap_compose. exact Hk.
    - rewrite <-list_fmap_compose. exact Hnd. }
  clear -Hm. revert k Hm. induction l as [|x l IH]; intros [|y k] Hm; try done.
  cbn [map] in *. injection Hm as H1 H2 H3. f_equal; [done|by apply IH].
Qed.

(** What an entry says: its hashed members as JSON text (ill-formed UTF-8 is
    replaced when it is written). *)
Definition entry_text (e : AuditEntry) : option (list string) :=
  match fmt_time (ae_Timestamp e) with
  | Ok ts => Some (map (fun kv => sanitize_string kv.2) (entry_fields e ts))
  | Fail _ => None
  end.

Section Tamper.
Context `{Hash} (sha256_nonempty : forall b, sha256 b <> []).

Lemma same_hash e1 e2 h :
  computeEntryHash e1 = Ok h -> computeEntryHash e2 = Ok h ->
  entry_text e1 = entry_text e2 \/ collision.
Proof.
  unfold computeEntryHash, entry_text. rewrite !res_bind_Ok.
  intros (ts1 & -> & (b1 & Hj1 & H1%Ok_inj)%res_bind_Ok) (ts2 & -> & (b2 & Hj2 & H2%Ok_inj)%res_bind_Ok).
  rewrite <-H2 in H1. apply hex_encode_inj in H1.
  destruct (decide (b1 = b2)) as [->|Hne]; [left|right; by exists b1, b2].
  f_equal. apply flat_object_inj; [done| |vm_compute; reflexivity|by rewrite Hj1, Hj2].
  apply (bool_decide_unpack _). vm_compute. exact I.
Qed.

Lemma verified_last l : VerifyChain l = Ok tt ->
  (l = [] /\ last_hash l = "") \/ (l <> [] /\ exists b, last_hash l = hex_encode (sha256 b)).
Proof.
  destruct l as [|e l _] using rev_ind; [by left|].
  intros [_ [_ Hc]]%verify_snoc. right. split; [by destruct l|].
  unfold last_hash. rewrite last_snoc. cbn. unfold computeEntryHash in Hc.
  apply res_bind_Ok in Hc as (ts & _ & (b & _ & Hb%Ok_inj)%res_bind_Ok). by exists b.
Qed.

Lemma last_hash_valid l : VerifyChain l = Ok tt -> valid_string (last_hash l) = true.
Proof. intros [[_ ->]|[_ [b ->]]]%verified_last; [done|apply hex_valid]. Qed.

Lemma text_previous e1 e2 : entry_text e1 = entry_text e2 -> is_ok (computeEntryHash e1) = true ->
  sanitize_string (ae_PreviousHash e1) = sanitize_string (ae_PreviousHash e2).
Proof.
  unfold entry_text, computeEntryHash. destruct (fmt_time (ae_Timestamp e1)); [|done].
  destruct (fmt_time (ae_Timestamp e2)); [|done]. intros E _. apply (f_equal (default [])) in E.
  apply (f_equal (fun l => l !! 6)) in E. cbn in E. by injection E.
Qed.

Lemma hex_nonempty b : hex_encode (sha256 b) <> "".
Proof.
  intros E%(f_equal to_bytes). unfold hex_encode in E. rewrite to_of_bytes in E.
  pose proof (sha256_nonempty b) as Hne. by destruct (sha256 b).
Qed.

Lemma chains_agree l1 l2 :
  VerifyChain l1 = Ok tt -> VerifyChain l2 = Ok tt -> last_hash l1 = last_hash l2 ->
  map entry_text l1 = map entry_text l2 \/ collision.
Proof.
  revert l2. induction l1 as [|e1 l1 IH] using rev_ind; intros l2 Hv1 Hv2 Hl.
  - destruct (verified_last l2 Hv2) as [[-> _]|[_ [b Hb]]]; [by left|].
    rewrite Hb in Hl. by destruct (hex_nonempty b).
  - destruct l2 as [|e2 l2 _] using rev_ind.
    { destruct (verified_last _ Hv1) as [[Hn _]|[_ [b Hb]]]; [by destruct l1|].
      rewrite Hb in Hl. by destruct (hex_nonempty b). }
    unfold last_hash in Hl. rewrite !last_snoc in Hl. cbn in Hl.
    apply verify_snoc in Hv1 as [Hv1 [Hp1 Hc1]], Hv2 as [Hv2 [Hp2 Hc2]]. rewrite <-Hl in Hc2.
    destruct (same_hash e1 e2 _ Hc1 Hc2) as [Ht|]; [|by right].
    pose proof (text_previous e1 e2 Ht) as Hp. rewrite Hc1 in Hp. specialize (Hp eq_refl).
    rewrite Hp1, Hp2 in Hp.
    rewrite !sanitize_string_id in Hp by (by apply last_hash_valid).
    destruct (IH l2 Hv1 Hv2 Hp) as [IHt|]; [left|by right].
    rewrite !map_app, IHt. cbn [map]. by rewrite Ht.
Qed.
End Tamper.

(** C35. The log is tamper-evident: the hash of the last entry pins the whole
    history.  Two logs that both verify and end in the same hash have the same
    number of entries with the same text throughout (identifier, time, actor,
    action, target, details, link), unless SHA-256 collides; so no entry can be
    changed, removed, inserted or reordered without changing the last hash or
    failing verification. *)
Theorem audit_log_tamper_evident `{Hash} l1 l2 :
  (forall b, sha256 b <> []) ->
  VerifyChain l1 = Ok tt -> VerifyChain l2 = Ok tt -> last_hash l1 = last_hash l2 ->
  (length l1 = length l2 /\ map entry_text l1 = map entry_text l2) \/ collision.
Proof.
  intros Hne H1 H2 Hl. destruct (chains_agree Hne l1 l2 H1 H2 Hl) as [Ht|]; [left|by right].
  split; [|done]. apply (f_equal length) in Ht. by rewrite !length_map in Ht.
Qed.

(** A hash that maps every text to one digest: logs of different lengths that both
    verify end in the same hash, and the theorem finds the collision. *)
Definition constant_hash : Hash := fun _ => [byte 0].

Lemma audit_log_tamper_evident_witness :
  let one := @run constant_hash [("a", "act", "t", "{}", 5%Z)] [] in
  let two := @run constant_hash [("a", "act", "t", "{}", 5%Z); ("b", "act", "u", "{}", 6%Z)] [] in
  (length one = 1 /\ length two = 2) /\ @collision constant_hash.
Proof.
  intros one two. assert (L : length one = 1 /\ length two = 2) by (vm_compute; split; reflexivity).
  split; [exact L|]. destruct (@audit_log_tamper_evident constant_hash one two) as [[E _]|C].
  - done.
  - vm_compute. reflexivity.
  - vm_compute. reflexivity.
  - vm_compute. reflexivity.
  - exfalso. destruct L as [L1 L2]. rewrite L1, L2 in E. discriminate E.
  - exact C.
Defined.
