(* ===== verification/Breaker.v ===== *)
(** Circuit breakers of the effects gateway, [core/pkg/effects/circuitbreaker.go]:
    the state machine CLOSED, OPEN, HALF_OPEN of one connector and the registry of
    breakers by connector.

    A call reads the breaker's clock once, the reading is an argument.  Counters are
    64-bit.  The calls of the state-change callback are kept in the state, latest
    first. *)
From S2P Require Import Prelude GoLib.

Local Open Scope string_scope.

(** The text of a state; a breaker that no constructor built has another one, the empty text. *)
Inductive CircuitState :=
| CircuitStateClosed
| CircuitStateOpen
| CircuitStateHalfOpen
| CircuitStateOther (text : string).

#[export] Instance CircuitState_eq_dec : EqDecision CircuitState.
Proof. solve_decision. Defined.

Definition CircuitBreakerDefaultFailureThreshold : Z := 5.
Definition CircuitBreakerDefaultRecoveryTimeout : duration := (30 * second)%Z.
Definition CircuitBreakerDefaultHalfOpenMaxAttempts : Z := 1.
Definition CircuitBreakerDefaultSuccessThreshold : Z := 1.

Record ErrCircuitOpen := {
  eo_ConnectorID : string;
  eo_FailureCount : Z;
  eo_LastFailure : time;
  eo_RecoveryAt : time;
}.

Record CircuitBreaker := {
  cb_state : CircuitState;
  cb_failureCount : Z;
  cb_successCount : Z;
  cb_lastFailureTime : time;
  cb_lastStateChange : time;
  cb_halfOpenAttempts : Z;
  cb_failureThreshold : Z;
  cb_recoveryTimeout : duration;
  cb_halfOpenMaxAttempts : Z;
  cb_successThreshold : Z;
  cb_connectorID : string;
  cb_hasCallback : bool;
  cb_notified : list (CircuitState * CircuitState);
}.
#[export] Instance CircuitBreaker_eta : Eta CircuitBreaker := fun cb => {|
  cb_state := cb_state cb; cb_failureCount := cb_failureCount cb; cb_successCount := cb_successCount cb;
  cb_lastFailureTime := cb_lastFailureTime cb; cb_lastStateChange := cb_lastStateChange cb;
  cb_halfOpenAttempts := cb_halfOpenAttempts cb; cb_failureThreshold := cb_failureThreshold cb;
  cb_recoveryTimeout := cb_recoveryTimeout cb; cb_halfOpenMaxAttempts := cb_halfOpenMaxAttempts cb;
  cb_successThreshold := cb_successThreshold cb; cb_connectorID := cb_connectorID cb;
  cb_hasCallback := cb_hasCallback cb; cb_notified := cb_notified cb |}.

(** Options that are out of range are ignored. *)
Inductive CircuitBreakerOption :=
| WithFailureThreshold (n : Z)
| WithRecoveryTimeout (d : duration)
| WithHalfOpenMaxAttempts (n : Z)
| WithSuccessThreshold (n : Z)
| WithStateChangeCallback (set : bool).

Definition apply_option (opt : CircuitBreakerOption) (cb : CircuitBreaker) : CircuitBreaker :=
  match opt with
  | WithFailureThreshold n => if (0 <? n)%Z then cb <| cb_failureThreshold := n |> else cb
  | WithRecoveryTimeout d => if (0 <? d)%Z then cb <| cb_recoveryTimeout := d |> else cb
  | WithHalfOpenMaxAttempts n => if (0 <? n)%Z then cb <| cb_halfOpenMaxAttempts := n |> else cb
  | WithSuccessThreshold n => if (0 <? n)%Z then cb <| cb_successThreshold := n |> else cb
  | WithStateChangeCallback set => cb <| cb_hasCallback := set |>
  end.

Definition NewCircuitBreaker (connectorID : string) (opts : list CircuitBreakerOption) (now : time)
    : CircuitBreaker :=
  fold_left (fun cb opt => apply_option opt cb) opts {|
    cb_state := CircuitStateClosed; cb_failureCount := 0; cb_successCount := 0;
    cb_lastFailureTime := zero_time; cb_lastStateChange := now; cb_halfOpenAttempts := 0;
    cb_failureThreshold := CircuitBreakerDefaultFailureThreshold;
    cb_recoveryTimeout := CircuitBreakerDefaultRecoveryTimeout;
    cb_halfOpenMaxAttempts := CircuitBreakerDefaultHalfOpenMaxAttempts;
    cb_successThreshold := CircuitBreakerDefaultSuccessThreshold;
    cb_connectorID := connectorID; cb_hasCallback := false; cb_notified := [] |}.

Definition notify (from to : CircuitState) (cb : CircuitBreaker) : CircuitBreaker :=
  if cb_hasCallback cb then cb <| cb_notified := (from, to) :: cb_notified cb |> else cb.

Definition transition (to : CircuitState) (now : time) (cb : CircuitBreaker) : CircuitBreaker :=
  notify (cb_state cb) to (cb <| cb_state := to |> <| cb_lastStateChange := now |>).

Definition rejection (cb : CircuitBreaker) (recoveryAt : time) : ErrCircuitOpen := {|
  eo_ConnectorID := cb_connectorID cb; eo_FailureCount := cb_failureCount cb;
  eo_LastFailure := cb_lastFailureTime cb; eo_RecoveryAt := recoveryAt |}.

Definition recoveryAt (cb : CircuitBreaker) : time := (cb_lastFailureTime cb + cb_recoveryTimeout cb)%Z.

Definition Allow (now : time) (cb : CircuitBreaker) : CircuitBreaker * option ErrCircuitOpen :=
  match cb_state cb with
  | CircuitStateClosed => (cb, None)
  | CircuitStateOpen =>
      if (now <? recoveryAt cb)%Z then (cb, Some (rejection cb (recoveryAt cb)))
      else ((transition CircuitStateHalfOpen now cb) <| cb_halfOpenAttempts := 1%Z |> <| cb_successCount := 0%Z |>, None)
  | CircuitStateHalfOpen =>
      if (cb_halfOpenMaxAttempts cb <=? cb_halfOpenAttempts cb)%Z
      then (cb, Some (rejection cb (recoveryAt cb)))
      else (cb <| cb_halfOpenAttempts := wrap64 (cb_halfOpenAttempts cb + 1) |>, None)
  | CircuitStateOther _ => (cb, Some (rejection cb now))
  end.

Definition RecordSuccess (now : time) (cb : CircuitBreaker) : CircuitBreaker :=
  match cb_state cb with
  | CircuitStateClosed =>
      cb <| cb_failureCount := 0%Z |> <| cb_successCount := wrap64 (cb_successCount cb + 1) |>
  | CircuitStateHalfOpen =>
      let cb := cb <| cb_successCount := wrap64 (cb_successCount cb + 1) |> in
      if (cb_successThreshold cb <=? cb_successCount cb)%Z
      then (transition CircuitStateClosed now cb) <| cb_failureCount := 0%Z |> <| cb_halfOpenAttempts := 0%Z |>
      else cb
  | CircuitStateOpen | CircuitStateOther _ => cb
  end.

Definition RecordFailure (now : time) (cb : CircuitBreaker) : CircuitBreaker :=
  let cb := cb <| cb_failureCount := wrap64 (cb_failureCount cb + 1) |> <| cb_lastFailureTime := now |> in
  match cb_state cb with
  | CircuitStateClosed =>
      if (cb_failureThreshold cb <=? cb_failureCount cb)%Z then transition CircuitStateOpen now cb else cb
  | CircuitStateHalfOpen =>
      (transition CircuitStateOpen now cb) <| cb_halfOpenAttempts := 0%Z |> <| cb_successCount := 0%Z |>
  | CircuitStateOpen | CircuitStateOther _ => cb
  end.

Definition State (cb : CircuitBreaker) : CircuitState := cb_state cb.

Definition Reset (now : time) (cb : CircuitBreaker) : CircuitBreaker :=
  let from := cb_state cb in
  let cb := cb <| cb_state := CircuitStateClosed |> <| cb_failureCount := 0%Z |> <| cb_successCount := 0%Z |>
               <| cb_halfOpenAttempts := 0%Z |> <| cb_lastStateChange := now |> in
  if decide (from = CircuitStateClosed) then cb else notify from CircuitStateClosed cb.

Record CircuitBreakerStats := {
  cs_ConnectorID : string;
  cs_State : CircuitState;
  cs_FailureCount : Z;
  cs_SuccessCount : Z;
  cs_LastFailureTime : time;
  cs_LastStateChange : time;
  cs_HalfOpenAttempts : Z;
}.

Definition Stats (cb : CircuitBreaker) : CircuitBreakerStats := {|
  cs_ConnectorID := cb_connectorID cb; cs_State := cb_state cb; cs_FailureCount := cb_failureCount cb;
  cs_SuccessCount := cb_successCount cb; cs_LastFailureTime := cb_lastFailureTime cb;
  cs_LastStateChange := cb_lastStateChange cb; cs_HalfOpenAttempts := cb_halfOpenAttempts cb |}.

(** * The registry

    A breaker is shared by everyone who asked for its connector; it is changed in the registry. *)

Record CircuitBreakerRegistry := {
  cr_breakers : gmap string CircuitBreaker;
  cr_defaults : list CircuitBreakerOption;
}.

Definition NewCircuitBreakerRegistry (defaults : list CircuitBreakerOption) : CircuitBreakerRegistry := {|
  cr_breakers := ∅; cr_defaults := defaults |}.

Definition put (connectorID : string) (cb : CircuitBreaker) (r : CircuitBreakerRegistry) : CircuitBreakerRegistry := {|
  cr_breakers := <[connectorID := cb]> (cr_breakers r); cr_defaults := cr_defaults r |}.

Definition Get (connectorID : string) (now : time) (r : CircuitBreakerRegistry)
    : CircuitBreakerRegistry * CircuitBreaker :=
  match cr_breakers r !! connectorID with
  | Some cb => (r, cb)
  | None => let cb := NewCircuitBreaker connectorID (cr_defaults r) now in (put connectorID cb r, cb)
  end.

Definition AllStats (r : CircuitBreakerRegistry) : gmap string CircuitBreakerStats := Stats <$> cr_breakers r.

Definition ResetAll (now : time) (r : CircuitBreakerRegistry) : CircuitBreakerRegistry := {|
  cr_breakers := Reset now <$> cr_breakers r; cr_defaults := cr_defaults r |}.

(** * Histories of calls *)

Inductive Call := CallAllow | CallSuccess | CallFailure | CallReset.

(** One call at an instant; the answer is that of [Allow]. *)
Definition call (c : Call) (now : time) (cb : CircuitBreaker) : CircuitBreaker * option (option ErrCircuitOpen) :=
  match c with
  | CallAllow => let '(cb, r) := Allow now cb in (cb, Some r)
  | CallSuccess => (RecordSuccess now cb, None)
  | CallFailure => (RecordFailure now cb, None)
  | CallReset => (Reset now cb, None)
  end.

Fixpoint calls (l : list (Call * time)) (cb : CircuitBreaker)
    : CircuitBreaker * list (option (option ErrCircuitOpen)) :=
  match l with
  | [] => (cb, [])
  | (c, now) :: l => let '(cb, r) := call c now cb in let '(cb, rs) := calls l cb in (cb, r :: rs)
  end.

Definition granted (r : option (option ErrCircuitOpen)) : bool :=
  match r with Some None => true | _ => false end.
Definition grants (rs : list (option (option ErrCircuitOpen))) : Z := Z.of_nat (length (filter (fun r => granted r = true) rs)).
(** ** The state invariant *)

Definition positive (z : Z) : Prop := (0 < z <= int64_max)%Z.

(** Each state with its counters in range. *)
Record breaker_wf (cb : CircuitBreaker) : Prop := {
  wf_failures : positive (cb_failureThreshold cb);
  wf_probes : positive (cb_halfOpenMaxAttempts cb);
  wf_successes : positive (cb_successThreshold cb);
  wf_timeout : (0 < cb_recoveryTimeout cb)%Z;
  wf_state : match cb_state cb with
             | CircuitStateClosed => (0 <= cb_failureCount cb < cb_failureThreshold cb)%Z /\ cb_halfOpenAttempts cb = 0%Z
             | CircuitStateOpen => cb_halfOpenAttempts cb = 0%Z
             | CircuitStateHalfOpen => (1 <= cb_halfOpenAttempts cb <= cb_halfOpenMaxAttempts cb)%Z /\
                                       (0 <= cb_successCount cb < cb_successThreshold cb)%Z
             | CircuitStateOther _ => False
             end;
}.

(** Options with 64-bit numbers. *)
Definition option_wf (opt : CircuitBreakerOption) : bool :=
  match opt with
  | WithFailureThreshold n | WithHalfOpenMaxAttempts n | WithSuccessThreshold n => (n <=? int64_max)%Z
  | WithRecoveryTimeout _ | WithStateChangeCallback _ => true
  end.

Lemma wrap64_succ z : (0 <= z < int64_max)%Z -> wrap64 (z + 1) = (z + 1)%Z.
Proof. intros H. apply wrap64_id. unfold in_int64, int64_min, int64_max in *. apply andb_true_iff. rewrite !Z.leb_le. lia. Qed.

#[local] Arguments wrap64 : simpl never.
#[local] Arguments Z.leb : simpl never.
#[local] Arguments Z.ltb : simpl never.

Lemma new_wf connectorID opts now : forallb option_wf opts = true ->
  breaker_wf (NewCircuitBreaker connectorID opts now) /\
  cb_state (NewCircuitBreaker connectorID opts now) = CircuitStateClosed /\
  cb_failureCount (NewCircuitBreaker connectorID opts now) = 0%Z.
Proof.
  unfold NewCircuitBreaker. set (cb0 := Build_CircuitBreaker _ _ _ _ _ _ _ _ _ _ _ _ _).
  assert (H : breaker_wf cb0 /\ cb_state cb0 = CircuitStateClosed /\ cb_failureCount cb0 = 0%Z)
    by (split; [split|]; cbn; unfold positive, int64_max; split_and?; done).
  clearbody cb0. revert cb0 H. induction opts as [|opt opts IH]; intros cb (W&E&F); [done|].
  cbn [forallb fold_left]. intros [Ho Hs]%andb_true_iff. apply IH; [|exact Hs]. clear IH Hs.
  destruct cb, W; cbn in *; subst.
  destruct opt; cbn in Ho |- *; try (destruct (_ <? _)%Z eqn:Hn; [apply Z.ltb_lt in Hn|]);
    try apply Z.leb_le in Ho; (split; [split|]; cbn; unfold positive in *; done || lia).
Qed.

(** The fields a call of the breaker keeps. *)
Definition same_config (cb cb' : CircuitBreaker) : Prop :=
  cb_failureThreshold cb' = cb_failureThreshold cb /\ cb_recoveryTimeout cb' = cb_recoveryTimeout cb /\
  cb_halfOpenMaxAttempts cb' = cb_halfOpenMaxAttempts cb /\ cb_successThreshold cb' = cb_successThreshold cb.

(** Case analysis on a call from a state with all its fields named. *)
Ltac breaker_cases :=
  repeat (cbn in *; match goal with
    | |- context [if ?b then _ else _] => destruct b eqn:?
    end);
  repeat match goal with
    | H : (_ <? _)%Z = true |- _ => apply Z.ltb_lt in H
    | H : (_ <? _)%Z = false |- _ => apply Z.ltb_ge in H
    | H : (_ <=? _)%Z = true |- _ => apply Z.leb_le in H
    | H : (_ <=? _)%Z = false |- _ => apply Z.leb_gt in H
    end; cbn in *.

Lemma call_wf c now cb : breaker_wf cb -> breaker_wf (call c now cb).1 /\ same_config cb (call c now cb).1.
Proof.
  intros [Hf Hp Hs Ht Hst]. destruct cb as [st fc sc lf ls ha ft rt hm sth id has log]; cbn in *.
  unfold positive in *. destruct st; [| | |done]; destruct c;
    unfold call, Allow, RecordSuccess, RecordFailure, Reset, transition, notify, recoveryAt; cbn.
  all: rewrite ?wrap64_succ in * by lia; breaker_cases; rewrite ?wrap64_succ in * by lia.
  all: split; [split; cbn; unfold positive; try done; try lia|done].
Qed.

Lemma calls_wf l : forall cb, breaker_wf cb -> breaker_wf (calls l cb).1.
Proof.
  induction l as [|[c now] l IH]; intros cb W; [done|]. cbn [calls].
  pose proof (call_wf c now cb W) as [W' _]. destruct (call c now cb) as [cb' r]. specialize (IH cb' W').
  by destruct (calls l cb').
Qed.

(** C39. Whatever calls a breaker gets, its counters stay in the range of its state: fewer failures than
    the threshold while CLOSED, between one probe and the maximum and fewer successes than the
    threshold while HALF_OPEN, no probes while OPEN; and it is always in one of the three states. *)
Theorem breaker_state_wf (connectorID : string) (opts : list CircuitBreakerOption) (now : time)
    (l : list (Call * time)) :
  forallb option_wf opts = true -> breaker_wf (calls l (NewCircuitBreaker connectorID opts now)).1.
Proof. intros H. apply calls_wf, (new_wf _ _ _ H). Qed.

(** ** Tripping *)

(** The failures in a row at the end of a history, with [n] before it. *)
Fixpoint streak (n : Z) (l : list (Call * time)) : Z :=
  match l with
  | [] => n
  | (CallAllow, _) :: l => streak n l
  | (CallSuccess, _) :: l | (CallReset, _) :: l => streak 0 l
  | (CallFailure, _) :: l => streak (n + 1) l
  end.

Definition allowed (r : option (option ErrCircuitOpen)) : Prop := forall a, r = Some a -> a = None.
Definition rejected_until (t : time) (r : option (option ErrCircuitOpen)) : Prop :=
  forall a, r = Some a -> exists e, a = Some e /\ (t <= eo_RecoveryAt e)%Z.

Lemma closed_call c now cb n : breaker_wf cb -> cb_state cb = CircuitStateClosed -> cb_failureCount cb = n ->
  (streak n [(c, now)] < cb_failureThreshold cb)%Z ->
  cb_state (call c now cb).1 = CircuitStateClosed /\ cb_failureCount (call c now cb).1 = streak n [(c, now)] /\
  allowed (call c now cb).2.
Proof.
  intros [Hf Hp Hs Ht Hst] E F B. destruct cb as [st fc sc lf ls ha ft rt hm sth id has log]; cbn in *. subst.
  unfold positive in *. destruct c; unfold call, Allow, RecordSuccess, RecordFailure, Reset, transition, notify, allowed; cbn.
  all: rewrite ?wrap64_succ in * by lia; breaker_cases.
  all: split_and?; try done; try lia; intros a [=]; done.
Qed.

Lemma closed_run l : forall cb n, breaker_wf cb -> cb_state cb = CircuitStateClosed -> cb_failureCount cb = n ->
  (forall p, p `prefix_of` l -> (streak n p < cb_failureThreshold cb)%Z) ->
  cb_state (calls l cb).1 = CircuitStateClosed /\ cb_failureCount (calls l cb).1 = streak n l /\
  same_config cb (calls l cb).1 /\ Forall allowed (calls l cb).2.
Proof.
  induction l as [|[c now] l IH]; intros cb n W E F B; [done|]. cbn [calls].
  destruct (closed_call c now cb n W E F) as (E' & F' & A); [apply B; exists l; done|].
  destruct (call_wf c now cb W) as [W' (C1 & C2 & C3 & C4)]. destruct (call c now cb) as [cb' r]. cbn in *.
  destruct (IH cb' _ W' E' F') as (E2 & F2 & (D1 & D2 & D3 & D4) & A2).
  { intros p [q ->]. rewrite C1. specialize (B ((c, now) :: p)).
    specialize (B ltac:(by exists q)). by destruct c. }
  destruct (calls l cb') as [cb2 rs]. cbn in *. split_and!; try done.
  - rewrite F2. by destruct c.
  - unfold same_config. by rewrite D1, D2, D3, D4.
  - by constructor.
Qed.

Lemma open_run t rt l : forall cb, cb_state cb = CircuitStateOpen -> cb_recoveryTimeout cb = rt ->
  (t <= cb_lastFailureTime cb)%Z -> Forall (fun x => x.1 <> CallReset /\ (t <= x.2 < t + rt)%Z) l ->
  cb_state (calls l cb).1 = CircuitStateOpen /\ Forall (rejected_until (t + rt)) (calls l cb).2.
Proof.
  induction l as [|[c now] l IH]; intros cb E R L F; [by split|]. apply Forall_cons in F as [[Hc Hn] F].
  cbn [fst snd] in Hc, Hn. cbn [calls].
  assert (S : cb_state (call c now cb).1 = CircuitStateOpen /\ cb_recoveryTimeout (call c now cb).1 = rt /\
              (t <= cb_lastFailureTime (call c now cb).1)%Z /\ rejected_until (t + rt) (call c now cb).2).
  { destruct cb as [st fc sc lf ls ha ft rt' hm sth id has log]; cbn in *. subst.
    destruct c; [| | |done]; unfold call, Allow, RecordSuccess, RecordFailure, rejected_until, recoveryAt; cbn;
      breaker_cases; try lia; split_and!; try done; try lia.
    intros a [= <-]. eexists. split; [done|]. cbn. lia. }
  destruct S as (E' & R' & L' & A). destruct (call c now cb) as [cb' r]. cbn in *.
  destruct (IH cb' E' R' L' F) as [E2 A2]. destruct (calls l cb'). cbn in *. by split; [|constructor].
Qed.

(** A breaker trips at the configured number of failures in a row and no sooner, and then holds: as
    long as no [failureThreshold] failures came without a success (or reset) between them every
    request is allowed, and from the failure that completes them until the recovery timeout has passed
    every request is rejected, whatever other outcomes are reported meanwhile, with a recovery
    time no earlier than that. *)
Theorem breaker_opens_and_holds (connectorID : string) (opts : list CircuitBreakerOption) (t0 t : time)
    (l l2 : list (Call * time)) :
  let cb := NewCircuitBreaker connectorID opts t0 in
  forallb option_wf opts = true ->
  (forall p, p `prefix_of` l -> (streak 0 p < cb_failureThreshold cb)%Z) ->
  (streak 0 l + 1 = cb_failureThreshold cb)%Z ->
  Forall (fun x => x.1 <> CallReset /\ (t <= x.2 < t + cb_recoveryTimeout cb)%Z) l2 ->
  Forall allowed (calls l cb).2 /\
  Forall (rejected_until (t + cb_recoveryTimeout cb)) (calls l2 (RecordFailure t (calls l cb).1)).2.
Proof.
  intros cb Ho Hp Hs H2. destruct (new_wf connectorID opts t0 Ho) as (W & E & F). fold cb in W, E, F.
  destruct (closed_run l cb 0 W E F Hp) as (E1 & F1 & (C1 & C2 & _ & _) & A). split; [exact A|].
  pose proof (calls_wf l cb W) as [Wf _ _ _ Wst]. destruct (calls l cb) as [cb1 rs]. cbn in *.
  rewrite <- C2 in H2 |- *. refine (proj2 (open_run t _ l2 _ _ _ _ H2));
    destruct cb1 as [st fc sc lf ls ha ft rt hm sth id has log]; cbn in *; subst; unfold positive in *;
    unfold RecordFailure, transition, notify; cbn; rewrite wrap64_succ by lia; breaker_cases; done || lia.
Qed.

(** ** Recovery *)

(** Rounds of a probe and its success. *)
Definition probe_rounds (rounds : list (time * time)) : list (Call * time) :=
  flat_map (fun r => [(CallAllow, r.1); (CallSuccess, r.2)]) rounds.

(** A probing breaker, with the probes and the successes so far. *)
Definition probing (i : Z) (cb : CircuitBreaker) : Prop :=
  cb_state cb = CircuitStateHalfOpen /\ cb_halfOpenAttempts cb = i /\ cb_successCount cb = i.

Lemma probe_round i ta ts cb : breaker_wf cb -> (cb_successThreshold cb <= cb_halfOpenMaxAttempts cb)%Z ->
  probing i cb \/ (i = 0%Z /\ cb_state cb = CircuitStateOpen /\ (recoveryAt cb <= ta)%Z) ->
  (i < cb_successThreshold cb)%Z ->
  Forall allowed (calls [(CallAllow, ta); (CallSuccess, ts)] cb).2 /\
  same_config cb (calls [(CallAllow, ta); (CallSuccess, ts)] cb).1 /\
  if (i + 1 <? cb_successThreshold cb)%Z
  then probing (i + 1) (calls [(CallAllow, ta); (CallSuccess, ts)] cb).1
  else cb_state (calls [(CallAllow, ta); (CallSuccess, ts)] cb).1 = CircuitStateClosed /\
       cb_failureCount (calls [(CallAllow, ta); (CallSuccess, ts)] cb).1 = 0%Z.
Proof.
  intros [Hf Hp Hs Ht Hst] Hle P Hi. destruct cb as [st fc sc lf ls ha ft rt hm sth id has log].
  unfold probing, recoveryAt, positive, allowed in *; cbn in *.
  destruct P as [(-> & -> & ->)|(-> & -> & Hr)]; cbn;
    unfold call, Allow, RecordSuccess, transition, notify, recoveryAt; cbn; rewrite ?wrap64_succ by lia.
  all: breaker_cases; try lia; rewrite ?wrap64_succ in * by lia; breaker_cases; try lia.
  all: split_and!; try done; try lia; repeat constructor; intros a [=]; done.
Qed.

Lemma calls_app l1 l2 : forall cb,
  calls (l1 ++ l2) cb = ((calls l2 (calls l1 cb).1).1, ((calls l1 cb).2 ++ (calls l2 (calls l1 cb).1).2)%list).
Proof.
  induction l1 as [|[c now] l1 IH]; intros cb; cbn; [by destruct (calls l2 cb)|].
  destruct (call c now cb) as [cb' r]. rewrite IH. by destruct (calls l1 cb').
Qed.

Lemma probes_recover rounds : forall i cb, breaker_wf cb ->
  (cb_successThreshold cb <= cb_halfOpenMaxAttempts cb)%Z -> (i + Z.of_nat (length rounds) = cb_successThreshold cb)%Z ->
  rounds <> [] ->
  probing i cb \/ (i = 0%Z /\ cb_state cb = CircuitStateOpen /\
                   match rounds with [] => True | (ta, _) :: _ => (recoveryAt cb <= ta)%Z end) ->
  Forall allowed (calls (probe_rounds rounds) cb).2 /\
  cb_state (calls (probe_rounds rounds) cb).1 = CircuitStateClosed /\
  cb_failureCount (calls (probe_rounds rounds) cb).1 = 0%Z.
Proof.
  induction rounds as [|[ta ts] rounds IH]; intros i cb W Hle Hn Ne P; [done|]. cbn [length] in Hn.
  destruct (probe_round i ta ts cb W Hle) as (A & (C1 & C2 & C3 & C4) & S); [exact P|lia|].
  pose proof (calls_wf [(CallAllow, ta); (CallSuccess, ts)] cb W) as W'.
  change (probe_rounds ((ta, ts) :: rounds)) with ([(CallAllow, ta); (CallSuccess, ts)] ++ probe_rounds rounds)%list.
  rewrite calls_app. cbn [fst snd]. set (cb2 := (calls [_; _] cb).1) in *. destruct rounds as [|r rounds].
  - rewrite (proj2 (Z.ltb_ge _ _)) in S by (cbn in Hn; lia). by rewrite app_nil_r.
  - rewrite (proj2 (Z.ltb_lt _ _)) in S by (cbn [length] in Hn; lia).
    destruct (IH (i + 1)%Z cb2 W') as (A2 & E2 & F2); [lia|cbn [length] in *; lia|done|by left|].
    split_and!; try done. by apply Forall_app.
Qed.

(** A connector that has recovered is let back in: from OPEN, once the recovery timeout has passed,
    [successThreshold] probes that each succeed are all allowed and close the breaker with its failures
    cleared, at whatever times they come, provided the breaker has that many probe slots. *)
Theorem breaker_recovers (cb : CircuitBreaker) (ta ts : time) (rounds : list (time * time)) :
  breaker_wf cb -> cb_state cb = CircuitStateOpen -> (recoveryAt cb <= ta)%Z ->
  (cb_successThreshold cb <= cb_halfOpenMaxAttempts cb)%Z ->
  Z.of_nat (length ((ta, ts) :: rounds)) = cb_successThreshold cb ->
  let '(cb', rs) := calls (probe_rounds ((ta, ts) :: rounds)) cb in
  Forall allowed rs /\ cb_state cb' = CircuitStateClosed /\ cb_failureCount cb' = 0%Z.
Proof.
  intros W E Hr Hle Hn. pose proof (probes_recover ((ta, ts) :: rounds) 0 cb W Hle ltac:(lia) ltac:(done)) as P.
  destruct (calls _ cb) as [cb' rs]. apply P. by right.
Qed.

(** ** Stuck probes *)

(** Every reported success answers a request that was let through and not yet reported. *)
Fixpoint reported (pending : Z) (l : list (Call * time)) (rs : list (option (option ErrCircuitOpen))) : bool :=
  match l, rs with
  | (CallSuccess, _) :: l, _ :: rs => (0 <? pending)%Z && reported (pending - 1) l rs
  | _ :: l, r :: rs => reported (if granted r then pending + 1 else pending)%Z l rs
  | _, _ => true
  end.

Lemma grants_cons r rs : grants (r :: rs) = ((if granted r then 1 else 0) + grants rs)%Z.
Proof. unfold grants. rewrite filter_cons. case_decide as D; [rewrite D; cbn [length]; lia|]. destruct (granted r); [done|lia]. Qed.

Lemma half_open_stuck l : forall cb s, breaker_wf cb -> (cb_halfOpenMaxAttempts cb < cb_successThreshold cb)%Z ->
  cb_state cb = CircuitStateHalfOpen -> cb_successCount cb = s ->
  Forall (fun x => x.1 = CallAllow \/ x.1 = CallSuccess) l ->
  reported (cb_halfOpenAttempts cb - s) l (calls l cb).2 = true ->
  cb_state (calls l cb).1 = CircuitStateHalfOpen /\
  (grants (calls l cb).2 <= cb_halfOpenMaxAttempts cb - cb_halfOpenAttempts cb)%Z.
Proof.
  induction l as [|[c now] l IH]; intros cb s W Hlt E Es F R.
  - destruct W as [_ _ _ _ Hst]. rewrite E in Hst. split; [done|]. cbn [calls snd]. change (grants []) with 0%Z. lia.
  - apply Forall_cons in F as [Hc F]. cbn [fst] in Hc. cbn [calls] in *.
    pose proof (call_wf c now cb W) as [W' _]. destruct W as [Hf Hp Hs Ht Hst].
    destruct (call c now cb) as [cb' r] eqn:Ec. specialize (IH cb').
    destruct (calls l cb') as [cb2 rs] eqn:Er. cbn [fst snd reported] in *.
    destruct cb as [st fc sc lf ls ha ft rt hm sth id has log]; cbn in *. subst st s. unfold positive in *.
    destruct Hc as [-> | ->]; cbn in Ec.
    + unfold Allow in Ec. cbn in Ec. destruct (hm <=? ha)%Z eqn:Hb; simplify_eq; cbn in *;
        rewrite grants_cons; cbn.
            * destruct (IH sc W') as [E2 G]; [lia|done|done|done|done|]. split; [done|lia].
      * apply Z.leb_gt in Hb. rewrite wrap64_succ in * by lia.
        destruct (IH sc W') as [E2 G]; [lia|done|done|done| |split; [done|lia]].
        by replace (ha + 1 - sc)%Z with (ha - sc + 1)%Z by lia.
    + apply andb_true_iff in R as [Hpend%Z.ltb_lt R]. unfold RecordSuccess in Ec. cbn in Ec.
      rewrite wrap64_succ in Ec by lia. destruct (sth <=? sc + 1)%Z eqn:Hb; [apply Z.leb_le in Hb; lia|].
      simplify_eq. cbn in *. rewrite grants_cons. cbn.
      destruct (IH (sc + 1)%Z W') as [E2 G]; [lia|done|done|done| |split; [done|lia]].
      by replace (ha - (sc + 1))%Z with (ha - sc - 1)%Z by lia.
Qed.

(** A breaker with fewer probe slots than the successes it wants never recovers: HALF_OPEN has no
    timeout, so that after it is entered, over any requests at any later times of which every one let
    through may even succeed, at most [halfOpenMaxAttempts] are let through in all and the breaker
    does not close. *)
Theorem half_open_deadlock (cb : CircuitBreaker) (now : time) (l : list (Call * time)) :
  breaker_wf cb -> cb_state cb = CircuitStateOpen -> (recoveryAt cb <= now)%Z ->
  (cb_halfOpenMaxAttempts cb < cb_successThreshold cb)%Z ->
  Forall (fun x => x.1 = CallAllow \/ x.1 = CallSuccess) l ->
  reported 0 ((CallAllow, now) :: l) (calls ((CallAllow, now) :: l) cb).2 = true ->
  cb_state (calls ((CallAllow, now) :: l) cb).1 = CircuitStateHalfOpen /\
  (grants (calls ((CallAllow, now) :: l) cb).2 <= cb_halfOpenMaxAttempts cb)%Z.
Proof.
  intros W E Hr Hlt F. pose proof (call_wf CallAllow now cb W) as [W' (_ & _ & C3 & C4)]. cbn [calls] in *.
  assert (S : (call CallAllow now cb).2 = Some None /\ cb_state (call CallAllow now cb).1 = CircuitStateHalfOpen /\
              cb_halfOpenAttempts (call CallAllow now cb).1 = 1%Z /\ cb_successCount (call CallAllow now cb).1 = 0%Z).
  { unfold call, Allow. rewrite E. rewrite (proj2 (Z.ltb_ge _ _)) by lia. unfold transition, notify. cbn.
    by destruct (cb_hasCallback cb). }
  destruct (call CallAllow now cb) as [cb1 r1]. cbn [fst snd] in *. destruct S as (-> & E1 & A1 & S1).
  pose proof (half_open_stuck l cb1 0 W' ltac:(lia) E1 S1 F) as St. rewrite A1 in St.
  destruct (calls l cb1) as [cb2 rs]. cbn in *. intros R. destruct (St R) as [E2 G]. split; [done|].
  rewrite grants_cons. cbn. lia.
Qed.

(** ** Connectors do not affect each other *)

Inductive RegistryCall :=
| RegistryCall_on (connectorID : string) (c : Call) (now : time)
| RegistryCall_resetAll (now : time).

(** A call on a connector's breaker, made the way the gateway makes it: [Get], then the call on it. *)
Definition registry_step (r : CircuitBreakerRegistry) (rc : RegistryCall) : CircuitBreakerRegistry :=
  match rc with
  | RegistryCall_on connectorID c now =>
      let '(r, cb) := Get connectorID now r in put connectorID (call c now cb).1 r
  | RegistryCall_resetAll now => ResetAll now r
  end.

(** What a history means for one connector. *)
Definition for_connector (connectorID : string) (l : list RegistryCall) : list (Call * time) :=
  flat_map (fun rc => match rc with
    | RegistryCall_on id c now => if String.eqb id connectorID then [(c, now)] else []
    | RegistryCall_resetAll now => [(CallReset, now)]
    end) l.

(** From the first use of a connector its breaker is the one that would have got its own calls only. *)
Theorem registry_isolates (r : CircuitBreakerRegistry) (connectorID : string) (cb : CircuitBreaker)
    (l : list RegistryCall) :
  cr_breakers r !! connectorID = Some cb ->
  cr_breakers (fold_left registry_step l r) !! connectorID = Some (calls (for_connector connectorID l) cb).1.
Proof.
  revert r cb. induction l as [|rc l IH]; intros r cb H; [done|]. cbn [fold_left].
  destruct rc as [id c now|now]; cbn [for_connector flat_map registry_step].
  - destruct (String.eqb_spec id connectorID) as [->|Ne].
    + unfold Get. rewrite H. rewrite (IH _ (call c now cb).1); [|apply lookup_insert_eq].
      cbn [app calls]. destruct (call c now cb) as [cb' a]. cbn [fst]. fold (for_connector connectorID l).
      by destruct (calls (for_connector connectorID l) cb').
    + apply IH. unfold Get. destruct (cr_breakers r !! id) eqn:?; cbn; by rewrite !lookup_insert_ne by done.
  - rewrite (IH _ (Reset now cb)); [|cbn; by rewrite lookup_fmap, H]. cbn [app calls call].
    fold (for_connector connectorID l). by destruct (calls (for_connector connectorID l) (Reset now cb)).
Qed.

Module BreakerDemo.

Definition opts : list CircuitBreakerOption := [WithFailureThreshold 2; WithRecoveryTimeout 100; WithSuccessThreshold 2;
  WithHalfOpenMaxAttempts 3; WithStateChangeCallback true].
Definition before : list (Call * time) := [(CallFailure, 1); (CallSuccess, 2); (CallAllow, 3); (CallFailure, 4); (CallAllow, 5)]%Z.
Definition after : list (Call * time) := [(CallAllow, 7); (CallSuccess, 8); (CallFailure, 50); (CallAllow, 105)]%Z.

Lemma breaker_state_wf_witness : breaker_wf (calls (before ++ after) (NewCircuitBreaker "github" opts 0)).1.
Proof. apply (breaker_state_wf "github" opts 0 (before ++ after)). reflexivity. Defined.

Lemma breaker_opens_and_holds_witness :
  Forall allowed (calls before (NewCircuitBreaker "github" opts 0)).2 /\
  Forall (rejected_until 106) (calls after (RecordFailure 6 (calls before (NewCircuitBreaker "github" opts 0)).1)).2.
Proof.
  apply (breaker_opens_and_holds "github" opts 0 6 before after); [reflexivity| |reflexivity|].
  - intros p [q E]. change (cb_failureThreshold _) with 2%Z. unfold before in E.
    do 5 (destruct p as [|x p]; [vm_compute; reflexivity|]; injection E as <- E).
    destruct p; [vm_compute; reflexivity|discriminate].
  - repeat constructor; cbn; try discriminate; vm_compute; discriminate.
Defined.

Definition open : CircuitBreaker := (calls [(CallFailure, 1); (CallFailure, 2)]%Z (NewCircuitBreaker "github" opts 0)).1.

Lemma open_wf : breaker_wf open.
Proof. apply calls_wf. by apply new_wf. Qed.

Lemma breaker_recovers_witness :
  let '(cb', rs) := calls (probe_rounds [(102, 103); (400, 401)]%Z) open in
  Forall allowed rs /\ cb_state cb' = CircuitStateClosed /\ cb_failureCount cb' = 0%Z.
Proof.
  apply (breaker_recovers open 102 103 [(400, 401)]%Z open_wf); vm_compute; reflexivity || discriminate.
Defined.

(** One probe slot, as by default, and two successes wanted. *)
Definition tight : CircuitBreaker :=
  (calls [(CallFailure, 1); (CallFailure, 2)]%Z
     (NewCircuitBreaker "github" [WithFailureThreshold 2; WithRecoveryTimeout 100; WithSuccessThreshold 2] 0)).1.

Lemma tight_wf : breaker_wf tight.
Proof. apply calls_wf. by apply new_wf. Qed.

Definition waiting : list (Call * time) := [(CallSuccess, 201); (CallAllow, 1000000); (CallAllow, 2000000)]%Z.

Lemma half_open_deadlock_witness :
  cb_state (calls ((CallAllow, 200%Z) :: waiting) tight).1 = CircuitStateHalfOpen /\
  (grants (calls ((CallAllow, 200%Z) :: waiting) tight).2 <= cb_halfOpenMaxAttempts tight)%Z.
Proof.
  apply (half_open_deadlock tight 200 waiting tight_wf);
    [vm_compute; reflexivity|vm_compute; discriminate|vm_compute; reflexivity| |vm_compute; reflexivity].
  unfold waiting. repeat (constructor; [cbn; auto|]). constructor.
Defined.
End BreakerDemo.
