(* ===== verification/Saga.v ===== *)
(** Sagas, [core/pkg/saga] (orchestrator.go, registry.go): multi-step workflows that
    are compensated in reverse order when a step fails, and the registry of reversible
    actions.

    The step executor is a function of the caller: it gets the step by pointer, may
    change it, and acts on a world of its own; it is a parameter, as is the clock.  The
    steps handed to it are kept next to the world, latest first.  A run that is executing is
    shared with the orchestrator's map; the map is given as it is when [Execute]
    returns. *)
From S2P Require Import Prelude GoLib GoFmt Utf8 Jcs Contracts.

Local Open Scope string_scope.

Definition SagaRunning := "RUNNING".
Definition SagaCompleted := "COMPLETED".
Definition SagaCompensating := "COMPENSATING".
Definition SagaCompensated := "COMPENSATED".
Definition SagaFailed := "FAILED".

Definition StepPending := "PENDING".
Definition StepExecuting := "EXECUTING".
Definition StepCompleted := "COMPLETED".
Definition StepFailed := "FAILED".
Definition StepCompensating := "COMPENSATING".
Definition StepCompensated := "COMPENSATED".

Record SagaStep := {
  ss_StepID : string;
  ss_Action : string;
  ss_CompAction : string;
  ss_Status : string;
  ss_StartedAt : time;
  ss_EndedAt : time;
  ss_Error : string;
  ss_ReceiptID : string;
}.
#[export] Instance SagaStep_eta : Eta SagaStep := fun s => {|
  ss_StepID := ss_StepID s; ss_Action := ss_Action s; ss_CompAction := ss_CompAction s; ss_Status := ss_Status s;
  ss_StartedAt := ss_StartedAt s; ss_EndedAt := ss_EndedAt s; ss_Error := ss_Error s; ss_ReceiptID := ss_ReceiptID s |}.

Record SagaRun := {
  sr_RunID : string;
  sr_Steps : list SagaStep;
  sr_Status : string;
  sr_StartedAt : time;
  sr_CompletedAt : time;
  sr_FailedStep : Z;
  sr_Error : string;
  sr_ContentHash : string;
}.
#[export] Instance SagaRun_eta : Eta SagaRun := fun r => {|
  sr_RunID := sr_RunID r; sr_Steps := sr_Steps r; sr_Status := sr_Status r; sr_StartedAt := sr_StartedAt r;
  sr_CompletedAt := sr_CompletedAt r; sr_FailedStep := sr_FailedStep r; sr_Error := sr_Error r;
  sr_ContentHash := sr_ContentHash r |}.

(** [json.Marshal]; [omitempty] does not apply to a [time.Time]. *)
Definition json_of_step (s : SagaStep) : res json :=
  started ← fmt_time (ss_StartedAt s);
  ended ← fmt_time (ss_EndedAt s);
  Ok (JObj ([("step_id", JStr (ss_StepID s)); ("action", JStr (ss_Action s)); ("comp_action", JStr (ss_CompAction s));
             ("status", JStr (ss_Status s)); ("started_at", JStr started); ("ended_at", JStr ended)]
            ++ opt_string "error" (ss_Error s) ++ opt_string "receipt_id" (ss_ReceiptID s))).

Definition json_of_run (r : SagaRun) : res json :=
  steps ← traverse json_of_step (sr_Steps r);
  started ← fmt_time (sr_StartedAt r);
  completed ← fmt_time (sr_CompletedAt r);
  Ok (JObj ([("run_id", JStr (sr_RunID r)); ("steps", JArr steps); ("status", JStr (sr_Status r));
             ("started_at", JStr started); ("completed_at", JStr completed)]
            ++ opt_field (sr_FailedStep r =? 0)%Z "failed_step" (JNum (dec (sr_FailedStep r)))
            ++ opt_string "error" (sr_Error r) ++ [("content_hash", JStr (sr_ContentHash r))])).

Section Orchestrator.
Context `{Hash}.
Context {W : Type}.
Variable clock : W -> W * time.
(** The step as the executor leaves it, and its error. *)
Variable executor : SagaStep -> W -> W * (SagaStep * option error).

Record Trace := { tr_world : W; tr_calls : list SagaStep }.

Definition now (t : Trace) : Trace * time :=
  let '(w, x) := clock (tr_world t) in ({| tr_world := w; tr_calls := tr_calls t |}, x).
Definition invoke (step : SagaStep) (t : Trace) : Trace * (SagaStep * option error) :=
  let '(w, out) := executor step (tr_world t) in ({| tr_world := w; tr_calls := step :: tr_calls t |}, out).

Definition computeHash (run : SagaRun) : SagaRun :=
  match JCS_res (json_of_run run) with
  | Fail _ => run
  | Ok data => run <| sr_ContentHash := "sha256:" +:+ hex_encode (sha256 data) |>
  end.

(** The compensation of one completed step with a compensating action. *)
Definition compensate_step (step : SagaStep) (t : Trace) : Trace * (SagaStep * option error) :=
  let step := step <| ss_Status := StepCompensating |> in
  let '(t, started) := now t in
  let compStep := {| ss_StepID := ss_StepID step +:+ "-comp"; ss_Action := ss_CompAction step; ss_CompAction := "";
                     ss_Status := StepExecuting; ss_StartedAt := started; ss_EndedAt := zero_time;
                     ss_Error := ""; ss_ReceiptID := "" |} in
  let '(t, (_, err)) := invoke compStep t in
  let '(t, ended) := now t in
  match err with
  | Some e => (t, (step <| ss_Error := "compensation failed: " +:+ e |> <| ss_EndedAt := ended |>, Some e))
  | None => (t, (step <| ss_Status := StepCompensated |> <| ss_EndedAt := ended |>, None))
  end.

(** The steps before the failed one, last one first, with the first error. *)
Fixpoint compensate (steps : list SagaStep) (firstErr : option error) (t : Trace)
    : Trace * (list SagaStep * option error) :=
  match steps with
  | [] => (t, ([], firstErr))
  | step :: steps =>
      if negb (String.eqb (ss_Status step) StepCompleted) || String.eqb (ss_CompAction step) "" then
        let '(t, (l, err)) := compensate steps firstErr t in (t, (step :: l, err))
      else
        let '(t, (step', err)) := compensate_step step t in
        let firstErr := match firstErr, err with
                        | None, Some e => Some ("compensation of step " +:+ ss_StepID step +:+ " failed: " +:+ e)
                        | _, _ => firstErr
                        end in
        let '(t, (l, err)) := compensate steps firstErr t in (t, (step' :: l, err))
  end.

(** The forward loop: the steps done, last one first, and at a failure the failed step, the ones not
    reached and the error. *)
Fixpoint forward (done rest : list SagaStep) (t : Trace)
    : Trace * (list SagaStep * option (SagaStep * list SagaStep * error)) :=
  match rest with
  | [] => (t, (done, None))
  | step :: rest =>
      let '(t, started) := now t in
      let '(t, (step, err)) := invoke (step <| ss_Status := StepExecuting |> <| ss_StartedAt := started |>) t in
      let '(t, ended) := now t in
      match err with
      | Some e => (t, (done, Some (step <| ss_Status := StepFailed |> <| ss_EndedAt := ended |> <| ss_Error := e |>, rest, e)))
      | None => forward (step <| ss_Status := StepCompleted |> <| ss_EndedAt := ended |> :: done) rest t
      end
  end.

Definition SagaOrchestrator := gmap string SagaRun.

Definition Execute (run : SagaRun) (o : SagaOrchestrator) (t : Trace)
    : Trace * (SagaOrchestrator * SagaRun * option error) :=
  let '(t, started) := now t in
  let run := run <| sr_Status := SagaRunning |> <| sr_StartedAt := started |> in
  let '(t, (completed, failure)) := forward [] (sr_Steps run) t in
  match failure with
  | Some (failed, rest, e) =>
      let message := "step " +:+ ss_StepID failed +:+ " failed: " +:+ e in
      let '(t, (undone, compErr)) := compensate completed None t in
      let run := run <| sr_Steps := (rev undone ++ failed :: rest)%list |>
                     <| sr_FailedStep := Z.of_nat (length completed) |> in
      let run := match compErr with
                 | Some ce => run <| sr_Status := SagaFailed |>
                                  <| sr_Error := message +:+ "; compensation failed: " +:+ ce |>
                 | None => run <| sr_Status := SagaCompensated |> <| sr_Error := message |>
                 end in
      let '(t, ended) := now t in
      let run := computeHash (run <| sr_CompletedAt := ended |>) in
      (t, (<[sr_RunID run := run]> o, run, Some ("saga " +:+ sr_RunID run +:+ ": " +:+ sr_Error run)))
  | None =>
      let '(t, ended) := now t in
      let run := computeHash (run <| sr_Steps := rev completed |> <| sr_Status := SagaCompleted |>
                                  <| sr_CompletedAt := ended |>) in
      (t, (<[sr_RunID run := run]> o, run, None))
  end.

Definition GetRun (runID : string) (o : SagaOrchestrator) : option SagaRun := o !! runID.
End Orchestrator.
Arguments Trace : clear implicits.

(** * The registry (registry.go) *)

Record ActionRegistration := {
  ar_ActionID : string;
  ar_Reversible : bool;
  ar_CompensatingID : string;
  ar_MaxRetries : Z;
  ar_Timeout : duration;
}.

Definition ReversibilityRegistry := gmap string ActionRegistration.

Definition RegisterAction (reg : ActionRegistration) : M ReversibilityRegistry unit := fun r =>
  if String.eqb (ar_ActionID reg) "" then (r, Fail "action ID is required")
  else (<[ar_ActionID reg := reg]> r, Ok tt).
Definition LookupAction (actionID : string) (r : ReversibilityRegistry) : option ActionRegistration := r !! actionID.
Definition IsReversible (actionID : string) (r : ReversibilityRegistry) : bool :=
  match LookupAction actionID r with Some reg => ar_Reversible reg | None => false end.
Definition ListActions (r : ReversibilityRegistry) : list string := (map_to_list r).*1.

(** * Order and outcome *)

(** A call of the executor by its step and action. *)
Definition label (s : SagaStep) : string * string := (ss_StepID s, ss_Action s).
(** The call that compensates a step. *)
Definition undo (s : SagaStep) : string * string := (ss_StepID s +:+ "-comp", ss_CompAction s).
Definition compensable (s : SagaStep) : Prop := ss_CompAction s <> "".
#[export] Instance compensable_dec s : Decision (compensable s) := _.

(** A step as far as its compensation is concerned. *)
Definition same_step (s s' : SagaStep) : Prop := ss_StepID s' = ss_StepID s /\ ss_CompAction s' = ss_CompAction s.

(** An executor may record a receipt or any other field of its step, but leaves the step's name and its
    compensating action. *)
Definition keeps_step {W} (executor : SagaStep -> W -> W * (SagaStep * option error)) : Prop :=
  forall step w, same_step step (executor step w).2.1.

Section Outcome.
Context `{Hash}.
Context {W : Type} (clock : W -> W * time) (executor : SagaStep -> W -> W * (SagaStep * option error)).
Hypothesis keeps : keeps_step executor.

Lemma now_calls (t : Trace W) : tr_calls (now clock t).1 = tr_calls t.
Proof. unfold now. by destruct (clock _). Qed.

Lemma invoke_spec step (t : Trace W) :
  tr_calls (invoke executor step t).1 = step :: tr_calls t /\ same_step step (invoke executor step t).2.1.
Proof. unfold invoke. pose proof (keeps step (tr_world t)). by destruct (executor _ _). Qed.

(** A step that ran. *)
Definition ran (s s' : SagaStep) : Prop := same_step s s' /\ ss_Status s' = StepCompleted.

Lemma forward_spec rest : forall done t,
  let '(t', (done', failure)) := forward clock executor done rest t in
  exists before now_done, done' = (now_done ++ done)%list /\ Forall2 ran before (rev now_done) /\
    match failure with
    | None => rest = before /\ map label (tr_calls t') = (rev (map label before) ++ map label (tr_calls t))%list
    | Some (failed, after, e) => exists step, rest = (before ++ step :: after)%list /\ ss_Status failed = StepFailed /\
        map label (tr_calls t') = (label step :: rev (map label before) ++ map label (tr_calls t))%list
    end.
Proof.
  induction rest as [|step rest IH]; intros done t; cbn [forward]; [by exists [], []|].
  pose proof (now_calls t) as C1. destruct (now clock t) as [t1 started]. cbn in C1.
  set (given := step <| ss_Status := StepExecuting |> <| ss_StartedAt := started |>).
  destruct (invoke_spec given t1) as [C2 K]. destruct (invoke executor given t1) as [t2 [step' err]]. cbn [fst snd] in C2, K.
  pose proof (now_calls t2) as C3. destruct (now clock t2) as [t3 ended]. cbn in C3. rewrite C2, C1 in C3.
  destruct err as [e|].
  - exists [], []. split_and!; [done|done|]. exists step. by rewrite C3.
  - set (d := step' <| ss_Status := StepCompleted |> <| ss_EndedAt := ended |>). specialize (IH (d :: done) t3).
    destruct (forward clock executor (d :: done) rest t3) as [t' [done' failure]].
    destruct IH as (before & nd & -> & F & S). exists (step :: before), (nd ++ [d])%list.
    split_and!; [by rewrite <- app_assoc| |].
    + rewrite rev_app_distr. constructor; [|exact F]. split; [exact K|done].
    + rewrite C3 in S. destruct failure as [[[failed after] e]|].
      * destruct S as (s & -> & Hf & Hc). exists s. split_and!; [done|done|]. rewrite Hc. cbn. by rewrite <- app_assoc.
      * destruct S as [-> Hc]. split; [done|]. rewrite Hc. cbn. by rewrite <- app_assoc.
Qed.

(** A step after the compensation of those before the failure. *)
Definition undone (s s' : SagaStep) : Prop :=
  same_step s s' /\
  if decide (compensable s) then ss_Status s' = StepCompensated \/ ss_Status s' = StepCompensating
  else ss_Status s' = StepCompleted.

Lemma compensate_step_spec step t :
  let '(t', (step', err)) := compensate_step clock executor step t in
  map label (tr_calls t') = undo step :: map label (tr_calls t) /\ same_step step step' /\
  ss_Status step' = match err with Some _ => StepCompensating | None => StepCompensated end.
Proof.
  unfold compensate_step. cbv zeta. pose proof (now_calls t) as C1. destruct (now clock t) as [t1 started]. cbn in C1.
  match goal with |- context [invoke executor ?c t1] => set (comp := c) end.
  destruct (invoke_spec comp t1) as [C2 _]. destruct (invoke executor comp t1) as [t2 [s err]]. cbn [fst] in C2.
  pose proof (now_calls t2) as C3. destruct (now clock t2) as [t3 ended]. cbn in C3.
  destruct err; cbn; by rewrite C3, C2, C1.
Qed.

Lemma compensate_spec steps : forall firstErr t, Forall (fun s => ss_Status s = StepCompleted) steps ->
  let '(t', (l, err)) := compensate clock executor steps firstErr t in
  map label (tr_calls t') = (rev (map undo (filter compensable steps)) ++ map label (tr_calls t))%list /\
  Forall2 undone steps l /\
  (err = None <-> firstErr = None /\ Forall (fun s => ss_Status s <> StepCompensating) l).
Proof.
  induction steps as [|step steps IH]; intros firstErr t Hc; cbn [compensate]; [by repeat split; intros; intuition|].
  apply Forall_cons in Hc as [Hs Hc]. rewrite Hs. change (negb (String.eqb StepCompleted StepCompleted)) with false. cbn [orb].
  rewrite filter_cons. destruct (String.eqb_spec (ss_CompAction step) "") as [E|E].
  - specialize (IH firstErr t Hc). destruct (compensate _ _ _ _ _) as [t' [l err]]. destruct IH as (A & F & B).
    rewrite decide_False by (unfold compensable; auto). split_and!; [done| |].
    + constructor; [|done]. split; [done|]. rewrite decide_False by (unfold compensable; auto). done.
    + rewrite B, Forall_cons, Hs. split; [intros [? ?]; split_and!; done|intros (? & ? & ?); done].
  - pose proof (compensate_step_spec step t) as Hst. destruct (compensate_step _ _ _ _) as [t1 [step' err1]].
    destruct Hst as (C1 & Hsame & Hstat). rewrite decide_True by done.
    match goal with |- context [compensate _ _ _ ?fe t1] => specialize (IH fe t1 Hc); set (fe' := fe) in * end.
    destruct (compensate _ _ _ _ _) as [t' [l err]]. destruct IH as (A & F & B). split_and!.
    + rewrite A, C1. cbn. by rewrite <- app_assoc.
    + constructor; [|done]. split; [done|]. rewrite decide_True by done. destruct err1; auto.
    + rewrite B, Forall_cons, Hstat. unfold fe'.
      destruct firstErr, err1; (split; [intros [? ?]|intros (? & ? & ?)]); split_and?; done.
Qed.

Lemma computeHash_fields run :
  sr_RunID (computeHash run) = sr_RunID run /\ sr_Steps (computeHash run) = sr_Steps run /\
  sr_Status (computeHash run) = sr_Status run /\ sr_Error (computeHash run) = sr_Error run.
Proof. unfold computeHash. by destruct (JCS_res _). Qed.

Lemma undo_same l l' : Forall2 same_step l l' -> map undo (filter compensable l') = map undo (filter compensable l).
Proof.
  induction 1 as [|s s' l l' [E1 E2] F IH]; [done|]. rewrite !filter_cons.
  assert (C : compensable s' <-> compensable s) by (unfold compensable; by rewrite E2).
  destruct (decide (compensable s)) as [D|D]; [rewrite decide_True by tauto|rewrite decide_False by tauto; done].
  cbn. rewrite IH. unfold undo. by rewrite E1, E2.
Qed.

Lemma Forall2_rev {A B} (P : A -> B -> Prop) l k : Forall2 P l k -> Forall2 P (rev l) (rev k).
Proof. induction 1; cbn; [done|]. apply Forall2_app; [done|by repeat constructor]. Qed.

Lemma ran_undone before mid l : Forall2 ran before mid -> Forall2 undone mid l -> Forall2 undone before l.
Proof.
  intros F. revert l. induction F as [|s m bs ms [[E1 E2] _] F IH]; intros l U; [by inversion_clear U|].
  inversion_clear U as [|? s' ? l' [[E3 E4] D] U']. constructor; [|by apply IH]. split; [split; congruence|].
  assert (C : compensable m <-> compensable s) by (unfold compensable; by rewrite E2).
  destruct (decide (compensable s)); [by rewrite decide_True in D by tauto|by rewrite decide_False in D by tauto].
Qed.

(** A saga runs its steps in order and stops at the first that fails; then, and only then, it calls the
    compensating action of every step that completed, each once and in exactly the reverse order.  It
    returns an error exactly when a step failed.  A completed saga has all its steps completed; after a
    failure the failed step is marked, the steps after it are untouched, each step before it is
    compensated, left compensating if its compensation failed, or still completed if it has no
    compensating action; and the run is COMPENSATED exactly when no compensation failed, FAILED otherwise.
    The orchestrator answers for the run with that outcome. *)
Theorem saga_compensates_in_reverse (run : SagaRun) (o : SagaOrchestrator) (t : Trace W) :
  let '(t', (o', run', err)) := Execute clock executor run o t in
  GetRun (sr_RunID run) o' = Some run' /\
  exists script, map label (tr_calls t') = (rev script ++ map label (tr_calls t))%list /\
    match err with
    | None => script = map label (sr_Steps run) /\ sr_Status run' = SagaCompleted /\
              Forall2 ran (sr_Steps run) (sr_Steps run')
    | Some _ => exists before step after before' failed,
        sr_Steps run = (before ++ step :: after)%list /\
        script = (map label (before ++ [step]) ++ map undo (filter compensable (rev before)))%list /\
        sr_Steps run' = (before' ++ failed :: after)%list /\ ss_Status failed = StepFailed /\
        Forall2 undone before before' /\
        (sr_Status run' = SagaCompensated <-> Forall (fun s => ss_Status s <> StepCompensating) before') /\
        (sr_Status run' = SagaFailed <-> Exists (fun s => ss_Status s = StepCompensating) before')
    end.
Proof.
  unfold Execute. pose proof (now_calls t) as C0. destruct (now clock t) as [t0 started]. cbn in C0. cbv zeta.
  cbn [sr_Steps assign]. pose proof (forward_spec (sr_Steps run) [] t0) as F.
  change (sr_Steps (run <| sr_Status := SagaRunning |> <| sr_StartedAt := started |>)) with (sr_Steps run).
  destruct (forward clock executor [] (sr_Steps run) t0) as [t1 [completed failure]].
  destruct F as (before & nd & -> & R & S). rewrite app_nil_r in *. rewrite C0 in S.
  destruct failure as [[[failed after] e]|].
  - destruct S as (step & Es & Ef & C1).
    pose proof (compensate_spec nd None t1) as C. destruct (compensate clock executor nd None t1) as [t2 [l compErr]].
    destruct C as (C2 & U & B).
    { rewrite <- (rev_involutive nd). apply Forall_rev. clear -R. by induction R as [|???? [_ ?]]; constructor. }
    pose proof (now_calls t2) as C3. destruct (now clock t2) as [t3 ended]. cbn in C3.
    match goal with |- context [computeHash ?r] => set (final := r); pose proof (computeHash_fields final) as (F1 & F2 & F3 & F4) end.
    assert (G : sr_RunID final = sr_RunID run /\ sr_Steps final = (rev l ++ failed :: after)%list /\
                sr_Status final = match compErr with Some _ => SagaFailed | None => SagaCompensated end)
      by (unfold final; by destruct compErr).
    destruct G as (G1 & G2 & G3). split; [unfold GetRun; rewrite F1, G1; apply lookup_insert_eq|].
    assert (HN : (compErr = None <-> Forall (fun s => ss_Status s <> StepCompensating) (rev l)))
      by (rewrite B; split; [intros [_ ?]; by apply Forall_rev|intros X; split; [done|];
          rewrite <- (rev_involutive l); by apply Forall_rev]).
    eexists. split; [|exists before, step, after, (rev l), failed; split_and!; [exact Es|reflexivity| |done| | |]].
    + rewrite C3, C2, C1. rewrite map_app, !rev_app_distr. cbn.
      assert (Hu : map undo (filter compensable nd) = map undo (filter compensable (rev before))).
      { apply undo_same. rewrite <- (rev_involutive nd). apply Forall2_rev. clear -R. by induction R as [|???? [? _]]; constructor. }
      rewrite Hu, <- !app_assoc. done.
    + by rewrite F2, G2.
    + eapply ran_undone; [exact R|]. by apply Forall2_rev.
    + rewrite F3, G3, <- HN. by destruct compErr.
    + rewrite F3, G3. rewrite Forall_Exists_neg in HN.
      destruct (decide (Exists (fun s => ss_Status s = StepCompensating) (rev l))), compErr; naive_solver.
  - destruct S as [Es C1]. pose proof (now_calls t1) as C3. destruct (now clock t1) as [t3 ended]. cbn in C3.
    match goal with |- context [computeHash ?r] => set (final := r); pose proof (computeHash_fields final) as (F1 & F2 & F3 & F4) end.
    split; [unfold GetRun; rewrite F1; apply lookup_insert_eq|]. exists (map label before). rewrite C3, C1, F2, F3, Es. done.
Qed.
End Outcome.

Module SagaDemo.

Definition step (id action comp : string) : SagaStep := {|
  ss_StepID := id; ss_Action := action; ss_CompAction := comp; ss_Status := StepPending; ss_StartedAt := zero_time;
  ss_EndedAt := zero_time; ss_Error := ""; ss_ReceiptID := "" |}.
Definition run : SagaRun := {|
  sr_RunID := "run-1"; sr_Steps := [step "s1" "reserve" "release"; step "s2" "notify" ""; step "s3" "charge" "refund";
                                    step "s4" "ship" "recall"; step "s5" "close" "reopen"];
  sr_Status := ""; sr_StartedAt := zero_time; sr_CompletedAt := zero_time; sr_FailedStep := 0; sr_Error := "";
  sr_ContentHash := "" |}.

Definition clock (w : Z) : Z * time := ((w + 1)%Z, w).
(** Shipping fails, and so does the refund. *)
Definition executor (s : SagaStep) (w : Z) : Z * (SagaStep * option error) :=
  (w, (s <| ss_ReceiptID := "rcpt-" +:+ ss_StepID s |>,
       if String.eqb (ss_Action s) "ship" || String.eqb (ss_Action s) "refund" then Some "unavailable" else None)).

Lemma executor_keeps : keeps_step executor.
Proof. intros s w. split; reflexivity. Qed.

#[local] Instance zero_hash : Hash := fun _ => [].

Definition outcome := Execute clock executor run ∅ {| tr_world := 0%Z; tr_calls := [] |}.

Example outcome_labels :
  (map label (rev (tr_calls outcome.1)), map ss_Status (sr_Steps outcome.2.1.2), sr_Status outcome.2.1.2)
  = ([("s1", "reserve"); ("s2", "notify"); ("s3", "charge"); ("s4", "ship"); ("s3-comp", "refund"); ("s1-comp", "release")],
     ["COMPENSATED"; "COMPLETED"; "COMPENSATING"; "FAILED"; "PENDING"], "FAILED").
Proof. vm_compute. reflexivity. Qed.

Lemma saga_compensates_in_reverse_witness :
  let '(t', (o', run', err)) := outcome in
  GetRun "run-1" o' = Some run' /\ exists script, map label (tr_calls t') = (rev script ++ [])%list.
Proof.
  pose proof (saga_compensates_in_reverse clock executor executor_keeps run ∅ {| tr_world := 0%Z; tr_calls := [] |}) as P.
  unfold outcome.
  set (x := Execute _ _ _ _ _) in *. clearbody x. destruct x as [t' [[o' run'] err]]. destruct P as [G (script & C & _)].
  split; [exact G|exists script; exact C].
Defined.
End SagaDemo.
