(* ===== verification/Lease.v ===== *)
(** Execution leases, [core/pkg/lease] (types.go, manager.go): time-limited allocations of
    sandbox resources and the in-memory manager of their life cycle PENDING, ACTIVE,
    COMPLETED, EXPIRED or REVOKED.

    A call reads the clock at most once, the reading is an argument.  The manager hands out
    copies, so that a lease changes only through its calls. *)
From S2P Require Import Prelude GoLib.
From stdpp Require Import relations.

Local Open Scope string_scope.

Inductive LeaseStatus := LeaseStatusPending | LeaseStatusActive | LeaseStatusCompleted | LeaseStatusExpired | LeaseStatusRevoked.
#[export] Instance LeaseStatus_eq_dec : EqDecision LeaseStatus.
Proof. solve_decision. Defined.

Definition status_text (s : LeaseStatus) : string :=
  match s with
  | LeaseStatusPending => "PENDING" | LeaseStatusActive => "ACTIVE" | LeaseStatusCompleted => "COMPLETED"
  | LeaseStatusExpired => "EXPIRED" | LeaseStatusRevoked => "REVOKED"
  end.

Record SecretBinding := { sb_SecretRef : string; sb_MountPath : string; sb_EnvVar : string; sb_Scopes : list string }.

Record ExecutionLease := {
  el_LeaseID : string;
  el_RunID : string;
  el_SandboxID : string;
  el_WorkspacePath : string;
  el_TemplateRef : string;
  el_Backend : string;
  el_ProfileName : string;
  el_NetworkPolicyRef : string;
  el_SecretBindings : list SecretBinding;
  el_TTL : duration;
  el_Status : LeaseStatus;
  el_EffectGraphHash : string;
  el_CreatedAt : time;
  el_ActivatedAt : time;
  el_ExpiresAt : time;
  el_CompletedAt : time;
  el_RevokeReason : string;
}.
#[export] Instance ExecutionLease_eta : Eta ExecutionLease := fun l => {|
  el_LeaseID := el_LeaseID l; el_RunID := el_RunID l; el_SandboxID := el_SandboxID l;
  el_WorkspacePath := el_WorkspacePath l; el_TemplateRef := el_TemplateRef l; el_Backend := el_Backend l;
  el_ProfileName := el_ProfileName l; el_NetworkPolicyRef := el_NetworkPolicyRef l;
  el_SecretBindings := el_SecretBindings l; el_TTL := el_TTL l; el_Status := el_Status l;
  el_EffectGraphHash := el_EffectGraphHash l; el_CreatedAt := el_CreatedAt l; el_ActivatedAt := el_ActivatedAt l;
  el_ExpiresAt := el_ExpiresAt l; el_CompletedAt := el_CompletedAt l; el_RevokeReason := el_RevokeReason l |}.

Definition IsTerminal (l : ExecutionLease) : bool :=
  match el_Status l with
  | LeaseStatusCompleted | LeaseStatusExpired | LeaseStatusRevoked => true
  | LeaseStatusPending | LeaseStatusActive => false
  end.

Record LeaseRequest := {
  lq_RunID : string;
  lq_WorkspacePath : string;
  lq_Backend : string;
  lq_ProfileName : string;
  lq_TemplateRef : string;
  lq_TTL : duration;
  lq_EffectGraphHash : string;
  lq_SecretBindings : list SecretBinding;
}.

Record LeaseManager := { lm_leases : gmap string ExecutionLease; lm_counter : Z }.

Definition NewInMemoryLeaseManager : LeaseManager := {| lm_leases := ∅; lm_counter := 0 |}.

Definition store (l : ExecutionLease) (id : string) (m : LeaseManager) : LeaseManager := {|
  lm_leases := <[id := l]> (lm_leases m); lm_counter := lm_counter m |}.

Definition Acquire (req : LeaseRequest) (now : time) : M LeaseManager ExecutionLease := fun m =>
  if String.eqb (lq_RunID req) "" then (m, Fail "run_id is required")
  else if String.eqb (lq_Backend req) "" then (m, Fail "backend is required")
  else if (lq_TTL req <=? 0)%Z then (m, Fail "TTL must be positive")
  else
    let counter := wrap64 (lm_counter m + 1) in
    let lease := {|
      el_LeaseID := "lease-" +:+ dec counter; el_RunID := lq_RunID req; el_SandboxID := "";
      el_WorkspacePath := lq_WorkspacePath req; el_TemplateRef := lq_TemplateRef req; el_Backend := lq_Backend req;
      el_ProfileName := lq_ProfileName req; el_NetworkPolicyRef := ""; el_SecretBindings := lq_SecretBindings req;
      el_TTL := lq_TTL req; el_Status := LeaseStatusPending; el_EffectGraphHash := lq_EffectGraphHash req;
      el_CreatedAt := now; el_ActivatedAt := zero_time; el_ExpiresAt := (now + lq_TTL req)%Z;
      el_CompletedAt := zero_time; el_RevokeReason := "" |} in
    ({| lm_leases := <[el_LeaseID lease := lease]> (lm_leases m); lm_counter := counter |}, Ok lease).

(** A change of one lease, with its guard. *)
Definition on_lease (leaseID : string) (f : ExecutionLease -> res ExecutionLease) : M LeaseManager unit := fun m =>
  match lm_leases m !! leaseID with
  | None => (m, Fail ("lease not found: " +:+ leaseID))
  | Some lease =>
      match f lease with
      | Fail e => (m, Fail e)
      | Ok lease' => (store lease' leaseID m, Ok tt)
      end
  end.

Definition refuse (verb : string) (l : ExecutionLease) : string :=
  "cannot " +:+ verb +:+ " in " +:+ status_text (el_Status l) +:+ " state".

Definition Activate (leaseID sandboxID : string) (now : time) : M LeaseManager unit :=
  on_lease leaseID (fun l =>
    if decide (el_Status l = LeaseStatusPending)
    then Ok (l <| el_Status := LeaseStatusActive |> <| el_SandboxID := sandboxID |> <| el_ActivatedAt := now |>)
    else Fail (refuse "activate lease" l)).

Definition Complete (leaseID : string) (now : time) : M LeaseManager unit :=
  on_lease leaseID (fun l =>
    if decide (el_Status l = LeaseStatusActive)
    then Ok (l <| el_Status := LeaseStatusCompleted |> <| el_CompletedAt := now |>)
    else Fail (refuse "complete lease" l)).

Definition Extend (leaseID : string) (d : duration) : M LeaseManager unit :=
  on_lease leaseID (fun l =>
    if decide (el_Status l = LeaseStatusActive)
    then Ok (l <| el_ExpiresAt := (el_ExpiresAt l + d)%Z |> <| el_TTL := wrap64 (el_TTL l + d) |>)
    else Fail (refuse "extend lease" l)).

Definition Revoke (leaseID reason : string) (now : time) : M LeaseManager unit :=
  on_lease leaseID (fun l =>
    if IsTerminal l then Fail (refuse "revoke terminal lease" l)
    else Ok (l <| el_Status := LeaseStatusRevoked |> <| el_RevokeReason := reason |> <| el_CompletedAt := now |>)).

Definition Get (leaseID : string) (m : LeaseManager) : option ExecutionLease := lm_leases m !! leaseID.

Definition ListActive (m : LeaseManager) : list ExecutionLease :=
  filter (fun l => IsTerminal l = false) (map_to_list (lm_leases m)).*2.

Definition is_stale (now : time) (l : ExecutionLease) : bool :=
  bool_decide (el_Status l = LeaseStatusActive) && (el_ExpiresAt l <? now)%Z.
Definition expire (now : time) (l : ExecutionLease) : ExecutionLease :=
  if is_stale now l then l <| el_Status := LeaseStatusExpired |> <| el_CompletedAt := now |> else l.

Definition ExpireStale (now : time) (m : LeaseManager) : LeaseManager * nat :=
  ({| lm_leases := expire now <$> lm_leases m; lm_counter := lm_counter m |},
   length (filter (fun l => is_stale now l = true) (map_to_list (lm_leases m)).*2)).

(** * Histories *)

Inductive Op :=
| OpAcquire (req : LeaseRequest) (now : time)
| OpActivate (leaseID sandboxID : string) (now : time)
| OpComplete (leaseID : string) (now : time)
| OpExtend (leaseID : string) (d : duration)
| OpRevoke (leaseID reason : string) (now : time)
| OpExpireStale (now : time).

(** The manager after a call, and the lease it handed out. *)
Definition perform (op : Op) (m : LeaseManager) : LeaseManager * option string :=
  match op with
  | OpAcquire req now =>
      let '(m, r) := Acquire req now m in (m, match r with Ok l => Some (el_LeaseID l) | Fail _ => None end)
  | OpActivate id sandbox now => ((Activate id sandbox now m).1, None)
  | OpComplete id now => ((Complete id now m).1, None)
  | OpExtend id d => ((Extend id d m).1, None)
  | OpRevoke id reason now => ((Revoke id reason now m).1, None)
  | OpExpireStale now => ((ExpireStale now m).1, None)
  end.

Fixpoint run (ops : list Op) (m : LeaseManager) : LeaseManager * list string :=
  match ops with
  | [] => (m, [])
  | op :: ops =>
      let '(m, id) := perform op m in
      let '(m, ids) := run ops m in (m, (option_list id ++ ids)%list)
  end.

(** The moves of a lease. *)
Inductive move : ExecutionLease -> ExecutionLease -> Prop :=
| move_activate l sandbox now : el_Status l = LeaseStatusPending ->
    move l (l <| el_Status := LeaseStatusActive |> <| el_SandboxID := sandbox |> <| el_ActivatedAt := now |>)
| move_extend l d : el_Status l = LeaseStatusActive ->
    move l (l <| el_ExpiresAt := (el_ExpiresAt l + d)%Z |> <| el_TTL := wrap64 (el_TTL l + d) |>)
| move_complete l now : el_Status l = LeaseStatusActive ->
    move l (l <| el_Status := LeaseStatusCompleted |> <| el_CompletedAt := now |>)
| move_expire l now : el_Status l = LeaseStatusActive -> (el_ExpiresAt l < now)%Z ->
    move l (l <| el_Status := LeaseStatusExpired |> <| el_CompletedAt := now |>)
| move_revoke l reason now : IsTerminal l = false ->
    move l (l <| el_Status := LeaseStatusRevoked |> <| el_RevokeReason := reason |> <| el_CompletedAt := now |>).

Definition lifecycle : ExecutionLease -> ExecutionLease -> Prop := rtc move.

(** A finished lease does not move. *)
Lemma terminal_stuck l l' : IsTerminal l = true -> lifecycle l l' -> l' = l.
Proof.
  intros T R. inversion R as [|? l1 ? Hm]; [done|]. exfalso.
  inversion Hm as [? ? ? E|? ? E|? ? E|? ? E|]; subst; try congruence; unfold IsTerminal in T; by rewrite E in T.
Qed.

Definition numbered (n : Z) : string := "lease-" +:+ dec n.

Lemma numbered_inj m n : numbered m = numbered n -> m = n.
Proof. unfold numbered. intros E. apply dec_inj. by apply (inj (String.app "lease-")) in E. Qed.

(** Every lease is stored under its own number, at most the counter. *)
Record manager_wf (m : LeaseManager) : Prop := {
  mw_counter : (0 <= lm_counter m)%Z;
  mw_leases : forall id l, lm_leases m !! id = Some l -> exists n, id = numbered n /\ (1 <= n <= lm_counter m)%Z;
}.

Lemma on_lease_move id f m :
  (forall l l', f l = Ok l' -> move l l') ->
  lm_counter (on_lease id f m).1 = lm_counter m /\
  forall k l, lm_leases m !! k = Some l ->
    exists l', lm_leases (on_lease id f m).1 !! k = Some l' /\ lifecycle l l'.
Proof.
  intros Hf. unfold on_lease. destruct (lm_leases m !! id) as [l0|] eqn:E0.
  2: { split; [done|]. intros k l Hk. exists l. by split; [|apply rtc_refl]. }
  destruct (f l0) as [l1|e] eqn:Ef; (split; [done|]); intros k l Hk.
  - cbn. destruct (decide (k = id)) as [->|Ne].
    + rewrite lookup_insert_eq. exists l1. split; [done|]. simplify_eq. by apply rtc_once, Hf.
    + rewrite lookup_insert_ne by done. exists l. by split; [|apply rtc_refl].
  - exists l. by split; [|apply rtc_refl].
Qed.

Lemma on_lease_dom id f m k : lm_leases (on_lease id f m).1 !! k = None <-> lm_leases m !! k = None.
Proof.
  unfold on_lease. destruct (lm_leases m !! id) as [l0|] eqn:E0; [|done]. destruct (f l0); [|done]. cbn.
  destruct (decide (k = id)) as [->|Ne]; [by rewrite lookup_insert_eq, E0|by rewrite lookup_insert_ne].
Qed.

(** What a call does to the manager: leases only move, and a new one gets the next number. *)
Definition steps_to (m m' : LeaseManager) (id : option string) : Prop :=
  (forall k l, lm_leases m !! k = Some l -> exists l', lm_leases m' !! k = Some l' /\ lifecycle l l') /\
  match id with
  | None => lm_counter m' = lm_counter m /\ forall k, lm_leases m' !! k = None <-> lm_leases m !! k = None
  | Some id => lm_counter m' = (lm_counter m + 1)%Z /\ id = numbered (lm_counter m') /\
               forall k, lm_leases m' !! k = None <-> k <> id /\ lm_leases m !! k = None
  end.

Lemma on_lease_steps id f m : (forall l l', f l = Ok l' -> move l l') -> steps_to m (on_lease id f m).1 None.
Proof.
  intros Hf. destruct (on_lease_move id f m Hf) as [C L]. split; [exact L|]. split; [done|]. intros. apply on_lease_dom.
Qed.

Lemma perform_steps op m : manager_wf m -> (lm_counter m < int64_max)%Z ->
  steps_to m (perform op m).1 (perform op m).2.
Proof.
  intros [Wc Wl] Hb. destruct op as [req now|id sb now|id now|id d|id reason now|now]; cbn [perform fst snd].
  - assert (Stay : steps_to m m None).
    { split; [|done]. intros k l Hk. exists l. by split; [|apply rtc_refl]. }
    unfold Acquire. destruct (String.eqb _ _); [exact Stay|]. destruct (String.eqb _ _); [exact Stay|].
    destruct (_ <=? _)%Z; [exact Stay|]. cbn [fst snd el_LeaseID].
    rewrite wrap64_id by (unfold in_int64, int64_min, int64_max in *; apply andb_true_iff; rewrite !Z.leb_le; lia).
    assert (Fresh : lm_leases m !! numbered (lm_counter m + 1) = None).
    { destruct (lm_leases m !! numbered (lm_counter m + 1)) eqn:E; [|done].
      destruct (Wl _ _ E) as (n & En & Hn). apply numbered_inj in En. lia. }
    split; cbn.
    + intros k l Hk. exists l. split; [|apply rtc_refl]. rewrite lookup_insert_ne; [done|]. intros <-. unfold numbered in Fresh. congruence.
    + split_and!; [done|done|]. intros k. rewrite lookup_insert_None. intuition.
  - apply on_lease_steps. intros l l'. case_decide; [|done]. intros [= <-]. by constructor.
  - apply on_lease_steps. intros l l'. case_decide; [|done]. intros [= <-]. by constructor.
  - apply on_lease_steps. intros l l'. case_decide; [|done]. intros [= <-]. by constructor.
  - apply on_lease_steps. intros l l'. destruct (IsTerminal l) eqn:E; [done|]. intros [= <-]. by constructor.
  - split; cbn.
    + intros k l Hk. rewrite lookup_fmap, Hk. cbn. eexists. split; [done|]. unfold expire, is_stale.
      destruct (bool_decide_reflect (el_Status l = LeaseStatusActive)); [|apply rtc_refl]. cbn [andb].
      destruct (Z.ltb_spec (el_ExpiresAt l) now); [by apply rtc_once; constructor|apply rtc_refl].
    + split; [done|]. intros k. by rewrite lookup_fmap, fmap_None.
Qed.

Lemma steps_wf m m' id : manager_wf m -> steps_to m m' id -> manager_wf m'.
Proof.
  intros [Wc Wl] [_ S]. destruct id as [id|].
  - destruct S as (Ec & -> & D). split; [lia|]. intros k l Hk.
    destruct (decide (k = numbered (lm_counter m'))) as [->|Ne]; [exists (lm_counter m'); split; [done|lia]|].
    destruct (lm_leases m !! k) as [l0|] eqn:E.
    + destruct (Wl _ _ E) as (n & -> & ?). exists n. split; [done|lia].
    + assert (N : lm_leases m' !! k = None) by (by apply D). congruence.
  - destruct S as [Ec D]. split; [lia|]. intros k l Hk. rewrite Ec. destruct (lm_leases m !! k) as [l0|] eqn:E; [by apply (Wl _ l0)|].
    apply D in E. congruence.
Qed.

Lemma run_spec ops : forall m, manager_wf m -> (lm_counter m + Z.of_nat (length ops) <= int64_max)%Z ->
  (forall k l, lm_leases m !! k = Some l -> exists l', lm_leases (run ops m).1 !! k = Some l' /\ lifecycle l l') /\
  (forall id, id ∈ (run ops m).2 -> is_Some (lm_leases (run ops m).1 !! id) /\
                                    exists n, id = numbered n /\ (lm_counter m < n)%Z) /\
  NoDup (run ops m).2.
Proof.
  induction ops as [|op ops IH]; intros m W B; cbn [run].
  - split_and!; [intros k l Hk; exists l; by split; [|apply rtc_refl]|by intros ? ?%not_elem_of_nil|constructor].
  - cbn [length] in B. pose proof (perform_steps op m W ltac:(lia)) as S. pose proof (steps_wf _ _ _ W S) as W'.
    destruct (perform op m) as [m1 oid]. cbn [fst snd] in *. destruct S as [Sl Sid].
    destruct (IH m1 W') as (L & I & N); [destruct oid; lia|]. destruct (run ops m1) as [m2 ids]. cbn [fst snd] in *.
    assert (L' : forall k l, lm_leases m !! k = Some l -> exists l', lm_leases m2 !! k = Some l' /\ lifecycle l l').
    { intros k l Hk. destruct (Sl _ _ Hk) as (l1 & H1 & R1). destruct (L _ _ H1) as (l2 & H2 & R2).
      exists l2. split; [done|]. by etrans. }
    destruct oid as [id|]; cbn [option_list app].
    + destruct Sid as (Ec & -> & D). split_and!; [done| |].
      * intros id [->|Hid]%elem_of_cons; [|destruct (I id Hid) as (? & n & ? & ?); split; [done|exists n; split; [done|lia]]].
        split; [|exists (lm_counter m1); split; [done|lia]].
        destruct (lm_leases m1 !! numbered (lm_counter m1)) as [l1|] eqn:E1.
        -- destruct (L _ _ E1) as (l2 & -> & _). by eexists.
        -- apply D in E1. naive_solver.
      * constructor; [|done]. intros Hid. destruct (I _ Hid) as (_ & n & En & Hn). apply numbered_inj in En. lia.
    + destruct Sid as [Ec D]. split_and!; [done| |done]. intros id Hid. destruct (I id Hid) as (? & n & ? & ?).
      split; [done|]. exists n. split; [done|lia].
Qed.

Lemma run_counter ops : forall m, manager_wf m -> (lm_counter m + Z.of_nat (length ops) <= int64_max)%Z ->
  manager_wf (run ops m).1 /\ (lm_counter (run ops m).1 <= lm_counter m + Z.of_nat (length ops))%Z.
Proof.
  induction ops as [|op ops IH]; intros m W B; cbn [run length] in *; [split; [done|cbn [fst]; lia]|].
  pose proof (perform_steps op m W ltac:(lia)) as S. pose proof (steps_wf _ _ _ W S) as W'.
  destruct (perform op m) as [m1 oid]. cbn [fst snd] in *. destruct S as [_ Sid].
  assert (Hc : (lm_counter m1 <= lm_counter m + 1)%Z) by (destruct oid; lia).
  destruct (IH m1 W') as [W2 H2]; [lia|]. destruct (run ops m1) as [m2 ids]. cbn [fst] in *. split; [done|lia].
Qed.

(** Over any history of calls on a new manager, of fewer than 2^63 calls, the leases handed out have
    pairwise different identifiers and stay in the manager, and from any moment on every lease follows the
    life cycle: it is activated only while pending, extended, completed or expired only while active and
    expired only after its expiry, revoked only before it ended; and a lease that was completed, expired
    or revoked never changes again. *)
Theorem lease_lifecycle (before after : list Op) :
  (Z.of_nat (length (before ++ after)) < int64_max)%Z ->
  let m := (run before NewInMemoryLeaseManager).1 in
  NoDup (run (before ++ after) NewInMemoryLeaseManager).2 /\
  (forall id, id ∈ (run before NewInMemoryLeaseManager).2 -> is_Some (Get id m)) /\
  forall id l, Get id m = Some l ->
    exists l', Get id (run after m).1 = Some l' /\ lifecycle l l' /\ (IsTerminal l = true -> l' = l).
Proof.
  intros B m. rewrite length_app in B. assert (W0 : manager_wf NewInMemoryLeaseManager) 
    by (split; [done|]; intros ? ? E; cbn in E; by rewrite lookup_empty in E).
  destruct (run_spec (before ++ after) _ W0) as (_ & _ & N); [rewrite length_app; cbn [lm_counter NewInMemoryLeaseManager]; lia|].
  destruct (run_spec before _ W0) as (_ & I & _); [cbn [lm_counter NewInMemoryLeaseManager]; lia|].
  split_and!; [exact N|intros id Hid; exact (proj1 (I id Hid))|].
  intros id l Hl. destruct (run_counter before _ W0) as [Wm Hm]; [cbn [lm_counter NewInMemoryLeaseManager]; lia|]. fold m in Wm, Hm.
  destruct (run_spec after m Wm) as (L & _ & _); [cbn [lm_counter NewInMemoryLeaseManager] in Hm; lia|].
  destruct (L id l Hl) as (l' & E & R). exists l'. split_and!; [done|done|]. intros T. by apply terminal_stuck.
Qed.

(** A lease that was never activated does not expire: [ExpireStale] leaves a PENDING lease as it is
    however far past its expiry, and [Activate] then still succeeds, giving an ACTIVE lease that was
    activated after it expired. *)
Theorem pending_lease_outlives_expiry (m : LeaseManager) (id sandbox : string) (l : ExecutionLease) (now : time) :
  Get id m = Some l -> el_Status l = LeaseStatusPending -> (el_ExpiresAt l < now)%Z ->
  let m1 := (ExpireStale now m).1 in
  Get id m1 = Some l /\ (Activate id sandbox now m1).2 = Ok tt /\
  exists l', Get id (Activate id sandbox now m1).1 = Some l' /\ el_Status l' = LeaseStatusActive /\
             (el_ExpiresAt l' < el_ActivatedAt l')%Z.
Proof.
  intros Hl Hs Hx m1. unfold Get in *. assert (G : lm_leases m1 !! id = Some l).
  { unfold m1. cbn. rewrite lookup_fmap, Hl. cbn. unfold expire, is_stale. by rewrite Hs. }
  unfold Activate, on_lease. rewrite G. rewrite decide_True by done. cbn. split_and!; [done|done|].
  eexists. split; [apply lookup_insert_eq|]. by split.
Qed.

Module LeaseDemo.

Definition request : LeaseRequest := {|
  lq_RunID := "run-1"; lq_WorkspacePath := "/work"; lq_Backend := "docker"; lq_ProfileName := ""; lq_TemplateRef := "";
  lq_TTL := 100; lq_EffectGraphHash := "sha256:00"; lq_SecretBindings := [] |}.
Definition before : list Op := [OpAcquire request 0; OpAcquire request 5; OpActivate "lease-1" "box" 6; OpExtend "lease-1" 10;
  OpComplete "lease-1" 50].
Definition after : list Op := [OpRevoke "lease-1" "late" 60; OpActivate "lease-2" "box" 70; OpExpireStale 1000; OpAcquire request 2000].

Lemma lease_lifecycle_witness :
  NoDup (run (before ++ after) NewInMemoryLeaseManager).2 /\
  (run (before ++ after) NewInMemoryLeaseManager).2 = ["lease-1"; "lease-2"; "lease-3"].
Proof. split; [apply (lease_lifecycle before after); vm_compute; reflexivity|vm_compute; reflexivity]. Defined.

Definition pending : LeaseManager := (run [OpAcquire request 0] NewInMemoryLeaseManager).1.

Lemma pending_lease_outlives_expiry_witness :
  (Activate "lease-1" "box" 1000 (ExpireStale 1000 pending).1).2 = Ok tt.
Proof.
  destruct (Get "lease-1" pending) as [l|] eqn:E; [|vm_compute in E; discriminate].
  apply (pending_lease_outlives_expiry pending "lease-1" "box" l 1000 E); vm_compute in E; injection E as <-; reflexivity.
Defined.
End LeaseDemo.
