(* ===== verification/Budget.v ===== *)
(** Budgets, [core/pkg/budget]: the fail-closed spending enforcer with its
    in-memory storage (types.go, enforcer.go, memory_store.go) and the
    risk-weighted budgets (risk_budget.go).

    Storage is a record of operations over an external state; the in-memory
    storage is one instance.  [time.Now] and the receipt's uuid are arguments.  A
    day is the UTC date of an instant; the location of the first [LastUpdated] of
    a tenant plays no part, because its counters are zero then. *)
From S2P Require Import Prelude GoLib GoFmt.

Local Open Scope string_scope.

Module Enforcer.

Record Cost := { co_Amount : Z; co_Currency : string; co_Reason : string }.

Record Budget := {
  bu_TenantID : string;
  bu_DailyLimit : Z;
  bu_MonthlyLimit : Z;
  bu_DailyUsed : Z;
  bu_MonthlyUsed : Z;
  bu_LastUpdated : time;
}.
#[export] Instance Budget_eta : Eta Budget := fun b => {|
  bu_TenantID := bu_TenantID b; bu_DailyLimit := bu_DailyLimit b; bu_MonthlyLimit := bu_MonthlyLimit b;
  bu_DailyUsed := bu_DailyUsed b; bu_MonthlyUsed := bu_MonthlyUsed b; bu_LastUpdated := bu_LastUpdated b |}.

Definition DailyRemaining (b : Budget) : Z :=
  let remaining := wrap64 (bu_DailyLimit b - bu_DailyUsed b) in if (remaining <? 0)%Z then 0%Z else remaining.
Definition MonthlyRemaining (b : Budget) : Z :=
  let remaining := wrap64 (bu_MonthlyLimit b - bu_MonthlyUsed b) in if (remaining <? 0)%Z then 0%Z else remaining.

Record EnforcementReceipt := {
  er_ID : string;
  er_TenantID : string;
  er_Action : string;
  er_CostCents : Z;
  er_Reason : string;
  er_Timestamp : time;
}.

Record Decision := {
  de_Allowed : bool;
  de_Reason : string;
  de_Remaining : option Budget;
  de_Receipt : EnforcementReceipt;
}.

Section Enforcer.
Context {Ext : Type}.

Record Storage := {
  st_Get : string -> Ext -> Ext * res (option Budget);
  st_Set : Budget -> Ext -> Ext * res unit;
  st_Limits : string -> Ext -> Ext * res (Z * Z);
  st_SetLimits : string -> Z -> Z -> Ext -> Ext * res unit;
}.

(** The readings of one call: the two of [time.Now] and the receipt's. *)
Record Readings := { rd_created : time; rd_now : time; rd_uuid : string; rd_stamp : time }.

Definition GetBudget (st : Storage) (tenantID : string) : M Ext (option Budget) := st_Get st tenantID.
Definition SetLimits (st : Storage) (tenantID : string) (daily monthly : Z) : M Ext unit :=
  st_SetLimits st tenantID daily monthly.
Definition RecordSpend (tenantID : string) (cost : Cost) : M Ext unit := mret tt.

Definition createReceipt (rd : Readings) (tenantID action : string) (cost : Z) (reason : string)
    : EnforcementReceipt := {|
  er_ID := rd_uuid rd; er_TenantID := tenantID; er_Action := action; er_CostCents := cost;
  er_Reason := reason; er_Timestamp := rd_stamp rd |}.

Definition checkedUsageAdd (used amount : Z) : res Z :=
  if (used <? 0)%Z then Fail "stored usage must not be negative"
  else if (amount <? 0)%Z then Fail "cost amount must not be negative"
  else if (wrap64 (int64_max - used) <? amount)%Z then Fail "cost addition overflows int64 cents"
  else Ok (wrap64 (used + amount)).

(** The UTC date, and the month as a running count. *)
Definition day (t : time) : Z := (t / second / 86400)%Z.
Definition month (t : time) : Z := let '(y, m, _) := civil (day t) in (12 * y + m)%Z.

(** The counters of a new period start at zero. *)
Definition roll (now : time) (b : Budget) : Budget :=
  let b := if (day now =? day (bu_LastUpdated b))%Z then b else b <| bu_DailyUsed := 0%Z |> in
  if (month now =? month (bu_LastUpdated b))%Z then b else b <| bu_MonthlyUsed := 0%Z |>.

(** A decision with the error returned next to it. *)
Definition denied (rd : Readings) (tenantID : string) (cost : Cost) (reason code : string)
    (remaining : option Budget) : Decision := {|
  de_Allowed := false; de_Reason := reason; de_Remaining := remaining;
  de_Receipt := createReceipt rd tenantID "denied" (co_Amount cost) code |}.

(** The limits, on the budget of the current period. *)
Definition charge (b : Budget) (rd : Readings) (tenantID : string) (cost : Cost)
    : Decision * option error + Budget :=
  match checkedUsageAdd (bu_DailyUsed b) (co_Amount cost) with
  | Fail e => inl (denied rd tenantID cost ("invalid daily budget usage: " +:+ e) "usage_overflow" (Some b), Some e)
  | Ok newDaily =>
      match checkedUsageAdd (bu_MonthlyUsed b) (co_Amount cost) with
      | Fail e =>
          inl (denied rd tenantID cost ("invalid monthly budget usage: " +:+ e) "usage_overflow" (Some b), Some e)
      | Ok newMonthly =>
          if (bu_DailyLimit b <? newDaily)%Z then
            inl (denied rd tenantID cost ("daily limit exceeded: " +:+ dec newDaily +:+ " > "
                   +:+ dec (bu_DailyLimit b)) "daily_limit_exceeded" (Some b), None)
          else if (bu_MonthlyLimit b <? newMonthly)%Z then
            inl (denied rd tenantID cost ("monthly limit exceeded: " +:+ dec newMonthly +:+ " > "
                   +:+ dec (bu_MonthlyLimit b)) "monthly_limit_exceeded" (Some b), None)
          else inr (b <| bu_DailyUsed := newDaily |> <| bu_MonthlyUsed := newMonthly |>
                      <| bu_LastUpdated := rd_now rd |>)
      end
  end.

(** The tenant's budget, new from the limits when there is none. *)
Definition load (st : Storage) (rd : Readings) (tenantID : string) (cost : Cost) (x : Ext)
    : Ext * (Decision * option error + Budget) :=
  match st_Get st tenantID x with
  | (x, Fail e) => (x, inl (denied rd tenantID cost ("check failed: " +:+ e) "internal_error" None, Some e))
  | (x, Ok (Some b)) => (x, inr b)
  | (x, Ok None) =>
      match st_Limits st tenantID x with
      | (x, Fail e) => (x, inl (denied rd tenantID cost "failed to fetch limits" "limit_fetch_error" None, Some e))
      | (x, Ok (daily, monthly)) =>
          (x, inr {| bu_TenantID := tenantID; bu_DailyLimit := daily; bu_MonthlyLimit := monthly;
                     bu_DailyUsed := 0; bu_MonthlyUsed := 0; bu_LastUpdated := rd_created rd |})
      end
  end.

Definition Check (st : Storage) (rd : Readings) (tenantID : string) (cost : Cost) (x : Ext)
    : Ext * (Decision * option error) :=
  match load st rd tenantID cost x with
  | (x, inl out) => (x, out)
  | (x, inr b) =>
      match charge (roll (rd_now rd) b) rd tenantID cost with
      | inl out => (x, out)
      | inr b' =>
          match st_Set st b' x with
          | (x, Fail e) => (x, (denied rd tenantID cost "failed to persist usage" "persistence_error" None, Some e))
          | (x, Ok _) =>
              (x, ({| de_Allowed := true; de_Reason := "within limits"; de_Remaining := Some b';
                      de_Receipt := createReceipt rd tenantID "allowed" (co_Amount cost) "ok" |}, None))
          end
      end
  end.
End Enforcer.
Arguments Storage : clear implicits.

(** * In-memory storage *)

Record MemoryStorage := { ms_budgets : gmap string Budget; ms_limits : gmap string (Z * Z) }.

Definition NewMemoryStorage : MemoryStorage := {| ms_budgets := ∅; ms_limits := ∅ |}.

Definition MemoryGet (tenantID : string) (s : MemoryStorage) : MemoryStorage * res (option Budget) :=
  (s, Ok (ms_budgets s !! tenantID)).
Definition MemorySet (b : Budget) (s : MemoryStorage) : MemoryStorage * res unit :=
  ({| ms_budgets := <[bu_TenantID b := b]> (ms_budgets s); ms_limits := ms_limits s |}, Ok tt).
Definition MemoryLimits (tenantID : string) (s : MemoryStorage) : MemoryStorage * res (Z * Z) :=
  (s, Ok (default (1000, 50000)%Z (ms_limits s !! tenantID))).
Definition MemorySetLimits (tenantID : string) (daily monthly : Z) (s : MemoryStorage) : MemoryStorage * res unit :=
  ({| ms_budgets := ms_budgets s; ms_limits := <[tenantID := (daily, monthly)]> (ms_limits s) |}, Ok tt).

Definition memory_storage : Storage MemoryStorage := {|
  st_Get := MemoryGet; st_Set := MemorySet; st_Limits := MemoryLimits; st_SetLimits := MemorySetLimits |}.

(** ** Periods *)

Lemma day_mono t u : (t <= u)%Z -> (day t <= day u)%Z.
Proof. intros Ht. unfold day. by do 2 (apply Z.div_le_mono; [done|]). Qed.

(** The year of an era by the day in it, before the division by 365. *)
Definition era_days (doe : Z) : Z := (doe - doe / 1460 + doe / 36524 - doe / 146096)%Z.
Definition year_start (yoe : Z) : Z := (365 * yoe + yoe / 4 - yoe / 100)%Z.

Definition era_month (doe : Z) : Z :=
  let yoe := (era_days doe / 365)%Z in
  let mp := ((5 * (doe - year_start yoe) + 2) / 153)%Z in
  let m := if (mp <? 10)%Z then (mp + 3)%Z else (mp - 9)%Z in
  (12 * (yoe + if (m <=? 2)%Z then 1 else 0) + m)%Z.

Definition civil_month (days : Z) : Z := let '(y, m, _) := civil days in (12 * y + m)%Z.

Lemma civil_month_era days :
  civil_month days = (4800 * ((days + 719468) / 146097) + era_month ((days + 719468) mod 146097))%Z.
Proof. unfold civil_month, civil, era_month, era_days, year_start. cbv zeta beta iota. ring. Qed.

Lemma div_gap a b n : (a <= b -> 0 < n -> b / n - a / n <= b - a)%Z.
Proof.
  intros Hab Hn. assert (b / n <= (a + (b - a) * n) / n)%Z by (apply Z.div_le_mono; nia).
  rewrite Z.div_add in H by lia. lia.
Qed.

Lemma era_days_mono a b : (a <= b)%Z -> (era_days a <= era_days b)%Z.
Proof.
  intros H. unfold era_days. pose proof (div_gap a b 1460 H ltac:(lia)).
  assert (b / 146096 - a / 146096 <= b / 36524 - a / 36524)%Z; [|lia].
  change 146096%Z with (36524 * 4)%Z. rewrite <- !Z.div_div by lia.
  apply div_gap; [by apply Z.div_le_mono|lia].
Qed.

(** The years of an era, each from its first day to the day before the next. *)
Lemma era_years y : (0 <= y < 400)%Z ->
  (era_days (year_start y) / 365 = y /\ (y < 399 -> era_days (year_start (y + 1) - 1) / 365 = y))%Z.
Proof.
  set (good := fun n => let y := Z.of_nat n in
    (era_days (year_start y) / 365 =? y)%Z && ((399 <=? y)%Z || (era_days (year_start (y + 1) - 1) / 365 =? y)%Z)).
  assert (G : Forall (fun n => good n = true) (seq 0 400)) by (apply forallb_Forall; by vm_compute).
  intros Hy. rewrite Forall_forall in G. specialize (G (Z.to_nat y)). unfold good in G. cbv zeta in G.
  rewrite Z2Nat.id in G by lia. specialize (G ltac:(apply elem_of_seq; lia)). boolean. lia.
Qed.

Lemma era_year_spec doe : (0 <= doe < 146097)%Z ->
  (0 <= era_days doe / 365 < 400 /\ 0 <= doe - year_start (era_days doe / 365) <= 366)%Z.
Proof.
  intros Hd. set (y := (era_days doe / 365)%Z).
  assert (M : forall a b, (a <= b)%Z -> (era_days a / 365 <= era_days b / 365)%Z)
    by (intros; apply Z.div_le_mono; [lia|by apply era_days_mono]).
  assert (Hy : (0 <= y < 400)%Z).
  { pose proof (M 0 doe ltac:(lia))%Z as L. pose proof (M doe 146096 ltac:(lia))%Z as U.
    change (era_days 0 / 365)%Z with 0%Z in L. change (era_days 146096 / 365)%Z with 399%Z in U. fold y in L, U. lia. }
  assert (S : (year_start (y + 1) <= year_start y + 366)%Z) by (unfold year_start; Z.div_mod_to_equations; lia).
  split; [exact Hy|]. split.
  - destruct (Z_le_gt_dec (year_start y) doe) as [|G]; [lia|].
    destruct (Z.eq_dec y 0) as [->|Ny]; [change (year_start 0) with 0%Z in G; lia|].
    pose proof (era_years (y - 1) ltac:(lia)) as [_ E]. specialize (E ltac:(lia)).
    rewrite Z.sub_add in E. pose proof (M doe (year_start y - 1) ltac:(lia))%Z. fold y in H. lia.
  - destruct (Z.eq_dec y 399) as [->|Ny]; [change (year_start 399) with 145731%Z; lia|].
    destruct (Z_le_gt_dec (year_start (y + 1)) doe) as [L|G]; [|lia].
    pose proof (era_years (y + 1) ltac:(lia)) as [E _]. pose proof (M _ _ L) as H. rewrite E in H. fold y in H. lia.
Qed.

Lemma era_month_linear doe : (0 <= doe < 146097)%Z ->
  era_month doe
  = (12 * (era_days doe / 365) + (5 * (doe - year_start (era_days doe / 365)) + 2) / 153 + 3)%Z.
Proof.
  intros Hd. destruct (era_year_spec doe Hd) as [_ H]. unfold era_month. cbv zeta.
  set (doy := (doe - year_start _)%Z) in *. set (mp := ((5 * doy + 2) / 153)%Z).
  assert (0 <= mp <= 11)%Z by (unfold mp; clearbody doy; Z.div_mod_to_equations; lia).
  destruct (Z.ltb_spec mp 10); [destruct (Z.leb_spec (mp + 3) 2)|destruct (Z.leb_spec (mp - 9) 2)]; lia.
Qed.

Lemma era_month_mono a b : (0 <= a -> a <= b -> b < 146097 -> era_month a <= era_month b)%Z.
Proof.
  intros Ha Hab Hb. rewrite !era_month_linear by lia.
  destruct (era_year_spec a ltac:(lia)) as [_ Da]. destruct (era_year_spec b ltac:(lia)) as [_ Db].
  pose proof (Z.div_le_mono _ _ 365 ltac:(lia) (era_days_mono a b Hab)) as Y.
  set (ya := (era_days a / 365)%Z) in *. set (yb := (era_days b / 365)%Z) in *. clearbody ya yb.
  destruct (Z.eq_dec ya yb) as [->|Ne].
  - apply Z.add_le_mono_r, Z.add_le_mono_l, Z.div_le_mono; lia.
  - set (da := (a - year_start ya)%Z) in *. set (db := (b - year_start yb)%Z) in *. clearbody da db. Z.div_mod_to_equations; lia.
Qed.

Lemma era_month_range a : (0 <= a < 146097)%Z -> (3 <= era_month a <= 4802)%Z.
Proof.
  intros Ha. pose proof (era_month_mono 0 a) as L. pose proof (era_month_mono a 146096) as U.
  change (era_month 0) with 3%Z in L. change (era_month 146096) with 4802%Z in U. lia.
Qed.

Lemma civil_month_mono a b : (a <= b)%Z -> (civil_month a <= civil_month b)%Z.
Proof.
  intros Hab. rewrite !civil_month_era.
  set (x := (a + 719468)%Z). set (y := (b + 719468)%Z). assert (Hxy : (x <= y)%Z) by (unfold x, y; lia).
  clearbody x y.
  pose proof (Z.mod_pos_bound x 146097 ltac:(lia)). pose proof (Z.mod_pos_bound y 146097 ltac:(lia)).
  pose proof (Z.div_mod x 146097 ltac:(lia)). pose proof (Z.div_mod y 146097 ltac:(lia)).
  pose proof (era_month_range (x mod 146097) ltac:(lia)). pose proof (era_month_range (y mod 146097) ltac:(lia)).
  pose proof (Z.div_le_mono x y 146097 ltac:(lia) Hxy).
  set (p := (x / 146097)%Z) in *. set (q := (y / 146097)%Z) in *.
  set (c := (x mod 146097)%Z) in *. set (d := (y mod 146097)%Z) in *. clearbody p q c d.
  destruct (Z.eq_dec p q) as [->|]; [pose proof (era_month_mono c d); lia|lia].
Qed.

Lemma month_mono t u : (t <= u)%Z -> (month t <= month u)%Z.
Proof. intros Ht%day_mono. exact (civil_month_mono _ _ Ht). Qed.

#[local] Arguments day : simpl never.
#[local] Arguments month : simpl never.
#[local] Arguments roll : simpl never.

(** ** The ledger the enforcer stands for

    Every spend that was allowed, and the limits of a tenant from its first spend
    on; a spend is allowed when the day's and the month's spends stay within them. *)

Record Spend := { sp_tenant : string; sp_at : time; sp_amount : Z }.
Record Ledger := { lg_spends : list Spend; lg_limits : gmap string (Z * Z); lg_fixed : gmap string (Z * Z) }.

Definition empty_ledger : Ledger := {| lg_spends := []; lg_limits := ∅; lg_fixed := ∅ |}.

Definition in_period (per : time -> Z) (tenant : string) (p : Z) (s : Spend) : bool :=
  String.eqb (sp_tenant s) tenant && (per (sp_at s) =? p)%Z.
Definition spent (per : time -> Z) (tenant : string) (p : Z) (l : list Spend) : Z :=
  foldr (fun s acc => ((if in_period per tenant p s then sp_amount s else 0) + acc)%Z) 0%Z l.

Definition ledger_limits (tenant : string) (lg : Ledger) : Z * Z :=
  match lg_fixed lg !! tenant with
  | Some l => l
  | None => default (1000, 50000)%Z (lg_limits lg !! tenant)
  end.

Inductive Op :=
| OpCheck (rd : Readings) (tenant : string) (cost : Cost)
| OpSetLimits (tenant : string) (daily monthly : Z).

Definition ledger_step (op : Op) (lg : Ledger) : Ledger * bool :=
  match op with
  | OpSetLimits tenant daily monthly =>
      ({| lg_spends := lg_spends lg; lg_limits := <[tenant := (daily, monthly)]> (lg_limits lg);
          lg_fixed := lg_fixed lg |}, true)
  | OpCheck rd tenant cost =>
      let '(daily, monthly) := ledger_limits tenant lg in
      let amount := co_Amount cost in
      if ((0 <=? amount) && (spent day tenant (day (rd_now rd)) (lg_spends lg) + amount <=? daily)
          && (spent month tenant (month (rd_now rd)) (lg_spends lg) + amount <=? monthly))%Z
      then ({| lg_spends := {| sp_tenant := tenant; sp_at := rd_now rd; sp_amount := amount |} :: lg_spends lg;
               lg_limits := lg_limits lg; lg_fixed := <[tenant := (daily, monthly)]> (lg_fixed lg) |}, true)
      else (lg, false)
  end.

(** One call on the enforcer with the in-memory storage, and whether it was granted. *)
Definition step (op : Op) (s : MemoryStorage) : MemoryStorage * bool :=
  match op with
  | OpSetLimits tenant daily monthly =>
      let '(s, r) := SetLimits memory_storage tenant daily monthly s in (s, is_ok r)
  | OpCheck rd tenant cost =>
      let '(s, (d, err)) := Check memory_storage rd tenant cost s in (s, de_Allowed d)
  end.

Fixpoint run_ops {St : Type} (f : Op -> St -> St * bool) (ops : list Op) (s : St) : St * list bool :=
  match ops with
  | [] => (s, [])
  | op :: ops => let '(s, ok) := f op s in let '(s, oks) := run_ops f ops s in (s, ok :: oks)
  end.

(** Calls as Go can make them: 64-bit amounts and limits, and a clock that does not go back. *)
Fixpoint ops_wf (last : time) (ops : list Op) : bool :=
  match ops with
  | [] => true
  | OpCheck rd _ cost :: ops => (last <=? rd_now rd)%Z && in_int64 (co_Amount cost) && ops_wf (rd_now rd) ops
  | OpSetLimits _ daily monthly :: ops => in_int64 daily && in_int64 monthly && ops_wf last ops
  end.

(** *** Refinement *)

Lemma checkedUsageAdd_exact used amount : (0 <= used <= int64_max)%Z -> in_int64 amount = true ->
  checkedUsageAdd used amount
  = (if (amount <? 0)%Z then Fail "cost amount must not be negative"
     else if (int64_max <? used + amount)%Z then Fail "cost addition overflows int64 cents"
     else Ok (used + amount)%Z).
Proof.
  intros Hu Ha. unfold checkedUsageAdd. unfold in_int64 in Ha. boolean.
  rewrite (wrap64_id (int64_max - used)) by (apply andb_true_iff; split; apply Z.leb_le; unfold int64_min, int64_max in *; lia).
  destruct (Z.ltb_spec used 0); [lia|]. destruct (Z.ltb_spec amount 0); [done|].
  destruct (Z.ltb_spec (int64_max - used) amount), (Z.ltb_spec int64_max (used + amount)); try lia; [done|].
  rewrite wrap64_id; [done|]. apply andb_true_iff; split; apply Z.leb_le; unfold int64_min, int64_max in *; lia.
Qed.

Lemma spent_cons per tenant p s l :
  spent per tenant p (s :: l) = ((if in_period per tenant p s then sp_amount s else 0) + spent per tenant p l)%Z.
Proof. done. Qed.

Lemma spent_none per tenant p l :
  Forall (fun s => in_period per tenant p s = false) l -> spent per tenant p l = 0%Z.
Proof. induction 1 as [|s l H _ IH]; [done|]. by rewrite spent_cons, H, IH. Qed.

Lemma spent_nonneg per tenant p l : Forall (fun s => (0 <= sp_amount s)%Z) l -> (0 <= spent per tenant p l)%Z.
Proof. induction 1 as [|s l H _ IH]; [done|]. rewrite spent_cons. case_match; lia. Qed.

(** A counter that is reset when the period changes holds the spends of the current period. *)
Lemma counter_rolls per tenant last now used l :
  (forall t u, (t <= u)%Z -> (per t <= per u)%Z) ->
  Forall (fun s => sp_tenant s = tenant -> (sp_at s <= last)%Z) l -> (last <= now)%Z ->
  used = spent per tenant (per last) l ->
  (if (per now =? per last)%Z then used else 0%Z) = spent per tenant (per now) l.
Proof.
  intros Mono Hl Hn ->. destruct (Z.eqb_spec (per now) (per last)) as [->|Ne]; [done|].
  symmetry. apply spent_none. eapply Forall_impl; [exact Hl|]. cbn beta. intros s Hs. unfold in_period.
  destruct (String.eqb_spec (sp_tenant s) tenant) as [E|]; [|done]. cbn.
  pose proof (Mono _ _ (Hs E)). pose proof (Mono _ _ Hn). apply Z.eqb_neq. lia.
Qed.

(** The stored budget of a tenant against the ledger. *)
Record tracks (lg : Ledger) (tenant : string) (clock : time) (b : Budget) : Prop := {
  tr_tenant : bu_TenantID b = tenant;
  tr_fixed : lg_fixed lg !! tenant = Some (bu_DailyLimit b, bu_MonthlyLimit b);
  tr_daily : bu_DailyUsed b = spent day tenant (day (bu_LastUpdated b)) (lg_spends lg);
  tr_monthly : bu_MonthlyUsed b = spent month tenant (month (bu_LastUpdated b)) (lg_spends lg);
  tr_last : Forall (fun s => sp_tenant s = tenant -> (sp_at s <= bu_LastUpdated b)%Z) (lg_spends lg);
  tr_clock : (bu_LastUpdated b <= clock)%Z;
  tr_range : (0 <= bu_DailyUsed b <= int64_max /\ 0 <= bu_MonthlyUsed b <= int64_max)%Z;
}.

Definition tracked (lg : Ledger) (clock : time) (s : MemoryStorage) (tenant : string) : Prop :=
  match ms_budgets s !! tenant with
  | Some b => tracks lg tenant clock b
  | None => lg_fixed lg !! tenant = None /\ Forall (fun s => sp_tenant s <> tenant) (lg_spends lg)
  end.

Definition limits_wf (m : gmap string (Z * Z)) : Prop :=
  map_Forall (fun _ l => in_int64 l.1 = true /\ in_int64 l.2 = true) m.

Record refines (clock : time) (s : MemoryStorage) (lg : Ledger) : Prop := {
  rf_limits : ms_limits s = lg_limits lg;
  rf_limits_wf : limits_wf (lg_limits lg);
  rf_fixed_wf : limits_wf (lg_fixed lg);
  rf_nonneg : Forall (fun s => (0 <= sp_amount s)%Z) (lg_spends lg);
  rf_tracked : forall tenant, tracked lg clock s tenant;
}.

Lemma refines_initial clock : refines clock NewMemoryStorage empty_ledger.
Proof. split; try done; intros tenant; unfold tracked; by rewrite ?lookup_empty. Qed.

Lemma roll_fields now b :
  bu_TenantID (roll now b) = bu_TenantID b /\
  bu_DailyLimit (roll now b) = bu_DailyLimit b /\ bu_MonthlyLimit (roll now b) = bu_MonthlyLimit b /\
  bu_DailyUsed (roll now b) = (if (day now =? day (bu_LastUpdated b))%Z then bu_DailyUsed b else 0%Z) /\
  bu_MonthlyUsed (roll now b) = (if (month now =? month (bu_LastUpdated b))%Z then bu_MonthlyUsed b else 0%Z).
Proof.
  unfold roll. destruct (day now =? day (bu_LastUpdated b))%Z; cbn;
    by destruct (month now =? month (bu_LastUpdated b))%Z.
Qed.

(** The budget [Check] works on holds the tenant's spends of the current day and month. *)
Lemma loaded_budget clock s lg rd tenant cost : refines clock s lg -> (clock <= rd_now rd)%Z ->
  exists b, load memory_storage rd tenant cost s = (s, inr b) /\ bu_TenantID b = tenant /\
    ledger_limits tenant lg = (bu_DailyLimit b, bu_MonthlyLimit b) /\
    bu_DailyUsed (roll (rd_now rd) b) = spent day tenant (day (rd_now rd)) (lg_spends lg) /\
    bu_MonthlyUsed (roll (rd_now rd) b) = spent month tenant (month (rd_now rd)) (lg_spends lg) /\
    (bu_DailyUsed (roll (rd_now rd) b) <= int64_max /\ bu_MonthlyUsed (roll (rd_now rd) b) <= int64_max)%Z /\
    Forall (fun s => sp_tenant s = tenant -> (sp_at s <= rd_now rd)%Z) (lg_spends lg).
Proof.
  intros R Hc. pose proof (rf_tracked _ _ _ R tenant) as T. unfold tracked in T.
  unfold load, ledger_limits. cbn [memory_storage st_Get st_Limits MemoryGet MemoryLimits].
  destruct (ms_budgets s !! tenant) as [b|].
  - destruct T as [Tt Tf Td Tm Tl Tc Tr]. destruct (roll_fields (rd_now rd) b) as (_ & _ & _ & Ed & Em).
    exists b. rewrite Tf, Ed, Em. split_and!; try done.
    + exact (counter_rolls day tenant _ (rd_now rd) _ _ day_mono Tl ltac:(lia) Td).
    + exact (counter_rolls month tenant _ (rd_now rd) _ _ month_mono Tl ltac:(lia) Tm).
    + clear - Tr. destruct (_ =? _)%Z; unfold int64_max in *; lia.
    + clear - Tr. destruct (_ =? _)%Z; unfold int64_max in *; lia.
    + eapply Forall_impl; [exact Tl|]. cbn beta. intros ? Hs E. specialize (Hs E). lia.
  - destruct T as [Tf Tn]. rewrite Tf, (rf_limits _ _ _ R).
    assert (Z0 : forall per p, spent per tenant p (lg_spends lg) = 0%Z).
    { intros. apply spent_none. eapply Forall_impl; [exact Tn|]. cbn beta. intros ? Hs. unfold in_period.
      by destruct (String.eqb_spec (sp_tenant x) tenant). }
    destruct (default _ _) as [d m]. eexists. split; [reflexivity|]. rewrite !Z0.
    destruct (roll_fields (rd_now rd) {| bu_TenantID := tenant; bu_DailyLimit := d; bu_MonthlyLimit := m;
      bu_DailyUsed := 0; bu_MonthlyUsed := 0; bu_LastUpdated := rd_created rd |}) as (_ & _ & _ & -> & ->). cbn.
    split_and!; try done; try (by case_match).
    eapply Forall_impl; [exact Tn|]. cbn beta. intros ? Hs E. done.
Qed.

Lemma ledger_limits_wf clock s lg tenant d m : refines clock s lg -> ledger_limits tenant lg = (d, m) ->
  in_int64 d = true /\ in_int64 m = true.
Proof.
  intros R. unfold ledger_limits. pose proof (rf_fixed_wf _ _ _ R tenant) as F. pose proof (rf_limits_wf _ _ _ R tenant) as L.
  destruct (lg_fixed lg !! tenant) as [[d1 m1]|]; [intros [= -> ->]; exact (F _ eq_refl)|].
  destruct (lg_limits lg !! tenant) as [[d1 m1]|]; intros [= <- <-]; [exact (L _ eq_refl)|done].
Qed.

#[local] Ltac refused := do 2 eexists; by split.

(** The decision of the limits, on counters within range. *)
Lemma charge_exact b rd tenant cost :
  (0 <= bu_DailyUsed b <= int64_max)%Z -> (0 <= bu_MonthlyUsed b <= int64_max)%Z -> in_int64 (co_Amount cost) = true ->
  in_int64 (bu_DailyLimit b) = true -> in_int64 (bu_MonthlyLimit b) = true ->
  if ((0 <=? co_Amount cost) && (bu_DailyUsed b + co_Amount cost <=? bu_DailyLimit b)
      && (bu_MonthlyUsed b + co_Amount cost <=? bu_MonthlyLimit b))%Z
  then charge b rd tenant cost
       = inr (b <| bu_DailyUsed := (bu_DailyUsed b + co_Amount cost)%Z |>
                <| bu_MonthlyUsed := (bu_MonthlyUsed b + co_Amount cost)%Z |> <| bu_LastUpdated := rd_now rd |>)
  else exists d e, charge b rd tenant cost = inl (d, e) /\ de_Allowed d = false.
Proof.
  intros Hd Hm Ha Ld Lm. unfold charge. rewrite !checkedUsageAdd_exact by done. unfold in_int64 in Ld, Lm.
  apply andb_true_iff in Ld as [_ Ld%Z.leb_le], Lm as [_ Lm%Z.leb_le].
  destruct (Z.ltb_spec (co_Amount cost) 0), (Z.leb_spec 0 (co_Amount cost)); try lia; cbn; [refused|].
  destruct (Z.ltb_spec int64_max (bu_DailyUsed b + co_Amount cost)).
  { destruct (Z.leb_spec (bu_DailyUsed b + co_Amount cost) (bu_DailyLimit b)); [lia|]. refused. }
  destruct (Z.ltb_spec int64_max (bu_MonthlyUsed b + co_Amount cost)).
  { destruct (Z.leb_spec (bu_MonthlyUsed b + co_Amount cost) (bu_MonthlyLimit b)); [lia|].
    rewrite andb_false_r. refused. }
  rewrite !Z.leb_antisym. destruct (_ <? _)%Z; cbn; [refused|]. by destruct (_ <? _)%Z; cbn; [refused|].
Qed.

Lemma tracked_mono lg clock clock' s tenant : (clock <= clock')%Z -> tracked lg clock s tenant -> tracked lg clock' s tenant.
Proof. intros Hc. unfold tracked. case_match; [|done]. intros []. split; try done; lia. Qed.

Lemma refines_mono clock clock' s lg : (clock <= clock')%Z -> refines clock s lg -> refines clock' s lg.
Proof. intros Hc []. split; eauto using tracked_mono. Qed.

(** A spend of one tenant leaves the budgets of the others as they are. *)
Lemma tracked_other lg lg' clock clock' s s' tenant sp : (clock <= clock')%Z ->
  lg_spends lg' = sp :: lg_spends lg -> sp_tenant sp <> tenant ->
  lg_fixed lg' !! tenant = lg_fixed lg !! tenant -> ms_budgets s' !! tenant = ms_budgets s !! tenant ->
  tracked lg clock s tenant -> tracked lg' clock' s' tenant.
Proof.
  intros Hc Es Ne Ef Eb. unfold tracked. rewrite Eb.
  assert (Hs : forall per p, spent per tenant p (lg_spends lg') = spent per tenant p (lg_spends lg)).
  { intros. rewrite Es, spent_cons. unfold in_period. by destruct (String.eqb_spec (sp_tenant sp) tenant). }
  destruct (ms_budgets s !! tenant) as [b|].
  - intros []. split; rewrite ?Ef, ?Hs; try done; [|lia]. rewrite Es. by constructor.
  - rewrite Ef, Es. intros [??]. by split; [|constructor].
Qed.

Lemma spent_now per tenant t sp l : sp_tenant sp = tenant -> sp_at sp = t ->
  spent per tenant (per t) (sp :: l) = (sp_amount sp + spent per tenant (per t) l)%Z.
Proof. intros <- <-. rewrite spent_cons. unfold in_period. by rewrite String.eqb_refl, Z.eqb_refl. Qed.

Lemma check_refines clock s lg rd tenant cost :
  refines clock s lg -> (clock <= rd_now rd)%Z -> in_int64 (co_Amount cost) = true ->
  (step (OpCheck rd tenant cost) s).2 = (ledger_step (OpCheck rd tenant cost) lg).2 /\
  refines (rd_now rd) (step (OpCheck rd tenant cost) s).1 (ledger_step (OpCheck rd tenant cost) lg).1.
Proof.
  intros R Hc Ha. destruct (loaded_budget _ _ _ rd tenant cost R Hc) as (b & El & Et & Elim & Ed & Em & [Rd Rm] & Hl).
  destruct (ledger_limits_wf _ _ _ _ _ _ R Elim) as [Ld Lm].
  destruct (roll_fields (rd_now rd) b) as (Ft & Fd & Fm & _ & _).
  pose proof (spent_nonneg day tenant (day (rd_now rd)) _ (rf_nonneg _ _ _ R)) as Nd.
  pose proof (spent_nonneg month tenant (month (rd_now rd)) _ (rf_nonneg _ _ _ R)) as Nm.
  pose proof (charge_exact (roll (rd_now rd) b) rd tenant cost) as C. rewrite Fd, Fm, Ed, Em in C.
  specialize (C ltac:(lia) ltac:(lia) Ha Ld Lm).
  cbn [step ledger_step]. unfold Check. rewrite El, Elim. cbv zeta.
  destruct ((0 <=? _) && _ && _)%Z eqn:G in C |- *; rewrite ?G.
  2: { destruct C as (d & e & -> & ?). cbn. split; [done|]. by eapply refines_mono. }
  rewrite C. cbn. rewrite Ft, Et. split; [done|]. boolean. split; cbn.
  - exact (rf_limits _ _ _ R).
  - exact (rf_limits_wf _ _ _ R).
  - apply map_Forall_insert_2; [done|exact (rf_fixed_wf _ _ _ R)].
  - constructor; [cbn; lia|exact (rf_nonneg _ _ _ R)].
  - intros u. destruct (decide (u = tenant)) as [->|Ne].
    + unfold tracked. cbn. rewrite lookup_insert_eq. split; cbn -[spent].
      * congruence.
      * by rewrite lookup_insert_eq, Fd, Fm.
      * rewrite spent_now by done. cbn -[spent]. lia.
      * rewrite spent_now by done. cbn -[spent]. lia.
      * constructor; [cbn; lia|exact Hl].
      * lia.
      * unfold in_int64 in Ld, Lm. boolean. lia.
    + eapply tracked_other; [exact Hc| | | | |exact (rf_tracked _ _ _ R u)]; cbn; [done|done|..];
        by rewrite lookup_insert_ne by done.
Qed.

Lemma setlimits_refines clock s lg tenant d m : in_int64 d = true -> in_int64 m = true ->
  refines clock s lg ->
  refines clock (step (OpSetLimits tenant d m) s).1 (ledger_step (OpSetLimits tenant d m) lg).1.
Proof.
  intros Hd Hm R. destruct R as [Rl Rw Rf Rn Rt]. split; cbn; [by rewrite Rl| |done|done|].
  - by apply map_Forall_insert_2.
  - intros u. specialize (Rt u). unfold tracked in *. cbn. destruct (ms_budgets s !! u); [|done]. by destruct Rt.
Qed.

Lemma run_refines ops : forall clock s lg, ops_wf clock ops = true -> refines clock s lg ->
  (run_ops step ops s).2 = (run_ops ledger_step ops lg).2 /\
  exists clock', refines clock' (run_ops step ops s).1 (run_ops ledger_step ops lg).1.
Proof.
  induction ops as [|op ops IH]; intros clock s lg W R; [by eauto|]. cbn [run_ops].
  assert (S : exists clock', ops_wf clock' ops = true /\ (step op s).2 = (ledger_step op lg).2 /\
                             refines clock' (step op s).1 (ledger_step op lg).1).
  { destruct op as [rd tenant cost|tenant d m]; cbn [ops_wf] in W; boolean.
    - exists (rd_now rd). by destruct (check_refines clock s lg rd tenant cost R ltac:(lia) ltac:(done)).
    - exists clock. split_and!; [done|done|by apply setlimits_refines]. }
  destruct S as (clock' & W' & E & R'). destruct (step op s) as [s' ok], (ledger_step op lg) as [lg' ok']. cbn in E, R'.
  specialize (IH clock' s' lg' W' R') as [E' IH].
  destruct (run_ops step ops s') as [s2 oks], (run_ops ledger_step ops lg') as [lg2 oks']. cbn in *. by subst.
Qed.

(** The spends a run granted, latest first. *)
Fixpoint granted (ops : list Op) (oks : list bool) (acc : list Spend) : list Spend :=
  match ops, oks with
  | OpCheck rd tenant cost :: ops, true :: oks =>
      granted ops oks ({| sp_tenant := tenant; sp_at := rd_now rd; sp_amount := co_Amount cost |} :: acc)
  | _ :: ops, _ :: oks => granted ops oks acc
  | _, _ => acc
  end.

Lemma ledger_records ops : forall lg,
  lg_spends (run_ops ledger_step ops lg).1 = granted ops (run_ops ledger_step ops lg).2 (lg_spends lg).
Proof.
  induction ops as [|op ops IH]; intros lg; [done|]. cbn [run_ops].
  destruct (ledger_step op lg) as [lg' ok] eqn:E. specialize (IH lg').
  destruct (run_ops ledger_step ops lg') as [lg2 oks]. cbn in IH |- *. rewrite IH.
  destruct op as [rd tenant cost|tenant d m]; cbn in E; [|by simplify_eq].
  destruct (ledger_limits tenant lg). case_match; by simplify_eq.
Qed.

(** Every period of a tenant is within the limits fixed at its first spend. *)
Definition within_limits (lg : Ledger) : Prop :=
  Forall (fun s => (0 <= sp_amount s)%Z) (lg_spends lg) /\
  forall tenant, match lg_fixed lg !! tenant with
                 | Some (d, m) => forall p, (0 <= d /\ 0 <= m /\ spent day tenant p (lg_spends lg) <= d /\
                                             spent month tenant p (lg_spends lg) <= m)%Z
                 | None => Forall (fun s => sp_tenant s <> tenant) (lg_spends lg)
                 end.

Lemma ledger_step_within op lg : within_limits lg -> within_limits (ledger_step op lg).1.
Proof.
  intros [N W]. destruct op as [rd tenant cost|tenant d m]; [|done]. cbn [ledger_step].
  destruct (ledger_limits tenant lg) as [d m] eqn:El. cbv zeta. case_match eqn:G; [|done]. boolean.
  split; [by constructor; [cbn; lia|]|]. intros u. cbn [fst lg_fixed lg_spends].
  pose proof (spent_nonneg day tenant (day (rd_now rd)) _ N). pose proof (spent_nonneg month tenant (month (rd_now rd)) _ N).
  specialize (W u). destruct (decide (u = tenant)) as [->|Ne].
  - rewrite lookup_insert_eq. intros p.
    assert (B : (spent day tenant p (lg_spends lg) <= d /\ spent month tenant p (lg_spends lg) <= m)%Z).
    { unfold ledger_limits in El. destruct (lg_fixed lg !! tenant) as [[??]|].
      - simplify_eq. specialize (W p). lia.
      - rewrite !spent_none; [lia|..]; (eapply Forall_impl; [exact W|]); cbn beta; intros x Hx;
          unfold in_period; by destruct (String.eqb_spec (sp_tenant x) tenant). }
    rewrite !spent_cons. unfold in_period. cbn [sp_tenant sp_at sp_amount]. rewrite String.eqb_refl. cbn [andb].
    split_and!; [lia|lia|destruct (Z.eqb_spec (day (rd_now rd)) p)|destruct (Z.eqb_spec (month (rd_now rd)) p)]; subst; lia.
  - rewrite lookup_insert_ne by done.
    assert (Hs : forall per p, spent per u p ({| sp_tenant := tenant; sp_at := rd_now rd; sp_amount := co_Amount cost |}
                                :: lg_spends lg) = spent per u p (lg_spends lg)).
    { intros. rewrite spent_cons. unfold in_period. cbn. by destruct (String.eqb_spec tenant u). }
    destruct (lg_fixed lg !! u) as [[d' m']|]; [intros p; rewrite !Hs; apply W|by constructor].
Qed.

Lemma ledger_run_within ops : forall lg, within_limits lg -> within_limits (run_ops ledger_step ops lg).1.
Proof.
  induction ops as [|op ops IH]; intros lg W; [done|]. cbn [run_ops].
  pose proof (ledger_step_within op lg W) as W'. destruct (ledger_step op lg) as [lg' ok].
  specialize (IH lg' W'). by destruct (run_ops ledger_step ops lg').
Qed.

(** On the in-memory storage the enforcer is the ledger: over any history of
    checks and limit changes, made with 64-bit amounts under a clock that does not go
    back, a check is granted exactly when its amount is not negative and the tenant's
    spends of that UTC day and of that month, with it, stay within the limits the tenant
    had at its first granted check. *)
Theorem budget_refines_ledger (start : time) (ops : list Op) :
  ops_wf start ops = true ->
  (run_ops step ops NewMemoryStorage).2 = (run_ops ledger_step ops empty_ledger).2.
Proof. intros W. exact (proj1 (run_refines ops start _ _ W (refines_initial start))). Qed.

(** ** The documented contract

    [SetLimits updates the budget limits for a tenant]: a spend is allowed when the day's and the month's spends
    stay within the limits configured at that moment. *)

Record Account := { ac_spends : list Spend; ac_limits : gmap string (Z * Z) }.
Definition no_account : Account := {| ac_spends := []; ac_limits := ∅ |}.
Definition configured (tenant : string) (limits : gmap string (Z * Z)) : Z * Z := default (1000, 50000)%Z (limits !! tenant).

Definition contract_step (op : Op) (ac : Account) : Account * bool :=
  match op with
  | OpSetLimits tenant daily monthly =>
      ({| ac_spends := ac_spends ac; ac_limits := <[tenant := (daily, monthly)]> (ac_limits ac) |}, true)
  | OpCheck rd tenant cost =>
      let '(daily, monthly) := configured tenant (ac_limits ac) in
      let amount := co_Amount cost in
      if ((0 <=? amount) && (spent day tenant (day (rd_now rd)) (ac_spends ac) + amount <=? daily)
          && (spent month tenant (month (rd_now rd)) (ac_spends ac) + amount <=? monthly))%Z
      then ({| ac_spends := {| sp_tenant := tenant; sp_at := rd_now rd; sp_amount := amount |} :: ac_spends ac;
               ac_limits := ac_limits ac |}, true)
      else (ac, false)
  end.

(** No tenant's limits are set after it was first checked; [seen] are the tenants checked before. *)
Fixpoint configured_first (seen : list string) (ops : list Op) : bool :=
  match ops with
  | [] => true
  | OpCheck _ tenant _ :: ops => configured_first (tenant :: seen) ops
  | OpSetLimits tenant _ _ :: ops => negb (existsb (String.eqb tenant) seen) && configured_first seen ops
  end.

(** The ledger and the account, while only tenants that were seen have fixed limits. *)
Record keeps (seen : list string) (lg : Ledger) (ac : Account) : Prop := {
  kp_spends : lg_spends lg = ac_spends ac;
  kp_limits : lg_limits lg = ac_limits ac;
  kp_fixed : forall tenant l, lg_fixed lg !! tenant = Some l ->
    existsb (String.eqb tenant) seen = true /\ l = configured tenant (lg_limits lg);
}.

Lemma keeps_limits seen lg ac tenant : keeps seen lg ac -> ledger_limits tenant lg = configured tenant (ac_limits ac).
Proof.
  intros [_ El Fx]. unfold ledger_limits. rewrite <- El. destruct (lg_fixed lg !! tenant) as [l|] eqn:E; [|done].
  by destruct (Fx _ _ E).
Qed.

Lemma contract_keeps ops : forall seen lg ac, configured_first seen ops = true -> keeps seen lg ac ->
  (run_ops ledger_step ops lg).2 = (run_ops contract_step ops ac).2 /\
  exists seen', keeps seen' (run_ops ledger_step ops lg).1 (run_ops contract_step ops ac).1.
Proof.
  induction ops as [|op ops IH]; intros seen lg ac W K; [by eauto|]. cbn [run_ops].
  assert (S : exists seen', configured_first seen' ops = true /\ (ledger_step op lg).2 = (contract_step op ac).2 /\
                            keeps seen' (ledger_step op lg).1 (contract_step op ac).1).
  { destruct op as [rd tenant cost|tenant d m]; cbn [configured_first ledger_step contract_step] in *.
    - exists (tenant :: seen). split; [done|]. rewrite (keeps_limits _ _ _ tenant K). destruct K as [Es El Fx].
      assert (In' : forall u, existsb (String.eqb u) seen = true -> existsb (String.eqb u) (tenant :: seen) = true)
        by (intros u Hu; cbn; rewrite Hu; apply orb_true_r).
      destruct (configured tenant (ac_limits ac)) as [daily monthly] eqn:Ec. rewrite Es. cbv zeta.
      case_match; (split; [done|]); (split; cbn [fst lg_spends lg_limits lg_fixed ac_spends ac_limits]; [congruence|done|]).
      + intros u l. destruct (decide (u = tenant)) as [->|Ne].
        * rewrite lookup_insert_eq, El, Ec. intros [= <-]. split; [cbn; by rewrite String.eqb_refl|done].
        * rewrite lookup_insert_ne by done. intros [Hu ->]%Fx. by auto.
      + intros u l [Hu ->]%Fx. by auto.
    - boolean. exists seen. split; [done|]. split; [done|]. destruct K as [Es El Fx].
      split; cbn [fst lg_spends lg_limits lg_fixed ac_spends ac_limits]; [done|by rewrite El|].
      intros u l [Hu ->]%Fx. split; [done|]. unfold configured. rewrite lookup_insert_ne; [done|]. intros <-. congruence. }
  destruct S as (seen' & W' & E & K'). destruct (ledger_step op lg) as [lg' ok], (contract_step op ac) as [ac' ok']. cbn in E, K'.
  specialize (IH seen' lg' ac' W' K') as [E' IH].
  destruct (run_ops ledger_step ops lg') as [lg2 oks], (run_ops contract_step ops ac') as [ac2 oks']. cbn in *. by subst.
Qed.

(** C38. When a tenant's limits are configured before its first check, the enforcer on the in-memory storage keeps the
    documented contract.  Over any history of such checks and limit changes, made with 64-bit amounts under a clock that
    does not go back, a check is granted exactly when its amount is not negative and what was granted to the tenant on that
    UTC day and in that month stays, with it, within the limits configured at that moment; so what was granted to a
    tenant in any one day or month is at most its configured daily or monthly limit.  (Limits set after the first
    granted check are ignored by this storage, which [set_limits_ignored] shows; the theorem does not use that.) *)
Theorem budget_contract_kept (start : time) (ops : list Op) :
  ops_wf start ops = true -> configured_first [] ops = true ->
  let '(s, oks) := run_ops step ops NewMemoryStorage in
  let spends := granted ops oks [] in
  oks = (run_ops contract_step ops no_account).2 /\
  forall tenant, Forall (fun sp => sp_tenant sp <> tenant) spends \/
    exists daily monthly, MemoryLimits tenant s = (s, Ok (daily, monthly)) /\
      forall p, (spent day tenant p spends <= daily /\ spent month tenant p spends <= monthly)%Z.
Proof.
  intros W C. destruct (run_refines ops start _ _ W (refines_initial start)) as [E [clock R]].
  destruct (contract_keeps ops [] empty_ledger no_account C) as [E2 [seen K]]; [by split|].
  pose proof (ledger_records ops empty_ledger) as L. pose proof (ledger_run_within ops empty_ledger) as I.
  destruct (run_ops step ops NewMemoryStorage) as [s oks], (run_ops ledger_step ops empty_ledger) as [lg oks'].
  cbn [fst snd] in E, E2, R, K, L, I. subst oks'. cbv zeta. cbn [lg_spends empty_ledger] in L. rewrite <- L.
  split; [exact E2|]. intros tenant.
  destruct I as [_ I]; [split; [done|]; intros u; cbn; by rewrite lookup_empty|]. specialize (I tenant).
  destruct (lg_fixed lg !! tenant) as [[d m]|] eqn:Ef; [right|by left].
  exists d, m. destruct (kp_fixed _ _ _ K _ _ Ef) as [_ Ec]. split.
  - unfold MemoryLimits. rewrite (rf_limits _ _ _ R). unfold configured in Ec. by rewrite <- Ec.
  - intros p. destruct (I p) as (_ & _ & Hd & Hm). exact (conj Hd Hm).
Qed.

(** Two states of the storage that differ only in the configured limits of tenants that have a budget. *)
Definition same_budgets (s1 s2 : MemoryStorage) : Prop :=
  ms_budgets s1 = ms_budgets s2 /\
  forall u, ms_budgets s1 !! u = None -> ms_limits s1 !! u = ms_limits s2 !! u.

Lemma same_budgets_step op s1 s2 : same_budgets s1 s2 ->
  (step op s1).2 = (step op s2).2 /\ same_budgets (step op s1).1 (step op s2).1.
Proof.
  intros [Eb El]. destruct op as [rd tenant cost|tenant d m].
  - cbn [step]. unfold Check, load. cbn [memory_storage st_Get st_Limits st_Set MemoryGet MemoryLimits].
    rewrite <- Eb. destruct (ms_budgets s1 !! tenant) as [b|] eqn:E; [|rewrite (El tenant E); destruct (default _ _) as [d m]].
    all: destruct (charge _ rd tenant cost) as [[out e]|b']; cbn; [by repeat split|].
    all: split; [done|]; split; cbn; [by rewrite Eb|]; intros u [Hu _]%lookup_insert_None; by apply El.
  - split; [done|]. split; cbn; [done|]. intros u Hu. destruct (decide (u = tenant)) as [->|Ne].
    + by rewrite !lookup_insert_eq.
    + rewrite !lookup_insert_ne by done. by apply El.
Qed.

Lemma same_budgets_run ops : forall s1 s2, same_budgets s1 s2 -> (run_ops step ops s1).2 = (run_ops step ops s2).2.
Proof.
  induction ops as [|op ops IH]; intros s1 s2 S; [done|]. cbn [run_ops].
  destruct (same_budgets_step op s1 s2 S) as [E S'].
  destruct (step op s1) as [s1' ok1], (step op s2) as [s2' ok2]. cbn in E, S'. specialize (IH s1' s2' S').
  destruct (run_ops step ops s1'), (run_ops step ops s2'). cbn in *. by subst.
Qed.

(** Once a tenant has a budget in the in-memory storage, [SetLimits] for it succeeds and
    has no effect: every later history of calls is answered as if it had not been made. *)
Theorem set_limits_ignored (s : MemoryStorage) (b : Budget) (tenant : string) (daily monthly : Z) (ops : list Op) :
  ms_budgets s !! tenant = Some b ->
  let '(s', r) := SetLimits memory_storage tenant daily monthly s in
  r = Ok tt /\ (run_ops step ops s').2 = (run_ops step ops s).2.
Proof.
  intros Hb. cbn. split; [done|]. apply same_budgets_run. split; [done|]. cbn. intros u Hu.
  rewrite lookup_insert_ne; [done|]. intros ->. by rewrite Hb in Hu.
Qed.
End Enforcer.

(** * Risk budgets

    The enforcer keeps pointers that its callers handed in; changes made through those
    pointers outside its methods are not modelled. *)
Module Risk.

Record RiskBudget := {
  rb_TenantID : string;
  rb_ComputeCapMillis : Z;
  rb_ComputeUsedMillis : Z;
  rb_BlastRadiusCap : Z;
  rb_BlastRadiusUsed : Z;
  rb_RiskScoreCap : float64;
  rb_RiskScoreUsed : float64;
  rb_AutonomyLevel : Z;
  rb_UncertaintyScore : float64;
}.
#[export] Instance RiskBudget_eta : Eta RiskBudget := fun b => {|
  rb_TenantID := rb_TenantID b; rb_ComputeCapMillis := rb_ComputeCapMillis b;
  rb_ComputeUsedMillis := rb_ComputeUsedMillis b; rb_BlastRadiusCap := rb_BlastRadiusCap b;
  rb_BlastRadiusUsed := rb_BlastRadiusUsed b; rb_RiskScoreCap := rb_RiskScoreCap b;
  rb_RiskScoreUsed := rb_RiskScoreUsed b; rb_AutonomyLevel := rb_AutonomyLevel b;
  rb_UncertaintyScore := rb_UncertaintyScore b |}.

Record RiskDecision := {
  rk_Allowed : bool;
  rk_Reason : string;
  rk_RiskCost : float64;
  rk_AutonomyShrunk : bool;
  rk_NewAutonomyLevel : Z;
}.

Definition RiskEnforcer := gmap string RiskBudget.
Definition NewRiskEnforcer : RiskEnforcer := ∅.

Definition RiskWeights : gmap string float64 :=
  list_to_map [("LOW", of_int 1); ("MEDIUM", of_int 2); ("HIGH", of_int 5); ("CRITICAL", of_int 10)].

Definition SetBudget (budget : RiskBudget) (e : RiskEnforcer) : RiskEnforcer := <[rb_TenantID budget := budget]> e.

Definition GetBudget (tenantID : string) (e : RiskEnforcer) : res RiskBudget :=
  match e !! tenantID with
  | None => Fail ("no risk budget for tenant " +:+ goq tenantID)
  | Some b => Ok b
  end.

Definition decide_risk (allowed : bool) (reason : string) (cost : float64) : RiskDecision := {|
  rk_Allowed := allowed; rk_Reason := reason; rk_RiskCost := cost; rk_AutonomyShrunk := false;
  rk_NewAutonomyLevel := 0 |}.
Definition unconfigured : RiskDecision := decide_risk false "no risk budget configured" (of_int 0).

Definition CheckRisk (tenantID riskLevel : string) (baseCost : float64) (blastRadius : Z) (e : RiskEnforcer)
    : RiskEnforcer * RiskDecision :=
  match e !! tenantID with
  | None => (e, unconfigured)
  | Some b =>
      let weight := default (of_int 0) (RiskWeights !! riskLevel) in
      let riskCost := fmul baseCost weight in
      let score := fadd (rb_RiskScoreUsed b) riskCost in
      let blast := wrap64 (rb_BlastRadiusUsed b + blastRadius) in
      if flt (rb_RiskScoreCap b) score then
        (e, decide_risk false ("risk score " +:+ fmt_fixed 1 score +:+ " would exceed cap "
              +:+ fmt_fixed 1 (rb_RiskScoreCap b)) riskCost)
      else if (rb_BlastRadiusCap b <? blast)%Z then
        (e, decide_risk false ("blast radius " +:+ dec blast +:+ " would exceed cap "
              +:+ dec (rb_BlastRadiusCap b)) riskCost)
      else
        (<[tenantID := b <| rb_RiskScoreUsed := score |> <| rb_BlastRadiusUsed := blast |>]> e,
         decide_risk true "within risk budget" riskCost)
  end.

Definition CheckCompute (tenantID : string) (durationMillis : Z) (e : RiskEnforcer) : RiskEnforcer * RiskDecision :=
  match e !! tenantID with
  | None => (e, unconfigured)
  | Some b =>
      let used := wrap64 (rb_ComputeUsedMillis b + durationMillis) in
      if (rb_ComputeCapMillis b <? used)%Z then
        (e, decide_risk false ("compute " +:+ dec used +:+ "ms would exceed cap "
              +:+ dec (rb_ComputeCapMillis b) +:+ "ms") (of_int 0))
      else
        (<[tenantID := b <| rb_ComputeUsedMillis := used |>]> e,
         decide_risk true "within compute budget" (of_int 0))
  end.

Definition ShrinkAutonomy (tenantID : string) (uncertaintyDelta : float64) (e : RiskEnforcer)
    : RiskEnforcer * RiskDecision :=
  match e !! tenantID with
  | None => (e, unconfigured)
  | Some b =>
      let u := fadd (rb_UncertaintyScore b) uncertaintyDelta in
      let u := if flt (of_int 1) u then of_int 1 else u in
      let u := if flt u (of_int 0) then of_int 0 else u in
      let oldLevel := rb_AutonomyLevel b in
      let level := trunc_int (fmul (of_int 100) (fsub (of_int 1) u)) in
      (<[tenantID := b <| rb_UncertaintyScore := u |> <| rb_AutonomyLevel := level |>]> e,
       {| rk_Allowed := true;
          rk_Reason := "autonomy adjusted: " +:+ dec oldLevel +:+ " → " +:+ dec level
            +:+ " (uncertainty: " +:+ fmt_fixed 2 u +:+ ")";
          rk_RiskCost := of_int 0; rk_AutonomyShrunk := (level <? oldLevel)%Z; rk_NewAutonomyLevel := level |})
  end.

Definition autonomy_thresholds : gmap string Z :=
  list_to_map [("LOW", 10%Z); ("MEDIUM", 40%Z); ("HIGH", 70%Z); ("CRITICAL", 100%Z)].

Definition IsAutonomousAllowed (tenantID riskLevel : string) (e : RiskEnforcer) : bool :=
  match e !! tenantID with
  | None => false
  | Some b => (default 0 (autonomy_thresholds !! riskLevel) <=? rb_AutonomyLevel b)%Z
  end.

(** A risk level outside the four named ones is not refused but ungated: its threshold is
    zero, so that it may act autonomously at any level that is not negative, down to none,
    and its cost is [baseCost] times zero. *)
Theorem unknown_risk_level_ungated (e : RiskEnforcer) (tenantID riskLevel : string) (b : RiskBudget)
    (baseCost : float64) (blastRadius : Z) :
  riskLevel ∉ ["LOW"; "MEDIUM"; "HIGH"; "CRITICAL"] -> e !! tenantID = Some b -> (0 <= rb_AutonomyLevel b)%Z ->
  IsAutonomousAllowed tenantID riskLevel e = true /\
  rk_RiskCost (CheckRisk tenantID riskLevel baseCost blastRadius e).2 = fmul baseCost (of_int 0).
Proof.
  intros Hl Hb Ha. assert (N : forall {V} (v1 v2 v3 v4 : V),
    (list_to_map [("LOW", v1); ("MEDIUM", v2); ("HIGH", v3); ("CRITICAL", v4)] : gmap string V) !! riskLevel = None).
  { intros. by apply not_elem_of_list_to_map_1. }
  unfold IsAutonomousAllowed, CheckRisk, autonomy_thresholds, RiskWeights. rewrite Hb, !N. cbn -[of_int].
  split; [by apply Z.leb_le|]. by repeat case_match.
Qed.

(** The compute cap holds as long as the running total fits in 64 bits, and not beyond: a
    request whose sum with the use so far overflows wraps to a negative total, which is under
    every cap that is not negative, so that it is granted and the use becomes negative. *)
Theorem compute_cap_until_overflow (e : RiskEnforcer) (tenantID : string) (b : RiskBudget) (ms : Z) :
  e !! tenantID = Some b -> (0 <= rb_ComputeUsedMillis b <= int64_max)%Z -> (0 <= ms <= int64_max)%Z ->
  (0 <= rb_ComputeCapMillis b <= int64_max)%Z ->
  let '(e', d) := CheckCompute tenantID ms e in
  if (rb_ComputeUsedMillis b + ms <=? int64_max)%Z
  then rk_Allowed d = (rb_ComputeUsedMillis b + ms <=? rb_ComputeCapMillis b)%Z
  else rk_Allowed d = true /\
       exists b', e' !! tenantID = Some b' /\ (rb_ComputeUsedMillis b' < 0)%Z.
Proof.
  intros Hb Hu Hm Hc. unfold CheckCompute. rewrite Hb. cbv zeta. unfold wrap64, int64_min, int64_max in *.
  destruct (Z.leb_spec (rb_ComputeUsedMillis b + ms) 9223372036854775807) as [L|G].
  - replace ((rb_ComputeUsedMillis b + ms - -9223372036854775808) mod 18446744073709551616 + -9223372036854775808)%Z
      with (rb_ComputeUsedMillis b + ms)%Z by (Z.div_mod_to_equations; lia).
    rewrite Z.leb_antisym. by destruct (_ <? _)%Z.
  - set (w := (_ mod _ + _)%Z). assert (W : (w < 0)%Z) by (unfold w; Z.div_mod_to_equations; lia).
    destruct (Z.ltb_spec (rb_ComputeCapMillis b) w); [lia|]. cbn. split; [done|].
    eexists. split; [apply lookup_insert_eq|exact W].
Qed.
End Risk.

(** * Witnesses *)
Module BudgetDemo.

Definition reading (t : time) : Enforcer.Readings := {|
  Enforcer.rd_created := t; Enforcer.rd_now := t; Enforcer.rd_uuid := "receipt"; Enforcer.rd_stamp := t |}.
Definition cents (z : Z) : Enforcer.Cost := {|
  Enforcer.co_Amount := z; Enforcer.co_Currency := "USD"; Enforcer.co_Reason := "tool call" |}.
Definition noon (d : Z) : time := ((d * 86400 + 43200) * second)%Z.

(** Two days of checks and one a month later, with an ignored change of the limits in between. *)
Definition ops : list Enforcer.Op := [
  Enforcer.OpSetLimits "acme" 500 800;
  Enforcer.OpCheck (reading (noon 20000)) "acme" (cents 400);
  Enforcer.OpCheck (reading (noon 20000)) "acme" (cents 200);
  Enforcer.OpSetLimits "acme" 5000 8000;
  Enforcer.OpCheck (reading (noon 20001)) "acme" (cents 300);
  Enforcer.OpCheck (reading (noon 20001)) "acme" (cents 150);
  Enforcer.OpCheck (reading (noon 20031)) "acme" (cents 450);
  Enforcer.OpCheck (reading (noon 20031)) "acme" (cents (-1))].

Lemma budget_refines_ledger_witness :
  (Enforcer.run_ops Enforcer.step ops Enforcer.NewMemoryStorage).2
    = (Enforcer.run_ops Enforcer.ledger_step ops Enforcer.empty_ledger).2 /\
  (Enforcer.run_ops Enforcer.step ops Enforcer.NewMemoryStorage).2
    = [true; true; false; true; true; false; true; false].
Proof. split; [apply (Enforcer.budget_refines_ledger 0 ops); reflexivity|vm_compute; reflexivity]. Defined.

(** Limits first, then spending over two days of two tenants. *)
Definition orderly : list Enforcer.Op := [
  Enforcer.OpSetLimits "acme" 500 800;
  Enforcer.OpCheck (reading (noon 20000)) "acme" (cents 400);
  Enforcer.OpCheck (reading (noon 20000)) "acme" (cents 200);
  Enforcer.OpCheck (reading (noon 20001)) "acme" (cents 300);
  Enforcer.OpSetLimits "zen" 100 100;
  Enforcer.OpCheck (reading (noon 20001)) "acme" (cents 150);
  Enforcer.OpCheck (reading (noon 20001)) "zen" (cents 100)].

Lemma budget_contract_kept_witness :
  let '(s, oks) := Enforcer.run_ops Enforcer.step orderly Enforcer.NewMemoryStorage in
  let spends := Enforcer.granted orderly oks [] in
  oks = (Enforcer.run_ops Enforcer.contract_step orderly Enforcer.no_account).2 /\
  forall tenant, Forall (fun sp => Enforcer.sp_tenant sp <> tenant) spends \/
    exists daily monthly, Enforcer.MemoryLimits tenant s = (s, Ok (daily, monthly)) /\
      forall p, (Enforcer.spent Enforcer.day tenant p spends <= daily /\ Enforcer.spent Enforcer.month tenant p spends <= monthly)%Z.
Proof. apply (Enforcer.budget_contract_kept 0 orderly); vm_compute; reflexivity. Defined.

Example orderly_answers :
  (Enforcer.run_ops Enforcer.step orderly Enforcer.NewMemoryStorage).2 = [true; true; false; true; true; false; true].
Proof. vm_compute. reflexivity. Qed.

Definition spending : Enforcer.MemoryStorage :=
  (Enforcer.step (Enforcer.OpCheck (reading (noon 20000)) "acme" (cents 400)) Enforcer.NewMemoryStorage).1.
Definition spending_budget : Enforcer.Budget :=
  match Enforcer.ms_budgets spending !! "acme" with
  | Some b => b
  | None => {| Enforcer.bu_TenantID := ""; Enforcer.bu_DailyLimit := 0; Enforcer.bu_MonthlyLimit := 0;
               Enforcer.bu_DailyUsed := 0; Enforcer.bu_MonthlyUsed := 0; Enforcer.bu_LastUpdated := 0 |}
  end.

Lemma set_limits_ignored_witness :
  let '(s', r) := Enforcer.SetLimits Enforcer.memory_storage "acme" 5000 8000 spending in
  r = Ok tt /\ (Enforcer.run_ops Enforcer.step ops s').2 = (Enforcer.run_ops Enforcer.step ops spending).2.
Proof. apply (Enforcer.set_limits_ignored spending spending_budget "acme" 5000 8000 ops). vm_compute. reflexivity. Defined.

Definition risk : Risk.RiskEnforcer := Risk.SetBudget {|
  Risk.rb_TenantID := "acme"; Risk.rb_ComputeCapMillis := 1000; Risk.rb_ComputeUsedMillis := 10;
  Risk.rb_BlastRadiusCap := 5; Risk.rb_BlastRadiusUsed := 0; Risk.rb_RiskScoreCap := of_int 50;
  Risk.rb_RiskScoreUsed := of_int 0; Risk.rb_AutonomyLevel := 0; Risk.rb_UncertaintyScore := of_int 1 |}
  Risk.NewRiskEnforcer.
Definition acme : Risk.RiskBudget := {|
  Risk.rb_TenantID := "acme"; Risk.rb_ComputeCapMillis := 1000; Risk.rb_ComputeUsedMillis := 10;
  Risk.rb_BlastRadiusCap := 5; Risk.rb_BlastRadiusUsed := 0; Risk.rb_RiskScoreCap := of_int 50;
  Risk.rb_RiskScoreUsed := of_int 0; Risk.rb_AutonomyLevel := 0; Risk.rb_UncertaintyScore := of_int 1 |}.

Lemma unknown_risk_level_ungated_witness :
  Risk.IsAutonomousAllowed "acme" "SEVERE" risk = true /\
  Risk.rk_RiskCost (Risk.CheckRisk "acme" "SEVERE" (of_int 1000) 1 risk).2 = fmul (of_int 1000) (of_int 0).
Proof.
  apply (Risk.unknown_risk_level_ungated risk "acme" "SEVERE" acme); [|vm_compute; reflexivity|vm_compute; discriminate].
  apply (bool_decide_unpack _). vm_compute. exact I.
Defined.

Lemma compute_cap_until_overflow_witness :
  let '(e', d) := Risk.CheckCompute "acme" int64_max risk in
  Risk.rk_Allowed d = true /\ exists b', e' !! "acme" = Some b' /\ (Risk.rb_ComputeUsedMillis b' < 0)%Z.
Proof. apply (Risk.compute_cap_until_overflow risk "acme" acme int64_max); vm_compute; intuition congruence. Defined.
End BudgetDemo.
