(* ===== verification/Translog.v ===== *)
(** The receipt transparency log, [core/pkg/translog] (hash.go, proof.go,
    log.go, sth.go): RFC 6962 Merkle tree heads, inclusion and consistency
    proofs with their verifiers, the journal-backed log and signed tree heads.

    A [uint64] is an [N]; the only operation that can leave 64 bits, the doubling
    in [largestPowerOfTwoBelow], wraps around in the model.  A [[32]byte] is a
    byte list, of length 32 wherever the code builds one.  A function of the code
    that indexes a slice or recurses returns an option: [None] is an index panic
    or exhausted fuel, and the theorems show it does not occur.  Texts of errors
    that quote a library's error leave the quoted part out.

    The reference is [MTH], the RFC's tree hash on lists. *)
From S2P Require Import Prelude GoLib GoFmt Utf8 Jcs Contracts Signing.
From Stdlib Require Import Ascii.

Local Open Scope N_scope.

(** * Hashing (hash.go) *)

Definition leafHashPrefix : ascii := byte 0.
Definition nodeHashPrefix : ascii := byte 1.
Definition HashSize : nat := 32.

(** What the log relies on of SHA-256: digests of a fixed size. *)
Class HashLaws `{Hash} : Prop := sha256_size m : length (sha256 m) = HashSize.

(** Doubling on a [uint64]. *)
Definition shl1 (k : N) : N := N.shiftl k 1 mod 2 ^ 64.

(** The loop of [largestPowerOfTwoBelow]; [None] when [fuel] rounds do not end it. *)
Fixpoint double_below (fuel : nat) (k n : N) : option N :=
  match fuel with
  | O => None
  | S f => if shl1 k <? n then double_below f (shl1 k) n else Some k
  end.

Definition largestPowerOfTwoBelow (n : N) : option N := double_below 64 1 n.

Section Tree.
Context `{Hash}.

Definition LeafHash (leafInput : bytes) : bytes := sha256 (leafHashPrefix :: leafInput).
Definition NodeHash (left right : bytes) : bytes := sha256 (nodeHashPrefix :: left ++ right)%list.
Definition EmptyRoot : bytes := sha256 [].

Fixpoint subtreeRoot_fuel (fuel : nat) (leafHashes : list bytes) (lo hi : N) : option bytes :=
  match fuel with
  | O => None
  | S f =>
      let n := hi - lo in
      if n =? 1 then leafHashes !! N.to_nat lo
      else
        k ← largestPowerOfTwoBelow n;
        l ← subtreeRoot_fuel f leafHashes lo (lo + k);
        r ← subtreeRoot_fuel f leafHashes (lo + k) hi;
        Some (NodeHash l r)
  end.

(** Every recursive call is on a smaller interval. *)
Definition subtreeRoot (leafHashes : list bytes) (lo hi : N) : option bytes :=
  subtreeRoot_fuel (N.to_nat (hi - lo)) leafHashes lo hi.

Definition RootFromLeafHashes (leafHashes : list bytes) : option bytes :=
  match leafHashes with
  | [] => Some EmptyRoot
  | _ => subtreeRoot leafHashes 0 (N.of_nat (length leafHashes))
  end.

(** * Proofs (proof.go) *)

Record InclusionProof := {
  ip_LeafIndex : N;
  ip_TreeSize : N;
  ip_LeafHash : string;
  ip_RootHash : string;
  ip_AuditPath : list string;
}.

Record ConsistencyProof := {
  cp_OldSize : N;
  cp_NewSize : N;
  cp_OldRoot : string;
  cp_NewRoot : string;
  cp_ConsistencyPath : list string;
}.

Definition encodePath (path : list bytes) : list string := map hex_encode path.

Definition decodeHash (s : string) : res bytes :=
  match hex_decode s with
  | None => Fail "encoding/hex: invalid text"%string
  | Some b =>
      if negb (Nat.eqb (length b) HashSize)
      then Fail ("expected 32-byte hash, got " +:+ dec (Z.of_nat (length b)) +:+ " bytes")%string
      else Ok b
  end.

Definition decodePath (path : list string) : res (list bytes) := traverse decodeHash path.

Definition of_option {A} (o : option A) : res A :=
  match o with Some a => Ok a | None => Fail err_panic end.

Definition udec (n : N) : string := dec (Z.of_N n).

Fixpoint inclusionPath_fuel (fuel : nat) (leafHashes : list bytes) (m lo hi : N)
    : option (list bytes) :=
  match fuel with
  | O => None
  | S f =>
      let n := hi - lo in
      if n =? 1 then Some []
      else
        k ← largestPowerOfTwoBelow n;
        if m <? lo + k then
          path ← inclusionPath_fuel f leafHashes m lo (lo + k);
          r ← subtreeRoot leafHashes (lo + k) hi;
          Some (path ++ [r])%list
        else
          path ← inclusionPath_fuel f leafHashes m (lo + k) hi;
          r ← subtreeRoot leafHashes lo (lo + k);
          Some (path ++ [r])%list
  end.

Definition inclusionPath (leafHashes : list bytes) (m lo hi : N) : option (list bytes) :=
  inclusionPath_fuel (N.to_nat (hi - lo)) leafHashes m lo hi.

Definition BuildInclusionProof (leafHashes : list bytes) (leafIndex treeSize : N)
    : res InclusionProof :=
  let have := N.of_nat (length leafHashes) in
  if (treeSize =? 0) || (have <? treeSize) then
    Fail ("translog: tree size " +:+ udec treeSize +:+ " out of range (have "
          +:+ udec have +:+ " leaves)")%string
  else if treeSize <=? leafIndex then
    Fail ("translog: leaf index " +:+ udec leafIndex +:+ " out of range for tree size "
          +:+ udec treeSize)%string
  else
    path ← of_option (inclusionPath leafHashes leafIndex 0 treeSize);
    root ← of_option (subtreeRoot leafHashes 0 treeSize);
    leaf ← of_option (leafHashes !! N.to_nat leafIndex);
    Ok {| ip_LeafIndex := leafIndex; ip_TreeSize := treeSize;
          ip_LeafHash := hex_encode leaf; ip_RootHash := hex_encode root;
          ip_AuditPath := encodePath path |}.

(** [for fn%2 == 0 && fn != 0 { fn >>= 1; sn >>= 1 }], by recursion on the
    binary digits of [fn]; [skip_even_eq] is the loop. *)
Fixpoint skip_even_pos (p : positive) (sn : N) : N * N :=
  match p with
  | xO q => skip_even_pos q (N.shiftr sn 1)
  | _ => (Npos p, sn)
  end.
Definition skip_even (fn sn : N) : N * N :=
  match fn with N0 => (0, sn) | Npos p => skip_even_pos p sn end.

(** [for fn%2 == 1 { fn >>= 1; sn >>= 1 }] *)
Fixpoint skip_odd_pos (p : positive) (sn : N) : N * N :=
  match p with
  | xI q => skip_odd_pos q (N.shiftr sn 1)
  | xH => (0, N.shiftr sn 1)
  | xO _ => (Npos p, sn)
  end.
Definition skip_odd (fn sn : N) : N * N :=
  match fn with N0 => (0, sn) | Npos p => skip_odd_pos p sn end.

(** The position update of one round of the two verifiers. *)
Definition climb_step (fn sn : N) : N * N :=
  let '(fn, sn) :=
    if (N.odd fn || (fn =? sn)) && N.even fn then skip_even fn sn else (fn, sn) in
  (N.shiftr fn 1, N.shiftr sn 1).

(** The loop of [VerifyInclusion]. *)
Fixpoint inclusion_loop (fn sn : N) (r : bytes) (path : list bytes) : res (N * bytes) :=
  match path with
  | [] => Ok (sn, r)
  | p :: rest =>
      if sn =? 0 then Fail "translog: audit path longer than expected"%string
      else
        let r' := if N.odd fn || (fn =? sn) then NodeHash p r else NodeHash r p in
        inclusion_loop (climb_step fn sn).1 (climb_step fn sn).2 r' rest
  end.

Definition VerifyInclusion (proof : option InclusionProof) (trustedRoot : string) : res unit :=
  match proof with
  | None => Fail "translog: nil inclusion proof"%string
  | Some proof =>
      if ip_TreeSize proof =? 0 then Fail "translog: inclusion proof for empty tree"%string
      else if ip_TreeSize proof <=? ip_LeafIndex proof then
        Fail ("translog: leaf index " +:+ udec (ip_LeafIndex proof)
              +:+ " out of range for tree size " +:+ udec (ip_TreeSize proof))%string
      else
        leaf ← wrap_err "translog: bad leaf hash: " (decodeHash (ip_LeafHash proof));
        root ← wrap_err "translog: bad root hash: " (decodeHash trustedRoot);
        path ← wrap_err "translog: bad audit path: " (decodePath (ip_AuditPath proof));
        sr ← inclusion_loop (ip_LeafIndex proof) (ip_TreeSize proof - 1) leaf path;
        if negb (sr.1 =? 0) then Fail "translog: audit path shorter than expected"%string
        else if bool_decide (sr.2 <> root) then
          Fail ("translog: inclusion proof root mismatch: computed " +:+ hex_encode sr.2
                +:+ ", trusted " +:+ trustedRoot)%string
        else Ok tt
  end.

Fixpoint consistencySubproof_fuel (fuel : nat) (leafHashes : list bytes) (m lo hi : N)
    (complete : bool) : option (list bytes) :=
  match fuel with
  | O => None
  | S f =>
      if m =? hi then
        if complete then Some []
        else r ← subtreeRoot leafHashes lo hi; Some [r]
      else
        k ← largestPowerOfTwoBelow (hi - lo);
        if m <=? lo + k then
          path ← consistencySubproof_fuel f leafHashes m lo (lo + k) complete;
          r ← subtreeRoot leafHashes (lo + k) hi;
          Some (path ++ [r])%list
        else
          path ← consistencySubproof_fuel f leafHashes m (lo + k) hi false;
          r ← subtreeRoot leafHashes lo (lo + k);
          Some (path ++ [r])%list
  end.

Definition consistencySubproof (leafHashes : list bytes) (m lo hi : N) (complete : bool)
    : option (list bytes) :=
  consistencySubproof_fuel (N.to_nat (hi - lo)) leafHashes m lo hi complete.

Definition BuildConsistencyProof (leafHashes : list bytes) (oldSize newSize : N)
    : res ConsistencyProof :=
  let have := N.of_nat (length leafHashes) in
  if have <? newSize then
    Fail ("translog: new size " +:+ udec newSize +:+ " out of range (have "
          +:+ udec have +:+ " leaves)")%string
  else if (oldSize =? 0) || (newSize <? oldSize) then
    Fail ("translog: old size " +:+ udec oldSize +:+ " out of range for new size "
          +:+ udec newSize)%string
  else
    path ← (if oldSize <? newSize
            then of_option (consistencySubproof leafHashes oldSize 0 newSize true) else Ok []);
    oldRoot ← of_option (subtreeRoot leafHashes 0 oldSize);
    newRoot ← of_option (subtreeRoot leafHashes 0 newSize);
    Ok {| cp_OldSize := oldSize; cp_NewSize := newSize;
          cp_OldRoot := hex_encode oldRoot; cp_NewRoot := hex_encode newRoot;
          cp_ConsistencyPath := encodePath path |}.

(** The loop of [VerifyConsistency]. *)
Fixpoint consistency_loop (fn sn : N) (fr sr : bytes) (rest : list bytes)
    : res (N * (bytes * bytes)) :=
  match rest with
  | [] => Ok (sn, (fr, sr))
  | p :: rest =>
      if sn =? 0 then Fail "translog: consistency path longer than expected"%string
      else
        let '(fr', sr') := if N.odd fn || (fn =? sn) then (NodeHash p fr, NodeHash p sr)
                           else (fr, NodeHash sr p) in
        consistency_loop (climb_step fn sn).1 (climb_step fn sn).2 fr' sr' rest
  end.

Definition VerifyConsistency (proof : option ConsistencyProof) : res unit :=
  match proof with
  | None => Fail "translog: nil consistency proof"%string
  | Some proof =>
      let oldSize := cp_OldSize proof in
      let newSize := cp_NewSize proof in
      if (oldSize =? 0) || (newSize <? oldSize) then
        Fail ("translog: old size " +:+ udec oldSize +:+ " out of range for new size "
              +:+ udec newSize)%string
      else
        oldRoot ← wrap_err "translog: bad old root: " (decodeHash (cp_OldRoot proof));
        newRoot ← wrap_err "translog: bad new root: " (decodeHash (cp_NewRoot proof));
        path ← wrap_err "translog: bad consistency path: "
                 (decodePath (cp_ConsistencyPath proof));
        if oldSize =? newSize then
          if negb (Nat.eqb (length path) 0) then
            Fail "translog: non-empty consistency path for equal tree sizes"%string
          else if bool_decide (oldRoot <> newRoot) then
            Fail ("translog: equivocation: two distinct roots at tree size "
                  +:+ udec oldSize)%string
          else Ok tt
        else
          match path with
          | [] => Fail "translog: empty consistency path for growing tree"%string
          | p0 :: tl =>
              let '(fn, sn) := skip_odd (oldSize - 1) (newSize - 1) in
              let '(seed, rest) := if negb (fn =? 0) then (p0, tl) else (oldRoot, path) in
              out ← consistency_loop fn sn seed seed rest;
              if negb (out.1 =? 0) then
                Fail "translog: consistency path shorter than expected"%string
              else if bool_decide (out.2.1 <> oldRoot) then
                Fail "translog: consistency proof does not reproduce old root (split view)"%string
              else if bool_decide (out.2.2 <> newRoot) then
                Fail "translog: consistency proof does not reproduce new root (split view)"%string
              else Ok tt
          end
  end.
End Tree.

(** * Positions in a tree *)

Lemma shiftr1 n : N.shiftr n 1 = n / 2.
Proof. by rewrite N.shiftr_div_pow2. Qed.

Lemma pow2_succ d : 2 ^ (d + 1) = 2 * 2 ^ d.
Proof. rewrite N.pow_add_r. lia. Qed.

Lemma pow2_pos d : 0 < 2 ^ d.
Proof. apply N.neq_0_lt_0, N.pow_nonzero. lia. Qed.
#[local] Hint Resolve pow2_pos : core.

(** A power of two is 1 or twice the previous one. *)
Lemma pow2_cases d : d = 0 \/ exists e, d = e + 1 /\ 2 ^ d = 2 * 2 ^ e.
Proof.
  destruct (decide (d = 0)) as [->|]; [by left|right]. exists (d - 1).
  split; [lia|]. rewrite <-pow2_succ. f_equal. lia.
Qed.

Lemma odd_double x : N.odd (2 * x) = false.
Proof. by rewrite N.odd_mul. Qed.
Lemma even_double x : N.even (2 * x) = true.
Proof. by rewrite N.even_mul. Qed.
Lemma even_cases n : (N.even n = true /\ N.odd n = false /\ n = 2 * (n / 2)) \/
  (N.even n = false /\ N.odd n = true /\ n = 2 * (n / 2) + 1).
Proof.
  assert (n = 2 * (n / 2) + n mod 2 /\ n mod 2 < 2) as [Hn Hm].
  { split; [apply N.div_mod'|by apply N.mod_lt]. }
  assert (C : n mod 2 = 0 \/ n mod 2 = 1) by (clear Hn; revert Hm; generalize (n mod 2); lia).
  destruct C as [E|E]; [left|right]; rewrite E, ?N.add_0_r in Hn;
    rewrite Hn, ?N.odd_add, ?N.even_add, ?even_double, ?odd_double, <-Hn; done.
Qed.

Lemma half_pos p : Npos p~0 / 2 = Npos p /\ Npos p~1 / 2 = Npos p.
Proof. split; rewrite <-N.div2_div; done. Qed.

(** The two inner loops, as the source writes them. *)
Lemma skip_even_eq fn sn :
  skip_even fn sn =
    if N.even fn && negb (fn =? 0) then skip_even (fn / 2) (sn / 2) else (fn, sn).
Proof.
  destruct fn as [|[p|p|]]; cbn [skip_even skip_even_pos N.even]; try done.
  by rewrite shiftr1, (proj1 (half_pos p)).
Qed.

Lemma skip_odd_eq fn sn :
  skip_odd fn sn = if N.odd fn then skip_odd (fn / 2) (sn / 2) else (fn, sn).
Proof.
  destruct fn as [|[p|p|]]; cbn [skip_odd skip_odd_pos N.odd]; rewrite ?shiftr1; try done.
  by rewrite (proj2 (half_pos p)).
Qed.

(** The sides on which the rounds of a climb to the root take the path element:
    [true] on the left. *)
Definition on_left (fn sn : N) : bool := N.odd fn || (fn =? sn).

Inductive climbs : N -> N -> list bool -> Prop :=
| climbs_root fn : climbs fn 0 []
| climbs_up fn sn ds :
    sn <> 0 -> climbs (climb_step fn sn).1 (climb_step fn sn).2 ds ->
    climbs fn sn (on_left fn sn :: ds).

Lemma climb_step_shift fn sn :
  N.odd fn = true \/ fn <> sn -> climb_step fn sn = (fn / 2, sn / 2).
Proof.
  intros C. unfold climb_step.
  assert ((N.odd fn || (fn =? sn)) && N.even fn = false) as ->.
  { rewrite <-N.negb_odd. destruct C as [->|C%N.eqb_neq]; [done|].
    rewrite C. by destruct (N.odd fn). }
  by rewrite !shiftr1.
Qed.

Lemma climb_step_skip fn sn :
  N.even fn = true -> fn = sn ->
  climb_step fn sn = ((skip_even fn sn).1 / 2, (skip_even fn sn).2 / 2).
Proof.
  intros E ->. unfold climb_step. rewrite N.eqb_refl, orb_true_r, E. cbn [andb].
  destruct (skip_even sn sn) as [a b]. by rewrite !shiftr1.
Qed.

(** The left subtree of a larger tree: the climb is the subtree's, then one step
    with the right sibling. *)
Lemma climbs_left fn sn ds :
  climbs fn sn ds -> forall j big, sn + 1 = 2 ^ j -> fn <= sn ->
  2 ^ j <= big < 2 * 2 ^ j -> climbs fn big (ds ++ [false]).
Proof.
  induction 1 as [fn|fn sn ds Hn Hc IH]; intros j big Hj Hf Hb.
  - assert (2 ^ j = 1) as Ej by lia. rewrite Ej in Hb.
    assert (fn = 0 /\ big = 1) as [-> ->] by lia. cbn [app].
    apply (climbs_up 0 1 []); [done|]. apply climbs_root.
  - destruct (pow2_cases j) as [->|(i&->&Ei)]; [rewrite N.pow_0_r in Hj; lia|].
    rewrite Ei in *. clear Ei. pose proof (even_cases fn) as Cf.
    assert (E1 : fn = sn -> N.odd fn = true) by (intros ->; destruct Cf as [(?&?&?)|(?&?&?)]; [lia|done]).
    assert (S : on_left fn sn = on_left fn big).
    { unfold on_left. assert (fn =? big = false) as -> by (apply N.eqb_neq; lia).
      destruct (N.eqb_spec fn sn) as [E|E]; [rewrite (E1 E)|rewrite orb_false_r]; by rewrite ?orb_false_r. }
    cbn [app]. rewrite S. apply climbs_up; [lia|].
    rewrite (climb_step_shift fn big) by (right; lia).
    rewrite climb_step_shift in Hc, IH by (destruct (decide (fn = sn)); auto).
    apply (IH i); cbn [fst snd]; [|by apply N.Div0.div_le_mono|split].
    + clear -Hj. zify. Z.to_euclidean_division_equations. lia.
    + apply N.div_le_lower_bound; lia.
    + apply N.Div0.div_lt_upper_bound; lia.
Qed.

(** The right subtree of a larger tree: the climb is the subtree's, then one
    step with the left sibling. *)
Lemma skip_even_shifted x s : 0 < x ->
  forall j, x = s -> s < 2 ^ j ->
  exists y i, skip_even x s = (y, y) /\ skip_even (x + 2 ^ j) (s + 2 ^ j) = (y + 2 ^ i, y + 2 ^ i)
    /\ y < 2 ^ i /\ N.odd y = true.
Proof.
  revert s. induction (N.lt_wf_0 x) as [x _ IH]. intros s Hx j <- Hj.
  rewrite (skip_even_eq x x), (skip_even_eq (x + 2 ^ j)).
  destruct (pow2_cases j) as [->|(i&->&Ei)]; [rewrite N.pow_0_r in Hj; lia|].
  rewrite Ei in *. destruct (even_cases x) as [(E&O&Hx2)|(E&O&Hx2)].
  - assert (x + 2 * 2 ^ i = 2 * (x / 2 + 2 ^ i)) as -> by lia.
    rewrite even_double, E, (proj2 (N.eqb_neq x 0)), (proj2 (N.eqb_neq (2 * _) 0)) by lia.
    cbn [andb negb]. rewrite (N.mul_comm 2 (x / 2 + 2 ^ i)), N.div_mul by lia.
    apply (IH (x / 2)); [|lia|done|]; lia.
  - exists x, (i + 1). rewrite Ei. rewrite N.even_add, even_double, E. cbn.
    repeat split; try done; lia.
Qed.

Lemma skip_even_pow j : skip_even (2 ^ j) (2 ^ j) = (1, 1).
Proof.
  induction j as [|j IH] using N.peano_ind; [done|].
  rewrite skip_even_eq, N.pow_succ_r'. rewrite even_double, (proj2 (N.eqb_neq _ 0)).
  - cbn [andb negb]. by rewrite N.mul_comm, N.div_mul by lia.
  - pose proof (pow2_pos j). lia.
Qed.

Lemma climbs_right fn sn ds :
  climbs fn sn ds -> forall j, fn <= sn -> sn < 2 ^ j ->
  climbs (fn + 2 ^ j) (sn + 2 ^ j) (ds ++ [true]).
Proof.
  induction 1 as [fn|fn sn ds Hn Hc IH]; intros j Hf Hs.
  - assert (fn = 0) as -> by lia. rewrite !N.add_0_l. cbn [app].
    assert (on_left (2 ^ j) (2 ^ j) = true) as <-.
    { unfold on_left. by rewrite N.eqb_refl, orb_true_r. }
    pose proof (pow2_pos j). apply climbs_up; [lia|].
    destruct (pow2_cases j) as [->|(i&->&Ei)].
    + rewrite climb_step_shift by (by left). apply climbs_root.
    + rewrite climb_step_skip; [|by rewrite Ei, even_double|done].
      rewrite skip_even_pow. apply climbs_root.
  - destruct (pow2_cases j) as [->|(i&->&Ei)]; [rewrite N.pow_0_r in Hs; lia|].
    pose proof (even_cases fn) as Cf.
    assert (O : N.odd (fn + 2 ^ (i + 1)) = N.odd fn).
    { by rewrite Ei, N.odd_add, odd_double, xorb_false_r. }
    assert (S : on_left fn sn = on_left (fn + 2 ^ (i + 1)) (sn + 2 ^ (i + 1))).
    { unfold on_left. rewrite O. f_equal. destruct (N.eqb_spec fn sn), (N.eqb_spec (fn + 2 ^ (i + 1)) (sn + 2 ^ (i + 1))); lia. }
    cbn [app]. rewrite S. apply climbs_up; [lia|]. clear S.
    destruct (decide (N.even fn = true /\ fn = sn)) as [[E <-]|Hne].
    + destruct (skip_even_shifted fn fn ltac:(lia) (i + 1) eq_refl Hs) as (y&e&E1&E2&Hy&Oy).
      rewrite climb_step_skip in Hc, IH by done. rewrite E1 in Hc, IH. cbn [fst snd] in Hc, IH.
      rewrite climb_step_skip; [|by rewrite <-N.negb_odd, O, N.negb_odd|done].
      rewrite E2. cbn [fst snd].
      destruct (pow2_cases e) as [->|(e'&->&Ee)]; [rewrite N.pow_0_r in Hy; assert (y = 0) as -> by lia; done|].
      rewrite Ee in *. assert ((y + 2 * 2 ^ e') / 2 = y / 2 + 2 ^ e') as ->.
      { rewrite N.mul_comm, N.div_add by lia. done. }
      apply IH; [done|]. apply N.Div0.div_lt_upper_bound. lia.
    + assert (Ho : N.odd fn = true \/ fn <> sn).
      { destruct Cf as [(?&?&?)|(?&?&?)]; [right; intros ->; by apply Hne|by left]. }
      rewrite climb_step_shift in Hc, IH by done.
      rewrite climb_step_shift by (rewrite O; destruct Ho; [by left|right; lia]).
      rewrite Ei in *. cbn [fst snd] in *.
      rewrite !(N.mul_comm 2 (2 ^ i)), !N.div_add by lia.
      apply IH; [by apply N.Div0.div_le_mono|]. apply N.Div0.div_lt_upper_bound. lia.
Qed.

(** * The tree shape *)

(** The split point of [n] leaves in closed form. *)
Definition split_point (n : N) : N := 2 ^ N.log2 (n - 1).

Lemma split_point_spec d n : 2 ^ d < n <= 2 * 2 ^ d -> split_point n = 2 ^ d.
Proof.
  intros Hn. unfold split_point. f_equal. apply N.log2_unique; [lia|].
  rewrite N.pow_succ_r'. lia.
Qed.

Lemma split_exists n : 1 < n -> exists d, 2 ^ d < n <= 2 * 2 ^ d.
Proof.
  intros Hn. exists (N.log2 (n - 1)). pose proof (N.log2_spec (n - 1) ltac:(lia)) as [A B].
  rewrite N.pow_succ_r' in B. lia.
Qed.

Lemma double_below_spec f d n :
  2 ^ d < n <= 2 ^ 63 -> 64 <= N.of_nat f + d ->
  exists e, double_below f (2 ^ d) n = Some (2 ^ e) /\ 2 ^ e < n <= 2 * 2 ^ e.
Proof.
  revert d. induction f as [|f IH]; intros d Hn Hf.
  - exfalso. assert (2 ^ 63 <= 2 ^ d) by (apply N.pow_le_mono_r; lia). lia.
  - cbn [double_below]. assert (d < 63) by (apply (N.pow_lt_mono_r_iff 2); lia).
    assert (shl1 (2 ^ d) = 2 ^ (d + 1)) as ->.
    { unfold shl1. rewrite N.shiftl_mul_pow2, pow2_succ, N.pow_1_r, N.mul_comm.
      apply N.mod_small. rewrite <-pow2_succ. apply N.pow_lt_mono_r; lia. }
    destruct (N.ltb_spec (2 ^ (d + 1)) n); [apply IH; lia|].
    exists d. rewrite <-pow2_succ. split; [done|lia].
Qed.

Lemma largestPowerOfTwoBelow_spec n :
  1 < n <= 2 ^ 63 -> largestPowerOfTwoBelow n = Some (split_point n).
Proof.
  intros Hn. destruct (double_below_spec 64 0 n) as (e&E&He); [by rewrite N.pow_0_r|lia|].
  rewrite (split_point_spec e) by lia. exact E.
Qed.

(** Beyond 2^63 the doubling wraps to zero and the loop never ends; tree sizes
    stay below that, as they are lengths of slices. *)
Lemma largestPowerOfTwoBelow_diverges n : 2 ^ 63 < n -> largestPowerOfTwoBelow n = None.
Proof.
  intros Hn. unfold largestPowerOfTwoBelow.
  assert (G : forall f d, N.of_nat f + d = 64 -> double_below f (2 ^ d) n = None).
  { induction f as [|f IH]; intros d Hd; [done|]. cbn [double_below].
    destruct (decide (d = 63)) as [->|Hne].
    - assert (f = O) as -> by lia. assert (shl1 (2 ^ 63) = 0) as -> by reflexivity.
      by rewrite (proj2 (N.ltb_lt 0 n)) by lia.
    - assert (shl1 (2 ^ d) = 2 ^ (d + 1)) as ->.
      { unfold shl1. rewrite N.shiftl_mul_pow2, pow2_succ, N.pow_1_r, N.mul_comm.
        apply N.mod_small. rewrite <-pow2_succ. apply N.pow_lt_mono_r; lia. }
      assert (2 ^ (d + 1) <= 2 ^ 63) by (apply N.pow_le_mono_r; lia).
      destruct (N.ltb_spec (2 ^ (d + 1)) n); [apply IH; lia|lia]. }
  exact (G 64%nat 0 eq_refl).
Qed.

Definition len {A} (l : list A) : N := N.of_nat (length l).

Lemma len_app {A} (l k : list A) : len (l ++ k) = len l + len k.
Proof. unfold len. rewrite length_app. lia. Qed.

(** A nonempty list of leaves is one leaf, or a perfect left tree and a right
    tree that is not larger. *)
Lemma tree_ind {A} (P : list A -> Prop) :
  (forall x, P [x]) ->
  (forall d l r, len l = 2 ^ d -> 0 < len r <= 2 ^ d -> P l -> P r -> P (l ++ r)%list) ->
  forall l, l <> [] -> P l.
Proof.
  intros Pleaf Pnode l. remember (length l) as n eqn:E. revert l E.
  induction (lt_wf n) as [n _ IH]. intros l E Hl.
  destruct l as [|x [|y l]]; [done|apply Pleaf|].
  set (L := x :: y :: l) in *. assert (1 < len L) as Hlen by (unfold len; cbn; lia).
  destruct (split_exists _ Hlen) as [d Hd]. pose proof (pow2_pos d).
  rewrite <-(take_drop (N.to_nat (2 ^ d)) L). unfold len in *.
  apply (Pnode d); rewrite ?length_take, ?length_drop; [lia|lia|..].
  - eapply IH; [|done|]; [rewrite length_take; lia|].
    intros E0%(f_equal length). rewrite length_take in E0. cbn in E0. lia.
  - eapply IH; [|done|]; [rewrite length_drop; lia|].
    intros E0%(f_equal length). rewrite length_drop in E0. cbn [length] in E0. lia.
Qed.

Section Reference.
Context `{Hash}.

(** MTH(D[n]) of RFC 6962, section 2.1, on leaf hashes. *)
Fixpoint MTH_fuel (fuel : nat) (l : list bytes) : bytes :=
  match fuel, l with
  | _, [] => EmptyRoot
  | _, [h] => h
  | S f, _ => let k := N.to_nat (split_point (len l)) in
              NodeHash (MTH_fuel f (take k l)) (MTH_fuel f (drop k l))
  | O, _ => []
  end.
Definition MTH (l : list bytes) : bytes := MTH_fuel (length l) l.

Lemma MTH_fuel_enough l : forall f g, (length l <= f)%nat -> (length l <= g)%nat ->
  MTH_fuel f l = MTH_fuel g l.
Proof.
  destruct (decide (l = [])) as [->|Hl]; [by intros [] []|].
  revert l Hl. apply (tree_ind (fun l => forall f g, _ -> _ -> _)).
  - intros x [|f] [|g]; cbn; intros; lia || done.
  - intros d l r Hl Hr IHl IHr f g Hf Hg. pose proof (pow2_pos d).
    unfold len in *. rewrite length_app in Hf, Hg.
    destruct f as [|f]; [lia|]. destruct g as [|g]; [lia|].
    assert (Hs : N.to_nat (split_point (len (l ++ r))) = length l).
    { rewrite (split_point_spec d); unfold len; rewrite ?length_app; lia. }
    destruct (l ++ r)%list as [|x [|y t]] eqn:E.
    + apply (f_equal length) in E. rewrite length_app in E. cbn in E. lia.
    + apply (f_equal length) in E. rewrite length_app in E. cbn in E. lia.
    + cbn [MTH_fuel]. rewrite Hs, <-E, take_app_length, drop_app_length.
      f_equal; [apply IHl|apply IHr]; lia.
Qed.

Lemma MTH_app d l r :
  len l = 2 ^ d -> 0 < len r <= 2 ^ d -> MTH (l ++ r)%list = NodeHash (MTH l) (MTH r).
Proof.
  intros Hl Hr. pose proof (pow2_pos d).
  assert (Hs : N.to_nat (split_point (len (l ++ r))) = length l).
  { rewrite (split_point_spec d); rewrite ?len_app; unfold len in *; lia. }
  unfold MTH at 1. rewrite (MTH_fuel_enough _ _ (S (length (l ++ r)))) by lia.
  unfold len in Hl, Hr.
  destruct (l ++ r)%list as [|x [|y t]] eqn:E.
  1,2: apply (f_equal length) in E; rewrite length_app in E; cbn in E; lia.
  cbn [MTH_fuel]. rewrite Hs, <-E.
  rewrite take_app_length, drop_app_length. rewrite length_app.
  f_equal; apply MTH_fuel_enough; lia.
Qed.

Lemma MTH_leaf h : MTH [h] = h.
Proof. done. Qed.
End Reference.

(** ** The recursive code computes the reference *)

Section Code.
Context `{Hash}.

Lemma lookup_between {A} (pre post : list A) x :
  (pre ++ x :: post)%list !! N.to_nat (len pre) = Some x.
Proof. unfold len. rewrite Nat2N.id. by apply list_lookup_middle. Qed.

Lemma len_nonempty {A} (l : list A) : 0 < len l -> l <> [].
Proof. intros Hl ->. unfold len in Hl. cbn in Hl. lia. Qed.

Lemma split_tree {A} d (l r : list A) :
  len l = 2 ^ d -> 0 < len r <= 2 ^ d -> len (l ++ r)%list <= 2 ^ 63 ->
  largestPowerOfTwoBelow (len (l ++ r)%list) = Some (len l).
Proof.
  intros Hl Hr Hs. pose proof (pow2_pos d). rewrite len_app in *.
  rewrite largestPowerOfTwoBelow_spec by lia.
  rewrite (split_point_spec d) by lia. by rewrite Hl.
Qed.

Lemma subtreeRoot_fuel_spec l : l <> [] -> forall pre post f,
  len l <= 2 ^ 63 -> (length l <= f)%nat ->
  subtreeRoot_fuel f (pre ++ l ++ post)%list (len pre) (len pre + len l) = Some (MTH l).
Proof.
  revert l. apply (tree_ind (fun l => forall pre post f, _ -> _ -> _)).
  - intros x pre post [|f] _ Hf; [cbn in Hf; lia|]. cbn [subtreeRoot_fuel].
    rewrite (N.add_comm _ (len [x])), N.add_sub. cbn [app]. apply lookup_between.
  - intros d l r Hl Hr IHl IHr pre post f Hs Hf. pose proof (pow2_pos d).
    rewrite length_app in Hf. destruct f as [|f]; [unfold len in *; lia|].
    cbn [subtreeRoot_fuel]. rewrite N.add_comm, N.add_sub, N.add_comm.
    rewrite (proj2 (N.eqb_neq _ 1)) by (rewrite len_app; lia).
    rewrite (split_tree d) by done. cbn [mbind option_bind].
    rewrite (MTH_app d) by done. rewrite len_app in Hs |- *.
    rewrite <-app_assoc, IHl by (unfold len in *; lia). cbn.
    rewrite (app_assoc pre l), N.add_assoc, <-len_app.
    by rewrite IHr by (unfold len in *; lia).
Qed.

Lemma subtreeRoot_spec l pre post :
  l <> [] -> len l <= 2 ^ 63 ->
  subtreeRoot (pre ++ l ++ post)%list (len pre) (len pre + len l) = Some (MTH l).
Proof.
  intros Hl Hs. unfold subtreeRoot. apply subtreeRoot_fuel_spec; [done..|].
  unfold len. lia.
Qed.

(** The two halves of a subtree, as the code addresses them. *)
Lemma subtreeRoot_halves d l r pre post :
  len l = 2 ^ d -> 0 < len r <= 2 ^ d -> len (l ++ r)%list <= 2 ^ 63 ->
  subtreeRoot (pre ++ (l ++ r) ++ post)%list (len pre) (len pre + len l) = Some (MTH l) /\
  subtreeRoot (pre ++ (l ++ r) ++ post)%list (len pre + len l) (len pre + len (l ++ r)%list)
    = Some (MTH r).
Proof.
  intros Hl Hr Hs. pose proof (pow2_pos d). rewrite len_app in *. split.
  - rewrite <-app_assoc. apply subtreeRoot_spec; [apply len_nonempty|]; lia.
  - rewrite <-app_assoc, (app_assoc pre l), N.add_assoc, <-len_app.
    apply subtreeRoot_spec; [apply len_nonempty|]; lia.
Qed.

(** ** Climbing with hashes *)

(** The root reached from [r] with the path elements on the sides [ds], and the
    root of the old tree: only left siblings belong to it. *)
Fixpoint ascend (ds : list bool) (path : list bytes) (r : bytes) : bytes :=
  match ds, path with
  | d :: ds, p :: path => ascend ds path (if d then NodeHash p r else NodeHash r p)
  | _, _ => r
  end.

Fixpoint ascend_old (ds : list bool) (path : list bytes) (r : bytes) : bytes :=
  match ds, path with
  | d :: ds, p :: path => ascend_old ds path (if d then NodeHash p r else r)
  | _, _ => r
  end.

Lemma ascend_snoc ds path d p r :
  length ds = length path ->
  ascend (ds ++ [d]) (path ++ [p]) r =
    let r' := ascend ds path r in if d then NodeHash p r' else NodeHash r' p.
Proof.
  revert path r. induction ds as [|e ds IH]; intros [|q path] r E; try discriminate; [done|].
  cbn in *. apply IH. lia.
Qed.

Lemma ascend_old_snoc ds path d p r :
  length ds = length path ->
  ascend_old (ds ++ [d]) (path ++ [p]) r =
    let r' := ascend_old ds path r in if d then NodeHash p r' else r'.
Proof.
  revert path r. induction ds as [|e ds IH]; intros [|q path] r E; try discriminate; [done|].
  cbn in *. apply IH. lia.
Qed.

Lemma inclusion_loop_spec fn sn ds path r out :
  climbs fn sn ds ->
  inclusion_loop fn sn r path = Ok (0, out) <->
  length ds = length path /\ out = ascend ds path r.
Proof.
  intros Hc. revert path r. induction Hc as [fn|fn sn ds Hn Hc IH]; intros [|p path] r;
    cbn [inclusion_loop length ascend].
  - split; [by intros [= ->]|by intros [_ ->]].
  - rewrite N.eqb_refl. split; [discriminate|intros [? _]; lia].
  - split; [intros [= ? _]; done|intros [? _]; lia].
  - rewrite (proj2 (N.eqb_neq sn 0)) by done. rewrite IH.
    unfold on_left. split; intros [? ->]; (split; [lia|done]).
Qed.

Lemma consistency_loop_spec fn sn ds path fr sr o1 o2 :
  climbs fn sn ds ->
  consistency_loop fn sn fr sr path = Ok (0, (o1, o2)) <->
  length ds = length path /\ o1 = ascend_old ds path fr /\ o2 = ascend ds path sr.
Proof.
  intros Hc. revert path fr sr. induction Hc as [fn|fn sn ds Hn Hc IH]; intros [|p path] fr sr;
    cbn [consistency_loop length ascend ascend_old].
  - split; [by intros [= -> ->]|by intros (_&->&->)].
  - rewrite N.eqb_refl. split; [discriminate|intros [? _]; lia].
  - split; [intros [= ? _ _]; done|intros [? _]; lia].
  - rewrite (proj2 (N.eqb_neq sn 0)) by done. fold (on_left fn sn).
    destruct (on_left fn sn); rewrite IH; split; intros (?&->&->); (split; [lia|done]).
Qed.

(** The climb in a subtree, continued in the tree. *)
Lemma climbs_in_left {A} d (l r : list A) m ds :
  len l = 2 ^ d -> 0 < len r <= 2 ^ d -> m < len l ->
  climbs m (len l - 1) ds -> climbs m (len (l ++ r)%list - 1) (ds ++ [false]).
Proof.
  intros Hl Hr Hm Hc. pose proof (pow2_pos d). rewrite len_app.
  apply (climbs_left _ _ _ Hc d); lia.
Qed.

Lemma climbs_in_right {A} d (l r : list A) m ds :
  len l = 2 ^ d -> 0 < len r <= 2 ^ d -> m < len r ->
  climbs m (len r - 1) ds -> climbs (len l + m) (len (l ++ r)%list - 1) (ds ++ [true]).
Proof.
  intros Hl Hr Hm Hc. pose proof (pow2_pos d). rewrite len_app.
  assert (E : len l + len r - 1 = len r - 1 + 2 ^ d) by lia.
  rewrite E, Hl, N.add_comm. apply climbs_right; [done|lia..].
Qed.

Lemma len_lookup {A} (l : list A) m x : l !! N.to_nat m = Some x -> m < len l.
Proof. intros E%lookup_lt_Some. unfold len. lia. Qed.

Lemma lookup_app_left {A} (l r : list A) m : m < len l -> (l ++ r)%list !! N.to_nat m = l !! N.to_nat m.
Proof. intros Hm. apply lookup_app_l. unfold len in Hm. lia. Qed.

Lemma lookup_app_right {A} (l r : list A) m :
  len l <= m -> (l ++ r)%list !! N.to_nat m = r !! N.to_nat (m - len l).
Proof.
  intros Hm. unfold len in *. rewrite lookup_app_r by lia. f_equal. lia.
Qed.

(** One level of the audit path. *)
Lemma inclusionPath_node d l r m pre post f :
  len l = 2 ^ d -> 0 < len r <= 2 ^ d -> len (l ++ r)%list <= 2 ^ 63 ->
  inclusionPath_fuel (S f) (pre ++ (l ++ r) ++ post)%list (len pre + m) (len pre)
    (len pre + len (l ++ r)%list)
  = if m <? len l then
      path ← inclusionPath_fuel f (pre ++ l ++ r ++ post)%list (len pre + m) (len pre)
               (len pre + len l);
      Some (path ++ [MTH r])%list
    else
      path ← inclusionPath_fuel f ((pre ++ l) ++ r ++ post)%list (len (pre ++ l)%list + (m - len l))
               (len (pre ++ l)%list) (len (pre ++ l)%list + len r);
      Some (path ++ [MTH l])%list.
Proof.
  intros Hl Hr Hs. pose proof (pow2_pos d). cbn [inclusionPath_fuel].
  destruct (subtreeRoot_halves d l r pre post Hl Hr Hs) as [Ea Eb].
  rewrite (N.add_comm (len pre) (len (l ++ r)%list)), N.add_sub, (N.add_comm _ (len pre)).
  rewrite (proj2 (N.eqb_neq _ 1)) by (rewrite len_app; lia).
  rewrite (split_tree d) by done. cbn [mbind option_bind]. rewrite Ea, Eb.
  rewrite !len_app, N.add_assoc, <-!app_assoc.
  destruct (N.ltb_spec (len pre + m) (len pre + len l)), (N.ltb_spec m (len l)); try (done || lia).
  by replace (len pre + len l + (m - len l)) with (len pre + m) by lia.
Qed.

(** The audit path of a leaf climbs to the tree hash. *)
Lemma inclusionPath_climbs l : l <> [] -> forall m x,
  len l <= 2 ^ 63 -> l !! N.to_nat m = Some x ->
  exists ds path, climbs m (len l - 1) ds /\ length ds = length path /\
    ascend ds path x = MTH l /\
    forall pre post f, (length l <= f)%nat ->
      inclusionPath_fuel f (pre ++ l ++ post)%list (len pre + m) (len pre) (len pre + len l)
      = Some path.
Proof.
  revert l. apply (tree_ind (fun l => forall m x, _ -> _ -> _)).
  - intros y m x _ E. pose proof (len_lookup _ _ _ E) as Hm.
    assert (m = 0) as -> by (unfold len in Hm; cbn in Hm; lia). injection E as ->.
    exists [], []. repeat split; [apply climbs_root|].
    intros pre post [|f] Hf; [cbn in Hf; lia|]. cbn [inclusionPath_fuel].
    by rewrite (N.add_comm _ (len [x])), N.add_sub.
  - intros d l r Hl Hr IHl IHr m x Hs E. pose proof (pow2_pos d).
    pose proof (len_lookup _ _ _ E) as Hm.
    destruct (N.ltb_spec m (len l)) as [Hlt|Hge].
    + rewrite lookup_app_left in E by done.
      destruct (IHl m x) as (ds&path&Hc&Hlen&Ha&Hp); [rewrite len_app in Hs; lia|done|].
      exists (ds ++ [false])%list, (path ++ [MTH r])%list.
      split; [by apply (climbs_in_left d)|]. split; [rewrite !length_app; cbn; lia|].
      split; [rewrite ascend_snoc, Ha by done; symmetry; by apply (MTH_app d)|].
      intros pre post f Hf. rewrite length_app in Hf.
      destruct f as [|g]; [unfold len in *; lia|].
      rewrite (inclusionPath_node d), (proj2 (N.ltb_lt _ _)) by done.
      by rewrite Hp by (unfold len in *; lia).
    + rewrite lookup_app_right in E by done. rewrite len_app in Hm.
      destruct (IHr (m - len l) x) as (ds&path&Hc&Hlen&Ha&Hp); [rewrite len_app in Hs; lia|done|].
      exists (ds ++ [true])%list, (path ++ [MTH l])%list.
      split; [replace m with (len l + (m - len l)) by lia; apply (climbs_in_right d); [done..|lia|done]|].
      split; [rewrite !length_app; cbn; lia|].
      split; [rewrite ascend_snoc, Ha by done; symmetry; by apply (MTH_app d)|].
      intros pre post f Hf. rewrite length_app in Hf.
      destruct f as [|g]; [unfold len in *; lia|].
      rewrite (inclusionPath_node d), (proj2 (N.ltb_ge _ _)) by done.
      by rewrite Hp by (unfold len in *; lia).
Qed.

(** ** Consistency paths *)

Lemma skip_odd_fst x s s' : (skip_odd x s).1 = (skip_odd x s').1.
Proof.
  revert s s'. induction (N.lt_wf_0 x) as [x _ IH]. intros s s'.
  rewrite (skip_odd_eq x s), (skip_odd_eq x s').
  destruct (even_cases x) as [(_&->&_)|(_&->&Hx)]; [done|]. apply IH. lia.
Qed.

Lemma skip_odd_ones d : skip_odd (2 ^ d - 1) (2 ^ d - 1) = (0, 0).
Proof.
  induction d as [|d IH] using N.peano_ind; [done|].
  pose proof (pow2_pos d). rewrite N.pow_succ_r', skip_odd_eq.
  assert (2 * 2 ^ d - 1 = 1 + (2 ^ d - 1) * 2) as -> by lia.
  rewrite N.odd_add, N.odd_mul, andb_false_r. cbn [xorb N.odd].
  rewrite N.div_add by lia. exact IH.
Qed.

Lemma skip_odd_left x s big j :
  s + 1 = 2 ^ j -> x <= s -> 2 ^ j <= big < 2 * 2 ^ j ->
  exists y z b i, skip_odd x s = (y, z) /\ skip_odd x big = (y, b) /\
    z + 1 = 2 ^ i /\ y <= z /\ 2 ^ i <= b < 2 * 2 ^ i.
Proof.
  revert s big j. induction (N.lt_wf_0 x) as [x _ IH]. intros s big j Hs Hx Hb.
  rewrite (skip_odd_eq x s), (skip_odd_eq x big).
  destruct (even_cases x) as [(_&->&_)|(_&->&Hx2)]; [by eexists x, s, big, j|].
  destruct (pow2_cases j) as [->|(i&->&Ei)]; [rewrite N.pow_0_r in Hs; lia|].
  rewrite Ei in *. apply (IH (x / 2) ltac:(lia) _ _ i).
  - clear -Hs. zify. Z.to_euclidean_division_equations. lia.
  - by apply N.Div0.div_le_mono.
  - split; [apply N.div_le_lower_bound; lia|apply N.Div0.div_lt_upper_bound; lia].
Qed.

Lemma skip_odd_right x s j :
  x + 1 < 2 ^ j -> x <= s < 2 ^ j ->
  exists y z i, skip_odd x s = (y, z) /\ skip_odd (x + 2 ^ j) (s + 2 ^ j) = (y + 2 ^ i, z + 2 ^ i) /\
    y <= z < 2 ^ i.
Proof.
  revert s j. induction (N.lt_wf_0 x) as [x _ IH]. intros s j Hx Hs.
  rewrite (skip_odd_eq x s), (skip_odd_eq (x + 2 ^ j)).
  destruct (pow2_cases j) as [->|(i&->&Ei)]; [rewrite N.pow_0_r in Hx; lia|].
  assert (N.odd (x + 2 ^ (i + 1)) = N.odd x) as ->.
  { by rewrite Ei, N.odd_add, odd_double, xorb_false_r. }
  destruct (even_cases x) as [(_&->&_)|(_&->&Hx2)]; [by eexists x, s, (i + 1)|].
  rewrite Ei in *. rewrite !(N.mul_comm 2 (2 ^ i)), !N.div_add by lia.
  apply (IH (x / 2)); [lia|lia|split].
  - apply N.Div0.div_le_mono; lia.
  - apply N.Div0.div_lt_upper_bound; lia.
Qed.

(** The position from which the boundary [m] of [n] leaves is climbed. *)
Definition boundary (m n : N) : N * N := skip_odd (m - 1) (n - 1).

Lemma boundary_full d n : n = 2 ^ d -> climbs (boundary n n).1 (boundary n n).2 [].
Proof. intros ->. unfold boundary. rewrite skip_odd_ones. apply climbs_root. Qed.

Lemma boundary_left {A} d (l r : list A) m ds :
  len l = 2 ^ d -> 0 < len r <= 2 ^ d -> 0 < m <= len l ->
  climbs (boundary m (len l)).1 (boundary m (len l)).2 ds ->
  climbs (boundary m (len (l ++ r)%list)).1 (boundary m (len (l ++ r)%list)).2 (ds ++ [false]).
Proof.
  intros Hl Hr Hm Hc. pose proof (pow2_pos d). unfold boundary in *. rewrite len_app in *.
  destruct (skip_odd_left (m - 1) (len l - 1) (len l + len r - 1) d)
    as (y&z&b&i&E1&E2&?&?&?); [lia..|].
  rewrite E1 in Hc. rewrite E2. by apply (climbs_left _ _ _ Hc i).
Qed.

Lemma boundary_right {A} d (l r : list A) m ds :
  len l = 2 ^ d -> 0 < len r <= 2 ^ d -> 0 < m < len r ->
  climbs (boundary m (len r)).1 (boundary m (len r)).2 ds ->
  climbs (boundary (len l + m) (len (l ++ r)%list)).1 (boundary (len l + m) (len (l ++ r)%list)).2
    (ds ++ [true]) /\ (boundary (len l + m) (len (l ++ r)%list)).1 <> 0.
Proof.
  intros Hl Hr Hm Hc. pose proof (pow2_pos d). unfold boundary in *. rewrite len_app in *.
  destruct (skip_odd_right (m - 1) (len r - 1) d) as (y&z&i&E1&E2&?); [lia..|].
  assert (len l + m - 1 = m - 1 + 2 ^ d) as -> by lia.
  assert (len l + len r - 1 = len r - 1 + 2 ^ d) as -> by lia.
  rewrite E1 in Hc. rewrite E2. cbn [fst snd] in *. pose proof (pow2_pos i).
  split; [apply climbs_right; [done|lia..]|lia].
Qed.

(** The old tree is a proper part of the leaves [l], or all of a perfect tree. *)
Definition old_size {A} (m : N) (l : list A) : Prop :=
  0 < m /\ (m < len l \/ exists d, m = len l /\ len l = 2 ^ d).

Lemma old_size_cases {A} d (l r : list A) m :
  len l = 2 ^ d -> 0 < len r <= 2 ^ d -> old_size m (l ++ r)%list ->
  m = len (l ++ r)%list \/ (0 < m <= len l /\ old_size m l) \/
  exists m', m = len l + m' /\ 0 < m' < len r /\ old_size m' r.
Proof.
  intros Hl Hr [Hm [Hlt|(e&He&_)]]; [|by left]. right. rewrite len_app in Hlt.
  destruct (N.le_gt_cases m (len l)); [left; split; [lia|]|].
  - split; [done|]. destruct (decide (m = len l)); [right; by exists d|left; lia].
  - right. exists (m - len l). unfold old_size. lia.
Qed.

Definition prefix_of {A} (m : N) (l : list A) : list A := take (N.to_nat m) l.

Lemma prefix_all {A} (l : list A) : prefix_of (len l) l = l.
Proof. unfold prefix_of, len. rewrite Nat2N.id. apply take_ge. lia. Qed.

Lemma prefix_left {A} m (l r : list A) : m <= len l -> prefix_of m (l ++ r)%list = prefix_of m l.
Proof. intros Hm. unfold prefix_of, len in *. apply take_app_le. lia. Qed.

Lemma prefix_right {A} m (l r : list A) :
  prefix_of (len l + m) (l ++ r)%list = (l ++ prefix_of m r)%list.
Proof.
  unfold prefix_of, len. rewrite take_app_ge by lia. do 2 f_equal. lia.
Qed.

Lemma len_prefix {A} m (l : list A) : m <= len l -> len (prefix_of m l) = m.
Proof. unfold prefix_of, len. rewrite length_take. lia. Qed.

(** One level of the consistency path. *)
Lemma consistencySubproof_node d l r m pre post f c :
  len l = 2 ^ d -> 0 < len r <= 2 ^ d -> len (l ++ r)%list <= 2 ^ 63 ->
  m <> len (l ++ r)%list ->
  consistencySubproof_fuel (S f) (pre ++ (l ++ r) ++ post)%list (len pre + m) (len pre)
    (len pre + len (l ++ r)%list) c
  = if m <=? len l then
      path ← consistencySubproof_fuel f (pre ++ l ++ r ++ post)%list (len pre + m) (len pre)
               (len pre + len l) c;
      Some (path ++ [MTH r])%list
    else
      path ← consistencySubproof_fuel f ((pre ++ l) ++ r ++ post)%list
               (len (pre ++ l)%list + (m - len l)) (len (pre ++ l)%list)
               (len (pre ++ l)%list + len r) false;
      Some (path ++ [MTH l])%list.
Proof.
  intros Hl Hr Hs Hm. pose proof (pow2_pos d). cbn [consistencySubproof_fuel].
  destruct (subtreeRoot_halves d l r pre post Hl Hr Hs) as [Ea Eb].
  rewrite (proj2 (N.eqb_neq _ _)) by lia.
  rewrite (N.add_comm (len pre) (len (l ++ r)%list)), N.add_sub, (N.add_comm _ (len pre)).
  rewrite (split_tree d) by done. cbn [mbind option_bind]. rewrite Ea, Eb.
  rewrite !len_app, N.add_assoc, <-!app_assoc.
  destruct (N.leb_spec (len pre + m) (len pre + len l)), (N.leb_spec m (len l)); try (done || lia).
  by replace (len pre + len l + (m - len l)) with (len pre + m) by lia.
Qed.

Lemma consistencySubproof_full l pre post f c :
  l <> [] -> len l <= 2 ^ 63 ->
  consistencySubproof_fuel (S f) (pre ++ l ++ post)%list (len pre + len l) (len pre)
    (len pre + len l) c = Some (if c then [] else [MTH l]).
Proof.
  intros Hl Hs. cbn [consistencySubproof_fuel]. rewrite N.eqb_refl.
  destruct c; [done|]. by rewrite subtreeRoot_spec.
Qed.

(** The consistency path of the old size [m] climbs to both tree hashes. *)
Definition consistency_climbs (m : N) (l : list bytes) : Prop :=
  exists ds seed rest, climbs (boundary m (len l)).1 (boundary m (len l)).2 ds /\
    length ds = length rest /\
    ascend_old ds rest seed = MTH (prefix_of m l) /\ ascend ds rest seed = MTH l /\
    ((boundary m (len l)).1 = 0 -> seed = MTH (prefix_of m l)) /\
    forall pre post f c, (length l <= f)%nat ->
      consistencySubproof_fuel f (pre ++ l ++ post)%list (len pre + m) (len pre)
        (len pre + len l) c
      = Some (if c && ((boundary m (len l)).1 =? 0) then rest else seed :: rest).

Lemma consistency_full l d :
  len l = 2 ^ d -> len l <= 2 ^ 63 -> consistency_climbs (len l) l.
Proof.
  intros Hl Hs. pose proof (pow2_pos d).
  exists [], (MTH l), []. rewrite prefix_all.
  split; [by apply (boundary_full d)|]. repeat split; try done.
  intros pre post [|f] c Hf; [unfold len in *; lia|].
  assert (l <> []) by (apply len_nonempty; lia).
  rewrite consistencySubproof_full by done.
  unfold boundary. rewrite Hl, skip_odd_ones. by destruct c.
Qed.

Lemma consistencySubproof_climbs l : l <> [] -> forall m,
  len l <= 2 ^ 63 -> old_size m l -> consistency_climbs m l.
Proof.
  revert l. apply (tree_ind (fun l => forall m, _ -> _ -> _)).
  - intros x m Hs [Hm Hor]. assert (len [x] = 1) as E1 by done.
    assert (m = len [x]) as -> by (destruct Hor as [?|(?&?&?)]; lia).
    by apply (consistency_full [x] 0).
  - intros d l r Hl Hr IHl IHr m Hs Hm. pose proof (pow2_pos d).
    destruct (old_size_cases d l r m Hl Hr Hm) as [->|[[Hle Ho]|(m'&->&Hlt&Ho)]].
    + destruct Hm as [_ [?|(e&_&He)]]; [lia|]. by apply (consistency_full _ e).
    + destruct (IHl m) as (ds&seed&rest&Hc&Hlen&Eo&En&Hseed&Hp);
        [rewrite len_app in Hs; lia|done|].
      assert (B : (boundary m (len (l ++ r)%list)).1 = (boundary m (len l)).1) by apply skip_odd_fst.
      exists (ds ++ [false])%list, seed, (rest ++ [MTH r])%list.
      split; [by apply (boundary_left d)|]. split; [rewrite !length_app; cbn; lia|].
      rewrite B, prefix_left, ascend_old_snoc, ascend_snoc, Eo, En, (MTH_app d) by (done || lia).
      repeat split; try done. intros pre post f c Hf. rewrite length_app in Hf.
      destruct f as [|g]; [unfold len in *; lia|].
      assert (m <> len (l ++ r)%list) by (rewrite len_app; lia).
      rewrite (consistencySubproof_node d), (proj2 (N.leb_le _ _)) by (done || lia).
      rewrite Hp by (unfold len in *; lia). by destruct (c && _).
    + destruct (IHr m') as (ds&seed&rest&Hc&Hlen&Eo&En&Hseed&Hp);
        [rewrite len_app in Hs; lia|done|].
      destruct (boundary_right d l r m' ds Hl Hr Hlt Hc) as [Hc' Hb].
      exists (ds ++ [true])%list, seed, (rest ++ [MTH l])%list.
      split; [done|]. split; [rewrite !length_app; cbn; lia|].
      assert (Hpre : 0 < len (prefix_of m' r) <= 2 ^ d) by (rewrite len_prefix; lia).
      rewrite prefix_right, ascend_old_snoc, ascend_snoc, Eo, En, !(MTH_app d) by done.
      repeat split; try done. intros pre post f c Hf. rewrite length_app in Hf.
      destruct f as [|g]; [unfold len in *; lia|].
      assert (len l + m' <> len (l ++ r)%list) by (rewrite len_app; lia).
      rewrite (consistencySubproof_node d), (proj2 (N.leb_gt _ _)) by (done || lia).
      replace (len l + m' - len l) with m' by lia. rewrite Hp by (unfold len in *; lia).
      by rewrite (proj2 (N.eqb_neq _ 0) Hb), andb_false_r.
Qed.

(** ** Binding *)

Context `{!HashLaws}.

Definition sized (h : bytes) : Prop := length h = HashSize.

Lemma NodeHash_sized a b : sized (NodeHash a b).
Proof. apply sha256_size. Qed.

Lemma NodeHash_inj a b c d :
  NodeHash a b = NodeHash c d -> sized a -> sized c -> (a = c /\ b = d) \/ collision.
Proof.
  intros E Ha Hc. destruct (decide (a ++ b = c ++ d)%list) as [E1|Hne].
  - left. apply app_inj_1 in E1; [done|]. by rewrite Ha, Hc.
  - right. exists (nodeHashPrefix :: a ++ b)%list, (nodeHashPrefix :: c ++ d)%list.
    split; [|exact E]. by intros [= ?].
Qed.

Lemma MTH_sized l : l <> [] -> Forall sized l -> sized (MTH l).
Proof.
  revert l. apply (tree_ind (fun l => _ -> _)).
  - intros x Hx. by inversion Hx.
  - intros d l r Hl Hr _ _ _. rewrite (MTH_app d) by done. apply NodeHash_sized.
Qed.

Lemma sized_parts (l r : list bytes) d :
  len l = 2 ^ d -> 0 < len r -> Forall sized (l ++ r)%list ->
  Forall sized l /\ Forall sized r /\ sized (MTH l) /\ sized (MTH r).
Proof.
  intros Hl Hr [Fl Fr]%Forall_app. pose proof (pow2_pos d).
  repeat split; try done; apply MTH_sized; try done; apply len_nonempty; lia.
Qed.

(** Cutting a list of the same length at the same place. *)
Lemma cut_as {A} (l r k : list A) :
  len k = len (l ++ r)%list -> exists a b, k = (a ++ b)%list /\ len a = len l /\ len b = len r.
Proof.
  rewrite len_app. unfold len. intros E.
  exists (take (length l) k), (drop (length l) k). rewrite take_drop, length_take, length_drop.
  split; [done|lia].
Qed.

Lemma MTH_inj l : l <> [] -> forall k, len k = len l -> Forall sized l -> Forall sized k ->
  MTH l = MTH k -> l = k \/ collision.
Proof.
  revert l. apply (tree_ind (fun l => forall k, _ -> _ -> _ -> _ -> _)).
  - intros x [|y [|z k]] E _ _ Em; [discriminate E| |unfold len in E; cbn [length] in E; lia].
    left. f_equal. exact Em.
  - intros d l r Hl Hr IHl IHr k Ek Sl Sk Em.
    destruct (cut_as l r k Ek) as (a&b&->&Ea&Eb). rewrite !(MTH_app d) in Em by lia.
    destruct (sized_parts l r d) as (?&?&?&?); [lia..|done|].
    destruct (sized_parts a b d) as (?&?&?&?); [lia..|done|].
    destruct (NodeHash_inj _ _ _ _ Em ltac:(done) ltac:(done)) as [[E1 E2]|?]; [|by right].
    destruct (IHl a) as [->|?]; [done..| |by right].
    destruct (IHr b) as [->|?]; [done..|by left|by right].
Qed.

Lemma ascend_sized ds path r : sized r -> sized (ascend ds path r).
Proof.
  revert path r. induction ds as [|d ds IH]; intros [|p path] r Hr; cbn; try done.
  apply IH. destruct d; apply NodeHash_sized.
Qed.

Lemma ascend_old_sized ds path r : sized r -> sized (ascend_old ds path r).
Proof.
  revert path r. induction ds as [|d ds IH]; intros [|p path] r Hr; cbn; try done.
  apply IH. destruct d; [apply NodeHash_sized|done].
Qed.

(** A path as long as a climb ending in a last step. *)
Lemma path_snoc {A} ds (d : bool) (path : list A) :
  length (ds ++ [d]) = length path ->
  exists path' p, path = (path' ++ [p])%list /\ length ds = length path'.
Proof.
  rewrite length_app. cbn. intros E.
  destruct (exists_last (l := path)) as (path'&p&->); [intros ->; cbn in E; lia|].
  exists path', p. split; [done|]. rewrite length_app in E. cbn in E. lia.
Qed.

(** Whatever climbs to the tree hash from position [m] is leaf [m]. *)
Lemma inclusion_binds l : l <> [] -> forall m, Forall sized l -> m < len l ->
  exists ds, climbs m (len l - 1) ds /\ forall path x,
    length ds = length path -> Forall sized path -> sized x -> ascend ds path x = MTH l ->
    l !! N.to_nat m = Some x \/ collision.
Proof.
  revert l. apply (tree_ind (fun l => forall m, _ -> _ -> _)).
  - intros y m _ Hm. assert (len [y] = 1) by done. assert (m = 0) as -> by lia.
    exists []. split; [apply climbs_root|]. intros path x _ _ _ Ex. left. rewrite MTH_leaf in Ex.
    cbn in Ex. by rewrite Ex.
  - intros d l r Hl Hr IHl IHr m Sl Hm. pose proof (pow2_pos d).
    destruct (sized_parts l r d) as (?&?&?&?); [lia..|done|].
    rewrite len_app in Hm. destruct (N.ltb_spec m (len l)) as [Hlt|Hge].
    + destruct (IHl m) as (ds&Hc&Hb); [done..|].
      exists (ds ++ [false])%list. split; [by apply (climbs_in_left d)|].
      intros path x (path'&p&->&Hlen)%path_snoc [Sp Sq]%Forall_app Sx Ex.
      inversion Sq; subst. rewrite ascend_snoc, (MTH_app d) in Ex by done.
      rewrite lookup_app_left by done.
      destruct (NodeHash_inj _ _ _ _ Ex (ascend_sized ds path' x Sx) ltac:(done)) as [[E1 _]|?];
        [by apply (Hb path')|by right].
    + destruct (IHr (m - len l)) as (ds&Hc&Hb); [done|lia|].
      exists (ds ++ [true])%list. split.
      { replace m with (len l + (m - len l)) by lia. apply (climbs_in_right d); [done..|lia|done]. }
      intros path x (path'&p&->&Hlen)%path_snoc [Sp Sq]%Forall_app Sx Ex.
      inversion Sq; subst. rewrite ascend_snoc, (MTH_app d) in Ex by done.
      rewrite lookup_app_right by done.
      destruct (NodeHash_inj _ _ _ _ Ex ltac:(done) ltac:(done)) as [[_ E1]|?];
        [by apply (Hb path')|by right].
Qed.

(** Whatever climbs from the boundary [m] to the tree hashes of [m] leaves [k]
    and of [l] makes [k] a prefix of [l]. *)
Definition consistency_binds (m : N) (l : list bytes) : Prop :=
  exists ds, climbs (boundary m (len l)).1 (boundary m (len l)).2 ds /\ forall path x k,
    length ds = length path -> Forall sized path -> sized x -> Forall sized k -> len k = m ->
    ascend_old ds path x = MTH k -> ascend ds path x = MTH l ->
    k = prefix_of m l \/ collision.

Lemma consistency_binds_full l d : len l = 2 ^ d -> Forall sized l -> consistency_binds (len l) l.
Proof.
  intros Hl Sl. pose proof (pow2_pos d). exists []. split; [by apply (boundary_full d)|].
  intros path x k _ _ _ Sk Ek E1 E2. cbn in E1, E2. rewrite prefix_all.
  apply (MTH_inj k); [apply len_nonempty; lia|done..|congruence].
Qed.

Lemma consistency_binds_all l : l <> [] -> forall m, Forall sized l -> old_size m l ->
  consistency_binds m l.
Proof.
  revert l. apply (tree_ind (fun l => forall m, _ -> _ -> _)).
  - intros x m Sx [Hm Hor]. assert (len [x] = 1) as E1 by done.
    assert (m = len [x]) as -> by (destruct Hor as [?|(?&?&?)]; lia).
    by apply (consistency_binds_full [x] 0).
  - intros d l r Hl Hr IHl IHr m Sl Hm. pose proof (pow2_pos d).
    destruct (sized_parts l r d) as (?&?&?&?); [lia..|done|].
    destruct (old_size_cases d l r m Hl Hr Hm) as [->|[[Hle Ho]|(m'&->&Hlt&Ho)]].
    + destruct Hm as [_ [?|(e&_&He)]]; [lia|]. by apply (consistency_binds_full _ e).
    + destruct (IHl m) as (ds&Hc&Hb); [done..|].
      exists (ds ++ [false])%list. split; [by apply (boundary_left d)|].
      intros path x k (path'&p&->&Hlen)%path_snoc [Sp Sq]%Forall_app Sx Sk Ek E1 E2.
      rewrite ascend_old_snoc in E1 by done. rewrite ascend_snoc, (MTH_app d) in E2 by done.
      rewrite prefix_left by lia.
      destruct (NodeHash_inj _ _ _ _ E2 (ascend_sized ds path' x Sx) ltac:(done)) as [[E3 _]|?];
        [by apply (Hb path' x)|by right].
    + destruct (IHr m') as (ds&Hc&Hb); [done..|].
      destruct (boundary_right d l r m' ds Hl Hr Hlt Hc) as [Hc' _].
      exists (ds ++ [true])%list. split; [done|].
      intros path x k (path'&p&->&Hlen)%path_snoc [Sp Sq]%Forall_app Sx Sk Ek E1 E2.
      inversion Sq as [|? ? Hp _]; subst.
      rewrite ascend_old_snoc in E1 by done. rewrite ascend_snoc, (MTH_app d) in E2 by done.
      destruct (cut_as l (prefix_of m' r) k) as (a&b&->&Ea&Eb).
      { rewrite len_app, len_prefix; lia. }
      rewrite len_prefix in Eb by lia. rewrite (MTH_app d) in E1 by lia.
      destruct (sized_parts a b d) as (?&?&?&?); [lia..|done|].
      rewrite prefix_right.
      destruct (NodeHash_inj _ _ _ _ E1 Hp ltac:(done)) as [[F1 F2]|?]; [|by right].
      destruct (NodeHash_inj _ _ _ _ E2 Hp ltac:(done)) as [[G1 G2]|?]; [|by right].
      destruct (MTH_inj a (len_nonempty a ltac:(lia)) l) as [->|?]; [done..|congruence| |by right].
      destruct (Hb path' x b) as [->|?]; [done..|by left|by right].
Qed.

(** ** Texts *)

Lemma decodeHash_encode h : sized h -> decodeHash (hex_encode h) = Ok h.
Proof.
  intros Hh. unfold decodeHash. rewrite hex_decode_encode. rewrite Hh. done.
Qed.

Lemma decodeHash_sized s h : decodeHash s = Ok h -> sized h.
Proof.
  unfold decodeHash. destruct (hex_decode s) as [b|]; [|discriminate].
  destruct (Nat.eqb_spec (length b) HashSize); cbn [negb]; [|discriminate].
  by intros ?%Ok_inj; subst.
Qed.

Lemma decodePath_encode path : Forall sized path -> decodePath (encodePath path) = Ok path.
Proof.
  induction 1 as [|h path Hh _ IH]; [done|].
  change (decodePath (encodePath (h :: path))) with
    (b ← decodeHash (hex_encode h); bs ← decodePath (encodePath path); Ok (b :: bs)).
  rewrite decodeHash_encode by done. cbn. by rewrite IH.
Qed.

Lemma decodePath_sized ss path : decodePath ss = Ok path -> Forall sized path.
Proof.
  revert path. induction ss as [|s ss IH]; intros path; cbn.
  - intros ?%Ok_inj. subst. constructor.
  - intros (h&Eh&(t&Et&E)%res_bind_Ok)%res_bind_Ok. apply Ok_inj in E. subst.
    constructor; [by eapply decodeHash_sized|by apply IH].
Qed.

(** The tree hash of a prefix of the log, as [BuildInclusionProof] and
    [BuildConsistencyProof] compute it. *)
Lemma root_of_prefix leaves n :
  0 < n <= len leaves -> len leaves <= 2 ^ 63 ->
  subtreeRoot leaves 0 n = Some (MTH (prefix_of n leaves)).
Proof.
  intros Hn Hs. pose proof (len_prefix n leaves ltac:(lia)) as El.
  pose proof (subtreeRoot_spec (prefix_of n leaves) [] (drop (N.to_nat n) leaves)) as R.
  assert (E : (prefix_of n leaves ++ drop (N.to_nat n) leaves)%list = leaves) by apply take_drop.
  cbn [app] in R. rewrite E in R.
  change (len (@nil bytes)) with 0 in R. rewrite N.add_0_l, El in R.
  apply R; [apply len_nonempty|]; lia.
Qed.

(** The path elements are digests. *)
Lemma subtreeRoot_sized f l lo hi h :
  Forall sized l -> subtreeRoot_fuel f l lo hi = Some h -> sized h.
Proof.
  intros Sl. destruct f as [|f]; [done|]. cbn [subtreeRoot_fuel]. destruct (_ =? 1).
  - intros E. rewrite Forall_lookup in Sl. eauto.
  - intros (k&_&(a&_&(b&_&[= <-])%bind_Some)%bind_Some)%bind_Some. apply NodeHash_sized.
Qed.

Lemma inclusionPath_sized f l m lo hi path :
  Forall sized l -> inclusionPath_fuel f l m lo hi = Some path -> Forall sized path.
Proof.
  intros Sl. revert m lo hi path. induction f as [|f IH]; intros m lo hi path; [done|].
  cbn [inclusionPath_fuel]. destruct (_ =? 1); [intros [= <-]; constructor|].
  intros (k&_&E)%bind_Some. destruct (_ <? _);
    apply bind_Some in E as (p'&E1&(r&E2&[= <-])%bind_Some);
    apply Forall_app; (split; [by eapply IH|]); constructor; try constructor;
    by eapply subtreeRoot_sized.
Qed.

Lemma consistencySubproof_sized f l m lo hi c path :
  Forall sized l -> consistencySubproof_fuel f l m lo hi c = Some path -> Forall sized path.
Proof.
  intros Sl. revert m lo hi c path. induction f as [|f IH]; intros m lo hi c path; [done|].
  cbn [consistencySubproof_fuel]. destruct (_ =? _).
  - destruct c; [intros [= <-]; constructor|].
    intros (r&E2&[= <-])%bind_Some. constructor; [by eapply subtreeRoot_sized|constructor].
  - intros (k&_&E)%bind_Some. destruct (_ <=? _);
      apply bind_Some in E as (p'&E1&(r&E2&[= <-])%bind_Some);
      apply Forall_app; (split; [by eapply IH|]); constructor; try constructor;
      by eapply subtreeRoot_sized.
Qed.

(** ** The verifiers *)

Lemma VerifyInclusion_spec p root leaf path r ds :
  ip_LeafIndex p < ip_TreeSize p ->
  decodeHash (ip_LeafHash p) = Ok leaf -> decodeHash root = Ok r ->
  decodePath (ip_AuditPath p) = Ok path -> climbs (ip_LeafIndex p) (ip_TreeSize p - 1) ds ->
  VerifyInclusion (Some p) root = Ok tt <-> length ds = length path /\ ascend ds path leaf = r.
Proof.
  intros Hi El Er Ep Hc. unfold VerifyInclusion.
  rewrite (proj2 (N.eqb_neq _ 0)), (proj2 (N.leb_gt _ _)), El, Er, Ep by lia. cbn.
  pose proof (inclusion_loop_spec _ _ ds path leaf r Hc) as L.
  destruct (inclusion_loop _ _ leaf path) as [[sn out]|e]; cbn.
  - destruct (N.eqb_spec sn 0) as [->|Hn]; cbn.
    + case_bool_decide as Hne; split; try discriminate.
      * intros [E1 E2]. destruct Hne. by injection (proj2 L (conj E1 (eq_sym E2))).
      * intros _. subst out. by destruct (proj1 L eq_refl) as [? ->].
      * done.
    + split; [discriminate|]. intros [E1 E2].
      destruct Hn. by injection (proj2 L (conj E1 (eq_sym E2))).
  - split; [discriminate|]. intros [E1 E2]. discriminate (proj2 L (conj E1 (eq_sym E2))).
Qed.

(** Which hash a verified proof of growth starts from. *)
Definition seed_of (old : bytes) (m n : N) (path : list bytes) : option (bytes * list bytes) :=
  match path with
  | [] => None
  | p0 :: tl => Some (if negb ((boundary m n).1 =? 0) then (p0, tl) else (old, path))
  end.

Lemma VerifyConsistency_spec p old new path ds :
  0 < cp_OldSize p < cp_NewSize p ->
  decodeHash (cp_OldRoot p) = Ok old -> decodeHash (cp_NewRoot p) = Ok new ->
  decodePath (cp_ConsistencyPath p) = Ok path ->
  climbs (boundary (cp_OldSize p) (cp_NewSize p)).1 (boundary (cp_OldSize p) (cp_NewSize p)).2 ds ->
  VerifyConsistency (Some p) = Ok tt <->
  exists seed rest, seed_of old (cp_OldSize p) (cp_NewSize p) path = Some (seed, rest) /\
    length ds = length rest /\ ascend_old ds rest seed = old /\ ascend ds rest seed = new.
Proof.
  intros Hs Eo En Ep Hc. unfold VerifyConsistency.
  rewrite (proj2 (N.eqb_neq _ 0)), (proj2 (N.ltb_ge _ _)), Eo, En, Ep by lia. cbn.
  rewrite (proj2 (N.eqb_neq _ _)) by lia.
  destruct path as [|p0 tl]; [split; [discriminate|intros (?&?&[=]&_)]|].
  unfold seed_of. unfold boundary in *.
  destruct (skip_odd _ _) as [fn sn]. cbn [fst snd] in *.
  destruct (if negb (fn =? 0) then _ else _) as [seed rest].
  pose proof (consistency_loop_spec _ _ ds rest seed seed old new Hc) as L.
  assert (G : (length ds = length rest /\ ascend_old ds rest seed = old /\ ascend ds rest seed = new)
    <-> consistency_loop fn sn seed seed rest = Ok (0, (old, new))).
  { rewrite L. split; intros (?&?&?); auto. }
  split.
  - intros E. exists seed, rest. split; [done|]. apply G.
    destruct (consistency_loop _ _ _ _ _) as [[n [a b]]|]; cbn in E; [|discriminate].
    destruct (N.eqb_spec n 0) as [->|]; cbn in E; [|discriminate].
    case_bool_decide as H1; [discriminate|]. case_bool_decide as H2; [discriminate|].
    by subst.
  - intros (seed'&rest'&[= <- <-]&E). rewrite (proj1 G E). cbn.
    by rewrite !bool_decide_false by (intros F; exact (F eq_refl)).
Qed.

(** The leaf at [idx] of a log of size [size]. *)
Lemma lookup_prefix {A} (l : list A) n i :
  i < n -> prefix_of n l !! N.to_nat i = l !! N.to_nat i.
Proof. intros Hi. unfold prefix_of. apply lookup_take_lt. lia. Qed.

Lemma prefix_whole {A} (l : list A) n : exists post, l = (prefix_of n l ++ post)%list.
Proof. exists (drop (N.to_nat n) l). symmetry. apply take_drop. Qed.

Lemma boundary_lt m n : 0 < m < n -> (boundary m n).1 < (boundary m n).2.
Proof.
  unfold boundary. intros Hm. assert (Hx : m - 1 < n - 1) by lia. revert Hx.
  generalize (m - 1) (n - 1). intros x. induction (N.lt_wf_0 x) as [x _ IH]. intros s Hs.
  rewrite skip_odd_eq. destruct (even_cases x) as [(_&->&_)|(_&->&Hx)]; [done|].
  apply IH; [lia|]. assert (2 * (x / 2 + 1) <= s) as E by lia.
  apply N.div_le_lower_bound in E; lia.
Qed.

(** The log answers every inclusion query in range: for a leaf index below
    the tree size and a tree size up to the log's, [BuildInclusionProof] returns
    a proof, its root is the RFC 6962 tree hash of that prefix of the log, its
    leaf hash is the stored one, and [VerifyInclusion] accepts it. *)
Theorem inclusion_proofs_verify leaves idx size :
  Forall sized leaves -> idx < size -> size <= len leaves -> len leaves <= 2 ^ 63 ->
  exists p leaf, BuildInclusionProof leaves idx size = Ok p /\
    leaves !! N.to_nat idx = Some leaf /\ ip_LeafHash p = hex_encode leaf /\
    ip_RootHash p = hex_encode (MTH (prefix_of size leaves)) /\
    VerifyInclusion (Some p) (ip_RootHash p) = Ok tt.
Proof.
  intros Sl Hi Hn Hs. set (l := prefix_of size leaves).
  assert (El : len l = size) by (by apply len_prefix).
  assert (Hl : l <> []) by (apply len_nonempty; lia).
  assert (Sl' : Forall sized l) by (by apply Forall_take).
  destruct (lookup_lt_is_Some_2 l (N.to_nat idx)) as [x Hx]; [unfold len in El; lia|].
  destruct (inclusionPath_climbs l Hl idx x ltac:(lia) Hx) as (ds&path&Hc&Hlen&Ha&Hp).
  destruct (prefix_whole leaves size) as [post Epost]. fold l in Epost.
  specialize (Hp [] post (N.to_nat size)). cbn [app] in Hp. change (len []) with 0 in Hp.
  rewrite !N.add_0_l, El, <-Epost in Hp. specialize (Hp ltac:(unfold len in El; lia)).
  assert (Ex : leaves !! N.to_nat idx = Some x) by (by rewrite <-(lookup_prefix leaves size)).
  eexists _, x. unfold BuildInclusionProof.
  rewrite (proj2 (N.eqb_neq size 0)), (proj2 (N.ltb_ge (N.of_nat _) size)), (proj2 (N.leb_gt size idx))
    by (unfold len in Hn; lia).
  unfold inclusionPath. rewrite N.sub_0_r, Hp, root_of_prefix, Ex by lia. cbn.
  split; [done|]. split; [done|]. split; [done|]. split; [done|].
  eapply VerifyInclusion_spec; cbn; [done|apply decodeHash_encode|apply decodeHash_encode
    |apply decodePath_encode| |split; [exact Hlen|exact Ha]].
  - rewrite Forall_lookup in Sl. by eapply Sl.
  - by apply MTH_sized.
  - eapply inclusionPath_sized; [exact Sl|exact Hp].
  - by rewrite <-El.
Qed.

(** C22. An accepted inclusion proof is true: when [VerifyInclusion] accepts a
    proof of size [len leaves] against the tree hash of the leaves, the leaf hash
    it names is the one at its index, or SHA-256 collides. *)
Theorem inclusion_proof_sound p root leaves leaf :
  Forall sized leaves -> ip_TreeSize p = len leaves ->
  decodeHash root = Ok (MTH leaves) -> decodeHash (ip_LeafHash p) = Ok leaf ->
  VerifyInclusion (Some p) root = Ok tt ->
  leaves !! N.to_nat (ip_LeafIndex p) = Some leaf \/ collision.
Proof.
  intros Sl Es Er El Hv. assert (Hi : ip_LeafIndex p < ip_TreeSize p /\ exists path, decodePath (ip_AuditPath p) = Ok path).
  { revert Hv. unfold VerifyInclusion. destruct (N.eqb_spec (ip_TreeSize p) 0); [discriminate|].
    destruct (N.leb_spec (ip_TreeSize p) (ip_LeafIndex p)); [discriminate|].
    rewrite El, Er. cbn. destruct (decodePath _) as [path|]; [eauto|discriminate]. }
  destruct Hi as [Hi [path Ep]].
  destruct (inclusion_binds leaves) with (m := ip_LeafIndex p) as (ds&Hc&Hb);
    [apply len_nonempty; lia|done|lia|].
  rewrite <-Es in Hc. rewrite VerifyInclusion_spec in Hv by done.
  destruct Hv as [Hlen Ha]. apply (Hb path); [done|by eapply decodePath_sized|by eapply decodeHash_sized|done].
Qed.

(** The log answers every consistency query in range, with a proof between
    the RFC 6962 tree hashes of the two prefixes that [VerifyConsistency]
    accepts. *)
Theorem consistency_proofs_verify leaves old new :
  Forall sized leaves -> 0 < old -> old <= new -> new <= len leaves -> len leaves <= 2 ^ 63 ->
  exists p, BuildConsistencyProof leaves old new = Ok p /\
    cp_OldRoot p = hex_encode (MTH (prefix_of old leaves)) /\
    cp_NewRoot p = hex_encode (MTH (prefix_of new leaves)) /\
    VerifyConsistency (Some p) = Ok tt.
Proof.
  intros Sl Ho Hon Hn Hs.
  assert (Sz : forall n, 0 < n <= len leaves -> sized (MTH (prefix_of n leaves))).
  { intros n ?. apply MTH_sized; [apply len_nonempty; rewrite len_prefix; lia|by apply Forall_take]. }
  unfold BuildConsistencyProof.
  rewrite (proj2 (N.ltb_ge (N.of_nat _) new)), (proj2 (N.eqb_neq old 0)), (proj2 (N.ltb_ge new old))
    by (unfold len in Hn; lia).
  cbn [orb]. destruct (N.ltb_spec old new) as [Hlt|Hge].
  - set (l := prefix_of new leaves). assert (El : len l = new) by (by apply len_prefix).
    destruct (consistencySubproof_climbs l) with (m := old) as (ds&seed&rest&Hc&Hlen&Eo&En&Hseed&Hp);
      [apply len_nonempty; lia|lia|split; [done|left; lia]|].
    destruct (prefix_whole leaves new) as [post Epost]. fold l in Epost.
    specialize (Hp [] post (N.to_nat new) true). cbn [app] in Hp. change (len []) with 0 in Hp.
    rewrite !N.add_0_l, El, <-Epost in Hp. specialize (Hp ltac:(unfold len in El; lia)).
    assert (Epre : prefix_of old l = prefix_of old leaves).
    { unfold l, prefix_of. rewrite take_take. f_equal. lia. }
    rewrite Epre in *. rewrite El in *.
    unfold consistencySubproof. rewrite N.sub_0_r, Hp, !root_of_prefix by lia. cbn.
    eexists. split; [done|]. split; [done|]. split; [done|].
    eapply VerifyConsistency_spec; cbn; [lia|apply decodeHash_encode|apply decodeHash_encode
      |apply decodePath_encode|exact Hc|].
    + apply Sz. lia.
    + apply Sz. lia.
    + eapply consistencySubproof_sized; [exact Sl|exact Hp].
    + exists seed, rest. split; [|done]. unfold seed_of.
      destruct (N.eqb_spec (boundary old new).1 0) as [E0|]; cbn; [|done].
      rewrite (Hseed E0). destruct rest; [|done].
      destruct ds; [|discriminate Hlen]. exfalso.
      pose proof (boundary_lt old new ltac:(lia)). inversion Hc. lia.
  - assert (old = new) as -> by lia. cbn. rewrite root_of_prefix by lia. cbn.
    eexists. split; [done|]. split; [done|]. split; [done|].
    unfold VerifyConsistency. cbn.
    rewrite (proj2 (N.eqb_neq new 0)), (proj2 (N.ltb_ge new new)), decodeHash_encode, N.eqb_refl by (lia || apply Sz; lia).
    cbn. by rewrite bool_decide_false by (intros F; exact (F eq_refl)).
Qed.

(** C21. An accepted consistency proof shows an append-only log: when
    [VerifyConsistency] accepts a proof between the tree hashes of [old] and of
    [new] leaves, the new log is the old one with leaves appended, or SHA-256
    collides.  Equal sizes leave no room: a split view is refused. *)
Theorem consistency_proof_sound p old new :
  Forall sized old -> Forall sized new ->
  cp_OldSize p = len old -> cp_NewSize p = len new ->
  decodeHash (cp_OldRoot p) = Ok (MTH old) -> decodeHash (cp_NewRoot p) = Ok (MTH new) ->
  VerifyConsistency (Some p) = Ok tt ->
  (exists appended, new = (old ++ appended)%list) \/ collision.
Proof.
  intros So Sn Eo En Ro Rn Hv.
  assert (Hi : 0 < len old <= len new /\ exists path, decodePath (cp_ConsistencyPath p) = Ok path /\
    (len old = len new -> MTH old = MTH new)).
  { revert Hv. unfold VerifyConsistency. rewrite Eo, En.
    destruct (N.eqb_spec (len old) 0); [discriminate|].
    destruct (N.ltb_spec (len new) (len old)); [discriminate|].
    cbn [orb]. rewrite Ro, Rn. cbn. destruct (decodePath _) as [path|]; [cbn|discriminate].
    intros E. split; [lia|]. exists path. split; [done|]. intros Es. revert E.
    rewrite Es, N.eqb_refl. destruct (Nat.eqb _ _); [cbn|discriminate].
    case_bool_decide; [discriminate|]. done. }
  destruct Hi as [Hi [path [Ep Heq]]].
  destruct (decide (len old = len new)) as [Es|Hne].
  - destruct (MTH_inj old (len_nonempty old ltac:(lia)) new) as [->|?]; [by rewrite Es|done..|by apply Heq| |by right].
    left. exists []. by rewrite app_nil_r.
  - destruct (consistency_binds_all new) with (m := len old) as (ds&Hc&Hb);
      [apply len_nonempty; lia|done|split; [lia|left; lia]|].
    pose proof (VerifyConsistency_spec p (MTH old) (MTH new) path ds) as V. rewrite Eo, En in V.
    rewrite V in Hv by (done || lia). destruct Hv as (seed&rest&Eseed&Hlen&E1&E2).
    pose proof (decodePath_sized _ _ Ep) as Sp.
    assert (Ss : sized seed /\ Forall sized rest).
    { unfold seed_of in Eseed. destruct path as [|p0 tl]; [discriminate|].
      destruct (negb _); injection Eseed as <- <-; inversion Sp; subst; [done|].
      split; [by eapply decodeHash_sized|done]. }
    destruct (Hb rest seed old) as [E|?]; [done|apply Ss|apply Ss|done..| |by right].
    left. destruct (prefix_whole new (len old)) as [post Epost]. exists post. by rewrite E.
Qed.
End Code.

(** * The log and its journal (log.go) *)

(** The content of the file [leaves], [None] when it does not exist. *)
Record World := { leaves_file : option bytes; leafHashes : list bytes }.

(** What the file system answers to one [Append]: the file cannot be opened; the
    write stops after [n] bytes; [Sync] fails after a whole write; or all three
    calls succeed. *)
Inductive io :=
| OpenFails (e : error)
| WriteFails (n : nat) (e : error)
| SyncFails (e : error)
| IoOk.

Definition newline : ascii := byte 10.

(** [bufio.Scanner] on lines: cut at each newline, no final empty line, one
    trailing carriage return dropped. *)
Fixpoint scan_lines (cur l : bytes) : list bytes :=
  match l with
  | [] => match cur with [] => [] | _ => [rev cur] end
  | c :: l' => if Ascii.eqb c newline then rev cur :: scan_lines [] l'
               else scan_lines (c :: cur) l'
  end.

Definition drop_cr (l : bytes) : bytes :=
  match rev l with
  | c :: r => if Ascii.eqb c (byte 13) then rev r else l
  | [] => l
  end.

(** [bufio.MaxScanTokenSize]: a longer line ends the scan with an error. *)
Definition MaxScanTokenSize : N := 65536.

Section Log.
Context `{Hash}.

Fixpoint read_journal (line : N) (ls : list bytes) : res (list bytes) :=
  match ls with
  | [] => Ok []
  | l :: ls' =>
      if MaxScanTokenSize <=? len l
      then Fail "translog: read leaves journal: bufio.Scanner: token too long"%string
      else
        let text := trim_space (of_bytes (drop_cr l)) in
        if String.eqb text "" then read_journal (line + 1) ls'
        else
          h ← wrap_err ("translog: corrupt leaves journal at line " +:+ udec line +:+ ": ")%string
                (decodeHash text);
          hs ← read_journal (line + 1) ls';
          Ok (h :: hs)
  end.

(** [Open] on a readable directory. *)
Definition Open (file : option bytes) : res World :=
  match file with
  | None => Ok {| leaves_file := None; leafHashes := [] |}
  | Some content =>
      hs ← read_journal 1 (scan_lines [] content);
      Ok {| leaves_file := Some content; leafHashes := hs |}
  end.

Definition journal_line (leaf : bytes) : bytes := (to_bytes (hex_encode leaf) ++ [newline])%list.

Definition Append (answer : io) (leafInput : bytes) (w : World) : World * res N :=
  let leaf := LeafHash leafInput in
  let content := default [] (leaves_file w) in
  let written n := Some (content ++ take n (journal_line leaf))%list in
  match answer with
  | OpenFails e => (w, Fail ("translog: open leaves journal for append: " +:+ e)%string)
  | WriteFails n e =>
      ({| leaves_file := written n; leafHashes := leafHashes w |},
       Fail ("translog: append leaf: " +:+ e)%string)
  | SyncFails e =>
      ({| leaves_file := written (length (journal_line leaf)); leafHashes := leafHashes w |},
       Fail ("translog: sync leaves journal: " +:+ e)%string)
  | IoOk =>
      ({| leaves_file := written (length (journal_line leaf));
          leafHashes := (leafHashes w ++ [leaf])%list |},
       Ok (len (leafHashes w ++ [leaf])%list - 1))
  end.

Definition Size (w : World) : N := len (leafHashes w).

Definition Root (treeSize : N) (w : World) : res bytes :=
  if Size w <? treeSize
  then Fail ("translog: tree size " +:+ udec treeSize +:+ " out of range (have "
             +:+ udec (Size w) +:+ " leaves)")%string
  else of_option (RootFromLeafHashes (take (N.to_nat treeSize) (leafHashes w))).

Definition LeafHashAt (i : N) (w : World) : res bytes :=
  if Size w <=? i
  then Fail ("translog: leaf index " +:+ udec i +:+ " out of range (have "
             +:+ udec (Size w) +:+ " leaves)")%string
  else of_option (leafHashes w !! N.to_nat i).

(** [Log.InclusionProof] and [Log.ConsistencyProof] *)
Definition Log_InclusionProof (leafIndex treeSize : N) (w : World) : res InclusionProof :=
  BuildInclusionProof (leafHashes w) leafIndex treeSize.
Definition Log_ConsistencyProof (oldSize newSize : N) (w : World) : res ConsistencyProof :=
  BuildConsistencyProof (leafHashes w) oldSize newSize.
End Log.

(** ** The journal and the tree *)

Definition terminated (l : bytes) : Prop := l = [] \/ exists k, l = (k ++ [newline])%list.

Lemma scan_lines_plain l : Forall (fun c => Ascii.eqb c newline = false) l -> forall cur r,
  scan_lines cur (l ++ newline :: r)%list = (rev cur ++ l)%list :: scan_lines [] r.
Proof.
  induction 1 as [|c l Hc _ IH]; intros cur r; cbn.
  - by rewrite app_nil_r.
  - rewrite Hc, IH. cbn [rev]. by rewrite <-app_assoc.
Qed.

Lemma scan_lines_terminated l cur r :
  terminated l -> l <> [] ->
  scan_lines cur (l ++ r)%list = (scan_lines cur l ++ scan_lines [] r)%list.
Proof.
  intros Ht Hne. revert cur. induction l as [|c l IH]; intros cur; [done|].
  destruct Ht as [|[k Ek]]; [done|]. cbn. destruct l as [|c' l].
  - destruct k as [|? [|]]; try discriminate Ek. injection Ek as ->. cbn. done.
  - assert (T : terminated (c' :: l)).
    { right. destruct k as [|x k]; [discriminate Ek|]. exists k. by injection Ek. }
    specialize (IH T ltac:(done)). destruct (Ascii.eqb c newline); rewrite IH; done.
Qed.

Lemma scan_lines_app l r :
  terminated l -> scan_lines [] (l ++ r)%list = (scan_lines [] l ++ scan_lines [] r)%list.
Proof.
  intros Ht. destruct (decide (l = [])) as [->|]; [done|]. by apply scan_lines_terminated.
Qed.

(** The text of a digest. *)
Definition hex_char (c : ascii) : Prop :=
  space_byte c = false /\ Ascii.eqb c newline = false /\ Ascii.eqb c (byte 13) = false.

Lemma hexd_char n : (n < 16)%nat -> hex_char (hexd n).
Proof. intros Hn. do 16 (destruct n as [|n]; [by vm_compute|]). lia. Qed.

Lemma hex_encode_chars l : Forall hex_char (to_bytes (hex_encode l)).
Proof.
  unfold hex_encode. rewrite to_of_bytes. induction l as [|c l IH]; [constructor|].
  cbn [flat_map]. unfold hex_byte. cbn [app]. pose proof (nat_ascii_bounded c).
  constructor; [|constructor; [|done]]; apply hexd_char.
  - apply Nat.Div0.div_lt_upper_bound. lia.
  - apply Nat.mod_upper_bound. lia.
Qed.

Lemma hex_encode_length l : length (to_bytes (hex_encode l)) = (2 * length l)%nat.
Proof.
  unfold hex_encode. rewrite to_of_bytes. induction l as [|c l IH]; cbn; [done|].
  rewrite IH. lia.
Qed.

Lemma drop_cr_plain l : Forall hex_char l -> drop_cr l = l.
Proof.
  intros Hl%Forall_rev. unfold drop_cr. destruct (rev l) as [|c r]; [done|].
  inversion Hl as [|? ? (_&_&Hc)]; subst. by rewrite Hc.
Qed.

Lemma unhex_length n : forall l b, (length l <= n)%nat -> unhex l = Some b -> length l = (2 * length b)%nat.
Proof.
  induction n as [|n IH]; intros [|x [|y l]] b Hn; cbn [unhex length] in *;
    try (intros [= <-]; done) || (intros; discriminate) || lia.
  intros (h&_&(d&_&(r&Er&[= <-])%bind_Some)%bind_Some)%bind_Some.
  cbn. rewrite (IH l r ltac:(lia) Er). lia.
Qed.

Lemma decodeHash_length s h : decodeHash s = Ok h -> length (to_bytes s) = 64%nat.
Proof.
  intros E. pose proof (decodeHash_sized s h E) as Sh. revert E. unfold decodeHash.
  destruct (hex_decode s) as [b|] eqn:Eb; [|discriminate]. destruct (negb _); [discriminate|].
  intros E%Ok_inj. subst. unfold hex_decode in Eb.
  rewrite (unhex_length _ _ _ (le_n _) Eb), Sh. done.
Qed.

Section Journal.
Context `{Hash} `{!HashLaws}.

Lemma LeafHash_sized b : sized (LeafHash b).
Proof. apply sha256_size. Qed.

Lemma read_journal_app ls ks line :
  read_journal line (ls ++ ks)%list =
    (hs ← read_journal line ls; ts ← read_journal (line + len ls) ks; Ok (hs ++ ts)%list).
Proof.
  revert line. induction ls as [|l ls IH]; intros line.
  - cbn. rewrite N.add_0_r. by destruct (read_journal line ks).
  - assert (E1 : line + len (l :: ls) = line + 1 + len ls) by (unfold len; cbn [length]; lia).
    rewrite E1. cbn [app read_journal]. destruct (_ <=? _); [done|]. destruct (String.eqb _ _).
    + apply IH.
    + destruct (decodeHash _) as [h|]; cbn; [|done]. rewrite IH.
      destruct (read_journal (line + 1) ls) as [hs|]; cbn; [|done].
      by destruct (read_journal (line + 1 + len ls) ks).
Qed.

Lemma read_journal_leaf line h : sized h -> read_journal line [to_bytes (hex_encode h)] = Ok [h].
Proof.
  intros Hh. cbn [read_journal].
  pose proof (hex_encode_chars h) as Hc. pose proof (hex_encode_length h) as Hl. rewrite Hh in Hl.
  rewrite (proj2 (N.leb_gt MaxScanTokenSize _)) by (unfold len; rewrite Hl; vm_compute; done).
  rewrite drop_cr_plain, of_to_bytes, trim_space_plain by
    first [done | eapply Forall_impl; [exact Hc|]; by intros ? [? _]].
  destruct (String.eqb_spec (hex_encode h) "") as [E|_].
  - rewrite E in Hl. discriminate Hl.
  - by rewrite decodeHash_encode.
Qed.

(** The file holds exactly the tree, in whole lines. *)
Definition durable (w : World) : Prop :=
  Open (leaves_file w) = Ok w /\ terminated (default [] (leaves_file w)) /\
  Forall sized (leafHashes w).

Lemma journal_line_scan h : scan_lines [] (journal_line h) = [to_bytes (hex_encode h)].
Proof.
  unfold journal_line. rewrite scan_lines_plain; [done|].
  eapply Forall_impl; [apply hex_encode_chars|]. by intros ? (_&?&_).
Qed.

Lemma durable_read w :
  durable w -> read_journal 1 (scan_lines [] (default [] (leaves_file w))) = Ok (leafHashes w).
Proof.
  intros [E _]. unfold Open in E. destruct (leaves_file w) as [c|] eqn:Ec; cbn.
  - apply res_bind_Ok in E as (hs&Eh&E). apply Ok_inj in E. rewrite Eh. by subst w.
  - apply Ok_inj in E. by subst w.
Qed.

(** What a complete line in the journal reads back as. *)
Lemma durable_written w h :
  durable w -> sized h ->
  read_journal 1 (scan_lines [] (default [] (leaves_file w) ++ journal_line h)%list)
  = Ok (leafHashes w ++ [h])%list.
Proof.
  intros Hd Hh. rewrite scan_lines_app by apply Hd.
  rewrite read_journal_app, durable_read, journal_line_scan by done. cbn [mbind res_bind].
  by rewrite read_journal_leaf.
Qed.

Lemma terminated_line l h : terminated (l ++ journal_line h)%list.
Proof. right. exists (l ++ to_bytes (hex_encode h))%list. unfold journal_line. by rewrite app_assoc. Qed.

Lemma Append_durable w input :
  durable w -> durable (Append IoOk input w).1 /\
  leafHashes (Append IoOk input w).1 = (leafHashes w ++ [LeafHash input])%list.
Proof.
  intros Hd. split; [|done]. unfold Append, durable. cbn.
  rewrite take_ge by lia. split; [|split; [apply terminated_line|]].
  - by rewrite durable_written by (done || apply LeafHash_sized).
  - apply Forall_app. split; [apply Hd|]. constructor; [apply LeafHash_sized|constructor].
Qed.

(** Appends whose writes succeed, in order. *)
Definition run (inputs : list bytes) (w : World) : World :=
  foldl (fun w i => (Append IoOk i w).1) w inputs.

Lemma run_durable inputs w :
  durable w -> durable (run inputs w) /\
  leafHashes (run inputs w) = (leafHashes w ++ map LeafHash inputs)%list.
Proof.
  revert w. induction inputs as [|i inputs IH]; intros w Hd.
  - split; [done|]. cbn. by rewrite app_nil_r.
  - destruct (Append_durable w i Hd) as [Hd' El]. destruct (IH _ Hd') as [Hr Er].
    change (run (i :: inputs) w) with (run inputs (Append IoOk i w).1).
    split; [exact Hr|]. rewrite Er, El, <-app_assoc. done.
Qed.

Lemma empty_durable : durable {| leaves_file := None; leafHashes := [] |}.
Proof. split; [done|]. split; [by left|constructor]. Qed.

(** The journal survives a restart: a log grown by successful appends from
    an empty directory holds the leaf hashes of its inputs in order, assigns the
    next index to each append, serves the RFC 6962 tree hash of every prefix, and
    opening the directory again yields the same log. *)
Theorem journal_reopens inputs input n :
  let w := run inputs {| leaves_file := None; leafHashes := [] |} in
  Open (leaves_file w) = Ok w /\ leafHashes w = map LeafHash inputs /\
  (Append IoOk input w).2 = Ok (Size w) /\
  (0 < n -> n <= Size w -> Size w <= 2 ^ 63 -> Root n w = Ok (MTH (prefix_of n (leafHashes w)))).
Proof.
  intros w. destruct (run_durable inputs _ empty_durable) as [Hd El]. fold w in Hd, El.
  split; [apply Hd|]. split; [exact El|]. split.
  - cbn. unfold Size. rewrite len_app. f_equal. change (len [LeafHash input]) with 1. lia.
  - intros Hn Hle Hs. unfold Root. rewrite (proj2 (N.ltb_ge _ _)) by lia.
    fold (prefix_of n (leafHashes w)).
    assert (El2 : len (prefix_of n (leafHashes w)) = n) by (by apply len_prefix).
    unfold RootFromLeafHashes. destruct (prefix_of n (leafHashes w)) as [|h t] eqn:Ep.
    { unfold len in El2; cbn in El2; lia. }
    rewrite <-Ep in *. fold (len (prefix_of n (leafHashes w))).
    pose proof (subtreeRoot_spec (prefix_of n (leafHashes w)) [] []) as R.
    rewrite app_nil_r in R. cbn [app] in R. change (len []) with 0 in R. rewrite N.add_0_l in R.
    rewrite R; [done|rewrite Ep; done|unfold Size in *; lia].
Qed.

(** A failed [Sync] splits the log's history although the in-memory tree is
    not advanced: the leaf is already in the journal, so after the next
    successful append the running log and the reopened one disagree from that
    index on, and the tree hashes they serve for the same size differ unless
    SHA-256 collides. *)
Theorem sync_failure_splits_history w lost next e :
  durable w -> lost <> next ->
  let w2 := (Append IoOk next (Append (SyncFails e) lost w).1).1 in
  exists w3, Open (leaves_file w2) = Ok w3 /\
    leafHashes w2 = (leafHashes w ++ [LeafHash next])%list /\
    leafHashes w3 = (leafHashes w ++ [LeafHash lost; LeafHash next])%list /\
    (MTH (prefix_of (Size w2) (leafHashes w2)) <> MTH (prefix_of (Size w2) (leafHashes w3))
     \/ collision).
Proof.
  intros Hd Hne w2.
  set (w1 := {| leaves_file := Some (default [] (leaves_file w) ++ journal_line (LeafHash lost))%list;
                leafHashes := (leafHashes w ++ [LeafHash lost])%list |}).
  assert (Hd1 : durable w1).
  { destruct (Append_durable w lost Hd) as [D _]. unfold Append in D. cbn in D.
    rewrite take_ge in D by lia. exact D. }
  exists (Append IoOk next w1).1. destruct (Append_durable w1 next Hd1) as [(E&_&_) El].
  assert (Ef : leaves_file w2 = leaves_file (Append IoOk next w1).1).
  { cbn. by rewrite !(take_ge (journal_line _)) by lia. }
  rewrite Ef, El. split; [exact E|]. split; [done|].
  split; [cbn; by rewrite <-app_assoc|].
  destruct (decide (LeafHash lost = LeafHash next)) as [Ec|Hl].
  { right. exists (leafHashPrefix :: lost), (leafHashPrefix :: next). split; [by intros [= ?]|exact Ec]. }
  destruct (decide (MTH (prefix_of (Size w2) (leafHashes w2))
                    = MTH (prefix_of (Size w2) (leafHashes w1 ++ [LeafHash next])%list))) as [Em|]; [|by left].
  right. unfold Size in Em. rewrite prefix_all in Em.
  assert (Elen : len (leafHashes w2) = len (leafHashes w1)).
  { unfold len. cbn [w1 w2 Append leafHashes fst]. by rewrite !length_app. }
  assert (Ep : prefix_of (len (leafHashes w2)) (leafHashes w1 ++ [LeafHash next])%list = leafHashes w1).
  { rewrite Elen, prefix_left by lia. apply prefix_all. }
  rewrite Ep in Em. destruct Hd as (_&_&Sw).
  destruct (MTH_inj (leafHashes w2)) with (k := leafHashes w1) as [Eq|?]; try done.
  - apply len_nonempty. cbn. rewrite len_app. change (len [LeafHash next]) with 1. lia.
  - apply Forall_app. split; [done|]. constructor; [apply LeafHash_sized|constructor].
  - apply Forall_app. split; [done|]. constructor; [apply LeafHash_sized|constructor].
  - cbn in Eq. apply app_inv_head in Eq. destruct Hl. by injection Eq.
Qed.
End Journal.

(** * Signed tree heads (sth.go) *)

(** What the log uses of [crypto.Signer]. *)
Class RawSigner := {
  raw_Sign : bytes -> res string;
  raw_PublicKey : string;
}.

#[export] Instance ed25519_raw `{Ed25519} (s : Ed25519Signer) : RawSigner := {
  raw_Sign := Sign s;
  raw_PublicKey := PublicKey s;
}.

Record SignedTreeHead := {
  th_TreeSize : N;
  th_RootHash : string;
  th_Timestamp : string;
  th_LogID : string;
  th_PublicKey : string;
  th_Signature : string;
}.
#[export] Instance SignedTreeHead_eta : Eta SignedTreeHead := fun r => {|
  th_TreeSize := th_TreeSize r; th_RootHash := th_RootHash r; th_Timestamp := th_Timestamp r;
  th_LogID := th_LogID r; th_PublicKey := th_PublicKey r; th_Signature := th_Signature r |}.

Definition sthSigningPayload (s : SignedTreeHead) : json :=
  JObj [("log_id", JStr (th_LogID s)); ("root_hash", JStr (th_RootHash s));
        ("timestamp", JStr (th_Timestamp s)); ("tree_size", JNum (udec (th_TreeSize s)))]%string.

Definition SigningBytes (s : SignedTreeHead) : res bytes :=
  wrap_err "canonical encoding failed: " (JCS (sthSigningPayload s)).

(** [now.UTC().Format(time.RFC3339)] *)
Definition fmt_rfc3339 (t : time) : string := (fmt_seconds t +:+ "Z")%string.

Definition SignTreeHead `{RawSigner} (logID : string) (treeSize : N) (root : bytes) (now : time)
    : res SignedTreeHead :=
  let sth := {| th_TreeSize := treeSize; th_RootHash := hex_encode root;
                th_Timestamp := fmt_rfc3339 now; th_LogID := logID;
                th_PublicKey := ""; th_Signature := "" |} in
  payload ← wrap_err "translog: canonicalize STH: " (SigningBytes sth);
  sig ← wrap_err "translog: sign STH: " (raw_Sign payload);
  Ok (sth <| th_Signature := sig |> <| th_PublicKey := raw_PublicKey |>).

Definition VerifyTreeHead `{Ed25519} (sth : option SignedTreeHead) (pubKeyHex : string) : res unit :=
  match sth with
  | None => Fail "translog: nil STH"%string
  | Some sth =>
      if String.eqb (th_Signature sth) "" then Fail "translog: STH is unsigned"%string
      else
        payload ← wrap_err "translog: canonicalize STH: " (SigningBytes sth);
        ok ← wrap_err "translog: verify STH: " (Verify pubKeyHex (th_Signature sth) payload);
        if negb ok then Fail "translog: STH signature invalid"%string else Ok tt
  end.

Definition LogIDFromPublicKey `{Hash} (pubKey : bytes) : string := hex_encode (sha256 pubKey).

Definition DetectEquivocation (a b : option SignedTreeHead) : bool :=
  match a, b with
  | Some a, Some b =>
      String.eqb (th_LogID a) (th_LogID b) && (th_TreeSize a =? th_TreeSize b)
      && negb (String.eqb (th_RootHash a) (th_RootHash b))
  | _, _ => false
  end.

(** Two checkpoints signed by one key for different leaves of one size: both
    verify and are detected as a split view, and no consistency proof reconciles
    them, unless SHA-256 collides. *)
Theorem split_view_detected `{Hash} `{!HashLaws} `{Ed25519} `{!Ed25519Laws} priv keyID logID
    leaves leaves' now now' path :
  Forall sized leaves -> Forall sized leaves' -> leaves <> [] -> leaves <> leaves' ->
  len leaves = len leaves' ->
  let s := NewEd25519SignerFromKey priv keyID in
  exists a b,
    @SignTreeHead (ed25519_raw s) logID (len leaves) (MTH leaves) now = Ok a /\
    @SignTreeHead (ed25519_raw s) logID (len leaves') (MTH leaves') now' = Ok b /\
    VerifyTreeHead (Some a) (PublicKey s) = Ok tt /\
    VerifyTreeHead (Some b) (PublicKey s) = Ok tt /\
    ((DetectEquivocation (Some a) (Some b) = true /\
      is_ok (VerifyConsistency (Some {| cp_OldSize := th_TreeSize a; cp_NewSize := th_TreeSize b;
        cp_OldRoot := th_RootHash a; cp_NewRoot := th_RootHash b;
        cp_ConsistencyPath := path |})) = false) \/ collision).
Proof.
  intros Sl Sl' Hne Hd Hlen s.
  assert (G : forall n h t, exists a, @SignTreeHead (ed25519_raw s) logID n h t = Ok a /\
    th_LogID a = logID /\ th_TreeSize a = n /\ th_RootHash a = hex_encode h /\
    VerifyTreeHead (Some a) (PublicKey s) = Ok tt).
  { intros n h t. eexists. unfold SignTreeHead, SigningBytes. rewrite JCS_Ok. cbn [wrap_err mbind res_bind].
    split; [reflexivity|]. split; [done|]. split; [done|]. split; [done|].
    set (m := enc _). destruct (verify_own priv keyID m) as [V Hs]. fold s in V.
    apply String.eqb_neq in Hs.
    transitivity (if String.eqb (hex_encode (ed_sign priv m)) "" then Fail "translog: STH is unsigned"%string
      else payload ← wrap_err "translog: canonicalize STH: " (Ok m);
           ok ← wrap_err "translog: verify STH: " (Verify (PublicKey s) (hex_encode (ed_sign priv m)) payload);
           if negb ok then Fail "translog: STH signature invalid"%string else Ok tt).
    - unfold VerifyTreeHead, SigningBytes. rewrite JCS_Ok. reflexivity.
    - rewrite Hs. cbn [wrap_err mbind res_bind]. by rewrite V. }
  destruct (G (len leaves) (MTH leaves) now) as (a&Ea&La&Na&Ra&Va).
  destruct (G (len leaves') (MTH leaves') now') as (b&Eb&Lb&Nb&Rb&Vb).
  exists a, b. do 4 (split; [done|]).
  destruct (decide (MTH leaves = MTH leaves')) as [Em|Hm].
  { right. by destruct (MTH_inj leaves Hne leaves'). }
  left. split.
  - unfold DetectEquivocation. rewrite La, Lb, Na, Nb, Ra, Rb, Hlen, N.eqb_refl, String.eqb_refl.
    cbn. apply negb_true_iff, String.eqb_neq. by intros E%hex_encode_inj.
  - assert (leaves' <> []) by (apply len_nonempty; destruct leaves; [done|unfold len in *; cbn in *; lia]).
    unfold VerifyConsistency. cbn [cp_OldSize cp_NewSize cp_OldRoot cp_NewRoot cp_ConsistencyPath].
    rewrite Na, Nb, Ra, Rb, Hlen, !decodeHash_encode, N.eqb_refl by (by apply MTH_sized).
    destruct (_ || _); [done|]. cbn. destruct (decodePath path) as [[|]|]; try done.
    cbn. by rewrite bool_decide_true.
Qed.

(** * Worked examples *)

(** A hash with 32-byte digests: the end of its input, padded. *)
Definition pad_hash : Hash := fun b => take 32 (rev b ++ repeat (byte 0) 32)%list.

Lemma pad_hash_laws : @HashLaws pad_hash.
Proof.
  intros m. unfold sha256, pad_hash. rewrite length_take, length_app, repeat_length. unfold HashSize. lia.
Qed.

Definition sample_leaves : list bytes :=
  map (@LeafHash pad_hash) (map to_bytes ["a"; "b"; "c"; "d"; "e"])%string.

Lemma sample_sized : Forall sized sample_leaves.
Proof. repeat constructor. Qed.

Lemma inclusion_proofs_verify_witness :
  exists p, @BuildInclusionProof pad_hash sample_leaves 2 5 = Ok p /\
    @VerifyInclusion pad_hash (Some p) (ip_RootHash p) = Ok tt.
Proof.
  destruct (@inclusion_proofs_verify pad_hash pad_hash_laws sample_leaves 2 5)
    as (p&leaf&E&_&_&_&V); [apply sample_sized|reflexivity|discriminate|discriminate|].
  exists p. split; [exact E|exact V].
Defined.

Definition sample_inclusion : InclusionProof :=
  match @BuildInclusionProof pad_hash sample_leaves 4 5 with
  | Ok p => p
  | Fail _ => {| ip_LeafIndex := 0; ip_TreeSize := 0; ip_LeafHash := ""; ip_RootHash := "";
                 ip_AuditPath := [] |}
  end.

Lemma inclusion_proof_sound_witness :
  sample_leaves !! 4%nat = Some (@LeafHash pad_hash (to_bytes "e")) \/ @collision pad_hash.
Proof.
  apply (@inclusion_proof_sound pad_hash pad_hash_laws sample_inclusion (ip_RootHash sample_inclusion)
    sample_leaves (@LeafHash pad_hash (to_bytes "e")) sample_sized);
    vm_compute; reflexivity.
Defined.

Lemma consistency_proofs_verify_witness :
  exists p, @BuildConsistencyProof pad_hash sample_leaves 3 5 = Ok p /\
    @VerifyConsistency pad_hash (Some p) = Ok tt.
Proof.
  destruct (@consistency_proofs_verify pad_hash pad_hash_laws sample_leaves 3 5)
    as (p&E&_&_&V); [apply sample_sized|reflexivity|discriminate|discriminate|discriminate|].
  exists p. split; [exact E|exact V].
Defined.

Definition sample_consistency : ConsistencyProof :=
  match @BuildConsistencyProof pad_hash sample_leaves 3 5 with
  | Ok p => p
  | Fail _ => {| cp_OldSize := 0; cp_NewSize := 0; cp_OldRoot := ""; cp_NewRoot := "";
                 cp_ConsistencyPath := [] |}
  end.

Lemma consistency_proof_sound_witness :
  (exists appended, sample_leaves = (take 3 sample_leaves ++ appended)%list) \/ @collision pad_hash.
Proof.
  apply (@consistency_proof_sound pad_hash pad_hash_laws sample_consistency (take 3 sample_leaves)
    sample_leaves); [repeat constructor|apply sample_sized|vm_compute; reflexivity..].
Defined.

Lemma journal_reopens_witness :
  let w := @run pad_hash (map to_bytes ["a"; "b"; "c"]%string) {| leaves_file := None; leafHashes := [] |} in
  @Root pad_hash 2 w = Ok (@MTH pad_hash (prefix_of 2 (leafHashes w))).
Proof.
  apply (@journal_reopens pad_hash pad_hash_laws (map to_bytes ["a"; "b"; "c"]%string) [] 2);
    [reflexivity|discriminate|discriminate].
Defined.

Lemma sync_failure_splits_history_witness :
  exists w3, Open (leaves_file (@Append pad_hash IoOk (to_bytes "next")
      (@Append pad_hash (SyncFails "io") (to_bytes "lost")
        {| leaves_file := None; leafHashes := [] |}).1).1) = Ok w3 /\ length (leafHashes w3) = 2%nat.
Proof.
  destruct (@sync_failure_splits_history pad_hash pad_hash_laws
    {| leaves_file := None; leafHashes := [] |} (to_bytes "lost") (to_bytes "next") "io")
    as (w3&E&_&El&_); [apply empty_durable|discriminate|].
  exists w3. split; [exact E|]. rewrite El. reflexivity.
Defined.

Lemma split_view_detected_witness :
  exists a, @SignTreeHead (@ed25519_raw toy_ed25519 (@NewEd25519SignerFromKey toy_ed25519 [] "k"))
    "log" 5 (@MTH pad_hash sample_leaves) 0 = Ok a.
Proof.
  destruct (@split_view_detected pad_hash pad_hash_laws toy_ed25519 toy_ed25519_laws [] "k" "log"
    sample_leaves (reverse sample_leaves) 0%Z 0%Z []) as (a&b&Ea&_).
  - apply sample_sized.
  - apply Forall_reverse, sample_sized.
  - discriminate.
  - discriminate.
  - reflexivity.
  - exists a. exact Ea.
Defined.
