(* ===== verification/SafeDep.v ===== *)
(** Safe deprecation mode, [core/pkg/safedep] (safedep.go, controller.go) with
    its data from [contracts/safe_deprecation.go]: hazard classification, the
    validators of continuity checkpoints, emergency capsules, hardware
    ceremonies, delegations and attestations, the in-memory continuity store, and
    the controller's dispatch gate.

    [ContinuityStore], [EvidenceSink] and [ReceiptSigner] are records of
    operations over an external state [Ext]; the in-memory store is one
    instance.  [wall] is [time.Now], which the code reads where an injected
    clock is missing.  [strings.EqualFold] folds ASCII letters. *)
From stdpp Require Import sorting.
From S2P Require Import Prelude GoLib GoFmt Utf8 Jcs Contracts Signing.

Local Open Scope string_scope.

(** * Data (contracts/safe_deprecation.go) *)

Definition SafeDepTerminalFreeze : string := "terminal_freeze".
Definition SafeDepDegradedNarrowing : string := "degraded_narrowing".
Definition SafeDepDeprecatedReadonly : string := "deprecated_readonly".

Definition HazardDeadManExpired : string := "DEAD_MAN_EXPIRED".
Definition HazardContinuityMissing : string := "CONTINUITY_MISSING".
Definition HazardEnginePinMismatch : string := "ENGINE_PIN_MISMATCH".
Definition HazardAttestationFailure : string := "ATTESTATION_FAILURE".
Definition HazardVerifierProfileDrift : string := "VERIFIER_PROFILE_DRIFT".
Definition HazardCredentialExpired : string := "CREDENTIAL_EXPIRED".
Definition HazardAPIRot : string := "API_ROT".
Definition HazardNetworkPartition : string := "NETWORK_PARTITION".
Definition HazardTransparencyLogOutage : string := "TRANSPARENCY_LOG_OUTAGE".
Definition HazardStalePolicyFeed : string := "STALE_POLICY_FEED".

Record HazardClassification := {
  hc_HazardCode : string;
  hc_State : string;
  hc_ReasonCode : string;
  hc_LaneID : string;
  hc_ConnectorID : string;
  hc_ActiveClock : bool;
  hc_HighRiskLane : bool;
  hc_ActivationAllowed : bool;
}.
#[export] Instance HazardClassification_eta : Eta HazardClassification := fun r => {|
  hc_HazardCode := hc_HazardCode r; hc_State := hc_State r; hc_ReasonCode := hc_ReasonCode r;
  hc_LaneID := hc_LaneID r; hc_ConnectorID := hc_ConnectorID r; hc_ActiveClock := hc_ActiveClock r;
  hc_HighRiskLane := hc_HighRiskLane r; hc_ActivationAllowed := hc_ActivationAllowed r |}.

Record ContinuityCheckpoint := {
  cc_CheckpointID : string;
  cc_OrgGenomeHash : string;
  cc_PolicyHash : string;
  cc_PolicyEpoch : Z;
  cc_HazardSequence : Z;
  cc_LamportClock : Z;
  cc_DeadManWindowID : string;
  cc_DeadManActive : bool;
  cc_LatestAcceptedCheckpointHash : string;
  cc_PreviousCheckpointHash : string;
  cc_Nonce : string;
  cc_AttestedTime : time;
  cc_ExpiresAt : time;
  cc_Signature : string;
}.

Record AttestationResultEnvelope := {
  at_EnvelopeID : string;
  at_ProfileID : string;
  at_Subject : string;
  at_Platform : string;
  at_MeasurementHash : string;
  at_Nonce : string;
  at_TrustTier : string;
  at_PolicyHash : string;
  at_Synthetic : bool;
  at_IssuedAt : time;
  at_ExpiresAt : time;
  at_Signature : string;
}.

Record ThresholdSignature := {
  tsg_SignerID : string;
  tsg_Role : string;
  tsg_DeviceID : string;
  tsg_KeyID : string;
  tsg_PublicKey : string;
  tsg_Scheme : string;
  tsg_Signature : string;
  tsg_RevokedAtEpoch : Z;
}.

Record HardwareApproval := {
  ha_SignerID : string;
  ha_Role : string;
  ha_DeviceID : string;
  ha_AuthenticatorAAGUID : string;
  ha_AssertionHash : string;
  ha_AssertionSignature : string;
  ha_SignedAt : time;
  ha_RevokedAtEpoch : Z;
}.

Record HardwareCeremonyTranscript := {
  hw_CeremonyID : string;
  hw_RequiredQuorum : Z;
  hw_EnrolledSignerCount : Z;
  hw_Approvals : list HardwareApproval;
  hw_StartedAt : time;
  hw_ExpiresAt : time;
  hw_VetoUntil : time;
  hw_TranscriptHash : string;
}.

Record EmergencyDelegationHop := {
  dh_IssuerID : string;
  dh_SubjectID : string;
  dh_ScopeHash : string;
  dh_SignedAt : time;
  dh_Signature : string;
}.

Record EmergencyDelegationChain := {
  dc_SessionID : string;
  dc_HumanSubjectID : string;
  dc_AuthorizedResources : list string;
  dc_Scope : list string;
  dc_MaxHops : Z;
  dc_NotBefore : time;
  dc_ExpiresAt : time;
  dc_Hops : list EmergencyDelegationHop;
  dc_CompletionReceiptRef : string;
}.

Record TransparencyAnchor := {
  ta_Backend : string;
  ta_LogID : string;
  ta_InclusionProofHash : string;
  ta_CheckpointHash : string;
  ta_Deferred : bool;
  ta_DeferredUntil : time;
}.

Record EmergencyCapsule := {
  cap_CapsuleID : string;
  cap_Version : Z;
  cap_ApertureID : string;
  cap_HazardCode : string;
  cap_State : string;
  cap_OrgGenomeHash : string;
  cap_PolicyEpoch : Z;
  cap_PolicyHash : string;
  cap_P0CeilingsHash : string;
  cap_P1BundleHash : string;
  cap_CPIHash : string;
  cap_ProviderRegistryHash : string;
  cap_CredentialRegistryHash : string;
  cap_VerifierProfileHash : string;
  cap_PredecessorHash : string;
  cap_SubsetProofHash : string;
  cap_SubsetProofKind : string;
  cap_AllowedActions : list string;
  cap_AllowedConnectors : list string;
  cap_TTLSeconds : Z;
  cap_NotBefore : time;
  cap_ExpiresAt : time;
  cap_Signatures : list ThresholdSignature;
  cap_Ceremony : HardwareCeremonyTranscript;
  cap_Delegation : EmergencyDelegationChain;
  cap_Attestation : AttestationResultEnvelope;
  cap_Transparency : TransparencyAnchor;
}.
#[export] Instance EmergencyCapsule_eta : Eta EmergencyCapsule := fun r => {|
  cap_CapsuleID := cap_CapsuleID r; cap_Version := cap_Version r; cap_ApertureID := cap_ApertureID r;
  cap_HazardCode := cap_HazardCode r; cap_State := cap_State r; cap_OrgGenomeHash := cap_OrgGenomeHash r;
  cap_PolicyEpoch := cap_PolicyEpoch r; cap_PolicyHash := cap_PolicyHash r;
  cap_P0CeilingsHash := cap_P0CeilingsHash r; cap_P1BundleHash := cap_P1BundleHash r;
  cap_CPIHash := cap_CPIHash r; cap_ProviderRegistryHash := cap_ProviderRegistryHash r;
  cap_CredentialRegistryHash := cap_CredentialRegistryHash r;
  cap_VerifierProfileHash := cap_VerifierProfileHash r; cap_PredecessorHash := cap_PredecessorHash r;
  cap_SubsetProofHash := cap_SubsetProofHash r; cap_SubsetProofKind := cap_SubsetProofKind r;
  cap_AllowedActions := cap_AllowedActions r; cap_AllowedConnectors := cap_AllowedConnectors r;
  cap_TTLSeconds := cap_TTLSeconds r; cap_NotBefore := cap_NotBefore r; cap_ExpiresAt := cap_ExpiresAt r;
  cap_Signatures := cap_Signatures r; cap_Ceremony := cap_Ceremony r; cap_Delegation := cap_Delegation r;
  cap_Attestation := cap_Attestation r; cap_Transparency := cap_Transparency r |}.

Record ActivationReceipt := {
  ar_ActivationID : string;
  ar_CapsuleID : string;
  ar_ApertureID : string;
  ar_State : string;
  ar_HazardCode : string;
  ar_ContinuityHash : string;
  ar_CeremonyHash : string;
  ar_DelegationSessionID : string;
  ar_PolicyEpoch : Z;
  ar_ActivatedAt : time;
  ar_ExpiresAt : time;
  ar_ReasonCode : string;
  ar_ProofGraphRef : string;
  ar_EvidencePackRef : string;
  ar_Transparency : TransparencyAnchor;
  ar_Attestation : AttestationResultEnvelope;
  ar_Signature : string;
}.
#[export] Instance ActivationReceipt_eta : Eta ActivationReceipt := fun r => {|
  ar_ActivationID := ar_ActivationID r; ar_CapsuleID := ar_CapsuleID r; ar_ApertureID := ar_ApertureID r;
  ar_State := ar_State r; ar_HazardCode := ar_HazardCode r; ar_ContinuityHash := ar_ContinuityHash r;
  ar_CeremonyHash := ar_CeremonyHash r; ar_DelegationSessionID := ar_DelegationSessionID r;
  ar_PolicyEpoch := ar_PolicyEpoch r; ar_ActivatedAt := ar_ActivatedAt r; ar_ExpiresAt := ar_ExpiresAt r;
  ar_ReasonCode := ar_ReasonCode r; ar_ProofGraphRef := ar_ProofGraphRef r;
  ar_EvidencePackRef := ar_EvidencePackRef r; ar_Transparency := ar_Transparency r;
  ar_Attestation := ar_Attestation r; ar_Signature := ar_Signature r |}.

Record DevFallbackPosture := {
  AuditMode : bool;
  MockAttester : bool;
  SyntheticNitro : bool;
  SoftwareHSM : bool;
  DevBearerAuth : bool;
  EnvCredentialFallback : bool;
  UnsignedMutableOverlay : bool;
}.

(** * Expectations (safedep.go) *)

Record ContinuityExpectation := {
  xc_PolicyEpoch : Z;
  xc_PolicyHash : string;
  xc_OrgGenomeHash : string;
  xc_MinHazardSequence : Z;
  xc_LatestAcceptedCheckpointHash : string;
  xc_RequireDeadManActive : bool;
  xc_Now : time;
  xc_MaxClockSkew : duration;
}.

Record CapsuleExpectation := {
  xe_HazardCode : string;
  xe_State : string;
  xe_OrgGenomeHash : string;
  xe_PolicyEpoch : Z;
  xe_PolicyHash : string;
  xe_P0CeilingsHash : string;
  xe_P1BundleHash : string;
  xe_CPIHash : string;
  xe_ProviderRegistryHash : string;
  xe_CredentialRegistryHash : string;
  xe_VerifierProfileHash : string;
  xe_PreviousCapsuleHash : string;
  xe_Now : time;
  xe_MinTTL : duration;
  xe_MaxTTL : duration;
  xe_RequireTransparency : bool;
}.

(** [xh_AuthorizedSigners] is the signer registry; an absent map is empty. *)
Record CeremonyExpectation := {
  xh_AuthorizedSigners : gmap string ThresholdSignature;
  xh_RequiredQuorum : Z;
  xh_PolicyEpoch : Z;
  xh_Now : time;
  xh_RequireDistinctRoles : bool;
  xh_RequireHardwareBound : bool;
}.

Record AttestationExpectation := {
  xa_ProfileID : string;
  xa_PolicyHash : string;
  xa_Nonce : string;
  xa_MeasurementHash : string;
  xa_Now : time;
}.

Record ActivationExpectation := {
  x_Continuity : ContinuityExpectation;
  x_Capsule : CapsuleExpectation;
  x_Ceremony : CeremonyExpectation;
  x_Attestation : AttestationExpectation;
  x_Now : time;
}.

(** * Validators (safedep.go) *)

Definition ErrContinuityStale : error := "safe dep: continuity stale".
Definition ErrEmergencyCapsuleInvalid : error := "safe dep: emergency capsule invalid".
Definition ErrHardwareQuorumUnbound : error := "safe dep: hardware quorum unbound".
Definition ErrAttestationResultRequired : error := "safe dep: attestation result required".
Definition ErrDevFallbackPresent : error := "safe dep: dev fallback present".

(** [if cond { return fmt.Errorf("%w: text", err) }] *)
Definition refuse_if (cond : bool) (err : error) (text : string) : res unit :=
  if cond then Fail (err +:+ ": " +:+ text) else Ok tt.

(** [expected != "" && actual != expected] *)
Definition differs (expected actual : string) : bool :=
  negb (String.eqb expected "") && negb (String.eqb actual expected).
Definition differsZ (expected actual : Z) : bool :=
  negb (expected =? 0)%Z && negb (actual =? expected)%Z.

Definition equal_fold (a b : string) : bool := String.eqb (to_lower a) (to_lower b).

(** [if value.IsZero() { value = fallback }] *)
Definition defaultTime (value fallback : time) : time := if is_zero value then fallback else value.

Definition ClassifyHazard (hazard : string) (activeClock highRiskLane : bool) : HazardClassification :=
  let mk state (reason : string) allowed := {|
    hc_HazardCode := hazard; hc_State := state; hc_ReasonCode := reason; hc_LaneID := "";
    hc_ConnectorID := ""; hc_ActiveClock := activeClock; hc_HighRiskLane := highRiskLane;
    hc_ActivationAllowed := allowed |} in
  if existsb (String.eqb hazard) [HazardDeadManExpired; HazardContinuityMissing]
  then mk SafeDepTerminalFreeze ReasonSafeDepTerminalFreeze false
  else if existsb (String.eqb hazard)
            [HazardEnginePinMismatch; HazardAttestationFailure; HazardVerifierProfileDrift]
  then mk SafeDepDeprecatedReadonly ReasonSafeDepDeprecatedReadonly false
  else if existsb (String.eqb hazard)
            [HazardCredentialExpired; HazardAPIRot; HazardNetworkPartition;
             HazardTransparencyLogOutage; HazardStalePolicyFeed]
  then mk SafeDepDegradedNarrowing ReasonSafeDepDegradedNarrowing activeClock
  else mk SafeDepTerminalFreeze ReasonSafeDepTerminalFreeze false.

Definition ValidateContinuity (wall : time) (cp : ContinuityCheckpoint) (expected : ContinuityExpectation)
    : res unit :=
  let refuse c t := refuse_if c ErrContinuityStale t in
  let now := defaultTime (xc_Now expected) wall in
  _ ← refuse (blank (cc_CheckpointID cp) || blank (cc_Nonce cp))
        "checkpoint id and nonce are required";
  _ ← refuse (differsZ (xc_PolicyEpoch expected) (cc_PolicyEpoch cp))
        ("policy epoch " +:+ dec (cc_PolicyEpoch cp) +:+ " does not match expected "
         +:+ dec (xc_PolicyEpoch expected));
  _ ← refuse (differs (xc_PolicyHash expected) (cc_PolicyHash cp)) "policy hash mismatch";
  _ ← refuse (differs (xc_OrgGenomeHash expected) (cc_OrgGenomeHash cp)) "org genome hash mismatch";
  _ ← refuse (cc_HazardSequence cp <=? xc_MinHazardSequence expected)%Z
        ("hazard sequence " +:+ dec (cc_HazardSequence cp) +:+ " is not newer than "
         +:+ dec (xc_MinHazardSequence expected));
  _ ← refuse (differs (xc_LatestAcceptedCheckpointHash expected) (cc_LatestAcceptedCheckpointHash cp))
        "latest accepted checkpoint hash mismatch";
  _ ← refuse (xc_RequireDeadManActive expected && negb (cc_DeadManActive cp))
        "dead-man window is not active";
  _ ← refuse (is_zero (cc_AttestedTime cp)) "attested time is required";
  let maxSkew := if (xc_MaxClockSkew expected =? 0)%Z then dur_mul 2 minute else xc_MaxClockSkew expected in
  _ ← refuse (after (cc_AttestedTime cp) (time_add now maxSkew)) "attested time is in the future";
  refuse (negb (is_zero (cc_ExpiresAt cp)) && negb (before now (cc_ExpiresAt cp))) "checkpoint expired".

Definition ValidateEmergencyCapsule (wall : time) (c : EmergencyCapsule) (expected : CapsuleExpectation)
    : res unit :=
  let refuse b t := refuse_if b ErrEmergencyCapsuleInvalid t in
  let now := defaultTime (xe_Now expected) wall in
  _ ← refuse (blank (cap_CapsuleID c) || blank (cap_ApertureID c) || (cap_Version c =? 0)%Z)
        "capsule id, aperture id, and version are required";
  _ ← refuse (negb (String.eqb (cap_State c) SafeDepDegradedNarrowing))
        "emergency capsules may only activate degraded narrowing";
  _ ← refuse (differs (xe_State expected) (cap_State c)) "state mismatch";
  _ ← refuse (differs (xe_HazardCode expected) (cap_HazardCode c)) "hazard mismatch";
  _ ← refuse (differs (xe_OrgGenomeHash expected) (cap_OrgGenomeHash c)) "org genome hash mismatch";
  _ ← refuse (differsZ (xe_PolicyEpoch expected) (cap_PolicyEpoch c)) "policy epoch mismatch";
  _ ← refuse (differs (xe_PolicyHash expected) (cap_PolicyHash c)) "policy hash mismatch";
  _ ← refuse (differs (xe_P0CeilingsHash expected) (cap_P0CeilingsHash c)) "P0 hash mismatch";
  _ ← refuse (differs (xe_P1BundleHash expected) (cap_P1BundleHash c)) "P1 hash mismatch";
  _ ← refuse (differs (xe_CPIHash expected) (cap_CPIHash c)) "CPI hash mismatch";
  _ ← refuse (differs (xe_ProviderRegistryHash expected) (cap_ProviderRegistryHash c))
        "provider registry hash mismatch";
  _ ← refuse (differs (xe_CredentialRegistryHash expected) (cap_CredentialRegistryHash c))
        "credential registry hash mismatch";
  _ ← refuse (differs (xe_VerifierProfileHash expected) (cap_VerifierProfileHash c))
        "verifier profile hash mismatch";
  _ ← refuse (differs (xe_PreviousCapsuleHash expected) (cap_PredecessorHash c))
        "predecessor hash mismatch";
  _ ← refuse (blank (cap_SubsetProofHash c) || blank (cap_SubsetProofKind c))
        "subset proof is required";
  _ ← refuse (cap_TTLSeconds c <=? 0)%Z "TTL must be positive";
  let ttl := dur_mul (cap_TTLSeconds c) second in
  _ ← refuse ((0 <? xe_MinTTL expected) && (ttl <? xe_MinTTL expected))%Z "TTL shorter than minimum";
  _ ← refuse ((0 <? xe_MaxTTL expected) && (xe_MaxTTL expected <? ttl))%Z "TTL exceeds maximum";
  _ ← refuse (negb (is_zero (cap_NotBefore c)) && before now (cap_NotBefore c)) "capsule not yet valid";
  _ ← refuse (is_zero (cap_ExpiresAt c) || negb (before now (cap_ExpiresAt c))) "capsule expired";
  _ ← refuse (bool_decide (length (cap_Signatures c) = 0%nat)) "threshold signatures are required";
  refuse (xe_RequireTransparency expected && ta_Deferred (cap_Transparency c)
          && is_zero (ta_DeferredUntil (cap_Transparency c)))
    "deferred transparency requires a deadline".

Section Ceremony.
Context `{Ed25519}.

Definition hardwareApprovalPayload (transcriptHash : string) (a : HardwareApproval) : string :=
  join ":" [trim_space transcriptHash; trim_space (ha_SignerID a); trim_space (ha_Role a);
            trim_space (ha_DeviceID a); trim_space (ha_AssertionHash a)].

Definition verifyHardwareApproval (transcriptHash : string) (a : HardwareApproval)
    (authorized : ThresholdSignature) : res unit :=
  let refuse b t := refuse_if b ErrHardwareQuorumUnbound t in
  let publicKey := trim_space (tsg_PublicKey authorized) in
  _ ← refuse (String.eqb publicKey "")
        ("signer " +:+ ha_SignerID a +:+ " is not hardware-bound to a public key");
  let signature := if blank (ha_AssertionSignature a) then trim_space (tsg_Signature authorized)
                   else trim_space (ha_AssertionSignature a) in
  _ ← refuse (String.eqb signature "")
        ("signer " +:+ ha_SignerID a +:+ " missing hardware assertion signature");
  match Verify publicKey signature (to_bytes (hardwareApprovalPayload transcriptHash a)) with
  | Fail e => Fail (ErrHardwareQuorumUnbound +:+ ": hardware assertion verification failed for "
                    +:+ ha_SignerID a +:+ ": " +:+ e)
  | Ok ok => refuse (negb ok) ("hardware assertion signature invalid for " +:+ ha_SignerID a)
  end.

(** The signers, devices and roles seen by the loop, and the approvals counted. *)
Record tally := {
  seenSigners : list string;
  seenDevices : list string;
  seenRoles : list string;
  valid : Z;
}.

Definition seen (x : string) (l : list string) : bool := existsb (String.eqb x) l.

(** The registry part of one approval's checks. *)
Definition checkAuthorized (c : HardwareCeremonyTranscript) (expected : CeremonyExpectation)
    (a : HardwareApproval) : res unit :=
  let refuse b t := refuse_if b ErrHardwareQuorumUnbound t in
  let signerID := trim_space (ha_SignerID a) in
  if negb (bool_decide (xh_AuthorizedSigners expected = ∅)) then
    match xh_AuthorizedSigners expected !! signerID with
    | None => refuse true ("unauthorized signer " +:+ signerID)
    | Some authorized =>
        _ ← refuse (differs (tsg_Role authorized) (ha_Role a))
              ("signer role mismatch for " +:+ signerID);
        _ ← refuse (differs (tsg_DeviceID authorized) (ha_DeviceID a))
              ("signer device mismatch for " +:+ signerID);
        _ ← refuse ((0 <? tsg_RevokedAtEpoch authorized)
                    && (tsg_RevokedAtEpoch authorized <=? xh_PolicyEpoch expected))%Z
              ("signer " +:+ signerID +:+ " revoked");
        if xh_RequireHardwareBound expected || negb (blank (tsg_PublicKey authorized))
        then verifyHardwareApproval (hw_TranscriptHash c) a authorized
        else Ok tt
    end
  else refuse (xh_RequireHardwareBound expected)
         "hardware-bound ceremony requires an authorized signer registry".

Definition checkApproval (c : HardwareCeremonyTranscript) (expected : CeremonyExpectation)
    (t : tally) (a : HardwareApproval) : res tally :=
  let refuse b t := refuse_if b ErrHardwareQuorumUnbound t in
  let signerID := trim_space (ha_SignerID a) in
  let deviceID := trim_space (ha_DeviceID a) in
  let role := trim_space (ha_Role a) in
  let roles := xh_RequireDistinctRoles expected && negb (String.eqb role "") in
  _ ← refuse (String.eqb signerID "" || String.eqb deviceID "" || blank (ha_AssertionHash a))
        "approval signer, device, and assertion are required";
  _ ← refuse (seen signerID (seenSigners t)) ("duplicate signer " +:+ signerID);
  _ ← refuse (seen deviceID (seenDevices t)) ("duplicate device " +:+ deviceID);
  _ ← refuse (roles && seen role (seenRoles t)) ("duplicate role " +:+ role);
  _ ← checkAuthorized c expected a;
  _ ← refuse ((0 <? ha_RevokedAtEpoch a) && (ha_RevokedAtEpoch a <=? xh_PolicyEpoch expected))%Z
        ("approval signer " +:+ signerID +:+ " revoked");
  Ok {| seenSigners := signerID :: seenSigners t; seenDevices := deviceID :: seenDevices t;
        seenRoles := if roles then role :: seenRoles t else seenRoles t;
        valid := (valid t + 1)%Z |}.

Fixpoint checkApprovals (c : HardwareCeremonyTranscript) (expected : CeremonyExpectation)
    (t : tally) (l : list HardwareApproval) : res tally :=
  match l with
  | [] => Ok t
  | a :: l' => t' ← checkApproval c expected t a; checkApprovals c expected t' l'
  end.

Definition empty_tally : tally :=
  {| seenSigners := []; seenDevices := []; seenRoles := []; valid := 0 |}.

Definition requiredQuorum (c : HardwareCeremonyTranscript) (expected : CeremonyExpectation) : Z :=
  if (xh_RequiredQuorum expected =? 0)%Z then hw_RequiredQuorum c else xh_RequiredQuorum expected.

Definition ValidateHardwareCeremony (wall : time) (c : HardwareCeremonyTranscript)
    (expected : CeremonyExpectation) : res unit :=
  let refuse b t := refuse_if b ErrHardwareQuorumUnbound t in
  let now := defaultTime (xh_Now expected) wall in
  let required := requiredQuorum c expected in
  _ ← refuse (required <? 1)%Z "quorum is required";
  _ ← refuse ((0 <? hw_EnrolledSignerCount c) && (hw_EnrolledSignerCount c <? required))%Z
        "quorum exceeds enrolled signer count";
  _ ← refuse (blank (hw_CeremonyID c) || blank (hw_TranscriptHash c))
        "ceremony id and transcript hash are required";
  _ ← refuse (negb (is_zero (hw_VetoUntil c)) && before now (hw_VetoUntil c))
        "veto window is still open";
  _ ← refuse (negb (is_zero (hw_ExpiresAt c)) && negb (before now (hw_ExpiresAt c)))
        "ceremony expired";
  t ← checkApprovals c expected empty_tally (hw_Approvals c);
  refuse (valid t <? required)%Z
    ("quorum " +:+ dec (valid t) +:+ " of " +:+ dec required +:+ " not met").
End Ceremony.

Definition ValidateEmergencyDelegation (wall : time) (chain : EmergencyDelegationChain) (now : time)
    : res unit :=
  let refuse b t := refuse_if b ErrEmergencyCapsuleInvalid t in
  let now := defaultTime now wall in
  _ ← refuse (blank (dc_SessionID chain) || blank (dc_HumanSubjectID chain))
        "delegation session and human subject are required";
  _ ← refuse (dc_MaxHops chain <? 0)%Z "max hops cannot be negative";
  _ ← refuse (dc_MaxHops chain <? Z.of_nat (length (dc_Hops chain)))%Z "delegation hop limit exceeded";
  _ ← refuse (negb (is_zero (dc_NotBefore chain)) && before now (dc_NotBefore chain))
        "delegation not yet valid";
  _ ← refuse (is_zero (dc_ExpiresAt chain) || negb (before now (dc_ExpiresAt chain)))
        "delegation expired";
  refuse (existsb (fun hop => blank (dh_IssuerID hop) || blank (dh_SubjectID hop)
                              || blank (dh_Signature hop)) (dc_Hops chain))
    "delegation hop is incomplete".

Definition ValidateAttestationResult (wall : time) (env : AttestationResultEnvelope)
    (expected : AttestationExpectation) : res unit :=
  let refuse b t := refuse_if b ErrAttestationResultRequired t in
  let now := defaultTime (xa_Now expected) wall in
  _ ← refuse (blank (at_EnvelopeID env) || blank (at_Signature env))
        "signed attestation result is required";
  _ ← refuse (at_Synthetic env) "synthetic attestation result refused";
  _ ← refuse (differs (xa_ProfileID expected) (at_ProfileID env)) "verifier profile mismatch";
  _ ← refuse (differs (xa_PolicyHash expected) (at_PolicyHash env)) "appraisal policy hash mismatch";
  _ ← refuse (differs (xa_Nonce expected) (at_Nonce env)) "nonce mismatch";
  _ ← refuse (differs (xa_MeasurementHash expected) (at_MeasurementHash env)) "measurement mismatch";
  _ ← refuse (is_zero (at_ExpiresAt env) || negb (before now (at_ExpiresAt env)))
        "attestation result expired";
  refuse (blank (at_TrustTier env) || equal_fold (at_TrustTier env) "unverified")
    "attestation result is not verified".

Definition ValidateDevFallbackPosture (p : DevFallbackPosture) : res unit :=
  let refuse b t := refuse_if b ErrDevFallbackPresent t in
  _ ← refuse (AuditMode p) "audit mode enabled";
  _ ← refuse (MockAttester p) "mock attester enabled";
  _ ← refuse (SyntheticNitro p) "synthetic nitro enabled";
  _ ← refuse (SoftwareHSM p) "software HSM enabled";
  _ ← refuse (DevBearerAuth p) "dev bearer auth enabled";
  _ ← refuse (EnvCredentialFallback p) "env credential fallback enabled";
  refuse (UnsignedMutableOverlay p) "unsigned mutable overlay enabled".

(** [MemoryNonceStore] *)
Definition Consume (nonce : string) (nonces : gmap string bool) : gmap string bool * bool :=
  let nonce := trim_space nonce in
  if String.eqb nonce "" then (nonces, false)
  else if set_mem nonces nonce then (nonces, false)
  else (<[nonce := true]> nonces, true).

Definition ValidateAndConsumeContinuity (wall : time) (cp : ContinuityCheckpoint)
    (expected : ContinuityExpectation) (nonces : option (gmap string bool))
    : option (gmap string bool) * res unit :=
  match ValidateContinuity wall cp expected with
  | Fail e => (nonces, Fail e)
  | Ok _ =>
      let replay := Fail (ErrContinuityStale +:+ ": nonce replay or missing nonce store") in
      match nonces with
      | None => (None, replay)
      | Some s => let '(s', ok) := Consume (cc_Nonce cp) s in
                  (Some s', if ok then Ok tt else replay)
      end
  end.

Section Activation.
Context `{Ed25519}.

Definition ValidateActivation (wall : time) (cp : ContinuityCheckpoint) (capsule : EmergencyCapsule)
    (posture : DevFallbackPosture) (expected : ActivationExpectation)
    (nonces : option (gmap string bool)) : option (gmap string bool) * res unit :=
  let now := defaultTime (x_Now expected) wall in
  let xc := x_Continuity expected in
  let xe := x_Capsule expected in
  let xh := x_Ceremony expected in
  let xa := x_Attestation expected in
  match ValidateDevFallbackPosture posture with
  | Fail e => (nonces, Fail e)
  | Ok _ =>
      let '(nonces, r) := ValidateAndConsumeContinuity wall cp
        {| xc_PolicyEpoch := xc_PolicyEpoch xc; xc_PolicyHash := xc_PolicyHash xc;
           xc_OrgGenomeHash := xc_OrgGenomeHash xc;
           xc_MinHazardSequence := xc_MinHazardSequence xc;
           xc_LatestAcceptedCheckpointHash := xc_LatestAcceptedCheckpointHash xc;
           xc_RequireDeadManActive := xc_RequireDeadManActive xc;
           xc_Now := defaultTime (xc_Now xc) now; xc_MaxClockSkew := xc_MaxClockSkew xc |} nonces in
      (nonces,
       _ ← r;
       _ ← ValidateEmergencyCapsule wall capsule
             {| xe_HazardCode := xe_HazardCode xe; xe_State := xe_State xe;
                xe_OrgGenomeHash := xe_OrgGenomeHash xe; xe_PolicyEpoch := xe_PolicyEpoch xe;
                xe_PolicyHash := xe_PolicyHash xe; xe_P0CeilingsHash := xe_P0CeilingsHash xe;
                xe_P1BundleHash := xe_P1BundleHash xe; xe_CPIHash := xe_CPIHash xe;
                xe_ProviderRegistryHash := xe_ProviderRegistryHash xe;
                xe_CredentialRegistryHash := xe_CredentialRegistryHash xe;
                xe_VerifierProfileHash := xe_VerifierProfileHash xe;
                xe_PreviousCapsuleHash := xe_PreviousCapsuleHash xe;
                xe_Now := defaultTime (xe_Now xe) now; xe_MinTTL := xe_MinTTL xe;
                xe_MaxTTL := xe_MaxTTL xe; xe_RequireTransparency := xe_RequireTransparency xe |};
       _ ← ValidateHardwareCeremony wall (cap_Ceremony capsule)
             {| xh_AuthorizedSigners := xh_AuthorizedSigners xh;
                xh_RequiredQuorum := xh_RequiredQuorum xh; xh_PolicyEpoch := xh_PolicyEpoch xh;
                xh_Now := defaultTime (xh_Now xh) now;
                xh_RequireDistinctRoles := xh_RequireDistinctRoles xh;
                xh_RequireHardwareBound := xh_RequireHardwareBound xh |};
       _ ← ValidateEmergencyDelegation wall (cap_Delegation capsule) now;
       ValidateAttestationResult wall (cap_Attestation capsule)
         {| xa_ProfileID := xa_ProfileID xa; xa_PolicyHash := xa_PolicyHash xa;
            xa_Nonce := xa_Nonce xa; xa_MeasurementHash := xa_MeasurementHash xa;
            xa_Now := defaultTime (xa_Now xa) now |})
  end.
End Activation.

(** * The controller (controller.go) *)

Definition ErrDispatchBlocked : error := "safe dep: dispatch blocked".

Record Signal := {
  sg_HazardCode : string;
  sg_LaneID : string;
  sg_ConnectorID : string;
  sg_ActiveClock : bool;
  sg_HighRiskLane : bool;
  sg_Reason : string;
}.
Definition no_signal : Signal := {|
  sg_HazardCode := ""; sg_LaneID := ""; sg_ConnectorID := ""; sg_ActiveClock := false;
  sg_HighRiskLane := false; sg_Reason := "" |}.
#[export] Instance Signal_eta : Eta Signal := fun r => {|
  sg_HazardCode := sg_HazardCode r; sg_LaneID := sg_LaneID r; sg_ConnectorID := sg_ConnectorID r;
  sg_ActiveClock := sg_ActiveClock r; sg_HighRiskLane := sg_HighRiskLane r; sg_Reason := sg_Reason r |}.

(** [Signal.Empty] *)
Definition Empty (s : Signal) : bool := blank (sg_HazardCode s).

Record GateRequest := {
  gr_Signal : Signal;
  gr_Checkpoint : ContinuityCheckpoint;
  gr_Capsule : option EmergencyCapsule;
  gr_DevFallbackPosture : DevFallbackPosture;
  gr_Expectation : ActivationExpectation;
  gr_Intent : option AuthorizedExecutionIntent;
  gr_DecisionID : string;
  gr_EffectID : string;
  gr_EffectType : string;
  gr_Action : string;
  gr_ToolName : string;
  gr_ConnectorID : string;
  gr_InspectionOnly : bool;
}.
#[export] Instance GateRequest_eta : Eta GateRequest := fun r => {|
  gr_Signal := gr_Signal r; gr_Checkpoint := gr_Checkpoint r; gr_Capsule := gr_Capsule r;
  gr_DevFallbackPosture := gr_DevFallbackPosture r; gr_Expectation := gr_Expectation r;
  gr_Intent := gr_Intent r; gr_DecisionID := gr_DecisionID r; gr_EffectID := gr_EffectID r;
  gr_EffectType := gr_EffectType r; gr_Action := gr_Action r; gr_ToolName := gr_ToolName r;
  gr_ConnectorID := gr_ConnectorID r; gr_InspectionOnly := gr_InspectionOnly r |}.

(** Zero values of the structs a request embeds. *)
Definition no_checkpoint : ContinuityCheckpoint := {|
  cc_CheckpointID := ""; cc_OrgGenomeHash := ""; cc_PolicyHash := ""; cc_PolicyEpoch := 0;
  cc_HazardSequence := 0; cc_LamportClock := 0; cc_DeadManWindowID := ""; cc_DeadManActive := false;
  cc_LatestAcceptedCheckpointHash := ""; cc_PreviousCheckpointHash := ""; cc_Nonce := "";
  cc_AttestedTime := zero_time; cc_ExpiresAt := zero_time; cc_Signature := "" |}.
Definition no_posture : DevFallbackPosture := {|
  AuditMode := false; MockAttester := false; SyntheticNitro := false; SoftwareHSM := false;
  DevBearerAuth := false; EnvCredentialFallback := false; UnsignedMutableOverlay := false |}.
Definition no_expectation : ActivationExpectation := {|
  x_Continuity := {| xc_PolicyEpoch := 0; xc_PolicyHash := ""; xc_OrgGenomeHash := "";
    xc_MinHazardSequence := 0; xc_LatestAcceptedCheckpointHash := "";
    xc_RequireDeadManActive := false; xc_Now := zero_time; xc_MaxClockSkew := 0 |};
  x_Capsule := {| xe_HazardCode := ""; xe_State := ""; xe_OrgGenomeHash := ""; xe_PolicyEpoch := 0;
    xe_PolicyHash := ""; xe_P0CeilingsHash := ""; xe_P1BundleHash := ""; xe_CPIHash := "";
    xe_ProviderRegistryHash := ""; xe_CredentialRegistryHash := ""; xe_VerifierProfileHash := "";
    xe_PreviousCapsuleHash := ""; xe_Now := zero_time; xe_MinTTL := 0; xe_MaxTTL := 0;
    xe_RequireTransparency := false |};
  x_Ceremony := {| xh_AuthorizedSigners := ∅; xh_RequiredQuorum := 0; xh_PolicyEpoch := 0;
    xh_Now := zero_time; xh_RequireDistinctRoles := false; xh_RequireHardwareBound := false |};
  x_Attestation := {| xa_ProfileID := ""; xa_PolicyHash := ""; xa_Nonce := "";
    xa_MeasurementHash := ""; xa_Now := zero_time |};
  x_Now := zero_time |}.
Definition no_request : GateRequest := {|
  gr_Signal := no_signal; gr_Checkpoint := no_checkpoint; gr_Capsule := None;
  gr_DevFallbackPosture := no_posture; gr_Expectation := no_expectation; gr_Intent := None;
  gr_DecisionID := ""; gr_EffectID := ""; gr_EffectType := ""; gr_Action := ""; gr_ToolName := "";
  gr_ConnectorID := ""; gr_InspectionOnly := false |}.

Record GateResult := {
  gt_Classification : HazardClassification;
  gt_DispatchAllowed : bool;
  gt_ReadOnly : bool;
  gt_NarrowedScope : bool;
  gt_ReasonCode : string;
  gt_Reason : string;
  gt_ActivationReceipt : option ActivationReceipt;
  gt_EmergencyScopeHash : string;
  gt_ProofGraphRef : string;
  gt_EvidencePackRef : string;
}.
#[export] Instance GateResult_eta : Eta GateResult := fun r => {|
  gt_Classification := gt_Classification r; gt_DispatchAllowed := gt_DispatchAllowed r;
  gt_ReadOnly := gt_ReadOnly r; gt_NarrowedScope := gt_NarrowedScope r;
  gt_ReasonCode := gt_ReasonCode r; gt_Reason := gt_Reason r;
  gt_ActivationReceipt := gt_ActivationReceipt r; gt_EmergencyScopeHash := gt_EmergencyScopeHash r;
  gt_ProofGraphRef := gt_ProofGraphRef r; gt_EvidencePackRef := gt_EvidencePackRef r |}.
Definition no_classification : HazardClassification := {|
  hc_HazardCode := ""; hc_State := ""; hc_ReasonCode := ""; hc_LaneID := ""; hc_ConnectorID := "";
  hc_ActiveClock := false; hc_HighRiskLane := false; hc_ActivationAllowed := false |}.
Definition no_result : GateResult := {|
  gt_Classification := no_classification; gt_DispatchAllowed := false; gt_ReadOnly := false;
  gt_NarrowedScope := false; gt_ReasonCode := ""; gt_Reason := ""; gt_ActivationReceipt := None;
  gt_EmergencyScopeHash := ""; gt_ProofGraphRef := ""; gt_EvidencePackRef := "" |}.

Record ContinuityState := {
  cs_CheckpointID : string;
  cs_CheckpointHash : string;
  cs_HazardSequence : Z;
  cs_PolicyEpoch : Z;
  cs_LamportClock : Z;
  cs_DeadManWindowID : string;
  cs_ActivationID : string;
  cs_ActivationExpiry : time;
}.

(** ** The request in a decision's context *)

(** A string, or a value with a [String] method: of those the model's values
    only know [json.Number]. *)
Definition text_of (v : option any) : string :=
  match v with
  | Some (AString s) | Some (ANumber s) => trim_space s
  | _ => ""
  end.

Definition firstString (c : obj) (keys : list string) : string :=
  default "" (head (filter (fun s => s <> "") (map (fun k => text_of (c !! k)) keys))).

Fixpoint firstBool (c : obj) (keys : list string) : bool :=
  match keys with
  | [] => false
  | k :: keys' =>
      match c !! k with
      | Some (ABool b) => b
      | Some (AString s) => equal_fold (trim_space s) "true"
      | _ => firstBool c keys'
      end
  end.

(** [SignalFromContext]; [fuel] bounds the nesting of [safe_deprecation] maps. *)
Fixpoint signal_from (fuel : nat) (c : obj) : Signal :=
  let raw := firstString c ["safe_deprecation_hazard_code"; "safedep_hazard_code"; "hazard_code"] in
  if String.eqb raw "" then
    match fuel, c !! "safe_deprecation" with
    | S f, Some (AMap l) => signal_from f (list_to_map l)
    | _, _ => no_signal
    end
  else {|
    sg_HazardCode := raw;
    sg_LaneID := firstString c ["safe_deprecation_lane_id"; "safedep_lane_id"; "lane_id"];
    sg_ConnectorID := firstString c
      ["safe_deprecation_connector_id"; "safedep_connector_id"; "connector_id"];
    sg_ActiveClock := firstBool c
      ["safe_deprecation_active_clock"; "safedep_active_clock"; "active_clock"; "dead_man_active"];
    sg_HighRiskLane := firstBool c
      ["safe_deprecation_high_risk_lane"; "safedep_high_risk_lane"; "high_risk_lane"];
    sg_Reason := firstString c ["safe_deprecation_reason"; "safedep_reason"; "reason"] |}.

(** The nesting of maps in a value. *)
Fixpoint map_depth (v : any) : nat :=
  match v with
  | AMap l => S (list_max (map (fun kv => map_depth kv.2) l))
  | _ => 0
  end.

Definition SignalFromContext (c : ctx) : Signal :=
  match c with
  | None => no_signal
  | Some m => signal_from (map_depth (default ANil (m !! "safe_deprecation"))) m
  end.

(** The type assertions on struct types, which a decision decoded from JSON never
    satisfies. *)
Class StructValues := {
  as_GateRequest : any -> option GateRequest;
  as_ContinuityCheckpoint : any -> option ContinuityCheckpoint;
  as_EmergencyCapsule : any -> option EmergencyCapsule;
  as_DevFallbackPosture : any -> option DevFallbackPosture;
  as_ActivationExpectation : any -> option ActivationExpectation;
}.

Definition GateRequestFromContext `{StructValues} (c : ctx) : GateRequest :=
  if bool_decide (default ∅ c = ∅) then no_request
  else
    match as_GateRequest (ctx_get c "safe_deprecation_gate_request") with
    | Some req => req
    | None =>
        no_request <| gr_Signal := SignalFromContext c |>
          <| gr_Checkpoint := default no_checkpoint
               (as_ContinuityCheckpoint (ctx_get c "safe_deprecation_checkpoint")) |>
          <| gr_Capsule := as_EmergencyCapsule (ctx_get c "safe_deprecation_capsule") |>
          <| gr_DevFallbackPosture := default no_posture
               (as_DevFallbackPosture (ctx_get c "safe_deprecation_dev_fallback_posture")) |>
          <| gr_Expectation := default no_expectation
               (as_ActivationExpectation (ctx_get c "safe_deprecation_expectation")) |>
          <| gr_InspectionOnly := default false
               (as_bool (ctx_get c "safe_deprecation_inspection_only")) |>
    end.

Definition IsInspectionAction (action toolName : string) : bool :=
  existsb (fun v => let v := to_lower (trim_space v) in
                    existsb (contains v) ["inspect"; "export"; "read"; "status"; "list"])
          [action; toolName].

Definition containsString (values : list string) (needle : string) : bool :=
  existsb (fun v => equal_fold (trim_space v) (trim_space needle)) values.

(** [action] falls back to the effect type, then to the tool. *)
Definition scope_action (req : GateRequest) : string :=
  if negb (blank (gr_Action req)) then trim_space (gr_Action req)
  else if negb (blank (gr_EffectType req)) then trim_space (gr_EffectType req)
  else trim_space (gr_ToolName req).

Definition validateCapsuleScope (capsule : EmergencyCapsule) (req : GateRequest) : res unit :=
  let refuse b t := refuse_if b ErrEmergencyCapsuleInvalid t in
  let action := scope_action req in
  let connector := if blank (gr_ConnectorID req) then trim_space (gr_ToolName req)
                   else trim_space (gr_ConnectorID req) in
  _ ← refuse (bool_decide (cap_AllowedActions capsule = []))
        "capsule has no predeclared allowed actions";
  _ ← refuse (negb (containsString (cap_AllowedActions capsule) action))
        ("action " +:+ goq action +:+ " is outside capsule scope");
  _ ← refuse (negb (bool_decide (cap_AllowedConnectors capsule = []))
              && negb (String.eqb connector "")
              && negb (containsString (cap_AllowedConnectors capsule) connector))
        ("connector " +:+ goq connector +:+ " is outside capsule scope");
  refuse (negb (bool_decide (dc_Scope (cap_Delegation capsule) = []))
          && negb (containsString (dc_Scope (cap_Delegation capsule)) action))
    ("delegation scope does not cover action " +:+ goq action).

Definition firstScopeHash (chain : EmergencyDelegationChain) : string :=
  default "" (head (filter (fun s => s <> "")
    (map (fun hop => trim_space (dh_ScopeHash hop)) (dc_Hops chain)))).

(** ** Canonical forms *)

Definition json_of_checkpoint (cp : ContinuityCheckpoint) (signature : string) : res json :=
  attested ← fmt_time (cc_AttestedTime cp);
  expires ← fmt_time (cc_ExpiresAt cp);
  Ok (JObj ([("checkpoint_id", JStr (cc_CheckpointID cp));
             ("org_genome_hash", JStr (cc_OrgGenomeHash cp));
             ("policy_hash", JStr (cc_PolicyHash cp));
             ("policy_epoch", JNum (dec (cc_PolicyEpoch cp)));
             ("hazard_sequence", JNum (dec (cc_HazardSequence cp)));
             ("lamport_clock", JNum (dec (cc_LamportClock cp)));
             ("dead_man_window_id", JStr (cc_DeadManWindowID cp));
             ("dead_man_active", JBool (cc_DeadManActive cp));
             ("latest_accepted_checkpoint_hash", JStr (cc_LatestAcceptedCheckpointHash cp))]
            ++ opt_string "previous_checkpoint_hash" (cc_PreviousCheckpointHash cp)
            ++ [("nonce", JStr (cc_Nonce cp)); ("attested_time", JStr attested);
                ("expires_at", JStr expires)]
            ++ opt_string "signature" signature)%list).

Definition json_of_transparency (t : TransparencyAnchor) : res json :=
  until ← fmt_time (ta_DeferredUntil t);
  Ok (JObj (opt_string "backend" (ta_Backend t) ++ opt_string "log_id" (ta_LogID t)
            ++ opt_string "inclusion_proof_hash" (ta_InclusionProofHash t)
            ++ opt_string "checkpoint_hash" (ta_CheckpointHash t)
            ++ opt_field (negb (ta_Deferred t)) "deferred" (JBool true)
            ++ [("deferred_until", JStr until)])%list).

Definition json_of_attestation (a : AttestationResultEnvelope) : res json :=
  issued ← fmt_time (at_IssuedAt a);
  expires ← fmt_time (at_ExpiresAt a);
  Ok (JObj [("envelope_id", JStr (at_EnvelopeID a)); ("profile_id", JStr (at_ProfileID a));
            ("subject", JStr (at_Subject a)); ("platform", JStr (at_Platform a));
            ("measurement_hash", JStr (at_MeasurementHash a)); ("nonce", JStr (at_Nonce a));
            ("trust_tier", JStr (at_TrustTier a)); ("policy_hash", JStr (at_PolicyHash a));
            ("synthetic", JBool (at_Synthetic a)); ("issued_at", JStr issued);
            ("expires_at", JStr expires); ("signature", JStr (at_Signature a))]).

Definition json_of_activation (r : ActivationReceipt) : res json :=
  activated ← fmt_time (ar_ActivatedAt r);
  expires ← fmt_time (ar_ExpiresAt r);
  transparency ← json_of_transparency (ar_Transparency r);
  attestation ← json_of_attestation (ar_Attestation r);
  Ok (JObj ([("activation_id", JStr (ar_ActivationID r)); ("capsule_id", JStr (ar_CapsuleID r));
             ("aperture_id", JStr (ar_ApertureID r)); ("state", JStr (ar_State r));
             ("hazard_code", JStr (ar_HazardCode r));
             ("continuity_hash", JStr (ar_ContinuityHash r));
             ("ceremony_hash", JStr (ar_CeremonyHash r));
             ("delegation_session_id", JStr (ar_DelegationSessionID r));
             ("policy_epoch", JNum (dec (ar_PolicyEpoch r))); ("activated_at", JStr activated);
             ("expires_at", JStr expires); ("reason_code", JStr (ar_ReasonCode r))]
            ++ opt_string "proof_graph_ref" (ar_ProofGraphRef r)
            ++ opt_string "evidence_pack_ref" (ar_EvidencePackRef r)
            ++ [("transparency", transparency); ("attestation", attestation)]
            ++ opt_string "signature" (ar_Signature r))%list).

Section Hashing.
Context `{Hash}.

Definition CheckpointHash (cp : ContinuityCheckpoint) : res string :=
  data ← JCS_res (json_of_checkpoint cp ""); Ok (HashBytes data).

Definition activationID (capsule : EmergencyCapsule) (cp : ContinuityCheckpoint) : string :=
  match JCS (JObj [("capsule_id", JStr (cap_CapsuleID capsule));
                   ("checkpoint_id", JStr (cc_CheckpointID cp));
                   ("hazard_sequence", JNum (dec (cc_HazardSequence cp)));
                   ("policy_epoch", JNum (dec (cap_PolicyEpoch capsule)))]) with
  | Fail _ => "safedep-act-" +:+ cap_CapsuleID capsule +:+ "-" +:+ cc_CheckpointID cp
  | Ok payload =>
      "safedep-act-" +:+ of_bytes (take 16 (to_bytes (trim_prefix (HashBytes payload) "sha256:")))
  end.
End Hashing.

(** ** The in-memory continuity store *)

Definition stale {A} (t : string) : res A := Fail (ErrContinuityStale +:+ ": " +:+ t).

Module Memory.

Record MemoryContinuityStore := {
  checkpoints : list ContinuityState;
  nonces : gmap string bool;
  activations : gmap string ActivationReceipt;
}.
Definition NewMemoryContinuityStore : MemoryContinuityStore :=
  {| checkpoints := []; nonces := ∅; activations := ∅ |}.

Section Store.
Context `{Hash}.
Implicit Type s : MemoryContinuityStore.

Definition Latest s : option ContinuityState := last (checkpoints s).

Definition AppendCheckpoint (cp : ContinuityCheckpoint) s
    : MemoryContinuityStore * res ContinuityState :=
  if String.eqb (cc_Nonce cp) "" then (s, stale "checkpoint nonce is required")
  else if set_mem (nonces s) (cc_Nonce cp) then (s, stale "nonce replay")
  else
    let order :=
      match Latest s with
      | None => Ok tt
      | Some latest =>
          if (cc_HazardSequence cp <=? cs_HazardSequence latest)%Z
          then stale "hazard sequence rollback"
          else if differs (cc_LatestAcceptedCheckpointHash cp) (cs_CheckpointHash latest)
          then stale "latest checkpoint hash mismatch"
          else Ok tt
      end in
    match (_ ← order; CheckpointHash cp) with
    | Fail e => (s, Fail e)
    | Ok hash =>
        let state := {| cs_CheckpointID := cc_CheckpointID cp; cs_CheckpointHash := hash;
          cs_HazardSequence := cc_HazardSequence cp; cs_PolicyEpoch := cc_PolicyEpoch cp;
          cs_LamportClock := cc_LamportClock cp; cs_DeadManWindowID := cc_DeadManWindowID cp;
          cs_ActivationID := ""; cs_ActivationExpiry := zero_time |} in
        ({| checkpoints := (checkpoints s ++ [state])%list;
            nonces := <[cc_Nonce cp := true]> (nonces s); activations := activations s |}, Ok state)
    end.

Definition StoreActivation (r : ActivationReceipt) s : MemoryContinuityStore * res unit :=
  if String.eqb (ar_ActivationID r) "" then (s, Fail "safe dep: activation id is required")
  else ({| checkpoints := checkpoints s; nonces := nonces s;
           activations := <[ar_ActivationID r := r]> (activations s) |}, Ok tt).

Definition GetActivation (id : string) s : option ActivationReceipt := activations s !! id.

(** Closing stamps the receipt with [time.Now]. *)
Definition CloseActivation (wall : time) (id : string) s : MemoryContinuityStore * res unit :=
  match activations s !! id with
  | None => (s, Fail ("safe dep: activation " +:+ goq id +:+ " not found"))
  | Some r =>
      ({| checkpoints := checkpoints s; nonces := nonces s;
          activations := <[id := r <| ar_ExpiresAt := wall |>]> (activations s) |}, Ok tt)
  end.
End Store.
End Memory.

(** ** The controller *)

Module Controller.

Record EvidenceRefs := { ProofGraphRef : string; EvidencePackRef : string }.

Record EvidenceEvent := {
  ev_Type : string;
  ev_Classification : HazardClassification;
  ev_Checkpoint : option ContinuityCheckpoint;
  ev_CapsuleID : string;
  ev_ActivationID : string;
  ev_ReasonCode : string;
  ev_Reason : string;
  ev_OccurredAt : time;
}.

Section Controller.
Context `{Hash} `{Ed25519} {W : Type}.

Record ContinuityStore := {
  Latest : M W (option ContinuityState);
  AppendCheckpoint : ContinuityCheckpoint -> M W ContinuityState;
  StoreActivation : ActivationReceipt -> M W unit;
  GetActivation : string -> M W (option ActivationReceipt);
  CloseActivation : string -> ContinuityCheckpoint -> M W unit;
}.

(** [c.clock] and [time.Now]. *)
Record Controller := {
  store : ContinuityStore;
  evidence : option (EvidenceEvent -> M W EvidenceRefs);
  signer : option (bytes -> M W string);
  clock : W -> W * time;
  wall : W -> time;
  defaultQuorum : Z;
  defaultMaxTTL : duration;
  requireHardwareBound : bool;
  requireDistinctRoles : bool;
  requireTransparency : bool;
  requireDeadManActive : bool;
  maxClockSkew : duration;
}.

Implicit Type c : Controller.

Definition now c : M W time := fun w => let '(w', t) := clock c w in (w', Ok t).

Definition record c (event : EvidenceEvent) : M W EvidenceRefs :=
  match evidence c with
  | None => mret {| ProofGraphRef := ""; EvidencePackRef := "" |}
  | Some sink => sink event
  end.

(** [_, _ = c.record(...)] *)
Definition record_ c (event : EvidenceEvent) : M W EvidenceRefs :=
  r ← attempt (record c event);
  mret (match r with Ok refs => refs | Fail _ => {| ProofGraphRef := ""; EvidencePackRef := "" |} end).

Definition Classify c (signal : Signal) : M W HazardClassification :=
  let cl := (ClassifyHazard (sg_HazardCode signal) (sg_ActiveClock signal) (sg_HighRiskLane signal))
    <| hc_LaneID := trim_space (sg_LaneID signal) |>
    <| hc_ConnectorID := trim_space (sg_ConnectorID signal) |> in
  t ← now c;
  _ ← record_ c {| ev_Type := "safedep.classification"; ev_Classification := cl;
        ev_Checkpoint := None; ev_CapsuleID := ""; ev_ActivationID := "";
        ev_ReasonCode := hc_ReasonCode cl; ev_Reason := sg_Reason signal; ev_OccurredAt := t |};
  mret cl.

Definition attachEvidence c (eventType : string) (result : GateResult) : M W GateResult :=
  t ← now c;
  refs ← record_ c {| ev_Type := eventType; ev_Classification := gt_Classification result;
        ev_Checkpoint := None; ev_CapsuleID := ""; ev_ActivationID := "";
        ev_ReasonCode := gt_ReasonCode result; ev_Reason := gt_Reason result; ev_OccurredAt := t |};
  mret (result <| gt_ProofGraphRef := ProofGraphRef refs |>
               <| gt_EvidencePackRef := EvidencePackRef refs |>).

Definition or_string (s fallback : string) : string := if String.eqb s "" then fallback else s.
Definition or_Z (z fallback : Z) : Z := if (z =? 0)%Z then fallback else z.

(** [defaultExpectation], with the checkpoint the store last accepted. *)
Definition complete_expectation c (t : time) (latest : option ContinuityState) (req : GateRequest)
    (cap : EmergencyCapsule) : ActivationExpectation :=
  let x := gr_Expectation req in
  let xc := x_Continuity x in
  let xe := x_Capsule x in
  let xh := x_Ceremony x in
  let xa := x_Attestation x in
  {| x_Continuity :=
       {| xc_PolicyEpoch := or_Z (xc_PolicyEpoch xc) (cap_PolicyEpoch cap);
          xc_PolicyHash := or_string (xc_PolicyHash xc) (cap_PolicyHash cap);
          xc_OrgGenomeHash := or_string (xc_OrgGenomeHash xc) (cap_OrgGenomeHash cap);
          xc_MinHazardSequence :=
            match latest with
            | Some l => if (xc_MinHazardSequence xc <? cs_HazardSequence l)%Z
                        then cs_HazardSequence l else xc_MinHazardSequence xc
            | None => xc_MinHazardSequence xc
            end;
          xc_LatestAcceptedCheckpointHash :=
            match latest with
            | Some l => or_string (xc_LatestAcceptedCheckpointHash xc) (cs_CheckpointHash l)
            | None => xc_LatestAcceptedCheckpointHash xc
            end;
          xc_RequireDeadManActive := xc_RequireDeadManActive xc || requireDeadManActive c;
          xc_Now := defaultTime (xc_Now xc) t;
          xc_MaxClockSkew := or_Z (xc_MaxClockSkew xc) (maxClockSkew c) |};
     x_Capsule :=
       {| xe_HazardCode := or_string (xe_HazardCode xe) (sg_HazardCode (gr_Signal req));
          xe_State := or_string (xe_State xe) SafeDepDegradedNarrowing;
          xe_OrgGenomeHash := or_string (xe_OrgGenomeHash xe) (cap_OrgGenomeHash cap);
          xe_PolicyEpoch := or_Z (xe_PolicyEpoch xe) (cap_PolicyEpoch cap);
          xe_PolicyHash := or_string (xe_PolicyHash xe) (cap_PolicyHash cap);
          xe_P0CeilingsHash := or_string (xe_P0CeilingsHash xe) (cap_P0CeilingsHash cap);
          xe_P1BundleHash := or_string (xe_P1BundleHash xe) (cap_P1BundleHash cap);
          xe_CPIHash := or_string (xe_CPIHash xe) (cap_CPIHash cap);
          xe_ProviderRegistryHash := or_string (xe_ProviderRegistryHash xe) (cap_ProviderRegistryHash cap);
          xe_CredentialRegistryHash :=
            or_string (xe_CredentialRegistryHash xe) (cap_CredentialRegistryHash cap);
          xe_VerifierProfileHash := or_string (xe_VerifierProfileHash xe) (cap_VerifierProfileHash cap);
          xe_PreviousCapsuleHash := xe_PreviousCapsuleHash xe;
          xe_Now := defaultTime (xe_Now xe) t;
          xe_MinTTL := xe_MinTTL xe;
          xe_MaxTTL := or_Z (xe_MaxTTL xe) (defaultMaxTTL c);
          xe_RequireTransparency := xe_RequireTransparency xe || requireTransparency c |};
     x_Ceremony :=
       {| xh_AuthorizedSigners := xh_AuthorizedSigners xh;
          xh_RequiredQuorum := or_Z (xh_RequiredQuorum xh) (defaultQuorum c);
          xh_PolicyEpoch := or_Z (xh_PolicyEpoch xh) (cap_PolicyEpoch cap);
          xh_Now := defaultTime (xh_Now xh) t;
          xh_RequireDistinctRoles := xh_RequireDistinctRoles xh || requireDistinctRoles c;
          xh_RequireHardwareBound := xh_RequireHardwareBound xh || requireHardwareBound c |};
     x_Attestation :=
       {| xa_ProfileID := or_string (xa_ProfileID xa) (at_ProfileID (cap_Attestation cap));
          xa_PolicyHash := or_string (xa_PolicyHash xa) (at_PolicyHash (cap_Attestation cap));
          xa_Nonce := or_string (xa_Nonce xa) (at_Nonce (cap_Attestation cap));
          xa_MeasurementHash :=
            or_string (xa_MeasurementHash xa) (at_MeasurementHash (cap_Attestation cap));
          xa_Now := defaultTime (xa_Now xa) t |};
     x_Now := defaultTime (x_Now x) t |}.

Definition defaultExpectation c (req : GateRequest) (cap : EmergencyCapsule)
    : M W ActivationExpectation :=
  t ← now c;
  latest ← Latest (store c);
  mret (complete_expectation c t latest req cap).

(** The checks of [activate], in order. *)
Definition activation_checks (wall now : time) (x : ActivationExpectation) (req : GateRequest)
    (cap : EmergencyCapsule) : res unit :=
  _ ← ValidateDevFallbackPosture (gr_DevFallbackPosture req);
  _ ← ValidateContinuity wall (gr_Checkpoint req) (x_Continuity x);
  _ ← ValidateEmergencyCapsule wall cap (x_Capsule x);
  _ ← ValidateHardwareCeremony wall (cap_Ceremony cap) (x_Ceremony x);
  _ ← ValidateEmergencyDelegation wall (cap_Delegation cap) now;
  _ ← ValidateAttestationResult wall (cap_Attestation cap) (x_Attestation x);
  validateCapsuleScope cap req.

Definition activate c (req : GateRequest) (cl : HazardClassification) : M W ActivationReceipt :=
  match gr_Capsule req with
  | None => fail (ErrEmergencyCapsuleInvalid +:+ ": no matching emergency capsule")
  | Some cap =>
      t ← now c;
      x ← defaultExpectation c req cap;
      wall ← gets (wall c);
      _ ← lift (activation_checks wall t x req cap);
      state ← AppendCheckpoint (store c) (gr_Checkpoint req);
      let receipt := {|
        ar_ActivationID := activationID cap (gr_Checkpoint req); ar_CapsuleID := cap_CapsuleID cap;
        ar_ApertureID := cap_ApertureID cap; ar_State := hc_State cl; ar_HazardCode := hc_HazardCode cl;
        ar_ContinuityHash := cs_CheckpointHash state;
        ar_CeremonyHash := hw_TranscriptHash (cap_Ceremony cap);
        ar_DelegationSessionID := dc_SessionID (cap_Delegation cap);
        ar_PolicyEpoch := cap_PolicyEpoch cap; ar_ActivatedAt := t; ar_ExpiresAt := cap_ExpiresAt cap;
        ar_ReasonCode := hc_ReasonCode cl; ar_ProofGraphRef := ""; ar_EvidencePackRef := "";
        ar_Transparency := cap_Transparency cap; ar_Attestation := cap_Attestation cap;
        ar_Signature := "" |} in
      refs ← record c {| ev_Type := "safedep.activation"; ev_Classification := cl;
               ev_Checkpoint := Some (gr_Checkpoint req); ev_CapsuleID := cap_CapsuleID cap;
               ev_ActivationID := ar_ActivationID receipt; ev_ReasonCode := hc_ReasonCode cl;
               ev_Reason := ""; ev_OccurredAt := t |};
      let receipt := receipt <| ar_ProofGraphRef := ProofGraphRef refs |>
                             <| ar_EvidencePackRef := EvidencePackRef refs |> in
      receipt ← match signer c with
                | None => mret receipt
                | Some sign =>
                    payload ← lift (JCS_res (json_of_activation receipt));
                    sig ← sign payload;
                    mret (receipt <| ar_Signature := sig |>)
                end;
      _ ← StoreActivation (store c) receipt;
      mret receipt
  end.

Definition fill_connector (req : GateRequest) : GateRequest :=
  if String.eqb (sg_ConnectorID (gr_Signal req)) ""
  then req <| gr_Signal := (gr_Signal req) <| sg_ConnectorID := gr_ConnectorID req |> |>
  else req.

(** [Gate]; [cancelled] is [ctx.Err()].  A result returned together with an error
    is dropped: the executor discards it. *)
Definition Gate (c : option Controller) (cancelled : option error) (req : GateRequest)
    : M W GateResult :=
  match c with
  | None => mret (no_result <| gt_DispatchAllowed := true |>)
  | Some c =>
      if Empty (gr_Signal req) then mret (no_result <| gt_DispatchAllowed := true |>)
      else match cancelled with
      | Some e => fail e
      | None =>
          let req := fill_connector req in
          cl ← Classify c (gr_Signal req);
          let result := no_result <| gt_Classification := cl |> <| gt_ReasonCode := hc_ReasonCode cl |>
            <| gt_Reason := sg_Reason (gr_Signal req) |>
            <| gt_ReadOnly := String.eqb (hc_State cl) SafeDepDeprecatedReadonly |>
            <| gt_NarrowedScope := String.eqb (hc_State cl) SafeDepDegradedNarrowing |> in
          if String.eqb (hc_State cl) SafeDepTerminalFreeze then
            attachEvidence c "safedep.terminal_freeze" result
          else if String.eqb (hc_State cl) SafeDepDeprecatedReadonly then
            if gr_InspectionOnly req || IsInspectionAction (gr_Action req) (gr_ToolName req)
            then attachEvidence c "safedep.deprecated_readonly.allow"
                   (result <| gt_DispatchAllowed := true |>)
            else attachEvidence c "safedep.deprecated_readonly.deny" result
          else if String.eqb (hc_State cl) SafeDepDegradedNarrowing then
            if negb (hc_ActivationAllowed cl)
            then attachEvidence c "safedep.degraded_narrowing.clock_inactive" result
            else
              r ← attempt (activate c req cl);
              match r with
              | Fail e =>
                  _ ← attachEvidence c "safedep.degraded_narrowing.deny" (result <| gt_Reason := e |>);
                  fail e
              | Ok receipt =>
                  let scope := match gr_Capsule req with
                               | Some cap => firstScopeHash (cap_Delegation cap) | None => "" end in
                  mret (result <| gt_DispatchAllowed := true |>
                    <| gt_ActivationReceipt := Some receipt |> <| gt_EmergencyScopeHash := scope |>
                    <| gt_ProofGraphRef := ar_ProofGraphRef receipt |>
                    <| gt_EvidencePackRef := ar_EvidencePackRef receipt |>)
              end
          else attachEvidence c "safedep.unknown_hazard" result
      end
  end.

Definition Restore (c : option Controller) (activationID : string) (cp : ContinuityCheckpoint)
    : M W unit :=
  match c with
  | None => mret tt
  | Some c =>
      latest ← Latest (store c);
      t ← now c;
      wall ← gets (wall c);
      _ ← lift (ValidateContinuity wall cp
        {| xc_PolicyEpoch := 0; xc_PolicyHash := ""; xc_OrgGenomeHash := "";
           xc_MinHazardSequence := match latest with Some l => cs_HazardSequence l | None => 0 end;
           xc_LatestAcceptedCheckpointHash :=
             match latest with Some l => cs_CheckpointHash l | None => "" end;
           xc_RequireDeadManActive := false; xc_Now := t; xc_MaxClockSkew := maxClockSkew c |});
      _ ← AppendCheckpoint (store c) cp;
      _ ← CloseActivation (store c) activationID cp;
      t ← now c;
      _ ← record_ c {| ev_Type := "safedep.restore"; ev_Classification := no_classification;
            ev_Checkpoint := Some cp; ev_CapsuleID := ""; ev_ActivationID := activationID;
            ev_ReasonCode := ""; ev_Reason := ""; ev_OccurredAt := t |};
      mret tt
  end.
End Controller.
Arguments ContinuityStore : clear implicits.
Arguments Controller : clear implicits.

(** [HashEvidenceSink]: the references name the hash of the event. *)
Definition json_of_classification (cl : HazardClassification) : json :=
  JObj ([("hazard_code", JStr (hc_HazardCode cl)); ("state", JStr (hc_State cl));
         ("reason_code", JStr (hc_ReasonCode cl))]
        ++ opt_string "lane_id" (hc_LaneID cl) ++ opt_string "connector_id" (hc_ConnectorID cl)
        ++ [("active_clock", JBool (hc_ActiveClock cl)); ("high_risk_lane", JBool (hc_HighRiskLane cl));
            ("activation_allowed", JBool (hc_ActivationAllowed cl))])%list.

Definition json_of_event (e : EvidenceEvent) : res json :=
  occurred ← fmt_time (ev_OccurredAt e);
  cp ← match ev_Checkpoint e with
       | None => Ok []
       | Some cp => j ← json_of_checkpoint cp (cc_Signature cp); Ok [("checkpoint", j)]
       end;
  Ok (JObj ([("type", JStr (ev_Type e)); ("classification", json_of_classification (ev_Classification e))]
            ++ cp ++ opt_string "capsule_id" (ev_CapsuleID e)
            ++ opt_string "activation_id" (ev_ActivationID e)
            ++ opt_string "reason_code" (ev_ReasonCode e) ++ opt_string "reason" (ev_Reason e)
            ++ [("occurred_at", JStr occurred)])%list).

Definition HashEvidenceSink `{Hash} (cancelled : option error) (e : EvidenceEvent) : res EvidenceRefs :=
  match cancelled with
  | Some err => Fail err
  | None =>
      data ← JCS_res (json_of_event e);
      Ok {| ProofGraphRef := "proofgraph:" +:+ HashBytes data;
            EvidencePackRef := "evidencepack:" +:+ HashBytes data |}
  end.

(** The stores and sinks of [NewController] on a machine whose clock reads [clk]:
    the in-memory store, the hashing sink, no signer. *)
Record Machine := { mem : Memory.MemoryContinuityStore; clk : time }.

Definition with_mem (w : Machine) (s : Memory.MemoryContinuityStore) : Machine :=
  {| mem := s; clk := clk w |}.

Definition memory_store `{Hash} : ContinuityStore Machine := {|
  Latest := fun w => (w, Ok (Memory.Latest (mem w)));
  AppendCheckpoint := fun cp w =>
    let '(s, r) := Memory.AppendCheckpoint cp (mem w) in (with_mem w s, r);
  StoreActivation := fun r w =>
    let '(s, e) := Memory.StoreActivation r (mem w) in (with_mem w s, e);
  GetActivation := fun id w => (w, Ok (Memory.GetActivation id (mem w)));
  CloseActivation := fun id _ w =>
    let '(s, e) := Memory.CloseActivation (clk w) id (mem w) in (with_mem w s, e) |}.

(** [NewController(ControllerConfig{Clock: clock})] *)
Definition NewController `{Hash} : Controller Machine := {|
  store := memory_store;
  evidence := Some (fun e => lift (HashEvidenceSink None e));
  signer := None;
  clock := fun w => (w, clk w);
  wall := clk;
  defaultQuorum := 3;
  defaultMaxTTL := 0;
  requireHardwareBound := false;
  requireDistinctRoles := false;
  requireTransparency := false;
  requireDeadManActive := false;
  maxClockSkew := 0 |}.
End Controller.

(** * Lemmas on chains of checks *)

Lemma refuse_if_Ok b e t : refuse_if b e t = Ok tt <-> b = false.
Proof. unfold refuse_if. by destruct b. Qed.

Lemma check_then {B} (r : res unit) (k : res B) b :
  (_ ← r; k) = Ok b <-> r = Ok tt /\ k = Ok b.
Proof. rewrite res_bind_Ok. split; [intros ([]&?&?)|intros [??]; exists tt]; done. Qed.

(** Turns an accepted chain of checks into the conjunction of its conditions. *)
Ltac checks H := repeat (rewrite check_then in H || rewrite refuse_if_Ok in H).

(** * The continuity store *)

Module MemoryProps.
Import Memory.

Section Props.
Context `{Hash}.

(** The calls that change a store. *)
Inductive call :=
| CallAppend (cp : ContinuityCheckpoint)
| CallStore (r : ActivationReceipt)
| CallClose (wall : time) (id : string).

Definition perform (c : call) (s : MemoryContinuityStore) : MemoryContinuityStore :=
  match c with
  | CallAppend cp => (AppendCheckpoint cp s).1
  | CallStore r => (StoreActivation r s).1
  | CallClose wall id => (CloseActivation wall id s).1
  end.

(** The checkpoints a sequence of calls has accepted. *)
Fixpoint accepted (cs : list call) (s : MemoryContinuityStore) : list ContinuityCheckpoint :=
  match cs with
  | [] => []
  | c :: cs' =>
      (match c with
       | CallAppend cp => if is_ok (AppendCheckpoint cp s).2 then [cp] else []
       | _ => []
       end ++ accepted cs' (perform c s))%list
  end.

Definition run (cs : list call) (s : MemoryContinuityStore) : MemoryContinuityStore :=
  foldl (fun s c => perform c s) s cs.

(** The state of the store after the checkpoints [l]. *)
Definition holds (s : MemoryContinuityStore) (l : list ContinuityCheckpoint) : Prop :=
  map (fun st => (cs_CheckpointID st, cs_HazardSequence st)) (checkpoints s)
    = map (fun cp => (cc_CheckpointID cp, cc_HazardSequence cp)) l /\
  (forall n, set_mem (nonces s) n = true <-> n ∈ map cc_Nonce l) /\
  StronglySorted Z.lt (map cc_HazardSequence l) /\ NoDup (map cc_Nonce l).

Lemma AppendCheckpoint_Ok cp s s' st :
  AppendCheckpoint cp s = (s', Ok st) ->
  cs_CheckpointID st = cc_CheckpointID cp /\ cs_HazardSequence st = cc_HazardSequence cp /\
  checkpoints s' = (checkpoints s ++ [st])%list /\ nonces s' = <[cc_Nonce cp := true]> (nonces s) /\
  set_mem (nonces s) (cc_Nonce cp) = false /\
  (forall latest, Latest s = Some latest -> (cs_HazardSequence latest < cc_HazardSequence cp)%Z).
Proof.
  unfold AppendCheckpoint. destruct (String.eqb _ ""); [discriminate|].
  destruct (set_mem _ _) eqn:Em; [discriminate|].
  destruct (_ ← match Latest s with _ => _ end; CheckpointHash cp) as [h|] eqn:E; [|discriminate].
  intros [= <- <-]. do 5 (split; [done|]).
  intros latest El. rewrite El, res_bind_Ok in E. destruct E as ([]&E&_).
  destruct (Z.leb_spec (cc_HazardSequence cp) (cs_HazardSequence latest)); [discriminate|lia].
Qed.

Lemma AppendCheckpoint_Fail cp s s' e : AppendCheckpoint cp s = (s', Fail e) -> s' = s.
Proof.
  unfold AppendCheckpoint. destruct (String.eqb _ ""); [by intros [= <-]|].
  destruct (set_mem _ _); [by intros [= <-]|].
  by destruct (_ ← match Latest s with _ => _ end; CheckpointHash cp); intros [= <-].
Qed.

Lemma holds_append cp s l :
  holds s l ->
  holds (AppendCheckpoint cp s).1 (l ++ if is_ok (AppendCheckpoint cp s).2 then [cp] else [])%list.
Proof.
  intros (Hc&Hn&Hs&Hd). destruct (AppendCheckpoint cp s) as [s' [st|e]] eqn:E; cbn [fst snd is_ok].
  2:{ apply AppendCheckpoint_Fail in E as ->. rewrite app_nil_r. done. }
  apply AppendCheckpoint_Ok in E as (Eid&Eseq&Ec&En&Em&Hlt). unfold holds.
  rewrite Ec, En, !map_app, Hc. cbn [map]. rewrite Eid, Eseq. split; [done|]. split; [|split].
  - intros n. rewrite set_mem_insert, orb_true_iff, bool_decide_eq_true, elem_of_app, Hn.
    rewrite list_elem_of_singleton. naive_solver.
  - apply StronglySorted_app_2; [|done|repeat constructor].
    intros x y Hx Hy%list_elem_of_singleton. subst y.
    assert (Ex : exists latest, Latest s = Some latest /\ (x <= cs_HazardSequence latest)%Z).
    { assert (Em' : map cs_HazardSequence (checkpoints s) = map cc_HazardSequence l).
      { apply (f_equal (map snd)) in Hc. by rewrite !map_map in Hc. }
      unfold Latest. rewrite <-Em' in Hs, Hx.
      destruct (checkpoints s) as [|z r _] using rev_ind; [by apply not_elem_of_nil in Hx|].
      exists z. rewrite last_snoc. split; [done|]. rewrite map_app in Hs, Hx.
      apply elem_of_app in Hx as [Hx|Hx%list_elem_of_singleton]; [|subst; lia].
      apply Z.lt_le_incl, (StronglySorted_app_1_elem_of _ _ _ _ _ Hs Hx).
      by apply list_elem_of_singleton. }
    destruct Ex as (latest&El&Hx'). specialize (Hlt latest El). lia.
  - apply NoDup_app. split; [done|]. split; [|apply NoDup_singleton].
    intros n Hl Hn'%list_elem_of_singleton. subst n. rewrite <-Hn in Hl. congruence.
Qed.

Lemma holds_other c s l :
  (forall cp, c <> CallAppend cp) -> holds s l -> holds (perform c s) l.
Proof.
  intros Hc (A&B&C). destruct c as [cp|r|wall id]; [by destruct (Hc cp)|..]; cbn [perform].
  - unfold StoreActivation. by destruct (String.eqb _ _).
  - unfold CloseActivation. by destruct (activations s !! id).
Qed.

Lemma run_holds cs s l : holds s l -> holds (run cs s) (l ++ accepted cs s)%list.
Proof.
  revert s l. induction cs as [|c cs IH]; intros s l Hh; cbn.
  - by rewrite app_nil_r.
  - rewrite app_assoc. apply IH. destruct c as [cp|r|wall id].
    + by apply holds_append.
    + rewrite app_nil_r. by apply holds_other.
    + rewrite app_nil_r. by apply holds_other.
Qed.

(** The continuity log only moves forward: over any sequence of calls on a
    new store, the accepted checkpoints carry strictly increasing hazard sequence
    numbers and pairwise distinct nonces, the store lists exactly them in order,
    and its latest state is the last of them. *)
Theorem continuity_moves_forward cs :
  let s := run cs NewMemoryContinuityStore in
  let l := accepted cs NewMemoryContinuityStore in
  StronglySorted Z.lt (map cc_HazardSequence l) /\ NoDup (map cc_Nonce l) /\
  map (fun st => (cs_CheckpointID st, cs_HazardSequence st)) (checkpoints s)
    = map (fun cp => (cc_CheckpointID cp, cc_HazardSequence cp)) l /\
  (cs_HazardSequence <$> Latest s) = (cc_HazardSequence <$> last l) /\
  (forall n, set_mem (nonces s) n = true <-> n ∈ map cc_Nonce l).
Proof.
  assert (H0 : holds NewMemoryContinuityStore []).
  { split; [done|]. split; [|split; constructor]. intros n. cbn.
    unfold set_mem. cbn. rewrite lookup_empty. cbn. split; [discriminate|].
    by intros ?%not_elem_of_nil. }
  apply (run_holds cs) in H0 as (A&B&C&D). cbn [app] in *.
  do 3 (split; [done|]). split; [|exact B].
  unfold Latest. apply (f_equal (map snd)) in A. rewrite !map_map in A. cbn in A.
  rewrite <-!fmap_last. f_equal. exact A.
Qed.
End Props.
End MemoryProps.

(** * Hardware ceremonies *)

Section CeremonyProps.
Context `{Ed25519}.

Definition revoked (at_epoch epoch : Z) : bool := ((0 <? at_epoch) && (at_epoch <=? epoch))%Z.

(** A registered, unrevoked signer whose registered key verifies the approval. *)
Definition hardware_bound (c : HardwareCeremonyTranscript) (x : CeremonyExpectation)
    (a : HardwareApproval) : Prop :=
  exists authorized sig,
    xh_AuthorizedSigners x !! trim_space (ha_SignerID a) = Some authorized /\
    revoked (tsg_RevokedAtEpoch authorized) (xh_PolicyEpoch x) = false /\
    revoked (ha_RevokedAtEpoch a) (xh_PolicyEpoch x) = false /\
    (sig = trim_space (ha_AssertionSignature a) \/ sig = trim_space (tsg_Signature authorized)) /\
    Verify (trim_space (tsg_PublicKey authorized)) sig
      (to_bytes (hardwareApprovalPayload (hw_TranscriptHash c) a)) = Ok true.

Lemma verifyHardwareApproval_Ok th a authorized :
  verifyHardwareApproval th a authorized = Ok tt ->
  exists sig, (sig = trim_space (ha_AssertionSignature a) \/ sig = trim_space (tsg_Signature authorized)) /\
    Verify (trim_space (tsg_PublicKey authorized)) sig (to_bytes (hardwareApprovalPayload th a)) = Ok true.
Proof.
  unfold verifyHardwareApproval. intros E. checks E. destruct E as (_&_&E).
  eexists. destruct (Verify _ _ _) as [b|] eqn:Ev; [|discriminate]. checks E.
  apply negb_false_iff in E. subst b. split; [|exact Ev]. destruct (blank _); auto.
Qed.

Lemma checkApproval_Ok c x t a t' :
  checkApproval c x t a = Ok t' ->
  seenSigners t' = trim_space (ha_SignerID a) :: seenSigners t /\
  seenDevices t' = trim_space (ha_DeviceID a) :: seenDevices t /\
  valid t' = (valid t + 1)%Z /\
  trim_space (ha_SignerID a) ∉ seenSigners t /\ trim_space (ha_DeviceID a) ∉ seenDevices t /\
  (xh_RequireHardwareBound x = true -> hardware_bound c x a).
Proof.
  assert (Seen : forall y l, seen y l = false -> y ∉ l).
  { intros y l E Hy. apply not_true_iff_false in E. apply E.
    apply existsb_Exists, Exists_exists. exists y. by rewrite String.eqb_refl. }
  unfold checkApproval. intros E. checks E.
  destruct E as (_&Es&Ed&_&Ea&Er&Et). apply Ok_inj in Et as <-.
  do 3 (split; [done|]). do 2 (split; [by apply Seen|]). intros Hb.
  unfold checkAuthorized in Ea. rewrite Hb in Ea. cbn [orb] in Ea.
  destruct (negb (bool_decide _)); [|checks Ea; discriminate].
  destruct (_ !! _) as [authorized|] eqn:El; [|checks Ea; discriminate].
  checks Ea. destruct Ea as (_&_&Erev&Ev).
  apply verifyHardwareApproval_Ok in Ev as (sig&Hsig&Ev).
  exists authorized, sig. by repeat (split; [done|]).
Qed.

Lemma checkApprovals_Ok c x l t t' :
  checkApprovals c x t l = Ok t' -> NoDup (seenSigners t) -> NoDup (seenDevices t) ->
  let signers := map (fun a => trim_space (ha_SignerID a)) l in
  let devices := map (fun a => trim_space (ha_DeviceID a)) l in
  valid t' = (valid t + Z.of_nat (length l))%Z /\
  NoDup (seenSigners t ++ signers)%list /\ NoDup (seenDevices t ++ devices)%list /\
  (xh_RequireHardwareBound x = true -> Forall (hardware_bound c x) l).
Proof.
  revert t. induction l as [|a l IH]; intros t E Ns Nd; cbn [map].
  - apply Ok_inj in E as <-. rewrite !app_nil_r, Z.add_0_r. auto.
  - cbn [checkApprovals] in E. apply res_bind_Ok in E as (t1&E1&E2).
    apply checkApproval_Ok in E1 as (Es&Ed&Ev&Hs&Hd&Hb).
    destruct (IH t1 E2) as (Iv&Is&Id&Ib).
    { rewrite Es. by constructor. } { rewrite Ed. by constructor. }
    split; [cbn [length]; lia|]. rewrite Es in Is. rewrite Ed in Id.
    split; [by rewrite <-Permutation_middle|]. split; [by rewrite <-Permutation_middle|].
    intros Hx. constructor; auto.
Qed.

Lemma ceremony_quorum_spec wall c x :
  ValidateHardwareCeremony wall c x = Ok tt -> xh_RequireHardwareBound x = true ->
  let now := defaultTime (xh_Now x) wall in
  (1 <= requiredQuorum c x <= Z.of_nat (length (hw_Approvals c)))%Z /\
  NoDup (map (fun a => trim_space (ha_SignerID a)) (hw_Approvals c)) /\
  NoDup (map (fun a => trim_space (ha_DeviceID a)) (hw_Approvals c)) /\
  Forall (hardware_bound c x) (hw_Approvals c) /\
  (hw_VetoUntil c = zero_time \/ hw_VetoUntil c <= now)%Z /\
  (hw_ExpiresAt c = zero_time \/ now < hw_ExpiresAt c)%Z.
Proof.
  intros E Hb. unfold ValidateHardwareCeremony in E. checks E.
  destruct E as (Eq&_&_&Ev&Ex&E). apply res_bind_Ok in E as (t&Et&E). checks E.
  apply checkApprovals_Ok in Et as (Iv&Is&Id&Ib); [|constructor..].
  cbn [empty_tally valid seenSigners seenDevices app] in Iv, Is, Id.
  split; [lia|]. do 2 (split; [done|]). split; [by apply Ib|].
  unfold is_zero, before in Ev, Ex. split; lia.
Qed.

(** An accepted hardware ceremony has its quorum: with hardware binding
    required, at least the required number of approvals, from pairwise distinct
    signers and devices, every one of them by a registered and unrevoked signer
    whose registered key verifies the approval over this transcript; the veto
    window is over and the ceremony has not expired. *)
Theorem ceremony_has_quorum wall c x :
  ValidateHardwareCeremony wall c x = Ok tt -> xh_RequireHardwareBound x = true ->
  let now := defaultTime (xh_Now x) wall in
  (1 <= requiredQuorum c x <= Z.of_nat (length (hw_Approvals c)))%Z /\
  NoDup (map (fun a => trim_space (ha_SignerID a)) (hw_Approvals c)) /\
  NoDup (map (fun a => trim_space (ha_DeviceID a)) (hw_Approvals c)) /\
  Forall (hardware_bound c x) (hw_Approvals c) /\
  (hw_VetoUntil c = zero_time \/ hw_VetoUntil c <= now)%Z /\
  (hw_ExpiresAt c = zero_time \/ now < hw_ExpiresAt c)%Z.
Proof. apply ceremony_quorum_spec. Qed.
End CeremonyProps.

(** * The dispatch gate *)

Module ControllerProps.
Import Controller.

Section Props.
Context `{Hash} `{Ed25519} {W : Type}.
Implicit Types (c : Controller W) (w : W).

Lemma attempt_Ok {A} (m : M W A) w w' r : attempt m w = (w', Ok r) -> m w = (w', r).
Proof. intros (r0&E&[= ->])%attempt_eq. done. Qed.

Lemma Classify_Ok c s w w' cl :
  Classify c s w = (w', Ok cl) ->
  hc_State cl = hc_State (ClassifyHazard (sg_HazardCode s) (sg_ActiveClock s) (sg_HighRiskLane s)) /\
  hc_ActivationAllowed cl
    = hc_ActivationAllowed (ClassifyHazard (sg_HazardCode s) (sg_ActiveClock s) (sg_HighRiskLane s)) /\
  hc_HazardCode cl = sg_HazardCode s /\ hc_ReasonCode cl <> "".
Proof.
  unfold Classify. intros (w1&t&_&(w2&refs&_&E)%M_bind_Ok)%M_bind_Ok. injection E as _ <-.
  do 2 (split; [done|]). cbn. unfold ClassifyHazard. repeat case_match; done.
Qed.

Lemma attachEvidence_Ok c k result w w' r :
  attachEvidence c k result w = (w', Ok r) ->
  gt_DispatchAllowed r = gt_DispatchAllowed result /\
  gt_ActivationReceipt r = gt_ActivationReceipt result.
Proof.
  unfold attachEvidence. intros (w1&t&_&(w2&refs&_&E)%M_bind_Ok)%M_bind_Ok.
  by injection E as _ <-.
Qed.

(** What an activation rests on: the checks passed against the store's latest
    state, the checkpoint was accepted by the store and the receipt recorded. *)
Definition activated c (req : GateRequest) (receipt : ActivationReceipt) w' : Prop :=
  exists cap latest state t t' wall w1 w2 w3 w4,
    gr_Capsule req = Some cap /\
    Latest (store c) w1 = (w2, Ok latest) /\
    activation_checks wall t (complete_expectation c t' latest req cap) req cap = Ok tt /\
    AppendCheckpoint (store c) (gr_Checkpoint req) w2 = (w3, Ok state) /\
    StoreActivation (store c) receipt w4 = (w', Ok tt) /\
    ar_ActivationID receipt = activationID cap (gr_Checkpoint req) /\
    ar_ContinuityHash receipt = cs_CheckpointHash state /\
    ar_DelegationSessionID receipt = dc_SessionID (cap_Delegation cap) /\
    ar_ExpiresAt receipt = cap_ExpiresAt cap.

Lemma activate_Ok c req cl w w' receipt :
  activate c req cl w = (w', Ok receipt) -> activated c req receipt w'.
Proof.
  unfold activate. destruct (gr_Capsule req) as [cap|] eqn:Ec; [|discriminate].
  intros (w0&t&Et&E)%M_bind_Ok. apply M_bind_Ok in E as (w2&x&Ex&E).
  unfold defaultExpectation in Ex.
  apply M_bind_Ok in Ex as (w1&t'&Et'&(w2'&latest&El&Ex)%M_bind_Ok). injection Ex as -> <-.
  apply M_bind_Ok in E as (w2'&wl&Ew&E). injection Ew as <- <-.
  apply M_bind_Ok in E as (w2'&[]&Ek&E). apply lift_Ok in Ek as [Ek ->].
  apply M_bind_Ok in E as (w3&state&Ea&E). apply M_bind_Ok in E as (w3'&refs&_&E).
  apply M_bind_Ok in E as (w4&rc&Es&E). apply M_bind_Ok in E as (w5&[]&Est&E).
  injection E as -> ->.
  exists cap, latest, state, t, t', (wall c w2), w1, w2, w3, w4.
  do 5 (split; [done|]).
  destruct (signer c) as [sign|].
  - apply M_bind_Ok in Es as (w6&p&_&(w7&sig&_&Es)%M_bind_Ok). injection Es as _ <-. done.
  - injection Es as _ <-. done.
Qed.

Definition hazard_state (s : Signal) : string :=
  hc_State (ClassifyHazard (sg_HazardCode s) (sg_ActiveClock s) (sg_HighRiskLane s)).

Lemma fill_connector_same req :
  hazard_state (gr_Signal (fill_connector req)) = hazard_state (gr_Signal req) /\
  sg_ActiveClock (gr_Signal (fill_connector req)) = sg_ActiveClock (gr_Signal req) /\
  gr_InspectionOnly (fill_connector req) = gr_InspectionOnly req /\
  gr_Action (fill_connector req) = gr_Action req /\ gr_ToolName (fill_connector req) = gr_ToolName req.
Proof. unfold fill_connector. by destruct (String.eqb _ _). Qed.

Lemma degraded_clock s :
  hazard_state s = SafeDepDegradedNarrowing ->
  hc_ActivationAllowed (ClassifyHazard (sg_HazardCode s) (sg_ActiveClock s) (sg_HighRiskLane s))
  = sg_ActiveClock s.
Proof. unfold hazard_state, ClassifyHazard. repeat case_match; done. Qed.

(** C36. Under a hazard signal the gate allows a dispatch only in two ways: a
    deprecated-readonly hazard and an inspection action, or a degraded-narrowing
    hazard with an active clock and an emergency activation whose capsule,
    ceremony, delegation, attestation and checkpoint all passed and whose
    checkpoint the continuity store accepted.  Terminal and unknown hazards never
    dispatch. *)
Theorem gate_dispatch_justified c cancelled req w w' r :
  Gate (Some c) cancelled req w = (w', Ok r) -> gt_DispatchAllowed r = true ->
  Empty (gr_Signal req) = false ->
  (hazard_state (gr_Signal req) = SafeDepDeprecatedReadonly /\
   (gr_InspectionOnly req = true \/ IsInspectionAction (gr_Action req) (gr_ToolName req) = true)) \/
  (hazard_state (gr_Signal req) = SafeDepDegradedNarrowing /\
   sg_ActiveClock (gr_Signal req) = true /\
   exists receipt, gt_ActivationReceipt r = Some receipt /\
     activated c (fill_connector req) receipt w').
Proof.
  intros E Hd He. unfold Gate in E. rewrite He in E. destruct cancelled; [discriminate|].
  destruct (fill_connector_same req) as (Fs&Fc&Fi&Fa&Ft).
  set (q := fill_connector req) in *.
  apply M_bind_Ok in E as (w1&cl&Ec&E). apply Classify_Ok in Ec as (Es&Eal&_).
  fold (hazard_state (gr_Signal q)) in Es. rewrite Fs in Es.
  destruct (String.eqb_spec (hc_State cl) SafeDepTerminalFreeze).
  { apply attachEvidence_Ok in E as [E _]. by rewrite E in Hd. }
  destruct (String.eqb_spec (hc_State cl) SafeDepDeprecatedReadonly) as [Er|].
  { left. rewrite <-Es. split; [done|]. rewrite Fi, Fa, Ft in E.
    destruct (gr_InspectionOnly req || _) eqn:Ei; [by apply orb_true_iff in Ei|].
    apply attachEvidence_Ok in E as [E _]. by rewrite E in Hd. }
  destruct (String.eqb_spec (hc_State cl) SafeDepDegradedNarrowing) as [En|].
  2:{ apply attachEvidence_Ok in E as [E _]. by rewrite E in Hd. }
  right. rewrite <-Es. split; [done|].
  rewrite degraded_clock in Eal by congruence. rewrite Fc in Eal.
  destruct (hc_ActivationAllowed cl) eqn:Ea; cbn [negb] in E.
  2:{ apply attachEvidence_Ok in E as [E _]. by rewrite E in Hd. }
  split; [done|]. apply M_bind_Ok in E as (w2&a&Ea'&E). apply attempt_Ok in Ea'.
  destruct a as [receipt|err].
  - injection E as <- <-. exists receipt. split; [done|]. by eapply activate_Ok.
  - apply M_bind_Ok in E as (?&?&_&E). discriminate.
Qed.
End Props.
End ControllerProps.

(** * What the capsule checks leave out *)

(** The capsule's threshold signatures are counted, never verified, and its
    TTL bound does not bound its life: a capsule that passes still passes with any
    other nonempty list of signatures and any later expiry. *)
Theorem capsule_signatures_unverified wall c x sigs expires :
  ValidateEmergencyCapsule wall c x = Ok tt -> sigs <> [] ->
  (cap_ExpiresAt c <= expires)%Z -> expires <> zero_time ->
  ValidateEmergencyCapsule wall (c <| cap_Signatures := sigs |> <| cap_ExpiresAt := expires |>) x
  = Ok tt.
Proof.
  intros E Hs Hx Hz. unfold ValidateEmergencyCapsule in *.
  repeat (apply check_then in E as [E0%refuse_if_Ok E]; apply check_then; split;
    [apply refuse_if_Ok; first [exact E0|clear E]|clear E0]); [| |exact E].
  - apply orb_false_iff in E0 as [_ E0]. apply orb_false_iff. cbn.
    split; [by apply Z.eqb_neq|]. apply negb_false_iff, Z.ltb_lt in E0.
    apply negb_false_iff, Z.ltb_lt. lia.
  - apply bool_decide_eq_false. cbn. by destruct sigs.
Qed.

(** A capsule whose single approval is by an unregistered signer without a
    signature, in a request that lowers the quorum to one. *)
Module SelfAsserted.

Definition approval : HardwareApproval := {|
  ha_SignerID := "anyone"; ha_Role := ""; ha_DeviceID := "laptop"; ha_AuthenticatorAAGUID := "";
  ha_AssertionHash := "x"; ha_AssertionSignature := ""; ha_SignedAt := 0; ha_RevokedAtEpoch := 0 |}.

Definition capsule : EmergencyCapsule := {|
  cap_CapsuleID := "cap"; cap_Version := 1; cap_ApertureID := "ap"; cap_HazardCode := HazardAPIRot;
  cap_State := SafeDepDegradedNarrowing; cap_OrgGenomeHash := "g"; cap_PolicyEpoch := 7;
  cap_PolicyHash := "p"; cap_P0CeilingsHash := ""; cap_P1BundleHash := ""; cap_CPIHash := "";
  cap_ProviderRegistryHash := ""; cap_CredentialRegistryHash := ""; cap_VerifierProfileHash := "";
  cap_PredecessorHash := ""; cap_SubsetProofHash := "s"; cap_SubsetProofKind := "k";
  cap_AllowedActions := ["wire"]; cap_AllowedConnectors := []; cap_TTLSeconds := 1;
  cap_NotBefore := zero_time; cap_ExpiresAt := 1000000000000000000;
  cap_Signatures := [{| tsg_SignerID := ""; tsg_Role := ""; tsg_DeviceID := ""; tsg_KeyID := "";
    tsg_PublicKey := ""; tsg_Scheme := ""; tsg_Signature := ""; tsg_RevokedAtEpoch := 0 |}];
  cap_Ceremony := {| hw_CeremonyID := "cer"; hw_RequiredQuorum := 1; hw_EnrolledSignerCount := 0;
    hw_Approvals := [approval]; hw_StartedAt := zero_time; hw_ExpiresAt := zero_time;
    hw_VetoUntil := zero_time; hw_TranscriptHash := "t" |};
  cap_Delegation := {| dc_SessionID := "sess"; dc_HumanSubjectID := "h";
    dc_AuthorizedResources := []; dc_Scope := []; dc_MaxHops := 0; dc_NotBefore := zero_time;
    dc_ExpiresAt := 1000000000000000000; dc_Hops := []; dc_CompletionReceiptRef := "" |};
  cap_Attestation := {| at_EnvelopeID := "e"; at_ProfileID := ""; at_Subject := ""; at_Platform := "";
    at_MeasurementHash := ""; at_Nonce := ""; at_TrustTier := "self"; at_PolicyHash := "";
    at_Synthetic := false; at_IssuedAt := zero_time; at_ExpiresAt := 1000000000000000000;
    at_Signature := "unchecked" |};
  cap_Transparency := {| ta_Backend := ""; ta_LogID := ""; ta_InclusionProofHash := "";
    ta_CheckpointHash := ""; ta_Deferred := false; ta_DeferredUntil := zero_time |} |}.

Definition checkpoint : ContinuityCheckpoint := {|
  cc_CheckpointID := "cp"; cc_OrgGenomeHash := "g"; cc_PolicyHash := "p"; cc_PolicyEpoch := 7;
  cc_HazardSequence := 1; cc_LamportClock := 1; cc_DeadManWindowID := ""; cc_DeadManActive := false;
  cc_LatestAcceptedCheckpointHash := ""; cc_PreviousCheckpointHash := ""; cc_Nonce := "n";
  cc_AttestedTime := 5; cc_ExpiresAt := zero_time; cc_Signature := "" |}.

Definition quorum_of_one : ActivationExpectation := {|
  x_Continuity := x_Continuity no_expectation; x_Capsule := x_Capsule no_expectation;
  x_Ceremony := {| xh_AuthorizedSigners := ∅; xh_RequiredQuorum := 1; xh_PolicyEpoch := 0;
    xh_Now := zero_time; xh_RequireDistinctRoles := false; xh_RequireHardwareBound := false |};
  x_Attestation := x_Attestation no_expectation; x_Now := zero_time |}.

Definition request : GateRequest := no_request
  <| gr_Signal := no_signal <| sg_HazardCode := HazardAPIRot |> <| sg_ActiveClock := true |> |>
  <| gr_Checkpoint := checkpoint |> <| gr_Capsule := Some capsule |>
  <| gr_Expectation := quorum_of_one |> <| gr_Action := "wire" |>.

Definition start : Controller.Machine :=
  {| Controller.mem := Memory.NewMemoryContinuityStore; Controller.clk := 10 |}.

(** The default controller on the request above. *)
Definition outcome (e : Ed25519) : Controller.Machine * res GateResult :=
  @Controller.Gate id_hash e _ (Some (@Controller.NewController id_hash)) None request start.

(** The controller the executor builds by default accepts emergency
    authority its holder wrote alone, whatever the signature scheme: an
    unregistered signer, no signature that anything verifies, and a quorum of one
    set by the request itself although the controller's default is three. *)
Theorem default_controller_self_asserted (e : Ed25519) :
  exists w' r receipt, outcome e = (w', Ok r) /\
    gt_DispatchAllowed r = true /\ gt_ActivationReceipt r = Some receipt /\
    (Z.of_nat (length (hw_Approvals (cap_Ceremony capsule)))
     < Controller.defaultQuorum (@Controller.NewController id_hash))%Z.
Proof.
  assert (V : match (outcome e).2 with
              | Ok r => gt_DispatchAllowed r && bool_decide (is_Some (gt_ActivationReceipt r))
              | Fail _ => false
              end = true) by (vm_compute; reflexivity).
  destruct (outcome e) as [w' [r|err]]; cbn [snd] in V; [|discriminate].
  apply andb_true_iff in V as [V1 V2]. apply bool_decide_eq_true in V2 as [receipt V2].
  by exists w', r, receipt.
Qed.
End SelfAsserted.

(** * Worked examples *)

Module SafeDepDemo.
Import SelfAsserted.

Lemma gate_dispatch_justified_witness :
  exists receipt w', ControllerProps.activated (H := id_hash) (H0 := toy_ed25519)
    (@Controller.NewController id_hash) (Controller.fill_connector request) receipt w'.
Proof.
  assert (V : match (outcome toy_ed25519).2 with
              | Ok r => gt_DispatchAllowed r | Fail _ => false end = true) by (vm_compute; reflexivity).
  destruct (outcome toy_ed25519) as [w' [r|err]] eqn:E; cbn [snd] in V; [|discriminate].
  destruct (@ControllerProps.gate_dispatch_justified id_hash toy_ed25519 _ _ _ _ _ _ _ E V)
    as [[F _]|(_&_&receipt&_&Ha)].
  - reflexivity.
  - vm_compute in F. discriminate.
  - exists receipt, w'. exact Ha.
Defined.

Lemma capsule_signatures_unverified_witness :
  ValidateEmergencyCapsule 10 (capsule <| cap_Signatures := cap_Signatures capsule |>
    <| cap_ExpiresAt := 9000000000000000000%Z |>) (x_Capsule no_expectation) = Ok tt.
Proof.
  apply (capsule_signatures_unverified 10 capsule (x_Capsule no_expectation));
    [vm_compute; reflexivity|discriminate|discriminate|discriminate].
Defined.

(** One registered device key approves. *)
Definition key : string := hex_encode (repeat (byte 0) 32).
Definition sig : string := hex_encode (repeat (byte 0) 64).

Definition signed_approval : HardwareApproval := {|
  ha_SignerID := "alice"; ha_Role := "ops"; ha_DeviceID := "yubikey-1"; ha_AuthenticatorAAGUID := "";
  ha_AssertionHash := "x"; ha_AssertionSignature := sig; ha_SignedAt := 0; ha_RevokedAtEpoch := 0 |}.

Definition ceremony : HardwareCeremonyTranscript := {|
  hw_CeremonyID := "cer"; hw_RequiredQuorum := 1; hw_EnrolledSignerCount := 1;
  hw_Approvals := [signed_approval]; hw_StartedAt := zero_time; hw_ExpiresAt := zero_time;
  hw_VetoUntil := zero_time; hw_TranscriptHash := "t" |}.

Definition registry : CeremonyExpectation := {|
  xh_AuthorizedSigners := {["alice" := {| tsg_SignerID := "alice"; tsg_Role := "ops";
    tsg_DeviceID := "yubikey-1"; tsg_KeyID := ""; tsg_PublicKey := key; tsg_Scheme := "";
    tsg_Signature := ""; tsg_RevokedAtEpoch := 0 |}]};
  xh_RequiredQuorum := 1; xh_PolicyEpoch := 3; xh_Now := 10; xh_RequireDistinctRoles := true;
  xh_RequireHardwareBound := true |}.

Lemma ceremony_has_quorum_witness :
  Forall (@hardware_bound toy_ed25519 ceremony registry) [signed_approval].
Proof.
  destruct (@ceremony_has_quorum toy_ed25519 0 ceremony registry) as (_&_&_&F&_).
  - vm_compute. reflexivity.
  - reflexivity.
  - exact F.
Defined.
End SafeDepDemo.
