(* ===== verification/Capability.v ===== *)
(** Governed capabilities, [core/pkg/capability]: manifests with their validation and the hash-pinned registry
    (manifest.go, registry.go), rollback plans (rollback.go), and task-bound capability tokens with the
    authority that mints them, the store that counts their uses and the verifier that consumes them (token.go,
    token_authority.go).

    A directory of files is the list of what reading and decoding each file gave, in name order; a pattern that cannot be
    listed is not a case of a plain directory name.  A token
    error is its text.  The registry never changes once loaded.  [DecodeToken] is JSON decoding and stays with the
    Guardian's parameters. *)
From Stdlib Require Import Ascii.
From S2P Require Import Prelude GoLib GoFmt GoTime Utf8 Jcs Contracts Signing.

Local Open Scope string_scope.

(** * The patterns *)

Definition lower_char := in_range 97 122.
Definition upper_char := in_range 65 90.

(** [[a-z0-9][a-z0-9-]*] *)
Definition kebab (s : bytes) : bool :=
  match s with
  | [] => false
  | c :: s => (lower_char c || digit_char c) && forallb (fun c => lower_char c || digit_char c || is_char "-" c) s
  end.

Definition capabilityIDPattern (s : string) : bool :=
  match strip_prefix (to_bytes "helm.cap.") (to_bytes s) with
  | None => false
  | Some rest => let parts := split_on "." [] rest in (2 <=? length parts)%nat && forallb kebab parts
  end.

(** [0|[1-9]\d*] in front of a byte that is not a digit *)
Definition numeral (l : bytes) : option bytes :=
  match take_digits l with
  | ([], _) => None
  | (c :: d, r) => if is_char "0" c && negb (bool_decide (d = [])) then None else Some r
  end.
Definition semverPattern (s : string) : bool :=
  match l ← numeral (to_bytes s); l ← literal "." l; l ← numeral l; l ← literal "." l; numeral l with
  | None => false
  | Some [] => true
  | Some (c :: pre) =>
      is_char "-" c && negb (bool_decide (pre = []))
      && forallb (fun c => digit_char c || upper_char c || lower_char c || is_char "." c || is_char "-" c) pre
  end.

(** [^sha256:[a-f0-9]{64}$] *)
Definition sourcePackHashPattern (s : string) : bool :=
  match strip_prefix (to_bytes "sha256:") (to_bytes s) with
  | None => false
  | Some d => Nat.eqb (length d) 64 && forallb (fun c => in_range 97 102 c || digit_char c) d
  end.

Example patterns :
  (map capabilityIDPattern ["helm.cap.fs.read"; "helm.cap.fs"; "helm.cap.fs.-x"; "helm.cap.a.b-2.c"],
   map semverPattern ["1.0.0"; "01.0.0"; "1.2"; "1.2.3-rc.1"; "1.2.3-"; "10.20.30"])
  = ([true; false; false; true], [true; false; false; true; false; true]).
Proof. vm_compute. reflexivity. Qed.

(** ** [time.Parse(time.RFC3339, s)] succeeds *)

Definition rfc3339 (s : string) : bool := match time_parse s with Some _ => true | None => false end.

Example rfc3339_examples :
  map rfc3339 ["2024-02-29T12:34:56Z"; "2023-02-29T12:34:56Z"; "2024-01-01T5:04:05+02:00"; "2024-01-01T05:04:05.25Z";
               "2024-01-01 05:04:05Z"; "2024-13-01T05:04:05Z"; "2024-01-01T05:04:05"]
  = [true; false; true; true; false; false; false].
Proof. vm_compute. reflexivity. Qed.

(** * Manifests *)

Definition SchemaVersion := "capability-manifest/v1".

Definition EffectReadOnly := "read_only".
Definition EffectIrreversible := "irreversible".
Definition ReversibilityNone := "none".
Definition BoundaryLocalOnly := "local_only".
Definition BoundaryDevice := "device_boundary".
Definition BoundaryOrg := "org_boundary".
Definition BoundaryExternal := "external".

Definition validBindingKinds := ["mcp_tool"; "mcp_server"; "a2a_skill"; "cli_command"; "http_endpoint"; "gui_action_primitive"].
Definition validProtocols := ["mcp"; "a2a"; "cli"; "http-api"; "gui-action"; "syscall"].
Definition validEffectClasses :=
  [EffectReadOnly; "write_local"; "write_external"; "network_egress"; "credential_access"; "code_execution"; "financial"; EffectIrreversible].
Definition validReversibilities := [ReversibilityNone; "compensating_action"; "exact_undo"].
Definition validBoundaries := [BoundaryLocalOnly; BoundaryDevice; BoundaryOrg; BoundaryExternal].
Definition validPermitLevels := ["none"; "single_approval"; "multi_party_permit"].
Definition validMemoryGrants := ["none"; "read"; "write"; "read_write"].
Definition validModelTiers := ["fast_edge"; "standard"; "deep_reasoning"].

Definition member (l : list string) (s : string) : bool := existsb (String.eqb s) l.

Record Binding := { bd_Kind : string; bd_Ref : string; bd_ParametersSchema : obj }.
Record RollbackRequirement := { rb_Required : bool; rb_PlanRef : string }.
Record ReceiptRequirement := { rq_Required : bool; rq_SchemaRefs : list string }.
Record MemoryAccess := { ma_UserDomain : string; ma_AgentDomain : string; ma_CrossDomainRead : bool }.
Record Metadata := {
  md_Homepage : string; md_License : string; md_SourcePackHash : string; md_CertifiedBy : string; md_CertifiedAt : string }.

Record Manifest := {
  mf_SchemaVersion : string;
  mf_CapabilityID : string;
  mf_Name : string;
  mf_Version : string;
  mf_Description : string;
  mf_Protocol : string;
  mf_Binding : Binding;
  mf_EffectClass : string;
  mf_Reversibility : string;
  mf_DataBoundary : string;
  mf_RiskScore : Z;
  mf_RequiredPermitLevel : string;
  mf_Rollback : RollbackRequirement;
  mf_Receipts : ReceiptRequirement;
  mf_MemoryAccess : MemoryAccess;
  mf_MinModelTier : string;
  mf_Metadata : Metadata;
}.

(** [if cond { return fmt.Errorf(text) }] *)
Definition reject (cond : bool) (text : string) : res unit := if cond then Fail text else Ok tt.

(** The text of [time.Parse] at the end of the last error is left out. *)
Definition ValidateManifest (m : Manifest) : res unit :=
  _ ← reject (negb (String.eqb (mf_SchemaVersion m) SchemaVersion))
        ("schema_version must be " +:+ goq SchemaVersion +:+ ", got " +:+ goq (mf_SchemaVersion m));
  _ ← reject (negb (capabilityIDPattern (mf_CapabilityID m)))
        ("capability_id " +:+ goq (mf_CapabilityID m) +:+ " does not match required pattern");
  _ ← reject (String.eqb (mf_Name m) "") "name is required";
  _ ← reject (negb (semverPattern (mf_Version m))) ("version " +:+ goq (mf_Version m) +:+ " is not valid semver");
  _ ← reject (negb (member validProtocols (mf_Protocol m)))
        ("protocol " +:+ goq (mf_Protocol m) +:+ " is not a recognized dispatch surface");
  _ ← reject (negb (member validBindingKinds (bd_Kind (mf_Binding m))))
        ("binding.kind " +:+ goq (bd_Kind (mf_Binding m)) +:+ " is not a recognized dispatch binding");
  _ ← reject (String.eqb (bd_Ref (mf_Binding m)) "") "binding.ref is required";
  _ ← reject (negb (member validEffectClasses (mf_EffectClass m)))
        ("effect_class " +:+ goq (mf_EffectClass m) +:+ " is not recognized");
  _ ← reject (negb (member validReversibilities (mf_Reversibility m)))
        ("reversibility " +:+ goq (mf_Reversibility m) +:+ " is not recognized");
  _ ← reject (negb (member validBoundaries (mf_DataBoundary m)))
        ("data_boundary " +:+ goq (mf_DataBoundary m) +:+ " is not recognized");
  _ ← reject ((mf_RiskScore m <? 0) || (100 <? mf_RiskScore m))%Z
        ("risk_score " +:+ dec (mf_RiskScore m) +:+ " out of range [0,100]");
  _ ← reject (negb (member validPermitLevels (mf_RequiredPermitLevel m)))
        ("required_permit_level " +:+ goq (mf_RequiredPermitLevel m) +:+ " is not recognized");
  let reversible := negb (String.eqb (mf_Reversibility m) ReversibilityNone) && negb (String.eqb (mf_EffectClass m) EffectReadOnly) in
  _ ← reject (reversible && negb (rb_Required (mf_Rollback m)))
        "rollback.required must be true for reversible non-read-only capability";
  _ ← reject (reversible && String.eqb (rb_PlanRef (mf_Rollback m)) "")
        "rollback.plan_ref is required for reversible non-read-only capability";
  _ ← reject (negb (rq_Required (mf_Receipts m))) "receipts.required must be true: every dispatch must produce receipts";
  _ ← reject (negb (member validMemoryGrants (ma_UserDomain (mf_MemoryAccess m)))
              || negb (member validMemoryGrants (ma_AgentDomain (mf_MemoryAccess m))))
        "memory_access grants must be one of none/read/write/read_write";
  _ ← reject (negb (String.eqb (mf_MinModelTier m) "") && negb (member validModelTiers (mf_MinModelTier m)))
        ("routing.min_model_tier " +:+ goq (mf_MinModelTier m) +:+ " is not recognized");
  _ ← reject (negb (String.eqb (md_SourcePackHash (mf_Metadata m)) "")
              && negb (sourcePackHashPattern (md_SourcePackHash (mf_Metadata m))))
        "metadata.source_pack_hash must be a sha256 digest";
  reject (negb (String.eqb (md_CertifiedAt (mf_Metadata m)) "") && negb (rfc3339 (md_CertifiedAt (mf_Metadata m))))
    "metadata.certified_at must be RFC3339".

Lemma reject_Ok b t u : reject b t = Ok u -> b = false.
Proof. by destruct b. Qed.

Lemma valid_boundary m : ValidateManifest m = Ok tt ->
  mf_DataBoundary m = BoundaryLocalOnly \/ mf_DataBoundary m = BoundaryDevice \/ mf_DataBoundary m = BoundaryOrg \/
  mf_DataBoundary m = BoundaryExternal.
Proof.
  unfold ValidateManifest. intros V. do 9 apply res_bind_Ok in V as (? & _ & V). apply res_bind_Ok in V as (? & B%reject_Ok & _).
  apply negb_false_iff in B. unfold member in B. apply existsb_exists in B as (b & Hin & ->%String.eqb_eq). cbn in Hin. naive_solver.
Qed.

(** ** JSON and hash *)

Definition opt_obj (k : string) (o : obj) : res (list (string * json)) :=
  if bool_decide (o = ∅) then Ok [] else j ← json_of_obj o; Ok [(k, j)].
Definition opt_list (k : string) (l : list string) : list (string * json) :=
  opt_field (bool_decide (l = [])) k (JArr (map JStr l)).

Definition json_of_manifest (m : Manifest) : res json :=
  schema ← opt_obj "parameters_schema" (bd_ParametersSchema (mf_Binding m));
  Ok (JObj ([("schema_version", JStr (mf_SchemaVersion m)); ("capability_id", JStr (mf_CapabilityID m));
             ("name", JStr (mf_Name m)); ("version", JStr (mf_Version m))]
            ++ opt_string "description" (mf_Description m)
            ++ [("protocol", JStr (mf_Protocol m));
                ("binding", JObj ([("kind", JStr (bd_Kind (mf_Binding m))); ("ref", JStr (bd_Ref (mf_Binding m)))] ++ schema));
                ("effect_class", JStr (mf_EffectClass m)); ("reversibility", JStr (mf_Reversibility m));
                ("data_boundary", JStr (mf_DataBoundary m)); ("risk_score", JNum (dec (mf_RiskScore m)));
                ("required_permit_level", JStr (mf_RequiredPermitLevel m));
                ("rollback", JObj ([("required", JBool (rb_Required (mf_Rollback m)))]
                                   ++ opt_string "plan_ref" (rb_PlanRef (mf_Rollback m))));
                ("receipts", JObj ([("required", JBool (rq_Required (mf_Receipts m)))]
                                   ++ opt_list "schema_refs" (rq_SchemaRefs (mf_Receipts m))));
                ("memory_access", JObj [("user_domain", JStr (ma_UserDomain (mf_MemoryAccess m)));
                                        ("agent_domain", JStr (ma_AgentDomain (mf_MemoryAccess m)));
                                        ("cross_domain_read", JBool (ma_CrossDomainRead (mf_MemoryAccess m)))]);
                ("routing", JObj (opt_string "min_model_tier" (mf_MinModelTier m)));
                ("metadata", JObj (opt_string "homepage" (md_Homepage (mf_Metadata m))
                                   ++ opt_string "license" (md_License (mf_Metadata m))
                                   ++ opt_string "source_pack_hash" (md_SourcePackHash (mf_Metadata m))
                                   ++ opt_string "certified_by" (md_CertifiedBy (mf_Metadata m))
                                   ++ opt_string "certified_at" (md_CertifiedAt (mf_Metadata m))))])%list).

Section Hashing.
Context `{Hash}.

Definition content_hash (j : res json) : res string :=
  canonical ← JCS_res j; Ok ("sha256:" +:+ hex_encode (sha256 canonical)).
Definition HashManifest (m : Manifest) : res string := content_hash (json_of_manifest m).

(** * The registry *)

Record Entry := { en_Manifest : Manifest; en_Hash : string; en_SourcePath : string }.
Definition Registry := gmap string Entry.

(** A file of the directory: its name and what reading it gave and, if it was read, strictly decoding it. *)
Definition File (A : Type) : Type := string * res (res A).

Definition at_file (verb f : string) {A} (r : res A) : res A :=
  wrap_err ("capability registry: " +:+ verb +:+ " " +:+ f +:+ ": ") r.

Fixpoint load_files (files : list (File Manifest)) (reg : Registry) : res Registry :=
  match files with
  | [] => Ok reg
  | (f, content) :: files =>
      decoded ← at_file "read" f content;
      m ← at_file "parse" f decoded;
      _ ← at_file "validate" f (ValidateManifest m);
      match reg !! mf_CapabilityID m with
      | Some _ => Fail ("capability registry: duplicate capability_id " +:+ goq (mf_CapabilityID m) +:+ " (" +:+ f +:+ ")")
      | None =>
          hash ← at_file "hash" f (HashManifest m);
          load_files files (<[mf_CapabilityID m := {| en_Manifest := m; en_Hash := hash; en_SourcePath := f |}]> reg)
      end
  end.

Definition LoadDir (dir : string) (files : list (File Manifest)) : res Registry :=
  match files with
  | [] => Fail ("capability registry: no manifest files in " +:+ dir)
  | _ => load_files files ∅
  end.

Definition Resolve (capabilityID : string) (r : Registry) : option Entry := r !! capabilityID.
End Hashing.

(** * Rollback plans *)

Definition RollbackPlanSchemaVersion := "rollback-plan/v1".
Definition validStrategies := ["exact_undo"; "compensating_action"; "snapshot_restore"].
Definition validVerificationMethods := ["receipt_pairing"; "state_digest_match"; "human_attestation"].

Record RollbackStep := {
  rs_Order : Z; rs_ActionRef : string; rs_Description : string; rs_ParametersTemplate : obj }.

Record RollbackPlan := {
  rp_SchemaVersion : string;
  rp_PlanID : string;
  rp_Strategy : string;
  rp_CapabilityID : string;
  rp_EffectReceiptRef : string;
  rp_Steps : list RollbackStep;
  rp_Method : string;
  rp_EvidenceRefs : list string;
  rp_GuaranteeExpiry : option time;
}.

Definition resolves (reg : option Registry) (id : string) : bool :=
  match reg with None => true | Some r => match Resolve id r with Some _ => true | None => false end end.

Fixpoint check_steps (reg : option Registry) (i : nat) (seenOrders : list Z) (steps : list RollbackStep) : res unit :=
  match steps with
  | [] => Ok tt
  | s :: steps =>
      let at_step t := "step " +:+ dec (Z.of_nat i) +:+ ": " +:+ t in
      _ ← reject (rs_Order s <? 1)%Z (at_step "order must be >= 1");
      _ ← reject (existsb (Z.eqb (rs_Order s)) seenOrders) (at_step ("duplicate order " +:+ dec (rs_Order s)));
      _ ← reject (String.eqb (rs_ActionRef s) "") (at_step "action_ref is required");
      _ ← reject (negb (resolves reg (rs_ActionRef s)))
            (at_step ("action_ref " +:+ goq (rs_ActionRef s) +:+ " does not resolve to a registered capability"));
      check_steps reg (S i) (rs_Order s :: seenOrders) steps
  end.

Definition ValidatePlan (reg : option Registry) (p : RollbackPlan) : res unit :=
  _ ← reject (negb (String.eqb (rp_SchemaVersion p) RollbackPlanSchemaVersion))
        ("schema_version must be " +:+ goq RollbackPlanSchemaVersion +:+ ", got " +:+ goq (rp_SchemaVersion p));
  _ ← reject (String.eqb (rp_PlanID p) "") "plan_id is required";
  _ ← reject (negb (member validStrategies (rp_Strategy p))) ("strategy " +:+ goq (rp_Strategy p) +:+ " is not recognized");
  _ ← reject (String.eqb (rp_CapabilityID p) "" && String.eqb (rp_EffectReceiptRef p) "")
        "applies_to must name capability_id or effect_receipt_ref";
  let named := negb (String.eqb (rp_CapabilityID p) "") in
  _ ← reject (named && negb (capabilityIDPattern (rp_CapabilityID p)))
        ("applies_to.capability_id " +:+ goq (rp_CapabilityID p) +:+ " is invalid");
  _ ← reject (named && negb (resolves reg (rp_CapabilityID p)))
        ("applies_to.capability_id " +:+ goq (rp_CapabilityID p) +:+ " does not resolve to a registered capability");
  _ ← reject (bool_decide (rp_Steps p = [])) "steps must contain at least one step";
  _ ← check_steps reg 0 [] (rp_Steps p);
  reject (negb (member validVerificationMethods (rp_Method p)))
    ("verification.method " +:+ goq (rp_Method p) +:+ " is not recognized").

Definition AppliesToCapability (capabilityID : string) (p : RollbackPlan) : bool := String.eqb (rp_CapabilityID p) capabilityID.

Definition PlanExpired (now : time) (p : RollbackPlan) : bool :=
  match rp_GuaranteeExpiry p with None => false | Some t => negb (now <? t)%Z end.

Definition json_of_rollback_step (s : RollbackStep) : res json :=
  template ← opt_obj "parameters_template" (rs_ParametersTemplate s);
  Ok (JObj ([("order", JNum (dec (rs_Order s))); ("action_ref", JStr (rs_ActionRef s)); ("description", JStr (rs_Description s))]
            ++ template)%list).

(** No steps are a nil slice. *)
Definition json_of_plan (p : RollbackPlan) : res json :=
  steps ← traverse json_of_rollback_step (rp_Steps p);
  expiry ← match rp_GuaranteeExpiry p with
           | None => Ok []
           | Some t => s ← fmt_time t; Ok [("guarantee_expiry", JStr s)]
           end;
  Ok (JObj ([("schema_version", JStr (rp_SchemaVersion p)); ("plan_id", JStr (rp_PlanID p)); ("strategy", JStr (rp_Strategy p));
             ("applies_to", JObj (opt_string "capability_id" (rp_CapabilityID p)
                                  ++ opt_string "effect_receipt_ref" (rp_EffectReceiptRef p)));
             ("steps", match steps with [] => JNull | _ => JArr steps end);
             ("verification", JObj ([("method", JStr (rp_Method p))] ++ opt_list "evidence_refs" (rp_EvidenceRefs p)))]
            ++ expiry)%list).

Section Plans.
Context `{Hash}.

Definition HashRollbackPlan (p : RollbackPlan) : res string := content_hash (json_of_plan p).

Record RollbackPlanEntry := { pe_Plan : RollbackPlan; pe_Hash : string; pe_SourcePath : string }.
Definition RollbackPlanRegistry := gmap string RollbackPlanEntry.

Definition at_plan (verb f : string) {A} (r : res A) : res A :=
  wrap_err ("rollback registry: " +:+ verb +:+ " " +:+ f +:+ ": ") r.

Fixpoint load_plans (reg : option Registry) (files : list (File RollbackPlan)) (store : RollbackPlanRegistry)
    : res RollbackPlanRegistry :=
  match files with
  | [] => Ok store
  | (f, content) :: files =>
      decoded ← at_plan "read" f content;
      p ← at_plan "parse" f decoded;
      _ ← at_plan "validate" f (ValidatePlan reg p);
      match store !! rp_PlanID p with
      | Some _ => Fail ("rollback registry: duplicate plan_id " +:+ goq (rp_PlanID p) +:+ " (" +:+ f +:+ ")")
      | None =>
          hash ← at_plan "hash" f (HashRollbackPlan p);
          load_plans reg files (<[rp_PlanID p := {| pe_Plan := p; pe_Hash := hash; pe_SourcePath := f |}]> store)
      end
  end.

Definition LoadRollbackDir (dir : string) (reg : option Registry) (files : list (File RollbackPlan)) : res RollbackPlanRegistry :=
  match files with
  | [] => Fail ("rollback registry: no plan files in " +:+ dir)
  | _ => load_plans reg files ∅
  end.

Definition ResolvePlan (planRef : string) (s : RollbackPlanRegistry) : option RollbackPlanEntry := s !! planRef.
End Plans.

(** * Tokens *)

Definition TokenSchemaVersion := "capability-token/v1".
Definition DefaultTokenTTL : duration := (15 * minute)%Z.

Definition TokenStatusActive := "active".
Definition TokenStatusUsedUp := "used_up".
Definition TokenStatusExpired := "expired".
Definition TokenStatusRevoked := "revoked".
Definition validTokenStatuses := [TokenStatusActive; TokenStatusUsedUp; TokenStatusExpired; TokenStatusRevoked].
Definition Terminal (s : string) : bool := member [TokenStatusUsedUp; TokenStatusExpired; TokenStatusRevoked] s.

Record TokenSubject := { tb_AgentID : string; tb_SessionID : string; tb_DeviceID : string }.
Record TokenCapabilityRef := { tr_CapabilityID : string; tr_Version : string; tr_ManifestHash : string }.
Record TokenConstraints := { tc_ArgsDigest : string; tc_DataBoundaryCeiling : string }.
Record TokenGrant := { tg_IssuedAt : time; tg_ExpiresAt : time; tg_MaxUses : Z; tg_Constraints : TokenConstraints }.

Record Token := {
  tk_SchemaVersion : string;
  tk_TokenID : string;
  tk_TaskID : string;
  tk_Subject : TokenSubject;
  tk_CapabilityRef : TokenCapabilityRef;
  tk_Grant : TokenGrant;
  tk_Status : string;
  tk_RevocationReceiptRef : string;
  tk_Signature : string;
}.
#[export] Instance Token_eta : Eta Token := fun t => {|
  tk_SchemaVersion := tk_SchemaVersion t; tk_TokenID := tk_TokenID t; tk_TaskID := tk_TaskID t; tk_Subject := tk_Subject t;
  tk_CapabilityRef := tk_CapabilityRef t; tk_Grant := tk_Grant t; tk_Status := tk_Status t;
  tk_RevocationReceiptRef := tk_RevocationReceiptRef t; tk_Signature := tk_Signature t |}.

Definition signedPayload (t : Token) : Token :=
  t <| tk_Status := "" |> <| tk_RevocationReceiptRef := "" |> <| tk_Signature := "" |>.

(** [^tok_[A-Za-z0-9_-]{8,64}$] *)
Definition tokenIDPattern (s : string) : bool :=
  match strip_prefix (to_bytes "tok_") (to_bytes s) with
  | None => false
  | Some d => (8 <=? length d)%nat && (length d <=? 64)%nat
              && forallb (fun c => upper_char c || lower_char c || digit_char c || is_char "_" c || is_char "-" c) d
  end.
Definition tokenDigestPattern := sourcePackHashPattern.

Definition validateShape (requireSignature : bool) (t : Token) : res unit :=
  let ref := tk_CapabilityRef t in
  let grant := tk_Grant t in
  let limits := tg_Constraints grant in
  _ ← reject (negb (String.eqb (tk_SchemaVersion t) TokenSchemaVersion))
        ("schema_version must be " +:+ goq TokenSchemaVersion +:+ ", got " +:+ goq (tk_SchemaVersion t));
  _ ← reject (negb (tokenIDPattern (tk_TokenID t))) ("token_id " +:+ goq (tk_TokenID t) +:+ " does not match required pattern");
  _ ← reject (String.eqb (tk_TaskID t) "") "task_id is required";
  _ ← reject (String.eqb (tb_AgentID (tk_Subject t)) "") "subject.agent_id is required";
  _ ← reject (String.eqb (tr_CapabilityID ref) "" || negb (capabilityIDPattern (tr_CapabilityID ref)))
        ("capability_ref.capability_id " +:+ goq (tr_CapabilityID ref) +:+ " invalid");
  _ ← reject (negb (semverPattern (tr_Version ref))) ("capability_ref.version " +:+ goq (tr_Version ref) +:+ " is not valid semver");
  _ ← reject (negb (tokenDigestPattern (tr_ManifestHash ref))) "capability_ref.manifest_hash must be a sha256 digest";
  _ ← reject (is_zero (tg_IssuedAt grant) || is_zero (tg_ExpiresAt grant)) "grant.issued_at and grant.expires_at are required";
  _ ← reject (negb (tg_IssuedAt grant <? tg_ExpiresAt grant)%Z) "grant.expires_at must be after grant.issued_at";
  _ ← reject (tg_MaxUses grant <? 0)%Z "grant.max_uses must be >= 0";
  _ ← reject (negb (String.eqb (tc_ArgsDigest limits) "") && negb (tokenDigestPattern (tc_ArgsDigest limits)))
        "constraints.args_digest must be a sha256 digest";
  _ ← reject (negb (String.eqb (tc_DataBoundaryCeiling limits) "") && negb (member validBoundaries (tc_DataBoundaryCeiling limits)))
        ("constraints.data_boundary_ceiling " +:+ goq (tc_DataBoundaryCeiling limits) +:+ " invalid");
  _ ← reject (negb (member validTokenStatuses (tk_Status t))) ("status " +:+ goq (tk_Status t) +:+ " is invalid");
  reject (requireSignature && String.eqb (tk_Signature t) "") "signature is required".

Definition ValidateShape (t : Token) : res unit := validateShape true t.

Definition boundaryRank (b : string) : Z :=
  if String.eqb b BoundaryLocalOnly then 0%Z
  else if String.eqb b BoundaryDevice then 1%Z
  else if String.eqb b BoundaryOrg then 2%Z
  else if String.eqb b BoundaryExternal then 3%Z
  else (-1)%Z.

Definition json_of_token (t : Token) : res json :=
  issued ← fmt_time (tg_IssuedAt (tk_Grant t));
  expires ← fmt_time (tg_ExpiresAt (tk_Grant t));
  Ok (JObj ([("schema_version", JStr (tk_SchemaVersion t)); ("token_id", JStr (tk_TokenID t)); ("task_id", JStr (tk_TaskID t));
             ("subject", JObj ([("agent_id", JStr (tb_AgentID (tk_Subject t)))]
                               ++ opt_string "session_id" (tb_SessionID (tk_Subject t))
                               ++ opt_string "device_id" (tb_DeviceID (tk_Subject t))));
             ("capability_ref", JObj [("capability_id", JStr (tr_CapabilityID (tk_CapabilityRef t)));
                                      ("version", JStr (tr_Version (tk_CapabilityRef t)));
                                      ("manifest_hash", JStr (tr_ManifestHash (tk_CapabilityRef t)))]);
             ("grant", JObj ([("issued_at", JStr issued); ("expires_at", JStr expires)]
                             ++ opt_field (tg_MaxUses (tk_Grant t) =? 0)%Z "max_uses" (JNum (dec (tg_MaxUses (tk_Grant t))))
                             ++ [("constraints",
                                  JObj (opt_string "args_digest" (tc_ArgsDigest (tg_Constraints (tk_Grant t)))
                                        ++ opt_string "data_boundary_ceiling"
                                             (tc_DataBoundaryCeiling (tg_Constraints (tk_Grant t)))))]));
             ("status", JStr (tk_Status t))]
            ++ opt_string "revocation_receipt_ref" (tk_RevocationReceiptRef t)
            ++ opt_string "signature" (tk_Signature t))%list).

(** The bytes the authority signs. *)
Definition token_preimage (t : Token) : res bytes := JCS_res (json_of_token (signedPayload t)).

(** ** Errors *)

Definition TokenRejectMalformed := "malformed".
Definition TokenRejectBadSignature := "bad_signature".
Definition TokenRejectUnknown := "unknown_token".
Definition TokenRejectNotActive := "not_active".
Definition TokenRejectExpired := "expired".
Definition TokenRejectTaskMismatch := "task_mismatch".
Definition TokenRejectManifestDrift := "manifest_drift".
Definition TokenRejectArgsDigest := "args_digest_mismatch".
Definition TokenRejectBoundaryCeiling := "boundary_ceiling_exceeded".
Definition TokenRejectUnknownCapability := "unknown_capability".
Definition TokenRejectCapabilityMismatch := "capability_mismatch".
Definition TokenRejectClockUnavailable := "authority_clock_unavailable".

(** [(&TokenError{Reason, Details}).Error()] *)
Definition token_error (reason details : string) : error :=
  if String.eqb details "" then reason else reason +:+ ": " +:+ details.
Definition rejected {A} (reason details : string) : res A := Fail (token_error reason details).
Definition or_reject {A} (reason : string) (r : res A) : res A :=
  match r with Ok a => Ok a | Fail e => rejected reason e end.

(** ** The store *)

Record InMemoryTokenStore := { ts_tokens : gmap string Token; ts_uses : gmap string Z }.
#[export] Instance InMemoryTokenStore_eta : Eta InMemoryTokenStore := fun s => {|
  ts_tokens := ts_tokens s; ts_uses := ts_uses s |}.
Definition NewInMemoryTokenStore : InMemoryTokenStore := {| ts_tokens := ∅; ts_uses := ∅ |}.
Definition uses (id : string) (s : InMemoryTokenStore) : Z := default 0%Z (ts_uses s !! id).

Definition PutToken (t : Token) : M InMemoryTokenStore unit := fun s =>
  match ValidateShape t with
  | Fail e => (s, rejected TokenRejectMalformed e)
  | Ok _ =>
      match ts_tokens s !! tk_TokenID t with
      | Some _ => (s, rejected TokenRejectMalformed ("duplicate token_id " +:+ tk_TokenID t))
      | None => (s <| ts_tokens := <[tk_TokenID t := t]> (ts_tokens s) |>, Ok tt)
      end
  end.

Definition GetToken (id : string) (s : InMemoryTokenStore) : res (Token * Z) :=
  match ts_tokens s !! id with
  | None => rejected TokenRejectUnknown id
  | Some t => Ok (t, uses id s)
  end.

Definition ConsumeUse (id : string) : M InMemoryTokenStore Z := fun s =>
  match ts_tokens s !! id with
  | None => (s, rejected TokenRejectUnknown id)
  | Some t =>
      if Terminal (tk_Status t) then (s, rejected (tk_Status t) id)
      else
        let n := wrap64 (uses id s + 1) in
        let s := s <| ts_uses := <[id := n]> (ts_uses s) |> in
        let s := if ((0 <? tg_MaxUses (tk_Grant t)) && (tg_MaxUses (tk_Grant t) <=? n))%Z
                 then s <| ts_tokens := <[id := t <| tk_Status := TokenStatusUsedUp |>]> (ts_tokens s) |> else s in
        (s, Ok n)
  end.

Definition RevokeToken (id receiptRef : string) : M InMemoryTokenStore unit := fun s =>
  match ts_tokens s !! id with
  | None => (s, rejected TokenRejectUnknown id)
  | Some t =>
      (s <| ts_tokens := <[id := t <| tk_Status := TokenStatusRevoked |> <| tk_RevocationReceiptRef := receiptRef |>]> (ts_tokens s) |>,
       Ok tt)
  end.

(** ** Minting *)

Record MintRequest := {
  mr_TaskID : string; mr_Subject : TokenSubject; mr_CapabilityID : string; mr_TTL : duration; mr_MaxUses : Z;
  mr_Constraints : TokenConstraints }.

Section Authority.
Context `{Hash} `{Ed25519}.

Definition sign_token (signer : Ed25519Signer) (t : Token) : res Token :=
  canonical ← wrap_err "canonicalize token: " (token_preimage t);
  sig ← wrap_err "sign token: " (Sign signer canonical);
  Ok (t <| tk_Signature := sig |>).

(** An authority with all its parts; [random] are the sixteen bytes drawn and [now] the reading of its clock. *)
Definition Mint (signer : Ed25519Signer) (registry : Registry) (req : MintRequest) (random : bytes) (now : time)
    : M InMemoryTokenStore Token := fun s =>
  match Resolve (mr_CapabilityID req) registry with
  | None => (s, rejected TokenRejectUnknownCapability (mr_CapabilityID req))
  | Some entry =>
      let ttl := if (mr_TTL req <=? 0)%Z then DefaultTokenTTL else mr_TTL req in
      let token := {|
        tk_SchemaVersion := TokenSchemaVersion; tk_TokenID := "tok_" +:+ hex_encode random; tk_TaskID := mr_TaskID req;
        tk_Subject := mr_Subject req;
        tk_CapabilityRef := {| tr_CapabilityID := mf_CapabilityID (en_Manifest entry); tr_Version := mf_Version (en_Manifest entry);
                               tr_ManifestHash := en_Hash entry |};
        tk_Grant := {| tg_IssuedAt := now; tg_ExpiresAt := time_add now ttl; tg_MaxUses := mr_MaxUses req;
                       tg_Constraints := mr_Constraints req |};
        tk_Status := TokenStatusActive; tk_RevocationReceiptRef := ""; tk_Signature := "" |} in
      (_ ← lift (or_reject TokenRejectMalformed (validateShape false token));
       token ← lift (sign_token signer token);
       _ ← lift (or_reject TokenRejectMalformed (ValidateShape token));
       _ ← PutToken token;
       mret token) s
  end.

(** ** Verification *)

Record VerifyRequest := {
  vr_Presented : option Token; vr_TaskID : string; vr_CapabilityID : string; vr_ManifestHash : string; vr_Args : ctx }.

(** A nil map marshals to null. *)
Definition HashArgs (args : ctx) : res string :=
  content_hash (match args with None => Ok JNull | Some o => json_of_obj o end).

Definition check_constraints (entry : Entry) (stored : Token) (args : ctx) : res unit :=
  let limits := tg_Constraints (tk_Grant stored) in
  _ ← (if String.eqb (tc_ArgsDigest limits) "" then Ok tt
       else
         argsDigest ← or_reject TokenRejectMalformed (HashArgs args);
         if negb (String.eqb argsDigest (tc_ArgsDigest limits)) then rejected TokenRejectArgsDigest (tk_TokenID stored) else Ok tt);
  if negb (String.eqb (tc_DataBoundaryCeiling limits) "")
     && (boundaryRank (tc_DataBoundaryCeiling limits) <? boundaryRank (mf_DataBoundary (en_Manifest entry)))%Z
  then rejected TokenRejectBoundaryCeiling (mf_DataBoundary (en_Manifest entry) +:+ " > " +:+ tc_DataBoundaryCeiling limits)
  else Ok tt.

(** The checks on the stored token. *)
Definition check_stored (registry : Registry) (req : VerifyRequest) (id : string) (now : time) (stored : Token) : res unit :=
  if Terminal (tk_Status stored) then rejected (tk_Status stored) id
  else if negb (String.eqb (tk_Status stored) TokenStatusActive) then rejected TokenRejectNotActive (tk_Status stored)
  else if negb (now <? tg_ExpiresAt (tk_Grant stored))%Z then rejected TokenRejectExpired id
  else if String.eqb (vr_TaskID req) "" || negb (String.eqb (tk_TaskID stored) (vr_TaskID req))
  then rejected TokenRejectTaskMismatch id
  else if negb (String.eqb (vr_CapabilityID req) "")
          && negb (String.eqb (tr_CapabilityID (tk_CapabilityRef stored)) (vr_CapabilityID req))
  then rejected TokenRejectCapabilityMismatch id
  else if negb (String.eqb (vr_ManifestHash req) "")
          && negb (String.eqb (tr_ManifestHash (tk_CapabilityRef stored)) (vr_ManifestHash req))
  then rejected TokenRejectCapabilityMismatch id
  else match Resolve (tr_CapabilityID (tk_CapabilityRef stored)) registry with
  | None => rejected TokenRejectUnknownCapability (tr_CapabilityID (tk_CapabilityRef stored))
  | Some entry =>
      if negb (String.eqb (en_Hash entry) (tr_ManifestHash (tk_CapabilityRef stored)))
      then rejected TokenRejectManifestDrift (tr_CapabilityID (tk_CapabilityRef stored))
      else check_constraints entry stored (vr_Args req)
  end.

(** Everything [Verify] does before it consumes a use, on the store as [Get] finds it. *)
Definition check_token (pubHex : string) (registry : Registry) (req : VerifyRequest) (now : time) (s : InMemoryTokenStore)
    : res Token :=
  if String.eqb pubHex "" then rejected TokenRejectMalformed "token verifier is incomplete"
  else match vr_Presented req with
  | None => rejected TokenRejectMalformed "no token presented"
  | Some t =>
      _ ← or_reject TokenRejectMalformed (ValidateShape t);
      canonical ← or_reject TokenRejectMalformed (token_preimage t);
      _ ← match Verify pubHex (tk_Signature t) canonical with
          | Ok true => Ok tt
          | _ => rejected TokenRejectBadSignature (tk_TokenID t)
          end;
      '(stored, _) ← GetToken (tk_TokenID t) s;
      _ ← match token_preimage stored with
          | Ok storedCanonical =>
              if bool_decide (canonical = storedCanonical) then Ok tt
              else rejected TokenRejectMalformed "presented token does not match stored grant"
          | Fail _ => rejected TokenRejectMalformed "presented token does not match stored grant"
          end;
      _ ← check_stored registry req (tk_TokenID t) now stored;
      Ok stored
  end.

(** A verifier with a registry, a store and a clock. *)
Definition VerifyToken (pubHex : string) (registry : Registry) (req : VerifyRequest) (now : time) : M InMemoryTokenStore Token := fun s =>
  (stored ← lift (check_token pubHex registry req now s);
   _ ← ConsumeUse (default "" (tk_TokenID <$> vr_Presented req));
   mret stored) s.
End Authority.

(** * Concurrent use *)

(** Calls of an authority, of revokers and of verifiers over one store.  [Verify] takes the lock of the store twice, to read
    the token and to consume a use, so its two halves are separate steps of a thread and anything may come between. *)
Inductive call :=
| CMint (req : MintRequest) (random : bytes) (now : time)
| CRevoke (id receiptRef : string)
| CCheck (thread : nat) (req : VerifyRequest) (now : time)
| CConsume (thread : nat).

(** A use that was granted: the request, the reading of the clock and the token as it was read. *)
Record Use := { us_Request : VerifyRequest; us_Now : time; us_Stored : Token }.
Definition used_id (u : Use) : string := default "" (tk_TokenID <$> vr_Presented (us_Request u)).

Record System := { sy_store : InMemoryTokenStore; sy_pending : gmap nat Use; sy_granted : list Use }.
Definition fresh_system : System := {| sy_store := NewInMemoryTokenStore; sy_pending := ∅; sy_granted := [] |}.

Section System.
Context `{Hash} `{Ed25519} (signer : Ed25519Signer) (registry : Registry).

Definition perform (c : call) (y : System) : System :=
  match c with
  | CMint req random now =>
      {| sy_store := (Mint signer registry req random now (sy_store y)).1; sy_pending := sy_pending y; sy_granted := sy_granted y |}
  | CRevoke id ref =>
      {| sy_store := (RevokeToken id ref (sy_store y)).1; sy_pending := sy_pending y; sy_granted := sy_granted y |}
  | CCheck thread req now =>
      match check_token (PublicKey signer) registry req now (sy_store y) with
      | Fail _ => y
      | Ok stored =>
          {| sy_store := sy_store y; sy_granted := sy_granted y;
             sy_pending := <[thread := {| us_Request := req; us_Now := now; us_Stored := stored |}]> (sy_pending y) |}
      end
  | CConsume thread =>
      match sy_pending y !! thread with
      | None => y
      | Some u =>
          let '(s, r) := ConsumeUse (used_id u) (sy_store y) in
          {| sy_store := s; sy_pending := delete thread (sy_pending y);
             sy_granted := match r with Ok _ => u :: sy_granted y | Fail _ => sy_granted y end |}
      end
  end.

Definition run_calls (cs : list call) (y : System) : System := foldl (fun y c => perform c y) y cs.

Definition uses_of (id : string) (l : list Use) : Z := Z.of_nat (length (filter (fun u => used_id u = id) l)).

(** The limit of a mint request is an [int]. *)
Definition call_ok (c : call) : bool := match c with CMint req _ _ => in_int64 (mr_MaxUses req) | _ => true end.

(** ** What a check establishes *)

Record use_ok (u : Use) : Prop := {
  uo_presented : exists t m, vr_Presented (us_Request u) = Some t /\ token_preimage t = Ok m /\
    Verify (PublicKey signer) (tk_Signature t) m = Ok true /\ token_preimage (us_Stored u) = Ok m;
  uo_active : tk_Status (us_Stored u) = TokenStatusActive;
  uo_live : (us_Now u < tg_ExpiresAt (tk_Grant (us_Stored u)))%Z;
  uo_task : vr_TaskID (us_Request u) <> "" /\ tk_TaskID (us_Stored u) = vr_TaskID (us_Request u);
  uo_capability : vr_CapabilityID (us_Request u) = "" \/ tr_CapabilityID (tk_CapabilityRef (us_Stored u)) = vr_CapabilityID (us_Request u);
  uo_pinned : exists entry, Resolve (tr_CapabilityID (tk_CapabilityRef (us_Stored u))) registry = Some entry /\
    en_Hash entry = tr_ManifestHash (tk_CapabilityRef (us_Stored u)) /\
    let ceiling := tc_DataBoundaryCeiling (tg_Constraints (tk_Grant (us_Stored u))) in
    (ceiling = "" \/ boundaryRank (mf_DataBoundary (en_Manifest entry)) <= boundaryRank ceiling)%Z;
  uo_args : tc_ArgsDigest (tg_Constraints (tk_Grant (us_Stored u))) = "" \/
    HashArgs (vr_Args (us_Request u)) = Ok (tc_ArgsDigest (tg_Constraints (tk_Grant (us_Stored u))));
}.

Lemma or_reject_Ok {A} reason (r : res A) a : or_reject reason r = Ok a -> r = Ok a.
Proof. by destruct r. Qed.

Lemma check_token_Ok req now s stored :
  check_token (PublicKey signer) registry req now s = Ok stored ->
  use_ok {| us_Request := req; us_Now := now; us_Stored := stored |} /\
  exists t, vr_Presented req = Some t /\ ts_tokens s !! tk_TokenID t = Some stored.
Proof.
  unfold check_token. destruct (String.eqb (PublicKey signer) ""); [done|].
  destruct (vr_Presented req) as [t|] eqn:Ep; [|done].
  intros (_ & _ & (m & Hm%or_reject_Ok & (u & Hv & ([st n] & Hg & (u2 & Hs & (u3 & Hc & [= ->])%res_bind_Ok)%res_bind_Ok)%res_bind_Ok)%res_bind_Ok)%res_bind_Ok)%res_bind_Ok.
  assert (V : Verify (PublicKey signer) (tk_Signature t) m = Ok true) by (by destruct (Verify _ _ _) as [[]|]).
  assert (L : ts_tokens s !! tk_TokenID t = Some stored).
  { unfold GetToken in Hg. destruct (ts_tokens s !! tk_TokenID t); [|done]. by injection Hg as ->. }
  assert (P : token_preimage stored = Ok m).
  { destruct (token_preimage stored) as [m'|]; [|done]. case_bool_decide as E; [by rewrite E|done]. }
  split; [|by exists t]. unfold check_stored in Hc. destruct (Terminal (tk_Status stored)) eqn:T; [done|].
  destruct (String.eqb_spec (tk_Status stored) TokenStatusActive) as [Ea|]; [|done]. cbn [negb] in Hc.
  destruct (Z.ltb_spec now (tg_ExpiresAt (tk_Grant stored))); [|done]. cbn [negb] in Hc.
  destruct (String.eqb_spec (vr_TaskID req) ""); [done|]. cbn [orb] in Hc.
  destruct (String.eqb_spec (tk_TaskID stored) (vr_TaskID req)); [|done]. cbn [negb] in Hc.
  match type of Hc with context [if ?b then _ else _] => destruct b eqn:B1; [done|] end.
  match type of Hc with context [if ?b then _ else _] => destruct b eqn:B2; [done|] end.
  destruct (Resolve _ registry) as [entry|] eqn:Er; [|done].
  destruct (String.eqb_spec (en_Hash entry) (tr_ManifestHash (tk_CapabilityRef stored))) as [Eh|]; [|done]. cbn [negb] in Hc.
  unfold check_constraints in Hc. apply res_bind_Ok in Hc as (u4 & Ha & Hb).
  split; cbn; try done; try (by exists t, m).
  - destruct (String.eqb_spec (vr_CapabilityID req) ""); [by left|]. cbn [negb andb] in B1.
    right. by destruct (String.eqb_spec (tr_CapabilityID (tk_CapabilityRef stored)) (vr_CapabilityID req)).
  - exists entry. split; [done|]. split; [done|].
    destruct (String.eqb_spec (tc_DataBoundaryCeiling (tg_Constraints (tk_Grant stored))) ""); [by left|]. cbn [negb andb] in Hb. right.
    match type of Hb with context [(?a <? ?b)%Z] => destruct (Z.ltb_spec a b); [done|lia] end.
  - destruct (String.eqb_spec (tc_ArgsDigest (tg_Constraints (tk_Grant stored))) ""); [by left|]. right.
    apply res_bind_Ok in Ha as (d & Hd%or_reject_Ok & Hn). destruct (String.eqb_spec d (tc_ArgsDigest (tg_Constraints (tk_Grant stored)))) as [->|]; [done|done].
Qed.

(** ** Counting uses *)

Definition limited (y : System) (id : string) (t : Token) : Prop :=
  (0 < tg_MaxUses (tk_Grant t))%Z ->
  (tg_MaxUses (tk_Grant t) <= int64_max)%Z /\ uses_of id (sy_granted y) = uses id (sy_store y) /\
  (uses id (sy_store y) <= tg_MaxUses (tk_Grant t))%Z /\
  (Terminal (tk_Status t) = false -> (uses id (sy_store y) < tg_MaxUses (tk_Grant t))%Z).

Record system_inv (y : System) : Prop := {
  si_known : forall id t, ts_tokens (sy_store y) !! id = Some t -> limited y id t;
  si_unknown : forall id, ts_tokens (sy_store y) !! id = None -> uses id (sy_store y) = 0%Z /\ uses_of id (sy_granted y) = 0%Z;
  si_pending : forall n u, sy_pending y !! n = Some u -> use_ok u;
  si_granted : Forall use_ok (sy_granted y);
}.

Lemma put_cases t s s' x : PutToken t s = (s', x) ->
  (s' = s /\ exists e, x = Fail e) \/
  (ts_tokens s !! tk_TokenID t = None /\ s' = s <| ts_tokens := <[tk_TokenID t := t]> (ts_tokens s) |> /\ x = Ok tt).
Proof.
  unfold PutToken. destruct (ValidateShape t); [|intros [= <- <-]; left; by eauto].
  destruct (ts_tokens s !! tk_TokenID t) eqn:E; intros [= <- <-]; [left; by eauto|right; done].
Qed.

(** The token a mint request stands for, up to its signature. *)
Definition minted (entry : Entry) (req : MintRequest) (random : bytes) (now : time) : Token := {|
  tk_SchemaVersion := TokenSchemaVersion; tk_TokenID := "tok_" +:+ hex_encode random; tk_TaskID := mr_TaskID req;
  tk_Subject := mr_Subject req;
  tk_CapabilityRef := {| tr_CapabilityID := mf_CapabilityID (en_Manifest entry); tr_Version := mf_Version (en_Manifest entry);
                         tr_ManifestHash := en_Hash entry |};
  tk_Grant := {| tg_IssuedAt := now; tg_ExpiresAt := time_add now (if (mr_TTL req <=? 0)%Z then DefaultTokenTTL else mr_TTL req);
                 tg_MaxUses := mr_MaxUses req; tg_Constraints := mr_Constraints req |};
  tk_Status := TokenStatusActive; tk_RevocationReceiptRef := ""; tk_Signature := "" |}.

Lemma mint_cases req random now s s' x : Mint signer registry req random now s = (s', x) ->
  (s' = s /\ exists e, x = Fail e) \/
  exists entry m, let t := (minted entry req random now) <| tk_Signature := hex_encode (ed_sign (privKey signer) m) |> in
    Resolve (mr_CapabilityID req) registry = Some entry /\ token_preimage (minted entry req random now) = Ok m /\
    ValidateShape t = Ok tt /\ ts_tokens s !! tk_TokenID t = None /\
    s' = s <| ts_tokens := <[tk_TokenID t := t]> (ts_tokens s) |> /\ x = Ok t.
Proof.
  unfold Mint. destruct (Resolve (mr_CapabilityID req) registry) as [entry|]; [|intros [= <- <-]; left; by eauto].
  fold (minted entry req random now).
  intros [(e & E & ->)|(s1 & u1 & [_ ->]%lift_Ok & E)]%M_bind_cases; [injection E as <- _; left; by eauto|].
  apply M_bind_cases in E as [(e & E & ->)|(s2 & t & [Hs ->]%lift_Ok & E)]; [injection E as <- _; left; by eauto|].
  apply M_bind_cases in E as [(e & E & ->)|(s3 & u3 & [Hv%or_reject_Ok ->]%lift_Ok & E)]; [injection E as <- _; left; by eauto|].
  apply M_bind_cases in E as [(e & E & ->)|(s4 & u4 & E4 & E)].
  { apply put_cases in E as [[-> _]|(_ & _ & ?)]; [left; by eauto|done]. }
  apply put_cases in E4 as [[_ [e ?]]|(Hn & -> & _)]; [done|]. injection E as <- <-. right.
  unfold sign_token in Hs. apply res_bind_Ok in Hs as (m & Hm%wrap_err_Ok & Hs). cbn in Hs. injection Hs as <-.
  exists entry, m. cbv zeta. destruct u3. done.
Qed.

Lemma consume_cases id s s' x : ConsumeUse id s = (s', x) ->
  (s' = s /\ (exists e, x = Fail e) /\ forall t, ts_tokens s !! id = Some t -> Terminal (tk_Status t) = true) \/
  exists t, ts_tokens s !! id = Some t /\ Terminal (tk_Status t) = false /\ x = Ok (wrap64 (uses id s + 1)) /\
    ts_uses s' = <[id := wrap64 (uses id s + 1)]> (ts_uses s) /\
    ts_tokens s' = if ((0 <? tg_MaxUses (tk_Grant t)) && (tg_MaxUses (tk_Grant t) <=? wrap64 (uses id s + 1)))%Z
                   then <[id := t <| tk_Status := TokenStatusUsedUp |>]> (ts_tokens s) else ts_tokens s.
Proof.
  unfold ConsumeUse. destruct (ts_tokens s !! id) as [t|] eqn:E; [|intros [= <- <-]; left; split_and!; [done|by eauto|done]].
  destruct (Terminal (tk_Status t)) eqn:T; [intros [= <- <-]; left; split_and!; [done|by eauto|by intros ? [= <-]]|].
  intros [= <- <-]. right. exists t. split_and!; [done|done|done| |]; by destruct (_ && _).
Qed.

Lemma uses_of_cons u id l : uses_of id (u :: l) = (uses_of id l + if decide (used_id u = id) then 1 else 0)%Z.
Proof. unfold uses_of. rewrite filter_cons. destruct (decide (used_id u = id)); cbn [length]; lia. Qed.

Lemma perform_inv c y : call_ok c = true -> system_inv y -> system_inv (perform c y).
Proof.
  intros Ok [Kn Un Pe Gr]. destruct c as [req random now|id ref|n req now|n]; cbn [perform].
  - destruct (Mint _ _ _ _ _ _) as [s' x] eqn:E. cbn [fst].
    apply mint_cases in E as [[-> _]|(entry & m & _ & _ & Sh & Hn & -> & _)]; [by split|].
    cbn in Hn. split; cbn; [| |done|done].
    + intros id t. destruct (decide (id = "tok_" +:+ hex_encode random)) as [->|Ne].
      * rewrite lookup_insert_eq. intros [= <-] Pos. cbn in Pos |- *. unfold call_ok, in_int64 in Ok.
        destruct (Un _ Hn) as [U0 G0]. unfold uses in *. cbn. rewrite U0, G0. boolean. split_and!; [lia|done|lia|intros _; lia].
      * rewrite lookup_insert_ne by done. apply Kn.
    + intros id Hid. apply Un. destruct (decide (id = "tok_" +:+ hex_encode random)) as [->|Ne];
        [by rewrite lookup_insert_eq in Hid|by rewrite lookup_insert_ne in Hid by done].
  - unfold RevokeToken. destruct (ts_tokens (sy_store y) !! id) as [t|] eqn:E; [|by split]. split; cbn; [| |done|done].
    + intros id' t'. destruct (decide (id' = id)) as [->|Ne]; [|rewrite lookup_insert_ne by done; apply Kn].
      rewrite lookup_insert_eq. intros [= <-] Pos. destruct (Kn _ _ E Pos) as (B & U & L & _). by split_and!.
    + intros id' Hid. apply Un. destruct (decide (id' = id)) as [->|Ne];
        [by rewrite lookup_insert_eq in Hid|by rewrite lookup_insert_ne in Hid by done].
  - destruct (check_token _ _ _ _ _) as [stored|] eqn:E; [|by split]. apply check_token_Ok in E as [E _]. split; cbn; [done|done| |done].
    intros n' u. destruct (decide (n' = n)) as [->|Ne]; [rewrite lookup_insert_eq; by intros [= <-]|].
    rewrite lookup_insert_ne by done. apply Pe.
  - destruct (sy_pending y !! n) as [u|] eqn:Eu; [|by split].
    assert (Pe' : forall n' u', delete n (sy_pending y) !! n' = Some u' -> use_ok u').
    { intros n' u' [_ Hd]%lookup_delete_Some. by eapply Pe. }
    destruct (ConsumeUse (used_id u) (sy_store y)) as [s' x] eqn:E.
    apply consume_cases in E as [(-> & [e ->] & _)|(t & Et & Te & -> & Us & Ts)]; [by split|].
    assert (Gr' : Forall use_ok (u :: sy_granted y)) by (constructor; [by eapply Pe|done]).
    assert (Uu : forall id, uses id s' = if decide (used_id u = id) then wrap64 (uses id (sy_store y) + 1) else uses id (sy_store y)).
    { intros id. unfold uses. rewrite Us. destruct (decide (used_id u = id)) as [<-|Ne];
        [by rewrite lookup_insert_eq|by rewrite lookup_insert_ne by done]. }
    split; cbn [sy_store sy_granted sy_pending]; [| |done|done].
    + intros id t'. rewrite Ts. unfold limited. cbn [sy_store sy_granted]. rewrite Uu, uses_of_cons.
      destruct (decide (used_id u = id)) as [<-|Ne].
      * intros Ht' Pos.
        assert (G : tk_Grant t' = tk_Grant t).
        { case_match; [rewrite lookup_insert_eq in Ht'; by injection Ht' as <-|congruence]. }
        rewrite G in *. destruct (Kn _ _ Et Pos) as (B & U & L & Lt). specialize (Lt Te).
        assert (0 <= uses (used_id u) (sy_store y))%Z by (rewrite <- U; unfold uses_of; lia).
        rewrite wrap64_id in * by (unfold in_int64, int64_max, int64_min in *; apply andb_true_iff; split; apply Z.leb_le; lia).
        split_and!; [done|by rewrite U|lia|]. intros T'.
        destruct (Z.leb_spec (tg_MaxUses (tk_Grant t)) (uses (used_id u) (sy_store y) + 1)); [|lia].
        rewrite (proj2 (Z.ltb_lt _ _)) in Ht' by lia. cbn [andb] in Ht'. rewrite lookup_insert_eq in Ht'. by injection Ht' as <-.
      * rewrite Z.add_0_r. intros Ht'. apply Kn. case_match; [by rewrite lookup_insert_ne in Ht' by done|done].
    + intros id Hid. rewrite Ts in Hid. rewrite Uu, uses_of_cons. destruct (decide (used_id u = id)) as [<-|Ne].
      * case_match; [by rewrite lookup_insert_eq in Hid|congruence].
      * rewrite Z.add_0_r. apply Un. case_match; [by rewrite lookup_insert_ne in Hid by done|done].
Qed.

Lemma run_system_inv cs y : forallb call_ok cs = true -> system_inv y -> system_inv (run_calls cs y).
Proof.
  revert y. induction cs as [|c cs IH]; intros y; [done|]. cbn. intros [O1 O2]%andb_true_iff I.
  apply IH; [done|]. by apply perform_inv.
Qed.

Lemma fresh_inv : system_inv fresh_system.
Proof. by split. Qed.

(** ** Revocation is final *)

Definition ended (id : string) (y : System) : Prop :=
  exists t, ts_tokens (sy_store y) !! id = Some t /\ Terminal (tk_Status t) = true.

Lemma perform_ended id c y : ended id y -> ended id (perform c y) /\ uses_of id (sy_granted (perform c y)) = uses_of id (sy_granted y).
Proof.
  intros (t & Ht & Te). destruct c as [req random now|id' ref|n req now|n]; cbn [perform].
  - destruct (Mint _ _ _ _ _ _) as [s' x] eqn:E. split; [|done].
    apply mint_cases in E as [[-> _]|(entry & m & _ & _ & _ & Hn & -> & _)]; [by exists t|]. exists t. cbn in *.
    split; [|done]. rewrite lookup_insert_ne; [done|]. intros E. rewrite E in Hn. congruence.
  - split; [|done]. unfold RevokeToken. destruct (ts_tokens (sy_store y) !! id') as [t'|] eqn:E; [|by exists t]. unfold ended. cbn.
    destruct (decide (id = id')) as [->|Ne]; [rewrite lookup_insert_eq; by eauto|]. rewrite lookup_insert_ne by done. by exists t.
  - by destruct (check_token _ _ _ _ _); (split; [exists t|]).
  - destruct (sy_pending y !! n) as [u|]; [|by split; [exists t|]].
    destruct (ConsumeUse (used_id u) (sy_store y)) as [s' x] eqn:E.
    apply consume_cases in E as [(-> & [e ->] & _)|(t' & Et & Te' & -> & Us & Ts)]; [by split; [exists t|]|]. cbn.
    assert (Ne : used_id u <> id) by (intros E; rewrite E in Et; congruence). split.
    + exists t. cbn. rewrite Ts. split; [|done]. case_match; [by rewrite lookup_insert_ne by done|done].
    + rewrite uses_of_cons. destruct (decide (used_id u = id)); [done|lia].
Qed.

Lemma run_ended id cs y : ended id y -> uses_of id (sy_granted (run_calls cs y)) = uses_of id (sy_granted y).
Proof.
  revert y. induction cs as [|c cs IH]; intros y E; [done|]. destruct (perform_ended id c y E) as [E' U].
  change (run_calls (c :: cs) y) with (run_calls cs (perform c y)). by rewrite IH.
Qed.
End System.

(** ** The registry *)

Section RegistryProps.
Context `{Hash}.

(** Every entry is a valid manifest under its own identifier, with its hash. *)
Definition registry_ok (r : Registry) : Prop :=
  forall id e, r !! id = Some e ->
    mf_CapabilityID (en_Manifest e) = id /\ ValidateManifest (en_Manifest e) = Ok tt /\ HashManifest (en_Manifest e) = Ok (en_Hash e).

Lemma load_files_Ok files : forall reg r, registry_ok reg -> load_files files reg = Ok r ->
  registry_ok r /\ (forall id e, reg !! id = Some e -> r !! id = Some e) /\
  forall f d, (f, d) ∈ files -> exists m e, d = Ok (Ok m) /\ r !! mf_CapabilityID m = Some e /\ en_Manifest e = m /\ en_SourcePath e = f.
Proof.
  induction files as [|[f d] files IH]; intros reg r R; cbn [load_files].
  { intros [= <-]. split; [done|]. split; [done|]. intros f d Hin. by apply not_elem_of_nil in Hin. }
  intros (d' & ->%wrap_err_Ok & (m & ->%wrap_err_Ok & (u & V%wrap_err_Ok & E)%res_bind_Ok)%res_bind_Ok)%res_bind_Ok. destruct u.
  destruct (reg !! mf_CapabilityID m) eqn:Er; [done|]. apply res_bind_Ok in E as (h & Hh%wrap_err_Ok & E).
  apply IH in E as (R' & Keep & All).
  - split; [done|]. split.
    + intros id e He. apply Keep. unfold Registry in *. rewrite lookup_insert_ne; [done|]. intros <-. congruence.
    + intros f' d' [[= -> ->]|Hin]%elem_of_cons; [|by apply All]. exists m. eexists. split; [done|].
      split; [apply Keep, lookup_insert_eq|done].
  - intros id e. unfold Registry in *. destruct (decide (id = mf_CapabilityID m)) as [->|Ne]; [rewrite lookup_insert_eq; by intros [= <-]|].
    rewrite lookup_insert_ne by done. apply R.
Qed.
End RegistryProps.

Section OwnToken.
Context `{Hash} `{Ed25519}.
Lemma check_constraints_within (entry : Entry) (t : Token) (args : ctx) :
  let limits := tg_Constraints (tk_Grant t) in
  (tc_ArgsDigest limits = "" \/ HashArgs args = Ok (tc_ArgsDigest limits)) ->
  (tc_DataBoundaryCeiling limits = "" \/
   (boundaryRank (mf_DataBoundary (en_Manifest entry)) <= boundaryRank (tc_DataBoundaryCeiling limits))%Z) ->
  check_constraints entry t args = Ok tt.
Proof.
  intros limits Args Bound. unfold check_constraints. fold limits.
  assert (B : negb (String.eqb (tc_DataBoundaryCeiling limits) "")
     && (boundaryRank (tc_DataBoundaryCeiling limits) <? boundaryRank (mf_DataBoundary (en_Manifest entry)))%Z = false).
  { destruct Bound as [->|L]; [done|]. rewrite (proj2 (Z.ltb_ge _ _) L). apply andb_false_r. }
  rewrite B. destruct (String.eqb_spec (tc_ArgsDigest limits) ""); [done|]. destruct Args as [?|E]; [done|].
  rewrite E. cbn. by rewrite String.eqb_refl.
Qed.

(** A stored token passes the checks with its own task, capability and manifest revision. *)
Lemma check_token_own (pubHex : string) (registry : Registry) (t : Token) (args : ctx) (now : time) (s : InMemoryTokenStore)
    (entry : Entry) (m : bytes) :
  pubHex <> "" -> ValidateShape t = Ok tt -> token_preimage t = Ok m -> Verify pubHex (tk_Signature t) m = Ok true ->
  ts_tokens s !! tk_TokenID t = Some t -> tk_Status t = TokenStatusActive -> (now < tg_ExpiresAt (tk_Grant t))%Z ->
  Resolve (tr_CapabilityID (tk_CapabilityRef t)) registry = Some entry -> en_Hash entry = tr_ManifestHash (tk_CapabilityRef t) ->
  check_constraints entry t args = Ok tt ->
  check_token pubHex registry
    {| vr_Presented := Some t; vr_TaskID := tk_TaskID t; vr_CapabilityID := tr_CapabilityID (tk_CapabilityRef t);
       vr_ManifestHash := tr_ManifestHash (tk_CapabilityRef t); vr_Args := args |} now s = Ok t.
Proof.
  intros Hp Sh Hm V Hl St Live Er Eh Cs. unfold check_token. apply String.eqb_neq in Hp. rewrite Hp. cbn [vr_Presented].
  rewrite Sh, Hm. cbn [or_reject mbind res_bind]. rewrite V. unfold GetToken. rewrite Hl. cbn. rewrite Hm, bool_decide_true by done.
  assert (Task : String.eqb (tk_TaskID t) "" = false).
  { destruct (String.eqb (tk_TaskID t) "") eqn:E; [|done]. unfold ValidateShape, validateShape in Sh. rewrite E in Sh.
    do 2 apply res_bind_Ok in Sh as (? & _ & Sh). by apply res_bind_Ok in Sh as (? & ? & _). }
  unfold check_stored. cbn [vr_TaskID vr_CapabilityID vr_ManifestHash vr_Args]. rewrite St. cbn [Terminal].
  rewrite (proj2 (Z.ltb_lt _ _) Live), Task, !String.eqb_refl, Er, Eh, String.eqb_refl, Cs.
  cbn. by rewrite !andb_false_r.
Qed.
End OwnToken.


(** ** Rollback plans *)

Section PlanProps.
Context `{Hash}.

(** The steps of a plan lead back: they are ordered without ties and each acts by a registered capability. *)
Definition grounded (reg : Registry) (steps : list RollbackStep) : Prop :=
  NoDup (map rs_Order steps) /\ Forall (fun s => (1 <= rs_Order s)%Z /\ is_Some (Resolve (rs_ActionRef s) reg)) steps.

Lemma check_steps_Ok reg steps : forall i seen u, check_steps (Some reg) i seen steps = Ok u ->
  grounded reg steps /\ Forall (fun s => rs_Order s ∉ seen) steps.
Proof.
  induction steps as [|s steps IH]; intros i seen u; [intros _; split; [split|]; constructor|]. cbn [check_steps].
  intros (? & O%reject_Ok & (? & D%reject_Ok & (? & _ & (? & R%reject_Ok & E)%res_bind_Ok)%res_bind_Ok)%res_bind_Ok)%res_bind_Ok.
  apply IH in E as [[Nd F] Fr].
  assert (Rs : is_Some (Resolve (rs_ActionRef s) reg)) by (unfold resolves in R; destruct (Resolve _ reg); [by eexists|done]).
  assert (Ns : rs_Order s ∉ seen).
  { intros Hin. apply not_true_iff_false in D. apply D, existsb_Exists, Exists_exists. exists (rs_Order s). by rewrite Z.eqb_refl. }
  split; [split|].
  - cbn. constructor; [|done]. intros Hin. apply list_elem_of_In, in_map_iff in Hin as (s' & Es & Hin).
    rewrite Forall_forall in Fr. apply (Fr s'); [by apply list_elem_of_In|]. rewrite Es. apply list_elem_of_here.
  - constructor; [|done]. split; [lia|done].
  - constructor; [done|]. eapply Forall_impl; [exact Fr|]. cbn. intros s1 Nx Hin. apply Nx. by apply list_elem_of_further.
Qed.

Lemma load_plans_grounded reg files : forall store r,
  (forall ref e, store !! ref = Some e -> rp_Steps (pe_Plan e) <> [] /\ grounded reg (rp_Steps (pe_Plan e))) ->
  load_plans (Some reg) files store = Ok r ->
  forall ref e, r !! ref = Some e -> rp_Steps (pe_Plan e) <> [] /\ grounded reg (rp_Steps (pe_Plan e)).
Proof.
  induction files as [|[f d] files IH]; intros store r G; cbn [load_plans]; [by intros [= <-]|].
  intros (d' & _ & (p & _ & (u & V%wrap_err_Ok & E)%res_bind_Ok)%res_bind_Ok)%res_bind_Ok.
  destruct (store !! rp_PlanID p) eqn:Ep; [done|]. apply res_bind_Ok in E as (h & _ & E).
  refine (IH _ _ _ E). intros ref e. unfold RollbackPlanRegistry in *.
  destruct (decide (ref = rp_PlanID p)) as [->|Ne]; [|rewrite lookup_insert_ne by done; apply G].
  rewrite lookup_insert_eq. intros [= <-]. cbn. unfold ValidatePlan in V.
  do 6 apply res_bind_Ok in V as (? & _ & V).
  apply res_bind_Ok in V as (? & Ne%reject_Ok & (? & [C _]%check_steps_Ok & _)%res_bind_Ok). split; [|done].
  by apply bool_decide_eq_false in Ne.
Qed.

(** A plan that loads against a registry can be carried out: it has steps, their orders differ, and each acts by a
    capability of the registry. *)
Theorem rollback_plans_grounded (dir : string) (reg : Registry) (files : list (File RollbackPlan)) (store : RollbackPlanRegistry)
    (ref : string) (e : RollbackPlanEntry) :
  LoadRollbackDir dir (Some reg) files = Ok store -> ResolvePlan ref store = Some e ->
  rp_Steps (pe_Plan e) <> [] /\ grounded reg (rp_Steps (pe_Plan e)).
Proof.
  intros L. assert (E : load_plans (Some reg) files ∅ = Ok store) by (by destruct files).
  intros He. refine (load_plans_grounded _ _ _ _ _ E _ _ He). by intros ? ? ?.
Qed.
End PlanProps.

(** * Theorems *)

Section Theorems.
Context `{Hash} `{Ed25519}.

(** Loading is fail-closed and complete: a registry that loads has a valid manifest for every file, every entry
    stands under its own identifier with the hash of its canonical form, no two files define one capability,
    and an entry whose hash is the same in two registries has the same canonical manifest, or SHA-256 collides. *)
Theorem registry_pins_manifests (dir : string) (files : list (File Manifest)) (r : Registry) :
  LoadDir dir files = Ok r ->
  (forall f d, (f, d) ∈ files -> exists m e, d = Ok (Ok m) /\ Resolve (mf_CapabilityID m) r = Some e /\ en_Manifest e = m /\ en_SourcePath e = f) /\
  forall id e, Resolve id r = Some e ->
    mf_CapabilityID (en_Manifest e) = id /\ ValidateManifest (en_Manifest e) = Ok tt /\
    forall m, HashManifest m = Ok (en_Hash e) ->
      JCS_res (json_of_manifest m) = JCS_res (json_of_manifest (en_Manifest e)) \/ collision.
Proof.
  intros L. assert (E : load_files files ∅ = Ok r) by (by destruct files). clear L.
  apply load_files_Ok in E as (R & _ & All); [|by intros ? ? ?]. split; [done|]. intros id e He.
  destruct (R _ _ He) as (Hid & V & Hh). split; [done|]. split; [done|]. intros m Hm.
  unfold HashManifest, content_hash in Hm, Hh. apply res_bind_Ok in Hm as (b1 & E1 & [= E1']).
  apply res_bind_Ok in Hh as (b2 & E2 & [= E2']). rewrite E1, E2. rewrite <- E2' in E1'.
  apply (inj (String.append "sha256:")), hex_encode_inj in E1'. destruct (decide (b1 = b2)) as [->|Ne]; [by left|]. right. by exists b1, b2.
Qed.

(** C19. A token is worth no more than it says.  Over any interleaving of mints, revocations and concurrent verifications,
    in which other calls may come between the check and the consumption of a verification: every use that is granted was of
    a token whose signature verified and whose signed payload is the stored one, active and not expired when it
    was read, for its own task, capability and the manifest revision still registered, within its argument digest
    and data boundary; a token with a limit is used at most that many times; and once a token is revoked it is
    never used again, not even by a verification that had already passed its checks. *)
Theorem token_uses_bounded (signer : Ed25519Signer) (registry : Registry) (cs1 cs2 : list call) (id ref : string) :
  forallb call_ok cs1 = true ->
  let y := run_calls signer registry cs1 fresh_system in
  Forall (use_ok signer registry) (sy_granted y) /\
  (forall t, ts_tokens (sy_store y) !! id = Some t -> (0 < tg_MaxUses (tk_Grant t))%Z ->
     (uses_of id (sy_granted y) <= tg_MaxUses (tk_Grant t))%Z) /\
  (is_Some (ts_tokens (sy_store y) !! id) ->
     uses_of id (sy_granted (run_calls signer registry (CRevoke id ref :: cs2) y)) = uses_of id (sy_granted y)).
Proof.
  intros Ok y. destruct (run_system_inv signer registry cs1 fresh_system Ok (fresh_inv _ _)) as [Kn _ _ Gr]. split; [done|]. split.
  - intros t Ht Pos. destruct (Kn _ _ Ht Pos) as (_ & E & L & _). unfold y. by rewrite E.
  - intros [t Ht]. fold y in Ht.
    change (run_calls signer registry (CRevoke id ref :: cs2) y) with (run_calls signer registry cs2 (perform signer registry (CRevoke id ref) y)).
    rewrite run_ended; [done|]. cbn [perform]. unfold RevokeToken. rewrite Ht. eexists. cbn. rewrite lookup_insert_eq. done.
Qed.

(** C20. What the authority mints, the verifier accepts: a minted token, presented before it expires with its own task,
    capability and manifest hash to a verifier with the authority's public key over the same registry and store,
    verifies and is returned, if the arguments have the digest it asks for and the capability stays within its data
    boundary. *)
Theorem minted_token_verifies `{!Ed25519Laws} (priv : bytes) (keyID dir : string) (files : list (File Manifest))
    (registry : Registry) (req : MintRequest) (random : bytes) (now now' : time) (s s' : InMemoryTokenStore) (t : Token) (args : ctx) :
  LoadDir dir files = Ok registry ->
  Mint (NewEd25519SignerFromKey priv keyID) registry req random now s = (s', Ok t) ->
  (now' < tg_ExpiresAt (tk_Grant t))%Z ->
  (tc_ArgsDigest (mr_Constraints req) = "" \/ HashArgs args = Ok (tc_ArgsDigest (mr_Constraints req))) ->
  (forall e, Resolve (mr_CapabilityID req) registry = Some e -> tc_DataBoundaryCeiling (mr_Constraints req) = "" \/
     (boundaryRank (mf_DataBoundary (en_Manifest e)) <= boundaryRank (tc_DataBoundaryCeiling (mr_Constraints req)))%Z) ->
  exists s'', VerifyToken (PublicKey (NewEd25519SignerFromKey priv keyID)) registry
    {| vr_Presented := Some t; vr_TaskID := mr_TaskID req; vr_CapabilityID := mr_CapabilityID req;
       vr_ManifestHash := tr_ManifestHash (tk_CapabilityRef t); vr_Args := args |} now' s' = (s'', Ok t).
Proof.
  intros L M Live Args Bound. assert (E : load_files files ∅ = Ok registry) by (by destruct files). clear L.
  apply load_files_Ok in E as (R & _ & _); [|by intros ? ? ?].
  apply mint_cases in M as [[_ [e ?]]|(entry & m & Er & Hm & Sh & _ & -> & [= ->])]; [done|].
  destruct (R _ _ Er) as (Hid & _ & _). specialize (Bound _ Er).
  set (t := (minted entry req random now) <| tk_Signature := _ |>) in *.
  assert (V : Verify (PublicKey (NewEd25519SignerFromKey priv keyID)) (tk_Signature t) m = Ok true) by apply (verify_own priv keyID m).
  set (s' := s <| ts_tokens := <[tk_TokenID t := t]> (ts_tokens s) |>).
  assert (Hl : ts_tokens s' !! tk_TokenID t = Some t) by apply lookup_insert_eq.
  assert (Cs : check_constraints entry t args = Ok tt) by by apply check_constraints_within.
  assert (Hp : PublicKey (NewEd25519SignerFromKey priv keyID) <> "") by (intros E; rewrite E in V; unfold Verify in V; by destruct (hex_decode (tk_Signature t))).
  rewrite <- Hid in Er |- *.
  pose proof (check_token_own (PublicKey (NewEd25519SignerFromKey priv keyID)) registry t args now' s' entry m
    Hp Sh Hm V Hl eq_refl Live Er eq_refl Cs) as C.
  unfold VerifyToken, mbind, M_bind, lift. change (mr_TaskID req) with (tk_TaskID t).
  change (mf_CapabilityID (en_Manifest entry)) with (tr_CapabilityID (tk_CapabilityRef t)). rewrite C.
  change (default "" _) with (tk_TokenID t). unfold ConsumeUse. rewrite Hl. eexists. reflexivity.
Qed.
End Theorems.

(** * An instance *)

Module CapabilityDemo.
#[local] Instance toy_hash : Hash := fun b => (repeat (byte 0) 31 ++ [byte (length b mod 256)])%list.
#[local] Existing Instance toy_ed25519.
#[local] Existing Instance toy_ed25519_laws.

Definition read_file : Manifest := {|
  mf_SchemaVersion := SchemaVersion; mf_CapabilityID := "helm.cap.fs.read"; mf_Name := "Read"; mf_Version := "1.0.0";
  mf_Description := ""; mf_Protocol := "mcp";
  mf_Binding := {| bd_Kind := "mcp_tool"; bd_Ref := "fs/read"; bd_ParametersSchema := ∅ |};
  mf_EffectClass := EffectReadOnly; mf_Reversibility := ReversibilityNone; mf_DataBoundary := BoundaryDevice; mf_RiskScore := 10;
  mf_RequiredPermitLevel := "none"; mf_Rollback := {| rb_Required := false; rb_PlanRef := "" |};
  mf_Receipts := {| rq_Required := true; rq_SchemaRefs := [] |};
  mf_MemoryAccess := {| ma_UserDomain := "none"; ma_AgentDomain := "read"; ma_CrossDomainRead := false |};
  mf_MinModelTier := ""; mf_Metadata := {| md_Homepage := ""; md_License := ""; md_SourcePackHash := ""; md_CertifiedBy := ""; md_CertifiedAt := "" |} |}.

Definition files : list (File Manifest) := [("fs.json", Ok (Ok read_file))].
Definition entry : Entry := {| en_Manifest := read_file; en_Hash := match HashManifest read_file with Ok h => h | Fail _ => "" end; en_SourcePath := "fs.json" |}.
Definition registry : Registry := <["helm.cap.fs.read" := entry]> ∅.

Definition signer : Ed25519Signer := NewEd25519SignerFromKey [] "k1".
Definition ask (n : Z) : MintRequest := {|
  mr_TaskID := "task-1"; mr_Subject := {| tb_AgentID := "agent"; tb_SessionID := ""; tb_DeviceID := "" |};
  mr_CapabilityID := "helm.cap.fs.read"; mr_TTL := 0; mr_MaxUses := n;
  mr_Constraints := {| tc_ArgsDigest := ""; tc_DataBoundaryCeiling := BoundaryOrg |} |}.
Definition drawn : bytes := repeat (byte 7) 16.
Definition tok : string := "tok_" +:+ hex_encode drawn.
Definition token (n : Z) : Token := (minted entry (ask n) drawn second) <| tk_Signature := hex_encode (repeat (byte 0) 64) |>.
Definition present (n : Z) : VerifyRequest := {|
  vr_Presented := Some (token n); vr_TaskID := "task-1"; vr_CapabilityID := "helm.cap.fs.read"; vr_ManifestHash := "";
  vr_Args := None |}.

(** Four verifications of a token for two uses pass their checks together, and two are granted. *)
Definition race : list call :=
  [CMint (ask 2) drawn second; CCheck 1 (present 2) (2 * second); CCheck 2 (present 2) (2 * second);
   CCheck 3 (present 2) (2 * second); CCheck 4 (present 2) (2 * second); CConsume 3; CConsume 1; CConsume 2; CConsume 4].

Lemma race_grants_two : uses_of tok (sy_granted (run_calls signer registry race fresh_system)) = 2%Z.
Proof. vm_compute. reflexivity. Qed.

Lemma registry_loads : LoadDir "caps" files = Ok registry.
Proof. vm_compute. reflexivity. Qed.

Lemma registry_pins_manifests_witness :
  LoadDir "caps" files = Ok registry /\ Resolve "helm.cap.fs.read" registry = Some entry /\
  (forall m, HashManifest m = Ok (en_Hash entry) ->
     JCS_res (json_of_manifest m) = JCS_res (json_of_manifest read_file) \/ collision).
Proof.
  split; [exact registry_loads|]. split; [vm_compute; reflexivity|]. intros m Hm.
  destruct (registry_pins_manifests "caps" files registry registry_loads) as [_ P].
  assert (E : Resolve "helm.cap.fs.read" registry = Some entry) by (vm_compute; reflexivity).
  destruct (P _ _ E) as (_ & _ & Pin). exact (Pin m Hm).
Defined.

Lemma token_uses_bounded_witness :
  forallb call_ok race = true /\ ts_tokens (sy_store (run_calls signer registry race fresh_system)) !! tok
    = Some ((token 2) <| tk_Status := TokenStatusUsedUp |>) /\
  (uses_of tok (sy_granted (run_calls signer registry race fresh_system)) <= 2)%Z.
Proof.
  assert (O : forallb call_ok race = true) by reflexivity.
  assert (T : ts_tokens (sy_store (run_calls signer registry race fresh_system)) !! tok
    = Some ((token 2) <| tk_Status := TokenStatusUsedUp |>)) by (vm_compute; reflexivity).
  split; [exact O|]. split; [exact T|].
  destruct (token_uses_bounded signer registry race [] tok "" O) as (_ & B & _). exact (B _ T eq_refl).
Defined.

Lemma mint_succeeds : Mint (NewEd25519SignerFromKey [] "k1") registry (ask 2) drawn second NewInMemoryTokenStore
  = ({| ts_tokens := {[tok := token 2]}; ts_uses := ∅ |}, Ok (token 2)).
Proof. vm_compute. reflexivity. Qed.

Lemma minted_token_verifies_witness :
  exists s'', VerifyToken (PublicKey (NewEd25519SignerFromKey [] "k1")) registry
    {| vr_Presented := Some (token 2); vr_TaskID := "task-1"; vr_CapabilityID := "helm.cap.fs.read";
       vr_ManifestHash := en_Hash entry; vr_Args := None |} (2 * second) {| ts_tokens := {[tok := token 2]}; ts_uses := ∅ |}
    = (s'', Ok (token 2)).
Proof.
  apply (minted_token_verifies [] "k1" "caps" files registry (ask 2) drawn second (2 * second) _ _ _ None registry_loads mint_succeeds).
  - vm_compute. reflexivity.
  - left. reflexivity.
  - intros e He. right. vm_compute in He. injection He as <-. vm_compute. discriminate.
Defined.
End CapabilityDemo.
