(* ===== verification/PolicyScopes.v ===== *)
(** Policy scopes, [core/pkg/policy/reconcile] (reconcile.go): the tenant and workspace a policy is for, their
    defaults and the key the snapshot stores use. *)
From S2P Require Import Prelude GoLib.

Local Open Scope string_scope.

Record PolicyScope := { TenantID : string; WorkspaceID : string }.
#[export] Instance PolicyScope_eq_dec : EqDecision PolicyScope.
Proof. solve_decision. Defined.

Definition DefaultScope : PolicyScope := {| TenantID := "default"; WorkspaceID := "default" |}.

Definition Normalize (s : PolicyScope) : PolicyScope := {|
  TenantID := if blank (TenantID s) then TenantID DefaultScope else TenantID s;
  WorkspaceID := if blank (WorkspaceID s) then WorkspaceID DefaultScope else WorkspaceID s |}.

Definition Key (s : PolicyScope) : string :=
  let s := Normalize s in TenantID s +:+ "/" +:+ WorkspaceID s.

Definition StatusActive := "active".

Lemma Normalize_idemp s : Normalize (Normalize s) = Normalize s.
Proof.
  destruct s as [t w]. unfold Normalize. cbn [TenantID WorkspaceID DefaultScope].
  destruct (blank t) eqn:Et, (blank w) eqn:Ew; rewrite ?Et, ?Ew; reflexivity.
Qed.
Lemma Key_Normalize s : Key (Normalize s) = Key s.
Proof. unfold Key. by rewrite Normalize_idemp. Qed.
