(* ===== verification/Cpi.v ===== *)
(** The canonical policy index, [core/pkg/kernel/cpi/cpi.go]: validation of a stack of policy
    layers, by priority, for rules of a lower layer that widen a denial of a higher one.

    The layers are given as [json.Unmarshal] reads them from the caller's bytes, or its
    error; results are given as values, next to the JSON their hashes are computed from.
    [sort.Slice] is not stable in general; the theorems are about layers of different
    priorities, which have one order. *)
From Stdlib Require Import Ascii Sorted.
From S2P Require Import Prelude GoLib Utf8 Jcs Contracts.

Local Open Scope string_scope.

Definition VerdictConsistent := "CONSISTENT".
Definition VerdictConflict := "CONFLICT".
Definition VerdictInvalid := "INVALID".

Record PolicyRule := {
  pl_ID : string;
  pl_Action : string;
  pl_Verdict : string;
  pl_Reason : string;
  pl_Conditions : list string;
}.

Record PolicyLayer := {
  py_Name : string;
  py_Priority : Z;
  py_Rules : option (list PolicyRule);
  py_Hash : string;
  py_Metadata : gmap string string;
}.

(** The rules of a layer, whose slice may be nil. *)
Definition rules_of (l : PolicyLayer) : list PolicyRule := default [] (py_Rules l).

Record Conflict := {
  cf_LayerA : string;
  cf_LayerB : string;
  cf_RuleA : string;
  cf_RuleB : string;
  cf_Action : string;
  cf_Detail : string;
}.

Record LayerSummary := { lsm_Name : string; lsm_RuleCount : Z; lsm_Hash : string }.

Record ValidationResult := {
  vr_Verdict : string;
  vr_Hash : string;
  vr_Conflicts : list Conflict;
  vr_Layers : list LayerSummary;
}.

(** [a[len(a)-1] == '*'] with the text before it, for [len(a) > 1] *)
Definition glob_prefix (a : string) : option bytes :=
  match rev (to_bytes a) with
  | "*"%char :: c :: p => Some (rev (c :: p))
  | _ => None
  end.

Definition covers (a b : string) : bool :=
  match glob_prefix a with
  | Some prefix => match strip_prefix prefix (to_bytes b) with Some _ => true | None => false end
  | None => false
  end.

Definition actionsOverlap (a b : string) : bool :=
  String.eqb a "*" || String.eqb b "*" || String.eqb a b || covers a b || covers b a.

Definition rule_conflict (higher lower : PolicyLayer) (hr lr : PolicyRule) : list Conflict :=
  if negb (actionsOverlap (pl_Action hr) (pl_Action lr)) then []
  else if String.eqb (pl_Verdict hr) "DENY" && String.eqb (pl_Verdict lr) "ALLOW" then
    [{| cf_LayerA := py_Name higher; cf_LayerB := py_Name lower; cf_RuleA := pl_ID hr; cf_RuleB := pl_ID lr;
        cf_Action := pl_Action hr;
        cf_Detail := "lower-priority layer " +:+ goq (py_Name lower) +:+ " attempts to ALLOW action "
          +:+ goq (pl_Action lr) +:+ " that higher-priority layer " +:+ goq (py_Name higher) +:+ " DENYs" |}]
  else [].

Definition detectConflicts (higher lower : PolicyLayer) : list Conflict :=
  flat_map (fun hr => flat_map (rule_conflict higher lower hr) (rules_of lower)) (rules_of higher).

(** The pairs of the two nested loops. *)
Fixpoint all_conflicts (layers : list PolicyLayer) : list Conflict :=
  match layers with
  | [] => []
  | l :: layers => (flat_map (detectConflicts l) layers ++ all_conflicts layers)%list
  end.

Fixpoint insert_layer (l : PolicyLayer) (ls : list PolicyLayer) : list PolicyLayer :=
  match ls with
  | [] => [l]
  | l' :: ls' => if (py_Priority l' <=? py_Priority l)%Z then l' :: insert_layer l ls' else l :: ls
  end.
Definition sort_layers (ls : list PolicyLayer) : list PolicyLayer := fold_left (fun acc l => insert_layer l acc) ls [].

Definition json_of_rule (r : PolicyRule) : json :=
  JObj ([("id", JStr (pl_ID r)); ("action", JStr (pl_Action r)); ("verdict", JStr (pl_Verdict r)); ("reason", JStr (pl_Reason r))]
        ++ opt_field (bool_decide (pl_Conditions r = [])) "conditions" (JArr (map JStr (pl_Conditions r)))).

Definition json_of_conflict (c : Conflict) : json :=
  JObj [("layer_a", JStr (cf_LayerA c)); ("layer_b", JStr (cf_LayerB c)); ("rule_a", JStr (cf_RuleA c));
        ("rule_b", JStr (cf_RuleB c)); ("action", JStr (cf_Action c)); ("detail", JStr (cf_Detail c))].
Definition json_of_summary (s : LayerSummary) : json :=
  JObj [("name", JStr (lsm_Name s)); ("rule_count", JNum (dec (lsm_RuleCount s))); ("hash", JStr (lsm_Hash s))].

(** A slice that may be nil. *)
Definition slice {A} (f : A -> json) (l : option (list A)) : json :=
  match l with None => JNull | Some l => JArr (map f l) end.

Definition json_of_layer (l : PolicyLayer) : json :=
  JObj ([("name", JStr (py_Name l)); ("priority", JNum (dec (py_Priority l))); ("rules", slice json_of_rule (py_Rules l));
         ("hash", JStr (py_Hash l))]
        ++ opt_field (bool_decide (py_Metadata l = ∅)) "metadata"
             (JObj (sort_by string_lt (map (fun kv => (kv.1, JStr kv.2)) (map_to_list (py_Metadata l)))))).

Section Validate.
Context `{Hash}.

Definition hashBytes (data : bytes) : string := hex_encode (sha256 data).

Definition computeLayerHash (l : PolicyLayer) : string :=
  hashBytes (json_marshal (JObj [("name", JStr (py_Name l)); ("priority", JNum (dec (py_Priority l)));
                                 ("rules", slice json_of_rule (py_Rules l))])).
Definition computeResultHash (verdict : string) (conflicts : list Conflict) (layers : list LayerSummary) : string :=
  hashBytes (json_marshal (JObj [("verdict", JStr verdict); ("conflicts", slice json_of_conflict (match conflicts with [] => None | _ => Some conflicts end));
                                 ("layers", JArr (map json_of_summary layers))])).

Definition ErrInvalidInput := "cpi: invalid input".

(** [None] for no facts. *)
Definition Validate (facts : option (res (list PolicyLayer))) : res ValidationResult :=
  match facts with
  | None => Ok {| vr_Verdict := VerdictConsistent; vr_Hash := hashBytes (to_bytes "empty"); vr_Conflicts := []; vr_Layers := [] |}
  | Some (Fail e) => Fail (ErrInvalidInput +:+ ": " +:+ e)
  | Some (Ok layers) =>
      let layers := sort_layers layers in
      let conflicts := all_conflicts layers in
      let verdict := match conflicts with [] => VerdictConsistent | _ => VerdictConflict end in
      let summaries := map (fun l => {| lsm_Name := py_Name l; lsm_RuleCount := Z.of_nat (length (rules_of l));
                                        lsm_Hash := computeLayerHash l |}) layers in
      Ok {| vr_Verdict := verdict; vr_Hash := computeResultHash verdict conflicts summaries;
            vr_Conflicts := conflicts; vr_Layers := summaries |}
  end.

Record CompiledBundle := { bn_Layers : list PolicyLayer; bn_Hash : string }.

Definition computeBundleHash (layers : list PolicyLayer) : string :=
  hashBytes (json_marshal (JArr (map json_of_layer layers))).

Definition check_rule (layer : PolicyLayer) (j : nat) (rule : PolicyRule) : res unit :=
  let err t := Fail (ErrInvalidInput +:+ ": layer " +:+ goq (py_Name layer) +:+ t) in
  if String.eqb (pl_ID rule) "" then err (" rule " +:+ dec (Z.of_nat j) +:+ " missing ID")
  else if String.eqb (pl_Action rule) "" then err (" rule " +:+ goq (pl_ID rule) +:+ " missing action")
  else if existsb (String.eqb (pl_Verdict rule)) ["ALLOW"; "DENY"; "ESCALATE"] then Ok tt
  else err (" rule " +:+ goq (pl_ID rule) +:+ " invalid verdict " +:+ goq (pl_Verdict rule)).

Fixpoint check_rules (layer : PolicyLayer) (j : nat) (rules : list PolicyRule) : res unit :=
  match rules with
  | [] => Ok tt
  | r :: rules => _ ← check_rule layer j r; check_rules layer (S j) rules
  end.

Fixpoint compile_layers (i : nat) (layers : list PolicyLayer) : res (list PolicyLayer) :=
  match layers with
  | [] => Ok []
  | l :: layers =>
      if String.eqb (py_Name l) "" then Fail (ErrInvalidInput +:+ ": layer " +:+ dec (Z.of_nat i) +:+ " missing name")
      else
        _ ← check_rules l 0 (rules_of l);
        ls ← compile_layers (S i) layers;
        Ok ({| py_Name := py_Name l; py_Priority := py_Priority l; py_Rules := py_Rules l; py_Hash := computeLayerHash l;
               py_Metadata := py_Metadata l |} :: ls)
  end.

Definition Compile (source : option (res (list PolicyLayer))) : res CompiledBundle :=
  match source with
  | None => Fail (ErrInvalidInput +:+ ": empty source")
  | Some (Fail e) => Fail (ErrInvalidInput +:+ ": " +:+ e)
  | Some (Ok layers) =>
      layers ← compile_layers 0 layers;
      Ok {| bn_Layers := layers; bn_Hash := computeBundleHash layers |}
  end.
End Validate.

(** * What validation establishes *)

(** The effects a pattern stands for: all of them for a star, those with the prefix for a pattern that
    ends in one, otherwise the one it names. *)
Definition matches (pattern effect : string) : Prop :=
  pattern = "*" \/ pattern = effect \/
  exists p r, glob_prefix pattern = Some p /\ to_bytes effect = (p ++ r)%list.

Lemma glob_prefix_spec a p : glob_prefix a = Some p -> to_bytes a = (p ++ ["*"%char])%list.
Proof.
  unfold glob_prefix. destruct (rev (to_bytes a)) as [|c l] eqn:E; [done|]. intros Hp.
  assert (c = "*"%char /\ p = rev l /\ l <> []) as (-> & -> & _).
  { destruct c as [[] [] [] [] [] [] [] []]; try discriminate; destruct l; try discriminate; injection Hp as <-; done. }
  rewrite <- (rev_involutive (to_bytes a)), E. done.
Qed.

Lemma covers_spec a b : covers a b = true <-> exists p r, glob_prefix a = Some p /\ to_bytes b = (p ++ r)%list.
Proof.
  unfold covers. destruct (glob_prefix a) as [p|]; [|split; [done|by intros (? & ? & ? & _)]]. split.
  - destruct (strip_prefix p (to_bytes b)) as [r|] eqn:E; [|done]. intros _. exists p, r. split; [done|by apply strip_prefix_app].
  - intros (p' & r & [= <-] & ->). by rewrite strip_prefix_of_app.
Qed.

Lemma prefixes_comparable {A} (p q r s : list A) : (p ++ r = q ++ s)%list ->
  (exists t, q = (p ++ t)%list) \/ (exists t, p = (q ++ t)%list).
Proof.
  revert q. induction p as [|x p IH]; intros q E; [left; by exists q|]. destruct q as [|y q]; [right; by exists (x :: p)|].
  injection E as -> E. destruct (IH q E) as [[t ->]|[t ->]]; [left|right]; by exists t.
Qed.

Lemma overlap_spec (a b : string) :
  actionsOverlap a b = true <-> exists effect, matches a effect /\ matches b effect.
Proof.
  unfold actionsOverlap. rewrite !orb_true_iff, !String.eqb_eq, !covers_spec. split.
  - intros [[[[->| ->]| ->]|C]|C].
    + exists b. split; [by left|by right; left].
    + exists a. split; [by right; left|by left].
    + exists b. split; by right; left.
    + exists b. split; [by right; right|by right; left].
    + exists a. split; [by right; left|by right; right].
  - intros (x & [->|[->|(p & r & Ga & Ex)]] & [->|[->|(q & s & Gb & Ey)]]); auto 6.
    + right. by exists q, s.
    + left; right. by exists p, r.
    + rewrite Ex in Ey. destruct (prefixes_comparable _ _ _ _ Ey) as [[t ->]|[t ->]].
      * left; right. exists p, (t ++ ["*"%char])%list. split; [done|]. by rewrite (glob_prefix_spec _ _ Gb), <- app_assoc.
      * right. exists q, (t ++ ["*"%char])%list. split; [done|]. by rewrite (glob_prefix_spec _ _ Ga), <- app_assoc.
Qed.

(** Two action patterns are reported as overlapping exactly when there is an effect that both stand
    for. *)
Theorem actions_overlap_exact (a b : string) :
  actionsOverlap a b = true <-> exists effect, matches a effect /\ matches b effect.
Proof. apply overlap_spec. Qed.

(** A rule of the lower layer allows an effect that a rule of the higher one denies. *)
Definition widens (higher lower : PolicyLayer) : Prop :=
  exists hr lr effect, hr ∈ rules_of higher /\ lr ∈ rules_of lower /\ pl_Verdict hr = "DENY" /\ pl_Verdict lr = "ALLOW" /\
    matches (pl_Action hr) effect /\ matches (pl_Action lr) effect.

Lemma flat_map_nil {A B} (f : A -> list B) l : flat_map f l = [] <-> forall x, x ∈ l -> f x = [].
Proof.
  induction l as [|x l IH]; cbn; [split; [by intros _ ? ?%not_elem_of_nil|done]|]. rewrite app_nil. rewrite IH.
  setoid_rewrite elem_of_cons. naive_solver.
Qed.

Lemma detect_nil higher lower : detectConflicts higher lower = [] <-> ~ widens higher lower.
Proof.
  unfold detectConflicts, widens. rewrite flat_map_nil. setoid_rewrite flat_map_nil. split.
  - intros N (hr & lr & x & Hh & Hl & Vh & Vl & Mh & Ml). specialize (N hr Hh lr Hl). unfold rule_conflict in N.
    rewrite (proj2 (overlap_spec _ _)) in N by eauto. by rewrite Vh, Vl in N.
  - intros N hr Hh lr Hl. unfold rule_conflict. destruct (actionsOverlap _ _) eqn:O; [|done]. cbn [negb].
    destruct (String.eqb_spec (pl_Verdict hr) "DENY") as [Vh|]; [|done]. destruct (String.eqb_spec (pl_Verdict lr) "ALLOW") as [Vl|]; [|done].
    destruct N. apply overlap_spec in O as (x & ? & ?). by exists hr, lr, x.
Qed.

Definition above (a b : PolicyLayer) : Prop := (py_Priority a <= py_Priority b)%Z.

Lemma insert_layer_perm l ls : insert_layer l ls ≡ₚ l :: ls.
Proof. induction ls as [|l' ls IH]; [done|]. cbn. case_match; [|done]. rewrite IH. constructor. Qed.

Lemma insert_layer_sorted l ls : StronglySorted above ls -> StronglySorted above (insert_layer l ls).
Proof.
  induction 1 as [|l' ls S IH F]; [by repeat constructor|]. cbn. destruct (Z.leb_spec (py_Priority l') (py_Priority l)) as [L|L].
  - constructor; [done|]. rewrite insert_layer_perm. by constructor.
  - constructor; [by constructor|]. constructor; [unfold above; lia|]. eapply Forall_impl; [exact F|]. unfold above. cbn. lia.
Qed.

Lemma sort_layers_spec ls : sort_layers ls ≡ₚ ls /\ StronglySorted above (sort_layers ls).
Proof.
  unfold sort_layers. assert (G : forall acc, StronglySorted above acc ->
    fold_left (fun acc l => insert_layer l acc) ls acc ≡ₚ ls ++ acc /\
    StronglySorted above (fold_left (fun acc l => insert_layer l acc) ls acc)).
  { induction ls as [|l ls IH]; intros acc S; [done|]. cbn [fold_left]. destruct (IH (insert_layer l acc)) as [P Q]; [by apply insert_layer_sorted|].
    split; [|done]. rewrite P, insert_layer_perm. symmetry. apply Permutation_middle. }
  destruct (G [] ltac:(constructor)) as [P Q]. by rewrite app_nil_r in P.
Qed.

Lemma all_conflicts_spec ls : StronglySorted above ls -> NoDup (map py_Priority ls) ->
  all_conflicts ls = [] <-> forall a b, a ∈ ls -> b ∈ ls -> (py_Priority a < py_Priority b)%Z -> ~ widens a b.
Proof.
  induction 1 as [|l ls S IH F]; [intros _; split; [by intros _ ? ? ?%not_elem_of_nil|done]|].
  cbn [map all_conflicts]. intros [Hl Hnd]%NoDup_cons. rewrite app_nil, flat_map_nil, IH by done. setoid_rewrite detect_nil.
  rewrite Forall_forall in F.
  assert (Lt : forall b, b ∈ ls -> (py_Priority l < py_Priority b)%Z).
  { intros b Hb. specialize (F b Hb). unfold above in F. destruct (Z.eq_dec (py_Priority l) (py_Priority b)) as [E|]; [|lia].
    destruct Hl. rewrite E. by apply list_elem_of_fmap_2. }
  setoid_rewrite elem_of_cons. split.
  - intros [H1 H2] a b [->|Ha] [->|Hb] Hab; [lia|by apply H1|specialize (Lt a Ha); lia|by apply H2].
  - intros G. split; [intros b Hb; apply G; auto|intros a b Ha Hb; apply G; auto].
Qed.

(** A stack of layers with different priorities is validated as CONSISTENT exactly when no layer
    allows an effect that a layer of higher priority denies: a ceiling is never widened further down. *)
Theorem validate_exact `{Hash} (layers : list PolicyLayer) :
  NoDup (map py_Priority layers) ->
  exists r, Validate (Some (Ok layers)) = Ok r /\
    (vr_Verdict r = VerdictConsistent <->
     forall higher lower, higher ∈ layers -> lower ∈ layers -> (py_Priority higher < py_Priority lower)%Z ->
       ~ widens higher lower).
Proof.
  intros Hnd. destruct (sort_layers_spec layers) as [P S]. eexists. split; [reflexivity|]. cbn [vr_Verdict].
  assert (Hnd' : NoDup (map py_Priority (sort_layers layers))).
  { rewrite (Permutation_map py_Priority P). exact Hnd. }
  pose proof (all_conflicts_spec _ S Hnd') as A.
  assert (Hin : forall a, a ∈ sort_layers layers <-> a ∈ layers) by (intros a; by rewrite P). setoid_rewrite Hin in A.
  destruct (all_conflicts (sort_layers layers)) as [|c cs]; rewrite <- A; done.
Qed.

(** [Validate] does not look at ESCALATE: a layer that allows an effect which a layer of higher priority
    wants escalated to a human is found consistent with it. *)
Theorem escalation_may_be_widened `{Hash} (higher lower : PolicyLayer) :
  Forall (fun r => pl_Verdict r = "ESCALATE") (rules_of higher) ->
  (py_Priority higher < py_Priority lower)%Z ->
  exists r, Validate (Some (Ok [higher; lower])) = Ok r /\ vr_Verdict r = VerdictConsistent.
Proof.
  intros Fe Hp. eexists. split; [reflexivity|]. cbn [vr_Verdict].
  assert (E : sort_layers [higher; lower] = [higher; lower]).
  { cbn. destruct (Z.leb_spec (py_Priority higher) (py_Priority lower)); [done|lia]. }
  rewrite E. cbn. rewrite !app_nil_r. rewrite (proj2 (detect_nil higher lower)); [done|].
  intros (hr & lr & x & Hh & _ & Vh & _). rewrite Forall_forall in Fe. by rewrite (Fe _ Hh) in Vh.
Qed.

Module CpiDemo.

Definition rule (id action verdict : string) : PolicyRule := {|
  pl_ID := id; pl_Action := action; pl_Verdict := verdict; pl_Reason := ""; pl_Conditions := [] |}.
Definition layer (name : string) (priority : Z) (rules : list PolicyRule) : PolicyLayer := {|
  py_Name := name; py_Priority := priority; py_Rules := Some rules; py_Hash := ""; py_Metadata := ∅ |}.
Definition p0 := layer "P0" 0 [rule "r0" "write.*" "DENY"; rule "r1" "pay" "ESCALATE"].
Definition p1 := layer "P1" 1 [rule "r2" "read.*" "ALLOW"; rule "r3" "write.file" "ALLOW"].

#[local] Instance zero_hash : Hash := fun _ => [].

Example overlaps :
  (actionsOverlap "write.*" "write.file", actionsOverlap "write.f*" "write.*", actionsOverlap "read" "write.*",
   actionsOverlap "read.*" "read", match Validate (Some (Ok [p1; p0])) with Ok r => map cf_RuleB (vr_Conflicts r) | _ => [] end)
  = (true, true, false, false, ["r3"]).
Proof. vm_compute. reflexivity. Qed.

Lemma validate_exact_witness :
  exists r, Validate (Some (Ok [p1; p0])) = Ok r /\
    (vr_Verdict r = VerdictConsistent <->
     forall higher lower, higher ∈ [p1; p0] -> lower ∈ [p1; p0] -> (py_Priority higher < py_Priority lower)%Z ->
       ~ widens higher lower).
Proof. apply (validate_exact [p1; p0]). apply (bool_decide_unpack _). vm_compute. exact I. Defined.

Lemma escalation_may_be_widened_witness :
  exists r, Validate (Some (Ok [layer "P0" 0 [rule "r1" "pay" "ESCALATE"]; layer "P1" 1 [rule "r4" "pay" "ALLOW"]])) = Ok r /\
    vr_Verdict r = VerdictConsistent.
Proof. apply escalation_may_be_widened; [repeat constructor|reflexivity]. Defined.
End CpiDemo.
