(* ===== verification/Reconcile.v ===== *)
(** The policy reconciler, [core/pkg/policy/reconcile] (reconcile.go,
    persistent_store.go): the authority boundary that verifies a policy head, loads, compiles and
    validates the policy bytes it names and swaps the snapshot the runtime decides under; the
    in-memory snapshot store, and the persistent one that keeps a replay watermark per scope.

    The policy source, compiler, signature and capsule verifiers and the clock act on an external
    state [Ext]; the store is a state of its own behind the interface [SnapshotStore].  The two
    payloads of a snapshot that the reconciler only carries, the requirement graph and the
    decision point, are type parameters.  [ctx] never expires.  The mounted-file and HTTP sources
    are input and output, instances of [PolicySource] not modelled here. *)
From Stdlib Require Import Ascii.
From S2P Require Import Prelude GoLib GoFmt Utf8 Jcs Contracts Signing Prg SafeDep Cpi PolicyScopes.

Local Open Scope string_scope.

(** * Heads *)

Definition StatusInvalid := "invalid".
Definition StatusNoChange := "no_change".
Definition StatusNoPolicy := "no_policy".
Definition StatusSourceError := "source_error".
Definition StatusCompileError := "compile_error".
Definition StatusValidateError := "validate_error".
Definition DefaultLKGMaxAge : duration := (600 * second)%Z.

Definition lkgExpiredReasonText := "last-known-good snapshot expired".
Definition lkgMissingVerificationTimeReasonText := "last-known-good snapshot has no verification time".
Definition lkgRetentionDisabledReasonText := "last-known-good retention disabled".

Definition ErrPolicyNotReady : error := "policy not ready".
Definition ErrPolicyHashMismatch : error := "policy hash mismatch".
Definition ErrPolicySignatureInvalid : error := "policy signature invalid".
Definition ErrPolicyScopeMismatch : error := "policy scope mismatch".
Definition ErrPolicyEpochRollback : error := "policy epoch rollback".
Definition ErrPolicyEpochEquivocation : error := "policy epoch equivocation".
Definition ErrEmergencyCapsuleRejected : error := "emergency capsule invalid".

Record PolicyHead := {
  hd_Scope : PolicyScope;
  hd_PolicyEpoch : Z;
  hd_PolicyHash : string;
  hd_BundleRef : string;
  hd_P0CeilingsHash : string;
  hd_P1BundleHash : string;
  hd_P2OverlayHashes : list string;
  hd_ProofRef : string;
  hd_Signature : string;
  hd_SourceRefs : list string;
  hd_EmergencyCapsule : option EmergencyCapsule;
}.

(** ** JSON of a head *)

Definition opt_num (k : string) (z : Z) : list (string * json) := opt_field (z =? 0)%Z k (JNum (dec z)).
Definition opt_strings (k : string) (l : list string) : list (string * json) :=
  opt_field (bool_decide (l = [])) k (JArr (map JStr l)).

Definition json_of_threshold (s : ThresholdSignature) : json :=
  JObj ([("signer_id", JStr (tsg_SignerID s)); ("role", JStr (tsg_Role s)); ("device_id", JStr (tsg_DeviceID s));
         ("key_id", JStr (tsg_KeyID s))]
        ++ opt_string "public_key" (tsg_PublicKey s) ++ opt_string "scheme" (tsg_Scheme s)
        ++ [("signature", JStr (tsg_Signature s))] ++ opt_num "revoked_at_epoch" (tsg_RevokedAtEpoch s)).

Definition json_of_approval (a : HardwareApproval) : res json :=
  signed ← fmt_time (ha_SignedAt a);
  Ok (JObj ([("signer_id", JStr (ha_SignerID a)); ("role", JStr (ha_Role a)); ("device_id", JStr (ha_DeviceID a))]
            ++ opt_string "authenticator_aaguid" (ha_AuthenticatorAAGUID a)
            ++ [("assertion_hash", JStr (ha_AssertionHash a))]
            ++ opt_string "assertion_signature" (ha_AssertionSignature a)
            ++ [("signed_at", JStr signed)] ++ opt_num "revoked_at_epoch" (ha_RevokedAtEpoch a))).

(** No approvals are a nil slice. *)
Definition json_of_ceremony (c : HardwareCeremonyTranscript) : res json :=
  approvals ← traverse json_of_approval (hw_Approvals c);
  started ← fmt_time (hw_StartedAt c);
  expires ← fmt_time (hw_ExpiresAt c);
  veto ← fmt_time (hw_VetoUntil c);
  Ok (JObj [("ceremony_id", JStr (hw_CeremonyID c)); ("required_quorum", JNum (dec (hw_RequiredQuorum c)));
            ("enrolled_signer_count", JNum (dec (hw_EnrolledSignerCount c)));
            ("approvals", match approvals with [] => JNull | _ => JArr approvals end);
            ("started_at", JStr started); ("expires_at", JStr expires); ("veto_until", JStr veto);
            ("transcript_hash", JStr (hw_TranscriptHash c))]).

Definition json_of_hop (h : EmergencyDelegationHop) : res json :=
  signed ← fmt_time (dh_SignedAt h);
  Ok (JObj [("issuer_id", JStr (dh_IssuerID h)); ("subject_id", JStr (dh_SubjectID h)); ("scope_hash", JStr (dh_ScopeHash h));
            ("signed_at", JStr signed); ("signature", JStr (dh_Signature h))]).

Definition json_of_delegation (d : EmergencyDelegationChain) : res json :=
  hops ← traverse json_of_hop (dc_Hops d);
  notBefore ← fmt_time (dc_NotBefore d);
  expires ← fmt_time (dc_ExpiresAt d);
  Ok (JObj ([("session_id", JStr (dc_SessionID d)); ("human_subject_id", JStr (dc_HumanSubjectID d))]
            ++ opt_strings "authorized_resources" (dc_AuthorizedResources d) ++ opt_strings "scope" (dc_Scope d)
            ++ [("max_hops", JNum (dec (dc_MaxHops d))); ("not_before", JStr notBefore); ("expires_at", JStr expires)]
            ++ opt_field (bool_decide (dc_Hops d = [])) "hops" (JArr hops)
            ++ opt_string "completion_receipt_ref" (dc_CompletionReceiptRef d))).

Definition json_of_capsule (c : EmergencyCapsule) : res json :=
  notBefore ← fmt_time (cap_NotBefore c);
  expires ← fmt_time (cap_ExpiresAt c);
  ceremony ← json_of_ceremony (cap_Ceremony c);
  delegation ← json_of_delegation (cap_Delegation c);
  attestation ← json_of_attestation (cap_Attestation c);
  transparency ← json_of_transparency (cap_Transparency c);
  Ok (JObj ([("capsule_id", JStr (cap_CapsuleID c)); ("version", JNum (dec (cap_Version c)));
             ("aperture_id", JStr (cap_ApertureID c)); ("hazard_code", JStr (cap_HazardCode c)); ("state", JStr (cap_State c));
             ("org_genome_hash", JStr (cap_OrgGenomeHash c)); ("policy_epoch", JNum (dec (cap_PolicyEpoch c)));
             ("policy_hash", JStr (cap_PolicyHash c)); ("p0_ceilings_hash", JStr (cap_P0CeilingsHash c));
             ("p1_bundle_hash", JStr (cap_P1BundleHash c)); ("cpi_hash", JStr (cap_CPIHash c));
             ("provider_registry_hash", JStr (cap_ProviderRegistryHash c));
             ("credential_registry_hash", JStr (cap_CredentialRegistryHash c));
             ("verifier_profile_hash", JStr (cap_VerifierProfileHash c)); ("predecessor_hash", JStr (cap_PredecessorHash c));
             ("subset_proof_hash", JStr (cap_SubsetProofHash c)); ("subset_proof_kind", JStr (cap_SubsetProofKind c))]
            ++ opt_strings "allowed_actions" (cap_AllowedActions c)
            ++ opt_strings "allowed_connectors" (cap_AllowedConnectors c)
            ++ [("ttl_seconds", JNum (dec (cap_TTLSeconds c))); ("not_before", JStr notBefore); ("expires_at", JStr expires)]
            ++ opt_field (bool_decide (cap_Signatures c = [])) "signatures" (JArr (map json_of_threshold (cap_Signatures c)))
            ++ [("ceremony", ceremony); ("delegation", delegation); ("attestation", attestation);
                ("transparency", transparency)])).

Definition json_of_scope (s : PolicyScope) : json :=
  JObj [("tenant_id", JStr (TenantID s)); ("workspace_id", JStr (WorkspaceID s))].

Definition json_of_head (h : PolicyHead) : res json :=
  capsule ← match hd_EmergencyCapsule h with
            | None => Ok []
            | Some c => j ← json_of_capsule c; Ok [("emergency_capsule", j)]
            end;
  Ok (JObj ([("scope", json_of_scope (hd_Scope h)); ("policy_epoch", JNum (dec (hd_PolicyEpoch h)));
             ("policy_hash", JStr (hd_PolicyHash h))]
            ++ opt_string "bundle_ref" (hd_BundleRef h) ++ opt_string "p0_ceilings_hash" (hd_P0CeilingsHash h)
            ++ opt_string "p1_bundle_hash" (hd_P1BundleHash h) ++ opt_strings "p2_overlay_hashes" (hd_P2OverlayHashes h)
            ++ opt_string "proof_ref" (hd_ProofRef h) ++ opt_string "signature" (hd_Signature h)
            ++ opt_strings "source_refs" (hd_SourceRefs h) ++ capsule)).

Definition unsigned (h : PolicyHead) : PolicyHead := {|
  hd_Scope := hd_Scope h; hd_PolicyEpoch := hd_PolicyEpoch h; hd_PolicyHash := hd_PolicyHash h; hd_BundleRef := hd_BundleRef h;
  hd_P0CeilingsHash := hd_P0CeilingsHash h; hd_P1BundleHash := hd_P1BundleHash h; hd_P2OverlayHashes := hd_P2OverlayHashes h;
  hd_ProofRef := hd_ProofRef h; hd_Signature := ""; hd_SourceRefs := hd_SourceRefs h;
  hd_EmergencyCapsule := hd_EmergencyCapsule h |}.

Definition PolicyHeadSignatureMaterial (head : PolicyHead) : res bytes :=
  if (hd_PolicyEpoch head =? 0)%Z || blank (TenantID (hd_Scope head)) || blank (WorkspaceID (hd_Scope head))
     || blank (hd_PolicyHash head)
  then Fail (ErrPolicyNotReady +:+ ": policy head signature fields are incomplete")
  else
    j ← json_of_head (unsigned head);
    Ok (json_marshal (JObj [("version", JStr "helm-policy-publication-signature.v1"); ("head", j)])).

(** ** Hashes *)

Definition digestSourceRefs (sourceRefs : list string) : list string :=
  sort_strings (List.filter (fun ref => contains ref "@sha256:") (map trim_space sourceRefs)).

(** [time.Duration.String] of a duration that is not negative. *)
Definition trim_fraction (s : string) : string := of_bytes (rev (drop_last_zeros (rev (to_bytes s)))).
Definition with_fraction (whole : Z) (digits : nat) (frac : Z) : string :=
  dec whole +:+ (if (frac =? 0)%Z then "" else "." +:+ trim_fraction (pad digits frac)).
Definition duration_text (d : duration) : string :=
  if (d =? 0)%Z then "0s"
  else if (d <? 1000)%Z then dec d +:+ "ns"
  else if (d <? 1000000)%Z then with_fraction (d / 1000) 3 (d mod 1000) +:+ "µs"
  else if (d <? second)%Z then with_fraction (d / 1000000) 6 (d mod 1000000) +:+ "ms"
  else
    let secs := (d / second)%Z in
    let tail := with_fraction (secs mod 60) 9 (d mod second) +:+ "s" in
    if (secs <? 60)%Z then tail
    else
      let mins := dec (secs / 60 mod 60) +:+ "m" +:+ tail in
      if (secs <? 3600)%Z then mins else dec (secs / 3600) +:+ "h" +:+ mins.

Example duration_texts :
  map duration_text [600 * second; 1500000; 90 * second + 500000000; 3600 * second; 7; 61000000000]%Z
  = ["10m0s"; "1.5ms"; "1m30.5s"; "1h0m0s"; "7ns"; "1m1s"].
Proof. vm_compute. reflexivity. Qed.

Section Hashes.
Context `{Hash}.

Definition HashBytes (data : bytes) : string := "sha256:" +:+ hex_encode (sha256 data).

Definition PolicyHashMaterial (bundle : bytes) (sourceRefs : list string) : bytes :=
  json_marshal (JObj [("bundle_hash", JStr (HashBytes bundle)); ("source_refs", JArr (map JStr (digestSourceRefs sourceRefs)))]).

Definition PolicyHashWithSourceRefs (bundle : bytes) (sourceRefs : list string) : string :=
  HashBytes (PolicyHashMaterial bundle sourceRefs).

Definition verifyExpectedPolicyHash (head : PolicyHead) (bundle : bytes) : res unit :=
  let expected := trim_space (hd_PolicyHash head) in
  if String.eqb expected "" then Fail (ErrPolicyNotReady +:+ ": source head has empty policy hash")
  else
    let actual := HashBytes bundle in
    if equal_fold expected actual || equal_fold expected (PolicyHashWithSourceRefs bundle (hd_SourceRefs head)) then Ok tt
    else Fail (ErrPolicyHashMismatch +:+ ": expected " +:+ expected +:+ " got " +:+ actual).
End Hashes.

(** * Snapshots *)

Record ValidationStatus := { vs_Status : string; vs_Reason : string; vs_Hash : string }.

Section Snapshots.
Context {Graph PDP : Type}.

Record EffectivePolicySnapshot := {
  ep_TenantID : string;
  ep_WorkspaceID : string;
  ep_PolicyEpoch : Z;
  ep_PolicyHash : string;
  ep_PolicyHeadHash : string;
  ep_P0CeilingsHash : string;
  ep_P1BundleHash : string;
  ep_P2OverlayHashes : list string;
  ep_EmergencyCapsuleHash : string;
  ep_EmergencyApertureID : string;
  ep_EmergencyExpiresAt : time;
  ep_SourceRefs : list string;
  ep_Validation : ValidationStatus;
  ep_LastVerifiedAt : time;
  ep_Graph : option Graph;
  ep_PDP : option PDP;
  ep_PolicyLayers : list PolicyLayer;
}.
#[export] Instance EffectivePolicySnapshot_eta : Eta EffectivePolicySnapshot := fun s => {|
  ep_TenantID := ep_TenantID s; ep_WorkspaceID := ep_WorkspaceID s; ep_PolicyEpoch := ep_PolicyEpoch s;
  ep_PolicyHash := ep_PolicyHash s; ep_PolicyHeadHash := ep_PolicyHeadHash s; ep_P0CeilingsHash := ep_P0CeilingsHash s;
  ep_P1BundleHash := ep_P1BundleHash s; ep_P2OverlayHashes := ep_P2OverlayHashes s;
  ep_EmergencyCapsuleHash := ep_EmergencyCapsuleHash s; ep_EmergencyApertureID := ep_EmergencyApertureID s;
  ep_EmergencyExpiresAt := ep_EmergencyExpiresAt s; ep_SourceRefs := ep_SourceRefs s; ep_Validation := ep_Validation s;
  ep_LastVerifiedAt := ep_LastVerifiedAt s; ep_Graph := ep_Graph s; ep_PDP := ep_PDP s;
  ep_PolicyLayers := ep_PolicyLayers s |}.

Definition Scope (s : EffectivePolicySnapshot) : PolicyScope :=
  Normalize {| TenantID := ep_TenantID s; WorkspaceID := ep_WorkspaceID s |}.

(** What [Invalidate] leaves of a snapshot. *)
Definition neutered (reason : string) (s : EffectivePolicySnapshot) : EffectivePolicySnapshot :=
  s <| ep_Validation := {| vs_Status := StatusInvalid; vs_Reason := trim_space reason; vs_Hash := vs_Hash (ep_Validation s) |} |>
    <| ep_Graph := None |> <| ep_PDP := None |> <| ep_PolicyLayers := [] |>.

(** ** The store interface *)

Class SnapshotStore (St : Type) := {
  store_get : PolicyScope -> St -> option EffectivePolicySnapshot;
  store_swap : PolicyScope -> EffectivePolicySnapshot -> M St unit;
  store_invalidate : PolicyScope -> string -> St -> St * option EffectivePolicySnapshot;
}.

(** What the reconciler is promised: a snapshot per scope key, replaced by a swap that succeeds and kept
    by one that fails, and left unable to authorise by an invalidation. *)
Class SnapshotStoreLaws (St : Type) `{SnapshotStore St} := {
  view : St -> gmap string EffectivePolicySnapshot;
  get_view scope s : store_get scope s = view s !! Key (Normalize scope);
  swap_view scope sn s s' r : store_swap scope sn s = (s', r) ->
    view s' = match r with Ok _ => <[Key (Normalize scope) := sn]> (view s) | Fail _ => view s end;
  invalidate_view scope reason s :
    view (store_invalidate scope reason s).1 = alter (neutered reason) (Key (Normalize scope)) (view s);
}.

(** ** The in-memory store *)

Definition AtomicSnapshotStore := gmap string EffectivePolicySnapshot.
Definition NewAtomicSnapshotStore : AtomicSnapshotStore := ∅.

Definition AtomicGet (scope : PolicyScope) (s : AtomicSnapshotStore) : option EffectivePolicySnapshot :=
  s !! Key (Normalize scope).
Definition AtomicSwap (scope : PolicyScope) (sn : EffectivePolicySnapshot) : M AtomicSnapshotStore unit := fun s =>
  (<[Key (Normalize scope) := sn]> s, Ok tt).
Definition AtomicInvalidate (scope : PolicyScope) (reason : string) (s : AtomicSnapshotStore)
    : AtomicSnapshotStore * option EffectivePolicySnapshot :=
  match s !! Key (Normalize scope) with
  | None => (s, None)
  | Some sn => (<[Key (Normalize scope) := neutered reason sn]> s, Some (neutered reason sn))
  end.

#[export] Instance atomic_store : SnapshotStore AtomicSnapshotStore := {
  store_get := AtomicGet; store_swap := AtomicSwap; store_invalidate := AtomicInvalidate }.

(** * The reconciler *)

Record ReconcileStatus := {
  rt_TenantID : string;
  rt_WorkspaceID : string;
  rt_PolicyHash : string;
  rt_PolicyEpoch : Z;
  rt_InstalledPolicyHash : string;
  rt_InstalledPolicyEpoch : Z;
  rt_DesiredPolicyHash : string;
  rt_DesiredPolicyEpoch : Z;
  rt_ReconcileStatus : string;
  rt_SnapshotStatus : string;
  rt_BundleRef : string;
  rt_SourceRefs : list string;
  rt_AuditEvent : string;
  rt_Reason : string;
  rt_Updated : bool;
}.
#[export] Instance ReconcileStatus_eta : Eta ReconcileStatus := fun s => {|
  rt_TenantID := rt_TenantID s; rt_WorkspaceID := rt_WorkspaceID s; rt_PolicyHash := rt_PolicyHash s;
  rt_PolicyEpoch := rt_PolicyEpoch s; rt_InstalledPolicyHash := rt_InstalledPolicyHash s;
  rt_InstalledPolicyEpoch := rt_InstalledPolicyEpoch s; rt_DesiredPolicyHash := rt_DesiredPolicyHash s;
  rt_DesiredPolicyEpoch := rt_DesiredPolicyEpoch s; rt_ReconcileStatus := rt_ReconcileStatus s;
  rt_SnapshotStatus := rt_SnapshotStatus s; rt_BundleRef := rt_BundleRef s; rt_SourceRefs := rt_SourceRefs s;
  rt_AuditEvent := rt_AuditEvent s; rt_Reason := rt_Reason s; rt_Updated := rt_Updated s |}.

Context {Ext : Type}.

Record PolicySource := {
  ps_ListScopes : M Ext (list PolicyScope);
  ps_Head : PolicyScope -> M Ext PolicyHead;
  ps_Load : PolicyScope -> Z -> M Ext bytes;
}.

Record Reconciler := {
  rr_source : PolicySource;
  rr_compiler : PolicyHead -> bytes -> M Ext (option EffectivePolicySnapshot);
  rr_verifier : option (PolicyHead -> M Ext unit);
  rr_emergencyVerifier : option (PolicyHead -> EmergencyCapsule -> M Ext unit);
  rr_requireSignature : bool;
  rr_keepLastKnownGood : bool;
  rr_lkgMaxAge : duration;
  rr_now : Ext -> Ext * time;
}.

(** [NewReconciler] on a configuration with its three required parts. *)
Definition NewReconciler (cfg : Reconciler) : Reconciler := {|
  rr_source := rr_source cfg; rr_compiler := rr_compiler cfg; rr_verifier := rr_verifier cfg;
  rr_emergencyVerifier := rr_emergencyVerifier cfg; rr_requireSignature := rr_requireSignature cfg;
  rr_keepLastKnownGood := rr_keepLastKnownGood cfg;
  rr_lkgMaxAge := if rr_keepLastKnownGood cfg && (rr_lkgMaxAge cfg <=? 0)%Z then DefaultLKGMaxAge else rr_lkgMaxAge cfg;
  rr_now := rr_now cfg |}.

Context {St : Type} `{SnapshotStore St} `{Hash}.

Record World := { w_ext : Ext; w_store : St; w_status : gmap string ReconcileStatus }.

Definition on_ext {A} (c : M Ext A) : M World A := fun w =>
  let '(x, r) := c (w_ext w) in ({| w_ext := x; w_store := w_store w; w_status := w_status w |}, r).
Definition on_store {A} (c : M St A) : M World A := fun w =>
  let '(s, r) := c (w_store w) in ({| w_ext := w_ext w; w_store := s; w_status := w_status w |}, r).
Definition reading (r : Reconciler) (w : World) : World * time :=
  let '(x, t) := rr_now r (w_ext w) in ({| w_ext := x; w_store := w_store w; w_status := w_status w |}, t).

Definition remember (status : ReconcileStatus) (w : World) : World := {|
  w_ext := w_ext w; w_store := w_store w;
  w_status := <[Key {| TenantID := rt_TenantID status; WorkspaceID := rt_WorkspaceID status |} := status]> (w_status w) |}.

Definition LastStatus (scope : PolicyScope) (w : World) : option ReconcileStatus := w_status w !! Key (Normalize scope).

Definition lastKnownGoodFresh (r : Reconciler) (sn : EffectivePolicySnapshot) (w : World) : World * bool :=
  if negb (rr_keepLastKnownGood r) || negb (String.eqb (vs_Status (ep_Validation sn)) StatusActive)
     || is_zero (ep_LastVerifiedAt sn) || (rr_lkgMaxAge r <=? 0)%Z
  then (w, false)
  else
    let '(w, now) := reading r w in
    (w, negb (now <? ep_LastVerifiedAt sn)%Z && (now <? ep_LastVerifiedAt sn + rr_lkgMaxAge r)%Z).

Definition lkgInvalidationReason (r : Reconciler) (sn : EffectivePolicySnapshot) : string :=
  if negb (rr_keepLastKnownGood r) then lkgRetentionDisabledReasonText
  else if is_zero (ep_LastVerifiedAt sn) then lkgMissingVerificationTimeReasonText
  else if negb (String.eqb (vs_Status (ep_Validation sn)) StatusActive) then "last-known-good snapshot is not active"
  else lkgExpiredReasonText +:+ " after " +:+ duration_text (rr_lkgMaxAge r).

Definition with_installed (sn : EffectivePolicySnapshot) (status : ReconcileStatus) : ReconcileStatus :=
  status <| rt_PolicyHash := ep_PolicyHash sn |> <| rt_PolicyEpoch := ep_PolicyEpoch sn |>
         <| rt_InstalledPolicyHash := ep_PolicyHash sn |> <| rt_InstalledPolicyEpoch := ep_PolicyEpoch sn |>.

(** The way out of every failure before the swap. *)
Definition invalid (r : Reconciler) (status : ReconcileStatus) (err : error) (w : World)
    : World * (ReconcileStatus * option error) :=
  let scope := Normalize {| TenantID := rt_TenantID status; WorkspaceID := rt_WorkspaceID status |} in
  match store_get scope (w_store w) with
  | None => (remember status w, (status, Some err))
  | Some installed =>
      let status := with_installed installed status in
      let '(w, fresh) := lastKnownGoodFresh r installed w in
      if fresh then
        let status := status <| rt_SnapshotStatus := StatusActive |> in
        (remember status w, (status, Some err))
      else
        let reason := lkgInvalidationReason r installed in
        let status := status
          <| rt_Reason := if String.eqb (rt_Reason status) "" then reason else rt_Reason status +:+ "; " +:+ reason |>
          <| rt_SnapshotStatus := StatusInvalid |> in
        let w := {| w_ext := w_ext w; w_store := (store_invalidate scope reason (w_store w)).1; w_status := w_status w |} in
        (remember status w, (status, Some err))
  end.

Definition verifyPolicyHeadSignature (r : Reconciler) (head : PolicyHead) : M World unit :=
  let signature := trim_space (hd_Signature head) in
  if String.eqb signature "" && rr_requireSignature r
  then fail (ErrPolicySignatureInvalid +:+ ": source head has empty signature")
  else if String.eqb signature "" then mret tt
  else match rr_verifier r with
       | None => fail (ErrPolicySignatureInvalid +:+ ": no verifier configured for signed policy " +:+ hd_PolicyHash head)
       | Some verify => wrapM (ErrPolicySignatureInvalid +:+ ": ") (on_ext (verify head))
       end.

(** The checks against the snapshot already installed. *)
Definition replay_check (head : PolicyHead) (desiredHeadHash : string) (installed : EffectivePolicySnapshot) : res unit :=
  if (hd_PolicyEpoch head <? ep_PolicyEpoch installed)%Z then
    Fail (ErrPolicyEpochRollback +:+ ": installed epoch " +:+ dec (ep_PolicyEpoch installed) +:+ ", desired epoch "
          +:+ dec (hd_PolicyEpoch head))
  else if (hd_PolicyEpoch head =? ep_PolicyEpoch installed)%Z
          && negb (String.eqb (ep_PolicyHash installed) (hd_PolicyHash head)) then
    Fail (ErrPolicyEpochEquivocation +:+ ": epoch " +:+ dec (hd_PolicyEpoch head) +:+ " changed policy hash")
  else if (hd_PolicyEpoch head =? ep_PolicyEpoch installed)%Z && negb (String.eqb (ep_PolicyHeadHash installed) "")
          && negb (String.eqb (ep_PolicyHeadHash installed) desiredHeadHash) then
    Fail (ErrPolicyEpochEquivocation +:+ ": epoch " +:+ dec (hd_PolicyEpoch head) +:+ " changed signed head")
  else Ok tt.

Definition unchanged (head : PolicyHead) (desiredHeadHash : string) (installed : EffectivePolicySnapshot) : bool :=
  String.eqb (vs_Status (ep_Validation installed)) StatusActive && String.eqb (ep_PolicyHash installed) (hd_PolicyHash head)
  && (ep_PolicyEpoch installed =? hd_PolicyEpoch head)%Z && String.eqb (ep_PolicyHeadHash installed) desiredHeadHash.

Definition or_text (s default : string) : string := if blank s then default else s.

(** A capsule that has no JSON form never gets here: the head's signature material contains it. *)
Definition capsule_hash (c : EmergencyCapsule) : string :=
  HashBytes (match json_of_capsule c with Ok j => json_marshal j | Fail _ => [] end).

Definition with_capsule (c : EmergencyCapsule) (sn : EffectivePolicySnapshot) : EffectivePolicySnapshot :=
  sn <| ep_EmergencyCapsuleHash := or_text (ep_EmergencyCapsuleHash sn) (capsule_hash c) |>
     <| ep_EmergencyApertureID := or_text (ep_EmergencyApertureID sn) (cap_ApertureID c) |>
     <| ep_EmergencyExpiresAt := if is_zero (ep_EmergencyExpiresAt sn) then cap_ExpiresAt c else ep_EmergencyExpiresAt sn |>.

Definition normalizeSnapshot (sn : EffectivePolicySnapshot) (head : PolicyHead) : EffectivePolicySnapshot :=
  let scope := Normalize (hd_Scope head) in
  let sn := sn <| ep_TenantID := or_text (ep_TenantID sn) (TenantID scope) |>
               <| ep_WorkspaceID := or_text (ep_WorkspaceID sn) (WorkspaceID scope) |>
               <| ep_PolicyEpoch := if (ep_PolicyEpoch sn =? 0)%Z then hd_PolicyEpoch head else ep_PolicyEpoch sn |>
               <| ep_PolicyHash := or_text (ep_PolicyHash sn) (hd_PolicyHash head) |>
               <| ep_P0CeilingsHash := or_text (ep_P0CeilingsHash sn) (hd_P0CeilingsHash head) |>
               <| ep_P1BundleHash := or_text (ep_P1BundleHash sn) (hd_P1BundleHash head) |>
               <| ep_P2OverlayHashes := match ep_P2OverlayHashes sn with [] => hd_P2OverlayHashes head | l => l end |> in
  let sn := match hd_EmergencyCapsule head with Some c => with_capsule c sn | None => sn end in
  let sn := sn <| ep_SourceRefs := match ep_SourceRefs sn with [] => hd_SourceRefs head | l => l end |> in
  if String.eqb (vs_Status (ep_Validation sn)) ""
  then sn <| ep_Validation := {| vs_Status := StatusActive; vs_Reason := vs_Reason (ep_Validation sn);
                                 vs_Hash := vs_Hash (ep_Validation sn) |} |>
  else sn.

(** The layers after [json.Marshal] and [json.Unmarshal]. *)
Definition clean (s : string) : string := of_bytes (sanitize (to_bytes s)).
Definition reread_rule (r : PolicyRule) : PolicyRule := {|
  pl_ID := clean (pl_ID r); pl_Action := clean (pl_Action r); pl_Verdict := clean (pl_Verdict r);
  pl_Reason := clean (pl_Reason r); pl_Conditions := map clean (pl_Conditions r) |}.
Definition reread_layer (l : PolicyLayer) : PolicyLayer := {|
  py_Name := clean (py_Name l); py_Priority := py_Priority l; py_Rules := map reread_rule <$> py_Rules l;
  py_Hash := clean (py_Hash l); py_Metadata := kmap clean (clean <$> py_Metadata l) |}.

Definition validateSnapshot (sn : EffectivePolicySnapshot) : res EffectivePolicySnapshot :=
  if blank (ep_TenantID sn) || blank (ep_WorkspaceID sn) then Fail (ErrPolicyNotReady +:+ ": snapshot scope is empty")
  else if blank (ep_PolicyHash sn) then Fail (ErrPolicyNotReady +:+ ": snapshot policy hash is empty")
  else match ep_PolicyLayers sn with
  | [] => Ok sn
  | layers =>
      result ← Validate (Some (Ok (map reread_layer layers)));
      if negb (String.eqb (vr_Verdict result) VerdictConsistent)
      then Fail ("policy CPI validation failed: " +:+ vr_Verdict result)
      else Ok (sn <| ep_Validation := {| vs_Status := StatusActive; vs_Reason := ""; vs_Hash := vr_Hash result |} |>)
  end.

Definition verify_capsule (r : Reconciler) (head : PolicyHead) : M World unit :=
  match hd_EmergencyCapsule head with
  | None => mret tt
  | Some c =>
      match rr_emergencyVerifier r with
      | None => fail (ErrEmergencyCapsuleRejected +:+ ": no emergency capsule verifier configured for capsule " +:+ cap_CapsuleID c)
      | Some verify => wrapM (ErrEmergencyCapsuleRejected +:+ ": ") (on_ext (verify head c))
      end
  end.

(** Steps that may end the call with a status and an error. *)
Definition step (A : Type) : Type := World -> World * (ReconcileStatus * option error + A).
Definition step_bind {A} (c : step A) (f : A -> World -> World * (ReconcileStatus * option error))
    : World -> World * (ReconcileStatus * option error) := fun w =>
  match c w with
  | (w, inl out) => (w, out)
  | (w, inr a) => f a w
  end.

(** A failure that goes through [invalid] with its text as the reason and [code] as the reconcile status. *)
Definition guard {A} (r : Reconciler) (status : ReconcileStatus) (code : string) (c : M World A) : step A := fun w =>
  match c w with
  | (w, Ok a) => (w, inr a)
  | (w, Fail e) =>
      let '(w, out) := invalid r (status <| rt_ReconcileStatus := code |> <| rt_Reason := e |>) e w in (w, inl out)
  end.

(** The swap at the end; its failure keeps the store and is not remembered. *)
Definition finish (scope : PolicyScope) (sn : EffectivePolicySnapshot) (status done : ReconcileStatus) (w : World)
    : World * (ReconcileStatus * option error) :=
  match on_store (store_swap scope sn) w with
  | (w, Fail e) => (w, (status <| rt_Reason := e |>, Some e))
  | (w, Ok _) => (remember done w, (done, None))
  end.

(** From the loaded bytes to the installed snapshot. *)
Definition install (r : Reconciler) (scope : PolicyScope) (head : PolicyHead) (desiredHeadHash : string)
    (status : ReconcileStatus) : World -> World * (ReconcileStatus * option error) :=
  step_bind (guard r status StatusSourceError (on_ext (ps_Load (rr_source r) scope (hd_PolicyEpoch head)))) (fun bundle =>
  step_bind (guard r status StatusSourceError (lift (verifyExpectedPolicyHash head bundle))) (fun _ =>
  step_bind (guard r status StatusSourceError (verify_capsule r head)) (fun _ =>
  step_bind (guard r status StatusCompileError
               (sn ← on_ext (rr_compiler r head bundle);
                match sn with
                | None => fail (ErrPolicyNotReady +:+ ": compiler returned nil snapshot")
                | Some sn => mret sn
                end)) (fun sn =>
  step_bind (guard r status StatusValidateError
               (lift (validateSnapshot ((normalizeSnapshot sn head) <| ep_PolicyHeadHash := desiredHeadHash |>)))) (fun sn =>
  fun w =>
    let '(w, now) := reading r w in
    let sn := sn <| ep_LastVerifiedAt := now |> in
    let done := (with_installed sn status) <| rt_ReconcileStatus := "ok" |> <| rt_SnapshotStatus := StatusActive |>
                                         <| rt_Updated := true |> in
    finish scope sn status done w))))).

Definition start_status (scope : PolicyScope) : ReconcileStatus := {|
  rt_TenantID := TenantID scope; rt_WorkspaceID := WorkspaceID scope; rt_PolicyHash := ""; rt_PolicyEpoch := 0;
  rt_InstalledPolicyHash := ""; rt_InstalledPolicyEpoch := 0; rt_DesiredPolicyHash := ""; rt_DesiredPolicyEpoch := 0;
  rt_ReconcileStatus := StatusSourceError; rt_SnapshotStatus := StatusNoPolicy; rt_BundleRef := ""; rt_SourceRefs := [];
  rt_AuditEvent := ""; rt_Reason := ""; rt_Updated := false |}.

Definition check_scope (scope : PolicyScope) (head : PolicyHead) : res unit :=
  if decide (hd_Scope head = scope) then Ok tt
  else Fail (ErrPolicyScopeMismatch +:+ ": requested " +:+ Key scope +:+ " got " +:+ Key (hd_Scope head)).

Definition Reconcile (r : Reconciler) (scope : PolicyScope) : World -> World * (ReconcileStatus * option error) :=
  let scope := Normalize scope in
  let status := start_status scope in
  step_bind (guard r status StatusSourceError (on_ext (ps_Head (rr_source r) scope))) (fun head =>
  let status := status <| rt_DesiredPolicyHash := hd_PolicyHash head |> <| rt_DesiredPolicyEpoch := hd_PolicyEpoch head |>
                       <| rt_BundleRef := hd_BundleRef head |> <| rt_SourceRefs := hd_SourceRefs head |>
                       <| rt_AuditEvent := "policy_reconcile" |> in
  step_bind (guard r status StatusSourceError (lift (check_scope scope head))) (fun _ =>
  step_bind (guard r status StatusSourceError (lift (PolicyHeadSignatureMaterial head))) (fun material =>
  let desiredHeadHash := HashBytes material in
  step_bind (guard r status StatusSourceError (verifyPolicyHeadSignature r head)) (fun _ w =>
  match store_get scope (w_store w) with
  | None => install r scope head desiredHeadHash status w
  | Some installed =>
      let status := (with_installed installed status) <| rt_SnapshotStatus := vs_Status (ep_Validation installed) |> in
      step_bind (guard r status StatusSourceError (lift (replay_check head desiredHeadHash installed))) (fun _ w =>
        if unchanged head desiredHeadHash installed then
          let '(w, now) := reading r w in
          finish scope (installed <| ep_LastVerifiedAt := now |>) status (status <| rt_ReconcileStatus := StatusNoChange |>) w
        else install r scope head desiredHeadHash status w) w
  end)))).

(** [errors.Join] of the failures. *)
Fixpoint reconcile_each (r : Reconciler) (scopes : list PolicyScope) (w : World)
    : World * (list ReconcileStatus * list error) :=
  match scopes with
  | [] => (w, ([], []))
  | scope :: scopes =>
      let '(w, (status, err)) := Reconcile r scope w in
      let '(w, (statuses, errs)) := reconcile_each r scopes w in
      (w, (status :: statuses, (option_list err ++ errs)%list))
  end.

Definition ReconcileAll (r : Reconciler) (w : World) : World * res (list ReconcileStatus * list error) :=
  match on_ext (ps_ListScopes (rr_source r)) w with
  | (w, Fail e) => (w, Fail e)
  | (w, Ok scopes) => let '(w, out) := reconcile_each r scopes w in (w, Ok out)
  end.
End Snapshots.
Arguments EffectivePolicySnapshot : clear implicits.
Arguments PolicySource : clear implicits.
Arguments Reconciler : clear implicits.
Arguments World : clear implicits.

(** * The in-memory store keeps its promise *)

#[export] Instance atomic_laws Graph PDP : SnapshotStoreLaws (Graph := Graph) (PDP := PDP) AtomicSnapshotStore.
Proof.
  refine {| view := fun s : AtomicSnapshotStore => s |}; [done|by intros ? ? ? ? ? [= <- <-]|].
  intros scope reason s. cbn [store_invalidate atomic_store]. unfold AtomicInvalidate, AtomicSnapshotStore in *. destruct (s !! Key (Normalize scope)) as [sn|] eqn:E; cbn [fst].
  - apply map_eq. intros k. destruct (decide (k = Key (Normalize scope))) as [->|Ne].
    + by rewrite lookup_insert_eq, lookup_alter_eq, E.
    + by rewrite lookup_insert_ne, lookup_alter_ne by done.
  - apply map_eq. intros k. destruct (decide (k = Key (Normalize scope))) as [->|Ne];
      [by rewrite lookup_alter_eq, E|by rewrite lookup_alter_ne by done].
Defined.

Section Reconciled.
Context {Graph PDP Ext St : Type} `{Laws : SnapshotStoreLaws Graph PDP St} `{Hash}.
Notation Snapshot := (EffectivePolicySnapshot Graph PDP).
Notation W := (World Ext St).
Implicit Types (r : Reconciler Graph PDP Ext) (w : W).

Definition snapshots w : gmap string Snapshot := view (w_store w).
Definition is_active (sn : Snapshot) : Prop := vs_Status (ep_Validation sn) = StatusActive.

(** A snapshot kept after a failure: retention is on and it was verified within the maximal age, at some
    reading of the clock. *)
Definition lkg_fresh r (sn : Snapshot) : Prop :=
  rr_keepLastKnownGood r = true /\ is_active sn /\
  exists x, let t := (rr_now r x).2 in (ep_LastVerifiedAt sn <= t < ep_LastVerifiedAt sn + rr_lkgMaxAge r)%Z.

(** What a failure leaves of the snapshots: those of other scopes, and this scope's only if fresh. *)
Definition retained r (k : string) (v v' : gmap string Snapshot) : Prop :=
  match v !! k with
  | None => v' = v
  | Some sn => (v' = v /\ lkg_fresh r sn) \/ exists reason, v' = alter (neutered reason) k v
  end.

Lemma reading_store r w : w_store (reading r w).1 = w_store w.
Proof. unfold reading. by destruct (rr_now r (w_ext w)). Qed.

Lemma lkg_spec r sn w w' b : lastKnownGoodFresh r sn w = (w', b) ->
  w_store w' = w_store w /\ (b = true -> lkg_fresh r sn).
Proof.
  unfold lastKnownGoodFresh. destruct (_ || _ || _ || _) eqn:G; [by intros [= <- <-]|].
  boolean. unfold reading. destruct (rr_now r (w_ext w)) as [x t] eqn:En. intros [= <- <-]. split; [done|]. intros B. boolean.
  split_and!; [done| |].
  - done.
  - exists (w_ext w). rewrite En. cbn. lia.
Qed.

Lemma invalid_spec r status e w w' out scope :
  rt_TenantID status = TenantID scope -> rt_WorkspaceID status = WorkspaceID scope ->
  invalid r status e w = (w', out) ->
  retained r (Key scope) (snapshots w) (snapshots w') /\ is_Some out.2.
Proof.
  intros Ht Hw. unfold invalid, snapshots, retained. rewrite Ht, Hw.
  replace ({| TenantID := TenantID scope; WorkspaceID := WorkspaceID scope |}) with scope by (by destruct scope).
  rewrite get_view. rewrite !Key_Normalize. destruct (view (w_store w) !! Key scope) as [sn|] eqn:E.
  2: { by intros [= <- <-]. }
  destruct (lastKnownGoodFresh r sn w) as [w1 b] eqn:L. apply lkg_spec in L as [Es Hb]. destruct b.
  - intros [= <- <-]. cbn. rewrite Es. split; [|done]. left. auto.
  - intros [= <- <-]. cbn. split; [|done]. right. rewrite invalidate_view, Es, !Key_Normalize. by eexists.
Qed.

(** Computations that leave the store alone. *)
Definition keeps_store {A} (c : M W A) : Prop := forall w w' x, c w = (w', x) -> w_store w' = w_store w.

Lemma keeps_ext {A} (c : M Ext A) : keeps_store (on_ext c).
Proof. intros w w' x. unfold on_ext. destruct (c (w_ext w)). by intros [= <- _]. Qed.
Lemma keeps_lift {A} (x : res A) : keeps_store (lift x).
Proof. intros w w' y. by intros [= <- _]. Qed.
Lemma keeps_wrap {A} p (c : M W A) : keeps_store c -> keeps_store (wrapM p c).
Proof. intros Q w w' x (x0 & E & _)%wrapM_cases. by apply Q in E. Qed.
Lemma keeps_bind {A B} (c : M W A) (f : A -> M W B) : keeps_store c -> (forall a, keeps_store (f a)) -> keeps_store (c ≫= f).
Proof.
  intros Q F w w' x [(e & E & _)|(w1 & a & E1 & E2)]%M_bind_cases; [by apply Q in E|].
  apply Q in E1. apply F in E2. congruence.
Qed.

Lemma keeps_signature r head : keeps_store (verifyPolicyHeadSignature r head).
Proof.
  unfold verifyPolicyHeadSignature. case_match; [apply keeps_lift|]. case_match; [apply (keeps_lift (Ok tt))|].
  destruct (rr_verifier r); [apply keeps_wrap, keeps_ext|apply keeps_lift].
Qed.
Lemma keeps_capsule r head : keeps_store (verify_capsule r head).
Proof.
  unfold verify_capsule. destruct (hd_EmergencyCapsule head); [|apply (keeps_lift (Ok tt))].
  destruct (rr_emergencyVerifier r); [apply keeps_wrap, keeps_ext|apply keeps_lift].
Qed.

(** The three ways a guarded step continues. *)
Lemma guard_step {A} r status code (c : M W A) scope (f : A -> W -> W * (ReconcileStatus * option error)) w w' out :
  keeps_store c -> rt_TenantID status = TenantID scope -> rt_WorkspaceID status = WorkspaceID scope ->
  step_bind (guard r status code c) f w = (w', out) ->
  (retained r (Key scope) (snapshots w) (snapshots w') /\ is_Some out.2) \/
  exists w1 a, c w = (w1, Ok a) /\ snapshots w1 = snapshots w /\ f a w1 = (w', out).
Proof.
  intros Q Ht Hw. unfold step_bind, guard. destruct (c w) as [w1 [a|e]] eqn:E; pose proof (Q _ _ _ E) as Es.
  - intros Hf. right. exists w1, a. split_and!; [done|unfold snapshots; by rewrite Es|done].
  - destruct (invalid _ _ e w1) as [w2 out2] eqn:I. intros [= <- <-]. left.
    eapply (invalid_spec _ _ _ _ _ _ scope) in I; [|done|done]. unfold snapshots in *. by rewrite Es in I.
Qed.

(** ** Where a snapshot comes from *)

Definition signed_head r (head : PolicyHead) : Prop :=
  (trim_space (hd_Signature head) = "" /\ rr_requireSignature r = false) \/
  exists verify x x', rr_verifier r = Some verify /\ verify head x = (x', Ok tt).

Definition capsule_verified r (head : PolicyHead) : Prop :=
  match hd_EmergencyCapsule head with
  | None => True
  | Some c => exists verify x x', rr_emergencyVerifier r = Some verify /\ verify head c x = (x', Ok tt)
  end.

(** The head and the bytes a snapshot was installed from, with every check they passed. *)
Record installed_from r (k : string) (head : PolicyHead) (bundle : bytes) (sn : Snapshot) : Prop := {
  if_scope : k = Key (hd_Scope head);
  if_material : exists m, PolicyHeadSignatureMaterial head = Ok m /\ ep_PolicyHeadHash sn = HashBytes m;
  if_signed : signed_head r head;
  if_hash : verifyExpectedPolicyHash head bundle = Ok tt;
  if_capsule : capsule_verified r head;
  if_compiled : exists compiled x x' v t, rr_compiler r head bundle x = (x', Ok (Some compiled)) /\
    validateSnapshot ((normalizeSnapshot compiled head) <| ep_PolicyHeadHash := ep_PolicyHeadHash sn |>) = Ok v /\
    sn = v <| ep_LastVerifiedAt := t |>;
}.

(** How a call of [Reconcile] ends. *)
Inductive outcome_of r (k : string) (v v' : gmap string Snapshot) : option error -> Prop :=
| oc_retained e : retained r k v v' -> outcome_of r k v v' (Some e)
| oc_swap_failed scope sn s s' e : store_swap (St := St) scope sn s = (s', Fail e) -> v' = v -> outcome_of r k v v' (Some e)
| oc_refreshed sn t : v !! k = Some sn -> is_active sn -> v' = <[k := sn <| ep_LastVerifiedAt := t |>]> v ->
    outcome_of r k v v' None
| oc_installed head bundle sn : installed_from r k head bundle sn ->
    (forall old, v !! k = Some old -> replay_check head (ep_PolicyHeadHash sn) old = Ok tt) ->
    v' = <[k := sn]> v -> outcome_of r k v v' None.

Lemma finish_spec scope sn status done w w' out : finish scope sn status done w = (w', out) ->
  (out.2 = None /\ snapshots w' = <[Key scope := sn]> (snapshots w)) \/
  (snapshots w' = snapshots w /\ exists s s' e, store_swap (St := St) scope sn s = (s', Fail e) /\ out.2 = Some e).
Proof.
  unfold finish, on_store, snapshots. destruct (store_swap scope sn (w_store w)) as [s' [u|e]] eqn:E;
    pose proof (swap_view _ _ _ _ _ E) as V; intros [= <- <-]; cbn.
  - left. by rewrite V, Key_Normalize.
  - right. split; [done|]. by eauto.
Qed.

Lemma signature_checked r head w w1 u : verifyPolicyHeadSignature r head w = (w1, Ok u) -> signed_head r head.
Proof.
  unfold verifyPolicyHeadSignature. destruct (String.eqb_spec (trim_space (hd_Signature head)) "") as [E|E].
  - cbn [andb]. destruct (rr_requireSignature r) eqn:Q; [done|]. intros _. by left.
  - cbn [andb]. destruct (rr_verifier r) as [verify|] eqn:V; [|done]. intros Hv%wrapM_Ok. unfold on_ext in Hv.
    destruct (verify head (w_ext w)) as [x r0] eqn:Ev. injection Hv as _ ->. destruct u. right. by eauto.
Qed.

Lemma capsule_checked r head w w1 u : verify_capsule r head w = (w1, Ok u) -> capsule_verified r head.
Proof.
  unfold verify_capsule, capsule_verified. destruct (hd_EmergencyCapsule head) as [c|]; [|done].
  destruct (rr_emergencyVerifier r) as [verify|] eqn:V; [|done]. intros Hv%wrapM_Ok. unfold on_ext in Hv.
  destruct (verify head c (w_ext w)) as [x r0] eqn:Ev. injection Hv as _ ->. destruct u. by eauto.
Qed.

Lemma validate_head_hash (sn v : Snapshot) : validateSnapshot sn = Ok v -> ep_PolicyHeadHash v = ep_PolicyHeadHash sn.
Proof.
  unfold validateSnapshot. case_match; [done|]. case_match; [done|]. destruct (ep_PolicyLayers sn) as [|l ls]; [by intros [= <-]|].
  cbn [Validate]. intros E. apply res_bind_Ok in E as (res & _ & E). case_match; [done|]. by injection E as <-.
Qed.

Lemma install_spec r scope head m status w w' out :
  rt_TenantID status = TenantID scope -> rt_WorkspaceID status = WorkspaceID scope -> hd_Scope head = scope ->
  PolicyHeadSignatureMaterial head = Ok m -> signed_head r head ->
  (forall old, snapshots w !! Key scope = Some old -> replay_check head (HashBytes m) old = Ok tt) ->
  install r scope head (HashBytes m) status w = (w', out) ->
  outcome_of r (Key scope) (snapshots w) (snapshots w') out.2.
Proof.
  intros Ht Hw Hs Hm Hsig Hrep. unfold install. destruct out as [st err].
  assert (Stop : forall w0, snapshots w0 = snapshots w ->
    retained r (Key scope) (snapshots w0) (snapshots w') /\ is_Some (st, err).2 ->
    outcome_of r (Key scope) (snapshots w) (snapshots w') (st, err).2).
  { intros w0 -> [R [e E]]. cbn in *. subst err. by constructor. }
  intros [S|(w1 & bundle & _ & S1 & E)]%(guard_step _ _ _ _ scope); [by eapply (Stop w)| |apply keeps_ext|done|done].
  apply (guard_step _ _ _ _ scope) in E as [S|(w2 & u2 & E2 & S2 & E)]; [by eapply (Stop w1)| |apply keeps_lift|done|done].
  apply lift_Ok in E2 as [Hh _]. destruct u2. rewrite S1 in S2.
  apply (guard_step _ _ _ _ scope) in E as [S|(w3 & u3 & E3 & S3 & E)]; [by eapply (Stop w2)| |apply keeps_capsule|done|done].
  apply capsule_checked in E3 as Hc. rewrite S2 in S3.
  apply (guard_step _ _ _ _ scope) in E as [S|(w4 & sn & E4 & S4 & E)];
    [by eapply (Stop w3)| |apply keeps_bind; [apply keeps_ext|intros [?|]; [apply (keeps_lift (Ok _))|apply keeps_lift]]|done|done].
  apply M_bind_Ok in E4 as (w3' & [compiled|] & Ec & E4); [|done]. injection E4 as _ ->. unfold on_ext in Ec.
  destruct (rr_compiler r head bundle (w_ext w3)) as [x rc] eqn:Ecomp. injection Ec as _ ->. rewrite S3 in S4.
  apply (guard_step _ _ _ _ scope) in E as [S|(w5 & v & E5 & S5 & E)]; [by eapply (Stop w4)| |apply keeps_lift|done|done].
  apply lift_Ok in E5 as [Hv _]. rewrite S4 in S5.
  pose proof (reading_store r w5) as Rs. destruct (reading r w5) as [w6 now]. cbn [fst] in Rs.
  assert (S6 : snapshots w6 = snapshots w) by (unfold snapshots in *; by rewrite Rs).
  pose proof (validate_head_hash _ _ Hv) as Hhash. change (ep_PolicyHeadHash v = HashBytes m) in Hhash.
  apply finish_spec in E as [[En Ev]|(Ev & s & s' & e & Hsw & En)]; cbn [snd] in En |- *; rewrite S6 in Ev; subst err.
  - refine (oc_installed _ _ _ _ head bundle _ _ _ Ev); [|by cbn; rewrite Hhash].
    split; [by rewrite Hs|exists m; cbn; by rewrite Hhash|done|done|done|].
    exists sn, (w_ext w3), x, v, now. cbn. by rewrite Hhash.
  - by eapply oc_swap_failed.
Qed.

Lemma reconcile_cases r scope w w' out :
  Reconcile r scope w = (w', out) -> outcome_of r (Key scope) (snapshots w) (snapshots w') out.2.
Proof.
  unfold Reconcile. rewrite <- (Key_Normalize scope). generalize (Normalize_idemp scope). generalize (Normalize scope).
  clear scope. intros scope Hn. destruct out as [st err].
  assert (Stop : forall w0, snapshots w0 = snapshots w ->
    retained r (Key scope) (snapshots w0) (snapshots w') /\ is_Some (st, err).2 ->
    outcome_of r (Key scope) (snapshots w) (snapshots w') (st, err).2).
  { intros w0 -> [R [e E]]. cbn in *. subst err. by constructor. }
  intros [S|(w1 & head & _ & S1 & E)]%(guard_step _ _ _ _ scope); [by eapply (Stop w)| |apply keeps_ext|done|done].
  apply (guard_step _ _ _ _ scope) in E as [S|(w2 & u2 & E2 & S2 & E)]; [by eapply (Stop w1)| |apply keeps_lift|done|done].
  apply lift_Ok in E2 as [Hsc _]. unfold check_scope in Hsc. case_decide as Hs; [|done]. rewrite S1 in S2.
  apply (guard_step _ _ _ _ scope) in E as [S|(w3 & m & E3 & S3 & E)]; [by eapply (Stop w2)| |apply keeps_lift|done|done].
  apply lift_Ok in E3 as [Hm _]. rewrite S2 in S3.
  apply (guard_step _ _ _ _ scope) in E as [S|(w4 & u4 & E4 & S4 & E)]; [by eapply (Stop w3)| |apply keeps_signature|done|done].
  apply signature_checked in E4. rewrite S3 in S4. cbv beta in E. rewrite get_view, Key_Normalize in E. fold (snapshots w4) in E.
  rewrite S4 in E. destruct (snapshots w !! Key scope) as [old|] eqn:Eo.
  2: { eapply install_spec in E; try done. - by rewrite S4 in E. - intros old. by rewrite S4, Eo. }
  apply (guard_step _ _ _ _ scope) in E as [S|(w5 & u5 & E5 & S5 & E)]; [by eapply (Stop w4)| |apply keeps_lift|done|done].
  apply lift_Ok in E5 as [Hr _]. destruct u5. rewrite S4 in S5. destruct (unchanged head (HashBytes m) old) eqn:Un.
  - pose proof (reading_store r w5) as Rs. destruct (reading r w5) as [w6 now]. cbn [fst] in Rs.
    assert (S6 : snapshots w6 = snapshots w) by (unfold snapshots in *; by rewrite Rs).
    unfold unchanged in Un. boolean.
    apply finish_spec in E as [[En Ev]|(Ev & s & s' & e & Hsw & En)]; cbn [snd] in En |- *; rewrite S6 in Ev; subst err.
    + by eapply oc_refreshed.
    + by eapply oc_swap_failed.
  - eapply install_spec in E; try done; [by rewrite S5 in E|]. intros old'. rewrite S5, Eo. by intros [= <-].
Qed.
(** ** Only verified policy is ever active *)

Lemma neutered_inactive reason (sn : Snapshot) : ~ is_active (neutered reason sn).
Proof. done. Qed.

Lemma retained_active r k v v' j sn : retained r k v v' -> v' !! j = Some sn -> is_active sn -> v !! j = Some sn.
Proof.
  unfold retained. destruct (v !! k) as [old|] eqn:E; [|by intros ->]. intros [[-> _]|[reason ->]]; [done|].
  destruct (decide (j = k)) as [->|Ne]; [|by rewrite lookup_alter_ne by done].
  rewrite lookup_alter_eq, E. cbn. intros [= <-] A. by destruct (neutered_inactive reason old).
Qed.

Definition all_verified r (v : gmap string Snapshot) : Prop :=
  forall k sn, v !! k = Some sn -> is_active sn -> exists head bundle, installed_from r k head bundle sn.

Lemma installed_refresh r k head bundle sn t :
  installed_from r k head bundle sn -> installed_from r k head bundle (sn <| ep_LastVerifiedAt := t |>).
Proof.
  intros [Sc Ma Si Ha Ca (c & x & x' & v & t0 & Ec & Ev & ->)]. split; try done.
  exists c, x, x', v, t. by split_and!.
Qed.

Lemma outcome_verified r k v v' e : outcome_of r k v v' e -> all_verified r v -> all_verified r v'.
Proof.
  intros O A j sn Hj Act. destruct O as [e R|scope s0 s s' e _ ->|old t Ho Ha ->|head bundle new F _ ->].
  - eapply A; [|done]. by eapply retained_active.
  - by eapply A.
  - destruct (decide (j = k)) as [->|Ne]; [|rewrite lookup_insert_ne in Hj by done; by eapply A].
    rewrite lookup_insert_eq in Hj. injection Hj as <-. destruct (A k old Ho Ha) as (head & bundle & F).
    exists head, bundle. by apply installed_refresh.
  - destruct (decide (j = k)) as [->|Ne]; [|rewrite lookup_insert_ne in Hj by done; by eapply A].
    rewrite lookup_insert_eq in Hj. injection Hj as <-. by exists head, bundle.
Qed.

(** A property of the snapshots that every call of [Reconcile] preserves holds after any series of them. *)
Lemma each_preserves r (P : gmap string Snapshot -> Prop) :
  (forall k v v' e, outcome_of r k v v' e -> P v -> P v') ->
  forall scopes w, P (snapshots w) -> P (snapshots (reconcile_each r scopes w).1).
Proof.
  intros HP. induction scopes as [|scope scopes IH]; intros w Pw; [done|]. cbn [reconcile_each].
  destruct (Reconcile r scope w) as [w1 [status err]] eqn:E. apply reconcile_cases in E. apply HP in E; [|done].
  specialize (IH w1 E). by destruct (reconcile_each r scopes w1) as [w2 [ss es]].
Qed.

Lemma each_verified r scopes w : all_verified r (snapshots w) -> all_verified r (snapshots (reconcile_each r scopes w).1).
Proof. apply each_preserves. intros k v v' e. apply outcome_verified. Qed.

(** ** Epochs *)

(** A compiler that does not contradict the head it was given: the snapshot leaves the epoch and the policy hash
    to the head or repeats them. *)
Definition compiler_faithful r : Prop :=
  forall head bundle x x' c, rr_compiler r head bundle x = (x', Ok (Some c)) ->
    (ep_PolicyEpoch c = 0 \/ ep_PolicyEpoch c = hd_PolicyEpoch head)%Z /\
    (blank (ep_PolicyHash c) = true \/ ep_PolicyHash c = hd_PolicyHash head).

(** The new snapshot is of a later epoch, or of the same epoch and the same signed head. *)
Definition advances (old new : Snapshot) : Prop :=
  (ep_PolicyEpoch old < ep_PolicyEpoch new)%Z \/
  (ep_PolicyEpoch old = ep_PolicyEpoch new /\ ep_PolicyHash old = ep_PolicyHash new /\
   (ep_PolicyHeadHash old <> "" -> ep_PolicyHeadHash old = ep_PolicyHeadHash new)).

#[export] Instance advances_preorder : PreOrder advances.
Proof.
  split; [by right|]. intros a b c [H1|(H1 & H2 & H3)] [G1|(G1 & G2 & G3)]; [left; lia|left; lia|left; lia|].
  right. split_and!; [congruence|congruence|]. intros N. rewrite (H3 N). apply G3. by rewrite <- (H3 N).
Qed.

Lemma normalize_epoch (c : Snapshot) head :
  ep_PolicyEpoch (normalizeSnapshot c head) = (if (ep_PolicyEpoch c =? 0)%Z then hd_PolicyEpoch head else ep_PolicyEpoch c) /\
  ep_PolicyHash (normalizeSnapshot c head) = or_text (ep_PolicyHash c) (hd_PolicyHash head).
Proof. unfold normalizeSnapshot, with_capsule. cbv zeta. destruct (hd_EmergencyCapsule head); by destruct (String.eqb _ ""). Qed.

Lemma validate_epoch (sn v : Snapshot) : validateSnapshot sn = Ok v ->
  ep_PolicyEpoch v = ep_PolicyEpoch sn /\ ep_PolicyHash v = ep_PolicyHash sn.
Proof.
  unfold validateSnapshot. case_match; [done|]. case_match; [done|]. destruct (ep_PolicyLayers sn) as [|l ls]; [by intros [= <-]|].
  intros E. apply res_bind_Ok in E as (res & _ & E). case_match; [done|]. by injection E as <-.
Qed.

Lemma installed_epoch r k head bundle sn : compiler_faithful r -> installed_from r k head bundle sn ->
  ep_PolicyEpoch sn = hd_PolicyEpoch head /\ ep_PolicyHash sn = hd_PolicyHash head.
Proof.
  intros F [_ _ _ _ _ (c & x & x' & v & t & Ec & Ev & Es)]. destruct (F _ _ _ _ _ Ec) as [He Hh].
  destruct (validate_epoch _ _ Ev) as [V1 V2]. destruct (normalize_epoch c head) as [N1 N2].
  rewrite Es. cbn in *. rewrite V1, V2, N1, N2. split.
  - destruct (Z.eqb_spec (ep_PolicyEpoch c) 0); [done|]. by destruct He.
  - unfold or_text. destruct Hh as [->| ->]; [done|]. by destruct (blank _).
Qed.

Lemma replay_advances head m (old new : Snapshot) : replay_check head m old = Ok tt ->
  ep_PolicyEpoch new = hd_PolicyEpoch head -> ep_PolicyHash new = hd_PolicyHash head -> ep_PolicyHeadHash new = m ->
  advances old new.
Proof.
  unfold replay_check, advances. intros Hr -> -> ->.
  destruct (Z.ltb_spec (hd_PolicyEpoch head) (ep_PolicyEpoch old)); [done|].
  destruct (Z.eqb_spec (hd_PolicyEpoch head) (ep_PolicyEpoch old)) as [E|Ne]; [|left; lia]. right. cbn [andb] in Hr.
  destruct (String.eqb_spec (ep_PolicyHash old) (hd_PolicyHash head)); [|done]. cbn [negb andb] in Hr. split_and!; [done|done|]. intros N.
  destruct (String.eqb_spec (ep_PolicyHeadHash old) ""); [done|]. cbn [negb andb] in Hr.
  by destruct (String.eqb_spec (ep_PolicyHeadHash old) m).
Qed.

(** Every snapshot has a successor under the same key. *)
Definition all_advance (v v' : gmap string Snapshot) : Prop :=
  forall k sn, v !! k = Some sn -> exists sn', v' !! k = Some sn' /\ advances sn sn'.

Lemma insert_advances (v : gmap string Snapshot) k new :
  (forall old, v !! k = Some old -> advances old new) -> all_advance v (<[k := new]> v).
Proof.
  intros Hn j sn Hj. destruct (decide (j = k)) as [->|Ne]; [rewrite lookup_insert_eq; by eauto|].
  rewrite lookup_insert_ne by done. exists sn. by split.
Qed.

Lemma outcome_advances r k v v' e : compiler_faithful r -> outcome_of r k v v' e -> all_advance v v'.
Proof.
  intros F [e0 R|scope s0 s s' e0 _ ->|old t Ho Ha ->|head bundle new I Hr ->].
  - unfold retained in R. destruct (v !! k) as [old|] eqn:E; [|subst; intros j sn Hj; exists sn; by split].
    destruct R as [[-> _]|[reason ->]]; [intros j sn Hj; exists sn; by split|]. intros j sn Hj.
    destruct (decide (j = k)) as [->|Ne]; [|rewrite lookup_alter_ne by done; exists sn; by split].
    rewrite lookup_alter_eq, Hj. exists (neutered reason sn). split; [done|]. by right.
  - intros j sn Hj. exists sn. by split.
  - apply insert_advances. intros old' Ho'. rewrite Ho in Ho'. injection Ho' as <-. by right.
  - apply insert_advances. intros old Ho. destruct (installed_epoch _ _ _ _ _ F I) as [E1 E2]. by eapply replay_advances; eauto.
Qed.

Lemma each_advances r scopes w : compiler_faithful r -> all_advance (snapshots w) (snapshots (reconcile_each r scopes w).1).
Proof.
  intros F. apply (each_preserves r (fun v => all_advance (snapshots w) v)).
  - intros k v v' e O A j sn Hj. destruct (A j sn Hj) as (s1 & H1 & A1).
    destruct (outcome_advances _ _ _ _ _ F O _ _ H1) as (s2 & H2 & A2). exists s2. split; [done|]. by etrans.
  - intros k sn Hk. exists sn. by split.
Qed.
(** ** Invariants of the store *)

(** [Reconcile] reaches the store only through [Swap] and [Invalidate] of its scope: what they preserve, it preserves. *)
Section Preserved.
Variables (P : St -> Prop) (scope : PolicyScope).
Hypothesis Hswap : forall (sn : Snapshot) s s' x, P s -> store_swap (Normalize scope) sn s = (s', x) -> P s'.
Hypothesis Hinvalid : forall reason s, P s -> P (store_invalidate (Normalize scope) reason s).1.

Lemma invalid_preserves r status e w w' out :
  rt_TenantID status = TenantID (Normalize scope) -> rt_WorkspaceID status = WorkspaceID (Normalize scope) ->
  P (w_store w) -> invalid r status e w = (w', out) -> P (w_store w').
Proof.
  intros Ht Hw HP. unfold invalid. rewrite Ht, Hw.
  replace (Normalize {| TenantID := TenantID (Normalize scope); WorkspaceID := WorkspaceID (Normalize scope) |})
    with (Normalize scope) by (rewrite <- (Normalize_idemp scope) at 1; by destruct (Normalize scope)).
  destruct (store_get _ _) as [sn|]; [|by intros [= <- _]].
  destruct (lastKnownGoodFresh r sn w) as [w1 b] eqn:L. apply lkg_spec in L as [Es _].
  destruct b; intros [= <- _]; cbn; rewrite Es; [done|]. by apply Hinvalid.
Qed.

Lemma guard_preserves {A} r status code (c : M W A) (f : A -> W -> W * (ReconcileStatus * option error)) w w' out :
  keeps_store c -> rt_TenantID status = TenantID (Normalize scope) -> rt_WorkspaceID status = WorkspaceID (Normalize scope) ->
  P (w_store w) -> (forall a w1, P (w_store w1) -> f a w1 = (w', out) -> P (w_store w')) ->
  step_bind (guard r status code c) f w = (w', out) -> P (w_store w').
Proof.
  intros Q Ht Hw HP Hf. unfold step_bind, guard. destruct (c w) as [w1 [a|e]] eqn:E; apply Q in E.
  - apply Hf. by rewrite E.
  - destruct (invalid _ _ e w1) as [w2 out2] eqn:I. intros [= <- _]. eapply invalid_preserves in I; try done. by rewrite E.
Qed.

Lemma finish_preserves sn status done w w' out :
  P (w_store w) -> finish (Normalize scope) sn status done w = (w', out) -> P (w_store w').
Proof.
  intros HP. unfold finish, on_store. destruct (store_swap _ sn (w_store w)) as [s' [u|e]] eqn:E; intros [= <- _]; cbn; by eapply Hswap.
Qed.

Lemma reconcile_preserves r w : P (w_store w) -> P (w_store (Reconcile r scope w).1).
Proof.
  intros HP. destruct (Reconcile r scope w) as [w' out] eqn:E. cbn [fst].
  unfold Reconcile in E. eapply guard_preserves in E; try done; [apply keeps_ext|]. clear E. intros head w1 H1 E.
  assert (Inst : forall m status w0, P (w_store w0) ->
    rt_TenantID status = TenantID (Normalize scope) -> rt_WorkspaceID status = WorkspaceID (Normalize scope) ->
    install r (Normalize scope) head m status w0 = (w', out) -> P (w_store w')).
  { clear dependent w1. intros m status w0 Hp Ht Hw. unfold install.
    apply guard_preserves; try done; [apply keeps_ext|]. intros bundle w1 H1.
    apply guard_preserves; try done; [apply keeps_lift|]. intros _ w2 H2.
    apply guard_preserves; try done; [apply keeps_capsule|]. intros _ w3 H3.
    apply guard_preserves; try done;
      [apply keeps_bind; [apply keeps_ext|intros [?|]; [apply (keeps_lift (Ok _))|apply keeps_lift]]|]. intros sn w4 H4.
    apply guard_preserves; try done; [apply keeps_lift|]. intros v w5 H5.
    pose proof (reading_store r w5) as Rs. destruct (reading r w5) as [w6 now]. cbn in Rs. apply finish_preserves. by rewrite Rs. }
  eapply guard_preserves in E; try done; [apply keeps_lift|]. clear E. intros _ w2 H2 E.
  eapply guard_preserves in E; try done; [apply keeps_lift|]. clear E. intros m w3 H3 E.
  eapply guard_preserves in E; try done; [apply keeps_signature|]. clear E. intros _ w4 H4 E. cbv beta in E.
  destruct (store_get _ _) as [old|]; [|by eapply Inst in E].
  eapply guard_preserves in E; try done; [apply keeps_lift|]. clear E. intros _ w5 H5 E.
  destruct (unchanged _ _ _); [|by eapply Inst in E].
  pose proof (reading_store r w5) as Rs. destruct (reading r w5) as [w6 now]. cbn in Rs.
  eapply finish_preserves; [|exact E]. by rewrite Rs.
Qed.
End Preserved.

End Reconciled.

(** * Theorems *)

Section Theorems.
Context {Graph PDP Ext St : Type} `{Laws : SnapshotStoreLaws Graph PDP St} `{Hash}.

(** Only verified policy is ever active, whatever the source, the store and the compiler do: after any
    series of reconciliations from an empty store, every snapshot in it that is active was installed from a
    head for its scope whose signature material exists and whose signature verified (or which was unsigned
    where signatures are not required), from bytes with the hash the head names, with its emergency capsule
    verified if it has one, by a compilation whose snapshot passed validation. *)
Theorem installed_policy_verified (r : Reconciler Graph PDP Ext) (scopes : list PolicyScope) (w : World Ext St)
    (k : string) (sn : EffectivePolicySnapshot Graph PDP) :
  view (w_store w) = ∅ ->
  view (w_store (reconcile_each r scopes w).1) !! k = Some sn -> vs_Status (ep_Validation sn) = StatusActive ->
  exists head bundle, installed_from r k head bundle sn.
Proof.
  intros E0 Hk Ha. refine (each_verified r scopes w _ k sn Hk Ha). unfold all_verified, snapshots. rewrite E0.
  intros j s Hj. by rewrite lookup_empty in Hj.
Qed.

(** Policy never goes back: with a compiler that repeats the epoch and hash of the head it compiles, over any
    series of reconciliations every installed snapshot is replaced only by one of a later epoch or of the same
    epoch, policy hash and signed head; a rolled-back or equivocating source cannot change that. *)
Theorem policy_epoch_monotone (r : Reconciler Graph PDP Ext) (scopes : list PolicyScope) (w : World Ext St)
    (k : string) (sn : EffectivePolicySnapshot Graph PDP) :
  compiler_faithful r -> view (w_store w) !! k = Some sn ->
  exists sn', view (w_store (reconcile_each r scopes w).1) !! k = Some sn' /\ advances sn sn'.
Proof. intros F Hk. exact (each_advances r scopes w F k sn Hk). Qed.

End Theorems.

(** * An instance *)

Module ReconcileDemo.
#[local] Instance plain_hash : Hash := fun b => b.
Definition Memory := AtomicSnapshotStore (Graph := string) (PDP := unit).

(** The external state is the clock, which a reading moves on; the source publishes epoch 7 and, from second 100
    on, offers epoch 6 again. *)
Definition published (epoch : Z) : PolicyHead := {|
  hd_Scope := DefaultScope; hd_PolicyEpoch := epoch; hd_PolicyHash := HashBytes (to_bytes "rules"); hd_BundleRef := "file";
  hd_P0CeilingsHash := ""; hd_P1BundleHash := ""; hd_P2OverlayHashes := []; hd_ProofRef := ""; hd_Signature := "sig";
  hd_SourceRefs := []; hd_EmergencyCapsule := None |}.
Definition blank_snapshot : EffectivePolicySnapshot string unit := {|
  ep_TenantID := ""; ep_WorkspaceID := ""; ep_PolicyEpoch := 0; ep_PolicyHash := ""; ep_PolicyHeadHash := "";
  ep_P0CeilingsHash := ""; ep_P1BundleHash := ""; ep_P2OverlayHashes := []; ep_EmergencyCapsuleHash := "";
  ep_EmergencyApertureID := ""; ep_EmergencyExpiresAt := zero_time; ep_SourceRefs := [];
  ep_Validation := {| vs_Status := ""; vs_Reason := ""; vs_Hash := "" |}; ep_LastVerifiedAt := zero_time;
  ep_Graph := Some "rules"; ep_PDP := None; ep_PolicyLayers := [] |}.
Definition reconciler : Reconciler string unit Z := NewReconciler {|
  rr_source := {| ps_ListScopes := mret [DefaultScope];
                  ps_Head := fun _ clock => (clock, Ok (published (if (clock <? 100 * second)%Z then 7 else 6)));
                  ps_Load := fun _ _ => mret (to_bytes "rules") |};
  rr_compiler := fun _ _ => mret (Some blank_snapshot);
  rr_verifier := Some (fun head => if String.eqb (hd_Signature head) "sig" then mret tt else fail "bad signature");
  rr_emergencyVerifier := None; rr_requireSignature := true; rr_keepLastKnownGood := true; rr_lkgMaxAge := 0%Z;
  rr_now := fun clock => ((clock + second)%Z, clock) |}.

Definition at_clock (t : Z) (s : Memory) : World Z Memory :=
  {| w_ext := t; w_store := s; w_status := ∅ |}.
Definition empty_world := at_clock second NewAtomicSnapshotStore.
Definition settled : Memory := w_store (reconcile_each reconciler [DefaultScope] empty_world).1.
Definition current : EffectivePolicySnapshot string unit := default blank_snapshot (settled !! "default/default").

Example first_and_second_round :
  let '(w, out) := ReconcileAll reconciler empty_world in
  let '(w', out') := ReconcileAll reconciler w in
  let '(_, out'') := ReconcileAll reconciler (at_clock (200 * second) (w_store w')) in
  let brief (x : res (list ReconcileStatus * list error)) :=
    match x with Ok (l, e) => (map (fun s => (rt_ReconcileStatus s, rt_InstalledPolicyEpoch s, rt_SnapshotStatus s)) l, e) | Fail _ => ([], []) end in
  (brief out, brief out', brief out'')
  = (([("ok", 7, "active")]%Z, []), ([("no_change", 7, "active")]%Z, []),
     ([("source_error", 7, "active")]%Z, ["policy epoch rollback: installed epoch 7, desired epoch 6"])).
Proof. vm_compute. reflexivity. Qed.

Lemma installed_policy_verified_witness :
  exists head bundle, installed_from reconciler "default/default" head bundle current.
Proof.
  apply (installed_policy_verified (St := Memory) reconciler [DefaultScope] empty_world);
    [reflexivity|vm_compute; reflexivity|vm_compute; reflexivity].
Defined.

Lemma policy_epoch_monotone_witness :
  exists sn', view (w_store (reconcile_each reconciler [DefaultScope; DefaultScope] (at_clock (200 * second) settled)).1)
                !! "default/default" = Some sn' /\ advances current sn'.
Proof.
  apply (policy_epoch_monotone (St := Memory) reconciler [DefaultScope; DefaultScope] (at_clock (200 * second) settled)).
  - intros head bundle x x' c [= <- <-]. split; left; reflexivity.
  - vm_compute. reflexivity.
Defined.

End ReconcileDemo.
