(* ===== verification/PolicyStore.v ===== *)
(** The persistent snapshot store, [core/pkg/policy/reconcile/persistent_store.go]: snapshots in memory and, in
    a file, a replay watermark per scope, so that a restarted kernel still refuses an epoch it had moved past.

    The file is its decoded contents, with the strings as JSON brings them back.  The disk has the contents
    visible now and those that a power loss may bring back: what a rename replaced and no directory sync
    has made final since.  How each write goes is a sequence [st_io] of outcomes, so every theorem holds for every
    combination of failures; a run of the kernel interleaves reconciliations with restarts. *)
From Stdlib Require Import Ascii.
From stdpp Require Import sorting.
From S2P Require Import Prelude GoLib GoFmt Utf8 Jcs Contracts Signing Prg SafeDep PolicyScopes Cpi Reconcile.

Local Open Scope string_scope.

(** * Watermarks *)

Definition policyReplayWatermarkVersion : Z := 1.
Definition maxPolicyReplayWatermarkBytes : Z := 1048576.
Definition maxPolicyReplayWatermarks : Z := 10000.
Definition persistedReplayWatermarkReason := "persisted replay watermark requires policy source revalidation".
Definition ErrPolicyReplayStateInvalid : error := "policy replay state invalid".

Record policyReplayWatermark := {
  wm_TenantID : string;
  wm_WorkspaceID : string;
  wm_PolicyEpoch : Z;
  wm_PolicyHash : string;
  wm_PolicyHeadHash : string;
}.
#[export] Instance policyReplayWatermark_eq_dec : EqDecision policyReplayWatermark.
Proof. solve_decision. Defined.

Record policyReplayWatermarkState := { wms_Version : Z; wms_Watermarks : list policyReplayWatermark }.

Notation watermarks := (gmap string policyReplayWatermark).

Definition wm_scope (w : policyReplayWatermark) : PolicyScope :=
  {| TenantID := wm_TenantID w; WorkspaceID := wm_WorkspaceID w |}.

Definition validPolicyReplayDigest (value : string) : bool :=
  if negb (has_prefix value "sha256:") || negb (Nat.eqb (String.length value) (String.length "sha256:" + 64)) then false
  else
    let digest := trim_prefix value "sha256:" in
    if negb (String.eqb digest (to_lower digest)) then false
    else match hex_decode digest with Some _ => true | None => false end.

Definition validatePolicyReplayWatermark (w : policyReplayWatermark) : res unit :=
  if String.eqb (wm_TenantID w) "" || negb (String.eqb (wm_TenantID w) (trim_space (wm_TenantID w)))
     || String.eqb (wm_WorkspaceID w) "" || negb (String.eqb (wm_WorkspaceID w) (trim_space (wm_WorkspaceID w)))
     || (wm_PolicyEpoch w =? 0)%Z || negb (validPolicyReplayDigest (wm_PolicyHash w))
     || negb (validPolicyReplayDigest (wm_PolicyHeadHash w))
  then Fail (ErrPolicyReplayStateInvalid +:+ ": watermark fields are invalid")
  else Ok tt.

Definition json_of_watermark (w : policyReplayWatermark) : json :=
  JObj [("tenant_id", JStr (wm_TenantID w)); ("workspace_id", JStr (wm_WorkspaceID w));
        ("policy_epoch", JNum (dec (wm_PolicyEpoch w))); ("policy_hash", JStr (wm_PolicyHash w));
        ("policy_head_hash", JStr (wm_PolicyHeadHash w))].
Definition json_of_state (st : policyReplayWatermarkState) : json :=
  JObj [("version", JNum (dec (wms_Version st))); ("watermarks", JArr (map json_of_watermark (wms_Watermarks st)))].

(** * The file *)

(** What [os.Lstat], the open, the read and the decoding find at the path. *)
Inductive file :=
| NoFile
| NotRegular
| NotPrivate
| Unreadable (text : error)
| Oversized
| Undecodable (text : error)
| Trailing
| Contents (st : policyReplayWatermarkState).

(** A watermark after [json.Marshal] and [json.Unmarshal]. *)
Definition reread_watermark (w : policyReplayWatermark) : policyReplayWatermark := {|
  wm_TenantID := clean (wm_TenantID w); wm_WorkspaceID := clean (wm_WorkspaceID w); wm_PolicyEpoch := wm_PolicyEpoch w;
  wm_PolicyHash := clean (wm_PolicyHash w); wm_PolicyHeadHash := clean (wm_PolicyHeadHash w) |}.

Fixpoint collect (l : list policyReplayWatermark) (m : watermarks) : res watermarks :=
  match l with
  | [] => Ok m
  | w :: l =>
      _ ← validatePolicyReplayWatermark w;
      let key := Key (wm_scope w) in
      match m !! key with
      | Some _ => Fail (ErrPolicyReplayStateInvalid +:+ ": duplicate scope " +:+ key)
      | None => collect l (<[key := w]> m)
      end
  end.

Definition loadPolicyReplayWatermarks (f : file) : res watermarks :=
  match f with
  | NoFile => Ok ∅
  | NotRegular | NotPrivate => Fail (ErrPolicyReplayStateInvalid +:+ ": watermark file must be a private regular file")
  | Unreadable text => Fail ("load policy replay watermark: " +:+ text)
  | Oversized => Fail (ErrPolicyReplayStateInvalid +:+ ": watermark file exceeds " +:+ dec maxPolicyReplayWatermarkBytes +:+ " bytes")
  | Undecodable text => Fail (ErrPolicyReplayStateInvalid +:+ ": decode watermark file: " +:+ text)
  | Trailing => Fail (ErrPolicyReplayStateInvalid +:+ ": watermark file has trailing data")
  | Contents st =>
      if negb (wms_Version st =? policyReplayWatermarkVersion)%Z
         || (maxPolicyReplayWatermarks <? Z.of_nat (length (wms_Watermarks st)))%Z
      then Fail (ErrPolicyReplayStateInvalid +:+ ": unsupported watermark state")
      else collect (wms_Watermarks st) ∅
  end.

Record Disk := { visible : file; unsynced : list file }.

(** How the file operations of one write go. *)
Inductive io := io_failed (text : error) | io_unsynced (text : error) | io_written.

(** Sorted by the key they are stored under. *)
Definition state_of (ws : watermarks) : policyReplayWatermarkState := {|
  wms_Version := policyReplayWatermarkVersion;
  wms_Watermarks := omap (fun k => ws !! k) (sort_strings (map fst (map_to_list ws))) |}.

Definition written_file (st : policyReplayWatermarkState) : file :=
  Contents {| wms_Version := wms_Version st; wms_Watermarks := map reread_watermark (wms_Watermarks st) |}.

(** The new disk, whether the new state is visible, and the error. *)
Definition writePolicyReplayWatermarks (o : io) (ws : watermarks) (d : Disk) : Disk * (bool * option error) :=
  if (maxPolicyReplayWatermarks <? Z.of_nat (size ws))%Z then
    (d, (false, Some (ErrPolicyReplayStateInvalid +:+ ": watermark count exceeds " +:+ dec maxPolicyReplayWatermarks)))
  else
    let st := state_of ws in
    if (maxPolicyReplayWatermarkBytes <? Z.of_nat (length (json_marshal (json_of_state st))) + 1)%Z then
      (d, (false, Some (ErrPolicyReplayStateInvalid +:+ ": watermark state exceeds " +:+ dec maxPolicyReplayWatermarkBytes +:+ " bytes")))
    else
      match visible d, o with
      | NotRegular, _ => (d, (false, Some (ErrPolicyReplayStateInvalid +:+ ": watermark target must be a regular file")))
      | _, io_failed text => (d, (false, Some text))
      | _, io_unsynced text => ({| visible := written_file st; unsynced := visible d :: unsynced d |}, (true, Some text))
      | _, io_written => ({| visible := written_file st; unsynced := [] |}, (true, None))
      end.

(** * The store *)

Section Store.
Context {Graph PDP : Type}.
Notation Snapshot := (EffectivePolicySnapshot Graph PDP).

Record PersistentSnapshotStore := {
  st_memory : AtomicSnapshotStore (Graph := Graph) (PDP := PDP);
  st_watermarks : watermarks;
  st_durabilityUnconfirmed : bool;
  st_disk : Disk;
  st_io : list io;
}.
#[export] Instance PersistentSnapshotStore_eta : Eta PersistentSnapshotStore := fun s => {|
  st_memory := st_memory s; st_watermarks := st_watermarks s; st_durabilityUnconfirmed := st_durabilityUnconfirmed s;
  st_disk := st_disk s; st_io := st_io s |}.

Definition wm_snapshot (w : policyReplayWatermark) : Snapshot := {|
  ep_TenantID := wm_TenantID w; ep_WorkspaceID := wm_WorkspaceID w; ep_PolicyEpoch := wm_PolicyEpoch w;
  ep_PolicyHash := wm_PolicyHash w; ep_PolicyHeadHash := wm_PolicyHeadHash w; ep_P0CeilingsHash := ""; ep_P1BundleHash := "";
  ep_P2OverlayHashes := []; ep_EmergencyCapsuleHash := ""; ep_EmergencyApertureID := ""; ep_EmergencyExpiresAt := zero_time;
  ep_SourceRefs := [];
  ep_Validation := {| vs_Status := StatusInvalid; vs_Reason := persistedReplayWatermarkReason; vs_Hash := "" |};
  ep_LastVerifiedAt := zero_time; ep_Graph := None; ep_PDP := None; ep_PolicyLayers := [] |}.

(** The path is checked once; afterwards it is the disk's one file. *)
Definition NewPersistentSnapshotStore (path : string) (outcomes : list io) (d : Disk) : res PersistentSnapshotStore :=
  if String.eqb path "" || negb (String.eqb path (trim_space path))
  then Fail (ErrPolicyReplayStateInvalid +:+ ": watermark path is invalid")
  else
    ws ← loadPolicyReplayWatermarks (visible d);
    Ok {| st_memory := map_fold (fun _ w mem => (AtomicSwap (wm_scope w) (wm_snapshot w) mem).1) NewAtomicSnapshotStore ws;
          st_watermarks := ws; st_durabilityUnconfirmed := false; st_disk := d; st_io := outcomes |}.

Definition replayWatermarkFromSnapshot (scope : PolicyScope) (sn : Snapshot) : res policyReplayWatermark :=
  let scope := Normalize scope in
  if negb (bool_decide (Scope sn = scope))
  then Fail (ErrPolicyScopeMismatch +:+ ": store scope " +:+ Key scope +:+ ", snapshot scope " +:+ Key (Scope sn))
  else
    let w := {| wm_TenantID := TenantID scope; wm_WorkspaceID := WorkspaceID scope; wm_PolicyEpoch := ep_PolicyEpoch sn;
                wm_PolicyHash := ep_PolicyHash sn; wm_PolicyHeadHash := ep_PolicyHeadHash sn |} in
    _ ← validatePolicyReplayWatermark w;
    Ok w.

Definition in_memory (scope : PolicyScope) (sn : Snapshot) : M PersistentSnapshotStore unit := fun s =>
  let '(mem, r) := AtomicSwap scope sn (st_memory s) in (s <| st_memory := mem |>, r).

(** An exhausted list of outcomes means that the writes go well. *)
Definition persist (next : watermarks) : M PersistentSnapshotStore unit := fun s =>
  let '(d, (committed, err)) := writePolicyReplayWatermarks (default io_written (head (st_io s))) next (st_disk s) in
  let s := s <| st_disk := d |> <| st_io := tail (st_io s) |> in
  let s := if committed then s <| st_watermarks := next |> else s in
  match err with
  | Some text =>
      (if committed then s <| st_durabilityUnconfirmed := true |> else s, Fail ("persist policy replay watermark: " +:+ text))
  | None =>
      if negb committed then (s, Fail "persist policy replay watermark: writer returned without committing state")
      else (s <| st_watermarks := next |> <| st_durabilityUnconfirmed := false |>, Ok tt)
  end.

Definition refuse_replay (w : policyReplayWatermark) (existing : option policyReplayWatermark) : res unit :=
  match existing with
  | None => Ok tt
  | Some e =>
      if (wm_PolicyEpoch w <? wm_PolicyEpoch e)%Z then
        Fail (ErrPolicyEpochRollback +:+ ": persisted epoch " +:+ dec (wm_PolicyEpoch e) +:+ ", proposed epoch "
              +:+ dec (wm_PolicyEpoch w))
      else if (wm_PolicyEpoch w =? wm_PolicyEpoch e)%Z
              && (negb (String.eqb (wm_PolicyHash w) (wm_PolicyHash e))
                  || negb (String.eqb (wm_PolicyHeadHash w) (wm_PolicyHeadHash e))) then
        Fail (ErrPolicyEpochEquivocation +:+ ": epoch " +:+ dec (wm_PolicyEpoch w) +:+ " changed persisted policy head")
      else Ok tt
  end.

Definition PersistentSwap (scope : PolicyScope) (sn : Snapshot) : M PersistentSnapshotStore unit := fun s =>
  (w ← lift (replayWatermarkFromSnapshot scope sn);
   let key := Key (wm_scope w) in
   let existing := st_watermarks s !! key in
   lift (refuse_replay w existing);;
   (if negb (bool_decide (existing = Some w)) || st_durabilityUnconfirmed s
    then persist (<[key := w]> (st_watermarks s)) else mret tt);;
   in_memory scope sn) s.

Definition PersistentGet (scope : PolicyScope) (s : PersistentSnapshotStore) : option Snapshot := AtomicGet scope (st_memory s).
Definition PersistentInvalidate (scope : PolicyScope) (reason : string) (s : PersistentSnapshotStore)
    : PersistentSnapshotStore * option Snapshot :=
  let '(mem, r) := AtomicInvalidate scope reason (st_memory s) in (s <| st_memory := mem |>, r).

#[export] Instance persistent_store : SnapshotStore PersistentSnapshotStore := {
  store_get := PersistentGet; store_swap := PersistentSwap; store_invalidate := PersistentInvalidate }.

(** ** What a swap does *)

(** Watermarks small enough to be written. *)
Definition fits (ws : watermarks) : Prop := (Z.of_nat (size ws) <= maxPolicyReplayWatermarks)%Z.

Lemma write_cases o ws d d' c e : writePolicyReplayWatermarks o ws d = (d', (c, e)) ->
  (d' = d /\ c = false /\ is_Some e) \/
  (fits ws /\ c = true /\
   ((is_Some e /\ d' = {| visible := written_file (state_of ws); unsynced := visible d :: unsynced d |}) \/
    (e = None /\ d' = {| visible := written_file (state_of ws); unsynced := [] |}))).
Proof.
  unfold writePolicyReplayWatermarks, fits. destruct (Z.ltb_spec maxPolicyReplayWatermarks (Z.of_nat (size ws))).
  { intros [= <- <- <-]. left. by eauto. }
  match goal with |- context [if ?b then _ else _] => destruct b end; [intros [= <- <- <-]; left; by eauto|].
  destruct (visible d) eqn:V; [|intros [= <- <- <-]; left; by eauto|..];
    (destruct o; intros [= <- <- <-]; [left; by eauto|right|right]; naive_solver).
Qed.

(** The snapshot put in memory. *)
Definition installed (scope : PolicyScope) (sn : Snapshot) (s : PersistentSnapshotStore) : PersistentSnapshotStore :=
  s <| st_memory := <[Key scope := sn]> (st_memory s) |>.

Inductive swap_outcome (scope : PolicyScope) (sn : Snapshot) (s s' : PersistentSnapshotStore) : res unit -> Prop :=
| so_refused e : s' = s <| st_io := st_io s' |> -> swap_outcome scope sn s s' (Fail e)
| so_unsynced w e : replayWatermarkFromSnapshot scope sn = Ok w ->
    refuse_replay w (st_watermarks s !! Key scope) = Ok tt -> fits (<[Key scope := w]> (st_watermarks s)) ->
    s' = s <| st_watermarks := <[Key scope := w]> (st_watermarks s) |> <| st_durabilityUnconfirmed := true |>
           <| st_disk := {| visible := written_file (state_of (<[Key scope := w]> (st_watermarks s)));
                            unsynced := visible (st_disk s) :: unsynced (st_disk s) |} |>
           <| st_io := st_io s' |> ->
    swap_outcome scope sn s s' (Fail e)
| so_known w : replayWatermarkFromSnapshot scope sn = Ok w -> st_watermarks s !! Key scope = Some w ->
    st_durabilityUnconfirmed s = false -> s' = installed scope sn s -> swap_outcome scope sn s s' (Ok tt)
| so_written w : replayWatermarkFromSnapshot scope sn = Ok w ->
    refuse_replay w (st_watermarks s !! Key scope) = Ok tt -> fits (<[Key scope := w]> (st_watermarks s)) ->
    s' = installed scope sn (s <| st_watermarks := <[Key scope := w]> (st_watermarks s) |> <| st_durabilityUnconfirmed := false |>
           <| st_disk := {| visible := written_file (state_of (<[Key scope := w]> (st_watermarks s))); unsynced := [] |} |>
           <| st_io := st_io s' |>) ->
    swap_outcome scope sn s s' (Ok tt).

Lemma watermark_scope scope sn w : replayWatermarkFromSnapshot scope sn = Ok w ->
  wm_scope w = Normalize scope /\ validatePolicyReplayWatermark w = Ok tt /\ advances sn (wm_snapshot w).
Proof.
  unfold replayWatermarkFromSnapshot. case_match; [done|]. intros E. apply res_bind_Ok in E as ([] & V & [= <-]).
  split_and!; [reflexivity|done|by right].
Qed.

Lemma swap_cases scope sn s s' r : PersistentSwap scope sn s = (s', r) -> swap_outcome scope sn s s' r.
Proof.
  unfold PersistentSwap.
  intros [(e & E & ->)|(s1 & w & [Hw ->]%lift_Ok & E)]%M_bind_cases.
  { injection E as <- E. apply so_refused. by destruct s. }
  destruct (watermark_scope _ _ _ Hw) as (Hs & _ & _). rewrite Hs, Key_Normalize in E.
  apply M_bind_cases in E as [(e & E & ->)|(s2 & [] & [Hr ->]%lift_Ok & E)].
  { injection E as <- E. apply so_refused. by destruct s. }
  apply M_bind_cases in E as [(e & E & ->)|(s3 & [] & Ep & E)].
  - destruct (negb _ || _); [|done]. unfold persist in E.
    destruct (writePolicyReplayWatermarks _ _ _) as [d [c err]] eqn:Wr.
    apply write_cases in Wr as [(-> & -> & [x ->])|(F & -> & [([x ->] & ->)|(-> & ->)])]; [| |done].
    + injection E as <- _. apply so_refused. by destruct s.
    + injection E as <- _. by eapply so_unsynced.
  - injection E as <- <-. rewrite ?Key_Normalize. destruct (negb _ || _) eqn:Need in Ep.
    + unfold persist in Ep. destruct (writePolicyReplayWatermarks _ _ _) as [d [c err]] eqn:Wr.
      apply write_cases in Wr as [(-> & -> & [x ->])|(F & -> & [([x ->] & ->)|(-> & ->)])]; [done|done|].
      injection Ep as <-. by eapply so_written.
    + injection Ep as <-. apply orb_false_iff in Need as [N F]. apply negb_false_iff, bool_decide_eq_true in N.
      by eapply so_known.
Qed.

(** ** The interface *)

#[export] Instance persistent_laws : SnapshotStoreLaws PersistentSnapshotStore.
Proof.
  refine {| view := st_memory |}; [done| |].
  - intros scope sn s s' r [e ->|w e _ _ _ ->|w _ _ _ ->|w _ _ _ ->]%swap_cases; rewrite ?Key_Normalize; done.
  - intros scope reason s. pose proof (invalidate_view (St := AtomicSnapshotStore) scope reason (st_memory s)) as V.
    cbn [store_invalidate persistent_store atomic_store] in *. unfold PersistentInvalidate.
    by destruct (AtomicInvalidate scope reason (st_memory s)).
Defined.

(** ** Reading back what was written *)

Definition wf_watermarks (ws : watermarks) : Prop :=
  forall k w, ws !! k = Some w -> k = Key (wm_scope w) /\ validatePolicyReplayWatermark w = Ok tt /\ reread_watermark w = w.

Lemma collect_spec (ws : watermarks) ks m : wf_watermarks ws -> NoDup ks ->
  (forall k, k ∈ ks -> is_Some (ws !! k) /\ m !! k = None) ->
  exists m', collect (omap (fun k => ws !! k) ks) m = Ok m' /\
    forall k, m' !! k = if decide (k ∈ ks) then ws !! k else m !! k.
Proof.
  intros Wf. revert m. induction ks as [|k0 ks IH]; intros m Nd Hk; [exists m; by split|].
  apply NoDup_cons in Nd as [Ni Nd]. destruct (Hk k0) as [[w Hw] Hm]; [by left|]. destruct (Wf _ _ Hw) as (E & V & _).
  cbn [omap list_omap collect]. rewrite Hw. cbn [collect]. rewrite V. cbn [mbind res_bind]. rewrite <- E, Hm.
  destruct (IH (<[k0 := w]> m)) as (m' & -> & Hm'); [done| |].
  { intros k Hin. destruct (Hk k) as [Hs Hn]; [by right|]. split; [done|]. rewrite lookup_insert_ne; [done|]. by intros ->. }
  exists m'. split; [done|]. intros k. rewrite Hm'. destruct (decide (k ∈ ks)).
  - by rewrite decide_True by (by right).
  - destruct (decide (k = k0)) as [->|Ne].
    + by rewrite decide_True, lookup_insert_eq, Hw by left.
    + rewrite decide_False, lookup_insert_ne by (done || by intros [?|?]%elem_of_cons). done.
Qed.

Lemma sorted_keys (ws : watermarks) : NoDup (sort_strings (map fst (map_to_list ws))) /\
  (forall k, k ∈ sort_strings (map fst (map_to_list ws)) <-> is_Some (ws !! k)) /\
  length (sort_strings (map fst (map_to_list ws))) = size ws.
Proof.
  assert (P : sort_strings (map fst (map_to_list ws)) ≡ₚ (map_to_list ws).*1) by apply merge_sort_Permutation.
  split_and!.
  - rewrite P. apply NoDup_fst_map_to_list.
  - intros k. rewrite P, list_elem_of_fmap. split.
    + intros ([k' w] & -> & Hin). apply elem_of_map_to_list in Hin. by eauto.
    + intros [w Hw]. exists (k, w). split; [done|]. by apply elem_of_map_to_list.
  - rewrite P, length_fmap. apply length_map_to_list.
Qed.

Lemma reload_written (ws : watermarks) : wf_watermarks ws -> fits ws ->
  loadPolicyReplayWatermarks (written_file (state_of ws)) = Ok ws.
Proof.
  intros Wf F. destruct (sorted_keys ws) as (Nd & Hin & Len).
  cbn [loadPolicyReplayWatermarks written_file wms_Version wms_Watermarks state_of].
  set (ks := sort_strings _) in *. unfold state_of. fold ks.
  assert (R : map reread_watermark (omap (fun k => ws !! k) ks) = omap (fun k => ws !! k) ks).
  { clear -Wf. induction ks as [|k ks IH]; [done|]. cbn [omap list_omap]. destruct (ws !! k) as [w|] eqn:E; [|done].
    cbn [map]. rewrite IH. f_equal. by apply Wf in E as (_ & _ & E). }
  cbn [wms_Watermarks]. rewrite R.
  assert (L : (length (omap (fun k => ws !! k) ks) <= size ws)%nat).
  { rewrite <- Len. clear. induction ks as [|k ks IH]; [done|]. cbn. destruct (ws !! k); cbn; lia. }
  unfold fits in F. rewrite (proj2 (Z.ltb_ge _ _)) by lia. cbn [orb negb Z.eqb Pos.eqb policyReplayWatermarkVersion].
  destruct (collect_spec ws ks ∅ Wf Nd) as (m & -> & Hm).
  { intros k Hk. split; [by apply Hin|apply lookup_empty]. }
  f_equal. apply map_eq. intros k. rewrite Hm, lookup_empty. destruct (decide (k ∈ ks)) as [|N]; [done|].
  destruct (ws !! k) eqn:E; [|done]. destruct N. apply Hin. by rewrite E.
Qed.

(** A digest is ASCII, so only the names depend on what JSON does to text that is not UTF-8. *)
Lemma hexval_ascii c n : hexval c = Some n -> (bz c < 128)%Z.
Proof.
  intros Hc. assert (nat_of_ascii c <= 102)%nat; [|unfold bz, nat_of_ascii in *; lia]. unfold hexval in Hc.
  destruct (Nat.leb_spec (nat_of_ascii c) 57); [lia|]. destruct (Nat.leb_spec (nat_of_ascii c) 102); [done|].
  destruct (Nat.leb_spec (nat_of_ascii c) 70); [lia|]. by rewrite !andb_false_r in Hc.
Qed.
Lemma unhex_ascii n : forall l b, (length l <= n)%nat -> unhex l = Some b -> Forall (fun c => (bz c < 128)%Z) l.
Proof.
  induction n as [|n IH]; intros [|x [|y l]] b Hn; cbn [unhex length] in *; try done; try lia; try (by repeat constructor).
  intros (h & Hx & (d & Hy & (r & Hr & _)%bind_Some)%bind_Some)%bind_Some.
  constructor; [by eapply hexval_ascii|]. constructor; [by eapply hexval_ascii|]. eapply IH; [|done]. lia.
Qed.

Lemma clean_valid s : valid_utf8 (to_bytes s) = true -> clean s = s.
Proof. intros V. unfold clean. rewrite sanitize_id by done. apply of_to_bytes. Qed.

Lemma digest_clean d : validPolicyReplayDigest d = true -> clean d = d.
Proof.
  unfold validPolicyReplayDigest. destruct (has_prefix d "sha256:") eqn:P; [|done]. cbn [negb orb].
  case_match; [done|]. case_match; [done|]. destruct (hex_decode _) as [b|] eqn:Hd; [|done]. intros _.
  apply clean_valid, valid_ascii. unfold hex_decode, trim_prefix in Hd.
  destruct (strip_prefix _ _) as [r|] eqn:S; [|by eapply unhex_ascii].
  apply strip_prefix_app in S. rewrite S. rewrite to_of_bytes in Hd. apply Forall_app. split; [|by eapply unhex_ascii].
  repeat constructor.
Qed.

(** ** The invariant of the store *)

Definition utf8_scope (scope : PolicyScope) : bool :=
  valid_utf8 (to_bytes (TenantID scope)) && valid_utf8 (to_bytes (WorkspaceID scope)).

(** The floor a file holds for each scope: the snapshots a store restored from it starts with. *)
Definition floors (ws : watermarks) : gmap string Snapshot := wm_snapshot <$> ws.

(** Whatever a power loss brings back can be read and is at or above every snapshot in memory. *)
Record store_inv (s : PersistentSnapshotStore) : Prop := {
  si_wf : wf_watermarks (st_watermarks s);
  si_visible : loadPolicyReplayWatermarks (visible (st_disk s)) = Ok (st_watermarks s);
  si_possible : forall f, f ∈ visible (st_disk s) :: unsynced (st_disk s) ->
    exists ws, loadPolicyReplayWatermarks f = Ok ws /\ wf_watermarks ws /\ all_advance (st_memory s) (floors ws);
  si_confirmed : st_durabilityUnconfirmed s = false -> unsynced (st_disk s) = [];
}.

Lemma all_advance_trans (v1 v2 v3 : gmap string Snapshot) : all_advance v1 v2 -> all_advance v2 v3 -> all_advance v1 v3.
Proof.
  intros A B k sn Hk. destruct (A _ _ Hk) as (s2 & H2 & A2). destruct (B _ _ H2) as (s3 & H3 & A3).
  exists s3. split; [done|]. by etrans.
Qed.

Lemma floors_insert ws k w : floors (<[k := w]> ws) = <[k := wm_snapshot w]> (floors ws).
Proof. apply fmap_insert. Qed.

Lemma Normalize_utf8 scope : utf8_scope scope = true -> utf8_scope (Normalize scope) = true.
Proof. unfold utf8_scope, Normalize. destruct (blank (TenantID scope)), (blank (WorkspaceID scope)); cbn; intros U; boolean; by rewrite ?andb_true_iff. Qed.

Lemma watermark_reread scope sn w : utf8_scope scope = true -> replayWatermarkFromSnapshot scope sn = Ok w ->
  reread_watermark w = w.
Proof.
  intros U E. destruct (watermark_scope _ _ _ E) as (Hs & V & _). apply Normalize_utf8 in U. rewrite <- Hs in U.
  unfold utf8_scope, wm_scope in U. cbn in U. unfold validatePolicyReplayWatermark in V. case_match; [done|]. boolean.
  destruct w. unfold reread_watermark. cbn in *. f_equal; try (apply digest_clean; done); by apply clean_valid.
Qed.

Lemma replay_above w existing (ws : watermarks) k : ws !! k = existing -> refuse_replay w existing = Ok tt ->
  all_advance (floors ws) (floors (<[k := w]> ws)).
Proof.
  intros E R. rewrite floors_insert. apply insert_advances. intros old Ho. unfold floors in Ho.
  rewrite lookup_fmap, E in Ho. destruct existing as [e|]; [|done]. injection Ho as <-. unfold refuse_replay in R.
  destruct (Z.ltb_spec (wm_PolicyEpoch w) (wm_PolicyEpoch e)); [done|].
  destruct (Z.eqb_spec (wm_PolicyEpoch w) (wm_PolicyEpoch e)) as [Q|]; [|left; cbn; lia]. cbn [andb] in R. right. cbn.
  destruct (String.eqb_spec (wm_PolicyHash w) (wm_PolicyHash e)); [|done].
  destruct (String.eqb_spec (wm_PolicyHeadHash w) (wm_PolicyHeadHash e)); [|done]. cbn. by rewrite Q.
Qed.

Lemma insert_wf ws scope sn w : utf8_scope scope = true -> replayWatermarkFromSnapshot scope sn = Ok w ->
  wf_watermarks ws -> wf_watermarks (<[Key scope := w]> ws).
Proof.
  intros U E Wf k x. destruct (watermark_scope _ _ _ E) as (Hs & V & _). destruct (decide (k = Key scope)) as [->|Ne].
  - rewrite lookup_insert_eq. intros [= <-]. split_and!; [by rewrite Hs, Key_Normalize|done|by eapply watermark_reread].
  - rewrite lookup_insert_ne by done. apply Wf.
Qed.

(** Memory and floor move together. *)
Lemma both_advance (mem : gmap string Snapshot) ws scope sn w :
  replayWatermarkFromSnapshot scope sn = Ok w -> all_advance mem (floors ws) ->
  all_advance (<[Key scope := sn]> mem) (floors (<[Key scope := w]> ws)).
Proof.
  intros E A k x. destruct (watermark_scope _ _ _ E) as (_ & _ & Ad). rewrite floors_insert.
  destruct (decide (k = Key scope)) as [->|Ne]; [rewrite !lookup_insert_eq; intros [= <-]; by eauto|].
  rewrite !lookup_insert_ne by done. apply A.
Qed.

Lemma swap_inv scope sn s s' r : utf8_scope scope = true -> store_inv s -> PersistentSwap scope sn s = (s', r) -> store_inv s'.
Proof.
  intros U [Wf Vi Po Co] [e ->|w e Hw Hr F ->|w Hw Hk Hc ->|w Hw Hr F ->]%swap_cases.
  - by split.
  - pose proof (insert_wf _ _ _ _ U Hw Wf) as Wf'. split; cbn; [done|by apply reload_written| |done].
    intros f [->|Hf]%elem_of_cons; [|by apply Po]. exists (<[Key scope := w]> (st_watermarks s)).
    split_and!; [by apply reload_written|done|]. destruct (Po (visible (st_disk s))) as (ws & L & _ & A); [by left|].
    rewrite Vi in L. injection L as <-. eapply all_advance_trans; [exact A|]. by eapply replay_above.
  - split; cbn; [done|done| |done]. rewrite (Co Hc). intros f ->%list_elem_of_singleton.
    destruct (Po (visible (st_disk s))) as (ws & L & _ & A); [by left|]. rewrite Vi in L. injection L as <-.
    exists (st_watermarks s). split_and!; [done|done|]. rewrite <- (insert_id _ _ _ Hk). by apply both_advance.
  - pose proof (insert_wf _ _ _ _ U Hw Wf) as Wf'. split; cbn; [done|by apply reload_written| |done].
    intros f ->%list_elem_of_singleton. exists (<[Key scope := w]> (st_watermarks s)). split_and!; [by apply reload_written|done|].
    destruct (Po (visible (st_disk s))) as (ws & L & _ & A); [by left|]. rewrite Vi in L. injection L as <-. by apply both_advance.
Qed.

Lemma invalidate_inv scope reason s : store_inv s -> store_inv (PersistentInvalidate scope reason s).1.
Proof.
  intros [Wf Vi Po Co]. pose proof (invalidate_view (St := AtomicSnapshotStore) scope reason (st_memory s)) as V.
  unfold PersistentInvalidate. cbn in V. destruct (AtomicInvalidate scope reason (st_memory s)) as [mem o]. cbn in *. subst mem.
  split; cbn; [done|done| |done]. intros f Hf. destruct (Po f Hf) as (ws & L & W & A). exists ws. split_and!; [done|done|].
  intros k x. destruct (decide (k = Key (Normalize scope))) as [->|Ne]; [|rewrite lookup_alter_ne by done; apply A].
  rewrite lookup_alter_eq. unfold AtomicSnapshotStore in *. intros (sn & E & ->)%fmap_Some.
  destruct (A _ _ E) as (y & Hy & Ad). by exists y.
Qed.

(** ** Restarts *)

Lemma restored_memory (ws : watermarks) : wf_watermarks ws ->
  map_fold (fun _ w mem => (AtomicSwap (wm_scope w) (wm_snapshot w) mem).1) NewAtomicSnapshotStore ws = floors ws.
Proof.
  intros Wf. unfold floors. revert Wf.
  refine (map_fold_weak_ind (fun mem ws => wf_watermarks ws -> mem = wm_snapshot <$> ws) _ _ _ _ ws).
  - intros _. by rewrite fmap_empty.
  - intros k w m mem Hk IH Wf. rewrite fmap_insert, IH.
    + cbn. destruct (Wf k w) as (E & _ & _); [by rewrite lookup_insert_eq|]. by rewrite Key_Normalize, <- E.
    + intros j x Hj. apply Wf. rewrite lookup_insert_ne; [done|]. intros ->. congruence.
Qed.

Definition valid_path (path : string) : Prop := path <> "" /\ trim_space path = path.

(** A store opened on a file that a store with the invariant may have left, alone on the disk. *)
Lemma opened_inv path outcomes f ws : valid_path path -> loadPolicyReplayWatermarks f = Ok ws -> wf_watermarks ws ->
  exists s, NewPersistentSnapshotStore path outcomes {| visible := f; unsynced := [] |} = Ok s /\
    store_inv s /\ st_memory s = floors ws.
Proof.
  intros [Hp Ht] L Wf. unfold NewPersistentSnapshotStore. rewrite Ht, String.eqb_refl.
  destruct (String.eqb_spec path ""); [done|]. cbn [orb negb visible]. rewrite L. cbn [mbind res_bind].
  rewrite (restored_memory _ Wf). eexists. split; [done|]. split; [|done].
  split; cbn; [done|done| |done]. intros g ->%list_elem_of_singleton. exists ws. split_and!; [done|done|].
  intros k x Hk. by exists x.
Qed.

Context {Ext : Type} `{Hash}.
Notation W := (World Ext PersistentSnapshotStore).

(** What happens to a kernel: a series of reconciliations; its process is restarted; the machine loses power,
    and the disk comes back with one of the contents it may have. *)
Inductive event :=
| Poll (scopes : list PolicyScope)
| Restart (outcomes : list io)
| PowerLoss (choice : nat) (outcomes : list io).

Definition reopen (path : string) (outcomes : list io) (d : Disk) (w : W) : option W :=
  match NewPersistentSnapshotStore path outcomes d with
  | Ok s => Some {| w_ext := w_ext w; w_store := s; w_status := ∅ |}
  | Fail _ => None
  end.

Definition handle (r : Reconciler Graph PDP Ext) (path : string) (e : event) (w : W) : option W :=
  let d := st_disk (w_store w) in
  match e with
  | Poll scopes => Some (reconcile_each r scopes w).1
  | Restart outcomes => reopen path outcomes d w
  | PowerLoss choice outcomes =>
      reopen path outcomes {| visible := nth choice (unsynced d) (visible d); unsynced := [] |} w
  end.

Fixpoint run_kernel (r : Reconciler Graph PDP Ext) (path : string) (es : list event) (w : W) : option W :=
  match es with [] => Some w | e :: es => w ← handle r path e w; run_kernel r path es w end.

(** The process is restarted only when no directory sync is outstanding. *)
Definition settled_restart (e : event) (w : W) : bool :=
  match e with Restart _ => match unsynced (st_disk (w_store w)) with [] => true | _ => false end | _ => true end.
Fixpoint settled_restarts (r : Reconciler Graph PDP Ext) (path : string) (es : list event) (w : W) : bool :=
  match es with
  | [] => true
  | e :: es => settled_restart e w && match handle r path e w with Some w => settled_restarts r path es w | None => true end
  end.

Definition utf8_event (e : event) : bool := match e with Poll scopes => forallb utf8_scope scopes | _ => true end.

Lemma each_inv (r : Reconciler Graph PDP Ext) scopes (w : W) :
  forallb utf8_scope scopes = true -> store_inv (w_store w) -> store_inv (w_store (reconcile_each r scopes w).1).
Proof.
  revert w. induction scopes as [|scope scopes IH]; intros w U I; [done|]. cbn in U |- *. apply andb_true_iff in U as [U Us].
  pose proof (reconcile_preserves store_inv scope (fun sn s s' x P => swap_inv _ sn s s' x (Normalize_utf8 _ U) P)
                (fun reason s => invalidate_inv _ reason s) r w I) as I1.
  destruct (Reconcile r scope w) as [w1 [status err]]. specialize (IH w1 Us I1).
  by destruct (reconcile_each r scopes w1) as [w2 [ss es]].
Qed.

Lemma handle_inv r path e (w : W) : compiler_faithful r -> valid_path path -> utf8_event e = true ->
  settled_restart e w = true -> store_inv (w_store w) ->
  exists w', handle r path e w = Some w' /\ store_inv (w_store w') /\ all_advance (view (w_store w)) (view (w_store w')).
Proof.
  intros Cf Hp U Se I. destruct e as [scopes|outcomes|choice outcomes]; cbn in *.
  - eexists. split; [done|]. split; [by apply each_inv|exact (each_advances r scopes w Cf)].
  - destruct (st_disk (w_store w)) as [f l] eqn:D. cbn in Se. destruct l; [|done].
    destruct (si_possible _ I f) as (ws & L & Wf & A); [rewrite D; by left|].
    destruct (opened_inv path outcomes f ws Hp L Wf) as (s & E & I' & M). unfold reopen. rewrite E.
    eexists. split; [done|]. split; [done|]. cbn. by rewrite M.
  - destruct (si_possible _ I (nth choice (unsynced (st_disk (w_store w))) (visible (st_disk (w_store w)))))
      as (ws & L & Wf & A).
    { destruct (nth_in_or_default choice (unsynced (st_disk (w_store w))) (visible (st_disk (w_store w)))) as [Hin| ->];
        [right; by apply list_elem_of_In|by left]. }
    destruct (opened_inv path outcomes _ ws Hp L Wf) as (s & E & I' & M). unfold reopen. rewrite E.
    eexists. split; [done|]. split; [done|]. cbn. by rewrite M.
Qed.

Lemma run_inv r path es (w : W) : compiler_faithful r -> valid_path path -> forallb utf8_event es = true ->
  settled_restarts r path es w = true -> store_inv (w_store w) ->
  exists w', run_kernel r path es w = Some w' /\ store_inv (w_store w') /\ all_advance (view (w_store w)) (view (w_store w')).
Proof.
  intros Cf Hp. revert w. induction es as [|e es IH]; intros w U Se I.
  { exists w. split; [done|]. split; [done|]. intros k x Hk. by exists x. }
  cbn in U, Se |- *. apply andb_true_iff in U as [U Us]. apply andb_true_iff in Se as [S1 S2].
  destruct (handle_inv r path e w) as (w1 & E & I1 & A1); [done..|]. rewrite E in S2 |- *. cbn.
  destruct (IH w1) as (w2 & E2 & I2 & A2); [done..|]. exists w2. split; [done|]. split; [done|]. by eapply all_advance_trans.
Qed.

Lemma settled_app r path es1 es2 (w w1 : W) : run_kernel r path es1 w = Some w1 ->
  settled_restarts r path (es1 ++ es2) w = true ->
  settled_restarts r path es1 w = true /\ settled_restarts r path es2 w1 = true.
Proof.
  revert w. induction es1 as [|e es IH]; intros w; cbn; [by intros [= <-]|].
  destruct (handle r path e w) as [w'|]; [|done]. cbn. intros R [S1 S2]%andb_true_iff. rewrite S1. by apply IH.
Qed.
End Store.
Arguments PersistentSnapshotStore : clear implicits.

(** * Theorems *)

Section Theorems.
Context {Graph PDP Ext : Type} `{Hash}.

(** C17. The replay floor survives failures, restarts and power losses.  A kernel starts on an empty disk and
    reconciles any scopes with UTF-8 names in any order while writes fail in any way, before or after the
    rename, while its process is restarted with no directory sync outstanding, and while the machine
    loses power and comes back with any contents not yet made final.  Then it always comes up again, and every
    snapshot it had in memory at some point is later there with a later epoch, or with the same epoch, policy
    hash and signed head. *)
Theorem policy_floor_survives_restart (r : Reconciler Graph PDP Ext) (path : string) (es1 es2 : list event)
    (outcomes : list io) (x : Ext) s0 (w : World Ext (PersistentSnapshotStore Graph PDP)) (k : string) sn :
  compiler_faithful r -> valid_path path -> forallb utf8_event (es1 ++ es2) = true ->
  NewPersistentSnapshotStore path outcomes {| visible := NoFile; unsynced := [] |} = Ok s0 ->
  settled_restarts r path (es1 ++ es2) {| w_ext := x; w_store := s0; w_status := ∅ |} = true ->
  run_kernel r path es1 {| w_ext := x; w_store := s0; w_status := ∅ |} = Some w ->
  view (w_store w) !! k = Some sn ->
  exists w' sn', run_kernel r path es2 w = Some w' /\ view (w_store w') !! k = Some sn' /\ advances sn sn'.
Proof.
  intros Cf Hp U E0 Se R Hk. rewrite forallb_app in U. apply andb_true_iff in U as [U1 U2].
  destruct (opened_inv (Graph := Graph) (PDP := PDP) path outcomes NoFile ∅ Hp eq_refl) as (s & E & I & _); [by intros ? ? ?|].
  rewrite E0 in E. injection E as <-. destruct (settled_app _ _ _ _ _ _ R Se) as [Se1 Se2].
  destruct (run_inv r path es1 _ Cf Hp U1 Se1 I) as (w1 & R1 & I1 & _). rewrite R in R1. injection R1 as <-.
  destruct (run_inv r path es2 w Cf Hp U2 Se2 I1) as (w2 & R2 & _ & A). destruct (A _ _ Hk) as (sn' & Hk' & Ad). by eauto.
Qed.

(** The condition on restarts is needed: a store opened on any disk, with contents a power loss may still
    bring back, installs a snapshot whose watermark is the visible one without writing anything, so the snapshot is
    in force while the floor under it is not yet durable. *)
Theorem restarted_store_trusts_unsynced (path : string) (outcomes : list io) (d : Disk) (ws : watermarks)
    (scope : PolicyScope) (sn : EffectivePolicySnapshot Graph PDP) (w : policyReplayWatermark) :
  valid_path path -> loadPolicyReplayWatermarks (visible d) = Ok ws ->
  replayWatermarkFromSnapshot scope sn = Ok w -> ws !! Key scope = Some w ->
  exists s s', NewPersistentSnapshotStore path outcomes d = Ok s /\ PersistentSwap scope sn s = (s', Ok tt) /\
    PersistentGet scope s' = Some sn /\ st_disk s' = d /\ st_durabilityUnconfirmed s' = false.
Proof.
  intros [Hp Ht] L Hw Hk. unfold NewPersistentSnapshotStore. rewrite Ht, String.eqb_refl.
  destruct (String.eqb_spec path ""); [done|]. cbn [orb negb]. rewrite L. cbn [mbind res_bind].
  eexists _, _. split; [done|]. unfold PersistentSwap, lift, mbind, M_bind. rewrite Hw. cbn [st_watermarks].
  destruct (watermark_scope _ _ _ Hw) as (Hs & _ & _). rewrite Hs, Key_Normalize, Hk.
  unfold refuse_replay. rewrite Z.ltb_irrefl, Z.eqb_refl, !String.eqb_refl. cbn [negb orb andb st_durabilityUnconfirmed].
  rewrite bool_decide_true by done. split; [done|]. split_and!; [|done|done].
  unfold PersistentGet, AtomicGet, AtomicSnapshotStore. cbn. by rewrite lookup_insert_eq.
Qed.
End Theorems.

(** * An instance *)

Module PolicyStoreDemo.
#[local] Instance toy_hash : Hash := fun b => (repeat (byte 0) 31 ++ [byte (length b mod 256)])%list.

(** The external state is the published epoch; a snapshot is verified when it is installed. *)
Definition published (epoch : Z) : PolicyHead := {|
  hd_Scope := DefaultScope; hd_PolicyEpoch := epoch; hd_PolicyHash := HashBytes (to_bytes "rules"); hd_BundleRef := "";
  hd_P0CeilingsHash := ""; hd_P1BundleHash := ""; hd_P2OverlayHashes := []; hd_ProofRef := ""; hd_Signature := "";
  hd_SourceRefs := []; hd_EmergencyCapsule := None |}.
Definition compiled : EffectivePolicySnapshot string unit := {|
  ep_TenantID := ""; ep_WorkspaceID := ""; ep_PolicyEpoch := 0; ep_PolicyHash := ""; ep_PolicyHeadHash := "";
  ep_P0CeilingsHash := ""; ep_P1BundleHash := ""; ep_P2OverlayHashes := []; ep_EmergencyCapsuleHash := "";
  ep_EmergencyApertureID := ""; ep_EmergencyExpiresAt := zero_time; ep_SourceRefs := [];
  ep_Validation := {| vs_Status := ""; vs_Reason := ""; vs_Hash := "" |}; ep_LastVerifiedAt := zero_time;
  ep_Graph := Some "rules"; ep_PDP := None; ep_PolicyLayers := [] |}.

(** The head read at each poll is the next of a list. *)
Definition reconciler : Reconciler string unit (list Z) := {|
  rr_source := {| ps_ListScopes := mret [DefaultScope];
                  ps_Head := fun _ epochs => match epochs with
                                             | [] => ([], Fail "unreachable")
                                             | e :: epochs => (epochs, Ok (published e))
                                             end;
                  ps_Load := fun _ _ => mret (to_bytes "rules") |};
  rr_compiler := fun _ _ => mret (Some compiled);
  rr_verifier := None; rr_emergencyVerifier := None; rr_requireSignature := false; rr_keepLastKnownGood := true;
  rr_lkgMaxAge := second; rr_now := fun epochs => (epochs, 0%Z) |}.

Definition started (outcomes : list io) (epochs : list Z) : World (list Z) (PersistentSnapshotStore string unit) := {|
  w_ext := epochs;
  w_store := {| st_memory := ∅; st_watermarks := ∅; st_durabilityUnconfirmed := false;
                st_disk := {| visible := NoFile; unsynced := [] |}; st_io := outcomes |};
  w_status := ∅ |}.

Definition poll := Poll [DefaultScope].
Definition installed_epoch_of (w : option (World (list Z) (PersistentSnapshotStore string unit))) : option (Z * string) :=
  w ← w; sn ← PersistentGet DefaultScope (w_store w); Some (ep_PolicyEpoch sn, vs_Status (ep_Validation sn)).

(** Epoch 7 is installed; epoch 8 is renamed into place and not synced; after a power loss that brings the old file
    back, epoch 6 is refused, and epoch 8 goes through at last. *)
Example power_loss :
  map installed_epoch_of
    [run_kernel reconciler "p" [poll] (started [] [7]%Z);
     run_kernel reconciler "p" [poll; poll] (started [io_written; io_unsynced "sync"] [7; 8]%Z);
     run_kernel reconciler "p" [poll; poll; PowerLoss 0 []; poll] (started [io_written; io_unsynced "sync"] [7; 8; 6]%Z);
     run_kernel reconciler "p" [poll; poll; PowerLoss 0 []; poll; poll] (started [io_written; io_unsynced "sync"] [7; 8; 6; 8]%Z)]
  = [Some (7, "active"); Some (7, "active"); Some (7, "invalid"); Some (8, "active")]%Z.
Proof. vm_compute. reflexivity. Qed.

(** The same power loss after a restart of the process alone takes the kernel from epoch 8 in force to epoch 7 in force. *)
Example floor_lost :
  map (fun es => installed_epoch_of (run_kernel reconciler "p" es (started [io_written; io_unsynced "sync"] [7; 8; 8; 7]%Z)))
    [[poll; poll; Restart []; poll]; [poll; poll; Restart []; poll; PowerLoss 0 []; poll]]
  = [Some (8, "active"); Some (7, "active")]%Z.
Proof. vm_compute. reflexivity. Qed.

(** A write that fails keeps the old snapshot in force, however old it is: the clock stands past its maximal age. *)
Example failed_write_keeps_stale_policy :
  let late := {| rr_source := rr_source reconciler; rr_compiler := rr_compiler reconciler; rr_verifier := None;
                 rr_emergencyVerifier := None; rr_requireSignature := false; rr_keepLastKnownGood := true;
                 rr_lkgMaxAge := second; rr_now := fun epochs => (epochs, (100 * second)%Z) |} in
  installed_epoch_of (w ← run_kernel reconciler "p" [poll] (started [io_written; io_failed "disk full"] [7; 8]%Z);
                      run_kernel late "p" [poll] w)
  = Some (7, "active")%Z.
Proof. vm_compute. reflexivity. Qed.

Lemma policy_floor_survives_restart_witness :
  exists w w' sn sn',
    run_kernel reconciler "p" [poll; poll] (started [io_written; io_unsynced "sync"] [7; 8; 6]%Z) = Some w /\
    view (w_store w) !! "default/default" = Some sn /\
    run_kernel reconciler "p" [PowerLoss 0 []; poll] w = Some w' /\
    view (w_store w') !! "default/default" = Some sn' /\ advances sn sn'.
Proof.
  assert (E : is_Some (run_kernel reconciler "p" [poll; poll] (started [io_written; io_unsynced "sync"] [7; 8; 6]%Z)))
    by (apply (bool_decide_unpack _); vm_compute; exact I).
  destruct (run_kernel _ _ _ _) as [w|] eqn:R; [|by destruct E].
  assert (V : is_Some (view (w_store w) !! "default/default")) by (vm_compute in R; injection R as <-; vm_compute; by eexists).
  destruct V as [sn Hk].
  destruct (policy_floor_survives_restart reconciler "p" [poll; poll] [PowerLoss 0 []; poll]
              [io_written; io_unsynced "sync"] [7; 8; 6]%Z
              (w_store (started [io_written; io_unsynced "sync"] [])) w "default/default" sn)
    as (w' & sn' & R' & Hk' & A); [| | | | |exact R|exact Hk|].
  - intros head bundle x x' c [= <- <-]. split; left; reflexivity.
  - split; [done|reflexivity].
  - reflexivity.
  - reflexivity.
  - vm_compute. reflexivity.
  - exists w, w', sn, sn'. by split_and!.
Defined.

(** The disk after epoch 8 was renamed into place over epoch 7. *)
Definition digest := HashBytes (to_bytes "rules").
Definition mark (epoch : Z) : policyReplayWatermark := {|
  wm_TenantID := "default"; wm_WorkspaceID := "default"; wm_PolicyEpoch := epoch; wm_PolicyHash := digest;
  wm_PolicyHeadHash := digest |}.
Definition half_synced : Disk := {|
  visible := written_file (state_of {["default/default" := mark 8]});
  unsynced := [written_file (state_of {["default/default" := mark 7]})] |}.

Lemma restarted_store_trusts_unsynced_witness :
  exists s s', NewPersistentSnapshotStore "p" [] half_synced = Ok s /\
    PersistentSwap DefaultScope (wm_snapshot (Graph := string) (PDP := unit) (mark 8)) s = (s', Ok tt) /\
    PersistentGet DefaultScope s' = Some (wm_snapshot (mark 8)) /\ st_disk s' = half_synced /\
    st_durabilityUnconfirmed s' = false.
Proof.
  apply (restarted_store_trusts_unsynced "p" [] half_synced {["default/default" := mark 8]} DefaultScope _ (mark 8)).
  - split; [done|reflexivity].
  - vm_compute. reflexivity.
  - vm_compute. reflexivity.
  - vm_compute. reflexivity.
Defined.
End PolicyStoreDemo.
