(* ===== verification/PolicyTrust.v ===== *)
(** Who may change policy, [core/pkg/policy/reconcile]: the Ed25519 verifier of policy heads (reconcile.go,
    [Ed25519PolicyVerifier]) and the verifier of emergency capsules (emergency_verifier.go,
    [SafeDepEmergencyVerifier]), the two collaborators of the reconciler, and what the reconciler with both of
    them promises: the composition of [Reconcile], [Signing] and [SafeDep]. *)
From Stdlib Require Import Ascii.
From S2P Require Import Prelude GoLib GoFmt Utf8 Jcs Contracts Signing Prg SafeDep PolicyScopes Cpi Reconcile.

Local Open Scope string_scope.

Section Verifiers.
Context `{Ed25519} {Ext : Type}.

(** * Policy heads *)

Definition NewEd25519PolicyVerifier (publicKeyHex : string) : string := trim_space publicKeyHex.

Definition VerifyPolicyHead (publicKeyHex : string) (head : PolicyHead) : res unit :=
  let publicKey := trim_space publicKeyHex in
  if String.eqb publicKey "" then Fail (ErrPolicySignatureInvalid +:+ ": policy trust public key is empty")
  else
    let signature := trim_space (hd_Signature head) in
    if String.eqb signature "" then Fail (ErrPolicySignatureInvalid +:+ ": policy head has empty signature")
    else
      material ← wrap_err (ErrPolicySignatureInvalid +:+ ": ") (PolicyHeadSignatureMaterial head);
      ok ← wrap_err (ErrPolicySignatureInvalid +:+ ": ") (Verify publicKey signature material);
      if negb ok
      then Fail (ErrPolicySignatureInvalid +:+ ": signature verification failed for policy " +:+ hd_PolicyHash head)
      else Ok tt.

(** * Emergency capsules *)

Record SafeDepEmergencyVerifier := {
  sv_Now : option (Ext -> Ext * time);
  sv_RequiredQuorum : Z;
  sv_AuthorizedSigners : gmap string ThresholdSignature;
  sv_RequireHardwareBound : bool;
  sv_RequireDistinctRoles : bool;
  sv_RequireTransparency : bool;
  sv_MaxTTL : duration;
  sv_ExpectedOrgGenomeHash : string;
  sv_ExpectedCPIHash : string;
  sv_ExpectedProviderHash : string;
  sv_ExpectedCredentialHash : string;
  sv_ExpectedVerifierHash : string;
}.

Definition or_own (expected own : string) : string := if String.eqb expected "" then own else expected.

Definition capsule_expectation (v : SafeDepEmergencyVerifier) (now : time) (head : PolicyHead) (c : EmergencyCapsule)
    : CapsuleExpectation := {|
  xe_HazardCode := cap_HazardCode c; xe_State := SafeDepDegradedNarrowing;
  xe_OrgGenomeHash := or_own (sv_ExpectedOrgGenomeHash v) (cap_OrgGenomeHash c);
  xe_PolicyEpoch := hd_PolicyEpoch head; xe_PolicyHash := hd_PolicyHash head; xe_P0CeilingsHash := hd_P0CeilingsHash head;
  xe_P1BundleHash := hd_P1BundleHash head; xe_CPIHash := or_own (sv_ExpectedCPIHash v) (cap_CPIHash c);
  xe_ProviderRegistryHash := or_own (sv_ExpectedProviderHash v) (cap_ProviderRegistryHash c);
  xe_CredentialRegistryHash := or_own (sv_ExpectedCredentialHash v) (cap_CredentialRegistryHash c);
  xe_VerifierProfileHash := or_own (sv_ExpectedVerifierHash v) (cap_VerifierProfileHash c);
  xe_PreviousCapsuleHash := ""; xe_Now := now; xe_MinTTL := 0%Z; xe_MaxTTL := sv_MaxTTL v;
  xe_RequireTransparency := sv_RequireTransparency v |}.

Definition ceremony_expectation (v : SafeDepEmergencyVerifier) (now : time) (head : PolicyHead) : CeremonyExpectation := {|
  xh_AuthorizedSigners := sv_AuthorizedSigners v;
  xh_RequiredQuorum := if (sv_RequiredQuorum v =? 0)%Z then 3%Z else sv_RequiredQuorum v;
  xh_PolicyEpoch := hd_PolicyEpoch head; xh_Now := now; xh_RequireDistinctRoles := sv_RequireDistinctRoles v;
  xh_RequireHardwareBound := sv_RequireHardwareBound v |}.

Definition attestation_expectation (now : time) (a : AttestationResultEnvelope) : AttestationExpectation := {|
  xa_ProfileID := at_ProfileID a; xa_PolicyHash := at_PolicyHash a; xa_Nonce := at_Nonce a;
  xa_MeasurementHash := at_MeasurementHash a; xa_Now := now |}.

(** With the time read; [wall] is [time.Now] of the validators. *)
Definition verify_capsule_at (v : SafeDepEmergencyVerifier) (wall now : time) (head : PolicyHead) (c : EmergencyCapsule)
    : res unit :=
  _ ← ValidateEmergencyCapsule wall c (capsule_expectation v now head c);
  _ ← ValidateHardwareCeremony wall (cap_Ceremony c) (ceremony_expectation v now head);
  _ ← ValidateEmergencyDelegation wall (cap_Delegation c) now;
  _ ← ValidateAttestationResult wall (cap_Attestation c) (attestation_expectation now (cap_Attestation c));
  match cap_AllowedActions c with
  | [] => Fail (ErrEmergencyCapsuleInvalid +:+ ": emergency capsule must predeclare narrowed actions")
  | _ => Ok tt
  end.

Definition VerifyEmergencyCapsule (wall : Ext -> time) (v : SafeDepEmergencyVerifier) (head : PolicyHead)
    (c : EmergencyCapsule) : M Ext unit := fun x =>
  let '(x', now) := match sv_Now v with Some clock => clock x | None => (x, wall x) end in
  (x', verify_capsule_at v (wall x) now head c).

(** * What they establish *)

Lemma VerifyPolicyHead_Ok key head : VerifyPolicyHead key head = Ok tt ->
  exists m, PolicyHeadSignatureMaterial head = Ok m /\ Verify (trim_space key) (trim_space (hd_Signature head)) m = Ok true.
Proof.
  unfold VerifyPolicyHead. case_match; [done|]. case_match; [done|].
  intros (m & Hm%wrap_err_Ok & (ok & Hv%wrap_err_Ok & E)%res_bind_Ok)%res_bind_Ok.
  destruct ok; [|done]. by exists m.
Qed.

(** The capsule is for this policy, in force at the time of the check, narrows to named actions, and was approved by a quorum of
    distinct registered signers on distinct devices. *)
Record capsule_authorised (v : SafeDepEmergencyVerifier) (head : PolicyHead) (c : EmergencyCapsule) (wall now : time) : Prop := {
  ca_state : cap_State c = SafeDepDegradedNarrowing;
  ca_epoch : cap_PolicyEpoch c = hd_PolicyEpoch head;
  ca_hash : cap_PolicyHash c = hd_PolicyHash head;
  ca_actions : cap_AllowedActions c <> [];
  ca_live : (defaultTime now wall < cap_ExpiresAt c)%Z;
  ca_ttl : (0 < sv_MaxTTL v -> dur_mul (cap_TTLSeconds c) second <= sv_MaxTTL v)%Z;
  ca_quorum : (requiredQuorum (cap_Ceremony c) (ceremony_expectation v now head)
               <= Z.of_nat (length (hw_Approvals (cap_Ceremony c))))%Z;
  ca_signers : NoDup (map (fun a => trim_space (ha_SignerID a)) (hw_Approvals (cap_Ceremony c)));
  ca_devices : NoDup (map (fun a => trim_space (ha_DeviceID a)) (hw_Approvals (cap_Ceremony c)));
  ca_bound : Forall (hardware_bound (cap_Ceremony c) (ceremony_expectation v now head)) (hw_Approvals (cap_Ceremony c));
}.

Lemma material_fields head m : PolicyHeadSignatureMaterial head = Ok m ->
  hd_PolicyEpoch head <> 0%Z /\ hd_PolicyHash head <> "".
Proof.
  unfold PolicyHeadSignatureMaterial. case_match eqn:G; [done|]. intros _. boolean. split; [lia|].
  intros E. by rewrite E in *.
Qed.

Lemma verify_capsule_Ok v wall now head c m : PolicyHeadSignatureMaterial head = Ok m ->
  sv_RequireHardwareBound v = true ->
  verify_capsule_at v wall now head c = Ok tt -> capsule_authorised v head c wall now.
Proof.
  intros Hm Hb E. destruct (material_fields _ _ Hm) as [He Hh]. unfold verify_capsule_at in E. checks E.
  destruct E as (Ec & Eh & _ & _ & Ea). apply ceremony_quorum_spec in Eh as (Q & Ns & Nd & B & _); [|done].
  unfold ValidateEmergencyCapsule in Ec. checks Ec.
  destruct Ec as (_ & Est & _ & _ & _ & Eep & Eph & _ & _ & _ & _ & _ & _ & _ & _ & _ & _ & Emax & _ & Eex & _).
  unfold differs, differsZ, before in *. cbn in *. boolean.
  split; try done; try lia.
  - destruct (String.eqb_spec (cap_PolicyHash c) (hd_PolicyHash head)); [done|].
    by destruct (String.eqb_spec (hd_PolicyHash head) "").
  - by destruct (cap_AllowedActions c).
Qed.
End Verifiers.

(** * Theorems *)

Section Theorems.
Context `{Ed25519} `{Hash} {Graph PDP Ext St : Type} `{Laws : SnapshotStoreLaws Graph PDP St}.

(** The head and bytes a snapshot stands for, with the signature of the trusted key and the quorum behind its
    emergency capsule. *)
Definition authorised_by (key : string) (v : SafeDepEmergencyVerifier (Ext := Ext)) (k : string)
    (sn : EffectivePolicySnapshot Graph PDP) (head : PolicyHead) (bundle : bytes) : Prop :=
  k = Key (hd_Scope head) /\ verifyExpectedPolicyHash head bundle = Ok tt /\
  (exists m, PolicyHeadSignatureMaterial head = Ok m /\ ep_PolicyHeadHash sn = HashBytes m /\
     Verify (trim_space key) (trim_space (hd_Signature head)) m = Ok true) /\
  (forall c, hd_EmergencyCapsule head = Some c -> exists now wall, capsule_authorised v head c wall now).

Lemma active_authorised (r : Reconciler Graph PDP Ext) (key : string) (v : SafeDepEmergencyVerifier)
    (wall : Ext -> time) (scopes : list PolicyScope) (w : World Ext St) (k : string) (sn : EffectivePolicySnapshot Graph PDP) :
  rr_requireSignature r = true -> rr_verifier r = Some (fun head => lift (VerifyPolicyHead key head)) ->
  rr_emergencyVerifier r = Some (VerifyEmergencyCapsule wall v) -> sv_RequireHardwareBound v = true ->
  view (w_store w) = ∅ ->
  view (w_store (reconcile_each r scopes w).1) !! k = Some sn -> vs_Status (ep_Validation sn) = StatusActive ->
  exists head bundle, authorised_by key v k sn head bundle.
Proof.
  intros Rq Rv Re Hb E0 Hk Ha.
  destruct (fun I => each_verified r scopes w I k sn) as (head & bundle & [Sc (m & Hm & Hh) Si Hs Ca _]); [|done|done|].
  { unfold all_verified, snapshots. rewrite E0. intros j s Hj. by rewrite lookup_empty in Hj. }
  exists head, bundle. split; [done|]. split; [done|]. split.
  - exists m. split; [done|]. split; [done|]. destruct Si as [[_ Si]|(verify & x & x' & Ev & Hv)]; [congruence|]. rewrite Rv in Ev. injection Ev as <-.
    injection Hv as _ Hv. apply VerifyPolicyHead_Ok in Hv as (m' & Hm' & Hv). rewrite Hm in Hm'. by injection Hm' as <-.
  - intros c Hc. unfold capsule_verified in Ca. rewrite Hc in Ca. destruct Ca as (verify & x & x' & Ev & Hv).
    rewrite Re in Ev. injection Ev as <-. unfold VerifyEmergencyCapsule in Hv.
    destruct (match sv_Now v with Some clock => clock x | None => (x, wall x) end) as [y now].
    injection Hv as _ Hv. exists now, (wall x). by eapply verify_capsule_Ok.
Qed.

(** C16. Policy in force is authorised policy.  A reconciler that requires signatures and has the Ed25519 verifier
    for a trusted key and the emergency verifier with hardware binding starts from an empty store: after any series
    of reconciliations, whatever the source serves and the compiler makes of it, every active snapshot stands
    under the key of a head whose canonical material the trusted key signed, from bytes with the hash that head
    names; and if the head carries an emergency capsule, the capsule is for that epoch and policy hash, names the
    actions it narrows to, was not expired when checked, and has the required quorum of approvals by distinct registered
    and unrevoked signers on distinct devices, each verified under its registered key. *)
Theorem active_policy_authorised (r : Reconciler Graph PDP Ext) (key : string) (v : SafeDepEmergencyVerifier)
    (wall : Ext -> time) (scopes : list PolicyScope) (w : World Ext St) (k : string) (sn : EffectivePolicySnapshot Graph PDP) :
  rr_requireSignature r = true -> rr_verifier r = Some (fun head => lift (VerifyPolicyHead key head)) ->
  rr_emergencyVerifier r = Some (VerifyEmergencyCapsule wall v) -> sv_RequireHardwareBound v = true ->
  view (w_store w) = ∅ ->
  view (w_store (reconcile_each r scopes w).1) !! k = Some sn -> vs_Status (ep_Validation sn) = StatusActive ->
  exists head bundle, authorised_by key v k sn head bundle.
Proof. apply active_authorised. Qed.

(** The envelope with the four fields an appraisal is about replaced. *)
Definition forged (profile policy nonce measurement : string) (c : EmergencyCapsule) : EmergencyCapsule :=
  let a := cap_Attestation c in
  c <| cap_Attestation := {|
    at_EnvelopeID := at_EnvelopeID a; at_ProfileID := profile; at_Subject := at_Subject a; at_Platform := at_Platform a;
    at_MeasurementHash := measurement; at_Nonce := nonce; at_TrustTier := at_TrustTier a; at_PolicyHash := policy;
    at_Synthetic := at_Synthetic a; at_IssuedAt := at_IssuedAt a; at_ExpiresAt := at_ExpiresAt a; at_Signature := at_Signature a |} |>.

(** The emergency verifier compares the attestation with itself: whatever profile, appraisal policy, nonce and
    measurement the envelope claims, the verdict on the capsule is the same, so an attestation of other
    code, or a replayed one, is as good as a fresh one of the right code. *)
Theorem attestation_compared_with_itself (wall : Ext -> time) (v : SafeDepEmergencyVerifier) (head : PolicyHead)
    (c : EmergencyCapsule) (profile policy nonce measurement : string) (x : Ext) :
  VerifyEmergencyCapsule wall v head (forged profile policy nonce measurement c) x = VerifyEmergencyCapsule wall v head c x.
Proof.
  unfold VerifyEmergencyCapsule. destruct (match sv_Now v with Some _ => _ | None => _ end) as [x' now].
  assert (Self : forall s, differs s s = false) by (intros s; unfold differs; by rewrite String.eqb_refl, andb_false_r).
  unfold verify_capsule_at, ValidateAttestationResult, attestation_expectation. cbn. by rewrite !Self.
Qed.
End Theorems.

(** * An instance *)

Module PolicyTrustDemo.
Import SafeDepDemo.
#[local] Existing Instance id_hash.
#[local] Existing Instance toy_ed25519.

Definition emergency : EmergencyCapsule :=
  SelfAsserted.capsule <| cap_Ceremony := ceremony |> <| cap_PolicyEpoch := 3%Z |> <| cap_PolicyHash := HashBytes (to_bytes "rules") |>.
Definition signed : PolicyHead := {|
  hd_Scope := DefaultScope; hd_PolicyEpoch := 3; hd_PolicyHash := HashBytes (to_bytes "rules"); hd_BundleRef := "";
  hd_P0CeilingsHash := ""; hd_P1BundleHash := ""; hd_P2OverlayHashes := []; hd_ProofRef := ""; hd_Signature := sig;
  hd_SourceRefs := []; hd_EmergencyCapsule := Some emergency |}.
Definition verifier : SafeDepEmergencyVerifier (Ext := unit) := {|
  sv_Now := Some (fun x => (x, 10%Z)); sv_RequiredQuorum := 1; sv_AuthorizedSigners := xh_AuthorizedSigners registry;
  sv_RequireHardwareBound := true; sv_RequireDistinctRoles := true; sv_RequireTransparency := false;
  sv_MaxTTL := 0; sv_ExpectedOrgGenomeHash := ""; sv_ExpectedCPIHash := ""; sv_ExpectedProviderHash := "";
  sv_ExpectedCredentialHash := ""; sv_ExpectedVerifierHash := "" |}.
Definition reconciler : Reconciler string unit unit := {|
  rr_source := {| ps_ListScopes := mret [DefaultScope]; ps_Head := fun _ => mret signed;
                  ps_Load := fun _ _ => mret (to_bytes "rules") |};
  rr_compiler := fun _ _ => mret (Some ReconcileDemo.blank_snapshot);
  rr_verifier := Some (fun head => lift (VerifyPolicyHead key head));
  rr_emergencyVerifier := Some (VerifyEmergencyCapsule (fun _ => 10%Z) verifier);
  rr_requireSignature := true; rr_keepLastKnownGood := false; rr_lkgMaxAge := 0; rr_now := fun x => (x, 10%Z) |}.
Definition start : World unit ReconcileDemo.Memory := {| w_ext := tt; w_store := ∅; w_status := ∅ |}.
Definition current : EffectivePolicySnapshot string unit :=
  default ReconcileDemo.blank_snapshot (w_store (reconcile_each reconciler [DefaultScope] start).1 !! "default/default").

Lemma active_policy_authorised_witness :
  exists head bundle, authorised_by key verifier "default/default" current head bundle.
Proof.
  apply (active_policy_authorised (St := ReconcileDemo.Memory) reconciler key verifier (fun _ => 10%Z) [DefaultScope] start);
    [reflexivity|reflexivity|reflexivity|reflexivity|reflexivity|vm_compute; reflexivity|vm_compute; reflexivity].
Defined.
End PolicyTrustDemo.
