(* ===== verification/Receipts.v ===== *)
(** Execution receipts: [contracts/receipt.go], [contracts/receipt_hash.go], the
    receipt preimages of [crypto/canonical.go], receipt signing in
    [crypto/signer.go] and output artifacts in [canonicalize/artifact_impl.go].

    [Receipt] has the fields the executor and the signers read or write;
    [rc_Other] holds the JSON members of the struct's remaining fields.  A Lamport
    clock is a [uint64]. *)
From Stdlib Require Import DecimalString DecimalZ DecimalPos.

From S2P Require Import Prelude GoLib GoFmt Utf8 Jcs Contracts Signing AuditLog.

Local Open Scope string_scope.

(** * The record *)

Definition ReceiptSignatureV5 : string := "receipt.v5".
Definition ReceiptProfileClassical : string := "classical".

Record Receipt := {
  rc_ReceiptID : string;
  rc_DecisionID : string;
  rc_CorrelationID : string;
  rc_EffectID : string;
  rc_Status : string;
  rc_BlobHash : string;
  rc_OutputHash : string;
  rc_Timestamp : time;
  rc_Signature : string;
  rc_SignatureProfile : string;
  rc_SignatureAlgorithm : string;
  rc_KeyID : string;
  rc_PublicKeySet : list (string * string);
  rc_PrevHash : string;
  rc_LamportClock : Z;
  rc_ArgsHash : string;
  rc_SignatureVersion : string;
  rc_DecisionHash : string;
  rc_Verdict : string;
  rc_ReasonCode : string;
  rc_PolicyHash : string;
  rc_SessionID : string;
  rc_EmergencyActivationID : string;
  rc_EmergencyDelegationSessionID : string;
  rc_EmergencyScopeHash : string;
  rc_SafeDepState : string;
  rc_SafeDepReasonCode : string;
  rc_Transparency : option json;
  rc_LogID : string;
  rc_LeafIndex : Z;
  rc_Other : list (string * json);
}.
#[export] Instance Receipt_eta : Eta Receipt := fun r => {|
  rc_ReceiptID := rc_ReceiptID r; rc_DecisionID := rc_DecisionID r;
  rc_CorrelationID := rc_CorrelationID r; rc_EffectID := rc_EffectID r; rc_Status := rc_Status r;
  rc_BlobHash := rc_BlobHash r; rc_OutputHash := rc_OutputHash r; rc_Timestamp := rc_Timestamp r;
  rc_Signature := rc_Signature r; rc_SignatureProfile := rc_SignatureProfile r;
  rc_SignatureAlgorithm := rc_SignatureAlgorithm r; rc_KeyID := rc_KeyID r;
  rc_PublicKeySet := rc_PublicKeySet r; rc_PrevHash := rc_PrevHash r;
  rc_LamportClock := rc_LamportClock r; rc_ArgsHash := rc_ArgsHash r;
  rc_SignatureVersion := rc_SignatureVersion r; rc_DecisionHash := rc_DecisionHash r;
  rc_Verdict := rc_Verdict r; rc_ReasonCode := rc_ReasonCode r; rc_PolicyHash := rc_PolicyHash r;
  rc_SessionID := rc_SessionID r; rc_EmergencyActivationID := rc_EmergencyActivationID r;
  rc_EmergencyDelegationSessionID := rc_EmergencyDelegationSessionID r;
  rc_EmergencyScopeHash := rc_EmergencyScopeHash r; rc_SafeDepState := rc_SafeDepState r;
  rc_SafeDepReasonCode := rc_SafeDepReasonCode r; rc_Transparency := rc_Transparency r;
  rc_LogID := rc_LogID r; rc_LeafIndex := rc_LeafIndex r; rc_Other := rc_Other r |}.

(** The members of a new receipt that the other fields marshal to: no
    [omitempty] applies to a string without it nor to a zero time. *)
Definition zero_members : list (string * json) :=
  [("external_reference_id", JStr "")]
  ++ map (fun k => (k, JStr "0001-01-01T00:00:00Z")) ["created_at"; "installed_at"; "issued_at"].

Definition zero_receipt : Receipt := {|
  rc_ReceiptID := ""; rc_DecisionID := ""; rc_CorrelationID := ""; rc_EffectID := "";
  rc_Status := ""; rc_BlobHash := ""; rc_OutputHash := ""; rc_Timestamp := zero_time;
  rc_Signature := ""; rc_SignatureProfile := ""; rc_SignatureAlgorithm := ""; rc_KeyID := "";
  rc_PublicKeySet := []; rc_PrevHash := ""; rc_LamportClock := 0; rc_ArgsHash := "";
  rc_SignatureVersion := ""; rc_DecisionHash := ""; rc_Verdict := ""; rc_ReasonCode := "";
  rc_PolicyHash := ""; rc_SessionID := ""; rc_EmergencyActivationID := "";
  rc_EmergencyDelegationSessionID := ""; rc_EmergencyScopeHash := ""; rc_SafeDepState := "";
  rc_SafeDepReasonCode := ""; rc_Transparency := None; rc_LogID := ""; rc_LeafIndex := 0;
  rc_Other := zero_members |}.

(** [json.Marshal(receiptJSONAlias(r))] *)
Definition json_of_receipt (r : Receipt) : res json :=
  ts ← fmt_time (rc_Timestamp r);
  Ok (JObj ([("receipt_id", JStr (rc_ReceiptID r)); ("decision_id", JStr (rc_DecisionID r))]
    ++ opt_string "correlation_id" (rc_CorrelationID r)
    ++ [("effect_id", JStr (rc_EffectID r)); ("status", JStr (rc_Status r))]
    ++ opt_string "blob_hash" (rc_BlobHash r) ++ opt_string "output_hash" (rc_OutputHash r)
    ++ [("timestamp", JStr ts)]
    ++ opt_string "signature" (rc_Signature r)
    ++ opt_string "signature_profile" (rc_SignatureProfile r)
    ++ opt_string "signature_algorithm" (rc_SignatureAlgorithm r) ++ opt_string "key_id" (rc_KeyID r)
    ++ opt_field (bool_decide (rc_PublicKeySet r = [])) "public_key_set"
         (JObj (map (fun kv => (kv.1, JStr kv.2)) (rc_PublicKeySet r)))
    ++ [("prev_hash", JStr (rc_PrevHash r)); ("lamport_clock", JNum (dec (rc_LamportClock r)))]
    ++ opt_string "args_hash" (rc_ArgsHash r)
    ++ opt_string "signature_version" (rc_SignatureVersion r)
    ++ opt_string "decision_hash" (rc_DecisionHash r) ++ opt_string "verdict" (rc_Verdict r)
    ++ opt_string "reason_code" (rc_ReasonCode r) ++ opt_string "policy_hash" (rc_PolicyHash r)
    ++ opt_string "session_id" (rc_SessionID r)
    ++ opt_string "emergency_activation_id" (rc_EmergencyActivationID r)
    ++ opt_string "emergency_delegation_session_id" (rc_EmergencyDelegationSessionID r)
    ++ opt_string "emergency_scope_hash" (rc_EmergencyScopeHash r)
    ++ opt_string "safe_dep_state" (rc_SafeDepState r)
    ++ opt_string "safe_dep_reason_code" (rc_SafeDepReasonCode r)
    ++ match rc_Transparency r with Some j => [("transparency", j)] | None => [] end
    ++ opt_string "log_id" (rc_LogID r)
    ++ opt_field (rc_LeafIndex r =? 0)%Z "leaf_index" (JNum (dec (rc_LeafIndex r)))
    ++ rc_Other r)%list).

Section Receipts.
Context `{Hash}.

(** The anchoring metadata is assigned after the hash and left out of it. *)
Definition unanchored (r : Receipt) : Receipt :=
  r <| rc_Transparency := None |> <| rc_LogID := "" |> <| rc_LeafIndex := 0%Z |>.

Definition ReceiptChainHash (r : option Receipt) : res string :=
  match r with
  | None => Fail "receipt is nil"
  | Some r => wrap_err "canonical receipt hash: " (CanonicalHash (json_of_receipt (unanchored r)))
  end.

(** * Preimages *)

Definition CanonicalizeReceipt (receiptID decisionID effectID status outputHash prevHash : string)
    (lamportClock : Z) (argsHash : string) : string :=
  join SigSeparator [receiptID; decisionID; effectID; status; outputHash; prevHash;
                     dec lamportClock; argsHash].

Definition receiptV5SigningEnvelope (r : Receipt) : json :=
  JObj [("signature_version", JStr ReceiptSignatureV5); ("receipt_id", JStr (rc_ReceiptID r));
        ("decision_id", JStr (rc_DecisionID r)); ("effect_id", JStr (rc_EffectID r));
        ("status", JStr (rc_Status r)); ("output_hash", JStr (rc_OutputHash r));
        ("prev_hash", JStr (rc_PrevHash r)); ("lamport_clock", JNum (dec (rc_LamportClock r)));
        ("args_hash", JStr (rc_ArgsHash r)); ("verdict", JStr (rc_Verdict r));
        ("reason_code", JStr (rc_ReasonCode r)); ("policy_hash", JStr (rc_PolicyHash r));
        ("session_id", JStr (rc_SessionID r))].

Definition CanonicalizeReceiptV5 (r : option Receipt) : res bytes :=
  match r with
  | None => Fail "receipt is nil"
  | Some r => InteroperableJCS (receiptV5SigningEnvelope r)
  end.

(** The payload and the receipt as the call stamps it. *)
Definition ReceiptSigningPayload (r : Receipt) : res (bytes * Receipt) :=
  let r := r <| rc_SignatureVersion := ReceiptSignatureV5 |> in
  p ← CanonicalizeReceiptV5 (Some r); Ok (p, r).

Definition ReceiptVerifyPayload (r : option Receipt) : res bytes :=
  match r with
  | None => Fail "receipt is nil"
  | Some r =>
      let v := rc_SignatureVersion r in
      if String.eqb v "" then
        Ok (to_bytes (CanonicalizeReceipt (rc_ReceiptID r) (rc_DecisionID r) (rc_EffectID r)
              (rc_Status r) (rc_OutputHash r) (rc_PrevHash r) (rc_LamportClock r) (rc_ArgsHash r)))
      else if String.eqb v ReceiptSignatureV5 then CanonicalizeReceiptV5 (Some r)
      else Fail ("unsupported receipt signature version " +:+ goq v)
  end.

(** * Signing *)

Context `{Ed25519}.

Definition SignReceipt (s : Ed25519Signer) (r : Receipt) : res Receipt :=
  pr ← ReceiptSigningPayload r;
  sig ← Sign s pr.1;
  Ok (pr.2 <| rc_Signature := sig |> <| rc_SignatureProfile := ReceiptProfileClassical |>
           <| rc_SignatureAlgorithm := SigPrefixEd25519 |> <| rc_KeyID := KeyID s |>
           <| rc_PublicKeySet := [(SigPrefixEd25519, PublicKey s)] |>).

Definition VerifyReceipt (s : Ed25519Signer) (r : Receipt) : res bool :=
  if String.eqb (rc_Signature r) "" then Fail "missing signature"
  else payload ← ReceiptVerifyPayload (Some r); Verify (PublicKey s) (rc_Signature r) payload.
End Receipts.

(** * Output artifacts *)

(** What a tool returns: a string, bytes, or a structured value. *)
Inductive output :=
| OutText (s : string)
| OutBytes (b : bytes)
| OutValue (v : any).

Record Artifact := {
  af_SchemaID : string;
  af_ContentType : string;
  af_CanonicalBytes : bytes;
  af_Digest : string;
  af_Preview : string;
}.

Definition generatePreview (data : bytes) : string :=
  if Nat.leb (length data) 50 then of_bytes data else of_bytes (take 50 data) +:+ "...".

Section Artifacts.
Context `{Hash}.

Definition ComputeArtifactHash (data : bytes) : string := "sha256:" +:+ hex_encode (sha256 data).

Definition Canonicalize (schemaID : string) (raw : output) : res Artifact :=
  cb ← match raw with
       | OutText s => if valid_utf8 (to_bytes s) then Ok ("text/plain", to_bytes s)
                      else Fail "invalid UTF-8 string"
       | OutBytes b => Ok ("application/octet-stream", b)
       | OutValue v => b ← wrap_err "failed to canonicalize as JSON: " (JCS_res (json_of_any v));
                       Ok ("application/json", b)
       end;
  Ok {| af_SchemaID := schemaID; af_ContentType := cb.1; af_CanonicalBytes := cb.2;
        af_Digest := ComputeArtifactHash cb.2; af_Preview := generatePreview cb.2 |}.
End Artifacts.

(** * What a signed receipt binds *)

(** Decimals are number literals. *)
Lemma digit_num_char c : digit c = true -> num_char c = true.
Proof. destruct c as [[] [] [] [] [] [] [] []]; try reflexivity; discriminate. Qed.

Lemma dec_num_literal n : num_literal (dec n) = true.
Proof.
  assert (U : forall p, let s := NilZero.string_of_uint (Pos.to_uint p) in
    String.eqb s "" = false /\ forallb num_char (to_bytes s) = true).
  { intros p s. pose proof (DecimalPos.Unsigned.to_uint_nonnil p) as Hu. unfold s.
    rewrite NilZero_string by done. destruct (string_of_uint_head _ Hu) as (c&t&E&_).
    pose proof (string_of_uint_digits (Pos.to_uint p)) as Hd.
    split; [by rewrite E|]. rewrite forallb_Forall in *.
    eapply Forall_impl; [exact Hd|]. apply digit_num_char. }
  unfold num_literal, dec. destruct n as [|p|p]; [done| |]; destruct (U p) as [E1 E2].
  - cbn [Z.to_int NilZero.string_of_int]. by rewrite E1, E2.
  - cbn [Z.to_int NilZero.string_of_int]. exact E2.
Qed.

(** Members whose values are well-formed text or decimals. *)
Definition atomic (j : json) : bool :=
  match j with JStr s => valid_string s | JNum lit => num_literal lit | _ => false end.

Lemma atomic_object_inj (l k : list (string * json)) :
  l.*1 = k.*1 -> NoDup l.*1 -> forallb valid_string l.*1 = true ->
  forallb (fun kv => atomic kv.2) l = true -> forallb (fun kv => atomic kv.2) k = true ->
  JCS (JObj l) = JCS (JObj k) -> l = k.
Proof.
  intros Hk Hnd Hv Al Ak.
  assert (W : forall q, q.*1 = l.*1 -> forallb (fun kv => atomic kv.2) q = true ->
    json_wf (JObj q) = true /\ all_valid (JObj q) = true).
  { intros q Hq Aq. cbn [json_wf all_valid]. rewrite Hq, bool_decide_true by done. cbn [andb].
    assert (Vq : forallb (fun kv => valid_string kv.1) q = true).
    { change (forallb (fun kv => valid_string (fst kv)) q = true).
      rewrite <-(forallb_map fst valid_string). change (map fst q) with (q.*1). by rewrite Hq. }
    rewrite forallb_Forall in *. rewrite !forallb_Forall, !Forall_forall in *.
    split; intros [a v] Hx; specialize (Aq _ Hx); specialize (Vq _ Hx); cbn in *;
      destruct v; try discriminate; auto; by rewrite Vq. }
  destruct (W l eq_refl Al) as [Wl Vl], (W k (eq_sym Hk) Ak) as [Wk Vk].
  rewrite !JCS_Ok, !reparse_id by auto using json_wf_nodup.
  intros E%Ok_inj%enc_jeq; [|done..].
  inversion E as [?|?|? k' ? H2 Hp]; subst; [done|].
  assert (l = k') as <-; [|by apply perm_same_keys].
  clear -H2 Al. induction H2 as [|x y a b [Hxy Hj] H2 IH]; [done|].
  cbn [forallb] in Al. apply andb_true_iff in Al as [Ax Al]. f_equal; [|by apply IH].
  destruct x as [x1 x2], y as [y1 y2]; cbn in *. subst. destruct x2; try discriminate; by inversion Hj.
Qed.

(** The fields of the V5 preimage. *)
Definition signed_fields (r : Receipt) : list string :=
  [rc_ReceiptID r; rc_DecisionID r; rc_EffectID r; rc_Status r; rc_OutputHash r; rc_PrevHash r;
   rc_ArgsHash r; rc_Verdict r; rc_ReasonCode r; rc_PolicyHash r; rc_SessionID r].

Definition receipt_text_valid (r : Receipt) : bool := forallb valid_string (signed_fields r).

Lemma v5_atomic r :
  receipt_text_valid r = true ->
  match receiptV5SigningEnvelope r with JObj l => forallb (fun kv => atomic kv.2) l | _ => false end = true.
Proof.
  unfold receipt_text_valid, signed_fields, receiptV5SigningEnvelope. cbn [forallb].
  intros Hr. boolean. cbn [forallb snd atomic]. rewrite dec_num_literal.
  repeat (apply andb_true_iff; split); first [assumption|reflexivity].
Qed.

Lemma InteroperableJCS_Ok v b : InteroperableJCS v = Ok b -> JCS v = Ok b.
Proof. unfold InteroperableJCS. by destruct (CheckInteroperableNumbers v). Qed.

Lemma v5_payload_total r :
  receipt_text_valid r = true ->
  (0 <= rc_LamportClock r <= MaxSafeInteger)%Z ->
  CanonicalizeReceiptV5 (Some r) = Ok (enc (receiptV5SigningEnvelope r)).
Proof.
  intros Ht Hc. unfold CanonicalizeReceiptV5, InteroperableJCS, CheckInteroperableNumbers.
  assert (R : reparse (receiptV5SigningEnvelope r) = receiptV5SigningEnvelope r).
  { apply reparse_id; [vm_compute; reflexivity|].
    unfold receipt_text_valid, signed_fields in Ht. cbn [forallb] in Ht. boolean.
    unfold receiptV5SigningEnvelope. cbn [all_valid forallb fst snd].
    repeat (apply andb_true_iff; split); first [assumption|reflexivity]. }
  rewrite JCS_Ok, R. rewrite (proj2 (checkNumbers_spec _ "$")); [done|].
  cbn [receiptV5SigningEnvelope numbers flat_map snd app]. constructor; [|constructor].
  apply interoperable_dec. unfold MaxSafeInteger in *. lia.
Qed.

(** C31. A V5 receipt signature binds the receipt's meaning: two receipts with
    well-formed text and the same signed payload agree on their identity,
    decision, effect, status, output, arguments, chain position (predecessor hash
    and Lamport clock), verdict, reason code, policy and session. *)
Theorem receipt_v5_binds r1 r2 p :
  receipt_text_valid r1 = true -> receipt_text_valid r2 = true ->
  CanonicalizeReceiptV5 (Some r1) = Ok p -> CanonicalizeReceiptV5 (Some r2) = Ok p ->
  signed_fields r1 = signed_fields r2 /\ rc_LamportClock r1 = rc_LamportClock r2.
Proof.
  intros T1 T2 E1%InteroperableJCS_Ok E2%InteroperableJCS_Ok.
  assert (E : receiptV5SigningEnvelope r1 = receiptV5SigningEnvelope r2).
  { unfold receiptV5SigningEnvelope in *. f_equal. apply atomic_object_inj.
    - reflexivity.
    - apply (bool_decide_unpack _). vm_compute. exact I.
    - vm_compute. reflexivity.
    - exact (v5_atomic r1 T1).
    - exact (v5_atomic r2 T2).
    - by rewrite E1, E2. }
  unfold receiptV5SigningEnvelope in E. injection E as ? ? ? ? ? ? Ed ? ? ? ? ?.
  apply dec_inj in Ed. split; [|done]. unfold signed_fields. congruence.
Qed.

(** Sign and verify a receipt: with a Lamport clock in the interoperable
    range the Ed25519 signer signs every receipt with well-formed text, stamps it
    as V5 with its own key, keeps every signed field, and accepts the result. *)
Theorem receipt_sign_verify `{Ed25519} `{!Ed25519Laws} priv keyID r :
  let s := NewEd25519SignerFromKey priv keyID in
  receipt_text_valid r = true -> (0 <= rc_LamportClock r <= MaxSafeInteger)%Z ->
  exists r', SignReceipt s r = Ok r' /\ VerifyReceipt s r' = Ok true /\
    rc_SignatureVersion r' = ReceiptSignatureV5 /\ rc_KeyID r' = keyID /\
    signed_fields r' = signed_fields r /\ rc_LamportClock r' = rc_LamportClock r.
Proof.
  intros s Ht Hc. pose proof (v5_payload_total r Ht Hc) as E.
  destruct (verify_own priv keyID (enc (receiptV5SigningEnvelope r))) as [V Hne].
  apply String.eqb_neq in Hne. eexists. split.
  { unfold SignReceipt, ReceiptSigningPayload.
    change (CanonicalizeReceiptV5 (Some (r <| rc_SignatureVersion := ReceiptSignatureV5 |>)))
      with (CanonicalizeReceiptV5 (Some r)). rewrite E. reflexivity. }
  split; [|done].
  transitivity (if String.eqb (hex_encode (ed_sign priv (enc (receiptV5SigningEnvelope r)))) ""
    then Fail "missing signature"
    else payload ← CanonicalizeReceiptV5 (Some r);
         Verify (PublicKey s) (hex_encode (ed_sign priv (enc (receiptV5SigningEnvelope r)))) payload);
    [reflexivity|].
  rewrite Hne, E. exact V.
Qed.

Definition sample_receipt : Receipt := zero_receipt
  <| rc_ReceiptID := "rcpt-d1" |> <| rc_DecisionID := "d1" |> <| rc_EffectID := "e1" |>
  <| rc_Status := "SUCCESS" |> <| rc_LamportClock := 1%Z |> <| rc_Verdict := "ALLOW" |>
  <| rc_SessionID := "s" |>.

Lemma receipt_v5_binds_witness :
  signed_fields sample_receipt = signed_fields (sample_receipt <| rc_BlobHash := "b" |>).
Proof.
  apply (receipt_v5_binds sample_receipt (sample_receipt <| rc_BlobHash := "b" |>)
    (enc (receiptV5SigningEnvelope sample_receipt))); vm_compute; reflexivity.
Defined.

Lemma receipt_sign_verify_witness :
  exists r, @SignReceipt toy_ed25519 (@NewEd25519SignerFromKey toy_ed25519 [] "k1") sample_receipt = Ok r.
Proof.
  destruct (@receipt_sign_verify toy_ed25519 toy_ed25519_laws [] "k1" sample_receipt) as (r&E&_).
  - vm_compute. reflexivity.
  - split; discriminate.
  - exists r. exact E.
Defined.
