(* ===== verification/EvidencePack.v ===== *)
(** Evidence packs, [core/pkg/evidencepack]: manifests and their hash (manifest.go), the in-memory and the streaming
    builder (builder.go, stream_builder.go), the Merkle tree over manifest entries (merkle.go) and the inclusion
    proofs an auditor checks without the pack (inclusionproof.go).

    A value passed to a builder as [interface{}] is what [encoding/json] makes of it: its JSON form or an error.
    Times are instants written in UTC, as both constructors make them.  A [range] over the builder's map visits its
    entries in an order the caller of [Build] supplies.  A tar stream is the list of its complete members; each call
    that writes to it gets the writer's answer as an argument.  [sort.Slice] is the stable insertion sort Go uses on
    up to twelve elements; on longer slices the order of equal paths is unspecified, and the theorems that depend on
    the order ask for distinct paths.

    The tree duplicates the last node of an odd level.  The theorems show that every entry of a pack with distinct
    paths has a proof the anchored verifier accepts, that an accepted proof names an entry of the pack whose root
    anchors it, that a root determines the entries, and that the hashes of a pack do not depend on the order in
    which the builder's map is visited. *)
From Stdlib Require Import Ascii Sorted.
From stdpp Require Import sorting.
From S2P Require Import Prelude GoLib GoFmt GoTime Utf8 Jcs Contracts Signing Translog Receipts.

Local Open Scope string_scope.

(** * Manifests (manifest.go) *)

Definition ManifestVersion : string := "1.0.0".

Record ManifestEntry := {
  me_Path : string;
  me_ContentHash : string;
  me_Size : Z;
  me_ContentType : string;
}.

#[export] Instance ManifestEntry_eq_dec : EqDecision ManifestEntry.
Proof. solve_decision. Defined.

Record Manifest := {
  mf_Version : string;
  mf_PackID : string;
  mf_CreatedAt : time;
  mf_ActorDID : string;
  mf_IntentID : string;
  mf_PolicyHash : string;
  mf_Entries : list ManifestEntry;
  mf_ManifestHash : string;
  mf_EntriesMerkleRoot : string;
}.

(** The fields [ManifestEntry] and [canonicalEntry] share. *)
Definition canonicalEntry (e : ManifestEntry) : json := JObj [
  ("path", JStr (me_Path e)); ("content_hash", JStr (me_ContentHash e));
  ("size", JNum (dec (me_Size e))); ("content_type", JStr (me_ContentType e))].

(** [sort.Slice] by path *)
Fixpoint insert_entry (x : ManifestEntry) (l : list ManifestEntry) : list ManifestEntry :=
  match l with
  | [] => [x]
  | y :: l' => if string_lt (me_Path y) (me_Path x) then y :: insert_entry x l' else x :: l
  end.
Definition sort_entries (l : list ManifestEntry) : list ManifestEntry := foldr insert_entry [] l.

Section Pack.
Context `{Hash}.

Definition prefixed (b : bytes) : string := "sha256:" +:+ hex_encode b.

Definition HashContent (data : bytes) : string := prefixed (sha256 data).

Definition ComputeManifestHash (m : Manifest) : res string :=
  data ← wrap_err "canonicalize manifest for hashing: " (JCS_res (
    created ← fmt_time (mf_CreatedAt m);
    Ok (JObj [
      ("version", JStr (mf_Version m)); ("pack_id", JStr (mf_PackID m)); ("created_at", JStr created);
      ("actor_did", JStr (mf_ActorDID m)); ("intent_id", JStr (mf_IntentID m));
      ("policy_hash", JStr (mf_PolicyHash m));
      ("entries", JArr (map canonicalEntry (sort_entries (mf_Entries m))))])));
  Ok (prefixed (sha256 data)).

(** * The Merkle tree over entries (merkle.go) *)

Definition merkleLeafPrefix : ascii := byte 0.
Definition merkleInnerPrefix : ascii := byte 1.

Definition leafDigest (entry : ManifestEntry) : res bytes :=
  data ← wrap_err ("canonicalize entry " +:+ goq (me_Path entry) +:+ ": ") (JCS (canonicalEntry entry));
  Ok (sha256 (merkleLeafPrefix :: data)).

Definition LeafHash (entry : ManifestEntry) : res string :=
  raw ← leafDigest entry; Ok (prefixed raw).

Definition innerDigest (left right : bytes) : bytes := sha256 (merkleInnerPrefix :: left ++ right)%list.

Definition sortedLeafDigests (entries : list ManifestEntry) : res (list bytes * list ManifestEntry) :=
  let sorted := sort_entries entries in
  leaves ← traverse leafDigest sorted;
  Ok (leaves, sorted).

(** One round of the loop in [reduceToRoot]. *)
Fixpoint next_nodes (level : list bytes) : list bytes :=
  match level with
  | [] => []
  | [lhs] => [innerDigest lhs lhs]
  | lhs :: rhs :: rest => innerDigest lhs rhs :: next_nodes rest
  end.

(** [None] when [fuel] rounds do not reach a single node. *)
Fixpoint reduce_loop (fuel : nat) (level : list bytes) : option bytes :=
  match level with
  | [] => None
  | [root] => Some root
  | _ => match fuel with O => None | S f => reduce_loop f (next_nodes level) end
  end.

Definition reduceToRoot (leaves : list bytes) : res bytes :=
  match leaves with
  | [] => Fail "merkle: no entries to hash"
  | _ => of_option (reduce_loop (length leaves) leaves)
  end.

Definition ComputeEntriesMerkleRoot (entries : list ManifestEntry) : res string :=
  '(leaves, _) ← sortedLeafDigests entries;
  root ← reduceToRoot leaves;
  Ok (prefixed root).

Record MerkleProofStep := { ps_SiblingHash : string; ps_Right : bool }.

(** The step recorded at the pair [(lhs, rhs)] whose left node has index [i]. *)
Definition step_at (i pos : nat) (lhs rhs : bytes) : list MerkleProofStep :=
  if Nat.eqb i pos then [{| ps_SiblingHash := prefixed rhs; ps_Right := true |}]
  else if Nat.eqb (i + 1) pos then [{| ps_SiblingHash := prefixed lhs; ps_Right := false |}]
  else [].

(** The inner loop of [BuildInclusionPath] from index [i] on. *)
Fixpoint scan_level (i pos : nat) (level : list bytes) : list MerkleProofStep * list bytes :=
  match level with
  | [] => ([], [])
  | [lhs] => (step_at i pos lhs lhs, [innerDigest lhs lhs])
  | lhs :: rhs :: rest =>
      let '(steps, next) := scan_level (i + 2) pos rest in
      ((step_at i pos lhs rhs ++ steps)%list, innerDigest lhs rhs :: next)
  end.

Fixpoint path_loop (fuel pos : nat) (steps : list MerkleProofStep) (level : list bytes)
    : option (list MerkleProofStep * bytes) :=
  match level with
  | [] => None
  | [root] => Some (steps, root)
  | _ =>
      match fuel with
      | O => None
      | S f => let '(new, next) := scan_level 0 pos level in
               path_loop f (pos / 2) (steps ++ new)%list next
      end
  end.

(** The index of the first entry at [entryPath]. *)
Fixpoint index_of (i : nat) (entryPath : string) (sorted : list ManifestEntry) : option nat :=
  match sorted with
  | [] => None
  | e :: l => if String.eqb (me_Path e) entryPath then Some i else index_of (i + 1) entryPath l
  end.

Definition BuildInclusionPath (entries : list ManifestEntry) (entryPath : string)
    : res (list MerkleProofStep * string) :=
  '(leaves, sorted) ← sortedLeafDigests entries;
  match index_of 0 entryPath sorted with
  | None => Fail ("merkle: entry " +:+ goq entryPath +:+ " not found in manifest")
  | Some idx =>
      '(steps, root) ← of_option (path_loop (length leaves) idx [] leaves);
      Ok (steps, prefixed root)
  end.

Definition decodeSHA256 (s : string) : res bytes :=
  match strip_prefix (to_bytes "sha256:") (to_bytes s) with
  | None => Fail "missing sha256: prefix"
  | Some digits =>
      match unhex digits with
      | None => Fail "hex decode: invalid text"
      | Some raw =>
          if negb (Nat.eqb (length raw) HashSize)
          then Fail ("expected 32 bytes, got " +:+ dec (Z.of_nat (length raw)))
          else Ok raw
      end
  end.

Fixpoint verify_loop (i : nat) (running : bytes) (steps : list MerkleProofStep) : res bytes :=
  match steps with
  | [] => Ok running
  | step :: rest =>
      sib ← wrap_err ("merkle: invalid sibling hash at step " +:+ dec (Z.of_nat i) +:+ ": ")
              (decodeSHA256 (ps_SiblingHash step));
      verify_loop (i + 1) (if ps_Right step then innerDigest running sib else innerDigest sib running) rest
  end.

Definition VerifyInclusionPath (leafHash : string) (steps : list MerkleProofStep) : res string :=
  running ← wrap_err "merkle: invalid leaf hash: " (decodeSHA256 leafHash);
  root ← verify_loop 0 running steps;
  Ok (prefixed root).

(** * Inclusion proofs (inclusionproof.go) *)

Definition InclusionProofVersion : string := "1.0.0".

Record PackBinding := {
  pb_PackID : string;
  pb_ManifestHash : string;
  pb_PolicyHash : string;
  pb_CreatedAt : string;
  pb_EntriesMerkleRoot : string;
  pb_EntryCount : Z;
}.

Record SelectiveDisclosure := { sd_Presentation : string; sd_PublicClaims : list string }.

Record InclusionProof := {
  pf_Version : string;
  pf_Binding : PackBinding;
  pf_Entry : ManifestEntry;
  pf_LeafHash : string;
  pf_Path : list MerkleProofStep;
  pf_Disclosure : option SelectiveDisclosure;
  pf_BindingHash : string;
}.

#[export] Instance InclusionProof_eta : Eta InclusionProof := fun p => {|
  pf_Version := pf_Version p; pf_Binding := pf_Binding p; pf_Entry := pf_Entry p; pf_LeafHash := pf_LeafHash p;
  pf_Path := pf_Path p; pf_Disclosure := pf_Disclosure p; pf_BindingHash := pf_BindingHash p |}.

Definition json_of_PackBinding (b : PackBinding) : json := JObj [
  ("pack_id", JStr (pb_PackID b)); ("manifest_hash", JStr (pb_ManifestHash b));
  ("policy_hash", JStr (pb_PolicyHash b)); ("created_at", JStr (pb_CreatedAt b));
  ("entries_merkle_root", JStr (pb_EntriesMerkleRoot b)); ("entry_count", JNum (dec (pb_EntryCount b)))].

Definition computeBindingHash (proof : InclusionProof) : res string :=
  data ← wrap_err "canonicalize proof binding: " (JCS (JObj [
    ("version", JStr (pf_Version proof)); ("binding", json_of_PackBinding (pf_Binding proof));
    ("entry", canonicalEntry (pf_Entry proof)); ("leaf_hash", JStr (pf_LeafHash proof))]));
  Ok (prefixed (sha256 data)).

Definition BuildInclusionProof (manifest : option Manifest) (entryPath : string)
    (disclosure : option SelectiveDisclosure) : res InclusionProof :=
  match manifest with
  | None => Fail "inclusion proof: manifest is nil"
  | Some m =>
      if String.eqb (mf_ManifestHash m) "" then Fail "inclusion proof: manifest hash is unset"
      else
        root ← ComputeEntriesMerkleRoot (mf_Entries m);
        match List.find (fun e => String.eqb (me_Path e) entryPath) (mf_Entries m) with
        | None => Fail ("inclusion proof: entry " +:+ goq entryPath +:+ " not found in manifest")
        | Some entry =>
            '(steps, derivedRoot) ← BuildInclusionPath (mf_Entries m) entryPath;
            if negb (String.eqb derivedRoot root) then Fail "inclusion proof: internal root mismatch"
            else
              leaf ← LeafHash entry;
              let proof := {|
                pf_Version := InclusionProofVersion;
                pf_Binding := {|
                  pb_PackID := mf_PackID m; pb_ManifestHash := mf_ManifestHash m; pb_PolicyHash := mf_PolicyHash m;
                  pb_CreatedAt := time_format (mf_CreatedAt m); pb_EntriesMerkleRoot := root;
                  pb_EntryCount := Z.of_nat (length (mf_Entries m)) |};
                pf_Entry := entry; pf_LeafHash := leaf; pf_Path := steps; pf_Disclosure := disclosure;
                pf_BindingHash := "" |} in
              bindingHash ← computeBindingHash proof;
              Ok (proof <| pf_BindingHash := bindingHash |>)
        end
  end.

Definition err_version (proof : InclusionProof) : error :=
  "inclusion proof: unsupported version " +:+ goq (pf_Version proof).
Definition err_binding : error := "inclusion proof: binding hash mismatch (tampered binding or entry)".
Definition err_leaf : error := "inclusion proof: leaf hash does not match entry record".
Definition err_path : error :=
  "inclusion proof: merkle path does not reach entries_merkle_root (wrong entry or tampered path)".
Definition err_empty_path : error :=
  "inclusion proof: empty merkle path — the leaf is its own root, which proves nothing without an external entries_merkle_root; use VerifyInclusionProofAgainstRoot".

Definition VerifyInclusionProof (proof : option InclusionProof) : res unit :=
  match proof with
  | None => Fail "inclusion proof: nil proof"
  | Some proof =>
      if negb (String.eqb (pf_Version proof) InclusionProofVersion) then Fail (err_version proof)
      else
        expectedBinding ← computeBindingHash proof;
        if negb (String.eqb (pf_BindingHash proof) expectedBinding) then Fail err_binding
        else
          wantLeaf ← LeafHash (pf_Entry proof);
          if negb (String.eqb (pf_LeafHash proof) wantLeaf) then Fail err_leaf
          else
            derivedRoot ← VerifyInclusionPath (pf_LeafHash proof) (pf_Path proof);
            if negb (String.eqb derivedRoot (pb_EntriesMerkleRoot (pf_Binding proof))) then Fail err_path
            else if Nat.eqb (length (pf_Path proof)) 0 then Fail err_empty_path
            else Ok tt
  end.

Definition VerifyInclusionProofAgainstRoot (proof : option InclusionProof) (expectedRoot : string) : res unit :=
  if blank expectedRoot then
    Fail "inclusion proof: expected entries_merkle_root is required; verifying against the root carried inside the proof proves nothing"
  else
    match proof with
    | None => Fail "inclusion proof: nil proof"
    | Some proof =>
        if negb (String.eqb (pb_EntriesMerkleRoot (pf_Binding proof)) expectedRoot) then
          Fail ("inclusion proof: binding root " +:+ goq (pb_EntriesMerkleRoot (pf_Binding proof)) +:+
                " does not match the expected pack root " +:+ goq expectedRoot)
        else if negb (String.eqb (pf_Version proof) InclusionProofVersion) then Fail (err_version proof)
        else
          expectedBinding ← computeBindingHash proof;
          if negb (String.eqb (pf_BindingHash proof) expectedBinding) then Fail err_binding
          else
            wantLeaf ← LeafHash (pf_Entry proof);
            if negb (String.eqb (pf_LeafHash proof) wantLeaf) then Fail err_leaf
            else
              derivedRoot ← VerifyInclusionPath (pf_LeafHash proof) (pf_Path proof);
              if negb (String.eqb derivedRoot expectedRoot)
              then Fail "inclusion proof: merkle path does not reach the expected pack root"
              else Ok tt
    end.
End Pack.

(** * JSON with indentation: [json.MarshalIndent(v, "", "  ")] *)

Definition newline_at (depth : nat) : bytes := (byte 10 :: repeat " "%char (2 * depth))%list.

Fixpoint indented_items (depth : nat) (items : list bytes) : bytes :=
  match items with
  | [] => []
  | [x] => (newline_at depth ++ x)%list
  | x :: rest => (newline_at depth ++ x ++ ","%char :: indented_items depth rest)%list
  end.

Fixpoint marshal_indent (depth : nat) (v : json) : bytes :=
  match v with
  | JArr [] => to_bytes "[]"
  | JArr l => ("["%char :: indented_items (S depth) (map (marshal_indent (S depth)) l)
                 ++ newline_at depth ++ ["]"%char])%list
  | JObj [] => to_bytes "{}"
  | JObj l => ("{"%char :: indented_items (S depth)
                   (map (fun kv => go_quote kv.1 ++ to_bytes ": " ++ marshal_indent (S depth) kv.2) l)
                 ++ newline_at depth ++ ["}"%char])%list
  | _ => json_marshal v
  end.

Definition MarshalIndent (v : res json) : res bytes := j ← v; Ok (marshal_indent 0 j).

(** A nil slice of entries is written [null]; both builders leave it nil while it is empty. *)
Definition json_of_manifest (m : Manifest) : res json :=
  created ← fmt_time (mf_CreatedAt m);
  Ok (JObj ([
    ("version", JStr (mf_Version m)); ("pack_id", JStr (mf_PackID m)); ("created_at", JStr created);
    ("actor_did", JStr (mf_ActorDID m)); ("intent_id", JStr (mf_IntentID m));
    ("policy_hash", JStr (mf_PolicyHash m));
    ("entries", match mf_Entries m with [] => JNull | l => JArr (map canonicalEntry l) end);
    ("manifest_hash", JStr (mf_ManifestHash m))]
    ++ opt_string "entries_merkle_root" (mf_EntriesMerkleRoot m))%list).

(** * The in-memory builder (builder.go) *)

Record entryData := { ed_content : bytes; ed_contentType : string }.

Record Builder := {
  bu_packID : string;
  bu_actorDID : string;
  bu_intentID : string;
  bu_policyHash : string;
  bu_createdAt : time;
  bu_entries : gmap string entryData;
}.

#[export] Instance Builder_eta : Eta Builder := fun b => {|
  bu_packID := bu_packID b; bu_actorDID := bu_actorDID b; bu_intentID := bu_intentID b;
  bu_policyHash := bu_policyHash b; bu_createdAt := bu_createdAt b; bu_entries := bu_entries b |}.

Definition NewBuilder (packID actorDID intentID policyHash : string) (now : time) : Builder := {|
  bu_packID := packID; bu_actorDID := actorDID; bu_intentID := intentID; bu_policyHash := policyHash;
  bu_createdAt := now; bu_entries := ∅ |}.

Definition WithCreatedAt (t : time) (b : Builder) : Builder := b <| bu_createdAt := t |>.

(** [b.entries[path] = entryData{...}] *)
Definition put_entry (path contentType : string) (data : bytes) (b : Builder) : Builder :=
  b <| bu_entries := <[path := {| ed_content := data; ed_contentType := contentType |}]> (bu_entries b) |>.

Definition add_json (what dir name : string) (v : res json) : M Builder unit :=
  data ← lift (wrap_err ("marshal " +:+ what +:+ " " +:+ name +:+ ": ") (MarshalIndent v));
  modify (put_entry (dir +:+ "/" +:+ name +:+ ".json") "application/json" data).

Definition AddReceipt (name : string) (receipt : res json) : M Builder unit :=
  add_json "receipt" "receipts" name receipt.
Definition AddPolicyDecision (name : string) (decision : res json) : M Builder unit :=
  add_json "policy decision" "policy" name decision.
Definition AddToolTranscript (name : string) (transcript : res json) : M Builder unit :=
  add_json "transcript" "transcripts" name transcript.
Definition AddSecretAccessLog (name : string) (events : res json) : M Builder unit :=
  add_json "secret events" "secrets" name events.
Definition AddPortExposure (name : string) (event : res json) : M Builder unit :=
  add_json "port exposure" "ports" name event.
Definition AddReplayManifest (name : string) (manifest : res json) : M Builder unit :=
  add_json "replay manifest" "replay" name manifest.
Definition AddTransparencySTH (name : string) (sth : res json) : M Builder unit :=
  add_json "transparency sth" "transparency" name sth.

Definition AddRawEntry (path contentType : string) (data : bytes) : M Builder unit :=
  modify (put_entry path contentType data).

Definition AddNetworkLog (name : string) (log : bytes) : M Builder unit :=
  if Nat.eqb (length log) 0 then fail ("empty network log: " +:+ name)
  else modify (put_entry ("network/" +:+ name +:+ ".log") "text/plain" log).

Definition AddGitDiff (name : string) (diff : bytes) : M Builder unit :=
  if Nat.eqb (length diff) 0 then fail ("empty git diff: " +:+ name)
  else modify (put_entry ("diffs/" +:+ name +:+ ".diff") "text/x-diff" diff).

(** [strings.Trim(value, "/")] *)
Definition trim_slashes (l : bytes) : bytes :=
  rev (trim_left [to_bytes "/"] (rev (trim_left [to_bytes "/"] l))).

Definition replace_byte (c d : ascii) (l : bytes) : bytes := map (fun x => if Ascii.eqb x c then d else x) l.

(** [strings.ReplaceAll(value, "..", "_")] *)
Fixpoint replace_dots (l : bytes) : bytes :=
  match l with
  | a :: ((b :: t) as rest) =>
      if Ascii.eqb a "." && Ascii.eqb b "." then "_"%char :: replace_dots t else a :: replace_dots rest
  | _ => l
  end.

Definition safeEvidenceName (value : string) : string :=
  let value := trim_slashes (to_bytes (trim_space value)) in
  of_bytes (replace_dots (replace_byte "/" "_" (replace_byte backslash "_" value))).

Definition AddHostEvidence (source name : string) (evidence : bytes) : M Builder unit :=
  if Nat.eqb (length evidence) 0 then fail ("empty host evidence: " +:+ name)
  else
    let source := safeEvidenceName source in
    let name := safeEvidenceName name in
    if String.eqb source "" || String.eqb name "" then fail "host evidence source and name are required"
    else modify (put_entry ("host_evidence/" +:+ source +:+ "/" +:+ name) "application/json" evidence).

Section Build.
Context `{Hash}.

Definition entry_of (path contentType : string) (content : bytes) : ManifestEntry := {|
  me_Path := path; me_ContentHash := HashContent content; me_Size := Z.of_nat (length content);
  me_ContentType := contentType |}.

(** [Build]; [order] is the order in which [range b.entries] visits the map. *)
Definition Build (order : list (string * entryData)) (b : Builder) : res (Manifest * gmap string bytes) :=
  if Nat.eqb (size (bu_entries b)) 0 then Fail "evidence pack has no entries"
  else
    let manifestEntries := map (fun kv => entry_of kv.1 (ed_contentType kv.2) (ed_content kv.2)) order in
    let contentMap := foldl (fun m kv => <[kv.1 := ed_content kv.2]> m) ∅ order in
    let manifest := {|
      mf_Version := ManifestVersion; mf_PackID := bu_packID b; mf_CreatedAt := bu_createdAt b;
      mf_ActorDID := bu_actorDID b; mf_IntentID := bu_intentID b; mf_PolicyHash := bu_policyHash b;
      mf_Entries := manifestEntries; mf_ManifestHash := ""; mf_EntriesMerkleRoot := "" |} in
    manifestHash ← wrap_err "compute manifest hash: " (ComputeManifestHash manifest);
    merkleRoot ← wrap_err "compute entries merkle root: " (ComputeEntriesMerkleRoot manifestEntries);
    let manifest := {|
      mf_Version := ManifestVersion; mf_PackID := bu_packID b; mf_CreatedAt := bu_createdAt b;
      mf_ActorDID := bu_actorDID b; mf_IntentID := bu_intentID b; mf_PolicyHash := bu_policyHash b;
      mf_Entries := manifestEntries; mf_ManifestHash := manifestHash; mf_EntriesMerkleRoot := merkleRoot |} in
    manifestJSON ← wrap_err "marshal manifest: " (MarshalIndent (json_of_manifest manifest));
    Ok (manifest, <["manifest.json" := manifestJSON]> contentMap).

(** * The streaming builder (stream_builder.go) *)

(** What the tar writer answers in one call of the builder. *)
Inductive tar_io := TarOk | HeaderFails (e : error) | ContentFails (e : error) | CloseFails (e : error).

Record StreamBuilder := {
  sb_tar : list (string * bytes);
  sb_packID : string;
  sb_actorDID : string;
  sb_intentID : string;
  sb_policyHash : string;
  sb_createdAt : time;
  sb_entries : list ManifestEntry;
  sb_finalized : bool;
}.

#[export] Instance StreamBuilder_eta : Eta StreamBuilder := fun b => {|
  sb_tar := sb_tar b; sb_packID := sb_packID b; sb_actorDID := sb_actorDID b; sb_intentID := sb_intentID b;
  sb_policyHash := sb_policyHash b; sb_createdAt := sb_createdAt b; sb_entries := sb_entries b;
  sb_finalized := sb_finalized b |}.

Definition NewStreamBuilder (packID actorDID intentID policyHash : string) (now : time) : StreamBuilder := {|
  sb_tar := []; sb_packID := packID; sb_actorDID := actorDID; sb_intentID := intentID;
  sb_policyHash := policyHash; sb_createdAt := now; sb_entries := []; sb_finalized := false |}.

Definition stream_WithCreatedAt (t : time) (sb : StreamBuilder) : StreamBuilder := sb <| sb_createdAt := t |>.

Definition AddEntry (answer : tar_io) (path : string) (data : bytes) (contentType : string)
    : M StreamBuilder unit := fun sb =>
  if sb_finalized sb then (sb, Fail "stream builder already finalized")
  else
    match answer with
    | HeaderFails e => (sb, Fail ("write tar header for " +:+ path +:+ ": " +:+ e))
    | ContentFails e => (sb, Fail ("write tar content for " +:+ path +:+ ": " +:+ e))
    | _ => (sb <| sb_tar := (sb_tar sb ++ [(path, data)])%list |>
               <| sb_entries := (sb_entries sb ++ [entry_of path contentType data])%list |>, Ok tt)
    end.

Definition stream_AddReceipt (answer : tar_io) (name : string) (receipt : res json) : M StreamBuilder unit :=
  data ← lift (wrap_err ("marshal receipt " +:+ name +:+ ": ") (MarshalIndent receipt));
  AddEntry answer ("receipts/" +:+ name +:+ ".json") data "application/json".

Definition stream_AddToolTranscript (answer : tar_io) (name : string) (transcript : res json)
    : M StreamBuilder unit :=
  data ← lift (wrap_err ("marshal transcript " +:+ name +:+ ": ") (MarshalIndent transcript));
  AddEntry answer ("transcripts/" +:+ name +:+ ".json") data "application/json".

Definition Finalize (answer : tar_io) : M StreamBuilder Manifest := fun sb =>
  if sb_finalized sb then (sb, Fail "stream builder already finalized")
  else
    let sb := (sb <| sb_finalized := true |>) <| sb_entries := sort_entries (sb_entries sb) |> in
    let manifest hash := {|
      mf_Version := "1.0.0"; mf_PackID := sb_packID sb; mf_CreatedAt := sb_createdAt sb;
      mf_ActorDID := sb_actorDID sb; mf_IntentID := sb_intentID sb; mf_PolicyHash := sb_policyHash sb;
      mf_Entries := sb_entries sb; mf_ManifestHash := hash; mf_EntriesMerkleRoot := "" |} in
    match wrap_err "compute manifest hash: " (ComputeManifestHash (manifest "")) with
    | Fail e => (sb, Fail e)
    | Ok manifestHash =>
        match wrap_err "marshal manifest: " (MarshalIndent (json_of_manifest (manifest manifestHash))) with
        | Fail e => (sb, Fail e)
        | Ok manifestData =>
            let sb' := sb <| sb_tar := (sb_tar sb ++ [("manifest.json", manifestData)])%list |> in
            match answer with
            | HeaderFails e => (sb, Fail ("write manifest header: " +:+ e))
            | ContentFails e => (sb, Fail ("write manifest content: " +:+ e))
            | CloseFails e => (sb', Fail ("close tar: " +:+ e))
            | TarOk => (sb', Ok (manifest manifestHash))
            end
        end
    end.

Definition EntryCount (sb : StreamBuilder) : Z := Z.of_nat (length (sb_entries sb)).
End Build.

(** * Sorting by path *)

Definition path_lt (x y : ManifestEntry) : Prop := string_lt (me_Path x) (me_Path y) = true.

Definition distinct_paths (l : list ManifestEntry) : Prop := NoDup (map me_Path l).

#[export] Instance path_lt_trans : Transitive path_lt.
Proof. intros x y z. apply lexb_trans. Qed.

Lemma path_lt_asym x y : path_lt x y -> path_lt y x -> False.
Proof.
  unfold path_lt, string_lt. intros A B. pose proof (lexb_trans _ _ _ A B) as C. by rewrite lexb_irrefl in C.
Qed.

Lemma path_total x y : me_Path x <> me_Path y -> path_lt x y \/ path_lt y x.
Proof.
  intros Hne. unfold path_lt, string_lt.
  destruct (lexb_total (map bz (to_bytes (me_Path x))) (map bz (to_bytes (me_Path y)))) as [?|[E|?]]; auto.
  exfalso. apply Hne, to_bytes_inj. revert E. generalize (to_bytes (me_Path y)).
  induction (to_bytes (me_Path x)) as [|c l IH]; intros [|d k]; cbn; try done.
  intros [= ->%bz_inj E]. f_equal. by apply IH.
Qed.

Lemma insert_entry_perm x l : insert_entry x l ≡ₚ x :: l.
Proof.
  induction l as [|y l IH]; cbn; [done|]. destruct (string_lt _ _); [|done].
  rewrite IH. apply Permutation_swap.
Qed.

Lemma sort_entries_perm l : sort_entries l ≡ₚ l.
Proof. induction l as [|x l IH]; cbn; [done|]. by rewrite insert_entry_perm, IH. Qed.

#[export] Instance distinct_paths_perm : Proper ((≡ₚ) ==> iff) distinct_paths.
Proof. intros l k E. unfold distinct_paths. by rewrite E. Qed.

Lemma distinct_paths_eq l x y :
  distinct_paths l -> x ∈ l -> y ∈ l -> me_Path x = me_Path y -> x = y.
Proof.
  unfold distinct_paths. induction l as [|z l IH]; cbn; [set_solver|].
  intros [Hz Hn]%NoDup_cons [->|Hx]%elem_of_cons [->|Hy]%elem_of_cons E; auto.
  - exfalso. apply Hz. rewrite E. apply list_elem_of_fmap. eauto.
  - exfalso. apply Hz. rewrite <-E. apply list_elem_of_fmap. eauto.
Qed.

Lemma insert_entry_sorted x l :
  distinct_paths (x :: l) -> StronglySorted path_lt l -> StronglySorted path_lt (insert_entry x l).
Proof.
  intros Hd Hs. induction Hs as [|y l Hs IH Hy]; cbn; [by repeat constructor|].
  assert (Hxy : me_Path x <> me_Path y).
  { cbn in Hd. apply NoDup_cons in Hd as [Hx _]. intros E. apply Hx. rewrite E. cbn. apply elem_of_cons. by left. }
  destruct (string_lt (me_Path y) (me_Path x)) eqn:E.
  - constructor.
    + apply IH. unfold distinct_paths in *. cbn in *. apply NoDup_cons in Hd as [Hx Hd].
      apply NoDup_cons in Hd as [_ Hd]. apply NoDup_cons. split; [|done].
      intros F. apply Hx, elem_of_cons. by right.
    + rewrite insert_entry_perm. by constructor.
  - destruct (path_total x y Hxy) as [H|H]; [|unfold path_lt in H; congruence].
    repeat constructor; [done..|]. eapply Forall_impl; [exact Hy|]. intros z Hz. by etrans.
Qed.

Lemma sort_entries_sorted l : distinct_paths l -> StronglySorted path_lt (sort_entries l).
Proof.
  induction l as [|x l IH]; [constructor|]. intros H. cbn [sort_entries foldr].
  apply insert_entry_sorted.
  - fold (sort_entries l). unfold distinct_paths. cbn [map]. by rewrite sort_entries_perm.
  - apply IH. by apply NoDup_cons in H as [].
Qed.

(** With distinct paths every sort by path gives this list. *)
Lemma sort_entries_unique l k : distinct_paths l -> l ≡ₚ k -> sort_entries l = sort_entries k.
Proof.
  intros Hl E. eapply (StronglySorted_unique_strong path_lt).
  - intros x y _ _ Hxy Hyx. by destruct (path_lt_asym x y).
  - by apply sort_entries_sorted.
  - apply sort_entries_sorted. by rewrite <-E.
  - by rewrite !sort_entries_perm.
Qed.

(** * The tree *)

Section Tree.
Context `{Hash} `{!HashLaws}.

Definition leaf_of (e : ManifestEntry) : bytes :=
  sha256 (merkleLeafPrefix :: enc (reparse (canonicalEntry e))).

Lemma leafDigest_spec e : leafDigest e = Ok (leaf_of e).
Proof. unfold leafDigest. by rewrite JCS_Ok. Qed.

Lemma LeafHash_spec e : LeafHash e = Ok (prefixed (leaf_of e)).
Proof. unfold LeafHash. by rewrite leafDigest_spec. Qed.

Lemma sortedLeafDigests_spec entries :
  sortedLeafDigests entries = Ok (map leaf_of (sort_entries entries), sort_entries entries).
Proof.
  unfold sortedLeafDigests.
  rewrite (traverse_spec leafDigest leaf_of (fun _ => true) "") by (apply Forall_true; intros; apply leafDigest_spec).
  by replace (forallb _ _) with true by (by induction (sort_entries entries)).
Qed.

Lemma leaf_sized e : sized (leaf_of e).
Proof. apply sha256_size. Qed.

Lemma leaves_sized l : Forall sized (map leaf_of l).
Proof. apply Forall_map, Forall_true. intros. apply leaf_sized. Qed.

Lemma inner_sized a b : sized (innerDigest a b).
Proof. apply sha256_size. Qed.
#[local] Hint Resolve inner_sized leaf_sized leaves_sized : helm.

Lemma decodeSHA256_prefixed b : sized b -> decodeSHA256 (prefixed b) = Ok b.
Proof.
  intros Hb. unfold decodeSHA256, prefixed. rewrite to_bytes_app, strip_prefix_of_app.
  pose proof (hex_decode_encode b) as E. unfold hex_decode in E. by rewrite E, Hb.
Qed.

Lemma decodeSHA256_sized s b : decodeSHA256 s = Ok b -> sized b.
Proof.
  unfold decodeSHA256. destruct (strip_prefix _ _) as [d|]; [|done]. destruct (unhex d) as [r|]; [|done].
  destruct (Nat.eqb_spec (length r) HashSize); [|done]. by intros [= <-].
Qed.

Lemma prefixed_inj a b : prefixed a = prefixed b -> a = b.
Proof. intros E. unfold prefixed in E. apply hex_encode_inj. by simplify_eq. Qed.

(** ** Levels *)

(** Induction two nodes at a time. *)
Lemma node_pairs_ind (P : list bytes -> Prop) :
  P [] -> (forall x, P [x]) -> (forall x y l, P l -> P (x :: y :: l)) -> forall l, P l.
Proof.
  intros Hnil Hone Htwo. fix go 1. intros [|x [|y l]]; [apply Hnil|apply Hone|apply Htwo, go].
Qed.

Lemma level_halves l : (2 * length (next_nodes l) <= length l + 1 /\ length l <= 2 * length (next_nodes l))%nat.
Proof. induction l as [| |x y l IH] using node_pairs_ind; cbn [next_nodes length]; lia. Qed.

Lemma next_level_sized l : Forall sized (next_nodes l).
Proof. induction l as [| |x y l IH] using node_pairs_ind; cbn [next_nodes]; auto with helm. Qed.

(** Every node above the leaves is the digest of two nodes of the level below. *)
Lemma next_level_elem l h : h ∈ next_nodes l -> exists a b, a ∈ l /\ b ∈ l /\ h = innerDigest a b.
Proof.
  induction l as [|x|x y l IH] using node_pairs_ind; cbn [next_nodes].
  - set_solver.
  - intros ->%list_elem_of_singleton. exists x, x. set_solver.
  - intros [->|Hh]%elem_of_cons; [exists x, y; set_solver|].
    destruct (IH Hh) as (a & b & ? & ? & ->). exists a, b. set_solver.
Qed.

(** [length level] rounds are enough. *)
Lemma reduce_loop_total fuel level :
  level <> [] -> (length level <= fuel)%nat -> exists root, reduce_loop fuel level = Some root.
Proof.
  revert level. induction fuel as [|f IH]; intros [|x [|y l]] Hn Hf; try done; cbn [length] in *; try lia.
  - by exists x.
  - pose proof (level_halves (x :: y :: l)) as Hl. cbn [length] in Hl.
    apply IH; [|lia]. intros E. rewrite E in Hl. cbn in Hl. lia.
Qed.

Lemma reduceToRoot_Ok leaves root :
  reduceToRoot leaves = Ok root <-> reduce_loop (length leaves) leaves = Some root.
Proof.
  unfold reduceToRoot. destruct leaves as [|x l]; [done|]. unfold of_option.
  destruct (reduce_loop _ _); split; congruence.
Qed.

Lemma merkle_root_spec entries : entries <> [] ->
  exists root, reduce_loop (length (map leaf_of (sort_entries entries))) (map leaf_of (sort_entries entries)) = Some root /\
    ComputeEntriesMerkleRoot entries = Ok (prefixed root).
Proof.
  intros Hne. set (leaves := map leaf_of (sort_entries entries)).
  destruct (reduce_loop_total (length leaves) leaves) as [root E]; [|lia|].
  - unfold leaves. intros E%(f_equal length). rewrite length_map, (Permutation_length (sort_entries_perm entries)) in E.
    by destruct entries.
  - exists root. split; [done|]. unfold ComputeEntriesMerkleRoot. rewrite sortedLeafDigests_spec. fold leaves. cbn.
    by rewrite (proj2 (reduceToRoot_Ok leaves root) E).
Qed.

(** ** Audit paths *)

Definition combine (right : bool) (running sib : bytes) : bytes :=
  if right then innerDigest running sib else innerDigest sib running.

Lemma scan_level_next i pos level : snd (scan_level i pos level) = next_nodes level.
Proof.
  revert i. induction level as [|x|x y l IH] using node_pairs_ind; intros i; [done..|]. cbn [scan_level next_nodes].
  specialize (IH (i + 2)%nat). destruct (scan_level (i + 2) pos l). cbn in *. by rewrite IH.
Qed.

Lemma scan_level_past i pos level : (pos < i)%nat -> fst (scan_level i pos level) = [].
Proof.
  assert (Hstep : forall j a b, (pos < j)%nat -> step_at j pos a b = []).
  { intros j a b Hj. unfold step_at. by rewrite (proj2 (Nat.eqb_neq j pos)), (proj2 (Nat.eqb_neq (j + 1) pos)) by lia. }
  revert i. induction level as [|x|x y l IH] using node_pairs_ind; intros i Hi; [done|by apply Hstep|]. cbn [scan_level].
  specialize (IH (i + 2)%nat ltac:(lia)). destruct (scan_level (i + 2) pos l). cbn in *. by rewrite IH, Hstep.
Qed.

(** The scan records the sibling of the running node, and their digest is at half its index. *)
Lemma scan_level_spec i p level x :
  level !! p = Some x -> exists sib right,
    fst (scan_level i (i + p) level) = [{| ps_SiblingHash := prefixed sib; ps_Right := right |}] /\
    sib ∈ level /\ next_nodes level !! (p / 2)%nat = Some (combine right x sib).
Proof.
  assert (Hz : forall j a b, step_at j (j + 0) a b = [{| ps_SiblingHash := prefixed b; ps_Right := true |}]).
  { intros. unfold step_at. by rewrite (proj2 (Nat.eqb_eq j (j + 0))) by lia. }
  revert i p. induction level as [|y|y z l IH] using node_pairs_ind; intros i p Hp; [done| |].
  - destruct p as [|p]; [|done]. injection Hp as <-. exists y, true. cbn [scan_level fst]. rewrite Hz.
    split; [done|]. split; [set_solver|done].
  - cbn [scan_level next_nodes]. destruct (scan_level (i + 2) (i + p) l) as [ss nx] eqn:Es. cbn [fst].
    assert (Hpast : (p < 2)%nat -> ss = []).
    { intros Hlt. change ss with (fst (ss, nx)). rewrite <-Es. apply scan_level_past. lia. }
    destruct p as [|[|p]].
    + injection Hp as <-. exists z, true. rewrite Hz, Hpast by lia. split; [done|]. split; [set_solver|done].
    + injection Hp as <-. exists y, false. rewrite Hpast by lia. unfold step_at.
      rewrite (proj2 (Nat.eqb_neq i (i + 1))), Nat.eqb_refl by lia.
      split; [done|]. split; [set_solver|done].
    + cbn in Hp. destruct (IH (i + 2)%nat p Hp) as (sib & right & E & Hin & En).
      replace (i + 2 + p)%nat with (i + S (S p))%nat in E by lia. rewrite Es in E. cbn in E. subst ss.
      exists sib, right. unfold step_at.
      rewrite (proj2 (Nat.eqb_neq i (i + S (S p)))), (proj2 (Nat.eqb_neq (i + 1) (i + S (S p)))) by lia.
      split; [done|]. split; [set_solver|].
      replace (S (S p) / 2)%nat with (S (p / 2)); [done|].
      exact (eq_sym (Nat.div_add_l 1 2 p ltac:(lia))).
Qed.

Lemma path_loop_spec fuel pos steps level x :
  (length level <= fuel)%nat -> Forall sized level -> level !! pos = Some x ->
  exists new root, path_loop fuel pos steps level = Some ((steps ++ new)%list, root) /\
    reduce_loop fuel level = Some root /\ (forall i, verify_loop i x new = Ok root) /\
    (length new = 0%nat <-> length level = 1%nat).
Proof.
  revert pos steps level x. induction fuel as [|f IH]; intros pos steps level x Hf Hs Hx.
  { destruct level; [done|cbn in Hf; lia]. }
  destruct level as [|y [|z l]]; [done| |].
  { destruct pos; [|done]. injection Hx as ->. exists [], x. by rewrite app_nil_r. }
  destruct (scan_level_spec 0 pos _ x Hx) as (sib & right & E & Hin & En). cbn [Nat.add] in E.
  pose proof (scan_level_next 0 pos (y :: z :: l)) as Enext.
  pose proof (level_halves (y :: z :: l)) as Hlen. cbn [length] in *.
  destruct (IH (pos / 2)%nat (steps ++ [{| ps_SiblingHash := prefixed sib; ps_Right := right |}])%list
    (next_nodes (y :: z :: l)) (combine right x sib)) as (new & root & Ep & Er & Ev & _); [lia|apply next_level_sized|done|].
  exists ({| ps_SiblingHash := prefixed sib; ps_Right := right |} :: new), root.
  cbn [path_loop reduce_loop]. destruct (scan_level 0 pos (y :: z :: l)) as [ss nx]. cbn [fst snd] in E, Enext. subst ss nx.
  rewrite Ep, <-app_assoc. split; [done|]. split; [done|]. split; [|cbn; lia].
  intros i. cbn [verify_loop ps_SiblingHash ps_Right]. rewrite decodeSHA256_prefixed.
  - apply Ev.
  - rewrite Forall_forall in Hs. by apply Hs.
Qed.

(** ** Accepted paths *)

(** An entry as the decoder of its canonical form sees it: ill-formed text is repaired. *)
Definition repaired (e : ManifestEntry) : ManifestEntry := {|
  me_Path := sanitize_string (me_Path e); me_ContentHash := sanitize_string (me_ContentHash e);
  me_Size := me_Size e; me_ContentType := sanitize_string (me_ContentType e) |}.

Lemma reparse_entry e : reparse (canonicalEntry e) = canonicalEntry (repaired e).
Proof.
  unfold canonicalEntry. cbn [reparse map fst snd].
  rewrite (sanitize_string_id "path"), (sanitize_string_id "content_hash"), (sanitize_string_id "size"),
    (sanitize_string_id "content_type") by done. reflexivity.
Qed.

Lemma enc_entry_inj e e' : enc (canonicalEntry e) = enc (canonicalEntry e') -> e = e'.
Proof.
  assert (W : forall e, json_wf (canonicalEntry e) = true) by (intros x; cbn; by rewrite dec_num_literal).
  rewrite !enc_render. intros E.
  assert (N : norm (canonicalEntry e) = norm (canonicalEntry e')).
  { eapply (render_inj (norm (canonicalEntry e))) with (r := []) (s := []); auto using norm_wf. by rewrite E. }
  destruct e, e'. cbn in N. injection N as -> -> -> ->%dec_inj. done.
Qed.

Lemma leaf_inj e e' : leaf_of e = leaf_of e' -> repaired e = repaired e' \/ collision.
Proof.
  intros E. unfold leaf_of in E. rewrite !reparse_entry in E.
  destruct (decide (enc (canonicalEntry (repaired e)) = enc (canonicalEntry (repaired e')))) as [D|D].
  - left. by apply enc_entry_inj.
  - right. exists (merkleLeafPrefix :: enc (canonicalEntry (repaired e))), (merkleLeafPrefix :: enc (canonicalEntry (repaired e'))).
    split; [|exact E]. intros F. apply D. by apply (f_equal tail) in F.
Qed.

(** The domain tags keep leaves and inner nodes apart. *)
Lemma leaf_not_inner e a b : leaf_of e = innerDigest a b -> collision.
Proof. intros E. eexists _, _. split; [|exact E]. discriminate. Qed.

Lemma inner_inj a b c d : innerDigest a b = innerDigest c d -> sized a -> sized c -> (a = c /\ b = d) \/ collision.
Proof. apply NodeHash_inj. Qed.

Definition climb (running : bytes) (sibs : list (bool * bytes)) : bytes :=
  foldl (fun r s => combine s.1 r s.2) running sibs.

Lemma climb_snoc r sibs s : climb r (sibs ++ [s])%list = combine s.1 (climb r sibs) s.2.
Proof. unfold climb. by rewrite foldl_app. Qed.

Lemma climb_sized r sibs : sized r -> sized (climb r sibs).
Proof.
  intros Hr. destruct sibs as [|s sibs _] using rev_ind; [done|]. rewrite climb_snoc.
  unfold combine. destruct s.1; apply inner_sized.
Qed.

Lemma verify_loop_climb i r steps out :
  verify_loop i r steps = Ok out -> exists sibs, Forall (fun s => sized s.2) sibs /\ out = climb r sibs.
Proof.
  revert i r. induction steps as [|s steps IH]; intros i r; cbn [verify_loop].
  - intros [= <-]. by exists [].
  - intros (sib & Hsib%wrap_err_Ok & E)%res_bind_Ok. apply IH in E as (sibs & Hs & ->).
    exists ((ps_Right s, sib) :: sibs). split; [|done]. constructor; [by eapply decodeSHA256_sized|done].
Qed.

(** What a climb from a leaf passes on its way to a node above a level. *)
Lemma climb_member e fuel level sibs :
  reduce_loop fuel level = Some (climb (leaf_of e) sibs) -> Forall sized level -> Forall (fun s => sized s.2) sibs ->
  collision \/ exists pre, Forall (fun s => sized s.2) pre /\ climb (leaf_of e) pre ∈ level.
Proof.
  revert level sibs. induction fuel as [|f IH]; intros [|x [|y l]] sibs E Hl Hs; try discriminate E;
    try (injection E as ->; right; exists sibs; split; [done|set_solver]).
  destruct (IH _ _ E (next_level_sized _) Hs) as [?|(pre & Hp & Hin)]; [by left|].
  apply next_level_elem in Hin as (a & b & Ha & Hb & Eab).
  destruct pre as [|s pre _] using rev_ind; [left; by eapply leaf_not_inner|].
  rewrite climb_snoc in Eab. apply Forall_app in Hp as [Hp Hsib]. rewrite Forall_singleton in Hsib.
  rewrite Forall_forall in Hl. pose proof (climb_sized (leaf_of e) pre (leaf_sized e)) as Hc.
  unfold combine in Eab. destruct s.1; apply inner_inj in Eab as [[E1 E2]|?]; auto; right; exists pre; by subst.
Qed.

Lemma climb_leaf e entries fuel sibs :
  reduce_loop fuel (map leaf_of entries) = Some (climb (leaf_of e) sibs) -> Forall (fun s => sized s.2) sibs ->
  (exists e', e' ∈ entries /\ repaired e = repaired e') \/ collision.
Proof.
  intros E Hs. destruct (climb_member e fuel _ sibs E (leaves_sized _) Hs) as [?|(pre & Hp & Hin)]; [by right|].
  apply list_elem_of_fmap in Hin as (e' & Ee & Hin).
  destruct pre as [|s pre _] using rev_ind.
  - apply leaf_inj in Ee as [Ee|?]; [left; by eauto|by right].
  - right. rewrite climb_snoc in Ee. unfold combine in Ee. symmetry in Ee.
    destruct s.1; by apply leaf_not_inner in Ee.
Qed.

(** * Proofs for the entries of a manifest *)

Lemma index_of_spec i path l k :
  index_of i path l = Some k -> exists e, (i <= k)%nat /\ l !! (k - i)%nat = Some e /\ me_Path e = path.
Proof.
  revert i. induction l as [|x l IH]; intros i; cbn [index_of]; [done|].
  destruct (String.eqb_spec (me_Path x) path) as [E|_].
  - intros [= <-]. exists x. rewrite Nat.sub_diag. by split.
  - intros (e & Hk & He & Hp)%IH. exists e. split; [lia|]. split; [|done].
    replace (k - i)%nat with (S (k - (i + 1))) by lia. done.
Qed.

Lemma index_of_found i l e : e ∈ l -> is_Some (index_of i (me_Path e) l).
Proof.
  revert i. induction l as [|x l IH]; intros i Hin; [set_solver|]. cbn [index_of].
  destruct (String.eqb_spec (me_Path x) (me_Path e)) as [|Hne]; [eauto|].
  apply IH. apply elem_of_cons in Hin as [->|?]; done.
Qed.

Lemma index_of_sorted entries e :
  distinct_paths entries -> e ∈ entries ->
  exists k, index_of 0 (me_Path e) (sort_entries entries) = Some k /\ sort_entries entries !! k = Some e.
Proof.
  intros Hd Hin. assert (Hs : e ∈ sort_entries entries) by (by rewrite sort_entries_perm).
  destruct (index_of_found 0 _ e Hs) as [k Hk]. exists k. split; [done|].
  apply index_of_spec in Hk as (e' & _ & He & Hp). rewrite Nat.sub_0_r in He. rewrite He. f_equal.
  apply (distinct_paths_eq (sort_entries entries)); [by rewrite sort_entries_perm|by eapply list_elem_of_lookup_2|done..].
Qed.

Lemma find_entry entries e :
  distinct_paths entries -> e ∈ entries ->
  List.find (fun x => String.eqb (me_Path x) (me_Path e)) entries = Some e.
Proof.
  intros Hd Hin. destruct (List.find _ entries) as [x|] eqn:E.
  - apply find_some in E as [Hx%list_elem_of_In Ep%String.eqb_eq]. f_equal. by eapply distinct_paths_eq.
  - exfalso. apply list_elem_of_In in Hin. pose proof (find_none _ _ E _ Hin) as F. cbn in F.
    by rewrite String.eqb_refl in F.
Qed.

(** The path of an entry, the root it leads to and the number of its steps. *)
Lemma inclusion_path_spec entries e :
  distinct_paths entries -> e ∈ entries ->
  exists steps root, BuildInclusionPath entries (me_Path e) = Ok (steps, root) /\
    ComputeEntriesMerkleRoot entries = Ok root /\
    VerifyInclusionPath (prefixed (leaf_of e)) steps = Ok root /\
    blank root = false /\ (length steps = 0%nat <-> length entries = 1%nat).
Proof.
  intros Hd Hin. destruct (index_of_sorted entries e Hd Hin) as (k & Hk & He).
  set (leaves := map leaf_of (sort_entries entries)).
  destruct (path_loop_spec (length leaves) k [] leaves (leaf_of e)) as (new & root & Ep & Er & Ev & En);
    [lia|apply leaves_sized|unfold leaves; by rewrite list_lookup_fmap, He|].
  exists new, (prefixed root). split; [|split; [|split; [|split]]].
  - unfold BuildInclusionPath. rewrite sortedLeafDigests_spec. cbn. rewrite Hk. fold leaves. rewrite Ep. done.
  - unfold ComputeEntriesMerkleRoot. rewrite sortedLeafDigests_spec. fold leaves. cbn.
    by rewrite (proj2 (reduceToRoot_Ok leaves root) Er).
  - unfold VerifyInclusionPath. rewrite decodeSHA256_prefixed by apply leaf_sized. cbn. by rewrite Ev.
  - by apply not_blank_head.
  - unfold leaves in En. by rewrite En, length_map, (Permutation_length (sort_entries_perm entries)).
Qed.

Lemma computeBindingHash_Ok p : exists h, computeBindingHash p = Ok h.
Proof. unfold computeBindingHash. rewrite JCS_Ok. cbn. eauto. Qed.

(** C24. Every entry of a pack can be proved to an auditor: for a sealed manifest with distinct paths and any of its
    entries, [BuildInclusionProof] returns a proof of that very entry that carries the manifest's hash, policy hash and
    entry count, and [VerifyInclusionProofAgainstRoot] accepts it against the pack's root.  The unanchored
    [VerifyInclusionProof] accepts it too, except for a pack of one entry, which it refuses. *)
Theorem pack_proof_complete m e d :
  distinct_paths (mf_Entries m) -> e ∈ mf_Entries m -> mf_ManifestHash m <> "" ->
  exists root p, ComputeEntriesMerkleRoot (mf_Entries m) = Ok root /\
    BuildInclusionProof (Some m) (me_Path e) d = Ok p /\
    pf_Entry p = e /\ pb_ManifestHash (pf_Binding p) = mf_ManifestHash m /\
    pb_PolicyHash (pf_Binding p) = mf_PolicyHash m /\
    pb_EntryCount (pf_Binding p) = Z.of_nat (length (mf_Entries m)) /\
    VerifyInclusionProofAgainstRoot (Some p) root = Ok tt /\
    VerifyInclusionProof (Some p) = if Nat.eqb (length (mf_Entries m)) 1 then Fail err_empty_path else Ok tt.
Proof.
  intros Hd Hin Hh. destruct (inclusion_path_spec _ e Hd Hin) as (steps & root & Ep & Er & Ev & Eb & En).
  exists root. unfold BuildInclusionProof.
  rewrite (proj2 (String.eqb_neq _ _) Hh), Er. cbn [mbind res_bind]. rewrite find_entry, Ep by done.
  cbn [mbind res_bind]. rewrite String.eqb_refl, LeafHash_spec. cbn [negb mbind res_bind].
  match goal with |- context [computeBindingHash ?q] => destruct (computeBindingHash_Ok q) as [h Eh] end.
  rewrite Eh. cbn [mbind res_bind]. eexists. split; [done|]. split; [reflexivity|].
  split; [done|]. split; [done|]. split; [done|]. split; [done|].
  unfold VerifyInclusionProofAgainstRoot, VerifyInclusionProof. rewrite Eb. cbn.
  cbv [computeBindingHash] in Eh |- *. cbn in Eh |- *. rewrite Eh, LeafHash_spec. cbn.
  rewrite !String.eqb_refl, Ev. cbn. rewrite String.eqb_refl. cbn. split; [done|].
  destruct (Nat.eqb_spec (length steps) 0) as [E0|E0], (Nat.eqb_spec (length (mf_Entries m)) 1) as [E1|E1]; try done;
    exfalso; naive_solver.
Qed.

(** What the anchored verifier has checked. *)
Lemma against_root_spec p root :
  VerifyInclusionProofAgainstRoot (Some p) root = Ok tt ->
  blank root = false /\ pb_EntriesMerkleRoot (pf_Binding p) = root /\ pf_Version p = InclusionProofVersion /\
  computeBindingHash p = Ok (pf_BindingHash p) /\
  VerifyInclusionPath (prefixed (leaf_of (pf_Entry p))) (pf_Path p) = Ok root.
Proof.
  unfold VerifyInclusionProofAgainstRoot. destruct (blank root); [done|].
  destruct (String.eqb_spec (pb_EntriesMerkleRoot (pf_Binding p)) root) as [->|]; [|done].
  destruct (String.eqb_spec (pf_Version p) InclusionProofVersion) as [->|]; [|done]. cbn [negb].
  intros (h & Eh & Hv)%res_bind_Ok. destruct (String.eqb_spec (pf_BindingHash p) h) as [<-|]; [|done].
  rewrite LeafHash_spec in Hv. cbn [negb mbind res_bind] in Hv.
  destruct (String.eqb_spec (pf_LeafHash p) (prefixed (leaf_of (pf_Entry p)))) as [El|]; [|done].
  rewrite El in Hv. cbn [negb] in Hv. apply res_bind_Ok in Hv as (r & Er & Hv).
  destruct (String.eqb_spec r root) as [->|]; [|done]. done.
Qed.

Lemma path_member e steps entries root :
  ComputeEntriesMerkleRoot entries = Ok root ->
  VerifyInclusionPath (prefixed (leaf_of e)) steps = Ok root ->
  (exists e', e' ∈ entries /\ repaired e = repaired e') \/ collision.
Proof.
  intros Er Hv. unfold ComputeEntriesMerkleRoot in Er. rewrite sortedLeafDigests_spec in Er.
  cbn [mbind res_bind] in Er. apply res_bind_Ok in Er as (r & Hr%reduceToRoot_Ok & [= <-]).
  unfold VerifyInclusionPath in Hv. rewrite decodeSHA256_prefixed in Hv by apply leaf_sized. cbn [wrap_err mbind res_bind] in Hv.
  apply res_bind_Ok in Hv as (r' & Hv & E%Ok_inj%prefixed_inj). subst r'.
  apply verify_loop_climb in Hv as (sibs & Hs & ->).
  destruct (climb_leaf e (sort_entries entries) _ sibs Hr Hs) as [(e' & Hin & E)|?]; [left|by right].
  exists e'. by rewrite sort_entries_perm in Hin.
Qed.

(** C23. An accepted proof is true: when [VerifyInclusionProofAgainstRoot] accepts a proof against the root of a list of
    entries, whatever the proof document says, the entry it shows is one of them (as UTF-8: ill-formed text is compared
    after repair), or SHA-256 collides. *)
Theorem pack_proof_sound p entries root :
  ComputeEntriesMerkleRoot entries = Ok root -> VerifyInclusionProofAgainstRoot (Some p) root = Ok tt ->
  (exists e, e ∈ entries /\ repaired (pf_Entry p) = repaired e) \/ collision.
Proof. intros Er (_ & _ & _ & _ & Hv)%against_root_spec. by eapply path_member. Qed.

Lemma Forall_or {A} (P : A -> Prop) (C : Prop) l : (forall x, x ∈ l -> P x \/ C) -> Forall P l \/ C.
Proof.
  induction l as [|x l IH]; intros Hl; [left; constructor|].
  destruct (Hl x) as [Hx|?]; [set_solver| |by right].
  destruct IH as [?|?]; [intros; apply Hl; set_solver| |by right]. left. by constructor.
Qed.

Lemma root_includes a b root :
  distinct_paths a -> ComputeEntriesMerkleRoot a = Ok root -> ComputeEntriesMerkleRoot b = Ok root ->
  Forall (fun e => repaired e ∈ map repaired b) a \/ collision.
Proof.
  intros Hd Ea Eb. apply Forall_or. intros e He.
  destruct (inclusion_path_spec a e Hd He) as (steps & root' & _ & Er & Ev & _).
  assert (root' = root) as -> by congruence.
  destruct (path_member e steps b root Eb Ev) as [(e' & Hin & ->)|?]; [left|by right].
  apply list_elem_of_fmap. eauto.
Qed.

Lemma repaired_distinct l : distinct_paths (map repaired l) -> distinct_paths l /\ NoDup (map repaired l).
Proof.
  unfold distinct_paths. intros Hd. split.
  - rewrite map_map in Hd. apply (NoDup_fmap_1 sanitize_string). change (map me_Path l) with (me_Path <$> l).
    rewrite <-list_fmap_compose. exact Hd.
  - by apply (NoDup_fmap_1 me_Path).
Qed.

(** C25. The root names the pack: two lists of entries with distinct paths and the same root have the same entries (as
    UTF-8), up to order, or SHA-256 collides; and reordering the entries keeps the root. *)
Theorem pack_root_binds_entries a b :
  distinct_paths (map repaired a) -> distinct_paths (map repaired b) -> a <> [] ->
  (ComputeEntriesMerkleRoot a = ComputeEntriesMerkleRoot b -> map repaired a ≡ₚ map repaired b \/ collision) /\
  (a ≡ₚ b -> ComputeEntriesMerkleRoot a = ComputeEntriesMerkleRoot b).
Proof.
  intros [Da Na]%repaired_distinct [Db Nb]%repaired_distinct Hne. split.
  - destruct (merkle_root_spec a Hne) as (r & _ & Ea). intros Eb. rewrite Ea in Eb. symmetry in Eb.
    destruct (root_includes a b _ Da Ea Eb) as [Hab|?]; [|by right].
    destruct (root_includes b a _ Db Eb Ea) as [Hba|?]; [|by right].
    left. apply NoDup_Permutation; [done..|]. rewrite Forall_forall in Hab, Hba.
    intros x. split; intros (e & -> & He)%list_elem_of_fmap; eauto.
  - intros E. unfold ComputeEntriesMerkleRoot, sortedLeafDigests. by rewrite (sort_entries_unique a b).
Qed.

(** Without distinct paths it does not: the duplicated last node of an odd level stands for a repeated entry. *)
Lemma root_ignores_repeated_last a b c :
  reduceToRoot [a; b; c] = reduceToRoot [a; b; c; c].
Proof. reflexivity. Qed.
End Tree.

(** * Building a pack *)

Section Built.
Context `{Hash} `{!HashLaws}.

(** [m[k] = v] for each entry visited. *)
Lemma foldl_insert_lookup {V U} (f : V -> U) (order : list (string * V)) (m : gmap string U) p :
  NoDup order.*1 ->
  foldl (fun m kv => <[kv.1 := f kv.2]> m) m order !! p
  = match (list_to_map order : gmap string V) !! p with Some v => Some (f v) | None => m !! p end.
Proof.
  revert m. induction order as [|[k v] order IH]; intros m; cbn; [by rewrite lookup_empty|].
  intros [Hk Hn]%NoDup_cons. rewrite IH by done. destruct (decide (p = k)) as [->|Hne].
  - rewrite (not_elem_of_list_to_map_1 (M := gmap string) _ _ Hk), !lookup_insert_eq. done.
  - by rewrite !lookup_insert_ne.
Qed.

Lemma visited_once {V} (m : gmap string V) order :
  order ≡ₚ map_to_list m -> NoDup order.*1 /\ list_to_map order = m.
Proof.
  intros E. assert (Hn : NoDup order.*1) by (rewrite E; apply NoDup_fst_map_to_list).
  split; [done|]. by rewrite (list_to_map_proper order (map_to_list m)), list_to_map_to_list.
Qed.

Definition entries_of (order : list (string * entryData)) : list ManifestEntry :=
  map (fun kv => entry_of kv.1 (ed_contentType kv.2) (ed_content kv.2)) order.

Lemma entries_of_distinct order : NoDup order.*1 -> distinct_paths (entries_of order).
Proof. unfold distinct_paths, entries_of. rewrite map_map. done. Qed.

Lemma manifest_hash_sorted m m' :
  mf_Version m = mf_Version m' -> mf_PackID m = mf_PackID m' -> mf_CreatedAt m = mf_CreatedAt m' ->
  mf_ActorDID m = mf_ActorDID m' -> mf_IntentID m = mf_IntentID m' -> mf_PolicyHash m = mf_PolicyHash m' ->
  distinct_paths (mf_Entries m) -> mf_Entries m ≡ₚ mf_Entries m' ->
  ComputeManifestHash m = ComputeManifestHash m'.
Proof.
  intros E1 E2 E3 E4 E5 E6 Hd Hp. unfold ComputeManifestHash.
  by rewrite E1, E2, E3, E4, E5, E6, (sort_entries_unique _ _ Hd Hp).
Qed.

Lemma manifest_hash_total m : in_years (mf_CreatedAt m) = true -> exists h, ComputeManifestHash m = Ok h.
Proof.
  intros Ht. unfold ComputeManifestHash. rewrite (fmt_time_format _ Ht). cbn [mbind res_bind]. unfold JCS_res.
  cbn [wrap_err mbind res_bind]. rewrite JCS_Ok. cbn. eauto.
Qed.

(** What [Build] returns. *)
Definition built (b : Builder) (order : list (string * entryData)) (m : Manifest) (c : gmap string bytes) : Prop :=
  mf_Entries m = entries_of order /\ ComputeManifestHash m = Ok (mf_ManifestHash m) /\
  ComputeEntriesMerkleRoot (mf_Entries m) = Ok (mf_EntriesMerkleRoot m) /\
  (mf_Version m, mf_PackID m, mf_CreatedAt m, mf_ActorDID m, mf_IntentID m, mf_PolicyHash m)
  = (ManifestVersion, bu_packID b, bu_createdAt b, bu_actorDID b, bu_intentID b, bu_policyHash b) /\
  (exists j, json_of_manifest m = Ok j /\ c !! "manifest.json" = Some (marshal_indent 0 j)) /\
  forall p, p <> "manifest.json" -> c !! p = ed_content <$> bu_entries b !! p.

Lemma Build_spec b order m c : order ≡ₚ map_to_list (bu_entries b) -> Build order b = Ok (m, c) -> built b order m c.
Proof.
  intros Ho. destruct (visited_once _ _ Ho) as [Hn Hm]. unfold Build. destruct (Nat.eqb _ 0); [done|].
  intros (h & Eh%wrap_err_Ok & (r & Er%wrap_err_Ok & (j & Ej%wrap_err_Ok & [= <- <-])%res_bind_Ok)%res_bind_Ok)%res_bind_Ok.
  split; [done|]. split; [exact Eh|]. split; [exact Er|]. split; [done|]. split.
  - apply res_bind_Ok in Ej as (j' & E & [= <-]). exists j'. by rewrite lookup_insert_eq.
  - intros p Hp. rewrite lookup_insert_ne by done. rewrite foldl_insert_lookup, Hm, lookup_empty by done.
    by destruct (bu_entries b !! p).
Qed.

Lemma Build_total b order :
  order ≡ₚ map_to_list (bu_entries b) -> bu_entries b <> ∅ -> in_years (bu_createdAt b) = true ->
  exists m c, Build order b = Ok (m, c).
Proof.
  intros Ho Hne Ht. unfold Build. rewrite (proj2 (Nat.eqb_neq _ 0)) by (by intros E%map_size_empty_iff).
  match goal with |- context [ComputeManifestHash ?q] => destruct (manifest_hash_total q) as [h ->]; [done|] end.
  cbn [wrap_err mbind res_bind].
  match goal with |- context [ComputeEntriesMerkleRoot ?q] => destruct (merkle_root_spec q) as (r & _ & ->) end.
  { intros E%map_eq_nil. subst. apply Hne, map_to_list_empty_iff. by apply Permutation_nil. }
  cbn [wrap_err mbind res_bind]. unfold json_of_manifest. cbn [mf_CreatedAt]. rewrite (fmt_time_format _ Ht). cbn. eauto.
Qed.

Lemma built_entry b order m c e :
  order ≡ₚ map_to_list (bu_entries b) -> built b order m c ->
  e ∈ mf_Entries m <->
  exists d, bu_entries b !! me_Path e = Some d /\ e = entry_of (me_Path e) (ed_contentType d) (ed_content d).
Proof.
  intros Ho [-> _]. unfold entries_of. split.
  - intros ([k d] & -> & Hin)%list_elem_of_fmap. rewrite Ho, elem_of_map_to_list in Hin. by exists d.
  - intros (d & Hd & ->). apply list_elem_of_fmap. exists (me_Path e, d). cbn. split; [done|].
    by rewrite Ho, elem_of_map_to_list.
Qed.

(** C26. Builds of a pack are exact and agree: with at least one entry and a printable creation time [Build] succeeds,
    the manifest has one entry per file added, with the hash and the size of its last content, the contents returned
    are those files, the recorded hash and root are the manifest's own, and neither they nor the files depend on the
    order in which the map is visited. *)
Theorem build_exact b order order' :
  order ≡ₚ map_to_list (bu_entries b) -> order' ≡ₚ map_to_list (bu_entries b) ->
  bu_entries b <> ∅ -> in_years (bu_createdAt b) = true ->
  exists m c m' c', Build order b = Ok (m, c) /\ Build order' b = Ok (m', c') /\
    distinct_paths (mf_Entries m) /\
    (forall e, e ∈ mf_Entries m <->
      exists d, bu_entries b !! me_Path e = Some d /\ e = entry_of (me_Path e) (ed_contentType d) (ed_content d)) /\
    (forall p, p <> "manifest.json" -> c !! p = ed_content <$> bu_entries b !! p /\ c' !! p = c !! p) /\
    ComputeManifestHash m = Ok (mf_ManifestHash m) /\
    ComputeEntriesMerkleRoot (mf_Entries m) = Ok (mf_EntriesMerkleRoot m) /\
    mf_ManifestHash m' = mf_ManifestHash m /\ mf_EntriesMerkleRoot m' = mf_EntriesMerkleRoot m.
Proof.
  intros Ho Ho' Hne Ht. destruct (Build_total b order Ho Hne Ht) as (m & c & E).
  destruct (Build_total b order' Ho' Hne Ht) as (m' & c' & E'). exists m, c, m', c'.
  pose proof (Build_spec _ _ _ _ Ho E) as B.
  pose proof (Build_spec _ _ _ _ Ho' E') as B'. pose proof (fun e => built_entry b order m c e Ho B) as He.
  destruct B as (En & Eh & Er & [= V1 V2 V3 V4 V5 V6] & _ & Hc), B' as (En' & Eh' & Er' & [= U1 U2 U3 U4 U5 U6] & _ & Hc').
  assert (Hd : distinct_paths (mf_Entries m)) by (rewrite En; by apply entries_of_distinct, (visited_once _ _ Ho)).
  assert (Hp : mf_Entries m ≡ₚ mf_Entries m') by (rewrite En, En'; unfold entries_of; by rewrite Ho, Ho').
  split; [done|]. split; [done|]. split; [done|]. split; [done|]. split; [|split; [done|split; [done|split]]].
  - intros p Hp'. by rewrite Hc, Hc'.
  - rewrite (manifest_hash_sorted m m') in Eh by (done || congruence). congruence.
  - unfold ComputeEntriesMerkleRoot, sortedLeafDigests in Er, Er'.
    rewrite (sort_entries_unique _ _ Hd Hp) in Er. congruence.
Qed.

(** ** Streams *)

(** One call of [AddEntry]: the writer's answer and the arguments. *)
Record add := { ad_answer : tar_io; ad_path : string; ad_data : bytes; ad_type : string }.

Definition add_all (ops : list add) (sb : StreamBuilder) : StreamBuilder :=
  foldl (fun sb op => fst (AddEntry (ad_answer op) (ad_path op) (ad_data op) (ad_type op) sb)) sb ops.

(** A member of the archive and the manifest's record of it. *)
Definition describes (e : ManifestEntry) (member : string * bytes) : Prop :=
  me_Path e = member.1 /\ me_ContentHash e = HashContent member.2 /\ me_Size e = Z.of_nat (length member.2).

Lemma AddEntry_describes op sb :
  Forall2 describes (sb_entries sb) (sb_tar sb) ->
  let sb' := fst (AddEntry (ad_answer op) (ad_path op) (ad_data op) (ad_type op) sb) in
  Forall2 describes (sb_entries sb') (sb_tar sb').
Proof.
  intros Hs. unfold AddEntry. destruct (sb_finalized sb); [done|].
  destruct (ad_answer op); try done; cbn; (apply Forall2_app; [done|by repeat constructor]).
Qed.

Lemma add_all_describes ops sb :
  Forall2 describes (sb_entries sb) (sb_tar sb) ->
  Forall2 describes (sb_entries (add_all ops sb)) (sb_tar (add_all ops sb)).
Proof.
  revert sb. induction ops as [|op ops IH]; intros sb Hs; [done|]. cbn. apply IH. by apply AddEntry_describes.
Qed.

(** A stream that ends well is described by its manifest: whatever calls of [AddEntry] succeeded or failed, when
    [Finalize] succeeds the archive is the entries written, in order, and the manifest; the manifest lists exactly
    those entries by path, hash and size; and the builder accepts nothing more. *)
Theorem stream_manifest_exact pack actor intent policy now ops sb m :
  Finalize TarOk (add_all ops (NewStreamBuilder pack actor intent policy now)) = (sb, Ok m) ->
  exists written listed j,
    sb_tar sb = (written ++ [("manifest.json", marshal_indent 0 j)])%list /\ json_of_manifest m = Ok j /\
    mf_Entries m ≡ₚ listed /\ Forall2 describes listed written /\
    ComputeManifestHash m = Ok (mf_ManifestHash m) /\
    (forall answer path data ct, exists e, AddEntry answer path data ct sb = (sb, Fail e)) /\
    (forall answer, exists e, Finalize answer sb = (sb, Fail e)).
Proof.
  set (sb0 := add_all ops _). assert (Hs : Forall2 describes (sb_entries sb0) (sb_tar sb0)).
  { apply add_all_describes. constructor. }
  unfold Finalize. destruct (sb_finalized sb0); [discriminate|]. cbv beta zeta.
  destruct (ComputeManifestHash _) as [h|] eqn:Eh; cbn [wrap_err]; [|discriminate]. unfold MarshalIndent.
  match goal with |- context [json_of_manifest ?q] => destruct (json_of_manifest q) as [j|] eqn:Ej end;
    cbn [wrap_err mbind res_bind]; [|discriminate].
  intros [= <- <-]. exists (sb_tar sb0), (sb_entries sb0), j. cbn.
  split; [done|]. split; [exact Ej|]. split; [apply sort_entries_perm|]. split; [done|]. split; [exact Eh|].
  split; [intros; unfold AddEntry; cbn; by eauto|by eauto].
Qed.
End Built.

(** * Names of host evidence *)

Definition two_dots (l : bytes) : Prop := exists a b, l = (a ++ "."%char :: "."%char :: b)%list.

Lemma replace_dots_cons a b t :
  replace_dots (a :: b :: t)
  = if Ascii.eqb a "." && Ascii.eqb b "." then "_"%char :: replace_dots t else a :: replace_dots (b :: t).
Proof. done. Qed.

Lemma replace_dots_head l t : replace_dots l = "."%char :: t -> exists u, l = "."%char :: u.
Proof.
  destruct l as [|a [|b l]]; [done|by intros [= -> _]; eauto|]. rewrite replace_dots_cons.
  destruct (Ascii.eqb a "." && Ascii.eqb b "."); [discriminate|]. intros [= -> _]. eauto.
Qed.

Lemma two_dots_cons c l : two_dots (c :: l) -> two_dots l \/ (c = "."%char /\ exists t, l = "."%char :: t).
Proof.
  intros (a & b & E). destruct a as [|x a]; injection E as -> ->; [right; eauto|left]. by exists a, b.
Qed.

Lemma bytes_two_ind (P : bytes -> Prop) :
  P [] -> (forall x, P [x]) -> (forall a b l, P l -> P (b :: l) -> P (a :: b :: l)) -> forall l, P l.
Proof.
  intros Hnil Hone Htwo l. enough (Hl : P l /\ forall x, P (x :: l)) by apply Hl.
  induction l as [|y l [IH1 IH2]]; split; auto.
Qed.

Lemma replace_dots_clean l : ~ two_dots (replace_dots l).
Proof.
  induction l as [|x|a b l IH1 IH2] using bytes_two_ind.
  - intros (a & b & E). by destruct a.
  - intros F. apply two_dots_cons in F as [(a & b & E)|(_ & t & E)]; [by destruct a|done].
  - rewrite replace_dots_cons.
    destruct (Ascii.eqb_spec a "."), (Ascii.eqb_spec b "."); cbn [andb]; intros F;
      apply two_dots_cons in F as [?|[Ea (t & Et)]]; try done;
      apply replace_dots_head in Et as (u & Eu); congruence.
Qed.

Lemma replace_dots_in c l : c ∈ replace_dots l -> c = "_"%char \/ c ∈ l.
Proof.
  induction l as [|x|a b l IH1 IH2] using bytes_two_ind; [auto|auto|].
  rewrite replace_dots_cons. destruct (_ && _); intros [->|Hc]%elem_of_cons; [by left| |set_solver|].
  - destruct (IH1 Hc); [by left|set_solver].
  - destruct (IH2 Hc); [by left|set_solver].
Qed.

Lemma replace_byte_in c d x l : x ∈ replace_byte c d l -> x = d \/ (x ∈ l /\ x <> c).
Proof.
  intros (y & -> & Hy)%list_elem_of_fmap. destruct (Ascii.eqb_spec y c); auto.
Qed.

(** Host evidence cannot leave its directory: a sanitised name has no path separator and no [..]. *)
Theorem safe_evidence_name value :
  let name := to_bytes (safeEvidenceName value) in
  ~ ("/"%char ∈ name) /\ ~ (backslash ∈ name) /\ ~ two_dots name.
Proof.
  unfold safeEvidenceName. rewrite to_of_bytes. split; [|split; [|apply replace_dots_clean]].
  - intros [?|[?|[_ ?]]%replace_byte_in]%replace_dots_in; done.
  - intros [?|[?|[[?|[_ ?]]%replace_byte_in _]]%replace_byte_in]%replace_dots_in; done.
Qed.

(** * Worked examples *)

#[local] Existing Instance pad_hash.
#[local] Existing Instance pad_hash_laws.

Definition sample_builder : Builder :=
  let b := NewBuilder "pack-1" "did:helm:a" "intent-1" "sha256:policy" 0 in
  let b := fst (AddReceipt "r1" (Ok (JObj [("verdict", JStr "DENY")])) b) in
  let b := fst (AddNetworkLog "egress" (to_bytes "GET /") b) in
  fst (AddRawEntry "b.txt" "text/plain" (to_bytes "b") b).

Definition sample_order : list (string * entryData) := map_to_list (bu_entries sample_builder).

Definition sample_manifest : Manifest :=
  match Build sample_order sample_builder with
  | Ok (m, _) => m
  | Fail _ => {| mf_Version := ""; mf_PackID := ""; mf_CreatedAt := 0; mf_ActorDID := ""; mf_IntentID := "";
                 mf_PolicyHash := ""; mf_Entries := []; mf_ManifestHash := ""; mf_EntriesMerkleRoot := "" |}
  end.

Definition sample_entry : ManifestEntry := entry_of "b.txt" "text/plain" (to_bytes "b").

Definition sample_proof : InclusionProof :=
  match BuildInclusionProof (Some sample_manifest) "b.txt" None with
  | Ok p => p
  | Fail _ => {| pf_Version := ""; pf_Binding := {| pb_PackID := ""; pb_ManifestHash := ""; pb_PolicyHash := "";
                   pb_CreatedAt := ""; pb_EntriesMerkleRoot := ""; pb_EntryCount := 0 |};
                 pf_Entry := sample_entry; pf_LeafHash := ""; pf_Path := []; pf_Disclosure := None; pf_BindingHash := "" |}
  end.

Lemma sample_distinct : distinct_paths (mf_Entries sample_manifest).
Proof. apply (bool_decide_unpack _). vm_compute. exact I. Qed.

Lemma sample_member : sample_entry ∈ mf_Entries sample_manifest.
Proof. apply (bool_decide_unpack _). vm_compute. exact I. Qed.

Lemma sample_sealed : mf_ManifestHash sample_manifest <> "".
Proof. apply (bool_decide_unpack _). vm_compute. exact I. Qed.

Lemma sample_root : ComputeEntriesMerkleRoot (mf_Entries sample_manifest) = Ok (mf_EntriesMerkleRoot sample_manifest).
Proof. vm_compute. reflexivity. Qed.

Lemma sample_accepted :
  VerifyInclusionProofAgainstRoot (Some sample_proof) (mf_EntriesMerkleRoot sample_manifest) = Ok tt.
Proof. vm_compute. reflexivity. Qed.

Lemma pack_proof_complete_witness :
  exists root p, BuildInclusionProof (Some sample_manifest) (me_Path sample_entry) None = Ok p /\
    VerifyInclusionProofAgainstRoot (Some p) root = Ok tt.
Proof.
  destruct (pack_proof_complete sample_manifest sample_entry None sample_distinct sample_member sample_sealed)
    as (root & p & _ & E & _ & _ & _ & _ & V & _).
  exists root, p. split; [exact E|exact V].
Defined.

Lemma pack_proof_sound_witness :
  (exists e, e ∈ mf_Entries sample_manifest /\ repaired (pf_Entry sample_proof) = repaired e) \/ collision.
Proof. exact (pack_proof_sound sample_proof _ _ sample_root sample_accepted). Defined.

Definition sample_entries : list ManifestEntry := [entry_of "a" "text/plain" (to_bytes "1"); entry_of "b" "text/plain" (to_bytes "2")].
Definition sample_entries' : list ManifestEntry := [entry_of "b" "text/plain" (to_bytes "2"); entry_of "a" "text/plain" (to_bytes "1")].

Lemma sample_entries_distinct : distinct_paths (map repaired sample_entries) /\ distinct_paths (map repaired sample_entries').
Proof. split; apply (bool_decide_unpack _); vm_compute; exact I. Qed.

Lemma pack_root_binds_entries_witness :
  ComputeEntriesMerkleRoot sample_entries = ComputeEntriesMerkleRoot sample_entries' /\
  (map repaired sample_entries ≡ₚ map repaired sample_entries' \/ collision).
Proof.
  destruct (pack_root_binds_entries sample_entries sample_entries' (proj1 sample_entries_distinct)
    (proj2 sample_entries_distinct)) as [B O]; [discriminate|].
  assert (E : ComputeEntriesMerkleRoot sample_entries = ComputeEntriesMerkleRoot sample_entries')
    by (apply O, Permutation_swap).
  split; [exact E|exact (B E)].
Defined.

Lemma sample_nonempty : bu_entries sample_builder <> ∅.
Proof. apply (bool_decide_unpack _). vm_compute. exact I. Qed.

Lemma sample_visits :
  sample_order ≡ₚ map_to_list (bu_entries sample_builder) /\ rev sample_order ≡ₚ map_to_list (bu_entries sample_builder).
Proof. unfold sample_order. generalize (map_to_list (bu_entries sample_builder)). intros l. by rewrite <-Permutation_rev. Qed.

Lemma sample_year : in_years (bu_createdAt sample_builder) = true.
Proof. vm_compute. reflexivity. Qed.

Lemma build_exact_witness :
  exists m c m' c', Build sample_order sample_builder = Ok (m, c) /\ Build (rev sample_order) sample_builder = Ok (m', c') /\
    mf_ManifestHash m' = mf_ManifestHash m.
Proof.
  destruct (build_exact sample_builder sample_order (rev sample_order) (proj1 sample_visits) (proj2 sample_visits)
    sample_nonempty sample_year) as (m & c & m' & c' & E & E' & _ & _ & _ & _ & _ & Hh & _).
  exists m, c, m', c'. split; [exact E|]. split; [exact E'|exact Hh].
Defined.

(** The file [manifest.json] itself does depend on the order: entries are written in the order visited. *)
Example manifest_json_follows_order :
  match Build sample_order sample_builder, Build (rev sample_order) sample_builder with
  | Ok (_, c), Ok (_, c') => negb (bool_decide (c !! "manifest.json" = c' !! "manifest.json"))
  | _, _ => false
  end = true.
Proof. vm_compute. reflexivity. Qed.

(** A raw entry named [manifest.json] is listed with the hash of content the pack does not contain. *)
Example raw_manifest_is_shadowed :
  let b := fst (AddRawEntry "manifest.json" "text/plain" (to_bytes "mine") sample_builder) in
  match Build (map_to_list (bu_entries b)) b with
  | Ok (m, c) =>
      bool_decide (entry_of "manifest.json" "text/plain" (to_bytes "mine") ∈ mf_Entries m) &&
      match c !! "manifest.json" with
      | Some shipped => negb (String.eqb (HashContent shipped) (HashContent (to_bytes "mine")))
      | None => false
      end
  | Fail _ => false
  end = true.
Proof. vm_compute. reflexivity. Qed.

Lemma stream_manifest_exact_witness :
  exists sb m, Finalize TarOk (add_all [{| ad_answer := TarOk; ad_path := "a"; ad_data := to_bytes "1"; ad_type := "t" |};
      {| ad_answer := HeaderFails "full"; ad_path := "b"; ad_data := to_bytes "2"; ad_type := "t" |}]
      (NewStreamBuilder "p" "a" "i" "h" 0)) = (sb, Ok m) /\
    ComputeManifestHash m = Ok (mf_ManifestHash m).
Proof.
  set (sb0 := add_all _ _). set (r := Finalize TarOk sb0).
  assert (E : exists m, r = (fst r, Ok m)) by (eexists; vm_compute; reflexivity).
  destruct E as [m E]. exists (fst r), m. split; [exact E|].
  destruct (stream_manifest_exact "p" "a" "i" "h" 0 _ (fst r) m E) as (_ & _ & _ & _ & _ & _ & _ & Hh & _). exact Hh.
Defined.
