(* ===== verification/McpFirewall.v ===== *)
(** The MCP execution boundary, [core/pkg/mcp] (quarantine.go, firewall.go and the catalog of catalog.go) with the
    records it seals: [contracts/execution_boundary.go] and [contracts/counterfactual_receipt.go].

    A server is known to the quarantine registry, a tool to the catalog; [AuthorizeToolCall] turns one call into a
    sealed boundary record, [ShouldDispatch] reads that record, and under an observe grant
    [CounterfactualReceiptFor] mints a receipt of the verdict that would have been enforced.

    The registry is threaded as a state.  The readings of the clock in one call are separate arguments; [wall] is the
    wall clock that replaces a zero time.  Sorting by name is Go's insertion sort; on longer slices the order of tools
    of one name is unspecified. *)
From Stdlib Require Import Ascii.
From stdpp Require Import sorting.
From S2P Require Import Prelude GoLib GoFmt GoTime Utf8 Jcs Contracts.

Local Open Scope string_scope.

(** [sort.Slice] by a string key *)
Section SortKey.
Context {A : Type} (key : A -> string).
Fixpoint insert_key (x : A) (l : list A) : list A :=
  match l with
  | [] => [x]
  | y :: l' => if string_lt (key y) (key x) then y :: insert_key x l' else x :: l
  end.
Definition sort_key (l : list A) : list A := foldr insert_key [] l.
End SortKey.

Definition sortedCopy (values : list string) : list string := sort_key (fun s => s) values.

(** * Quarantine (quarantine.go) *)

Definition QuarantineDiscovered := "discovered".
Definition QuarantineQuarantined := "quarantined".
Definition QuarantineApproved := "approved".
Definition QuarantineRevoked := "revoked".
Definition QuarantineExpired := "expired".
Definition ServerRiskUnknown := "unknown".

Record ServerQuarantineRecord := {
  sq_ServerID : string;
  sq_Name : string;
  sq_Transport : string;
  sq_Endpoint : string;
  sq_ToolNames : list string;
  sq_ApprovedToolNames : list string;
  sq_ApprovedEffects : list string;
  sq_Risk : string;
  sq_State : string;
  sq_DiscoveredAt : time;
  sq_ApprovedAt : time;
  sq_ApprovedBy : string;
  sq_ApprovalReceiptID : string;
  sq_ApprovalReceiptPath : string;
  sq_RevokedAt : time;
  sq_RevocationReceiptPath : string;
  sq_ExpiresAt : time;
  sq_Reason : string;
}.

#[export] Instance ServerQuarantineRecord_eta : Eta ServerQuarantineRecord := fun r => {|
  sq_ServerID := sq_ServerID r; sq_Name := sq_Name r; sq_Transport := sq_Transport r; sq_Endpoint := sq_Endpoint r;
  sq_ToolNames := sq_ToolNames r; sq_ApprovedToolNames := sq_ApprovedToolNames r; sq_ApprovedEffects := sq_ApprovedEffects r;
  sq_Risk := sq_Risk r; sq_State := sq_State r; sq_DiscoveredAt := sq_DiscoveredAt r; sq_ApprovedAt := sq_ApprovedAt r;
  sq_ApprovedBy := sq_ApprovedBy r; sq_ApprovalReceiptID := sq_ApprovalReceiptID r;
  sq_ApprovalReceiptPath := sq_ApprovalReceiptPath r; sq_RevokedAt := sq_RevokedAt r;
  sq_RevocationReceiptPath := sq_RevocationReceiptPath r; sq_ExpiresAt := sq_ExpiresAt r; sq_Reason := sq_Reason r |}.

Record DiscoverServerRequest := {
  ds_ServerID : string;
  ds_Name : string;
  ds_Transport : string;
  ds_Endpoint : string;
  ds_ToolNames : list string;
  ds_Risk : string;
  ds_DiscoveredAt : time;
  ds_ExpiresAt : time;
  ds_Reason : string;
}.

Record ApprovalDecision := {
  ap_ServerID : string;
  ap_ApproverID : string;
  ap_ApprovalReceiptID : string;
  ap_ApprovedAt : time;
  ap_ExpiresAt : time;
  ap_Reason : string;
  ap_ToolNames : list string;
  ap_Effects : list string;
}.

Definition ErrApprovalVerificationUnavailable : error := "MCP approval verification unavailable".

Abbreviation QuarantineRegistry := (gmap string ServerQuarantineRecord).

Definition NewQuarantineRegistry : QuarantineRegistry := ∅.

(** [if t.IsZero() { t = time.Now() }] *)
Definition or_now (t wall : time) : time := if is_zero t then wall else t.

Definition Discover (wall : time) (req : DiscoverServerRequest) : M QuarantineRegistry ServerQuarantineRecord := fun r =>
  if String.eqb (ds_ServerID req) "" then (r, Fail "server id is required")
  else
    let now := or_now (ds_DiscoveredAt req) wall in
    let risk := if String.eqb (ds_Risk req) "" then ServerRiskUnknown else ds_Risk req in
    let tools := sortedCopy (ds_ToolNames req) in
    match r !! ds_ServerID req with
    | Some existing =>
        if String.eqb (sq_State existing) QuarantineApproved then (r, Ok existing)
        else
          let existing := existing <| sq_ToolNames := tools |> <| sq_Risk := risk |> <| sq_Reason := ds_Reason req |>
                                   <| sq_State := QuarantineQuarantined |> in
          (<[ds_ServerID req := existing]> r, Ok existing)
    | None =>
        let record := {|
          sq_ServerID := ds_ServerID req; sq_Name := ds_Name req; sq_Transport := ds_Transport req;
          sq_Endpoint := ds_Endpoint req; sq_ToolNames := tools; sq_ApprovedToolNames := []; sq_ApprovedEffects := [];
          sq_Risk := risk; sq_State := QuarantineQuarantined; sq_DiscoveredAt := now; sq_ApprovedAt := zero_time;
          sq_ApprovedBy := ""; sq_ApprovalReceiptID := ""; sq_ApprovalReceiptPath := ""; sq_RevokedAt := zero_time;
          sq_RevocationReceiptPath := ""; sq_ExpiresAt := ds_ExpiresAt req; sq_Reason := ds_Reason req |} in
        (<[ds_ServerID req := record]> r, Ok record)
    end.

Definition Approve (_ : ApprovalDecision) : M QuarantineRegistry ServerQuarantineRecord :=
  fail ErrApprovalVerificationUnavailable.

Definition FailClosedUnverifiedApproval (record : ServerQuarantineRecord) : ServerQuarantineRecord :=
  if negb (String.eqb (sq_State record) QuarantineApproved) then record
  else record <| sq_State := QuarantineQuarantined |> <| sq_ApprovedToolNames := [] |> <| sq_ApprovedEffects := [] |>
              <| sq_ApprovedAt := zero_time |> <| sq_ApprovedBy := "" |> <| sq_ApprovalReceiptID := "" |>
              <| sq_ApprovalReceiptPath := "" |> <| sq_ExpiresAt := zero_time |>
              <| sq_Reason := ErrApprovalVerificationUnavailable |>.

Definition Revoke (wall : time) (serverID reason : string) (at_ : time) : M QuarantineRegistry ServerQuarantineRecord := fun r =>
  if String.eqb serverID "" then (r, Fail "server id is required")
  else
    match r !! serverID with
    | None => (r, Fail ("server " +:+ goq serverID +:+ " is not discovered"))
    | Some record =>
        let record := record <| sq_State := QuarantineRevoked |> <| sq_RevokedAt := or_now at_ wall |>
                             <| sq_Reason := reason |> in
        (<[serverID := record]> r, Ok record)
    end.

Definition Get (serverID : string) (r : QuarantineRegistry) : option ServerQuarantineRecord := r !! serverID.

Definition List_ (r : QuarantineRegistry) : list ServerQuarantineRecord := sort_key sq_ServerID (map_to_list r).*2.

Definition scopeAllows (allowed : list string) (value : string) : bool := existsb (fun item => String.eqb item value) allowed.

Definition past_expiry (record : ServerQuarantineRecord) (now : time) : bool :=
  negb (is_zero (sq_ExpiresAt record)) && after now (sq_ExpiresAt record).

Definition RequireApprovedTool (wall : time) (serverID toolName effect : string) (now : time)
    : M QuarantineRegistry unit := fun r =>
  let now := or_now now wall in
  match r !! serverID with
  | None => (r, Fail ("server " +:+ goq serverID +:+ " is not discovered"))
  | Some record =>
      if past_expiry record now then
        (<[serverID := record <| sq_State := QuarantineExpired |> <| sq_Reason := "approval expired" |>]> r,
         Fail ("server " +:+ goq serverID +:+ " approval expired"))
      else if negb (String.eqb (sq_State record) QuarantineApproved)
      then (r, Fail ("server " +:+ goq serverID +:+ " is " +:+ sq_State record))
      else if negb (String.eqb toolName "") && negb (scopeAllows (sq_ApprovedToolNames record) toolName)
      then (r, Fail ("server " +:+ goq serverID +:+ " approval does not include tool " +:+ goq toolName))
      else if negb (String.eqb effect "") && negb (scopeAllows (sq_ApprovedEffects record) effect)
      then (r, Fail ("server " +:+ goq serverID +:+ " approval does not include effect " +:+ goq effect))
      else (r, Ok tt)
  end.

Definition RequireApproved (wall : time) (serverID : string) (now : time) : M QuarantineRegistry unit :=
  RequireApprovedTool wall serverID "" "" now.

(** * The catalog (catalog.go) *)

Record ToolAnnotations := {
  ta_ReadOnlyHint : bool;
  ta_DestructiveHint : bool;
  ta_IdempotentHint : bool;
  ta_OpenWorldHint : bool;
}.

Record ToolRef := {
  tr_Name : string;
  tr_Title : string;
  tr_Description : string;
  tr_ServerID : string;
  tr_Schema : any;
  tr_OutputSchema : any;
  tr_Annotations : option ToolAnnotations;
  tr_EffectClass : string;
  tr_RiskTier : string;
  tr_RequiredScopes : list string;
  tr_EgressDestinationRequired : bool;
  tr_EgressDestination : string;
}.

Abbreviation ToolCatalog := (gmap string ToolRef).

Definition NewToolCatalog : ToolCatalog := ∅.

Definition ToolRef_Validate (r : ToolRef) : res unit :=
  if String.eqb (tr_Name r) "" then Fail "tool ref name is required" else Ok tt.

Definition Register (ref : ToolRef) : M ToolCatalog unit :=
  _ ← lift (wrap_err "invalid tool ref: " (ToolRef_Validate ref));
  modify (fun c => <[tr_Name ref := ref]> c).

Definition Lookup (name : string) (c : ToolCatalog) : option ToolRef := c !! name.

(** The results of [Search], in the order the map is visited. *)
Definition Search (query : string) (visited : list ToolRef) : list ToolRef :=
  let query := to_lower query in
  List.filter (fun tool => contains (to_lower (tr_Name tool)) query || contains (to_lower (tr_Description tool)) query) visited.

(** * Boundary records (execution_boundary.go) *)

Definition EnforcementModeShadow := "shadow".

Record ExecutionBoundaryRecord := {
  br_RecordID : string;
  br_Verdict : string;
  br_ReasonCode : string;
  br_ToolName : string;
  br_ToolEffect : string;
  br_ArgsHash : string;
  br_PolicyEpoch : string;
  br_MCPServerID : string;
  br_OAuthResource : string;
  br_OAuthScopes : list string;
  br_SandboxGrantHash : string;
  br_AuthzSnapshotHash : string;
  br_ReceiptID : string;
  br_DecisionReceiptPath : string;
  br_ApprovalCommand : string;
  br_ApprovalReceiptID : string;
  br_DirectDispatchSeen : bool;
  br_EnforcementMode : string;
  br_ObserveGrantID : string;
  br_CreatedAt : time;
  br_RecordHash : string;
}.

#[export] Instance ExecutionBoundaryRecord_eta : Eta ExecutionBoundaryRecord := fun r => {|
  br_RecordID := br_RecordID r; br_Verdict := br_Verdict r; br_ReasonCode := br_ReasonCode r; br_ToolName := br_ToolName r;
  br_ToolEffect := br_ToolEffect r; br_ArgsHash := br_ArgsHash r; br_PolicyEpoch := br_PolicyEpoch r;
  br_MCPServerID := br_MCPServerID r; br_OAuthResource := br_OAuthResource r; br_OAuthScopes := br_OAuthScopes r;
  br_SandboxGrantHash := br_SandboxGrantHash r; br_AuthzSnapshotHash := br_AuthzSnapshotHash r;
  br_ReceiptID := br_ReceiptID r; br_DecisionReceiptPath := br_DecisionReceiptPath r;
  br_ApprovalCommand := br_ApprovalCommand r; br_ApprovalReceiptID := br_ApprovalReceiptID r;
  br_DirectDispatchSeen := br_DirectDispatchSeen r; br_EnforcementMode := br_EnforcementMode r;
  br_ObserveGrantID := br_ObserveGrantID r; br_CreatedAt := br_CreatedAt r; br_RecordHash := br_RecordHash r |}.

Definition opt_strings (k : string) (l : list string) : list (string * json) :=
  opt_field (bool_decide (l = [])) k (JArr (map JStr l)).

Definition json_of_boundary_record (r : ExecutionBoundaryRecord) : res json :=
  created ← fmt_time (br_CreatedAt r);
  Ok (JObj ([("record_id", JStr (br_RecordID r)); ("verdict", JStr (br_Verdict r))]
    ++ opt_string "reason_code" (br_ReasonCode r) ++ opt_string "tool_name" (br_ToolName r)
    ++ opt_string "tool_effect" (br_ToolEffect r) ++ opt_string "args_hash" (br_ArgsHash r)
    ++ [("policy_epoch", JStr (br_PolicyEpoch r))]
    ++ opt_string "mcp_server_id" (br_MCPServerID r) ++ opt_string "oauth_resource" (br_OAuthResource r)
    ++ opt_strings "oauth_scopes" (br_OAuthScopes r) ++ opt_string "sandbox_grant_hash" (br_SandboxGrantHash r)
    ++ opt_string "authz_snapshot_hash" (br_AuthzSnapshotHash r) ++ opt_string "receipt_id" (br_ReceiptID r)
    ++ opt_string "decision_receipt_path" (br_DecisionReceiptPath r)
    ++ opt_string "approval_command" (br_ApprovalCommand r) ++ opt_string "approval_receipt_id" (br_ApprovalReceiptID r)
    ++ opt_field (negb (br_DirectDispatchSeen r)) "direct_dispatch_seen" (JBool true)
    ++ opt_string "enforcement_mode" (br_EnforcementMode r) ++ opt_string "observe_grant_id" (br_ObserveGrantID r)
    ++ [("created_at", JStr created)] ++ opt_string "record_hash" (br_RecordHash r))%list).

Definition record_Validate (r : ExecutionBoundaryRecord) : res unit :=
  if String.eqb (br_RecordID r) "" then Fail "execution boundary record id is required"
  else if negb (IsCanonicalVerdict (br_Verdict r)) then Fail ("invalid verdict " +:+ goq (br_Verdict r))
  else if String.eqb (br_PolicyEpoch r) "" then Fail "policy epoch is required"
  else if is_zero (br_CreatedAt r) then Fail "created_at is required"
  else if negb (String.eqb (br_Verdict r) VerdictAllow) && String.eqb (br_ReasonCode r) ""
  then Fail "deny or escalate boundary records require a reason code"
  else if negb (String.eqb (br_ReasonCode r) "") && negb (IsCanonicalReasonCode (br_ReasonCode r))
  then Fail ("invalid reason code " +:+ goq (br_ReasonCode r))
  else if negb (String.eqb (br_EnforcementMode r) "") && negb (String.eqb (br_EnforcementMode r) EnforcementModeShadow)
  then Fail ("invalid enforcement mode " +:+ goq (br_EnforcementMode r))
  else if String.eqb (br_EnforcementMode r) EnforcementModeShadow && String.eqb (br_ObserveGrantID r) ""
  then Fail "shadow enforcement mode requires an observe grant id"
  else if negb (String.eqb (br_ObserveGrantID r) "") && negb (String.eqb (br_EnforcementMode r) EnforcementModeShadow)
  then Fail "observe grant id requires shadow enforcement mode"
  else Ok tt.

(** * Counterfactual receipts (counterfactual_receipt.go) *)

Definition EnforcementEnforced := "enforced".
Definition EnforcementCounterfactual := "counterfactual".
Definition IsCanonicalEnforcement (e : string) : bool :=
  String.eqb e EnforcementEnforced || String.eqb e EnforcementCounterfactual.

Record CounterfactualReceipt := {
  cr_ReceiptID : string;
  cr_Enforcement : string;
  cr_WouldHaveVerdict : string;
  cr_ReasonCode : string;
  cr_ObserveGrantID : string;
  cr_BoundaryRecordID : string;
  cr_BoundaryRecordHash : string;
  cr_PolicyEpoch : string;
  cr_ToolName : string;
  cr_MCPServerID : string;
  cr_ArgsHash : string;
  cr_CreatedAt : time;
  cr_SignerKeyID : string;
  cr_Signature : string;
  cr_ReceiptHash : string;
}.

#[export] Instance CounterfactualReceipt_eta : Eta CounterfactualReceipt := fun r => {|
  cr_ReceiptID := cr_ReceiptID r; cr_Enforcement := cr_Enforcement r; cr_WouldHaveVerdict := cr_WouldHaveVerdict r;
  cr_ReasonCode := cr_ReasonCode r; cr_ObserveGrantID := cr_ObserveGrantID r; cr_BoundaryRecordID := cr_BoundaryRecordID r;
  cr_BoundaryRecordHash := cr_BoundaryRecordHash r; cr_PolicyEpoch := cr_PolicyEpoch r; cr_ToolName := cr_ToolName r;
  cr_MCPServerID := cr_MCPServerID r; cr_ArgsHash := cr_ArgsHash r; cr_CreatedAt := cr_CreatedAt r;
  cr_SignerKeyID := cr_SignerKeyID r; cr_Signature := cr_Signature r; cr_ReceiptHash := cr_ReceiptHash r |}.

Definition json_of_counterfactual (r : CounterfactualReceipt) : res json :=
  created ← fmt_time (cr_CreatedAt r);
  Ok (JObj ([("receipt_id", JStr (cr_ReceiptID r)); ("enforcement", JStr (cr_Enforcement r));
             ("would_have_verdict", JStr (cr_WouldHaveVerdict r))]
    ++ opt_string "reason_code" (cr_ReasonCode r)
    ++ [("observe_grant_id", JStr (cr_ObserveGrantID r)); ("boundary_record_id", JStr (cr_BoundaryRecordID r));
        ("boundary_record_hash", JStr (cr_BoundaryRecordHash r)); ("policy_epoch", JStr (cr_PolicyEpoch r))]
    ++ opt_string "tool_name" (cr_ToolName r) ++ opt_string "mcp_server_id" (cr_MCPServerID r)
    ++ opt_string "args_hash" (cr_ArgsHash r) ++ [("created_at", JStr created)]
    ++ opt_string "signer_key_id" (cr_SignerKeyID r) ++ opt_string "signature" (cr_Signature r)
    ++ opt_string "receipt_hash" (cr_ReceiptHash r))%list).

Definition receipt_Validate (r : CounterfactualReceipt) : res unit :=
  if String.eqb (cr_ReceiptID r) "" then Fail "counterfactual receipt id is required"
  else if negb (String.eqb (cr_Enforcement r) EnforcementCounterfactual)
  then Fail ("counterfactual receipt enforcement must be " +:+ goq EnforcementCounterfactual +:+ ", got "
             +:+ goq (cr_Enforcement r) +:+ " (false execution authority is forbidden)")
  else if negb (IsCanonicalVerdict (cr_WouldHaveVerdict r))
  then Fail ("invalid would-have verdict " +:+ goq (cr_WouldHaveVerdict r))
  else if negb (String.eqb (cr_WouldHaveVerdict r) VerdictAllow) && String.eqb (cr_ReasonCode r) ""
  then Fail "counterfactual DENY/ESCALATE receipts require a reason code"
  else if negb (String.eqb (cr_ReasonCode r) "") && negb (IsCanonicalReasonCode (cr_ReasonCode r))
  then Fail ("invalid reason code " +:+ goq (cr_ReasonCode r))
  else if String.eqb (cr_ObserveGrantID r) ""
  then Fail "counterfactual receipt requires an observe grant id (no grant, no observe mode)"
  else if String.eqb (cr_BoundaryRecordID r) "" || String.eqb (cr_BoundaryRecordHash r) ""
  then Fail "counterfactual receipt must bind a sealed boundary record id and hash"
  else if String.eqb (cr_PolicyEpoch r) "" then Fail "policy epoch is required"
  else if is_zero (cr_CreatedAt r) then Fail "created_at is required"
  else Ok tt.

(** * The firewall (firewall.go) *)

Record ObserveGrant := { og_GrantID : string; og_Reason : string; og_ExpiresAt : time }.

Definition Active (g : option ObserveGrant) (now : time) : bool :=
  match g with
  | None => false
  | Some g => negb (String.eqb (og_GrantID g) "") && negb (is_zero (og_ExpiresAt g)) && before now (og_ExpiresAt g)
  end.

(** The registry is the state the operations thread. *)
Record ExecutionFirewall := {
  ef_Catalog : ToolCatalog;
  ef_PolicyEpoch : string;
  ef_RequirePinnedSchema : bool;
  ef_Observe : option ObserveGrant;
}.

Definition NewExecutionFirewall (catalog : option ToolCatalog) (quarantine : option QuarantineRegistry) (policyEpoch : string)
    : ExecutionFirewall * QuarantineRegistry :=
  ({| ef_Catalog := default NewToolCatalog catalog; ef_PolicyEpoch := policyEpoch; ef_RequirePinnedSchema := false;
      ef_Observe := None |}, default NewQuarantineRegistry quarantine).

Record ToolCallAuthorization := {
  tc_ServerID : string;
  tc_ToolName : string;
  tc_Effect : string;
  tc_ArgsHash : string;
  tc_GrantedScopes : list string;
  tc_PinnedSchemaHash : string;
  tc_OAuthResource : string;
  tc_ReceiptID : string;
}.

Definition hasAllScopes (granted required : list string) : bool :=
  if bool_decide (required = []) then true
  else let seen := set_of_list granted in forallb (set_mem seen) required.

Definition FilterVisibleTools (wall now : time) (serverID : string) (tools : list ToolRef) (grantedScopes : list string)
    : M QuarantineRegistry (list ToolRef) :=
  _ ← RequireApproved wall serverID now;
  mret (sort_key tr_Name (List.filter (fun tool =>
    (String.eqb (tr_ServerID tool) "" || String.eqb (tr_ServerID tool) serverID)
    && hasAllScopes grantedScopes (tr_RequiredScopes tool)) tools)).

(** The readings of the clock in [AuthorizeToolCall], in program order, and the wall clock at its two lookups. *)
Record Readings := {
  at_id : time;
  at_created : time;
  at_observe : time;
  at_now : time;
  wall_first : time;
  wall_second : time;
}.

Section Firewall.
Context `{Hash}.

Definition record_Seal (r : ExecutionBoundaryRecord) : res ExecutionBoundaryRecord :=
  _ ← record_Validate r;
  let r := r <| br_RecordHash := "" |> in
  hash ← hashJCS (json_of_boundary_record r);
  Ok (r <| br_RecordHash := hash |>).

Definition receipt_Seal (r : CounterfactualReceipt) : res CounterfactualReceipt :=
  _ ← receipt_Validate r;
  let r := r <| cr_Signature := "" |> <| cr_SignerKeyID := "" |> <| cr_ReceiptHash := "" |> in
  hash ← hashJCS (json_of_counterfactual r);
  Ok (r <| cr_ReceiptHash := hash |>).

Definition SigningPayload (r : CounterfactualReceipt) : string := EnforcementCounterfactual +:+ ":" +:+ cr_ReceiptHash r.

Definition ToolSchemaHash (tool : ToolRef) : res string :=
  hashJCS (
    schema ← json_of_any (tr_Schema tool);
    output ← json_of_any (tr_OutputSchema tool);
    Ok (JObj ([("name", JStr (tr_Name tool))]
      ++ opt_field (match tr_Schema tool with ANil => true | _ => false end) "schema" schema
      ++ opt_field (match tr_OutputSchema tool with ANil => true | _ => false end) "output_schema" output)%list)).

(** The record before the verdict, with the label of an active observe grant. *)
Definition open_record (f : ExecutionFirewall) (t : Readings) (req : ToolCallAuthorization) : ExecutionBoundaryRecord :=
  let effect := if String.eqb (tc_Effect req) "" then "read" else tc_Effect req in
  let shadow := Active (ef_Observe f) (at_observe t) in {|
  br_RecordID := "mcp-boundary-" +:+ dec (wrap64 (at_id t)); br_Verdict := ""; br_ReasonCode := "";
  br_ToolName := tc_ToolName req; br_ToolEffect := effect; br_ArgsHash := tc_ArgsHash req;
  br_PolicyEpoch := ef_PolicyEpoch f; br_MCPServerID := tc_ServerID req; br_OAuthResource := tc_OAuthResource req;
  br_OAuthScopes := sortedCopy (tc_GrantedScopes req); br_SandboxGrantHash := ""; br_AuthzSnapshotHash := "";
  br_ReceiptID := tc_ReceiptID req; br_DecisionReceiptPath := ""; br_ApprovalCommand := ""; br_ApprovalReceiptID := "";
  br_DirectDispatchSeen := false; br_EnforcementMode := if shadow then EnforcementModeShadow else "";
  br_ObserveGrantID := if shadow then match ef_Observe f with Some g => og_GrantID g | None => "" end else "";
  br_CreatedAt := at_created t; br_RecordHash := "" |}.

Definition conclude (record : ExecutionBoundaryRecord) (verdict reason : string) : res ExecutionBoundaryRecord :=
  record_Seal (record <| br_Verdict := verdict |> <| br_ReasonCode := reason |>).

(** The verdict on a server that is not approved. *)
Definition unapproved_verdict (existing : option ServerQuarantineRecord) (now : time) : string * string :=
  match existing with
  | Some e =>
      if String.eqb (sq_State e) QuarantineRevoked || String.eqb (sq_State e) QuarantineExpired || past_expiry e now
      then (VerdictDeny : string, ReasonApprovalTimeout : string)
      else (VerdictEscalate : string, ReasonApprovalRequired : string)
  | None => (VerdictEscalate : string, ReasonApprovalRequired : string)
  end.

(** The checks on the tool once the server's approval covers it. *)
Definition tool_verdict (f : ExecutionFirewall) (req : ToolCallAuthorization) : string * string :=
  match Lookup (tc_ToolName req) (ef_Catalog f) with
  | None => (VerdictEscalate : string, ReasonSchemaViolation : string)
  | Some tool =>
      if negb (String.eqb (tr_ServerID tool) "") && negb (String.eqb (tr_ServerID tool) (tc_ServerID req))
      then (VerdictEscalate : string, ReasonSchemaViolation : string)
      else if negb (hasAllScopes (tc_GrantedScopes req) (tr_RequiredScopes tool))
      then (VerdictDeny : string, ReasonInsufficientPrivilege : string)
      else
        match ToolSchemaHash tool with
        | Fail _ => (VerdictDeny : string, ReasonSchemaViolation : string)
        | Ok hash =>
            if ef_RequirePinnedSchema f && String.eqb (tc_PinnedSchemaHash req) ""
            then (VerdictEscalate : string, ReasonSchemaViolation : string)
            else if negb (String.eqb (tc_PinnedSchemaHash req) "") && negb (String.eqb (tc_PinnedSchemaHash req) hash)
            then (VerdictDeny : string, ReasonSchemaViolation : string)
            else (VerdictAllow : string, "")
        end
  end.

Definition AuthorizeToolCall (f : ExecutionFirewall) (t : Readings) (req : ToolCallAuthorization)
    : M QuarantineRegistry ExecutionBoundaryRecord := fun r =>
  let record := open_record f t req in
  match RequireApproved (wall_first t) (tc_ServerID req) (at_now t) r with
  | (r, Fail _) =>
      let '(verdict, reason) := unapproved_verdict (Get (tc_ServerID req) r) (at_now t) in
      (r, conclude record verdict reason)
  | (r, Ok _) =>
      match RequireApprovedTool (wall_second t) (tc_ServerID req) (tc_ToolName req) (br_ToolEffect record) (at_now t) r with
      | (r, Fail _) => (r, conclude record VerdictDeny ReasonApprovalRequired)
      | (r, Ok _) => let '(verdict, reason) := tool_verdict f req in (r, conclude record verdict reason)
      end
  end.

Definition CounterfactualReceiptFor (record : ExecutionBoundaryRecord) : res CounterfactualReceipt :=
  if String.eqb (br_RecordHash record) ""
  then Fail "boundary record must be sealed before a counterfactual receipt can be minted"
  else if negb (String.eqb (br_EnforcementMode record) EnforcementModeShadow) || String.eqb (br_ObserveGrantID record) ""
  then Fail "counterfactual receipts require a shadow-labeled record with an observe grant id"
  else receipt_Seal {|
    cr_ReceiptID := "cf-receipt-" +:+ br_RecordID record; cr_Enforcement := EnforcementCounterfactual;
    cr_WouldHaveVerdict := br_Verdict record; cr_ReasonCode := br_ReasonCode record;
    cr_ObserveGrantID := br_ObserveGrantID record; cr_BoundaryRecordID := br_RecordID record;
    cr_BoundaryRecordHash := br_RecordHash record; cr_PolicyEpoch := br_PolicyEpoch record;
    cr_ToolName := br_ToolName record; cr_MCPServerID := br_MCPServerID record; cr_ArgsHash := br_ArgsHash record;
    cr_CreatedAt := br_CreatedAt record; cr_SignerKeyID := ""; cr_Signature := ""; cr_ReceiptHash := "" |}.

Definition ShouldDispatch (record : ExecutionBoundaryRecord) : bool :=
  if String.eqb (br_RecordHash record) "" then false
  else if String.eqb (br_Verdict record) VerdictAllow then true
  else String.eqb (br_EnforcementMode record) EnforcementModeShadow && negb (String.eqb (br_ObserveGrantID record) "").
End Firewall.

(** ** The weekly summary *)

Record CounterfactualCountEntry := { cc_Key : string; cc_Deny : Z; cc_Escalate : Z }.

Record CounterfactualSummary := {
  cs_Version : string;
  cs_ObserveGrantID : string;
  cs_TotalEvaluated : Z;
  cs_WouldAllow : Z;
  cs_WouldDeny : Z;
  cs_WouldEscalate : Z;
  cs_ByPolicyEpoch : list CounterfactualCountEntry;
  cs_ByTool : list CounterfactualCountEntry;
  cs_ByMCPServer : list CounterfactualCountEntry;
  cs_ByReasonCode : list CounterfactualCountEntry;
  cs_GeneratedAt : time;
}.

(** A map from keys to (deny, escalate) counts. *)
Abbreviation counts := (gmap string (Z * Z)).

Definition bump (m : counts) (key : string) (escalate : bool) : counts :=
  if String.eqb key "" then m
  else let '(d, e) := default (0, 0)%Z (m !! key) in
       <[key := if escalate then (d, e + 1)%Z else (d + 1, e)%Z]> m.

(** The summary under construction and the four maps. *)
Record Tally := {
  ty_grant : string;
  ty_total : Z;
  ty_allow : Z;
  ty_deny : Z;
  ty_escalate : Z;
  ty_policy : counts;
  ty_tool : counts;
  ty_server : counts;
  ty_reason : counts;
}.

Definition empty_tally : Tally := {|
  ty_grant := ""; ty_total := 0; ty_allow := 0; ty_deny := 0; ty_escalate := 0; ty_policy := ∅; ty_tool := ∅;
  ty_server := ∅; ty_reason := ∅ |}.

Definition tally_receipt (t : Tally) (r : CounterfactualReceipt) : Tally :=
  let grant := if String.eqb (ty_grant t) "" then cr_ObserveGrantID r
               else if negb (String.eqb (ty_grant t) (cr_ObserveGrantID r)) then "mixed" else ty_grant t in
  let total := (ty_total t + 1)%Z in
  let verdict := cr_WouldHaveVerdict r in
  if String.eqb verdict VerdictAllow then {|
    ty_grant := grant; ty_total := total; ty_allow := (ty_allow t + 1)%Z; ty_deny := ty_deny t; ty_escalate := ty_escalate t;
    ty_policy := ty_policy t; ty_tool := ty_tool t; ty_server := ty_server t; ty_reason := ty_reason t |}
  else if String.eqb verdict VerdictDeny || String.eqb verdict VerdictEscalate then
    let esc := String.eqb verdict VerdictEscalate in {|
    ty_grant := grant; ty_total := total; ty_allow := ty_allow t;
    ty_deny := (if esc then ty_deny t else ty_deny t + 1)%Z; ty_escalate := (if esc then ty_escalate t + 1 else ty_escalate t)%Z;
    ty_policy := bump (ty_policy t) (cr_PolicyEpoch r) esc; ty_tool := bump (ty_tool t) (cr_ToolName r) esc;
    ty_server := bump (ty_server t) (cr_MCPServerID r) esc; ty_reason := bump (ty_reason t) (cr_ReasonCode r) esc |}
  else {|
    ty_grant := grant; ty_total := total; ty_allow := ty_allow t; ty_deny := ty_deny t; ty_escalate := ty_escalate t;
    ty_policy := ty_policy t; ty_tool := ty_tool t; ty_server := ty_server t; ty_reason := ty_reason t |}.

Fixpoint tally_all (i : nat) (t : Tally) (receipts : list CounterfactualReceipt) : res Tally :=
  match receipts with
  | [] => Ok t
  | r :: rest =>
      if negb (String.eqb (cr_Enforcement r) EnforcementCounterfactual)
      then Fail ("receipt " +:+ dec (Z.of_nat i) +:+ " is not counterfactual (enforcement=" +:+ goq (cr_Enforcement r)
                 +:+ "); refusing to fold into a would-have summary")
      else tally_all (i + 1) (tally_receipt t r) rest
  end.

Definition sortedEntries (m : counts) : list CounterfactualCountEntry :=
  sort_key cc_Key (map (fun kv => {| cc_Key := kv.1; cc_Deny := kv.2.1; cc_Escalate := kv.2.2 |}) (map_to_list m)).

Definition SummarizeCounterfactuals (receipts : list CounterfactualReceipt) (generatedAt : time) : res CounterfactualSummary :=
  t ← tally_all 0 empty_tally receipts;
  Ok {| cs_Version := "counterfactual-summary/v1"; cs_ObserveGrantID := ty_grant t; cs_TotalEvaluated := ty_total t;
        cs_WouldAllow := ty_allow t; cs_WouldDeny := ty_deny t; cs_WouldEscalate := ty_escalate t;
        cs_ByPolicyEpoch := sortedEntries (ty_policy t); cs_ByTool := sortedEntries (ty_tool t);
        cs_ByMCPServer := sortedEntries (ty_server t); cs_ByReasonCode := sortedEntries (ty_reason t);
        cs_GeneratedAt := generatedAt |}.

(** * The registry never approves *)

(** The states a registry can reach through its operations. *)
Inductive reachable : QuarantineRegistry -> Prop :=
| reach_new : reachable NewQuarantineRegistry
| reach_discover r wall req : reachable r -> reachable (fst (Discover wall req r))
| reach_approve r d : reachable r -> reachable (fst (Approve d r))
| reach_revoke r wall serverID reason at_ : reachable r -> reachable (fst (Revoke wall serverID reason at_ r))
| reach_require r wall serverID toolName effect now :
    reachable r -> reachable (fst (RequireApprovedTool wall serverID toolName effect now r)).

Definition unapproved (r : QuarantineRegistry) : Prop := map_Forall (fun _ q => sq_State q <> QuarantineApproved) r.

Lemma reachable_unapproved r : reachable r -> unapproved r.
Proof.
  induction 1 as [|r wall req _ IH|r d _ IH|r wall sid reason at_ _ IH|r wall sid tool effect now _ IH].
  - apply map_Forall_empty.
  - unfold Discover. destruct (String.eqb _ ""); [done|]. destruct (r !! ds_ServerID req) as [q|] eqn:Eq.
    + destruct (String.eqb (sq_State q) QuarantineApproved); [done|]. by apply map_Forall_insert_2.
    + by apply map_Forall_insert_2.
  - done.
  - unfold Revoke. destruct (String.eqb _ ""); [done|]. destruct (r !! sid); [|done]. by apply map_Forall_insert_2.
  - unfold RequireApprovedTool. destruct (r !! sid) as [q|]; [|done].
    destruct (past_expiry q _); [by apply map_Forall_insert_2|]. by repeat case_match.
Qed.

Lemma require_ok wall sid tool effect now r r' :
  RequireApprovedTool wall sid tool effect now r = (r', Ok tt) ->
  r' = r /\ exists q, r !! sid = Some q /\ sq_State q = QuarantineApproved /\ past_expiry q (or_now now wall) = false /\
    (tool = "" \/ tool ∈ sq_ApprovedToolNames q) /\ (effect = "" \/ effect ∈ sq_ApprovedEffects q).
Proof.
  assert (Hs : forall l v, scopeAllows l v = true -> v ∈ l).
  { intros l v (x & Hx & ->%String.eqb_eq)%existsb_exists. by apply list_elem_of_In. }
  unfold RequireApprovedTool. destruct (r !! sid) as [q|]; [|done].
  destruct (past_expiry q (or_now now wall)) eqn:Ex; [done|].
  destruct (String.eqb_spec (sq_State q) QuarantineApproved) as [Es|]; [|done]. cbn [negb].
  destruct (negb (String.eqb tool "") && negb (scopeAllows (sq_ApprovedToolNames q) tool)) eqn:Et; [done|].
  destruct (negb (String.eqb effect "") && negb (scopeAllows (sq_ApprovedEffects q) effect)) eqn:Ee; [done|].
  intros [= <-]. split; [done|]. exists q. split; [done|]. split; [done|]. split; [done|].
  split; [revert Et|revert Ee]; (destruct (String.eqb_spec tool ""), (String.eqb_spec effect "")); cbn; auto;
    intros E%negb_false_iff; auto.
Qed.

(** * Verdicts *)

Section Verdicts.
Context `{Hash}.

Lemma record_Seal_Ok r r' :
  record_Seal r = Ok r' -> record_Validate r = Ok tt /\ exists h, r' = r <| br_RecordHash := "sha256:" +:+ h |>.
Proof.
  intros ([] & Hv & Hs)%res_bind_Ok. split; [done|]. apply res_bind_Ok in Hs as (h & Hh & [= <-]).
  unfold hashJCS in Hh. apply res_bind_Ok in Hh as (h' & _ & [= <-]). by exists h'.
Qed.

(** What an authorization returns: the opened record with a verdict, sealed. *)
Definition outcome_record (f : ExecutionFirewall) (t : Readings) (req : ToolCallAuthorization) (verdict reason h : string)
    : ExecutionBoundaryRecord :=
  (open_record f t req) <| br_Verdict := verdict |> <| br_ReasonCode := reason |> <| br_RecordHash := "sha256:" +:+ h |>.

Lemma conclude_Ok f t req verdict reason rec :
  conclude (open_record f t req) verdict reason = Ok rec -> exists h, rec = outcome_record f t req verdict reason h.
Proof. intros [_ [h ->]]%record_Seal_Ok. by exists h. Qed.

(** The conditions of an ALLOW. *)
Definition justified (f : ExecutionFirewall) (t : Readings) (req : ToolCallAuthorization) (r : QuarantineRegistry) : Prop :=
  exists q tool hash,
    r !! tc_ServerID req = Some q /\ sq_State q = QuarantineApproved /\
    past_expiry q (or_now (at_now t) (wall_first t)) = false /\
    (tc_ToolName req = "" \/ tc_ToolName req ∈ sq_ApprovedToolNames q) /\
    (if String.eqb (tc_Effect req) "" then "read" else tc_Effect req) ∈ sq_ApprovedEffects q /\
    ef_Catalog f !! tc_ToolName req = Some tool /\ (tr_ServerID tool = "" \/ tr_ServerID tool = tc_ServerID req) /\
    hasAllScopes (tc_GrantedScopes req) (tr_RequiredScopes tool) = true /\
    ToolSchemaHash tool = Ok hash /\ (tc_PinnedSchemaHash req = hash \/ tc_PinnedSchemaHash req = "" /\ ef_RequirePinnedSchema f = false).

Lemma tool_verdict_allow f req reason :
  tool_verdict f req = (VerdictAllow : string, reason) -> exists tool hash,
    ef_Catalog f !! tc_ToolName req = Some tool /\ (tr_ServerID tool = "" \/ tr_ServerID tool = tc_ServerID req) /\
    hasAllScopes (tc_GrantedScopes req) (tr_RequiredScopes tool) = true /\
    ToolSchemaHash tool = Ok hash /\ (tc_PinnedSchemaHash req = hash \/ tc_PinnedSchemaHash req = "" /\ ef_RequirePinnedSchema f = false).
Proof.
  unfold tool_verdict, Lookup. destruct (ef_Catalog f !! tc_ToolName req) as [tool|] eqn:El; [|done].
  destruct (String.eqb_spec (tr_ServerID tool) "") as [E1|N1], (String.eqb_spec (tr_ServerID tool) (tc_ServerID req)) as [E2|N2];
    cbn [negb andb]; try done; destruct (hasAllScopes _ _) eqn:Es; cbn [negb]; try done;
    destruct (ToolSchemaHash tool) as [hash|] eqn:Eh; try done;
    (destruct (ef_RequirePinnedSchema f), (String.eqb_spec (tc_PinnedSchemaHash req) ""); cbn [negb andb]; try done;
      try (destruct (String.eqb_spec (tc_PinnedSchemaHash req) hash); cbn [negb]; try done));
    intros _; exists tool, hash; auto 10.
Qed.

Lemma authorize_cases f t req r r' rec :
  AuthorizeToolCall f t req r = (r', Ok rec) ->
  exists verdict reason h, rec = outcome_record f t req verdict reason h /\
    (verdict = VerdictAllow -> justified f t req r).
Proof.
  unfold AuthorizeToolCall, RequireApproved.
  destruct (RequireApprovedTool (wall_first t) (tc_ServerID req) "" "" (at_now t) r) as [r1 [[]|e]] eqn:E1.
  - apply require_ok in E1 as (-> & q & Hq & Hs & Hx & _).
    destruct (RequireApprovedTool (wall_second t) (tc_ServerID req) (tc_ToolName req) _ (at_now t) r) as [r2 [[]|e]] eqn:E2.
    + apply require_ok in E2 as (-> & q' & Hq' & _ & _ & Ht & He). assert (q' = q) as -> by congruence.
      destruct (tool_verdict f req) as [v rs] eqn:Ev. intros [= <- Hc].
      apply conclude_Ok in Hc as [h ->]. exists v, rs, h. split; [done|]. intros ->.
      apply tool_verdict_allow in Ev as (tool & hash & Hl & Hsv & Hsc & Hh & Hp). exists q, tool, hash.
      destruct He as [He|He]; [exfalso; revert He; cbn; by destruct (String.eqb_spec (tc_Effect req) "")|].
      auto 12.
    + intros [= <- Hc]. apply conclude_Ok in Hc as [h ->]. by eexists _, _, h.
  - destruct (unapproved_verdict _ _) as [v rs] eqn:Ev. intros [= <- Hc].
    apply conclude_Ok in Hc as [h ->]. exists v, rs, h. split; [done|]. intros ->. exfalso.
    revert Ev. unfold unapproved_verdict. by repeat case_match.
Qed.

(** C14. An ALLOW at the MCP boundary is justified, whatever the registry holds: the server's record is approved and
    not past its expiry at the moment of the call, the approval covers the tool and the effect, the catalog has the
    tool for that server, the caller holds every scope it requires, and the pinned schema hash is the tool's (or none
    was given and none is required). *)
Theorem mcp_allow_justified f t req r r' rec :
  AuthorizeToolCall f t req r = (r', Ok rec) -> br_Verdict rec = VerdictAllow -> justified f t req r.
Proof. intros (v & rs & h & -> & Hj)%authorize_cases Hv. by apply Hj. Qed.

Lemma mcp_dispatch_cases f t req verdict reason h :
  ShouldDispatch (outcome_record f t req verdict reason h) = true ->
  verdict = VerdictAllow \/ Active (ef_Observe f) (at_observe t) = true.
Proof.
  unfold ShouldDispatch. cbn. destruct (String.eqb_spec verdict "ALLOW") as [->|]; [by left|].
  destruct (Active (ef_Observe f) (at_observe t)); [by right|done].
Qed.

(** C15. The MCP boundary fails closed: in every state the registry reaches through its operations no server is
    approved, no call is allowed, and a call is dispatched only under an observe grant that has an id and an expiry
    that has not passed; the record then says so. *)
Theorem mcp_fails_closed f t req r r' rec :
  reachable r -> AuthorizeToolCall f t req r = (r', Ok rec) ->
  unapproved r /\ br_Verdict rec <> VerdictAllow /\
  (ShouldDispatch rec = true -> exists g, ef_Observe f = Some g /\ og_GrantID g <> "" /\
     (at_observe t < og_ExpiresAt g)%Z /\ br_EnforcementMode rec = EnforcementModeShadow /\
     br_ObserveGrantID rec = og_GrantID g).
Proof.
  intros Hr%reachable_unapproved Ha. split; [done|].
  assert (Hv : br_Verdict rec <> VerdictAllow).
  { intros Hv. destruct (authorize_cases _ _ _ _ _ _ Ha) as (v & rs & h & -> & Hj).
    destruct (Hj Hv) as (q & _ & _ & Hq & Hs & _). by apply (Hr _ _ Hq). }
  split; [done|]. intros Hd. destruct (authorize_cases _ _ _ _ _ _ Ha) as (v & rs & h & -> & _).
  apply mcp_dispatch_cases in Hd as [->|Hg]; [done|]. cbn [outcome_record]. unfold outcome_record, open_record. cbn.
  rewrite Hg. destruct (ef_Observe f) as [g|]; [|done]. exists g. unfold Active, before in Hg. boolean.
  split; [done|]. split; [first [done|by apply String.eqb_neq]|]. split; [first [done|by apply Z.ltb_lt]|]. done.
Qed.

(** A grant that has expired dispatches nothing that is not allowed. *)
Lemma expired_grant_enforces f t req r r' rec g :
  AuthorizeToolCall f t req r = (r', Ok rec) -> ef_Observe f = Some g -> (og_ExpiresAt g <= at_observe t)%Z ->
  ShouldDispatch rec = true -> br_Verdict rec = VerdictAllow.
Proof.
  intros (v & rs & h & -> & _)%authorize_cases Hg Hx [->|Ha]%mcp_dispatch_cases; [done|].
  exfalso. rewrite Hg in Ha. unfold Active, before in Ha. boolean. lia.
Qed.

(** ** Counterfactual receipts *)

Lemma hashJCS_total (r : res json) j : r = Ok j -> exists h, hashJCS r = Ok ("sha256:" +:+ h).
Proof.
  intros ->. unfold hashJCS, CanonicalHash, JCS_res. cbn [wrap_err mbind res_bind]. rewrite JCS_Ok. cbn [mbind res_bind]. eauto.
Qed.

(** A sealed record is valid and its time can be written. *)
Definition sealed (rec : ExecutionBoundaryRecord) : Prop :=
  record_Validate rec = Ok tt /\ (exists s, fmt_time (br_CreatedAt rec) = Ok s) /\ br_RecordHash rec <> "".

Lemma record_Seal_sealed r r' : record_Seal r = Ok r' -> sealed r'.
Proof.
  intros ([] & Hv & Hs)%res_bind_Ok. apply res_bind_Ok in Hs as (h & Hh & [= <-]).
  unfold hashJCS, CanonicalHash in Hh. apply res_bind_Ok in Hh as (h' & Hc & [= <-]).
  apply res_bind_Ok in Hc as (b & (j & Hj & _)%JCS_res_Ok & _).
  unfold json_of_boundary_record in Hj. apply res_bind_Ok in Hj as (s & Hs & _).
  split; [exact Hv|]. split; [by exists s|done].
Qed.

Lemma authorize_sealed f t req r r' rec : AuthorizeToolCall f t req r = (r', Ok rec) -> sealed rec.
Proof.
  unfold AuthorizeToolCall. destruct (RequireApproved _ _ _ r) as [r1 [u|e]].
  - destruct (RequireApprovedTool _ _ _ _ _ r1) as [r2 [u'|e]].
    + destruct (tool_verdict f req). intros [= _ Hc]. by eapply record_Seal_sealed.
    + intros [= _ Hc]. by eapply record_Seal_sealed.
  - destruct (unapproved_verdict _ _). intros [= _ Hc]. by eapply record_Seal_sealed.
Qed.

Lemma counterfactual_total rec :
  sealed rec -> br_EnforcementMode rec = EnforcementModeShadow ->
  exists c, CounterfactualReceiptFor rec = Ok c /\ cr_Enforcement c = EnforcementCounterfactual /\
    cr_WouldHaveVerdict c = br_Verdict rec /\ cr_ReasonCode c = br_ReasonCode rec /\
    cr_ObserveGrantID c = br_ObserveGrantID rec /\ cr_BoundaryRecordHash c = br_RecordHash rec /\
    cr_BoundaryRecordID c = br_RecordID rec.
Proof.
  intros (Hv & (s & Hs) & Hh) Hm. unfold CounterfactualReceiptFor.
  rewrite (proj2 (String.eqb_neq _ _) Hh), Hm, String.eqb_refl. cbn [negb orb].
  unfold record_Validate in Hv. rewrite Hm in Hv. cbn [negb andb] in Hv.
  destruct (String.eqb (br_RecordID rec) "") eqn:E1; [done|]. destruct (IsCanonicalVerdict (br_Verdict rec)) eqn:E2; [|done].
  destruct (String.eqb (br_PolicyEpoch rec) "") eqn:E3; [done|]. destruct (is_zero (br_CreatedAt rec)) eqn:E4; [done|].
  cbn [negb] in Hv. destruct (negb (String.eqb (br_Verdict rec) VerdictAllow) && String.eqb (br_ReasonCode rec) "") eqn:E5; [done|].
  destruct (negb (String.eqb (br_ReasonCode rec) "") && negb (IsCanonicalReasonCode (br_ReasonCode rec))) eqn:E6; [done|].
  rewrite String.eqb_refl in Hv. cbn in Hv.
  destruct (String.eqb (br_ObserveGrantID rec) "") eqn:E7; [done|].
  unfold receipt_Seal, receipt_Validate.
  cbn [cr_ReceiptID cr_Enforcement cr_WouldHaveVerdict cr_ReasonCode cr_ObserveGrantID cr_BoundaryRecordID cr_BoundaryRecordHash cr_PolicyEpoch cr_CreatedAt].
  rewrite E2, E5, E6, E7, E1, (proj2 (String.eqb_neq _ _) Hh), E3, E4. cbn [negb orb mbind res_bind String.append String.eqb].
  rewrite String.eqb_refl. cbn [negb mbind res_bind].
  match goal with |- context [hashJCS ?j] => destruct (hashJCS_total j (match j with Ok x => x | Fail _ => JNull end)) as [h ->] end.
  { unfold json_of_counterfactual. cbn [assign cr_CreatedAt]. rewrite Hs. reflexivity. }
  eexists. split; [reflexivity|]. done.
Qed.

(** Observation is labelled as such: for every sealed authorization, under an active observe grant a
    counterfactual receipt can be minted, it can only be counterfactual, and it carries the verdict, reason, grant and
    hash of the record; without an active grant none can be. *)
Theorem counterfactual_mirrors f t req r r' rec :
  AuthorizeToolCall f t req r = (r', Ok rec) ->
  if Active (ef_Observe f) (at_observe t)
  then exists c, CounterfactualReceiptFor rec = Ok c /\ cr_Enforcement c = EnforcementCounterfactual /\
         cr_WouldHaveVerdict c = br_Verdict rec /\ cr_ReasonCode c = br_ReasonCode rec /\
         Some (cr_ObserveGrantID c) = og_GrantID <$> ef_Observe f /\ cr_BoundaryRecordHash c = br_RecordHash rec
  else exists e, CounterfactualReceiptFor rec = Fail e.
Proof.
  intros Ha. pose proof (authorize_sealed _ _ _ _ _ _ Ha) as Hs.
  destruct (authorize_cases _ _ _ _ _ _ Ha) as (v & rs & h & E & _).
  destruct (Active (ef_Observe f) (at_observe t)) eqn:Eg.
  - assert (Hm : br_EnforcementMode rec = EnforcementModeShadow) by (rewrite E; cbn; by rewrite Eg).
    destruct (counterfactual_total rec Hs Hm) as (c & Hc & He & Hv & Hr & Hg & Hh & _). exists c.
    split; [done|]. split; [done|]. split; [done|]. split; [done|]. split; [|done].
    rewrite Hg, E. cbn. rewrite Eg. destruct (ef_Observe f); [done|discriminate Eg].
  - exists "counterfactual receipts require a shadow-labeled record with an observe grant id".
    rewrite E. unfold CounterfactualReceiptFor. cbn. by rewrite Eg.
Qed.
End Verdicts.

(** * The summary counts *)

(** The receipts with a verdict, and those of them with a key. *)
Definition with_verdict (v : string) (rs : list CounterfactualReceipt) : list CounterfactualReceipt :=
  List.filter (fun r => String.eqb (cr_WouldHaveVerdict r) v) rs.
Definition with_key (p : CounterfactualReceipt -> string) (k : string) (rs : list CounterfactualReceipt) : list CounterfactualReceipt :=
  List.filter (fun r => String.eqb (p r) k) rs.
Definition tally_of (p : CounterfactualReceipt -> string) (k : string) (rs : list CounterfactualReceipt) : Z * Z :=
  (Z.of_nat (length (with_key p k (with_verdict VerdictDeny rs))), Z.of_nat (length (with_key p k (with_verdict VerdictEscalate rs)))).

Lemma bump_lookup m key esc k :
  bump m key esc !! k =
    if String.eqb key "" || negb (String.eqb key k) then m !! k
    else let '(d, e) := default (0, 0)%Z (m !! k) in Some (if esc then (d, e + 1) else (d + 1, e))%Z.
Proof.
  unfold bump. destruct (String.eqb_spec key ""); [done|]. cbn [orb]. destruct (default _ (m !! key)) as [d e] eqn:E.
  destruct (String.eqb_spec key k) as [->|Hne]; cbn [negb].
  - rewrite E. by rewrite lookup_insert_eq.
  - by rewrite lookup_insert_ne.
Qed.

(** A map holds the counts of the receipts folded so far. *)
Definition holds (p : CounterfactualReceipt -> string) (rs : list CounterfactualReceipt) (m : counts) : Prop :=
  forall k, m !! k = if String.eqb k "" || bool_decide (tally_of p k rs = (0, 0)%Z) then None else Some (tally_of p k rs).

Definition counted (rs : list CounterfactualReceipt) (t : Tally) : Prop :=
  ty_total t = Z.of_nat (length rs) /\
  ty_allow t = Z.of_nat (length (with_verdict VerdictAllow rs)) /\
  ty_deny t = Z.of_nat (length (with_verdict VerdictDeny rs)) /\
  ty_escalate t = Z.of_nat (length (with_verdict VerdictEscalate rs)) /\
  holds cr_PolicyEpoch rs (ty_policy t) /\ holds cr_ToolName rs (ty_tool t) /\
  holds cr_MCPServerID rs (ty_server t) /\ holds cr_ReasonCode rs (ty_reason t).

Lemma with_verdict_snoc v rs r :
  with_verdict v (rs ++ [r])%list
  = (with_verdict v rs ++ if String.eqb (cr_WouldHaveVerdict r) v then [r] else [])%list.
Proof. unfold with_verdict. rewrite List.filter_app. cbn. by destruct (String.eqb _ v). Qed.

Lemma with_key_app p k a b : with_key p k (a ++ b)%list = (with_key p k a ++ with_key p k b)%list.
Proof. apply List.filter_app. Qed.

(** A receipt that is not blocked leaves the counts, a blocked one bumps its key. *)
Lemma holds_unblocked p rs r m :
  cr_WouldHaveVerdict r <> VerdictDeny -> cr_WouldHaveVerdict r <> VerdictEscalate ->
  holds p rs m -> holds p (rs ++ [r])%list m.
Proof.
  intros Hd He Hm k. rewrite Hm. unfold tally_of. rewrite !with_verdict_snoc.
  rewrite (proj2 (String.eqb_neq _ _) Hd), (proj2 (String.eqb_neq _ _) He), !app_nil_r. done.
Qed.

Lemma holds_bump p rs r m (esc : bool) :
  cr_WouldHaveVerdict r = (if esc then VerdictEscalate else VerdictDeny : Verdict) ->
  holds p rs m -> holds p (rs ++ [r])%list (bump m (p r) esc).
Proof.
  intros Hv Hm k. rewrite bump_lookup, Hm.
  assert (E : tally_of p k (rs ++ [r])%list =
    if String.eqb (p r) k then (if esc then ((tally_of p k rs).1, (tally_of p k rs).2 + 1)
                                else ((tally_of p k rs).1 + 1, (tally_of p k rs).2))%Z
    else tally_of p k rs).
  { unfold tally_of. rewrite !with_verdict_snoc, Hv, !with_key_app, !length_app.
    destruct esc; cbn; destruct (String.eqb (p r) k); cbn; f_equal; lia. }
  rewrite E. clear E. destruct (String.eqb_spec (p r) k) as [Ek|Hne]; cbn [negb orb].
  - subst k. rewrite ?Hm. destruct (String.eqb_spec (p r) ""); cbn [orb]; [done|]. assert (Hp : (0 <= (tally_of p (p r) rs).1 /\ 0 <= (tally_of p (p r) rs).2)%Z) by (cbn; lia).
    destruct (tally_of p (p r) rs) as [d e]. cbn [fst snd] in *.
    assert (Hn : (if esc then (d, e + 1) else (d + 1, e))%Z <> (0, 0)%Z) by (destruct esc; intros [=]; lia).
    rewrite (bool_decide_false _ Hn). destruct (decide ((d, e) = (0, 0)%Z)) as [B|B].
    + rewrite (bool_decide_true _ B). injection B as -> ->. by destruct esc.
    + rewrite (bool_decide_false _ B). by destruct esc.
  - rewrite orb_true_r. done.
Qed.

Lemma tally_receipt_counted rs t r : counted rs t -> counted (rs ++ [r])%list (tally_receipt t r).
Proof.
  intros (Ht & Ha & Hd & He & H1 & H2 & H3 & H4). unfold counted, tally_receipt.
  rewrite !with_verdict_snoc, length_app.
  destruct (String.eqb_spec (cr_WouldHaveVerdict r) VerdictAllow) as [Ev|Na].
  - rewrite Ev. cbn. rewrite !length_app. cbn.
    split_and!; try (cbn in *; lia); apply holds_unblocked; rewrite ?Ev; done.
  - destruct (String.eqb_spec (cr_WouldHaveVerdict r) VerdictDeny) as [Ev|Nd]; cbn [orb].
    + rewrite Ev. cbn. rewrite !length_app. cbn. split_and!; try (cbn in *; lia); by apply (holds_bump _ _ _ _ false).
    + destruct (String.eqb_spec (cr_WouldHaveVerdict r) VerdictEscalate) as [Ev|Ne].
      * cbn. rewrite !length_app. cbn. split_and!; try (cbn in *; lia); by apply (holds_bump _ _ _ _ true).
      * cbn. rewrite !app_nil_r. split_and!; try (cbn in *; lia); by apply holds_unblocked.
Qed.

Lemma tally_all_counted i t seen rs t' :
  counted seen t -> tally_all i t rs = Ok t' ->
  counted (seen ++ rs)%list t' /\ Forall (fun r => cr_Enforcement r = EnforcementCounterfactual) rs.
Proof.
  revert i t seen. induction rs as [|r rs IH]; intros i t seen Hc; cbn [tally_all].
  - intros [= <-]. by rewrite app_nil_r.
  - destruct (String.eqb_spec (cr_Enforcement r) EnforcementCounterfactual) as [Er|]; [|done]. cbn [negb]. intros E.
    destruct (IH (i + 1)%nat _ (seen ++ [r])%list (tally_receipt_counted _ _ _ Hc) E) as [Hc' Hf].
    rewrite <-app_assoc in Hc'. split; [exact Hc'|by constructor].
Qed.

Lemma insert_key_perm {A} (key : A -> string) x l : insert_key key x l ≡ₚ x :: l.
Proof.
  induction l as [|y l IH]; cbn; [done|]. destruct (string_lt _ _); [|done]. rewrite IH. apply Permutation_swap.
Qed.

Lemma sort_key_perm {A} (key : A -> string) l : sort_key key l ≡ₚ l.
Proof. induction l as [|x l IH]; cbn; [done|]. fold (sort_key key l). by rewrite insert_key_perm, IH. Qed.

(** A dimension of the summary lists exactly the keys of blocked receipts with their counts. *)
Definition lists (p : CounterfactualReceipt -> string) (rs : list CounterfactualReceipt) (es : list CounterfactualCountEntry) : Prop :=
  NoDup (map cc_Key es) /\
  forall e, e ∈ es <-> cc_Key e <> "" /\ (cc_Deny e, cc_Escalate e) = tally_of p (cc_Key e) rs /\ (0 < cc_Deny e + cc_Escalate e)%Z.

Lemma sortedEntries_lists p rs m : holds p rs m -> lists p rs (sortedEntries m).
Proof.
  intros Hm. unfold sortedEntries. split.
  - rewrite sort_key_perm, map_map. cbn. apply NoDup_fst_map_to_list.
  - intros [k d e]. cbn. rewrite sort_key_perm. split.
    + intros ([k' [d' e']] & E & Hin)%list_elem_of_fmap. injection E as -> -> ->. apply elem_of_map_to_list in Hin. cbn in *.
      rewrite Hm in Hin. destruct (String.eqb_spec k' ""); [done|]. cbn [orb] in Hin.
      destruct (tally_of p k' rs) as [d e] eqn:Et. case_bool_decide as B; [done|]. injection Hin as -> ->.
      assert (0 <= d' /\ 0 <= e')%Z by (unfold tally_of in Et; injection Et as <- <-; lia).
      split; [done|]. split; [done|]. destruct (decide (d' = 0 /\ e' = 0)%Z) as [[-> ->]|]; [done|lia].
    + intros (Hk & Ht & Hp). apply list_elem_of_fmap. exists (k, (d, e)). split; [done|]. apply elem_of_map_to_list.
      rewrite Hm, (proj2 (String.eqb_neq _ _) Hk), <-Ht. cbn. by rewrite bool_decide_false by (intros [= -> ->]; lia).
Qed.

(** The weekly summary is exact: it refuses a list with a receipt that is not counterfactual; otherwise its
    totals are the numbers of receipts by verdict, and each dimension lists, once per key, the blocked receipts by
    denial and escalation, and nothing else. *)
Theorem summary_exact rs at_ s :
  SummarizeCounterfactuals rs at_ = Ok s ->
  Forall (fun r => cr_Enforcement r = EnforcementCounterfactual) rs /\
  cs_TotalEvaluated s = Z.of_nat (length rs) /\
  cs_WouldAllow s = Z.of_nat (length (with_verdict VerdictAllow rs)) /\
  cs_WouldDeny s = Z.of_nat (length (with_verdict VerdictDeny rs)) /\
  cs_WouldEscalate s = Z.of_nat (length (with_verdict VerdictEscalate rs)) /\
  lists cr_PolicyEpoch rs (cs_ByPolicyEpoch s) /\ lists cr_ToolName rs (cs_ByTool s) /\
  lists cr_MCPServerID rs (cs_ByMCPServer s) /\ lists cr_ReasonCode rs (cs_ByReasonCode s).
Proof.
  intros (t & Ht & [= <-])%res_bind_Ok.
  assert (H0 : counted [] empty_tally) by (split_and!; try done; intros k; cbn; by rewrite lookup_empty; destruct (String.eqb k "")).
  destruct (tally_all_counted _ _ [] _ _ H0 Ht) as [(E1 & E2 & E3 & E4 & H1 & H2 & H3 & H4) Hf].
  split; [done|]. split_and!; try done; by apply sortedEntries_lists.
Qed.

(** * Worked examples *)

Module McpDemo.
#[local] Instance toy : Hash := fun b => b.

Definition tool : ToolRef := {|
  tr_Name := "read"; tr_Title := ""; tr_Description := "Read a file"; tr_ServerID := "srv"; tr_Schema := ANil;
  tr_OutputSchema := ANil; tr_Annotations := None; tr_EffectClass := "E0"; tr_RiskTier := "LOW";
  tr_RequiredScopes := ["mcp:tools"]; tr_EgressDestinationRequired := false; tr_EgressDestination := "" |}.

Definition discovery : DiscoverServerRequest := {|
  ds_ServerID := "srv"; ds_Name := "files"; ds_Transport := "stdio"; ds_Endpoint := ""; ds_ToolNames := ["read"];
  ds_Risk := ""; ds_DiscoveredAt := 5; ds_ExpiresAt := zero_time; ds_Reason := "" |}.

Definition seen : QuarantineRegistry := fst (Discover 5 discovery NewQuarantineRegistry).
Definition revoked : QuarantineRegistry := fst (Revoke 6 "srv" "compromised" 6 seen).
Definition rediscovered : QuarantineRegistry := fst (Discover 7 discovery revoked).

(** A registry as a verifier-backed integration could leave it. *)
Definition approved : QuarantineRegistry :=
  (fun q => q <| sq_State := QuarantineApproved |> <| sq_ApprovedToolNames := ["read"] |> <| sq_ApprovedEffects := ["read"] |>) <$> seen.

Definition firewall (observe : option ObserveGrant) : ExecutionFirewall := {|
  ef_Catalog := fst (Register tool NewToolCatalog); ef_PolicyEpoch := "7"; ef_RequirePinnedSchema := false;
  ef_Observe := observe |}.
Definition grant : ObserveGrant := {| og_GrantID := "g1"; og_Reason := "onboarding"; og_ExpiresAt := 100 |}.
Definition noon (n : time) : Readings := {|
  at_id := n; at_created := n; at_observe := n; at_now := n; wall_first := n; wall_second := n |}.
Definition call : ToolCallAuthorization := {|
  tc_ServerID := "srv"; tc_ToolName := "read"; tc_Effect := ""; tc_ArgsHash := "h"; tc_GrantedScopes := ["mcp:tools"];
  tc_PinnedSchemaHash := ""; tc_OAuthResource := ""; tc_ReceiptID := "" |}.

Definition summary_of (x : QuarantineRegistry * res ExecutionBoundaryRecord) : string * string * bool :=
  match x.2 with Ok rec => (br_Verdict rec, br_ReasonCode rec, ShouldDispatch rec) | Fail e => (e, "", false) end.

Example verdicts :
  map summary_of
    [AuthorizeToolCall (firewall None) (noon 10) call NewQuarantineRegistry;
     AuthorizeToolCall (firewall None) (noon 10) call seen;
     AuthorizeToolCall (firewall None) (noon 10) call revoked;
     AuthorizeToolCall (firewall None) (noon 10) call approved;
     AuthorizeToolCall (firewall (Some grant)) (noon 10) call seen;
     AuthorizeToolCall (firewall (Some grant)) (noon 100) call seen]
  = [("ESCALATE", "APPROVAL_REQUIRED", false); ("ESCALATE", "APPROVAL_REQUIRED", false);
     ("DENY", "APPROVAL_TIMEOUT", false); ("ALLOW", "", true);
     ("ESCALATE", "APPROVAL_REQUIRED", true); ("ESCALATE", "APPROVAL_REQUIRED", false)].
Proof. vm_compute. reflexivity. Qed.

(** Discovering a revoked server again forgets the revocation: its calls escalate instead of being denied. *)
Example revocation_forgotten :
  (summary_of (AuthorizeToolCall (firewall None) (noon 10) call revoked),
   summary_of (AuthorizeToolCall (firewall None) (noon 10) call rediscovered))
  = (("DENY", "APPROVAL_TIMEOUT", false), ("ESCALATE", "APPROVAL_REQUIRED", false)).
Proof. vm_compute. reflexivity. Qed.

Lemma allowed : summary_of (AuthorizeToolCall (firewall None) (noon 10) call approved) = ("ALLOW", "", true).
Proof. vm_compute. reflexivity. Qed.
Lemma observed : summary_of (AuthorizeToolCall (firewall (Some grant)) (noon 10) call seen) = ("ESCALATE", "APPROVAL_REQUIRED", true).
Proof. vm_compute. reflexivity. Qed.
Lemma seen_reachable : reachable seen.
Proof. apply (reach_discover _ 5 discovery), reach_new. Qed.

Lemma mcp_allow_justified_witness : justified (firewall None) (noon 10) call approved.
Proof.
  pose proof allowed as V. destruct (AuthorizeToolCall (firewall None) (noon 10) call approved) as [r' [rec|e]] eqn:E.
  - apply (mcp_allow_justified (firewall None) (noon 10) call approved r' rec E).
    exact (f_equal (fun x => x.1.1) V).
  - exfalso. pose proof (f_equal snd V) as F. discriminate F.
Defined.

Lemma mcp_fails_closed_witness :
  exists r' rec, AuthorizeToolCall (firewall (Some grant)) (noon 10) call seen = (r', Ok rec) /\
    br_Verdict rec <> VerdictAllow /\ ShouldDispatch rec = true.
Proof.
  pose proof observed as V. destruct (AuthorizeToolCall (firewall (Some grant)) (noon 10) call seen) as [r' [rec|e]] eqn:E.
  - exists r', rec. split; [reflexivity|].
    split; [exact (proj1 (proj2 (mcp_fails_closed (firewall (Some grant)) (noon 10) call seen r' rec seen_reachable E)))|].
    exact (f_equal snd V).
  - exfalso. pose proof (f_equal snd V) as F. discriminate F.
Defined.

Lemma counterfactual_mirrors_witness :
  exists r' rec c, AuthorizeToolCall (firewall (Some grant)) (noon 10) call seen = (r', Ok rec) /\
    CounterfactualReceiptFor rec = Ok c /\ cr_WouldHaveVerdict c = br_Verdict rec.
Proof.
  pose proof observed as V. destruct (AuthorizeToolCall (firewall (Some grant)) (noon 10) call seen) as [r' [rec|e]] eqn:E.
  - destruct (counterfactual_mirrors (firewall (Some grant)) (noon 10) call seen r' rec E) as (c & Hc & _ & Hv & _).
    exists r', rec, c. split; [reflexivity|]. split; [exact Hc|exact Hv].
  - exfalso. pose proof (f_equal snd V) as F. discriminate F.
Defined.

Definition sample_receipt (tool verdict reason : string) : CounterfactualReceipt := {|
  cr_ReceiptID := "r"; cr_Enforcement := EnforcementCounterfactual; cr_WouldHaveVerdict := verdict; cr_ReasonCode := reason;
  cr_ObserveGrantID := "g1"; cr_BoundaryRecordID := "b"; cr_BoundaryRecordHash := "h"; cr_PolicyEpoch := "7";
  cr_ToolName := tool; cr_MCPServerID := ""; cr_ArgsHash := ""; cr_CreatedAt := 10; cr_SignerKeyID := "";
  cr_Signature := ""; cr_ReceiptHash := "" |}.

Example summary :
  match SummarizeCounterfactuals [sample_receipt "rm" "DENY" "A"; sample_receipt "ls" "ALLOW" ""; sample_receipt "rm" "ESCALATE" "B";
                                  sample_receipt "cp" "DENY" "A"] 20 with
  | Ok s => (cs_TotalEvaluated s, map (fun e => (cc_Key e, cc_Deny e, cc_Escalate e)) (cs_ByTool s), cs_ByMCPServer s)
  | Fail _ => (0%Z, [], [])
  end = (4%Z, [("cp", 1%Z, 0%Z); ("rm", 1%Z, 1%Z)], []).
Proof. vm_compute. reflexivity. Qed.
End McpDemo.
