(* ===== verification/Executor.v ===== *)
(** The effect executor, [core/pkg/executor/executor.go] with its interfaces from
    types.go and driver.go and the tool prohibition of
    [receipts/policies/enforcer.go]: an effect is dispatched only against a
    verified decision and a verified execution intent, and leaves a signed
    receipt.

    Every collaborator (tool driver, receipt store, artifact store, outbox, audit
    log, meter, safe-deprecation gate) is a record of operations over an external
    state [Ext]; an optional interface a store may implement is an option.  The
    world adds the heap of effects and a trace of what reached the outside, in
    order.  A causal receipt store reports the chain positions at which it called
    the receipt builder; the executor keeps the receipt built last. *)
From S2P Require Import Prelude GoLib GoFmt Utf8 Jcs Contracts Signing AuditLog SafeDep Receipts.

Local Open Scope string_scope.

(** * Collaborators *)

Inductive Event :=
| EvSchedule (intent : AuthorizedExecutionIntent)
| EvDispatch (tool : string) (params : ctx)
| EvReceipt (r : Receipt)
| EvDone (decisionID : string).

Section Types.
Context {Ext : Type}.

Definition eop (A : Type) : Type := Ext -> Ext * A.

Record World := { w_ext : Ext; w_heap : effects; w_trace : list Event }.

Record Verifier := {
  vf_VerifyDecision : DecisionRecord -> res bool;
  vf_VerifyIntent : AuthorizedExecutionIntent -> res bool;
}.

(** [build] of a causal append: the receipt for a Lamport clock and a
    predecessor hash. *)
Definition builder : Type := Z -> string -> res Receipt.

Record ReceiptStore := {
  rs_Get : string -> eop (res (option Receipt));
  rs_Store : Receipt -> eop (res unit);
  rs_GetLastForSession : string -> eop (res (option Receipt));
  rs_AppendCausal : option (string -> builder -> eop (list (Z * string) * res unit));
  rs_AppendCausalScoped : option (string -> string -> builder -> eop (list (Z * string) * res unit));
  rs_PreflightCausalAppend : option (string -> eop (res unit));
  rs_PreflightCausalAppendScoped : option (string -> string -> eop (res unit));
  rs_GetByDecisionIDForTenant : option (string -> string -> eop (res (option Receipt)));
  rs_NormalizeReceiptTimestamp : option (time -> time);
}.

Record OutboxStore := {
  ob_Schedule : Effect -> AuthorizedExecutionIntent -> eop (res unit);
  ob_MarkDone : string -> eop (res unit);
}.

Record UsageEvent := { ue_TenantID : string; ue_Timestamp : time; ue_Tool : string; ue_DecisionID : string }.

Record SafeExecutor := {
  ex_verifier : option Verifier;
  ex_signer : option (Receipt -> res Receipt);
  ex_driver : string -> ctx -> eop (res output);
  ex_receiptStore : option ReceiptStore;
  ex_artifactStore : option (bytes -> eop (res string));
  ex_outboxStore : option OutboxStore;
  ex_currentPhenotypeHash : string;
  ex_AuditLog : option (string -> list (string * string) -> eop (res unit));
  ex_prohibitedTools : gmap string bool;
  ex_meter : option (UsageEvent -> eop (res unit));
  ex_outputSchemaRegistry : option (string -> option (output -> res string));
  ex_safeDepGate : option (GateRequest -> eop (res GateResult));
  ex_clock : eop time;
}.
#[export] Instance SafeExecutor_eta : Eta SafeExecutor := fun e => {|
  ex_verifier := ex_verifier e; ex_signer := ex_signer e; ex_driver := ex_driver e;
  ex_receiptStore := ex_receiptStore e; ex_artifactStore := ex_artifactStore e;
  ex_outboxStore := ex_outboxStore e; ex_currentPhenotypeHash := ex_currentPhenotypeHash e;
  ex_AuditLog := ex_AuditLog e; ex_prohibitedTools := ex_prohibitedTools e; ex_meter := ex_meter e;
  ex_outputSchemaRegistry := ex_outputSchemaRegistry e; ex_safeDepGate := ex_safeDepGate e;
  ex_clock := ex_clock e |}.

(** What the request context carries: the authenticated tenant
    ([helmauth.GetTenantID]) and the correlation id. *)
Record Request := { rx_TenantID : res string; rx_Correlation : option string }.
End Types.
Arguments World : clear implicits.
Arguments ReceiptStore : clear implicits.
Arguments SafeExecutor : clear implicits.

(** [PolicyEnforcer.IsToolAllowed], [SetProhibitedTools] and
    [ApplyCompilerPolicy]. *)
Definition IsToolAllowed (prohibited : gmap string bool) (toolName : string) : bool :=
  negb (set_mem prohibited toolName).
Definition SetProhibitedTools (tools : list string) : gmap string bool := set_of_list tools.
Definition ApplyCompilerPolicy {Ext} (policy : option (list string)) (e : SafeExecutor Ext)
    : SafeExecutor Ext :=
  match policy with
  | None => e
  | Some tools => e <| ex_prohibitedTools := SetProhibitedTools tools |>
  end.

(** * Pure parts *)

Definition cloneAuthorizedExecutionIntent (i : AuthorizedExecutionIntent)
    : res AuthorizedExecutionIntent :=
  match ai_EffectBinding i with
  | None => Ok i
  | Some b => b' ← wrap_err "clone effect binding: " (NormalizeEffectDigestBinding (Some b));
              Ok (i <| ai_EffectBinding := Some b' |>)
  end.

(** One of the three emergency fields is set. *)
Definition has_signed_binding (i : AuthorizedExecutionIntent) : bool :=
  negb (String.eqb (ai_EmergencyActivationID i) "")
  || negb (String.eqb (ai_EmergencyDelegationSessionID i) "")
  || negb (String.eqb (ai_EmergencyScopeHash i) "").

Definition has_runtime_activation (result : GateResult) : bool :=
  bool_decide (is_Some (gt_ActivationReceipt result))
  || String.eqb (hc_State (gt_Classification result)) SafeDepDegradedNarrowing.

Definition validateSafeDepIntentBinding (i : AuthorizedExecutionIntent) (result : GateResult)
    : res unit :=
  if negb (has_signed_binding i) && negb (has_runtime_activation result) then Ok tt
  else if negb (has_signed_binding i) then
    Fail "safe dep activation evidence has no signed emergency binding"
  else if blank (ai_EmergencyActivationID i) || blank (ai_EmergencyDelegationSessionID i)
          || blank (ai_EmergencyScopeHash i) then
    Fail "safe dep signed emergency binding is incomplete"
  else if negb (String.eqb (hc_State (gt_Classification result)) SafeDepDegradedNarrowing) then
    Fail ("safe dep signed emergency binding requires degraded narrowing, got "
          +:+ goq (hc_State (gt_Classification result)))
  else match gt_ActivationReceipt result with
  | None => Fail "safe dep degraded narrowing allowed without activation evidence"
  | Some a =>
      if blank (ar_ActivationID a) || blank (ar_DelegationSessionID a)
         || blank (gt_EmergencyScopeHash result) then
        Fail "safe dep activation evidence is incomplete"
      else if negb (String.eqb (ai_EmergencyActivationID i) (ar_ActivationID a)) then
        Fail ("safe dep activation " +:+ goq (ar_ActivationID a)
              +:+ " does not match signed intent binding " +:+ goq (ai_EmergencyActivationID i))
      else if negb (String.eqb (ai_EmergencyDelegationSessionID i) (ar_DelegationSessionID a)) then
        Fail ("safe dep delegation session " +:+ goq (ar_DelegationSessionID a)
              +:+ " does not match signed intent binding " +:+ goq (ai_EmergencyDelegationSessionID i))
      else if negb (String.eqb (ai_EmergencyScopeHash i) (gt_EmergencyScopeHash result)) then
        Fail ("safe dep scope " +:+ goq (gt_EmergencyScopeHash result)
              +:+ " does not match signed intent binding " +:+ goq (ai_EmergencyScopeHash i))
      else Ok tt
  end.

Definition standaloneReceiptSessionPrefix : string := "standalone:decision:".

Definition receiptSessionID (d : DecisionRecord) : res string :=
  let value := string_or_empty (ctx_get (dr_InputContext d) "session_id") in
  if negb (blank value) then Ok value
  else if blank (dr_ID d) then Fail "missing decision id for standalone receipt session"
  else Ok (standaloneReceiptSessionPrefix +:+ dr_ID d).

Definition authenticatedTenantID (rx : Request) : res string :=
  match rx_TenantID rx with
  | Fail e => Fail ("authenticated tenant required: " +:+ e)
  | Ok t => if blank t then Fail "authenticated tenant required" else Ok (trim_space t)
  end.

(** [len(s)] *)
Definition slen (s : string) : Z := Z.of_nat (length (to_bytes s)).

Section Executor.
Context `{Hash} `{StructValues} {Ext : Type}.
Notation W := (World Ext).
Implicit Type e : SafeExecutor Ext.

Definition ReceiptIDForDecision (tenantID decisionID : string) : string :=
  let tenantID := trim_space tenantID in
  if String.eqb tenantID "" then "rcpt-" +:+ decisionID
  else "rcpt-" +:+ hex_encode (sha256 (to_bytes
         (dec (slen tenantID) +:+ ":" +:+ tenantID +:+ dec (slen decisionID) +:+ ":" +:+ decisionID))).

(** * Operations on the world *)

Definition ext {A} (o : eop (Ext := Ext) A) : M W A := fun w =>
  let '(x, a) := o (w_ext w) in
  ({| w_ext := x; w_heap := w_heap w; w_trace := w_trace w |}, Ok a).

(** [v, err := op(); if err != nil { return err }] *)
Definition ext_res {A} (o : eop (Ext := Ext) (res A)) : M W A := r ← ext o; lift r.

Definition emit (ev : Event) : M W unit := fun w =>
  ({| w_ext := w_ext w; w_heap := w_heap w; w_trace := (w_trace w ++ [ev])%list |}, Ok tt).

Definition heap : M W effects := gets w_heap.

(** [effect.OutputHash = h] *)
Definition set_output_hash (l : loc) (h : string) : M W unit := fun w =>
  ({| w_ext := w_ext w; w_heap := alter (fun x => x <| ef_OutputHash := h |>) l (w_heap w);
      w_trace := w_trace w |}, Ok tt).
(** * The gates (validateGating) *)

Definition validateGating e (decision : DecisionRecord) (intent : option AuthorizedExecutionIntent)
    (effect : option loc) : M W AuthorizedExecutionIntent :=
  if blank (dr_ID decision) then fail "execution blocked: missing decision id"
  else match effect, intent with
  | None, _ => fail "execution blocked: missing effect"
  | Some _, None => fail "execution blocked: missing execution intent"
  | Some l, Some intent =>
      if negb (String.eqb (ai_DecisionID intent) (dr_ID decision)) then
        fail ("intent mismatch: intent.decision_id " +:+ ai_DecisionID intent
              +:+ " != decision.id " +:+ dr_ID decision)
      else
        h ← heap;
        effectDigest ← lift (wrap_err "execution blocked: canonical effect digest: "
                              (CanonicalEffectDigest h (Some l)));
        if String.eqb (dr_EffectDigest decision) "" then
          fail "execution blocked: decision missing effect digest"
        else if negb (String.eqb (dr_EffectDigest decision) effectDigest) then
          fail ("execution blocked: effect digest mismatch (decision=" +:+ dr_EffectDigest decision
                +:+ ", runtime=" +:+ effectDigest +:+ ")")
        else if String.eqb (ai_EffectDigestHash intent) "" then
          fail "execution blocked: intent missing effect digest hash"
        else if negb (String.eqb (ai_EffectDigestHash intent) effectDigest) then
          fail ("execution blocked: intent effect digest mismatch (intent="
                +:+ ai_EffectDigestHash intent +:+ ", runtime=" +:+ effectDigest +:+ ")")
        else match ex_verifier e with
        | None => fail "execution blocked: no signature verifier configured"
        | Some v =>
            valid ← lift (wrap_err "execution blocked: decision signature verification failed: "
                            (vf_VerifyDecision v decision));
            if negb valid then fail "execution blocked: invalid decision signature"
            else
              _ ← lift (wrap_err "execution blocked: " (ValidateDecisionAuthorityForUse (Some decision)));
              valid ← lift (wrap_err "execution blocked: intent signature verification failed: "
                              (vf_VerifyIntent v intent));
              if negb valid then fail "execution blocked: invalid intent signature"
              else if negb (String.eqb (dr_Verdict decision) VerdictAllow) then
                fail ("execution blocked: decision verdict is " +:+ dr_Verdict decision
                      +:+ " (reason: " +:+ dr_Reason decision +:+ ")")
              else
                now ← ext (ex_clock e);
                _ ← lift (wrap_err "execution blocked: " (ValidateAt (Some intent) now));
                mret intent
        end
  end.

(** * Before dispatch *)

Definition checkIdempotency e (tenantID decisionID : string) : M W (option Receipt) :=
  match ex_receiptStore e with
  | None => mret None
  | Some s =>
      if negb (String.eqb tenantID "") then
        match rs_GetByDecisionIDForTenant s with
        | None => fail "fail-closed: receipt store lacks tenant-scoped idempotency lookup"
        | Some get => wrapM "tenant-scoped idempotency lookup: " (ext_res (get tenantID decisionID))
        end
      else
        r ← ext (rs_Get s decisionID);
        mret (match r with Ok receipt => receipt | Fail _ => None end)
  end.

Definition preflightCausalReceiptAppend e (tenantID : string) (decision : DecisionRecord) : M W unit :=
  match ex_receiptStore e with
  | None => mret tt
  | Some s =>
      sessionID ← lift (receiptSessionID decision);
      if negb (String.eqb tenantID "") then
        match rs_AppendCausalScoped s, rs_PreflightCausalAppendScoped s with
        | None, _ => fail "fail-closed: receipt store lacks tenant-scoped causal append"
        | Some _, None => fail "fail-closed: receipt store lacks tenant-scoped causal append preflight"
        | Some _, Some pre =>
            wrapM "receipt causal append preflight failed: " (ext_res (pre tenantID sessionID))
        end
      else match rs_AppendCausal s, rs_PreflightCausalAppend s with
      | None, _ => mret tt
      | Some _, None => fail "fail-closed: receipt store lacks causal append preflight"
      | Some _, Some pre => wrapM "receipt causal append preflight failed: " (ext_res (pre sessionID))
      end
  end.

Definition verifySnapshot e (decision : DecisionRecord) : M W string :=
  blobHash ← match ex_artifactStore e with
             | Some store =>
                 if String.eqb (dr_Snapshot decision) "" then mret ""
                 else
                   h ← wrapM "failed to store snapshot artifact: "
                         (ext_res (store (to_bytes (dr_Snapshot decision))));
                   if negb (String.eqb h (dr_PhenotypeHash decision)) then
                     fail ("phenotype mismatch: snapshot hash " +:+ h +:+ " != decision hash "
                           +:+ dr_PhenotypeHash decision)
                   else mret h
             | None => mret ""
             end;
  if negb (String.eqb (ex_currentPhenotypeHash e) "") && negb (String.eqb (dr_PhenotypeHash decision) "")
     && negb (String.eqb (dr_PhenotypeHash decision) (ex_currentPhenotypeHash e)) then
    fail ("execution blocked: phenotype mismatch (decision=" +:+ dr_PhenotypeHash decision
          +:+ ", current=" +:+ ex_currentPhenotypeHash e +:+ ")")
  else mret blobHash.

Definition resolveTool (effect : Effect) (intent : AuthorizedExecutionIntent) : res string :=
  toolName ← match as_string (ctx_get (ef_Params effect) "tool_name") with
             | Some t => Ok t
             | None => if negb (String.eqb (ai_AllowedTool intent) "") then Ok (ai_AllowedTool intent)
                       else Fail "tool_name missing in params"
             end;
  if negb (String.eqb (ai_AllowedTool intent) "")
     && negb (String.eqb (ai_AllowedTool intent) toolName) then
    Fail ("intent violation: allowed_tool '" +:+ ai_AllowedTool intent
          +:+ "' does not match requested '" +:+ toolName +:+ "'")
  else Ok toolName.

Definition gate_request (decision : DecisionRecord) (intent : AuthorizedExecutionIntent)
    (effect : Effect) (toolName : string) : GateRequest :=
  let req := GateRequestFromContext (dr_InputContext decision) in
  let req := req <| gr_Intent := Some intent |> <| gr_DecisionID := dr_ID decision |>
    <| gr_EffectID := ef_EffectID effect |> <| gr_EffectType := ef_EffectType effect |>
    <| gr_Action := dr_Action decision |> <| gr_ToolName := toolName |> in
  if String.eqb (gr_ConnectorID req) "" then req <| gr_ConnectorID := toolName |> else req.

Definition safeDep e (decision : DecisionRecord) (intent : AuthorizedExecutionIntent)
    (effect : Effect) (toolName : string) : M W GateResult :=
  match ex_safeDepGate e with
  | None => fail (ErrDispatchBlocked +:+ ": " +:+ reason_text ReasonAttestationResultRequired
                  +:+ ": safe deprecation gate unavailable")
  | Some gate =>
      gateIntent ← lift (wrap_err "execution blocked: snapshot SafeDep gate intent: "
                          (cloneAuthorizedExecutionIntent intent));
      result ← wrapM (ErrDispatchBlocked +:+ ": ")
                 (ext_res (gate (gate_request decision gateIntent effect toolName)));
      if negb (gt_DispatchAllowed result) then
        fail (ErrDispatchBlocked +:+ ": "
              +:+ if String.eqb (gt_Reason result) "" then gt_ReasonCode result else gt_Reason result)
      else
        _ ← lift (wrap_err (ErrDispatchBlocked +:+ ": ") (validateSafeDepIntentBinding intent result));
        mret result
  end.


(** * Receipts (createReceipt) *)

(** [buildReceipt], closed over the execution's values. *)
Definition buildReceipt e (rx : Request) (decision : DecisionRecord)
    (intent : AuthorizedExecutionIntent) (effect : Effect)
    (tenantID blobHash outputHash sessionID decisionHash : string) (timestamp : time)
    (safeDepResult : GateResult) (causal : bool) : builder := fun lamportClock prevHash =>
  let cl := gt_Classification safeDepResult in
  let hazard := negb (String.eqb (hc_HazardCode cl) "") in
  let receipt := zero_receipt
    <| rc_ReceiptID := ReceiptIDForDecision tenantID (dr_ID decision) |>
    <| rc_DecisionID := dr_ID decision |>
    <| rc_CorrelationID := if String.eqb (dr_CorrelationID decision) ""
                           then default "" (rx_Correlation rx) else dr_CorrelationID decision |>
    <| rc_EffectID := ef_EffectID effect |> <| rc_Status := "SUCCESS" |>
    <| rc_BlobHash := blobHash |> <| rc_OutputHash := outputHash |>
    <| rc_DecisionHash := decisionHash |> <| rc_ArgsHash := ef_ArgsHash effect |>
    <| rc_Timestamp := timestamp |> <| rc_PrevHash := prevHash |>
    <| rc_LamportClock := lamportClock |> <| rc_Verdict := dr_Verdict decision |>
    <| rc_ReasonCode := dr_ReasonCode decision |> <| rc_PolicyHash := dr_PolicyContentHash decision |>
    <| rc_SessionID := sessionID |>
    <| rc_EmergencyActivationID := ai_EmergencyActivationID intent |>
    <| rc_EmergencyDelegationSessionID := ai_EmergencyDelegationSessionID intent |>
    <| rc_EmergencyScopeHash := ai_EmergencyScopeHash intent |>
    <| rc_SafeDepState := if hazard then hc_State cl else "" |>
    <| rc_SafeDepReasonCode := if hazard then gt_ReasonCode safeDepResult else "" |>
    <| rc_SignatureVersion := if causal then ReceiptSignatureV5 else "" |> in
  match ex_signer e with
  | None => Ok receipt
  | Some sign => wrap_err "fail-closed: receipt signing failed: " (sign receipt)
  end.

(** The receipt the closure has captured: the last one built without error. *)
Definition captured (build : builder) (positions : list (Z * string)) : option Receipt :=
  last (omap (fun lp => match build lp.1 lp.2 with Ok r => Some r | Fail _ => None end) positions).

Definition causal_append (append : builder -> eop (Ext := Ext) (list (Z * string) * res unit))
    (build : builder) : M W Receipt :=
  out ← ext (append build);
  _ ← lift (wrap_err "fail-closed: receipt persistence failed: " out.2);
  match captured build out.1 with
  | None => fail "fail-closed: causal receipt store completed without building a receipt"
  | Some r => _ ← emit (EvReceipt r); mret r
  end.

(** [prev.LamportClock + 1] *)
Definition next_lamport (z : Z) : Z := ((z + 1) mod 18446744073709551616)%Z.

Definition legacy_append e (sessionID : string) (build : builder) : M W Receipt :=
  match ex_receiptStore e with
  | None => r ← lift (build 1%Z ""); _ ← emit (EvReceipt r); mret r
  | Some s =>
      prev ← wrapM ("load previous receipt for session " +:+ goq sessionID +:+ ": ")
               (ext_res (rs_GetLastForSession s sessionID));
      pos ← match prev with
            | None => mret (1%Z, "")
            | Some p => h ← lift (wrap_err ("hash previous receipt for session " +:+ goq sessionID +:+ ": ")
                                    (ReceiptChainHash (Some p)));
                        mret (next_lamport (rc_LamportClock p), h)
            end;
      r ← lift (build pos.1 pos.2);
      _ ← wrapM "fail-closed: receipt persistence failed: " (ext_res (rs_Store s r));
      _ ← emit (EvReceipt r);
      mret r
  end.

Definition createReceipt e (rx : Request) (decision : DecisionRecord)
    (intent : AuthorizedExecutionIntent) (effect : Effect) (tenantID blobHash outputHash : string)
    (safeDepResult : GateResult) : M W Receipt :=
  sessionID ← lift (receiptSessionID decision);
  decisionHash ← lift (wrap_err "derive semantic decision hash: " (DecisionSemanticHash (Some decision)));
  now ← ext (ex_clock e);
  let normalize := ex_receiptStore e ≫= rs_NormalizeReceiptTimestamp in
  let timestamp := match normalize with Some f => f now | None => now end in
  let build := buildReceipt e rx decision intent effect tenantID blobHash outputHash sessionID
                 decisionHash timestamp safeDepResult in
  match ex_receiptStore e with
  | Some s =>
      if negb (String.eqb tenantID "") then
        match rs_AppendCausalScoped s with
        | None => fail "fail-closed: receipt store lacks tenant-scoped causal append"
        | Some append => causal_append (append tenantID sessionID) (build true)
        end
      else match rs_AppendCausal s with
      | Some append => causal_append (append sessionID) (build true)
      | None => legacy_append e sessionID (build false)
      end
  | None => legacy_append e sessionID (build false)
  end.

Definition audit e (action : string) (details : list (string * string)) : M W unit :=
  match ex_AuditLog e with
  | None => mret tt
  | Some append => _ ← ext (append action details); mret tt
  end.

Definition finalizeExecution e (decision : DecisionRecord) (toolName : string) : M W unit :=
  _ ← match ex_outboxStore e with
      | None => mret tt
      | Some ob =>
          _ ← wrapM "fail-closed: outbox mark-done failed: " (ext_res (ob_MarkDone ob (dr_ID decision)));
          emit (EvDone (dr_ID decision))
      end;
  audit e "execute_effect"
    [("decision_id", dr_ID decision); ("tool", toolName); ("status", "SUCCESS")].

Definition metering e (decision : DecisionRecord) (tenantID toolName : string) : M W unit :=
  match ex_meter e with
  | None => mret tt
  | Some record =>
      now ← ext (ex_clock e);
      r ← ext (record {| ue_TenantID := if String.eqb tenantID "" then "system" else tenantID;
                         ue_Timestamp := now; ue_Tool := toolName; ue_DecisionID := dr_ID decision |});
      match r with
      | Ok _ => mret tt
      | Fail err => audit e "metering_error" [("decision_id", dr_ID decision); ("error", err)]
      end
  end.

(** * Dispatch and after *)

Definition dispatch e (intent : AuthorizedExecutionIntent)
    (effect : Effect) (toolName : string) : M W output :=
  _ ← match ex_outboxStore e with
      | None => mret tt
      | Some ob =>
          _ ← wrapM "failed to schedule effect in outbox: " (ext_res (ob_Schedule ob effect intent));
          emit (EvSchedule intent)
      end;
  _ ← emit (EvDispatch toolName (ef_Params effect));
  ext_res (ex_driver e toolName (ef_Params effect)).

Definition storeOutput e (result : output) : M W Artifact :=
  artifact ← lift (wrap_err "output canonicalization failed: "
                    (Canonicalize (match result with OutText _ => "text/plain" | _ => "application/json" end)
                       result));
  match ex_artifactStore e with
  | None => mret artifact
  | Some store =>
      storedHash ← wrapM "failed to persist output artifact: " (ext_res (store (af_CanonicalBytes artifact)));
      if negb (String.eqb storedHash (af_Digest artifact)) then
        fail ("store integrity violation: calculated " +:+ af_Digest artifact +:+ " != stored "
              +:+ storedHash)
      else mret artifact
  end.

Definition checkOutput e (l : loc) (toolName : string) (result : output) : M W unit :=
  match ex_outputSchemaRegistry e ≫= fun lookup => lookup toolName with
  | None => mret tt
  | Some validate =>
      h ← lift (wrap_err "ERR_CONNECTOR_CONTRACT_DRIFT: " (validate result));
      set_output_hash l h
  end.

(** [Execute] after the idempotency check. *)
Definition executeOnce e (rx : Request) (decision : DecisionRecord)
    (intent : AuthorizedExecutionIntent) (l : loc) (tenantID : string) : M W (Receipt * Artifact) :=
  _ ← wrapM "execution blocked: " (preflightCausalReceiptAppend e tenantID decision);
  blobHash ← verifySnapshot e decision;
  h ← heap;
  match h !! l with
  | None => fail err_panic
  | Some effect =>
      toolName ← lift (resolveTool effect intent);
      gateResult ← safeDep e decision intent effect toolName;
      if negb (IsToolAllowed (ex_prohibitedTools e) toolName) then
        fail ("policy violation: tool '" +:+ toolName +:+ "' is prohibited by active regulation")
      else
        result ← dispatch e intent effect toolName;
        _ ← checkOutput e l toolName result;
        artifact ← storeOutput e result;
        receipt ← wrapM "receipt creation failed: "
                    (createReceipt e rx decision intent effect tenantID blobHash (af_Digest artifact) gateResult);
        _ ← finalizeExecution e decision toolName;
        _ ← metering e decision tenantID toolName;
        mret (receipt, artifact)
  end.

Definition already_executed (receipt : Receipt) : Artifact := {|
  af_SchemaID := "system/execution-status"; af_ContentType := "application/json";
  af_CanonicalBytes := []; af_Digest := rc_OutputHash receipt;
  af_Preview := "Already executed. Receipt: " +:+ rc_ReceiptID receipt |}.

(** The store appends under a tenant and the request has none. *)
Definition unscoped e (rx : Request) : option error :=
  match ex_receiptStore e ≫= rs_AppendCausalScoped, authenticatedTenantID rx with
  | Some _, Fail err => Some err
  | _, _ => None
  end.

Definition Execute e (rx : Request) (effect : option loc) (decision : option DecisionRecord)
    (intent : option AuthorizedExecutionIntent) : M W (Receipt * Artifact) :=
  match decision with
  | None => fail "execution blocked: missing decision"
  | Some decision =>
      intent ← validateGating e decision intent effect;
      intent ← lift (wrap_err "execution blocked: snapshot verified execution intent: "
                      (cloneAuthorizedExecutionIntent intent));
      match unscoped e rx, effect with
      | Some err, _ => fail ("execution blocked: " +:+ err)
      | None, None => fail err_panic
      | None, Some l =>
          let tenantID := match authenticatedTenantID rx with Ok t => t | Fail _ => "" end in
          prior ← wrapM "execution blocked: " (checkIdempotency e tenantID (dr_ID decision));
          match prior with
          | Some receipt => mret (receipt, already_executed receipt)
          | None => executeOnce e rx decision intent l tenantID
          end
      end
  end.


(** * What reaches the outside *)

(** A computation that leaves the trace and the effects alone. *)
Definition quiet {A} (m : M W A) : Prop :=
  forall w, w_trace (m w).1 = w_trace w /\ w_heap (m w).1 = w_heap w.

Lemma quiet_same {A} (m : M W A) w w' r :
  quiet m -> m w = (w', r) -> w_trace w' = w_trace w /\ w_heap w' = w_heap w.
Proof. intros Hq E. specialize (Hq w). by rewrite E in Hq. Qed.

Lemma quiet_ret {A} (a : A) : quiet (mret a).
Proof. done. Qed.
Lemma quiet_fail {A} err : quiet (fail (A := A) err).
Proof. done. Qed.
Lemma quiet_lift {A} (r : res A) : quiet (lift r).
Proof. done. Qed.
Lemma quiet_heap : quiet heap.
Proof. done. Qed.
Lemma quiet_ext {A} (o : eop (Ext := Ext) A) : quiet (ext o).
Proof. intros w. unfold ext. by destruct (o (w_ext w)). Qed.
Lemma quiet_bind {A B} (m : M W A) (f : A -> M W B) :
  quiet m -> (forall a, quiet (f a)) -> quiet (m ≫= f).
Proof.
  intros Hm Hf w. unfold mbind, M_bind. specialize (Hm w). destruct (m w) as [w1 [a|err]]; [|done].
  destruct (Hf a w1) as [E1 E2]. destruct Hm as [F1 F2]. cbn in *. by rewrite E1, E2.
Qed.
Lemma quiet_wrap {A} p (m : M W A) : quiet m -> quiet (wrapM p m).
Proof. intros Hm w. specialize (Hm w). unfold wrapM. by destruct (m w). Qed.

Ltac quieten :=
  repeat first
    [ apply quiet_ret | apply quiet_fail | apply quiet_lift | apply quiet_heap | apply quiet_ext
    | apply quiet_wrap | apply quiet_bind; [|intros ?]
    | match goal with |- quiet (match ?x with _ => _ end) => destruct x end
    | match goal with |- quiet (if ?x then _ else _) => destruct x end ].

Lemma ext_res_quiet {A} (o : eop (Ext := Ext) (res A)) : quiet (ext_res o).
Proof. unfold ext_res. quieten. Qed.
Lemma validateGating_quiet e d i p : quiet (validateGating e d i p).
Proof. unfold validateGating. quieten. Qed.
Lemma checkIdempotency_quiet e t d : quiet (checkIdempotency e t d).
Proof. unfold checkIdempotency, ext_res. quieten. Qed.
Lemma preflight_quiet e t d : quiet (preflightCausalReceiptAppend e t d).
Proof. unfold preflightCausalReceiptAppend, ext_res. quieten. Qed.
Lemma verifySnapshot_quiet e d : quiet (verifySnapshot e d).
Proof. unfold verifySnapshot, ext_res. quieten. Qed.
Lemma safeDep_quiet e d i x t : quiet (safeDep e d i x t).
Proof. unfold safeDep, ext_res. quieten. Qed.
Lemma storeOutput_quiet e r : quiet (storeOutput e r).
Proof. unfold storeOutput, ext_res. quieten. Qed.
Lemma audit_quiet e a l : quiet (audit e a l).
Proof. unfold audit. quieten. Qed.
Lemma metering_quiet e d t n : quiet (metering e d t n).
Proof. unfold metering, audit. quieten. Qed.

(** ** The conditions of a dispatch *)

(** The decision and the intent are verified, agree with each other and with the
    effect, and are in force. *)
Record authorised e (d : DecisionRecord) (i : AuthorizedExecutionIntent) (h : effects) (l : loc)
    : Prop := {
  au_named : blank (dr_ID d) = false;
  au_same_decision : ai_DecisionID i = dr_ID d;
  au_effect : CanonicalEffectDigest h (Some l) = Ok (dr_EffectDigest d);
  au_intent_effect : ai_EffectDigestHash i = dr_EffectDigest d;
  au_signed : exists v, ex_verifier e = Some v /\ vf_VerifyDecision v d = Ok true /\
                vf_VerifyIntent v i = Ok true;
  au_authority : ValidateDecisionAuthorityForUse (Some d) = Ok tt;
  au_allow : dr_Verdict d = VerdictAllow;
  au_window : exists x now, (ex_clock e x).2 = now /\ ValidateAt (Some i) now = Ok tt;
}.

Lemma ext_result {A} (o : eop (Ext := Ext) A) w w' a :
  ext o w = (w', Ok a) -> (o (w_ext w)).2 = a.
Proof. unfold ext. destruct (o (w_ext w)). by intros [= _ ->]. Qed.

Lemma lift_wrap_Ok {A} p (r : res A) w w' a :
  lift (W := W) (wrap_err p r) w = (w', Ok a) -> w' = w /\ r = Ok a.
Proof. intros [= -> E]. by apply wrap_err_Ok in E. Qed.

Lemma validateGating_Ok e d i p w w' i0 :
  validateGating e d i p w = (w', Ok i0) ->
  exists l, p = Some l /\ i = Some i0 /\ authorised e d i0 (w_heap w) l.
Proof.
  unfold validateGating. destruct (blank (dr_ID d)) eqn:Eb; [discriminate|].
  destruct p as [l|]; [|discriminate]. destruct i as [i|]; [|discriminate].
  destruct (String.eqb_spec (ai_DecisionID i) (dr_ID d)) as [Ed|]; [cbn [negb]|discriminate].
  intros (w1&h&Eh&E)%M_bind_Ok. injection Eh as <- <-.
  apply M_bind_Ok in E as (w2&dg&Edg&E). apply lift_wrap_Ok in Edg as [-> Edg].
  destruct (String.eqb (dr_EffectDigest d) ""); [discriminate|].
  destruct (String.eqb_spec (dr_EffectDigest d) dg) as [E1|]; [cbn [negb] in E|discriminate].
  destruct (String.eqb (ai_EffectDigestHash i) ""); [discriminate|].
  destruct (String.eqb_spec (ai_EffectDigestHash i) dg) as [E2|]; [cbn [negb] in E|discriminate].
  destruct (ex_verifier e) as [v|] eqn:Ev; [|discriminate].
  apply M_bind_Ok in E as (w2&b&Evd&E). apply lift_wrap_Ok in Evd as [-> Evd].
  destruct b; [cbn [negb] in E|discriminate].
  apply M_bind_Ok in E as (w2&[]&Eau&E). apply lift_wrap_Ok in Eau as [-> Eau].
  apply M_bind_Ok in E as (w2&b&Evi&E). apply lift_wrap_Ok in Evi as [-> Evi].
  destruct b; [cbn [negb] in E|discriminate].
  destruct (String.eqb_spec (dr_Verdict d) VerdictAllow) as [Eal|]; [cbn [negb] in E|discriminate].
  apply M_bind_Ok in E as (w2&now&En&E). apply ext_result in En.
  apply M_bind_Ok in E as (w3&[]&Ewin&E). apply lift_wrap_Ok in Ewin as [-> Ewin].
  injection E as _ <-. exists l. split; [done|]. split; [done|].
  split; [done|done|by rewrite Edg, E1|by rewrite E2|by exists v|done|done|by exists (w_ext w), now].
Qed.

(** The safe-deprecation gate let this tool call pass. *)
Definition gate_allowed e (d : DecisionRecord) (i : AuthorizedExecutionIntent) (effect : Effect)
    (tool : string) (result : GateResult) : Prop :=
  exists gate gi x, ex_safeDepGate e = Some gate /\ cloneAuthorizedExecutionIntent i = Ok gi /\
    (gate (gate_request d gi effect tool) x).2 = Ok result /\
    gt_DispatchAllowed result = true /\ validateSafeDepIntentBinding i result = Ok tt.

Lemma safeDep_Ok e d i effect tool w w' result :
  safeDep e d i effect tool w = (w', Ok result) -> gate_allowed e d i effect tool result.
Proof.
  unfold safeDep. destruct (ex_safeDepGate e) as [gate|] eqn:Eg; [|discriminate].
  intros (w1&gi&Ec&E)%M_bind_Ok. apply lift_wrap_Ok in Ec as [-> Ec].
  apply M_bind_Ok in E as (w2&r&Er&E). apply wrapM_Ok in Er.
  apply M_bind_Ok in Er as (w3&r0&Er0&Er). apply ext_result in Er0. injection Er as _ ->.
  destruct (gt_DispatchAllowed r) eqn:Ea; [cbn [negb] in E|discriminate].
  apply M_bind_Ok in E as (w4&[]&Eb&E). apply lift_wrap_Ok in Eb as [-> Eb].
  injection E as _ <-. by exists gate, gi, (w_ext w).
Qed.

(** The events of the outbox around a dispatch. *)
Definition scheduled e (i : AuthorizedExecutionIntent) : list Event :=
  match ex_outboxStore e with None => [] | Some _ => [EvSchedule i] end.
Definition finished e (d : DecisionRecord) : list Event :=
  match ex_outboxStore e with None => [] | Some _ => [EvDone (dr_ID d)] end.


Lemma dispatch_cases e i effect tool w w' r :
  dispatch e i effect tool w = (w', r) ->
  w_heap w' = w_heap w /\
  ((w_trace w' = w_trace w /\ exists err, r = Fail err) \/
   w_trace w' = (w_trace w ++ scheduled e i ++ [EvDispatch tool (ef_Params effect)])%list).
Proof.
  unfold dispatch, scheduled. intros E.
  apply M_bind_cases in E as [(err&E&->)|(w1&[]&E1&E)].
  - destruct (ex_outboxStore e) as [ob|]; [|discriminate].
    apply M_bind_cases in E as [(err'&E&_)|(w2&[]&_&E)]; [|discriminate].
    apply quiet_same in E as [Et Eh]; [|apply quiet_wrap, ext_res_quiet]. eauto.
  - assert (S : w_heap w1 = w_heap w /\
      w_trace w1 = (w_trace w ++ match ex_outboxStore e with None => [] | Some _ => [EvSchedule i] end)%list).
    { destruct (ex_outboxStore e) as [ob|].
      - apply M_bind_Ok in E1 as (w2&[]&E2&E1).
        apply quiet_same in E2 as [Et Eh]; [|apply quiet_wrap, ext_res_quiet].
        injection E1 as <-. cbn. by rewrite Et, Eh.
      - injection E1 as <-. by rewrite app_nil_r. }
    destruct S as [Sh St].
    apply M_bind_cases in E as [(err&E&_)|(w2&[]&E2&E)]; [discriminate E|].
    injection E2 as <-. apply quiet_same in E as [Et Eh]; [|apply ext_res_quiet].
    cbn in Et, Eh. rewrite Eh, Et, St, <-app_assoc. auto.
Qed.

(** A receipt event is emitted exactly with a returned receipt. *)
Definition receipts (r : res Receipt) : list Event :=
  match r with Ok rc => [EvReceipt rc] | Fail _ => [] end.

Definition records {A} (m : M W A) (evs : res A -> list Event) : Prop :=
  forall w w' r, m w = (w', r) -> w_trace w' = (w_trace w ++ evs r)%list.

Lemma records_after {A B} (m : M W A) (f : A -> M W B) evs :
  quiet m -> (forall err, evs (Fail err) = []) -> (forall a, records (f a) evs) ->
  records (m ≫= f) evs.
Proof.
  intros Hm He Hf w w' r E. apply M_bind_cases in E as [(err&E&->)|(w1&a&E1&E)].
  - apply quiet_same in E as [Et _]; [|done]. by rewrite He, app_nil_r.
  - apply quiet_same in E1 as [Et _]; [|done]. rewrite (Hf a _ _ _ E). by rewrite Et.
Qed.

Lemma records_fail {A} err (evs : res A -> list Event) :
  evs (Fail err) = [] -> records (fail err) evs.
Proof. intros He w w' r [= <- <-]. by rewrite He, app_nil_r. Qed.

Lemma records_emit rc : records (_ ← emit (EvReceipt rc); mret rc) receipts.
Proof. intros w w' r [= <- <-]. done. Qed.

Lemma causal_append_records append build : records (causal_append append build) receipts.
Proof.
  unfold causal_append. apply records_after; [apply quiet_ext|done|]. intros out.
  apply records_after; [apply quiet_lift|done|]. intros [].
  destruct (captured _ _); [apply records_emit|by apply records_fail].
Qed.

Lemma legacy_append_records e s build : records (legacy_append e s build) receipts.
Proof.
  unfold legacy_append. destruct (ex_receiptStore e) as [st|].
  - apply records_after; [apply quiet_wrap, ext_res_quiet|done|]. intros prev.
    apply records_after; [quieten|done|]. intros pos.
    apply records_after; [apply quiet_lift|done|]. intros rc.
    apply records_after; [apply quiet_wrap, ext_res_quiet|done|]. intros []. apply records_emit.
  - apply records_after; [apply quiet_lift|done|]. intros rc. apply records_emit.
Qed.

Lemma createReceipt_records e rx d i x t b o g : records (createReceipt e rx d i x t b o g) receipts.
Proof.
  unfold createReceipt. apply records_after; [apply quiet_lift|done|]. intros s.
  apply records_after; [apply quiet_lift|done|]. intros dh.
  apply records_after; [apply quiet_ext|done|]. intros now. cbv zeta.
  destruct (ex_receiptStore e) as [st|]; [|apply legacy_append_records].
  destruct (negb _).
  - destruct (rs_AppendCausalScoped st); [apply causal_append_records|by apply records_fail].
  - destruct (rs_AppendCausal st); [apply causal_append_records|apply legacy_append_records].
Qed.

(** A returned receipt was built for this execution, at some chain position. *)
Lemma captured_built build l rc : captured build l = Some rc -> exists c p, build c p = Ok rc.
Proof.
  unfold captured. intros E%last_Some_elem_of. apply list_elem_of_omap in E as ([c p]&_&E).
  exists c, p. cbn in E. destruct (build c p); [by injection E as ->|discriminate].
Qed.

Lemma causal_append_built append build w w' rc :
  causal_append append build w = (w', Ok rc) -> exists c p, build c p = Ok rc.
Proof.
  unfold causal_append. intros (w1&out&_&(w2&[]&_&E)%M_bind_Ok)%M_bind_Ok.
  destruct (captured build out.1) as [r|] eqn:Ec; [|discriminate].
  injection E as _ <-. by eapply captured_built.
Qed.

Lemma legacy_append_built e s build w w' rc :
  legacy_append e s build w = (w', Ok rc) -> exists c p, build c p = Ok rc.
Proof.
  unfold legacy_append. destruct (ex_receiptStore e) as [st|].
  - intros (w1&prev&_&(w2&pos&_&(w3&r&Er&(w4&[]&_&E)%M_bind_Ok)%M_bind_Ok)%M_bind_Ok)%M_bind_Ok.
    injection E as _ <-. injection Er as _ Er. eauto.
  - intros (w1&r&Er&E)%M_bind_Ok. injection E as _ <-. injection Er as _ Er. eauto.
Qed.

Lemma createReceipt_built e rx d i x t b o g w w' rc :
  createReceipt e rx d i x t b o g w = (w', Ok rc) ->
  exists s dh ts causal c p, receiptSessionID d = Ok s /\ DecisionSemanticHash (Some d) = Ok dh /\
    buildReceipt e rx d i x t b o s dh ts g causal c p = Ok rc.
Proof.
  unfold createReceipt. intros (w1&s&Es&(w2&dh&Ed&(w3&now&_&E)%M_bind_Ok)%M_bind_Ok)%M_bind_Ok.
  injection Es as _ Es. apply lift_wrap_Ok in Ed as [_ Ed]. cbv zeta in E.
  set (ts := match _ with Some f => f now | None => now end) in E.
  exists s, dh, ts.
  assert (G : exists causal c p, buildReceipt e rx d i x t b o s dh ts g causal c p = Ok rc).
  { destruct (ex_receiptStore e) as [st|]; [|exists false; by eapply legacy_append_built].
    destruct (negb _).
    - destruct (rs_AppendCausalScoped st); [|discriminate]. exists true. by eapply causal_append_built.
    - destruct (rs_AppendCausal st); [exists true; by eapply causal_append_built|].
      exists false. by eapply legacy_append_built. }
  destruct G as (causal&c&p&G). by exists causal, c, p.
Qed.

Lemma finalizeExecution_records e d tool :
  records (finalizeExecution e d tool) (fun r => match r with Ok _ => finished e d | Fail _ => [] end).
Proof.
  unfold finalizeExecution, finished. intros w w' r E.
  apply M_bind_cases in E as [(err&E&->)|(w1&[]&E1&E)].
  - destruct (ex_outboxStore e) as [ob|]; [|discriminate].
    apply M_bind_cases in E as [(err'&E&_)|(w2&[]&_&E)]; [|discriminate].
    apply quiet_same in E as [Et _]; [|apply quiet_wrap, ext_res_quiet]. by rewrite Et, app_nil_r.
  - assert (r = Ok tt) as ->.
    { revert E. unfold audit. destruct (ex_AuditLog e) as [append|]; [|by intros [= _ <-]].
      intros [(err&E&_)|(w2&a&_&E)]%M_bind_cases.
      - unfold ext in E. destruct (append _ _ _). discriminate.
      - by injection E as _ <-. }
    apply quiet_same in E as [Et _]; [|apply audit_quiet]. rewrite Et.
    destruct (ex_outboxStore e) as [ob|].
    + apply M_bind_Ok in E1 as (w2&[]&E2&E1).
      apply quiet_same in E2 as [Et2 _]; [|apply quiet_wrap, ext_res_quiet].
      injection E1 as <-. cbn. by rewrite Et2.
    + injection E1 as <-. by rewrite app_nil_r.
Qed.


(** ** One execution *)

Lemma checkOutput_trace e l tool out w w' r :
  checkOutput e l tool out w = (w', r) -> w_trace w' = w_trace w.
Proof.
  unfold checkOutput. destruct (_ ≫= _) as [validate|]; [|by intros [= <- <-]].
  intros [(err&E&_)|(w1&h&E1&E)]%M_bind_cases.
  - by injection E as <-.
  - injection E1 as <- _. by injection E as <-.
Qed.

(** What follows a dispatch in the trace holds no other dispatch. *)
Definition no_dispatch (evs : list Event) : Prop := forall tool params, ~ In (EvDispatch tool params) evs.

(** A receipt built for this execution and signed by the executor's signer. *)
Definition built_for e rx (d : DecisionRecord) (i : AuthorizedExecutionIntent) (effect : Effect)
    (tenantID outputHash : string) (g : GateResult) (rc : Receipt) : Prop :=
  exists blob s dh ts causal c p, receiptSessionID d = Ok s /\ DecisionSemanticHash (Some d) = Ok dh /\
    buildReceipt e rx d i effect tenantID blob outputHash s dh ts g causal c p = Ok rc.

(** The events after the dispatch, and the answer they go with. *)
Inductive aftermath e rx d i effect tenantID g : res (Receipt * Artifact) -> list Event -> Prop :=
| After_failed err : aftermath e rx d i effect tenantID g (Fail err) []
| After_receipt err rc out : built_for e rx d i effect tenantID out g rc ->
    aftermath e rx d i effect tenantID g (Fail err) [EvReceipt rc]
| After_finished rc art r : built_for e rx d i effect tenantID (af_Digest art) g rc ->
    r = Ok (rc, art) \/ (exists err, r = Fail err) ->
    aftermath e rx d i effect tenantID g r (EvReceipt rc :: finished e d).

Lemma aftermath_no_dispatch e rx d i effect tenantID g r evs :
  aftermath e rx d i effect tenantID g r evs -> no_dispatch evs.
Proof.
  intros [err|err rc out _|rc art r' _ _] tool params; unfold finished; cbn.
  - tauto.
  - by intros [?|[]].
  - destruct (ex_outboxStore e); cbn; [by intros [?|[?|[]]]|by intros [?|[]]].
Qed.

(** After the dispatch. *)
Lemma settle_cases e rx d i effect l tenantID blob tool g out w w' r :
  (_ ← checkOutput e l tool out;
   artifact ← storeOutput e out;
   receipt ← wrapM "receipt creation failed: "
               (createReceipt e rx d i effect tenantID blob (af_Digest artifact) g);
   _ ← finalizeExecution e d tool;
   _ ← metering e d tenantID tool;
   mret (receipt, artifact)) w = (w', r) ->
  exists evs, w_trace w' = (w_trace w ++ evs)%list /\ aftermath e rx d i effect tenantID g r evs.
Proof.
  intros [(err&E&->)|(w1&[]&E1&E)]%M_bind_cases.
  { apply checkOutput_trace in E as ->. exists []. rewrite app_nil_r. split; [done|constructor]. }
  apply checkOutput_trace in E1. rewrite <-E1. clear E1.
  apply M_bind_cases in E as [(err&E&->)|(w2&art&E1&E)].
  { apply quiet_same in E as [-> _]; [|apply storeOutput_quiet]. exists [].
    rewrite app_nil_r. split; [done|constructor]. }
  apply quiet_same in E1 as [<- _]; [|apply storeOutput_quiet].
  apply M_bind_cases in E as [(err&E&->)|(w3&rc&E1&E)].
  { apply wrapM_cases in E as ([a|err']&E&?); [discriminate|].
    apply createReceipt_records in E as ->. exists []. split; [done|constructor]. }
  apply wrapM_Ok in E1. pose proof (createReceipt_built _ _ _ _ _ _ _ _ _ _ _ _ E1) as B.
  assert (Bf : built_for e rx d i effect tenantID (af_Digest art) g rc).
  { destruct B as (s&dh&ts&causal&c&p&B). by exists blob, s, dh, ts, causal, c, p. }
  apply createReceipt_records in E1. clear B.
  apply M_bind_cases in E as [(err&E&->)|(w4&[]&E2&E)].
  { apply finalizeExecution_records in E as ->. exists [EvReceipt rc]. rewrite E1, app_nil_r.
    split; [done|by econstructor]. }
  apply finalizeExecution_records in E2. cbn in E1.
  exists (EvReceipt rc :: finished e d).
  assert (T : w_trace w4 = (w_trace w2 ++ EvReceipt rc :: finished e d)%list).
  { by rewrite E2, E1, <-app_assoc. }
  rewrite <-T. clear T E1 E2.
  apply M_bind_cases in E as [(err&E&->)|(w5&[]&E2&E)].
  { apply quiet_same in E as [-> _]; [|apply metering_quiet]. split; [done|]. econstructor; eauto. }
  apply quiet_same in E2 as [<- _]; [|apply metering_quiet]. injection E as <- <-.
  split; [done|]. econstructor; eauto.
Qed.

(** One call of an allowed tool that the gate let pass, framed by the outbox. *)
Definition dispatched e rx d i l tenantID (h : effects) (r : res (Receipt * Artifact)) (evs : list Event)
    : Prop :=
  exists effect tool g tail, h !! l = Some effect /\ resolveTool effect i = Ok tool /\
    gate_allowed e d i effect tool g /\ IsToolAllowed (ex_prohibitedTools e) tool = true /\
    evs = (scheduled e i ++ EvDispatch tool (ef_Params effect) :: tail)%list /\
    aftermath e rx d i effect tenantID g r tail.

Lemma executeOnce_cases e rx d i l tenantID w w' r :
  executeOnce e rx d i l tenantID w = (w', r) ->
  exists evs, w_trace w' = (w_trace w ++ evs)%list /\
    ((evs = [] /\ exists err, r = Fail err) \/ dispatched e rx d i l tenantID (w_heap w) r evs).
Proof.
  unfold executeOnce.
  assert (N : forall err, w_trace w' = w_trace w -> r = Fail err -> exists evs,
    w_trace w' = (w_trace w ++ evs)%list /\
    ((evs = [] /\ exists err, r = Fail err) \/ dispatched e rx d i l tenantID (w_heap w) r evs)).
  { intros err Et Er. exists []. rewrite app_nil_r. eauto. }
  intros [(err&E&Er)|(w1&[]&E1&E)]%M_bind_cases.
  { apply quiet_same in E as [Et _]; [|apply quiet_wrap, preflight_quiet]. eauto. }
  apply quiet_same in E1 as [Et1 Eh1]; [|apply quiet_wrap, preflight_quiet].
  apply M_bind_cases in E as [(err&E&Er)|(w2&blob&E1&E)].
  { apply quiet_same in E as [Et _]; [|apply verifySnapshot_quiet]. rewrite Et1 in Et. eauto. }
  apply quiet_same in E1 as [Et2 Eh2]; [|apply verifySnapshot_quiet].
  rewrite Et1 in Et2. rewrite Eh1 in Eh2. clear Et1 Eh1 w1.
  apply M_bind_cases in E as [(err&E&Er)|(w3&h&E1&E)]; [discriminate|].
  injection E1 as <- <-. rewrite Eh2 in E.
  destruct (w_heap w !! l) as [effect|] eqn:El; [|injection E as <- Er; eauto].
  apply M_bind_cases in E as [(err&E&Er)|(w3&tool&E1&E)].
  { injection E as <- _. eauto. }
  injection E1 as <- Etool.
  apply M_bind_cases in E as [(err&E&Er)|(w3&g&E1&E)].
  { apply quiet_same in E as [Et _]; [|apply safeDep_quiet]. rewrite Et2 in Et. eauto. }
  pose proof (safeDep_Ok _ _ _ _ _ _ _ _ E1) as G.
  apply quiet_same in E1 as [Et3 _]; [|apply safeDep_quiet]. rewrite Et2 in Et3. clear Et2 Eh2 w2.
  destruct (IsToolAllowed (ex_prohibitedTools e) tool) eqn:Ea; cbn [negb] in E.
  2:{ injection E as <- Er. eauto. }
  assert (D : forall evs, w_trace w' = (w_trace w ++ scheduled e i ++
      EvDispatch tool (ef_Params effect) :: evs)%list -> aftermath e rx d i effect tenantID g r evs ->
    exists evs, w_trace w' = (w_trace w ++ evs)%list /\
      ((evs = [] /\ exists err, r = Fail err) \/ dispatched e rx d i l tenantID (w_heap w) r evs)).
  { intros evs Et A. eexists. split; [exact Et|]. right. by exists effect, tool, g, evs. }
  apply M_bind_cases in E as [(err&E&Er)|(w4&out&E1&E)].
  - apply dispatch_cases in E as [_ [[Et _]|Et]]; rewrite Et3 in Et; [eauto|].
    apply (D []); [exact Et|]. subst r. constructor.
  - apply dispatch_cases in E1 as [_ [[_ [err ?]]|Et]]; [discriminate|]. rewrite Et3 in Et.
    apply settle_cases in E as (evs&Et'&A). rewrite Et, <-!app_assoc in Et'. by apply (D evs).
Qed.

(** The tenant an execution runs for, empty when the request has none. *)
Definition tenant_of (rx : Request) : string :=
  match authenticatedTenantID rx with Ok t => t | Fail _ => "" end.

(** [Execute] past its gates reaches the dispatch, or replays a receipt. *)
Lemma Execute_cases e rx effect decision intent w w' r :
  Execute e rx effect decision intent w = (w', r) ->
  exists evs, w_trace w' = (w_trace w ++ evs)%list /\
    ((evs = [] /\
      ((exists err, r = Fail err) \/
       exists d rc x, decision = Some d /\ (checkIdempotency e (tenant_of rx) (dr_ID d) x).2 = Ok (Some rc) /\
         r = Ok (rc, already_executed rc))) \/
     exists d i0 i l x, decision = Some d /\ intent = Some i0 /\ effect = Some l /\
       cloneAuthorizedExecutionIntent i0 = Ok i /\ authorised e d i0 (w_heap w) l /\
       (checkIdempotency e (tenant_of rx) (dr_ID d) x).2 = Ok None /\
       dispatched e rx d i l (tenant_of rx) (w_heap w) r evs).
Proof.
  unfold Execute. intros E.
  set (Goal := exists evs, _).
  assert (N : forall err, w_trace w' = w_trace w -> r = Fail err -> Goal).
  { intros err Et Er. exists []. rewrite app_nil_r. split; [done|]. left. eauto. }
  destruct decision as [d|]; [|injection E as <- <-; by eapply N].
  apply M_bind_cases in E as [(err&E&Er)|(w1&i0&E1&E)].
  { apply quiet_same in E as [Et _]; [by eapply N|apply validateGating_quiet]. }
  pose proof (validateGating_Ok _ _ _ _ _ _ _ E1) as (l&->&->&A).
  apply quiet_same in E1 as [Et1 Eh1]; [|apply validateGating_quiet].
  apply M_bind_cases in E as [(err&E&Er)|(w2&i&E1&E)].
  { injection E as <- _. by eapply N. }
  apply lift_wrap_Ok in E1 as [-> Ec].
  destruct (unscoped e rx) as [err|]; [injection E as <- <-; by eapply N|].
  cbv zeta in E. fold (tenant_of rx) in E. set (t := tenant_of rx) in *.
  apply M_bind_cases in E as [(err&E&Er)|(w2&prior&E1&E)].
  { apply quiet_same in E as [Et _]; [|apply quiet_wrap, checkIdempotency_quiet].
    rewrite Et1 in Et. by eapply N. }
  apply wrapM_Ok in E1.
  assert (P : (checkIdempotency e t (dr_ID d) w1).2 = Ok prior) by (by rewrite E1).
  apply quiet_same in E1 as [Et2 Eh2]; [|apply checkIdempotency_quiet].
  rewrite Et1 in Et2. rewrite Eh1 in Eh2. destruct prior as [rc|].
  - injection E as <- <-. exists []. rewrite app_nil_r. split; [done|]. left. split; [done|].
    right. by exists d, rc, w1.
  - apply executeOnce_cases in E as (evs&Et&C). rewrite Et2 in Et. exists evs. split; [done|].
    destruct C as [[-> Er]|D]; [by left; eauto|]. rewrite Eh2 in D.
    right. by exists d, i0, i, l, w1.
Qed.

(** ** Theorems *)

(** C2. Nothing is dispatched without authority: a run of [Execute] adds to the
    trace either nothing, or exactly one tool call.  In that case the decision
    and the intent passed every gate against the effect on the heap (matching
    ids, both effect digests recomputed, both signatures verified, an ALLOW
    verdict, authority and execution window in force), no receipt existed yet for
    the decision, the intent names the tool, the tool is not prohibited, the
    safe-deprecation gate allowed this request, and the outbox was told first. *)
Theorem execute_dispatch_authorised e rx effect decision intent w w' r :
  Execute e rx effect decision intent w = (w', r) ->
  exists evs, w_trace w' = (w_trace w ++ evs)%list /\
    (evs = [] \/
     exists d i0 i l x tool g tail,
       decision = Some d /\ intent = Some i0 /\ effect = Some l /\
       cloneAuthorizedExecutionIntent i0 = Ok i /\ authorised e d i0 (w_heap w) l /\
       (checkIdempotency e (tenant_of rx) (dr_ID d) x).2 = Ok None /\
       exists ef, w_heap w !! l = Some ef /\ resolveTool ef i = Ok tool /\
         gate_allowed e d i ef tool g /\ IsToolAllowed (ex_prohibitedTools e) tool = true /\
         evs = (scheduled e i ++ EvDispatch tool (ef_Params ef) :: tail)%list /\ no_dispatch tail).
Proof.
  intros E. apply Execute_cases in E as (evs&Et&[[Ev _]|D]); exists evs; (split; [done|]); [by left|].
  right. destruct D as (d&i0&i&l&x&Ed&Ei&El&Ec&A&Ep&D).
  destruct D as (ef&tool&g&tail&Eh&Er&G&Ea&->&Af).
  exists d, i0, i, l, x, tool, g, tail. do 6 (split; [done|]).
  exists ef. do 5 (split; [done|]). by eapply aftermath_no_dispatch.
Qed.

(** A receipt signer keeps what the receipt says: what the executor relies on of
    its signer. *)
Class KeepsFields (sign : Receipt -> res Receipt) : Prop :=
  sign_keeps r r' : sign r = Ok r' -> signed_fields r' = signed_fields r.

Definition honest_signer e : Prop :=
  match ex_signer e with None => True | Some sign => KeepsFields sign end.

Lemma buildReceipt_fields e rx d i effect t blob out s dh ts g causal c p rc :
  honest_signer e ->
  buildReceipt e rx d i effect t blob out s dh ts g causal c p = Ok rc ->
  signed_fields rc =
    [ReceiptIDForDecision t (dr_ID d); dr_ID d; ef_EffectID effect; "SUCCESS"; out; p;
     ef_ArgsHash effect; dr_Verdict d; dr_ReasonCode d; dr_PolicyContentHash d; s].
Proof.
  unfold buildReceipt, honest_signer. cbv zeta. destruct (ex_signer e) as [sign|]; intros Hk E.
  - apply wrap_err_Ok in E. rewrite (Hk _ _ E). reflexivity.
  - injection E as <-. reflexivity.
Qed.

(** C7. Success means receipted.  When [Execute] answers without an error,
    either the decision had already been executed, nothing is dispatched and the
    stored receipt comes back, or the trace grew by exactly: the outbox entry,
    one dispatch, the returned receipt, the outbox completion.  That receipt
    names the tenant-scoped id, the decision, the effect with its arguments hash,
    the digest of the returned artifact, an ALLOW verdict with the decision's
    reason and policy, and the session. *)
Theorem execute_success_receipted e rx effect decision intent w w' rc art :
  honest_signer e ->
  Execute e rx effect decision intent w = (w', Ok (rc, art)) ->
  exists d, decision = Some d /\
    ((w_trace w' = w_trace w /\ art = already_executed rc /\
      exists x, (checkIdempotency e (tenant_of rx) (dr_ID d) x).2 = Ok (Some rc)) \/
     exists l ef i tool s (p : string),
       effect = Some l /\ w_heap w !! l = Some ef /\ receiptSessionID d = Ok s /\
       w_trace w' = (w_trace w ++ scheduled e i ++
         EvDispatch tool (ef_Params ef) :: EvReceipt rc :: finished e d)%list /\
       signed_fields rc =
         ([ReceiptIDForDecision (tenant_of rx) (dr_ID d); dr_ID d; ef_EffectID ef; "SUCCESS";
           af_Digest art; p; ef_ArgsHash ef; (VerdictAllow : string); dr_ReasonCode d; dr_PolicyContentHash d; s]
          : list string)).
Proof.
  intros Hk E. apply Execute_cases in E as (evs&Et&[[-> C]|D]).
  - rewrite app_nil_r in Et. destruct C as [[err ?]|(d&rc'&x&->&P&[= <- ->])]; [done|].
    exists d. split; [done|]. left. eauto.
  - destruct D as (d&i0&i&l&x&->&_&->&_&A&_&ef&tool&g&tail&Eh&_&_&_&->&Af).
    exists d. split; [done|]. right.
    inversion Af as [| |rc' art' r' B Er]; subst. destruct Er as [[= <- <-]|[err ?]]; [|done].
    destruct B as (blob&s&dh&ts&causal&c&p&Es&_&B).
    exists l, ef, i, tool, s, p. do 4 (split; [done|]).
    rewrite (buildReceipt_fields _ _ _ _ _ _ _ _ _ _ _ _ _ _ _ _ Hk B). by rewrite (au_allow _ _ _ _ _ A).
Qed.

(** The emergency binding is exact: the executor accepts a safe-deprecation
    result for an intent exactly when neither carries an emergency, or the intent
    carries all three signed emergency fields, the gate reports degraded narrowing
    with an activation receipt, and the activation, the delegation session and the
    scope hash are those of the intent. *)
Theorem safedep_binding_exact i g :
  validateSafeDepIntentBinding i g = Ok tt <->
  (has_signed_binding i = false /\ has_runtime_activation g = false) \/
  (exists a, gt_ActivationReceipt g = Some a /\
     hc_State (gt_Classification g) = SafeDepDegradedNarrowing /\
     ai_EmergencyActivationID i = ar_ActivationID a /\ blank (ar_ActivationID a) = false /\
     ai_EmergencyDelegationSessionID i = ar_DelegationSessionID a /\
     blank (ar_DelegationSessionID a) = false /\
     ai_EmergencyScopeHash i = gt_EmergencyScopeHash g /\ blank (gt_EmergencyScopeHash g) = false).
Proof.
  unfold validateSafeDepIntentBinding.
  destruct (has_signed_binding i) eqn:Es; cbn [negb andb].
  2:{ destruct (has_runtime_activation g) eqn:Er; cbn [negb]; [|naive_solver]. split; [done|].
      intros [[_ ?]|(a&_&_&E&B&_)]; [done|]. exfalso. revert Es. unfold has_signed_binding.
      rewrite E. destruct (String.eqb_spec (ar_ActivationID a) "") as [E0|]; [by rewrite E0 in B|done]. }
  destruct (blank (ai_EmergencyActivationID i)) eqn:B1,
    (blank (ai_EmergencyDelegationSessionID i)) eqn:B2, (blank (ai_EmergencyScopeHash i)) eqn:B3;
    cbn [orb]; try (split; [done|intros [[? _]|(a&_&_&E1&?&E2&?&E3&?)]; congruence]).
  destruct (String.eqb_spec (hc_State (gt_Classification g)) SafeDepDegradedNarrowing) as [Eh|];
    cbn [negb]; [|naive_solver].
  destruct (gt_ActivationReceipt g) as [a|] eqn:Ea; [|naive_solver].
  destruct (blank (ar_ActivationID a)) eqn:C1, (blank (ar_DelegationSessionID a)) eqn:C2,
    (blank (gt_EmergencyScopeHash g)) eqn:C3;
    cbn [orb]; try (split; [done|intros [[? _]|(a'&[= <-]&_&E1&?&E2&?&E3&?)]; congruence]).
  repeat case_match; boolean; naive_solver.
Qed.

Lemma sized_text_inj s t x y :
  (dec (slen s) +:+ ":" +:+ s +:+ x)%string = (dec (slen t) +:+ ":" +:+ t +:+ y)%string ->
  s = t /\ x = y.
Proof.
  intros E. apply (f_equal to_bytes) in E. rewrite !to_bytes_app in E.
  assert (N : forall z, forallb num_char (to_bytes (dec z)) = true).
  { intros z. pose proof (dec_num_literal z) as L. unfold num_literal in L. by boolean. }
  apply (app_sep_inj num_char) in E as [Ed E]; [|apply N|apply N|reflexivity].
  apply to_bytes_inj, dec_inj in Ed.
  assert (length (to_bytes s) = length (to_bytes t)) as L by (unfold slen in Ed; lia).
  apply app_inj_1 in E as [E1 E2]; [|done]. split; by apply to_bytes_inj.
Qed.

(** Receipt ids keep tenants apart: under two authenticated tenants equal
    receipt ids mean the same tenant and the same decision, unless two different
    texts hash alike. *)
Theorem receipt_id_injective t1 t2 d1 d2 :
  blank t1 = false -> blank t2 = false ->
  ReceiptIDForDecision t1 d1 = ReceiptIDForDecision t2 d2 ->
  (trim_space t1 = trim_space t2 /\ d1 = d2) \/ collision.
Proof.
  unfold ReceiptIDForDecision, blank. cbv zeta. intros -> -> E.
  injection E as E%hex_encode_inj.
  match type of E with sha256 ?p1 = sha256 ?p2 =>
    destruct (decide (p1 = p2)) as [Ep|]; [left|right; by exists p1, p2] end.
  apply to_bytes_inj, sized_text_inj in Ep as [-> Ep]. split; [done|].
  assert (U : forall x, x +:+ "" = x) by (intros x; apply to_bytes_inj; by rewrite to_bytes_app, app_nil_r).
  rewrite <-(U d1), <-(U d2) in Ep at 2. by apply sized_text_inj in Ep as [-> _].
Qed.

(** The safe-deprecation request is read from a field no signature covers:
    dropping the decision's input context changes nothing the gates check, and
    for an intent without emergency fields the controller's gate then passes,
    whatever hazard the context carried. *)
Theorem unsigned_context_disarms_safedep `{Ed25519} e (s : Ed25519Signer) (c : Controller.Controller Ext)
    d i i' p w :
  ex_verifier e = Some {| vf_VerifyDecision := ed_VerifyDecision s; vf_VerifyIntent := ed_VerifyIntent s |} ->
  ex_safeDepGate e = Some (Controller.Gate (Some c) None) ->
  cloneAuthorizedExecutionIntent i = Ok i' -> has_signed_binding i = false ->
  let d' := d <| dr_InputContext := None |> in
  validateGating e d' (Some i) p w = validateGating e d (Some i) p w /\
  forall ef tool, safeDep e d' i ef tool w = (w, Ok (no_result <| gt_DispatchAllowed := true |>)).
Proof.
  intros Ev Eg Ec Es d'. split; [unfold validateGating; rewrite Ev; reflexivity|].
  intros ef tool. unfold safeDep. rewrite Eg, Ec.
  assert (G : forall x, Controller.Gate (Some c) None (gate_request d' i' ef tool) x
    = (x, Ok (no_result <| gt_DispatchAllowed := true |>))) by reflexivity.
  destruct w as [x h t]. unfold mbind, M_bind, lift, wrapM, ext_res, ext, wrap_err, mbind, M_bind, lift.
  cbn [w_ext w_heap w_trace]. rewrite G. unfold validateSafeDepIntentBinding. rewrite Es. reflexivity.
Qed.

End Executor.
