(* ===== verification/ProofGraph.v ===== *)
(** The proof graph, [core/pkg/proofgraph] (node.go, graph.go, store.go,
    condensation.go) and its replication, [core/pkg/proofgraph/crdt] (gset.go,
    sync.go, store.go): a hash-linked graph of evidence nodes, its validation,
    traversal and range queries, and a grow-only set of nodes that replicas
    exchange by gossip.

    A [json.RawMessage] is the size of its text and the value the text denotes,
    absent when it is not JSON.  Nodes are values: [SetSignature] on a node that
    is already in a graph, which the code's comments reserve for construction, is
    not modelled.  A panic is an error whose text starts with [panic].  The
    iteration order of a Go map is that of [map_to_list]; no theorem depends on
    it. *)
From Stdlib Require Import Ascii.
From S2P Require Import Prelude GoLib GoFmt Utf8 Jcs Contracts Signing Receipts Translog.

Local Open Scope string_scope.

(** * Nodes (node.go) *)

Inductive RawMessage :=
| RawNil
| RawText (size : N) (value : option json).

Definition raw_size (r : RawMessage) : N := match r with RawNil => 0 | RawText n _ => n end.

(** [json.Marshal] of a raw message: nil is [null], text must be JSON. *)
Definition json_of_raw (r : RawMessage) : res json :=
  match r with
  | RawNil => Ok JNull
  | RawText _ (Some j) => Ok j
  | RawText _ None => Fail "json: error calling MarshalJSON for type json.RawMessage"
  end.

(** A slice that may be nil. *)
Definition json_of_strings (l : option (list string)) : json :=
  match l with None => JNull | Some l => JArr (map JStr l) end.

Record Node := {
  n_NodeHash : string;
  n_Kind : string;
  n_Parents : option (list string);
  n_Lamport : Z;
  n_Principal : string;
  n_PrincipalSeq : Z;
  n_Payload : RawMessage;
  n_Sig : string;
  n_SigPurpose : string;
  n_Timestamp : Z;
}.
#[export] Instance Node_eta : Eta Node := fun n => {|
  n_NodeHash := n_NodeHash n; n_Kind := n_Kind n; n_Parents := n_Parents n; n_Lamport := n_Lamport n;
  n_Principal := n_Principal n; n_PrincipalSeq := n_PrincipalSeq n; n_Payload := n_Payload n;
  n_Sig := n_Sig n; n_SigPurpose := n_SigPurpose n; n_Timestamp := n_Timestamp n |}.

Definition parents (n : Node) : list string := default [] (n_Parents n).

Definition SignaturePurposeAuthor := "author".
Definition SignaturePurposeWitness := "witness".
Definition SignaturePurposeCountersign := "countersign".
Definition SignaturePurposeAudit := "audit".

Definition ValidateSignaturePurpose (purpose : string) : res unit :=
  if existsb (String.eqb purpose) [SignaturePurposeAuthor; SignaturePurposeWitness;
       SignaturePurposeCountersign; SignaturePurposeAudit] then Ok tt
  else Fail ("proofgraph: invalid signature purpose " +:+ goq purpose).

(** The members of [NodeJCS]. *)
Definition node_members (n : Node) (payload : json) : list (string * json) :=
  ([("kind", JStr (n_Kind n)); ("parents", json_of_strings (n_Parents n));
    ("lamport", JNum (dec (n_Lamport n))); ("principal", JStr (n_Principal n));
    ("principal_seq", JNum (dec (n_PrincipalSeq n))); ("payload", payload); ("sig", JStr (n_Sig n))]
   ++ if String.eqb (n_SigPurpose n) "" then [] else [("sig_purpose", JStr (n_SigPurpose n))])%list.

Section Nodes.
Context `{Hash}.

Definition ComputeNodeHashE (n : Node) : res string :=
  data ← wrap_err "JCS canonicalization failed: "
           (payload ← json_of_raw (n_Payload n); JCS (JObj (node_members n payload)));
  Ok (hex_encode (sha256 data)).

Definition ComputeNodeHash (n : Node) : res string :=
  wrap_err "panic: proofgraph: node hash computation failed: " (ComputeNodeHashE n).

Definition lower_hex (c : ascii) : bool :=
  ((48 <=? bz c)%Z && (bz c <=? 57)%Z) || ((97 <=? bz c)%Z && (bz c <=? 102)%Z).

Definition validateNodeHashRef (field ref : string) : res unit :=
  let err := "proofgraph: invalid " +:+ field +:+ " ref " +:+ goq ref
             +:+ ": expected 64 lowercase hex characters" in
  if negb (Nat.eqb (length (to_bytes ref)) (2 * HashSize)) then Fail err
  else if forallb lower_hex (to_bytes ref) then Ok tt else Fail err.

Definition validateSignaturePurpose (n : Node) : res unit :=
  if String.eqb (n_Sig n) "" || String.eqb (n_SigPurpose n) "" then Ok tt
  else ValidateSignaturePurpose (n_SigPurpose n).

Fixpoint validate_refs (l : list string) : res unit :=
  match l with
  | [] => Ok tt
  | p :: l' => _ ← validateNodeHashRef "parents" p; validate_refs l'
  end.

Definition Validate (n : Node) : res unit :=
  _ ← validateSignaturePurpose n;
  _ ← validateNodeHashRef "node_hash" (n_NodeHash n);
  _ ← validate_refs (parents n);
  expected ← ComputeNodeHash n;
  if negb (String.eqb (n_NodeHash n) expected) then
    Fail ("node hash mismatch: got " +:+ n_NodeHash n +:+ ", want " +:+ expected)
  else Ok tt.

(** The node a successful call leaves behind. *)
Definition SetSignature (signature purpose : string) (n : Node) : res Node :=
  if String.eqb signature "" then Fail "proofgraph: signature is required"
  else
    _ ← ValidateSignaturePurpose purpose;
    let n := n <| n_Sig := signature |> <| n_SigPurpose := purpose |> in
    h ← ComputeNodeHash n;
    Ok (n <| n_NodeHash := h |>).

Definition MaxPayloadSize : N := 1048576.

Definition NewNode (kind : string) (parents : option (list string)) (payload : RawMessage) (lamport : Z)
    (principal : string) (principalSeq : Z) (now : time) : res Node :=
  if (MaxPayloadSize <? raw_size payload)%N then
    Fail ("panic: proofgraph: payload size " +:+ dec (Z.of_N (raw_size payload)) +:+ " exceeds maximum "
          +:+ dec (Z.of_N MaxPayloadSize))
  else match payload with
  | RawText (Npos _) None => Fail "panic: proofgraph: payload is not valid JSON"
  | _ =>
      let n := {| n_NodeHash := ""; n_Kind := kind; n_Parents := parents; n_Lamport := lamport;
                  n_Principal := principal; n_PrincipalSeq := principalSeq; n_Payload := payload;
                  n_Sig := ""; n_SigPurpose := ""; n_Timestamp := (now / 1000000)%Z |} in
      h ← ComputeNodeHash n;
      Ok (n <| n_NodeHash := h |>)
  end.

(** * The graph (graph.go) *)

Record Graph := {
  g_nodes : gmap string Node;
  g_heads : option (list string);
  g_lamport : Z;
}.

Definition NewGraph : Graph := {| g_nodes := ∅; g_heads := None; g_lamport := 0 |}.

(** [lamport++] and [lamport--] on a [uint64]. *)
Definition tick (z : Z) : Z := ((z + 1) mod 18446744073709551616)%Z.
Definition untick (z : Z) : Z := ((z - 1) mod 18446744073709551616)%Z.

(** [nodes[n.NodeHash] = n; heads = []string{n.NodeHash}] *)
Definition install (n : Node) (lamport : Z) (g : Graph) : Graph := {|
  g_nodes := <[n_NodeHash n := n]> (g_nodes g); g_heads := Some [n_NodeHash n]; g_lamport := lamport |}.

Definition with_lamport (lamport : Z) (g : Graph) : Graph := {|
  g_nodes := g_nodes g; g_heads := g_heads g; g_lamport := lamport |}.

Definition Append (kind : string) (payload : RawMessage) (principal : string) (seq : Z) (now : time)
    : M Graph Node := fun g =>
  let lamport := tick (g_lamport g) in
  match NewNode kind (g_heads g) payload lamport principal seq now with
  | Fail e => (with_lamport lamport g, Fail e)
  | Ok node => (install node lamport g, Ok node)
  end.

(** [SetSignature] fails only by an error it returns: it hashes the payload that
    [NewNode] could hash. *)
Definition AppendSignedWithPurpose (kind : string) (payload : RawMessage) (signature purpose principal : string)
    (seq : Z) (now : time) : M Graph Node := fun g =>
  match ValidateSignaturePurpose purpose with
  | Fail e => (g, Fail e)
  | Ok _ =>
      let lamport := tick (g_lamport g) in
      match NewNode kind (g_heads g) payload lamport principal seq now with
      | Fail e => (with_lamport lamport g, Fail e)
      | Ok node =>
          match SetSignature signature purpose node with
          | Fail e => (with_lamport (untick lamport) g, Fail e)
          | Ok node => (install node lamport g, Ok node)
          end
      end
  end.

Definition AppendSigned (kind : string) (payload : RawMessage) (signature principal : string) (seq : Z)
    (now : time) : M Graph Node :=
  AppendSignedWithPurpose kind payload signature SignaturePurposeAuthor principal seq now.

Definition Get (id : string) (g : Graph) : option Node := g_nodes g !! id.
Definition Heads (g : Graph) : list string := default [] (g_heads g).
Definition LamportClock (g : Graph) : Z := g_lamport g.
Definition Len (g : Graph) : nat := size (g_nodes g).
Definition AllNodes (g : Graph) : list Node := (map_to_list (g_nodes g)).*2.

(** The loop over the parents, with the recursive call as an argument. *)
Fixpoint walk_parents (walk : string -> gset string -> gset string * res unit) (l : list string)
    (visited : gset string) : gset string * res unit :=
  match l with
  | [] => (visited, Ok tt)
  | pid :: l' => match walk pid visited with
                 | (visited, Ok _) => walk_parents walk l' visited
                 | r => r
                 end
  end.

Fixpoint walkValidate (fuel : nat) (nodes : gmap string Node) (nodeID : string) (visited : gset string)
    : gset string * res unit :=
  match fuel with
  | O => (visited, Fail err_fuel)
  | S fuel' =>
      if bool_decide (nodeID ∈ visited) then (visited, Ok tt)
      else
        let visited := {[nodeID]} ∪ visited in
        match nodes !! nodeID with
        | None => (visited, Fail ("node " +:+ nodeID +:+ " not found"))
        | Some node =>
            match Validate node with
            | Fail e => (visited, Fail e)
            | Ok _ => walk_parents (walkValidate fuel' nodes) (parents node) visited
            end
        end
  end.

(** Enough calls: below a call that goes on, one more node is visited. *)
Definition walk_fuel (nodes : gmap string Node) : nat := S (S (size nodes)).

Definition ValidateChain (nodeID : string) (g : Graph) : res unit :=
  (walkValidate (walk_fuel (g_nodes g)) (g_nodes g) nodeID ∅).2.
End Nodes.

(** * Stores (store.go, crdt/store.go) *)

Definition in_range (from to : Z) (n : Node) : bool := ((from <=? n_Lamport n) && (n_Lamport n <=? to))%Z.

Section Stores.
Implicit Type nodes : gmap string Node.

(** [StoreNode] of the in-memory store: the node is taken as it is. *)
Definition StoreNode (node : Node) (g : Graph) : Graph :=
  install node (if (g_lamport g <? n_Lamport node)%Z then n_Lamport node else g_lamport g) g.

Definition GetNode (id : string) nodes : res Node :=
  match nodes !! id with Some n => Ok n | None => Fail ("node " +:+ id +:+ " not found") end.

Definition GetNodesByType (kind : string) (from to : Z) nodes : list Node :=
  List.filter (fun n => String.eqb (n_Kind n) kind && in_range from to n) (map_to_list nodes).*2.

Definition GetRange (from to : Z) nodes : list Node :=
  List.filter (in_range from to) (map_to_list nodes).*2.

(** The queue of [GetChain]; [None] when the rounds do not suffice. *)
Fixpoint chain_loop (fuel : nat) nodes (queue : list string) (visited : gset string) : option (list Node) :=
  match queue with
  | [] => Some []
  | id :: queue =>
      match fuel with
      | O => None
      | S fuel' =>
          if bool_decide (id ∈ visited) then chain_loop fuel' nodes queue visited
          else
            let visited := {[id]} ∪ visited in
            match nodes !! id with
            | None => chain_loop fuel' nodes queue visited
            | Some n => chain ← chain_loop fuel' nodes (queue ++ parents n)%list visited; Some (n :: chain)
            end
      end
  end.

(** One round per id that is ever queued. *)
Definition chain_fuel nodes : nat := S (sum_list_with (fun n => length (parents n)) (map_to_list nodes).*2).

Definition GetChain (nodeID : string) nodes : option (list Node) :=
  chain_loop (chain_fuel nodes) nodes [nodeID] ∅.
End Stores.

(** * The grow-only set (crdt/gset.go) *)

Section Sets.
Context `{Hash}.

Abbreviation GSet := (gmap string Node).
Implicit Type s : GSet.

Definition NewGSet : GSet := ∅.

Definition Add (node : Node) : M GSet unit := fun s =>
  match wrap_err "crdt: hash computation failed: " (ComputeNodeHashE node) with
  | Fail e => (s, Fail e)
  | Ok expected =>
      if negb (String.eqb (n_NodeHash node) expected) then
        (s, Fail ("crdt: node hash mismatch: got " +:+ n_NodeHash node +:+ ", want " +:+ expected))
      else match s !! n_NodeHash node with
      | Some _ => (s, Ok tt)
      | None => (<[n_NodeHash node := node]> s, Ok tt)
      end
  end.

Definition Contains (nodeHash : string) s : bool := bool_decide (is_Some (s !! nodeHash)).
Definition All s : list Node := (map_to_list s).*2.
Definition Hashes s : list string := (map_to_list s).*1.

(** Adds the nodes that are missing, and reports them. *)
Fixpoint merge_nodes (l : list Node) s : GSet * list Node :=
  match l with
  | [] => (s, [])
  | n :: l' => match s !! n_NodeHash n with
               | Some _ => merge_nodes l' s
               | None => let '(s', added) := merge_nodes l' (<[n_NodeHash n := n]> s) in (s', n :: added)
               end
  end.

Definition Merge (other s : GSet) : GSet * list Node := merge_nodes (All other) s.

Definition Delta (otherHashes : gset string) s : list Node :=
  omap (fun kv => if bool_decide (kv.1 ∈ otherHashes) then None else Some kv.2) (map_to_list s).

(** * Gossip (crdt/sync.go) *)

Inductive SyncMessageType := SyncDigest | SyncPush | SyncPull | SyncOther (text : string).

Record SyncMessage := {
  sm_SenderID : string;
  sm_MessageType : SyncMessageType;
  sm_Hashes : list string;
  sm_Nodes : list Node;
  sm_Timestamp : time;
}.

(** A participant: its set, and what it has handed to the transport. *)
Record Peer := { p_nodeID : string; p_gset : GSet; p_sent : list (string * SyncMessage) }.

(** What the transport answers to a [Send], and the clock of the participant. *)
Record Transport := {
  tr_send : string -> SyncMessage -> res unit;
  tr_peers : list string;
  tr_clock : time;
}.

Definition Send (tr : Transport) (peerID : string) (msg : SyncMessage) : M Peer unit := fun p =>
  match tr_send tr peerID msg with
  | Fail e => (p, Fail e)
  | Ok _ => ({| p_nodeID := p_nodeID p; p_gset := p_gset p; p_sent := (p_sent p ++ [(peerID, msg)])%list |}, Ok tt)
  end.

Definition on_set {A} (f : M GSet A) : M Peer A := fun p =>
  let '(s, r) := f (p_gset p) in
  ({| p_nodeID := p_nodeID p; p_gset := s; p_sent := p_sent p |}, r).

Definition handleDigest (tr : Transport) (msg : SyncMessage) : M Peer (option SyncMessage) :=
  p ← get;
  let nodesToPush := Delta (list_to_set (sm_Hashes msg)) (p_gset p) in
  let hashesToPull := List.filter (fun h => negb (Contains h (p_gset p))) (sm_Hashes msg) in
  _ ← match nodesToPush with
      | [] => mret tt
      | _ => Send tr (sm_SenderID msg)
               {| sm_SenderID := p_nodeID p; sm_MessageType := SyncPush; sm_Hashes := [];
                  sm_Nodes := nodesToPush; sm_Timestamp := tr_clock tr |}
      end;
  mret (match hashesToPull with
        | [] => None
        | _ => Some {| sm_SenderID := p_nodeID p; sm_MessageType := SyncPull; sm_Hashes := hashesToPull;
                       sm_Nodes := []; sm_Timestamp := tr_clock tr |}
        end).

(** Nodes that do not verify are logged and skipped. *)
Fixpoint add_all (l : list Node) : M Peer unit :=
  match l with
  | [] => mret tt
  | n :: l' => _ ← attempt (on_set (Add n)); add_all l'
  end.

Definition handlePush (msg : SyncMessage) : M Peer (option SyncMessage) :=
  _ ← add_all (sm_Nodes msg); mret None.

Definition handlePull (tr : Transport) (msg : SyncMessage) : M Peer (option SyncMessage) :=
  p ← get;
  match omap (fun h => p_gset p !! h) (sm_Hashes msg) with
  | [] => mret None
  | nodes =>
      _ ← Send tr (sm_SenderID msg)
            {| sm_SenderID := p_nodeID p; sm_MessageType := SyncPush; sm_Hashes := [];
               sm_Nodes := nodes; sm_Timestamp := tr_clock tr |};
      mret None
  end.

Definition HandleMessage (tr : Transport) (msg : SyncMessage) : M Peer (option SyncMessage) :=
  match sm_MessageType msg with
  | SyncDigest => handleDigest tr msg
  | SyncPush => handlePush msg
  | SyncPull => handlePull tr msg
  | SyncOther _ => mret None
  end.

(** One round of [receiveLoop]. *)
Definition receive (tr : Transport) (msg : SyncMessage) : M Peer unit :=
  r ← attempt (HandleMessage tr msg);
  match r with
  | Ok (Some resp) => _ ← attempt (Send tr (sm_SenderID msg) resp); mret tt
  | _ => mret tt
  end.

(** [draw] is the random index. *)
Definition gossipOnce (tr : Transport) (draw : nat) : M Peer unit :=
  match tr_peers tr !! draw with
  | None => mret tt
  | Some peer =>
      p ← get;
      _ ← attempt (Send tr peer {| sm_SenderID := p_nodeID p; sm_MessageType := SyncDigest;
                                   sm_Hashes := Hashes (p_gset p); sm_Nodes := [];
                                   sm_Timestamp := tr_clock tr |});
      mret tt
  end.
End Sets.

(** * Condensation (condensation.go) *)

Section Condense.
Context `{Hash}.

Definition receipt_text (r : Receipt) : string :=
  rc_ReceiptID r +:+ "|" +:+ rc_DecisionID r +:+ "|" +:+ rc_EffectID r +:+ "|" +:+ rc_Status r
  +:+ "|" +:+ rc_PrevHash r.

Definition hash_text (s : string) : string := hex_encode (sha256 (to_bytes s)).

Definition sort_strings (l : list string) : list string :=
  (sort_by string_lt (map (fun s => (s, tt)) l)).*1.

Fixpoint next_level (l : list string) : list string :=
  match l with
  | [] => []
  | [a] => [hash_text (a +:+ a)]
  | a :: b :: l' => hash_text (a +:+ b) :: next_level l'
  end.

(** [None] when the rounds do not suffice. *)
Fixpoint buildTree (fuel : nat) (hashes : list string) : option string :=
  match hashes with
  | [] => Some ""
  | [h] => Some h
  | _ => match fuel with O => None | S fuel' => buildTree fuel' (next_level hashes) end
  end.

Definition Condense (receipts : list Receipt) : option string :=
  match receipts with
  | [] => Some ""
  | _ => buildTree (length receipts) (sort_strings (map (fun r => hash_text (receipt_text r)) receipts))
  end.
End Condense.

(** * Validation is exact *)

Section Walk.
Context `{Hash}.
Context (nodes : gmap string Node).

(** Following parent links. *)
Inductive reaches : string -> string -> Prop :=
| reaches_refl x : reaches x x
| reaches_step x n p y : nodes !! x = Some n -> p ∈ parents n -> reaches p y -> reaches x y.

(** A node is present under the id and validates. *)
Definition sound_at (x : string) : Prop := exists n, nodes !! x = Some n /\ Validate n = Ok tt.

(** [x] was checked and its parents are among the visited. *)
Definition checked (v : gset string) (x : string) : Prop :=
  exists n, nodes !! x = Some n /\ Validate n = Ok tt /\ forall p, p ∈ parents n -> p ∈ v.

Lemma reaches_trans x y z : reaches x y -> reaches y z -> reaches x z.
Proof. induction 1; [done|]. intros. econstructor; eauto. Qed.

Lemma checked_mono v v' x : v ⊆ v' -> checked v x -> checked v' x.
Proof. intros Hv (n&E&V&P). exists n. split; [done|]. split; [done|]. set_solver. Qed.

(** What a walk from the ids [ids] has done between [v] and [v']. *)
Definition walked (ids : list string) (v v' : gset string) (r : res unit) : Prop :=
  v ⊆ v' /\ (r = Ok tt -> (forall id, id ∈ ids -> id ∈ v') /\ forall x, x ∈ v' -> x ∉ v -> checked v' x).

Lemma walk_parents_walked walk l v v' r :
  (forall id v v' r, walk id v = (v', r) -> walked [id] v v' r) ->
  walk_parents walk l v = (v', r) -> walked l v v' r.
Proof.
  intros Hw. revert v. induction l as [|pid l IH]; intros v E; cbn in E.
  { injection E as <- <-. split; [done|]. split; [set_solver|done]. }
  destruct (walk pid v) as [v1 [[]|e]] eqn:E1.
  - apply Hw in E1 as [S1 O1]. destruct (O1 eq_refl) as [I1 C1]. apply IH in E as [S2 O2].
    split; [set_solver|]. intros ->. destruct (O2 eq_refl) as [I2 C2]. split; [set_solver|].
    intros x Hx Hn. destruct (decide (x ∈ v1)) as [|]; [|by apply C2].
    apply (checked_mono v1); [done|]. by apply C1.
  - injection E as <- <-. apply Hw in E1 as [S1 _]. by split.
Qed.

Lemma walkValidate_walked fuel id v v' r :
  walkValidate fuel nodes id v = (v', r) -> walked [id] v v' r.
Proof.
  revert id v v' r. induction fuel as [|fuel IH]; intros id v v' r E; cbn in E.
  { injection E as <- <-. by split. }
  case_bool_decide as Hid. { injection E as <- <-. split; [done|]. set_solver. }
  destruct (nodes !! id) as [n|] eqn:En; [|injection E as <- <-; split; [set_solver|done]].
  destruct (Validate n) as [[]|e] eqn:Ev; [|injection E as <- <-; split; [set_solver|done]].
  apply walk_parents_walked in E as [S O]; [|done]. split; [set_solver|].
  intros ->. destruct (O eq_refl) as [I C]. split; [set_solver|].
  intros x Hx Hn. destruct (decide (x = id)) as [->|]; [by exists n|]. apply C; set_solver.
Qed.

(** A set of checked ids holds everything they reach. *)
Lemma checked_closed v x y :
  (forall z, z ∈ v -> checked v z) -> reaches x y -> x ∈ v -> y ∈ v.
Proof.
  intros Hv R. induction R as [x|x n p y En Hp R IH]; [done|]. intros Hx. apply IH.
  destruct (Hv x Hx) as (n'&En'&_&Hp'). rewrite En in En'. injection En' as <-. by apply Hp'.
Qed.

Lemma unvisited_size (id : string) (v : gset string) n :
  nodes !! id = Some n -> id ∉ v -> (size (dom nodes ∖ ({[id]} ∪ v)) < size (dom nodes ∖ v))%nat.
Proof.
  intros En Hid. apply subset_size. assert (id ∈ dom nodes) by (by eapply elem_of_dom_2). set_solver.
Qed.

Lemma walkValidate_total fuel id v :
  (forall x, reaches id x -> sound_at x) -> (size (dom nodes ∖ v) < fuel)%nat ->
  (walkValidate fuel nodes id v).2 = Ok tt.
Proof.
  revert id v. induction fuel as [|fuel IH]; intros id v Hs Hf; [lia|]. cbn.
  case_bool_decide as Hid; [done|].
  destruct (Hs id (reaches_refl id)) as (n&En&Ev). rewrite En, Ev.
  pose proof (unvisited_size id v n En Hid) as Hlt.
  assert (Hp : forall p, p ∈ parents n -> forall x, reaches p x -> sound_at x).
  { intros p Hp x R. apply Hs. by econstructor. }
  assert (Hv : (size (dom nodes ∖ ({[id]} ∪ v)) < fuel)%nat) by lia.
  clear Hlt Hs Ev En Hid. revert Hv. generalize ({[id]} ∪ v : gset string) as u.
  induction (parents n) as [|p l IHl]; intros u Hu; cbn; [done|].
  pose proof (IH p u (Hp p ltac:(set_solver)) Hu) as E.
  destruct (walkValidate fuel nodes p u) as [u' r] eqn:Ew. cbn in E. subst r.
  apply walkValidate_walked in Ew as [Su _]. apply IHl; [set_solver|].
  assert (size (dom nodes ∖ u') <= size (dom nodes ∖ u))%nat by (apply subseteq_size; set_solver). lia.
Qed.
End Walk.

Lemma validate_chain_spec `{Hash} id g :
  ValidateChain id g = Ok tt <-> forall x, reaches (g_nodes g) id x -> sound_at (g_nodes g) x.
Proof.
  unfold ValidateChain, walk_fuel. split.
  - intros E x R. destruct (walkValidate _ (g_nodes g) id ∅) as [v r] eqn:Ew. cbn in E. subst r.
    apply walkValidate_walked in Ew as [_ O]. destruct (O eq_refl) as [I C].
    assert (Cv : forall z, z ∈ v -> checked (g_nodes g) v z) by set_solver.
    destruct (Cv x) as (n&En&V&_); [|by exists n].
    eapply checked_closed; [exact Cv|exact R|set_solver].
  - intros Hs. apply walkValidate_total; [exact Hs|].
    assert (size (dom (g_nodes g) ∖ ∅) <= size (g_nodes g))%nat; [|lia].
    rewrite <-size_dom. apply subseteq_size. set_solver.
Qed.

(** Validation is exact: [ValidateChain] accepts an id exactly when every
    node its parent links reach is present and validates, whatever the shape of
    the graph: sharing, cycles and missing parents included. *)
Theorem validate_chain_exact `{Hash} id g :
  ValidateChain id g = Ok tt <-> forall x, reaches (g_nodes g) id x -> sound_at (g_nodes g) x.
Proof. apply validate_chain_spec. Qed.

(** * Traversal is exact *)

Section Chain.
Context (nodes : gmap string Node).

(** The ids the unvisited nodes may still put in the queue. *)
Definition fan (v : gset string) (kv : string * Node) : nat :=
  if bool_decide (kv.1 ∈ v) then 0 else length (parents kv.2).
Definition pending (v : gset string) : nat := sum_list_with (fan v) (map_to_list nodes).

Lemma sum_list_with_ext_in {A} (f g : A -> nat) l :
  (forall x, x ∈ l -> f x = g x) -> sum_list_with f l = sum_list_with g l.
Proof.
  induction l as [|x l IH]; intros E; cbn; [done|]. rewrite (E x), IH; [done|set_solver|set_solver].
Qed.

Lemma sum_list_with_perm {A} (f : A -> nat) l k : l ≡ₚ k -> sum_list_with f l = sum_list_with f k.
Proof. induction 1; cbn; lia. Qed.

Lemma pending_visit id n v :
  nodes !! id = Some n -> id ∉ v -> pending v = (length (parents n) + pending ({[id]} ∪ v))%nat.
Proof.
  intros En Hid. unfold pending.
  assert (P : forall u, sum_list_with (fan u) (map_to_list nodes)
    = (fan u (id, n) + sum_list_with (fan u) (map_to_list (delete id nodes)))%nat).
  { intros u. by rewrite <-(sum_list_with_perm _ _ _ (map_to_list_delete nodes id n En)). }
  rewrite !P. unfold fan at 1 3. cbn. rewrite bool_decide_false by done.
  rewrite bool_decide_true by set_solver. f_equal. apply sum_list_with_ext_in.
  intros [k m] Hk%elem_of_map_to_list%lookup_delete_Some. unfold fan. cbn.
  by rewrite (bool_decide_ext (k ∈ v) (k ∈ {[id]} ∪ v)) by set_solver.
Qed.

Lemma pending_mono v w : v ⊆ w -> (pending w <= pending v)%nat.
Proof.
  intros Hv. unfold pending. induction (map_to_list nodes) as [|[k m] l IH]; cbn; [done|].
  unfold fan at 1 3. cbn. repeat case_bool_decide; try lia. set_solver.
Qed.

(** What the loop has collected when it ends with [v'] visited. *)
Record collected (queue : list string) (v v' : gset string) (l : list Node) : Prop := {
  co_grows : v ⊆ v';
  co_queue : forall q, q ∈ queue -> q ∈ v';
  co_new : forall x, x ∈ v' -> x ∉ v -> exists q, q ∈ queue /\ reaches nodes q x;
  co_nodes : forall x n, x ∈ v' -> x ∉ v -> nodes !! x = Some n ->
    n ∈ l /\ forall p, p ∈ parents n -> p ∈ v';
  co_list : Forall (fun n => exists x, x ∈ v' /\ x ∉ v /\ nodes !! x = Some n) l;
  co_once : (forall k n, nodes !! k = Some n -> n_NodeHash n = k) -> NoDup (map n_NodeHash l);
}.

Lemma collected_skip id queue v v' l :
  collected queue ({[id]} ∪ v) v' l -> id ∈ v \/ nodes !! id = None -> collected (id :: queue) v v' l.
Proof.
  intros [Hg Hq Hn Hs Hl Ho] Hid. split; [set_solver|set_solver| | | |done].
  - intros x Hx Hv. destruct (decide (x = id)) as [->|].
    + exists id. split; [set_solver|constructor].
    + destruct (Hn x Hx) as (q&Hq'&R); [set_solver|]. exists q. set_solver.
  - intros x n Hx Hv En. apply (Hs x n); [done| |done]. intros [->%elem_of_singleton|]%elem_of_union; [|done].
    destruct Hid; [done|congruence].
  - eapply Forall_impl; [exact Hl|]. intros n (x&?&?&?). exists x. set_solver.
Qed.

Lemma collected_visit id n queue v v' l :
  nodes !! id = Some n -> id ∉ v ->
  collected (queue ++ parents n) ({[id]} ∪ v) v' l -> collected (id :: queue) v v' (n :: l).
Proof.
  intros En Hid [Hg Hq Hn Hs Hl Ho]. split; [set_solver|set_solver| | | |].
  - intros x Hx Hv. destruct (decide (x = id)) as [->|].
    + exists id. split; [set_solver|constructor].
    + destruct (Hn x Hx) as (q&[Hq'|Hq']%elem_of_app&R); [set_solver|exists q; set_solver|].
      exists id. split; [set_solver|]. by econstructor.
  - intros x m Hx Hv Em. destruct (decide (x = id)) as [->|].
    + rewrite En in Em. injection Em as <-. set_solver.
    + destruct (Hs x m Hx) as [Hm Hp]; [set_solver|done|]. split; [set_solver|done].
  - constructor; [exists id; set_solver|].
    eapply Forall_impl; [exact Hl|]. intros m (x&?&?&?). exists x. set_solver.
  - intros Hk. cbn. constructor; [|by apply Ho]. intros (m&Em&Hm)%list_elem_of_fmap.
    rewrite Forall_forall in Hl. destruct (Hl m Hm) as (x&_&Hx&Ex).
    rewrite <-(Hk _ _ Ex), <-Em, (Hk _ _ En) in Hx. set_solver.
Qed.

Lemma chain_loop_collects fuel queue v :
  (length queue + pending v <= fuel)%nat ->
  exists l v', chain_loop fuel nodes queue v = Some l /\ collected queue v v' l.
Proof.
  revert queue v. induction fuel as [|fuel IH]; intros [|id queue] v Hf; cbn in Hf |- *; try lia.
  1,2: exists [], v; split; [done|]; split; [done|set_solver|done|done|constructor|intros _; constructor].
  case_bool_decide as Hid.
  - destruct (IH queue v) as (l&v'&E&C); [lia|]. exists l, v'. split; [done|].
    apply collected_skip; [|by left]. by replace ({[id]} ∪ v) with v by set_solver.
  - destruct (nodes !! id) as [n|] eqn:En.
    + destruct (IH (queue ++ parents n)%list ({[id]} ∪ v)) as (l&v'&E&C).
      { rewrite length_app. pose proof (pending_visit id n v En Hid). lia. }
      exists (n :: l), v'. rewrite E. split; [done|]. by apply collected_visit.
    + destruct (IH queue ({[id]} ∪ v)) as (l&v'&E&C).
      { pose proof (pending_mono v ({[id]} ∪ v) ltac:(set_solver)). lia. }
      exists l, v'. split; [done|]. apply collected_skip; [done|by right].
Qed.
End Chain.

Lemma get_chain_spec nodes id :
  (forall k n, nodes !! k = Some n -> n_NodeHash n = k) ->
  exists l, GetChain id nodes = Some l /\ NoDup (map n_NodeHash l) /\
    forall n, n ∈ l <-> exists x, reaches nodes id x /\ nodes !! x = Some n.
Proof.
  intros Hk. unfold GetChain.
  assert (F : pending nodes ∅ = sum_list_with (fun n => length (parents n)) (map_to_list nodes).*2).
  { unfold pending. induction (map_to_list nodes) as [|[k m] l IH]; cbn; [done|]. by rewrite IH. }
  destruct (chain_loop_collects nodes (chain_fuel nodes) [id] ∅) as (l&v'&E&[_ Hq Hn Hs Hl Ho]).
  { unfold chain_fuel. rewrite F. cbn. lia. }
  exists l. split; [done|]. split; [by apply Ho|].
  assert (Cl : forall x y, reaches nodes x y -> x ∈ v' -> y ∈ v').
  { intros x y R. induction R as [x|x m p y Em Hp R IH]; [done|]. intros Hx. apply IH.
    destruct (Hs x m Hx) as [_ Hp']; [set_solver|done|by apply Hp']. }
  intros n. split.
  - intros Hin. rewrite Forall_forall in Hl. destruct (Hl n Hin) as (x&Hx&Hv&Ex).
    exists x. split; [|done]. destruct (Hn x Hx Hv) as (q&Hq'&R). by apply list_elem_of_singleton in Hq' as ->.
  - intros (x&R&Ex). destruct (Hs x n) as [Hin _]; [|set_solver|done|done].
    apply (Cl id); [done|]. apply Hq. set_solver.
Qed.

(** [GetChain] returns the history of a node: for a store that keeps nodes
    under their own hashes it ends, and the list holds every node the parent
    links reach, each once, and nothing else. *)
Theorem get_chain_exact nodes id :
  (forall k n, nodes !! k = Some n -> n_NodeHash n = k) ->
  exists l, GetChain id nodes = Some l /\ NoDup (map n_NodeHash l) /\
    forall n, n ∈ l <-> exists x, reaches nodes id x /\ nodes !! x = Some n.
Proof. apply get_chain_spec. Qed.

(** * Tamper evidence *)

Section Tamper.
Context `{Hash}.

(** Well-formed text, and a payload as the decoder yields it. *)
Definition node_wf (n : Node) : bool :=
  valid_string (n_Kind n) && valid_string (n_Principal n) && valid_string (n_Sig n)
  && valid_string (n_SigPurpose n)
  && match n_Payload n with RawText _ (Some j) => json_wf j && all_valid j | _ => true end.

(** Equal on everything the hash covers: the timestamp is left out, and the
    payload counts up to the order of object members. *)
Definition same_content (a b : Node) : Prop :=
  n_Kind a = n_Kind b /\ n_Parents a = n_Parents b /\ n_Lamport a = n_Lamport b /\
  n_Principal a = n_Principal b /\ n_PrincipalSeq a = n_PrincipalSeq b /\
  n_Sig a = n_Sig b /\ n_SigPurpose a = n_SigPurpose b /\
  exists j k, json_of_raw (n_Payload a) = Ok j /\ json_of_raw (n_Payload b) = Ok k /\ jeq j k.

(** Members of equivalent objects, by key. *)
Lemma jeq_member l k key v :
  jeq (JObj l) (JObj k) -> NoDup k.*1 -> (key, v) ∈ l ->
  exists w, (key, w) ∈ k /\ jeq v w.
Proof.
  intros E _ Hv. inversion E as [|?|? k' ? F P]; subst; [exists v; split; [done|constructor]|].
  apply list_elem_of_lookup in Hv as [i Hi]. eapply Forall2_lookup_l in F as ([key' w]&Hw&Ek&Ev); [|done].
  cbn in *. subst key'. exists w. split; [|done]. rewrite <-P. by eapply list_elem_of_lookup_2.
Qed.

Lemma jeq_length l k : jeq (JObj l) (JObj k) -> length l = length k.
Proof.
  intros E. inversion E as [|?|? k' ? F P]; subst; [done|]. by rewrite (Forall2_length _ _ _ F), P.
Qed.

Lemma jeq_string s j : jeq (JStr s) j -> j = JStr s.
Proof. by inversion 1. Qed.
Lemma jeq_number s j : jeq (JNum s) j -> j = JNum s.
Proof. by inversion 1. Qed.

Lemma jeq_strings l k : jeq (json_of_strings l) (json_of_strings k) -> l = k.
Proof.
  destruct l as [l|], k as [k|]; cbn; intros E; inversion E as [? E1 E2|? ? F|]; subst; try done.
  - f_equal. clear E. revert k E2. induction l as [|s l IH]; intros [|t k] [=]; [done|]. subst. f_equal. auto.
  - f_equal. clear E. revert k F. induction l as [|s l IH]; intros [|t k] F; inversion F as [|? ? ? ? Fs]; subst;
      [done|]. apply jeq_string in Fs. injection Fs as ->. f_equal. auto.
Qed.

Lemma node_members_keys n j : NoDup (node_members n j).*1.
Proof.
  unfold node_members. apply (bool_decide_unpack _).
  destruct (String.eqb (n_SigPurpose n) ""); vm_compute; exact I.
Qed.

Lemma valid_refs l : validate_refs l = Ok tt -> forallb valid_string l = true.
Proof.
  induction l as [|p l IH]; cbn; [done|]. intros ([]&Ep&El)%res_bind_Ok. rewrite IH by done.
  rewrite andb_true_r. unfold validateNodeHashRef in Ep. cbv zeta in Ep.
  destruct (negb _); [done|]. destruct (forallb lower_hex (to_bytes p)) eqn:Eh; [|done].
  apply valid_ascii. rewrite forallb_Forall in Eh. eapply Forall_impl; [exact Eh|].
  intros c Hc. cbn in Hc. unfold lower_hex in Hc. lia.
Qed.

Lemma node_object_wf n j :
  node_wf n = true -> forallb valid_string (parents n) = true -> json_of_raw (n_Payload n) = Ok j ->
  json_wf (JObj (node_members n j)) = true /\ all_valid (JObj (node_members n j)) = true.
Proof.
  unfold node_wf. intros Hw Hr Hj. boolean.
  assert (Wj : json_wf j = true /\ all_valid j = true).
  { destruct (n_Payload n) as [|sz [v|]]; cbn in Hj; [by injection Hj as <-|injection Hj as <-; by boolean|done]. }
  destruct Wj as [W1 W2].
  assert (Wp : json_wf (json_of_strings (n_Parents n)) = true /\ all_valid (json_of_strings (n_Parents n)) = true).
  { unfold parents in Hr. destruct (n_Parents n) as [l|]; cbn in Hr |- *; [|done].
    rewrite !forallb_map. split; [|done]. by apply forallb_Forall, Forall_true. }
  destruct Wp as [P1 P2]. split.
  - cbn [json_wf]. rewrite bool_decide_true by apply node_members_keys. unfold node_members.
    rewrite forallb_app. cbn [forallb snd json_wf]. rewrite !dec_num_literal, W1, P1.
    destruct (String.eqb (n_SigPurpose n) ""); reflexivity.
  - cbn [all_valid]. unfold node_members. rewrite forallb_app.
    destruct (String.eqb (n_SigPurpose n) ""); cbn [forallb fst snd all_valid];
      repeat (apply andb_true_iff; split); first [assumption|reflexivity].
Qed.

Lemma members_inj a b j k :
  json_of_raw (n_Payload a) = Ok j -> json_of_raw (n_Payload b) = Ok k ->
  jeq (JObj (node_members a j)) (JObj (node_members b k)) -> same_content a b.
Proof.
  intros Ej Ek E.
  assert (G : forall key v, (key, v) ∈ node_members a j -> forall w, (key, w) ∈ node_members b k -> jeq v w).
  { intros key v Hv w Hw. destruct (jeq_member _ _ _ _ E (node_members_keys b k) Hv) as (w'&Hw'&Ew).
    by rewrite <-(NoDup_fst_inj _ _ _ _ (node_members_keys b k) Hw Hw') in Ew. }
  assert (P : n_SigPurpose a = n_SigPurpose b).
  { destruct (String.eqb_spec (n_SigPurpose a) "") as [Ea|Ea], (String.eqb_spec (n_SigPurpose b) "") as [Eb|Eb].
    - by rewrite Ea, Eb.
    - exfalso. pose proof (jeq_length _ _ E) as L.
      revert L. unfold node_members. rewrite Ea. apply String.eqb_neq in Eb. rewrite Eb. done.
    - exfalso. pose proof (jeq_length _ _ E) as L.
      revert L. unfold node_members. rewrite Eb. apply String.eqb_neq in Ea. rewrite Ea. done.
    - assert (J : jeq (JStr (n_SigPurpose a)) (JStr (n_SigPurpose b))).
      { apply (G "sig_purpose"); unfold node_members; apply String.eqb_neq in Ea, Eb; rewrite ?Ea, ?Eb; set_solver. }
      apply jeq_string in J. by injection J. }
  assert (S : forall key s t, (key, JStr s) ∈ node_members a j -> (key, JStr t) ∈ node_members b k -> s = t).
  { intros key s t Hs Ht. pose proof (jeq_string _ _ (G _ _ Hs _ Ht)) as J. by injection J. }
  assert (N : forall key s t, (key, JNum (dec s)) ∈ node_members a j ->
    (key, JNum (dec t)) ∈ node_members b k -> s = t).
  { intros key s t Hs Ht. pose proof (jeq_number _ _ (G _ _ Hs _ Ht)) as J. injection J as J. by apply dec_inj in J. }
  unfold same_content. unfold node_members in G, S, N. split_and!; [| | | | | |done|].
  - apply (S "kind"); set_solver.
  - apply jeq_strings, (G "parents"); set_solver.
  - apply (N "lamport"); set_solver.
  - apply (S "principal"); set_solver.
  - apply (N "principal_seq"); set_solver.
  - apply (S "sig"); set_solver.
  - exists j, k. split; [done|]. split; [done|]. apply (G "payload"); set_solver.
Qed.

(** A hash names the content of a node. *)
Lemma hash_binds a b h :
  node_wf a = true -> forallb valid_string (parents a) = true ->
  node_wf b = true -> forallb valid_string (parents b) = true ->
  ComputeNodeHashE a = Ok h -> ComputeNodeHashE b = Ok h -> same_content a b \/ collision.
Proof.
  assert (V : forall n, ComputeNodeHashE n = Ok h -> exists j, json_of_raw (n_Payload n) = Ok j /\
    h = hex_encode (sha256 (enc (reparse (JObj (node_members n j)))))).
  { intros n (d&Ed&[= <-])%res_bind_Ok. apply wrap_err_Ok, res_bind_Ok in Ed as (j&Ej&Ed).
    rewrite JCS_Ok in Ed. injection Ed as <-. by exists j. }
  intros Wa Ra Wb Rb (j&Ej&Ha)%V (k&Ek&Hb)%V. rewrite Ha in Hb. apply hex_encode_inj in Hb.
  destruct (node_object_wf a j Wa Ra Ej) as [A1 A2]. destruct (node_object_wf b k Wb Rb Ek) as [B1 B2].
  rewrite !reparse_id in Hb by auto using json_wf_nodup.
  destruct (decide (enc (JObj (node_members a j)) = enc (JObj (node_members b k)))) as [Ee|];
    [|right; by eexists _, _].
  left. apply (members_inj a b j k Ej Ek). by apply enc_jeq.
Qed.

Lemma Validate_parts n :
  Validate n = Ok tt -> forallb valid_string (parents n) = true /\ ComputeNodeHashE n = Ok (n_NodeHash n).
Proof.
  intros ([]&_&([]&_&([]&Er&(h&Eh&E)%res_bind_Ok)%res_bind_Ok)%res_bind_Ok)%res_bind_Ok.
  split; [by apply valid_refs|]. apply wrap_err_Ok in Eh.
  by destruct (String.eqb_spec (n_NodeHash n) h) as [->|].
Qed.

(** Every list of cases closed either way. *)
Lemma all_or {A} (P : A -> Prop) (C : Prop) (l : list A) :
  (forall x, x ∈ l -> P x \/ C) -> (forall x, x ∈ l -> P x) \/ C.
Proof.
  induction l as [|a l IH]; intros Hl; [left; set_solver|].
  destruct (Hl a) as [Ha|]; [set_solver| |by right]. destruct IH as [IH|]; [set_solver| |by right].
  left. intros x [->|Hx]%elem_of_cons; auto.
Qed.
End Tamper.

(** Nodes are kept under their own hashes. *)
Definition keyed (g : Graph) : Prop := forall k n, g_nodes g !! k = Some n -> n_NodeHash n = k.

(** C27. One hash stands for the whole history behind it: when two graphs that
    keep nodes under their own hashes both validate from the same id, they hold,
    at every id reachable from it in the one, nodes with the same content (kind,
    parents, clock, principal, sequence, signature, purpose and payload), or
    SHA-256 collides. *)
Theorem proof_graph_tamper_evident `{Hash} g1 g2 id :
  keyed g1 -> keyed g2 ->
  (forall k n, g_nodes g1 !! k = Some n -> node_wf n = true) ->
  (forall k n, g_nodes g2 !! k = Some n -> node_wf n = true) ->
  ValidateChain id g1 = Ok tt -> ValidateChain id g2 = Ok tt ->
  (forall x, reaches (g_nodes g1) id x -> exists a b,
     g_nodes g1 !! x = Some a /\ g_nodes g2 !! x = Some b /\ same_content a b) \/ collision.
Proof.
  intros K1 K2 W1 W2 V1 V2. rewrite validate_chain_spec in V1, V2.
  set (same x := exists a b, g_nodes g1 !! x = Some a /\ g_nodes g2 !! x = Some b /\ same_content a b).
  assert (Here : forall x, sound_at (g_nodes g1) x -> sound_at (g_nodes g2) x -> same x \/ collision).
  { intros x (a&Ea&Va) (b&Eb&Vb).
    apply Validate_parts in Va as [Ra Ha], Vb as [Rb Hb]. rewrite (K1 _ _ Ea) in Ha. rewrite (K2 _ _ Eb) in Hb.
    destruct (hash_binds a b x) as [S|C]; eauto. left. by exists a, b. }
  assert (Each : forall x y, reaches (g_nodes g1) x y -> reaches (g_nodes g1) id x -> reaches (g_nodes g2) id x ->
    (reaches (g_nodes g2) id y /\ same y) \/ collision).
  { intros x y R. induction R as [x|x n p y En Hp R IH]; intros R1 R2.
    - destruct (Here x (V1 x R1) (V2 x R2)); auto.
    - destruct (Here x (V1 x R1) (V2 x R2)) as [(a&b&Ea&Eb&S)|]; [|by right].
      rewrite En in Ea. injection Ea as <-. apply IH.
      + eapply reaches_trans; [exact R1|]. econstructor; [exact En|exact Hp|constructor].
      + eapply reaches_trans; [exact R2|]. econstructor; [exact Eb| |constructor].
        unfold parents in *. by rewrite <-(proj1 (proj2 S)). }
  destruct (get_chain_spec (g_nodes g1) id K1) as (l&_&_&Hl).
  destruct (all_or (fun n => same (n_NodeHash n)) collision l) as [A|C]; [| |by right].
  - intros n (x&R&En)%Hl. rewrite (K1 _ _ En).
    destruct (Each id x R (reaches_refl _ _) (reaches_refl _ _)) as [[_ S]|]; auto.
  - left. intros x R. destruct (V1 x R) as (n&En&_). rewrite <-(K1 _ _ En). apply A, Hl. by exists x.
Qed.

(** * Graphs built by appending *)

Section Appends.
Context `{Hash} `{!HashLaws}.

Lemma hex_lower l : forallb lower_hex (to_bytes (hex_encode l)) = true.
Proof.
  unfold hex_encode. rewrite to_of_bytes. induction l as [|c l IH]; [done|].
  cbn [flat_map]. rewrite forallb_app, IH, andb_true_r.
  destruct c as [[] [] [] [] [] [] [] []]; reflexivity.
Qed.

Lemma digest_ref field b : validateNodeHashRef field (hex_encode (sha256 b)) = Ok tt.
Proof.
  unfold validateNodeHashRef. cbv zeta. rewrite hex_encode_length, sha256_size, Nat.eqb_refl. cbn [negb].
  by rewrite hex_lower.
Qed.

Lemma ref_field f1 f2 ref : validateNodeHashRef f1 ref = Ok tt -> validateNodeHashRef f2 ref = Ok tt.
Proof. unfold validateNodeHashRef. cbv zeta. by repeat case_match. Qed.

Lemma refs_ok l : (forall p, p ∈ l -> validateNodeHashRef "node_hash" p = Ok tt) -> validate_refs l = Ok tt.
Proof.
  induction l as [|p l IH]; intros Hl; [done|]. cbn [validate_refs].
  rewrite (ref_field "node_hash" "parents") by (apply Hl; set_solver). apply IH. set_solver.
Qed.

(** A node that carries the hash of its content validates. *)
Lemma hashed_valid n h :
  validateSignaturePurpose n = Ok tt -> (forall p, p ∈ parents n -> validateNodeHashRef "node_hash" p = Ok tt) ->
  ComputeNodeHash n = Ok h -> Validate (n <| n_NodeHash := h |>) = Ok tt.
Proof.
  intros Hs Hp Eh. unfold Validate.
  change (validateSignaturePurpose (n <| n_NodeHash := h |>)) with (validateSignaturePurpose n).
  change (parents (n <| n_NodeHash := h |>)) with (parents n).
  change (ComputeNodeHash (n <| n_NodeHash := h |>)) with (ComputeNodeHash n).
  change (n_NodeHash (n <| n_NodeHash := h |>)) with h.
  rewrite Hs. cbn [mbind res_bind]. rewrite (refs_ok _ Hp).
  assert (validateNodeHashRef "node_hash" h = Ok tt) as ->.
  { apply wrap_err_Ok, res_bind_Ok in Eh as (d&_&[= <-]). apply digest_ref. }
  cbn [mbind res_bind]. rewrite Eh. cbn [mbind res_bind]. by rewrite String.eqb_refl.
Qed.

Lemma NewNode_Ok kind ps payload lamport principal seq now n :
  (forall p, p ∈ default [] ps -> validateNodeHashRef "node_hash" p = Ok tt) ->
  NewNode kind ps payload lamport principal seq now = Ok n ->
  Validate n = Ok tt /\ n_Parents n = ps /\ n_Lamport n = lamport /\ n_Kind n = kind /\
  n_Payload n = payload /\ n_Principal n = principal.
Proof.
  intros Hp E. unfold NewNode in E. destruct (_ <? _)%N; [done|].
  assert (exists h, ComputeNodeHash {| n_NodeHash := ""; n_Kind := kind; n_Parents := ps; n_Lamport := lamport;
    n_Principal := principal; n_PrincipalSeq := seq; n_Payload := payload; n_Sig := ""; n_SigPurpose := "";
    n_Timestamp := (now / 1000000)%Z |} = Ok h /\ n = {| n_NodeHash := h; n_Kind := kind; n_Parents := ps;
    n_Lamport := lamport; n_Principal := principal; n_PrincipalSeq := seq; n_Payload := payload; n_Sig := "";
    n_SigPurpose := ""; n_Timestamp := (now / 1000000)%Z |}) as (h&Eh&->).
  { destruct payload as [|[|sz] [v|]]; try done; apply res_bind_Ok in E as (h&Eh&[= <-]); by exists h. }
  split; [|done]. by apply (hashed_valid _ h) in Eh.
Qed.

Lemma SetSignature_Ok sig purpose n n' :
  (forall p, p ∈ parents n -> validateNodeHashRef "node_hash" p = Ok tt) ->
  SetSignature sig purpose n = Ok n' ->
  Validate n' = Ok tt /\ n_Parents n' = n_Parents n.
Proof.
  intros Hp E. unfold SetSignature in E. destruct (String.eqb sig "") eqn:Es; [done|].
  apply res_bind_Ok in E as ([]&Ev&E). cbv zeta in E. apply res_bind_Ok in E as (h&Eh&[= <-]).
  split; [|done]. apply hashed_valid; [|done|done].
  unfold validateSignaturePurpose. change (n_Sig _) with sig at 1. rewrite Es. cbn [orb].
  change (n_SigPurpose (n <| n_Sig := sig |> <| n_SigPurpose := purpose |>)) with purpose.
  by destruct (String.eqb purpose "").
Qed.

(** Every node is kept under its hash, validates, and has its parents in the
    graph; so do the heads. *)
Record graph_ok (g : Graph) : Prop := {
  go_keyed : keyed g;
  go_valid : forall k n, g_nodes g !! k = Some n -> Validate n = Ok tt;
  go_parents : forall k n p, g_nodes g !! k = Some n -> p ∈ parents n -> is_Some (g_nodes g !! p);
  go_heads : forall h, h ∈ Heads g -> is_Some (g_nodes g !! h);
}.

Lemma Validate_ref n : Validate n = Ok tt -> validateNodeHashRef "node_hash" (n_NodeHash n) = Ok tt.
Proof. by intros ([]&_&([]&Er&_)%res_bind_Ok)%res_bind_Ok. Qed.

Lemma heads_ref g h : graph_ok g -> h ∈ Heads g -> validateNodeHashRef "node_hash" h = Ok tt.
Proof.
  intros G Hh. destruct (go_heads g G h Hh) as [n En]. rewrite <-(go_keyed g G _ _ En).
  by apply Validate_ref, (go_valid g G _ _ En).
Qed.

Lemma with_lamport_ok l g : graph_ok g -> graph_ok (with_lamport l g).
Proof. by intros [K V P Hh]. Qed.

Lemma install_ok n l g :
  graph_ok g -> Validate n = Ok tt -> n_Parents n = g_heads g -> graph_ok (install n l g).
Proof.
  intros [K V P Hh] Vn Pn.
  assert (Keep : forall k, is_Some (g_nodes g !! k) -> is_Some (g_nodes (install n l g) !! k)).
  { intros k Hk. cbn. destruct (decide (k = n_NodeHash n)) as [->|]; [by rewrite lookup_insert_eq|].
    by rewrite lookup_insert_ne. }
  split; cbn.
  - intros k m Em. cbn in Em. apply lookup_insert_Some in Em as [[<- <-]|[_ Em]]; [done|]. by apply K.
  - intros k m Em. apply lookup_insert_Some in Em as [[<- <-]|[_ Em]]; [done|]. by eapply V.
  - intros k m p Em Hp. apply Keep. apply lookup_insert_Some in Em as [[<- <-]|[_ Em]]; [|by eapply P].
    apply Hh. unfold Heads, parents in *. by rewrite <-Pn.
  - intros h ->%list_elem_of_singleton. rewrite lookup_insert_eq. eauto.
Qed.

Inductive graph_op :=
| OpAppend (kind : string) (payload : RawMessage) (principal : string) (seq : Z) (now : time)
| OpSigned (kind : string) (payload : RawMessage) (signature purpose principal : string) (seq : Z) (now : time).

Definition perform (o : graph_op) (g : Graph) : Graph :=
  match o with
  | OpAppend kind payload principal seq now => (Append kind payload principal seq now g).1
  | OpSigned kind payload sig purpose principal seq now =>
      (AppendSignedWithPurpose kind payload sig purpose principal seq now g).1
  end.

Lemma perform_ok o g : graph_ok g -> graph_ok (perform o g).
Proof.
  intros G. destruct o as [kind payload principal seq now|kind payload sig purpose principal seq now]; cbn.
  - unfold Append. cbv zeta. destruct (NewNode _ _ _ _ _ _ _) as [n|e] eqn:En; [|by apply with_lamport_ok].
    apply NewNode_Ok in En as (V&Pn&_); [|intros p Hp; by apply (heads_ref g)]. by apply install_ok.
  - unfold AppendSignedWithPurpose. destruct (ValidateSignaturePurpose purpose) as [[]|e]; [|done]. cbv zeta.
    destruct (NewNode _ _ _ _ _ _ _) as [n|e] eqn:En; [|by apply with_lamport_ok].
    apply NewNode_Ok in En as (V&Pn&_); [|intros p Hp; by apply (heads_ref g)].
    destruct (SetSignature sig purpose n) as [n'|e] eqn:Es; [|by apply with_lamport_ok].
    apply SetSignature_Ok in Es as [V' Pn']; [|intros p Hp; apply (heads_ref g); [done|]].
    + apply install_ok; [done|done|by rewrite Pn'].
    + unfold parents in Hp. by rewrite Pn in Hp.
Qed.

Definition run (ops : list graph_op) (g : Graph) : Graph := fold_left (fun g o => perform o g) ops g.

Lemma graph_run_ok ops g : graph_ok g -> graph_ok (run ops g).
Proof. revert g. induction ops as [|o ops IH]; intros g G; [done|]. apply IH, perform_ok, G. Qed.

Lemma NewGraph_ok : graph_ok NewGraph.
Proof. split; [intros k n E|intros k n E|intros k n p E|intros h Hh]; by cbn in *; rewrite ?lookup_empty in *; set_solver. Qed.

Lemma graph_ok_reaches g x y : graph_ok g -> reaches (g_nodes g) x y -> is_Some (g_nodes g !! x) -> is_Some (g_nodes g !! y).
Proof.
  intros G R. induction R as [x|x n p y En Hp R IH]; [done|]. intros _. apply IH. by eapply go_parents.
Qed.

(** C28. A graph that was built by appending always validates: after any
    sequence of signed and unsigned appends, refused ones included, the heads are
    in the graph, nodes are kept under their own hashes, and [ValidateChain]
    accepts every node. *)
Theorem proof_graph_validates ops :
  let g := run ops NewGraph in
  keyed g /\ (forall h, h ∈ Heads g -> is_Some (Get h g)) /\
  (forall id, is_Some (Get id g) -> ValidateChain id g = Ok tt).
Proof.
  intros g. pose proof (graph_run_ok ops NewGraph NewGraph_ok) as G. fold g in G.
  split; [apply G|]. split; [apply G|]. intros id Hid. apply validate_chain_spec. intros x R.
  destruct (graph_ok_reaches g id x G R Hid) as [n En]. exists n. split; [done|]. by eapply go_valid.
Qed.
End Appends.

(** * Replication *)

Section Replication.
Context `{Hash}.
Implicit Type s : gmap string Node.

(** Nodes are kept under the hash of their content. *)
Definition consistent s : Prop :=
  forall k n, s !! k = Some n -> n_NodeHash n = k /\ ComputeNodeHashE n = Ok k.

Lemma consistent_empty : consistent ∅.
Proof. intros k n E. by rewrite lookup_empty in E. Qed.

Lemma Add_consistent n s : consistent s -> consistent (Add n s).1.
Proof.
  intros C. unfold Add. destruct (ComputeNodeHashE n) as [h|e] eqn:Eh; cbn; [|done].
  destruct (String.eqb_spec (n_NodeHash n) h) as [En|]; cbn; [|done].
  destruct (s !! n_NodeHash n) eqn:Es; [done|]. cbn. intros k m.
  rewrite lookup_insert_Some. intros [[<- <-]|[_ Em]]; [by rewrite En|by apply C].
Qed.

Definition by_hash (l : list Node) : gmap string Node := list_to_map (map (fun n => (n_NodeHash n, n)) l).

(** A list that holds, for each hash, the node a map has there. *)
Lemma by_hash_lookup s l k n :
  (forall m, m ∈ l -> s !! n_NodeHash m = Some m) ->
  by_hash l !! k = Some n <-> n ∈ l /\ n_NodeHash n = k.
Proof.
  unfold by_hash. induction l as [|m l IH]; intros Hl; cbn; [set_solver|].
  rewrite lookup_insert_Some, IH by set_solver. split.
  - intros [[<- <-]|(_&?&?)]; set_solver.
  - intros [[->|Hn]%elem_of_cons <-]; [by left|]. destruct (decide (n_NodeHash m = n_NodeHash n)) as [E|]; [|by right].
    left. split; [done|]. pose proof (Hl m ltac:(set_solver)) as E1. pose proof (Hl n ltac:(set_solver)) as E2.
    rewrite E in E1. congruence.
Qed.

Lemma merge_nodes_union l s : (merge_nodes l s).1 = s ∪ by_hash l.
Proof.
  revert s. induction l as [|n l IH]; intros s; cbn; [by rewrite right_id_L by apply _|].
  destruct (s !! n_NodeHash n) as [m|] eqn:Es.
  - rewrite IH. apply map_eq. intros k. unfold by_hash. cbn. rewrite !lookup_union.
    destruct (decide (k = n_NodeHash n)) as [->|]; [by rewrite Es, !union_Some_l|by rewrite lookup_insert_ne].
  - specialize (IH (<[n_NodeHash n:=n]> s)). destruct (merge_nodes l _) as [s' added]. cbn in *. rewrite IH.
    unfold by_hash. cbn. by rewrite <-insert_union_l, insert_union_r.
Qed.

Lemma All_by_hash s : consistent s -> by_hash (All s) = s.
Proof.
  intros C. apply map_eq. intros k. apply option_eq. intros n. rewrite (by_hash_lookup s).
  - unfold All. rewrite list_elem_of_fmap. split.
    + intros [([k' m]&->&Hm%elem_of_map_to_list) <-]. cbn. by rewrite (proj1 (C _ _ Hm)).
    + intros E. split; [exists (k, n); split; [done|by apply elem_of_map_to_list]|by apply C].
  - intros m ([k' m']&->&Hm%elem_of_map_to_list)%list_elem_of_fmap. cbn. by rewrite (proj1 (C _ _ Hm)).
Qed.

Lemma Merge_union other s : consistent other -> (Merge other s).1 = s ∪ other.
Proof. intros C. unfold Merge. by rewrite merge_nodes_union, All_by_hash. Qed.
(** What a replica was told to send and does not know to be there. *)
Lemma Delta_elem hs s n : n ∈ Delta hs s <-> exists k, s !! k = Some n /\ k ∉ hs.
Proof.
  unfold Delta. rewrite list_elem_of_omap. split.
  - intros ([k m]&Hm%elem_of_map_to_list&E). cbn in E. case_bool_decide; [done|]. injection E as <-. eauto.
  - intros (k&Ek&Hk). exists (k, n). split; [by apply elem_of_map_to_list|]. cbn. by rewrite bool_decide_false.
Qed.

(** Nodes of a consistent set pass [Add], first come first kept. *)
Lemma add_all_merges s l p :
  consistent s -> (forall n, n ∈ l -> s !! n_NodeHash n = Some n) ->
  add_all l p = ({| p_nodeID := p_nodeID p; p_gset := p_gset p ∪ by_hash l; p_sent := p_sent p |}, Ok tt).
Proof.
  intros C Hl. rewrite <-merge_nodes_union. revert p. induction l as [|n l IH]; intros [id g sent]; [done|].
  assert (E : Add n g = (if bool_decide (is_Some (g !! n_NodeHash n)) then g else <[n_NodeHash n := n]> g, Ok tt)).
  { unfold Add. destruct (C _ _ (Hl n ltac:(set_solver))) as [_ Eh]. rewrite Eh. cbn [wrap_err].
    rewrite String.eqb_refl. cbn [negb]. destruct (g !! n_NodeHash n); [by rewrite bool_decide_true by eauto|].
    by rewrite bool_decide_false by (intros [? ?]; done). }
  cbn [add_all merge_nodes]. unfold mbind, M_bind, attempt, on_set. cbn [p_gset p_nodeID p_sent]. rewrite E.
  destruct (g !! n_NodeHash n) as [m|] eqn:Eg.
  - rewrite bool_decide_true by eauto. rewrite IH by set_solver. done.
  - rewrite bool_decide_false by (intros [? ?]; done). rewrite IH by set_solver. cbn [p_gset p_nodeID p_sent].
    by destruct (merge_nodes l _).
Qed.

(** ** One gossip exchange *)

Definition receive_all (tr : Transport) (msgs : list SyncMessage) (p : Peer) : Peer :=
  fold_left (fun p m => (receive tr m p).1) msgs p.

Definition inbox (id : string) (sent : list (string * SyncMessage)) : list SyncMessage :=
  (List.filter (fun pm => String.eqb pm.1 id) sent).*2.

(** [a] gossips to [b], [b] answers, [a] answers what [b] asked for; each reads
    what the other has sent. *)
Definition exchange (ta tb : Transport) (draw : nat) (a b : Peer) : Peer * Peer :=
  let a1 := (gossipOnce ta draw a).1 in
  let b1 := receive_all tb (inbox (p_nodeID b) (p_sent a1)) b in
  let a2 := receive_all ta (inbox (p_nodeID a) (p_sent b1)) a1 in
  let b2 := receive_all tb (inbox (p_nodeID b) (drop (length (p_sent a1)) (p_sent a2))) b1 in
  (a2, b2).

Definition reliable (tr : Transport) : Prop := forall peer msg, tr_send tr peer msg = Ok tt.

Definition push_message (id : string) (t : time) (nodes : list Node) : SyncMessage :=
  {| sm_SenderID := id; sm_MessageType := SyncPush; sm_Hashes := []; sm_Nodes := nodes; sm_Timestamp := t |}.
Definition pull_message (id : string) (t : time) (hashes : list string) : SyncMessage :=
  {| sm_SenderID := id; sm_MessageType := SyncPull; sm_Hashes := hashes; sm_Nodes := []; sm_Timestamp := t |}.

(** What is sent only when there is something to say. *)
Definition unless_empty {A B} (f : list A -> B) (l : list A) : list B :=
  match l with [] => [] | _ => [f l] end.

Lemma receive_digest tr id g sent msg :
  reliable tr -> sm_MessageType msg = SyncDigest ->
  (receive tr msg {| p_nodeID := id; p_gset := g; p_sent := sent |}).1 =
  {| p_nodeID := id; p_gset := g;
     p_sent := (sent ++ map (pair (sm_SenderID msg))
       (unless_empty (push_message id (tr_clock tr)) (Delta (list_to_set (sm_Hashes msg)) g)
        ++ unless_empty (pull_message id (tr_clock tr))
             (List.filter (fun h => negb (Contains h g)) (sm_Hashes msg))))%list |}.
Proof.
  intros R Et. unfold receive, HandleMessage, handleDigest. rewrite Et.
  unfold mbind, M_bind, attempt, get, mret, M_ret. cbn [p_gset p_nodeID].
  destruct (Delta _ _) as [|n ns]; destruct (List.filter _ _) as [|h hs]; cbn [unless_empty map app];
    unfold Send; rewrite ?R; cbn [p_gset p_nodeID p_sent fst]; unfold Send; rewrite ?R; cbn;
    by rewrite ?app_nil_r, <-?app_assoc.
Qed.

Lemma receive_push tr s id g sent msg :
  sm_MessageType msg = SyncPush -> consistent s -> (forall n, n ∈ sm_Nodes msg -> s !! n_NodeHash n = Some n) ->
  (receive tr msg {| p_nodeID := id; p_gset := g; p_sent := sent |}).1 =
  {| p_nodeID := id; p_gset := g ∪ by_hash (sm_Nodes msg); p_sent := sent |}.
Proof.
  intros Et C Hl. unfold receive, HandleMessage, handlePush. rewrite Et.
  unfold mbind, M_bind, attempt. by rewrite (add_all_merges s).
Qed.

Lemma receive_pull tr id g sent msg :
  reliable tr -> sm_MessageType msg = SyncPull ->
  (receive tr msg {| p_nodeID := id; p_gset := g; p_sent := sent |}).1 =
  {| p_nodeID := id; p_gset := g;
     p_sent := (sent ++ map (pair (sm_SenderID msg))
       (unless_empty (push_message id (tr_clock tr)) (omap (fun h => g !! h) (sm_Hashes msg))))%list |}.
Proof.
  intros R Et. unfold receive, HandleMessage, handlePull. rewrite Et.
  unfold mbind, M_bind, attempt, get, mret, M_ret. cbn [p_gset p_nodeID].
  destruct (omap _ _) as [|n ns]; cbn [unless_empty map app]; [by rewrite app_nil_r|].
  unfold Send. by rewrite R.
Qed.


Lemma inbox_pairs id l : inbox id (map (pair id) l) = l.
Proof.
  unfold inbox. induction l as [|m l IH]; [done|]. cbn. rewrite String.eqb_refl. cbn. by f_equal.
Qed.

Lemma receive_all_push tr s id g sent from t l :
  consistent s -> (forall n, n ∈ l -> s !! n_NodeHash n = Some n) ->
  receive_all tr (unless_empty (push_message from t) l) {| p_nodeID := id; p_gset := g; p_sent := sent |} =
  {| p_nodeID := id; p_gset := g ∪ by_hash l; p_sent := sent |}.
Proof.
  intros C Hl. destruct l as [|n l]; cbn [unless_empty receive_all fold_left].
  - unfold by_hash. cbn. by rewrite right_id_L by apply _.
  - by apply (receive_push tr s).
Qed.

Lemma receive_all_pull tr id g sent from t hs :
  reliable tr ->
  receive_all tr (unless_empty (pull_message from t) hs) {| p_nodeID := id; p_gset := g; p_sent := sent |} =
  {| p_nodeID := id; p_gset := g;
     p_sent := (sent ++ map (pair from) (unless_empty (push_message id (tr_clock tr)) (omap (fun h => g !! h) hs)))%list |}.
Proof.
  intros R. destruct hs as [|h hs]; cbn [unless_empty receive_all fold_left].
  - cbn. by rewrite app_nil_r.
  - by apply receive_pull.
Qed.

Lemma Hashes_elem s k : k ∈ Hashes s <-> is_Some (s !! k).
Proof.
  unfold Hashes. rewrite list_elem_of_fmap. split.
  - intros ([k' n]&->&Hn%elem_of_map_to_list). eauto.
  - intros [n En]. exists (k, n). split; [done|by apply elem_of_map_to_list].
Qed.

Lemma union_fill (s t : gmap string Node) l :
  (forall k n, n ∈ l /\ n_NodeHash n = k -> t !! k = Some n) ->
  (forall k n, t !! k = Some n -> s !! k = None -> n ∈ l /\ n_NodeHash n = k) ->
  s ∪ by_hash l = s ∪ t.
Proof.
  intros Hl Ht. apply map_eq. intros k. rewrite !lookup_union.
  destruct (s !! k) as [m|] eqn:Es; [by rewrite !union_Some_l|]. rewrite !(left_id_L None) by apply _.
  apply option_eq. intros n. rewrite (by_hash_lookup t); [naive_solver|].
  intros m Hm. by apply Hl.
Qed.

Lemma receive_all_app tr l k p : receive_all tr (l ++ k)%list p = receive_all tr k (receive_all tr l p).
Proof. apply fold_left_app. Qed.

Definition digest_message (id : string) (t : time) (hashes : list string) : SyncMessage :=
  {| sm_SenderID := id; sm_MessageType := SyncDigest; sm_Hashes := hashes; sm_Nodes := []; sm_Timestamp := t |}.

Lemma gossip_sends tr draw id g sent peer :
  reliable tr -> tr_peers tr !! draw = Some peer ->
  (gossipOnce tr draw {| p_nodeID := id; p_gset := g; p_sent := sent |}).1 =
  {| p_nodeID := id; p_gset := g; p_sent := (sent ++ [(peer, digest_message id (tr_clock tr) (Hashes g))])%list |}.
Proof.
  intros R E. unfold gossipOnce. rewrite E. unfold mbind, M_bind, attempt, get, Send.
  cbn [p_nodeID p_gset p_sent]. by rewrite R.
Qed.

Lemma exchange_unions ta tb draw a b :
  reliable ta -> reliable tb -> tr_peers ta !! draw = Some (p_nodeID b) ->
  p_sent a = [] -> p_sent b = [] -> consistent (p_gset a) -> consistent (p_gset b) ->
  p_gset (exchange ta tb draw a b).1 = p_gset a ∪ p_gset b /\
  p_gset (exchange ta tb draw a b).2 = p_gset b ∪ p_gset a.
Proof.
  destruct a as [ida ga sa], b as [idb gb sb]. cbn [p_nodeID p_gset p_sent]. intros Ra Rb Ep -> -> Ca Cb.
  set (missing := Delta (list_to_set (Hashes ga)) gb).
  set (wanted := List.filter (fun h => negb (Contains h gb)) (Hashes ga)).
  set (digest := digest_message ida (tr_clock ta) (Hashes ga)).
  set (sent := (unless_empty (push_message idb (tr_clock tb)) missing
                ++ unless_empty (pull_message idb (tr_clock tb)) wanted)%list).
  set (owed := omap (fun h => (ga ∪ gb) !! h) wanted).
  assert (Hm : forall n, n ∈ missing -> gb !! n_NodeHash n = Some n).
  { intros n (k&Ek&_)%Delta_elem. by rewrite (proj1 (Cb _ _ Ek)). }
  assert (Ew : forall h, h ∈ wanted <-> is_Some (ga !! h) /\ gb !! h = None).
  { intros h. unfold wanted. rewrite list_elem_of_In, filter_In, <-list_elem_of_In, Hashes_elem.
    unfold Contains. rewrite negb_true_iff, bool_decide_eq_false, eq_None_not_Some. done. }
  assert (Ho : forall n, n ∈ owed -> ga !! n_NodeHash n = Some n).
  { intros n (h&[[m Em] _]%Ew&Eh)%list_elem_of_omap. rewrite lookup_union, Em, union_Some_l in Eh.
    injection Eh as <-. by rewrite (proj1 (Ca _ _ Em)). }
  assert (Eu : ga ∪ by_hash missing = ga ∪ gb).
  { apply union_fill; [intros k n [Hn <-]; auto|]. intros k n Ek Ea. split; [|by apply Cb].
    apply Delta_elem. exists k. split; [done|]. intros [x Hx]%elem_of_list_to_set%Hashes_elem. congruence. }
  assert (Ev : gb ∪ by_hash owed = gb ∪ ga).
  { apply union_fill; [intros k n [Hn <-]; auto|]. intros k n Ek Eb. split; [|by apply Ca].
    apply list_elem_of_omap. exists k. split; [apply Ew; eauto|]. by rewrite lookup_union, Ek, union_Some_l. }
  assert (E1 : receive_all tb (inbox idb [(idb, digest)]) {| p_nodeID := idb; p_gset := gb; p_sent := [] |}
    = {| p_nodeID := idb; p_gset := gb; p_sent := map (pair ida) sent |}).
  { change [(idb, digest)] with (map (pair idb) [digest]). rewrite inbox_pairs. exact (receive_digest tb idb gb [] digest Rb eq_refl). }
  assert (E2 : receive_all ta sent {| p_nodeID := ida; p_gset := ga; p_sent := [(idb, digest)] |}
    = {| p_nodeID := ida; p_gset := ga ∪ gb;
         p_sent := ([(idb, digest)] ++ map (pair idb) (unless_empty (push_message ida (tr_clock ta)) owed))%list |}).
  { unfold sent. rewrite receive_all_app, (receive_all_push ta gb) by done. rewrite Eu.
    by rewrite receive_all_pull. }
  unfold exchange. rewrite (gossip_sends ta draw ida ga [] idb Ra Ep). cbn [p_nodeID p_sent app length].
  fold digest. rewrite E1. cbn [p_nodeID p_sent]. rewrite inbox_pairs, E2. cbn [app p_nodeID p_sent skipn].
  rewrite drop_0, inbox_pairs, (receive_all_push tb ga) by done. by rewrite Ev.
Qed.

(** Same keys, and under each the same content. *)
Definition same_set (s t : gmap string Node) : Prop :=
  forall k, match s !! k, t !! k with
            | Some a, Some b => same_content a b
            | None, None => True
            | _, _ => False
            end.

Definition node_text (n : Node) : bool := node_wf n && forallb valid_string (parents n).

Lemma consistent_union (s t : gmap string Node) : consistent s -> consistent t -> consistent (s ∪ t).
Proof. intros Cs Ct k n [E|[_ E]]%lookup_union_Some_raw; auto. Qed.

Lemma union_same (s t : gmap string Node) :
  consistent s -> consistent t -> map_Forall (fun _ n => node_text n = true) s ->
  map_Forall (fun _ n => node_text n = true) t -> same_set (s ∪ t) (t ∪ s) \/ collision.
Proof.
  intros Cs Ct Ws Wt.
  assert (R : forall n h, ComputeNodeHashE n = Ok h -> node_text n = true -> same_content n n \/ collision).
  { intros n h Eh W. unfold node_text in W. boolean. by eapply hash_binds. }
  destruct (all_or (fun k => match (s ∪ t) !! k, (t ∪ s) !! k with
      | Some a, Some b => same_content a b | None, None => True | _, _ => False end) collision
      (elements (dom (s ∪ t)))) as [A|C]; [| |by right].
  - intros k _. rewrite !lookup_union. destruct (s !! k) as [a|] eqn:Ea, (t !! k) as [b|] eqn:Eb;
      rewrite ?union_Some_l, ?(left_id_L None), ?(right_id_L None) by apply _.
    + pose proof (Ws _ _ Ea) as Wa. pose proof (Wt _ _ Eb) as Wb. unfold node_text in Wa, Wb. boolean.
      apply (hash_binds a b k); try done; [by apply Cs|by apply Ct].
    + eapply R; [by apply Cs|by eapply Ws].
    + eapply R; [by apply Ct|by eapply Wt].
    + by left.
  - left. intros k. destruct (decide (k ∈ dom (s ∪ t))) as [Hk|Hk]; [apply A; set_solver|].
    rewrite (proj1 (not_elem_of_dom _ _) Hk). by rewrite (proj1 (not_elem_of_dom (t ∪ s) k)) by set_solver.
Qed.

(** Merging replicas is a join: on sets whose nodes are kept under the hash
    of their content, [Merge] is union that keeps what it has, so it is
    idempotent and associative, its result is again such a set, and the two
    directions of a merge hold the same content, or SHA-256 collides. *)
Theorem gset_merge_join (s t u : gmap string Node) :
  consistent s -> consistent t -> consistent u ->
  map_Forall (fun _ n => node_text n = true) s -> map_Forall (fun _ n => node_text n = true) t ->
  (Merge s s).1 = s /\
  (Merge u (Merge t s).1).1 = (Merge (Merge u t).1 s).1 /\
  consistent (Merge t s).1 /\
  (same_set (Merge t s).1 (Merge s t).1 \/ collision).
Proof.
  intros Cs Ct Cu Ws Wt. rewrite (Merge_union u t), !Merge_union by auto using consistent_union. split_and!.
  - apply map_union_idemp.
  - by rewrite (assoc_L (∪)).
  - by apply consistent_union.
  - by apply union_same.
Qed.

(** C29. Gossip converges: over transports that deliver, one exchange (a digest,
    the push and pull it provokes, and the push that answers the pull) leaves both
    participants with the union of their sets, each keeping its own nodes; so both
    know exactly the same hashes. *)
Theorem gossip_exchange_converges ta tb draw a b :
  reliable ta -> reliable tb -> tr_peers ta !! draw = Some (p_nodeID b) ->
  p_sent a = [] -> p_sent b = [] -> consistent (p_gset a) -> consistent (p_gset b) ->
  let r := exchange ta tb draw a b in
  p_gset r.1 = p_gset a ∪ p_gset b /\ p_gset r.2 = p_gset b ∪ p_gset a /\
  forall h, Contains h (p_gset r.1) = Contains h (p_gset r.2).
Proof.
  intros Ra Rb Ep Sa Sb Ca Cb r. destruct (exchange_unions ta tb draw a b Ra Rb Ep Sa Sb Ca Cb) as [E1 E2].
  fold r in E1, E2. split_and!; [done|done|]. intros h. unfold Contains. rewrite E1, E2.
  apply bool_decide_ext. rewrite !lookup_union. by destruct (p_gset a !! h), (p_gset b !! h).
Qed.

End Replication.

(** * Condensation ends, and repeats are invisible *)

Section CondenseFacts.
Context `{Hash}.

Lemma pairs_ind {A} (P : list A -> Prop) :
  P [] -> (forall a, P [a]) -> (forall a b l, P l -> P (a :: b :: l)) -> forall l, P l.
Proof. intros H0 H1 H2. fix IH 1. intros [|a [|b l]]; [done|done|]. apply H2, IH. Qed.

Lemma next_level_length l : length (next_level l) = Nat.div2 (S (length l)).
Proof.
  induction l as [| a | a b l IH] using pairs_ind; [done|done|]. cbn [next_level length Nat.div2]. by rewrite IH.
Qed.

Lemma buildTree_total fuel l : (length l <= S fuel)%nat -> is_Some (buildTree fuel l).
Proof.
  revert l. induction fuel as [|fuel IH]; intros [|a [|b l]] Hl; cbn [length] in Hl; [eauto|eauto|lia|eauto|eauto|].
  cbn [buildTree]. apply IH. rewrite next_level_length.
  change (Nat.div2 (S (length (a :: b :: l)))) with (S (Nat.div2 (S (length l)))).
  pose proof (Nat.le_div2 (length l)). lia.
Qed.

(** The last hash of an odd level may be written once or twice. *)
Lemma next_level_repeat l c : Nat.even (length l) = true -> next_level (l ++ [c; c]) = next_level (l ++ [c]).
Proof.
  induction l as [| a | a b l IH] using pairs_ind; [done|done|]. cbn [length Nat.even app next_level].
  intros E. by rewrite IH.
Qed.

(** [Condense] always answers, and the tree does not show a repeated last hash:
    an odd number of sorted hashes and the same hashes with the last one twice
    have one root. *)
Theorem condense_repeat_invisible receipts :
  is_Some (Condense receipts) /\
  forall fuel l c, Nat.even (length l) = true -> l <> [] ->
    buildTree (S fuel) (l ++ [c; c]) = buildTree (S fuel) (l ++ [c]).
Proof.
  split.
  - destruct receipts as [|r l]; [by eexists|]. unfold Condense. apply buildTree_total.
    unfold sort_strings. rewrite length_fmap, (Permutation_length (sort_by_perm _)), !length_map. lia.
  - intros fuel [|a [|b l]] c E Hl; [done|done|]. cbn [app buildTree].
    change (a :: b :: l ++ [c; c])%list with ((a :: b :: l) ++ [c; c])%list.
    by rewrite next_level_repeat.
Qed.
End CondenseFacts.

(** * A worked example *)

Module ProofGraphDemo.

Definition ops : list graph_op :=
  [OpAppend "INTENT" RawNil "agent-1" 1 0;
   OpSigned "ATTESTATION" (RawText 9 (Some (JObj [("ok", JBool true)]))) "aa" "author" "kernel" 1 0;
   OpAppend "EFFECT" (RawText 3 None) "agent-1" 2 0;
   OpAppend "EFFECT" RawNil "agent-1" 3 0].

Definition graph : Graph := @run pad_hash ops NewGraph.

(** The third append has no JSON payload and is refused. *)
Lemma graph_shape :
  Len graph = 3%nat /\ LamportClock graph = 4%Z /\ length (Heads graph) = 1%nat.
Proof. vm_compute. split_and!; reflexivity. Qed.

Definition head : string := default "" (Heads graph !! 0%nat).

Lemma validates : @ValidateChain pad_hash head graph = Ok tt.
Proof. vm_compute. reflexivity. Qed.

Lemma proof_graph_validates_witness : @ValidateChain pad_hash head graph = Ok tt.
Proof.
  destruct (@proof_graph_validates pad_hash pad_hash_laws ops) as (_&Hh&V). apply V, Hh.
  assert (E : bool_decide (head ∈ Heads graph) = true) by (vm_compute; reflexivity).
  exact (bool_decide_eq_true_1 _ E).
Defined.

Lemma graph_keyed : keyed graph.
Proof. apply (@graph_run_ok pad_hash pad_hash_laws ops NewGraph), (@NewGraph_ok pad_hash pad_hash_laws). Qed.

Lemma graph_wf k n : g_nodes graph !! k = Some n -> node_wf n = true.
Proof.
  assert (E : bool_decide (map_Forall (fun _ n => node_wf n = true) (g_nodes graph)) = true)
    by (vm_compute; reflexivity).
  apply bool_decide_eq_true_1 in E. intros En. exact (E k n En).
Qed.

Lemma get_chain_exact_witness : exists l, GetChain head (g_nodes graph) = Some l /\ NoDup (map n_NodeHash l).
Proof.
  destruct (get_chain_exact (g_nodes graph) head) as (l&E&N&_); [exact graph_keyed|].
  exists l. split; [exact E|exact N].
Defined.

Lemma proof_graph_tamper_evident_witness :
  (exists a b, g_nodes graph !! head = Some a /\ g_nodes graph !! head = Some b /\ same_content a b)
  \/ @collision pad_hash.
Proof.
  destruct (@proof_graph_tamper_evident pad_hash graph graph head) as [A|C].
  - exact graph_keyed.
  - exact graph_keyed.
  - exact graph_wf.
  - exact graph_wf.
  - exact validates.
  - exact validates.
  - left. apply A. constructor.
  - right. exact C.
Defined.

Definition set_a : gmap string Node := g_nodes graph.
Definition set_b : gmap string Node := g_nodes (@run pad_hash [OpAppend "CHECKPOINT" RawNil "peer" 1 0] NewGraph).

Lemma sets_consistent : @consistent pad_hash set_a /\ @consistent pad_hash set_b.
Proof.
  assert (E : bool_decide (map_Forall (fun k n => n_NodeHash n = k /\ @ComputeNodeHashE pad_hash n = Ok k) set_a /\
    map_Forall (fun k n => n_NodeHash n = k /\ @ComputeNodeHashE pad_hash n = Ok k) set_b) = true)
    by (vm_compute; reflexivity).
  apply bool_decide_eq_true_1 in E. exact E.
Qed.

Lemma sets_text : map_Forall (fun _ n => node_text n = true) set_a /\ map_Forall (fun _ n => node_text n = true) set_b.
Proof.
  assert (E : bool_decide (map_Forall (fun _ n => node_text n = true) set_a /\
    map_Forall (fun _ n => node_text n = true) set_b) = true) by (vm_compute; reflexivity).
  apply bool_decide_eq_true_1 in E. exact E.
Qed.

Lemma gset_merge_join_witness :
  same_set (Merge set_b set_a).1 (Merge set_a set_b).1 \/ @collision pad_hash.
Proof.
  apply (@gset_merge_join pad_hash set_a set_b ∅).
  - apply sets_consistent.
  - apply sets_consistent.
  - apply consistent_empty.
  - apply sets_text.
  - apply sets_text.
Defined.

Definition transport : Transport := {| tr_send := fun _ _ => Ok tt; tr_peers := ["b"]; tr_clock := 0%Z |}.
Definition peer_a : Peer := {| p_nodeID := "a"; p_gset := set_a; p_sent := [] |}.
Definition peer_b : Peer := {| p_nodeID := "b"; p_gset := set_b; p_sent := [] |}.

Lemma gossip_exchange_converges_witness :
  p_gset (@exchange pad_hash transport transport 0 peer_a peer_b).1 = set_a ∪ set_b.
Proof.
  apply (@gossip_exchange_converges pad_hash transport transport 0 peer_a peer_b).
  - intros p m. reflexivity.
  - intros p m. reflexivity.
  - reflexivity.
  - reflexivity.
  - reflexivity.
  - apply sets_consistent.
  - apply sets_consistent.
Defined.
End ProofGraphDemo.
