(* ===== verification/Guardian.v ===== *)
(** The Guardian, [core/pkg/guardian] (guardian.go, interceptor.go,
    capability.go, zeroid.go, assumption.go, roster.go): one decision from
    request to signed record, and the issue of execution intents.

    [World] holds the mutable objects behind the Guardian's pointers, [Guardian]
    the dependencies fixed at construction ([None] is a nil pointer).
    Components modelled in this library are used as they are; a collaborator
    that is not (policy decision point, snapshot store, scanner, budget gate and
    so on) is a record of operations over an abstract state [Ext], about which
    nothing is assumed.  The clocks are one stream of readings, consumed in
    program order, and crypto/rand is a stream of 16-byte draws; telemetry is
    left out. *)
From stdpp Require Import sorting.
From Stdlib Require Import SpecFloat Ascii.
From S2P Require Import Prelude GoLib GoFmt Utf8 Jcs Contracts Signing Capability ScopedStop KillSwitch Identity Egress Temporal Trust Prg AuditLog SafeDep PolicyScopes.

Local Open Scope string_scope.

(** * Runtime inputs *)

(** [clk] and [rng] are the successive readings; [env_fingerprint_inputs] and
    [freeze_source] what the operating system and the operator's state file
    say at this decision; [HELM_TAINT_TRACKING] the environment variable;
    [math_Exp] the exponential of the trust decay; the two decoders are
    [json.Unmarshal] into the assumption list and into the authority window
    (lease expiry and runtime limit) of a sandbox authorization. *)
Class Runtime := {
  clk : nat -> time;
  rng : nat -> bytes;
  env_now : ContextGuard.environment;
  freeze_source : res Freeze.FreezeStateSnapshot;
  HELM_TAINT_TRACKING : string;
  math_Exp : float64 -> float64;
  decode_assumptions : json -> res (list ObservedAssumption);
  decode_sandbox_window : json -> res (time * duration);
}.

(** * Requests *)

Record SessionAction := {
  sa_Action : string;
  sa_Resource : string;
  sa_Verdict : string;
  sa_Timestamp : Z;
}.

Record DecisionRequest := {
  rq_Principal : string;
  rq_Action : string;
  rq_Resource : string;
  rq_Context : ctx;
  rq_SessionHistory : list SessionAction;
}.
#[export] Instance DecisionRequest_eta : Eta DecisionRequest := fun r => {|
  rq_Principal := rq_Principal r; rq_Action := rq_Action r; rq_Resource := rq_Resource r;
  rq_Context := rq_Context r; rq_SessionHistory := rq_SessionHistory r |}.

(** * Collaborators *)

Record PDPResponse := {
  pr_Allow : bool;
  pr_ReasonCode : string;
  pr_PolicyRef : string;
  pr_DecisionHash : string;
}.

Record SessionRiskSnapshot := {
  TrajectoryRiskScore : float64;
  SessionCentroidHash : string;
  RiskAccumulationWindow : Z;
}.

Record ComplianceCheckResult := {
  Compliant : bool;
  cr_Reason : string;
  ViolatedObligations : list string;
}.

Section Collaborators.
Context {Ext : Type}.
(** An operation of a collaborator. *)
Definition op (A : Type) : Type := Ext -> Ext * A.

(** [pdp.PolicyDecisionPoint]; [pd_AuthoritativeAllow] is [None] when the
    backend does not implement the authoritative interface. *)
Record PolicyDecisionPoint := {
  pd_Evaluate : string -> string -> string -> ctx -> time -> op (res PDPResponse);
  pd_Backend : string;
  pd_PolicyHash : string;
  pd_AuthoritativeAllow : option bool;
}.

(** The use of [*safedep.Controller]: [SignalFromContext] and [Classify]; [None]
    for an empty signal, else the state and the reason code. *)
Definition classify_context (ctl : Controller.Controller Ext) (c : ctx)
    : op (option (res (string * string))) := fun x =>
  let signal := SignalFromContext c in
  if Empty signal then (x, None)
  else let '(x', r) := Controller.Classify ctl signal x in
       (x', Some (cl ← r; Ok (hc_State cl, hc_ReasonCode cl))).

(** [*capability.TokenVerifier]: [capability.DecodeToken] and [Verify]. *)
Record CapabilityVerifier := {
  cv_Decode : any -> res Token;
  cv_Verify : VerifyRequest -> op (res Token);
}.

Record BudgetGate := {
  bg_Check : string -> op (res bool);
  bg_Consume : string -> op (res unit);
}.

Record SessionRiskMemory := {
  sr_Evaluate : string -> list SessionAction -> DecisionRequest -> op SessionRiskSnapshot;
  sr_ShouldDeny : SessionRiskSnapshot -> bool;
}.

Record WarmLeaseManager := {
  wl_Acquire : string -> op (res positive);
  wl_Release : positive -> op unit;
}.

Context `{Cel}.

(** [policyreconcile.EffectivePolicySnapshot] *)
Record EffectivePolicySnapshot := {
  sn_Status : string;
  sn_PolicyHash : string;
  sn_PolicyEpoch : Z;
  sn_Graph : option (gmap string RequirementSet);
  sn_PDP : option PolicyDecisionPoint;
}.

(** ** The Guardian: dependencies fixed by [NewGuardian] *)
Record Guardian := {
  g_prg : gmap string RequirementSet;
  g_registry : string -> op (res ArtifactEnvelope);
  g_tracker : option BudgetGate;
  g_envFprint : string;
  g_gateRosterHash : string;
  g_pdp : option PolicyDecisionPoint;
  g_snapshotStore : option (PolicyScope -> op (option EffectivePolicySnapshot));
  g_snapshotScope : PolicyScope;
  g_complianceChecker : option (string -> string -> ctx -> op (res ComplianceCheckResult));
  g_capabilityRegistry : option Registry;
  g_capabilityVerifier : option CapabilityVerifier;
  g_rollbackPlans : option (string -> op (option RollbackPlanEntry));
  g_scopedStopReader : option (string -> string -> op (res (FenceState * bool)));
  g_threatScanner : option (string -> string -> string -> op ThreatScanResult);
  g_semanticEscalationThresholdBP : Z;
  g_scorerConfig : ScorerConfig;
  g_privilegeResolver : option (string -> op (res PrivilegeTier));
  g_sessionRiskMemory : option SessionRiskMemory;
  g_warmLeaseMgr : option WarmLeaseManager;
  g_safeDepController : option (Controller.Controller Ext);
  g_assumptionObserver : option (ObservedAssumption -> op (res string));
}.

(** ** The mutable objects *)
Record World := {
  w_freeze : option Freeze.FreezeController;
  w_kill : option AgentKill.AgentKillSwitch;
  w_context : option ContextGuard.ContextGuard;
  w_isolation : option Isolation.IsolationChecker;
  w_egress : option EgressChecker.EgressChecker;
  w_temporal : option TemporalGuardian;
  w_delegation : option Delegation.InMemoryDelegationStore;
  w_scores : option (gmap string BehavioralTrustScore);
  w_audit : option (list AuditEntry);
  w_revocationList : gmap string bool;
  w_prgCache : gmap string Program;
  w_clock : nat;
  w_rng : nat;
  w_ext : Ext;
}.
#[export] Instance World_eta : Eta World := fun w => {|
  w_freeze := w_freeze w; w_kill := w_kill w; w_context := w_context w;
  w_isolation := w_isolation w; w_egress := w_egress w; w_temporal := w_temporal w;
  w_delegation := w_delegation w; w_scores := w_scores w; w_audit := w_audit w;
  w_revocationList := w_revocationList w; w_prgCache := w_prgCache w; w_clock := w_clock w;
  w_rng := w_rng w; w_ext := w_ext w |}.

(** [EvaluationContext] *)
Record EvaluationContext := {
  ec_Request : DecisionRequest;
  ec_ActiveSnapshot : option EffectivePolicySnapshot;
  ec_PolicyVersion : string;
  ec_ActiveGraph : gmap string RequirementSet;
  ec_ActivePDP : option PolicyDecisionPoint;
  ec_Tainted : bool;
  ec_Intervention : option InterventionMetadata;
  ec_ThreatScanResult : option ThreatScanResult;
  ec_SessionRiskSnapshot : option SessionRiskSnapshot;
  ec_PDPBackend : string;
  ec_PDPHash : string;
  ec_PDPDecisionHash : string;
  ec_PDPAuthoritativeAllow : bool;
}.
#[export] Instance EvaluationContext_eta : Eta EvaluationContext := fun e => {|
  ec_Request := ec_Request e; ec_ActiveSnapshot := ec_ActiveSnapshot e;
  ec_PolicyVersion := ec_PolicyVersion e; ec_ActiveGraph := ec_ActiveGraph e;
  ec_ActivePDP := ec_ActivePDP e; ec_Tainted := ec_Tainted e;
  ec_Intervention := ec_Intervention e; ec_ThreatScanResult := ec_ThreatScanResult e;
  ec_SessionRiskSnapshot := ec_SessionRiskSnapshot e; ec_PDPBackend := ec_PDPBackend e;
  ec_PDPHash := ec_PDPHash e; ec_PDPDecisionHash := ec_PDPDecisionHash e;
  ec_PDPAuthoritativeAllow := ec_PDPAuthoritativeAllow e |}.
End Collaborators.
Arguments op : clear implicits.
Arguments PolicyDecisionPoint : clear implicits.
Arguments EffectivePolicySnapshot Ext {_}.
Arguments Guardian Ext {_}.
Arguments World Ext {_}.
Arguments EvaluationContext Ext {_}.

(** * Text and numbers *)

(** [strconv.ParseUint(s, 10, 64)] *)
Fixpoint parse_digits (acc : Z) (l : bytes) : option Z :=
  match l with
  | [] => Some acc
  | c :: l' => d ← Net.digit c; parse_digits (acc * 10 + d)%Z l'
  end.
Definition ParseUint (s : string) : option Z :=
  match to_bytes s with
  | [] => None
  | l => z ← parse_digits 0 l; if (z <=? 18446744073709551615)%Z then Some z else None
  end.

(** [%v] of a [[]string] *)
Definition fmt_strings (l : list string) : string := "[" +:+ join " " l +:+ "]".

(** [Time.Unix()] *)
Definition Unix (t : time) : Z := (t / second)%Z.

(** * Reading the request context *)

Definition ContextSecurityTrusted := "security_context_trusted".
Definition ContextCredentialHash := "credential_hash".
Definition ContextSessionID := "session_id".
Definition ContextSourceChannel := "source_channel".
Definition ContextTrustLevel := "trust_level".
Definition ContextEffectClass := "effect_class".
Definition ContextDestination := "destination".
Definition ContextEgressDestinationRequired := "egress_destination_required".
Definition ContextThreatScan := "threat_scan".
Definition ContextAllowTaintedEgress := "allow_tainted_egress".
Definition semanticScannerMissing := "SCANNER_UNAVAILABLE".

Definition IsReservedSecurityContextKey (key : string) : bool :=
  existsb (String.eqb (trim_space key))
    [ContextSecurityTrusted; ContextCredentialHash; ContextSessionID; ContextSourceChannel;
     ContextTrustLevel; ContextEffectClass; ContextDestination; ContextEgressDestinationRequired;
     ContextThreatScan; ContextAllowTaintedEgress].

Fixpoint stringContextValue (c : ctx) (keys : list string) : option string :=
  match keys with
  | [] => None
  | key :: keys =>
      match as_string (ctx_get c key) with
      | Some text => let text := trim_space text in
                     if String.eqb text "" then stringContextValue c keys else Some text
      | None => stringContextValue c keys
      end
  end.

Definition tenant_keys := ["tenant_id"; "tenantId"; "tenant"].
Definition workspace_keys := ["workspace_id"; "workspaceId"; "workspace"].

Definition trustedSecurityContext (c : ctx) : bool := default false (as_bool (ctx_get c ContextSecurityTrusted)).

Definition trustedContextString (c : ctx) (key : string) : option string :=
  if negb (trustedSecurityContext c) then None
  else value ← as_string (ctx_get c key);
       let value := trim_space value in
       if String.eqb value "" then None else Some value.

Definition trustedContextBool (c : ctx) (key : string) : option bool :=
  if negb (trustedSecurityContext c) then None else as_bool (ctx_get c key).

Definition trustedInputProvenance (c : ctx) : string * string :=
  if negb (trustedSecurityContext c) then (SourceChannelUnknown, InputTrustExternalUntrusted)
  else
    (default SourceChannelUnknown (trustedContextString c ContextSourceChannel),
     match trustedContextString c ContextTrustLevel with
     | Some tl =>
         if existsb (String.eqb tl) [InputTrustTrusted; InputTrustInternalUnverified;
                                     InputTrustExternalUntrusted; InputTrustTainted]
         then tl else InputTrustExternalUntrusted
     | None => InputTrustExternalUntrusted
     end).

Definition taintedEgressDenied (override : bool) (values : ctx) (labels : list string) : bool :=
  match labels, values with
  | [], _ | _, None => false
  | _, Some _ =>
      if default false (as_bool (ctx_get values ContextAllowTaintedEgress)) && override then false
      else if blank (string_or_empty (ctx_get values ContextDestination)) then false
      else TaintContainsAny labels [TaintPII; TaintCredential; TaintSecret]
  end.

Definition sessionRiskSessionID (req : DecisionRequest) : string :=
  match as_string (ctx_get (rq_Context req) "session_id") with
  | Some sid => if negb (blank sid) then sid else
      match as_string (ctx_get (rq_Context req) "delegation_session_id") with
      | Some sid => if negb (blank sid) then sid else rq_Principal req
      | None => rq_Principal req
      end
  | None =>
      match as_string (ctx_get (rq_Context req) "delegation_session_id") with
      | Some sid => if negb (blank sid) then sid else rq_Principal req
      | None => rq_Principal req
      end
  end.

Definition put_all (kvs : list (string * any)) (c : ctx) : ctx :=
  foldl (fun c kv => ctx_put c kv.1 kv.2) c kvs.

Definition attachSessionRiskContext (c : ctx) (s : SessionRiskSnapshot) : ctx :=
  put_all [("trajectory_risk_score", AFloat (TrajectoryRiskScore s));
           ("session_centroid_hash", AString (SessionCentroidHash s));
           ("risk_accumulation_window", AInt (RiskAccumulationWindow s))] c.

Definition json_of_session_action (a : SessionAction) : json :=
  JObj [("action", JStr (sa_Action a)); ("resource", JStr (sa_Resource a));
        ("verdict", JStr (sa_Verdict a)); ("timestamp", JNum (dec (sa_Timestamp a)))].

(** The session-history enrichment of [EvaluateDecision]. *)
Definition attachSessionHistory (req : DecisionRequest) : DecisionRequest :=
  match rq_SessionHistory req with
  | [] => req
  | hist =>
      let denyCount := length (List.filter (fun a => String.eqb (sa_Verdict a) "DENY") hist) in
      req <| rq_Context := put_all
        [("session_history", AOther (JArr (map json_of_session_action hist)));
         ("session_action_count", AInt (Z.of_nat (length hist)));
         ("session_deny_count", AInt (Z.of_nat denyCount))] (rq_Context req) |>
  end.

Definition planHashFromContext (c : ctx) : string := string_or_empty (ctx_get c "plan_hash").

Definition responseToIntervention (level : ResponseLevel) : InterventionType :=
  if (level =? ResponseInterrupt)%Z then InterventionInterrupt
  else if (level =? ResponseQuarantine)%Z then InterventionQuarantine
  else if (level =? ResponseFailClosed)%Z then InterventionQuarantine
  else InterventionNone.

(** * Threat evidence *)

Definition ContainsHighRiskFindings (r : ThreatScanResult) : bool :=
  SeverityAtLeast (ts_MaxSeverity r) ThreatSeverityHigh.

Definition semanticSafetyPriority (r : ThreatScanResult) : Z :=
  match ts_Semantic r with
  | None => 0
  | Some s => if negb (sm_Available s) then 2 else if sm_InputTruncated s then 1 else 0
  end.

Definition semanticMaxBP (r : ThreatScanResult) : Z :=
  match ts_Semantic r with
  | Some s => if sm_Available s then sm_MaxBP s else 0
  | None => 0
  end.

Definition preferredThreatScanResult (current : option ThreatScanResult) (candidate : ThreatScanResult)
    : ThreatScanResult :=
  match current with
  | None => candidate
  | Some current =>
      let high r := IsTainted (ts_TrustLevel r) && ContainsHighRiskFindings r in
      if negb (Bool.eqb (high current) (high candidate))
      then (if high candidate then candidate else current)
      else if negb (semanticSafetyPriority current =? semanticSafetyPriority candidate)%Z
      then (if (semanticSafetyPriority current <? semanticSafetyPriority candidate)%Z
            then candidate else current)
      else if negb (semanticMaxBP current =? semanticMaxBP candidate)%Z
      then (if (semanticMaxBP current <? semanticMaxBP candidate)%Z then candidate else current)
      else if negb (ts_FindingCount current =? ts_FindingCount candidate)%Z
      then (if (ts_FindingCount current <? ts_FindingCount candidate)%Z then candidate else current)
      else if string_lt (ts_RawInputHash candidate) (ts_RawInputHash current) then candidate
      else current
  end.

(** The reason code of a denied scan: the last finding of a known class. *)
Definition threat_reason (findings : list ThreatFinding) : ReasonCode :=
  foldl (fun code f =>
    if String.eqb (tf_Class f) ThreatClassPromptInjection then ReasonPromptInjectionDetected
    else if String.eqb (tf_Class f) ThreatClassUnicodeObfuscation then ReasonUnicodeObfuscationDetected
    else if String.eqb (tf_Class f) ThreatClassCredentialExposure then ReasonTaintedCredentialDeny
    else if String.eqb (tf_Class f) ThreatClassSoftwarePublish then ReasonTaintedPublishDeny
    else if String.eqb (tf_Class f) ThreatClassSuspiciousFetch then ReasonTaintedEgressDeny
    else code) ReasonTaintedInputDeny findings.

(** * Deny reasons of the policy graph *)

Definition inputFieldType (value : any) : string :=
  match value with
  | AMap _ => "object"
  | AString _ => "string"
  | ABool _ => "boolean"
  | ANil => "null"
  | AStrings _ | AList _ => "array"
  | AOther (JArr _) => "array"
  | _ => "number"
  end.

Definition missingRequirementReason (failures : list string) (input : PolicyInput) : string :=
  let fields := "artifacts (array)"
                :: map (fun kv => kv.1 +:+ " (" +:+ inputFieldType kv.2 +:+ ")") (map_to_list (in_vars input)) in
  reason_text ReasonMissingRequirement +:+ ": policy requirement not met"
  +:+ (match failures with [] => "" | _ => "; blocking requirement(s): " +:+ join ", " failures end)
  +:+ "; available input.* fields: " +:+ join ", " (sort_strings fields).

(** [json.Marshal] of an effect; a cyclic compensation chain is an error. *)
Fixpoint json_of_effect (fuel : nat) (h : effects) (l : loc) : res json :=
  match fuel with
  | O => Fail "json: unsupported value: encountered a cycle"
  | S fuel =>
      match h !! l with
      | None => Fail err_panic
      | Some e =>
          params ← match ef_Params e with None => Ok JNull | Some m => json_of_obj m end;
          comp ← match ef_Compensation e with
                 | None => Ok []
                 | Some c => j ← json_of_effect fuel h c; Ok [("compensation", j)]
                 end;
          Ok (JObj ([("effect_id", JStr (ef_EffectID e)); ("type", JStr (ef_EffectType e)); ("params", params)]
            ++ opt_string "example" (ef_Example e) ++ opt_string "decision_id" (ef_DecisionID e)
            ++ opt_string "idempotency_key" (ef_IdempotencyKey e) ++ comp
            ++ opt_field (negb (ef_Irreversible e)) "irreversible" (JBool true)
            ++ opt_string "args_hash" (ef_ArgsHash e) ++ opt_string "output_hash" (ef_OutputHash e)
            ++ opt_field (bool_decide (ef_Taint e = [])) "taint" (JArr (map JStr (ef_Taint e))))%list)
      end
  end.

(** [toMap]: numbers are kept by their literal. *)
Definition toMap (h : effects) (l : loc) : res any :=
  j ← json_of_effect (digest_fuel h) h l; Ok (any_of_json (reparse j)).

Definition checkEnvelope (effect : Effect) : res unit :=
  if String.eqb (ef_EffectType effect) "" then Fail "missing effect type"
  else if String.eqb (ef_EffectID effect) "" then Fail "missing effect ID"
  else Ok tt.

Definition EffectTypeRunSandboxedCode := "RUN_SANDBOXED_CODE".

(** The tool a rule or an intent is looked up by. *)
Definition tool_or_type (effect : Effect) : string :=
  match as_string (ctx_get (ef_Params effect) "tool_name") with
  | Some toolName => if negb (String.eqb toolName "") then toolName else ef_EffectType effect
  | None => ef_EffectType effect
  end.

Definition executionIntentAllowedTool (effect : Effect) : string :=
  if String.eqb (ef_EffectType effect) EffectTypeRunSandboxedCode then ef_EffectType effect
  else tool_or_type effect.

Definition defaultExecutionIntentTTL : duration := (5 * minute)%Z.
Definition sandboxIntentDispatchWindow : duration := (5 * minute)%Z.
Definition sandboxIntentMinimumDispatchTime : duration := second.

Definition executionIntentExpiresAt `{Runtime} (effect : Effect) (now : time) : res time :=
  if negb (String.eqb (ef_EffectType effect) EffectTypeRunSandboxedCode)
  then Ok (time_add now defaultExecutionIntentTTL)
  else match ef_Params effect with
  | None => Fail "sandbox execution intent requires complete authorization parameters"
  | Some params =>
      match params !! "param.sandbox_execution" with
      | None | Some ANil =>
          Fail "sandbox execution intent requires complete runtime and lease authorization"
      | Some value =>
          payload ← wrap_err "encode sandbox execution authority window: " (json_of_any value);
          '(expires, runtimeTimeout) ← wrap_err "decode sandbox execution authority window: "
                                         (decode_sandbox_window payload);
          let leaseRemaining := time_sub expires now in
          if (runtimeTimeout <=? 0)%Z || is_zero expires
          then Fail "sandbox execution intent requires a positive signed runtime and lease expiry"
          else if (leaseRemaining <=? runtimeTimeout)%Z
          then Fail "sandbox execution lease does not leave enough authority for runtime and dispatch"
          else
            let dispatchWindow := (leaseRemaining - runtimeTimeout)%Z in
            if (dispatchWindow <? sandboxIntentMinimumDispatchTime)%Z
            then Fail "sandbox execution lease does not leave enough authority for runtime and dispatch"
            else Ok (time_add now (wrap64 (runtimeTimeout +
                       Z.min dispatchWindow sandboxIntentDispatchWindow)))
      end
  end.

(** * Signing funnels *)

Definition bind_field (name decision request : string) : res string :=
  if blank request then Fail ("request " +:+ name +:+ " is required")
  else if blank decision then Ok request
  else if String.eqb decision request then Ok decision
  else Fail ("decision " +:+ name +:+ " " +:+ goq decision +:+ " does not match evaluated request "
             +:+ goq request).

Definition bindDecisionRequest (d : DecisionRecord) (principal action resource : string) : res DecisionRecord :=
  s ← bind_field "subject ID" (dr_SubjectID d) principal;
  a ← bind_field "action" (dr_Action d) action;
  r ← bind_field "resource" (dr_Resource d) resource;
  Ok (d <| dr_SubjectID := s |> <| dr_Action := a |> <| dr_Resource := r |>).

Definition bind_request (d : DecisionRecord) (req : DecisionRequest) : res DecisionRecord :=
  bindDecisionRequest d (rq_Principal req) (rq_Action req) (rq_Resource req).

Definition bindRuntimePolicyDecision {Ext} `{Cel} (d : DecisionRecord)
    (snapshot : option (EffectivePolicySnapshot Ext)) (policyVersion : string) : DecisionRecord :=
  let d := if String.eqb (dr_PolicyVersion d) "" then d <| dr_PolicyVersion := policyVersion |> else d in
  match snapshot with
  | None => d
  | Some s => d <| dr_PolicyBackend := "helm" |> <| dr_PolicyContentHash := sn_PolicyHash s |>
                <| dr_PolicyEpoch := dec (sn_PolicyEpoch s) |>
  end.

(** [ID], [Timestamp], [Verdict], [ReasonCode] and [Reason] of a new record. *)
Definition new_record (id : string) (now : time) (verdict code reason : string) : DecisionRecord :=
  zero_decision <| dr_ID := id |> <| dr_Timestamp := now |> <| dr_Verdict := verdict |>
                <| dr_ReasonCode := code |> <| dr_Reason := reason |>.

Section Guardian.
Context `{Hash} `{Signer} `{Cel} `{Runtime} {Ext : Type} (g : Guardian Ext).

Definition signDecisionForRequest (d : DecisionRecord) (req : DecisionRequest)
    (snapshot : option (EffectivePolicySnapshot Ext)) (policyVersion : string) : res DecisionRecord :=
  d ← wrap_err "bind decision request: " (bind_request d req);
  SignDecision (bindRuntimePolicyDecision d snapshot policyVersion).

Definition signDecisionWithContext (d : DecisionRecord) (e : EvaluationContext Ext) : res DecisionRecord :=
  d ← wrap_err "bind decision request: " (bind_request d (ec_Request e));
  let d := match ec_ThreatScanResult e with
           | Some r => d <| dr_ThreatScan := Some (Ref r) |>
           | None => d
           end in
  SignDecision (bindRuntimePolicyDecision d (ec_ActiveSnapshot e) (ec_PolicyVersion e)).

(** * Effects on the world *)

Abbreviation W := (World Ext).
Abbreviation EC := (EvaluationContext Ext).

Definition now : M W time := fun w => (w <| w_clock := S (w_clock w) |>, Ok (clk (w_clock w))).

Definition randomID (prefix : string) : M W string := fun w =>
  (w <| w_rng := S (w_rng w) |>, Ok (prefix +:+ hex_encode (rng (w_rng w)))).
Definition newDecisionID : M W string := randomID "dec-".

(** A call of a collaborator. *)
Definition ext {A} (f : op Ext A) : M W A := fun w =>
  let '(x, a) := f (w_ext w) in (w <| w_ext := x |>, Ok a).

Definition recordBehavioralEvent (principal eventType reason : string) : M W unit := fun w =>
  match w_scores w with
  | Some scores =>
      if String.eqb principal "" then (w, Ok tt)
      else
        let event := {| EventType := eventType; Delta := 0; e_Reason := reason; Timestamp := zero_time |} in
        (t ← now; modify (fun w => w <| w_scores :=
           Some (RecordEvent math_Exp (g_scorerConfig g) principal event t scores) |>)) w
  | None => (w, Ok tt)
  end.

(** [auditLog.Append], with the canonical form of the record; the caller
    decides what an append error means. *)
Definition audit (action : string) (d : DecisionRecord) : M W (res unit) := fun w =>
  match w_audit w with
  | None => (w, Ok (Ok tt))
  | Some log =>
      let details := match JCS_res (json_of_decision d) with Ok b => of_bytes b | Fail _ => "" end in
      (t ← now;
       let '(log, r) := Append "guardian" action (dr_ID d) details t log in
       _ ← modify (fun w => w <| w_audit := Some log |>);
       mret (match r with Ok _ => Ok tt | Fail e => Fail e end)) w
  end.

(** An audit whose error is dropped. *)
Definition audit_ (action : string) (d : DecisionRecord) : M W unit := _ ← audit action d; mret tt.

(** * Gates

    A gate lets the (possibly enriched) evaluation context pass or stops with
    a signed decision; an interceptor runs the rest of the chain on the
    former. *)
Definition outcome : Type := EC + DecisionRecord.
Definition Gate : Type := EC -> M W outcome.
Definition Handler : Type := EC -> M W DecisionRecord.
Definition pass (e : EC) : M W outcome := mret (inl e).
Definition stop (c : M W DecisionRecord) : M W outcome := d ← c; mret (inr d).

Definition then_gate (a b : Gate) : Gate := fun e =>
  r ← a e; match r with inl e => b e | inr d => mret (inr d) end.
Definition intercept (a : Gate) (next : Handler) : Handler := fun e =>
  r ← a e; match r with inl e => next e | inr d => mret d end.

(** Sign a record for the context at hand, then the actions that follow it. *)
Definition refuse (what : string) (e : EC) (d : DecisionRecord) (after : DecisionRecord -> M W unit)
    : M W outcome :=
  stop (d ← lift (wrap_err ("failed to sign " +:+ what +:+ " decision: ") (signDecisionWithContext d e));
        _ ← after d; mret d).
Definition no_action (d : DecisionRecord) : M W unit := mret tt.

(** A refusal with a fresh record carrying only verdict, code and reason. *)
Definition deny_plain (what : string) (e : EC) (t : time) (code reason : string)
    (after : DecisionRecord -> M W unit) : M W outcome :=
  id ← newDecisionID;
  refuse what e (new_record id t VerdictDeny code reason) after.

Definition put (k : string) (v : any) (e : EC) : EC :=
  e <| ec_Request := (ec_Request e) <| rq_Context := ctx_put (rq_Context (ec_Request e)) k v |> |>.
Definition context (e : EC) : ctx := rq_Context (ec_Request e).
Definition principal (e : EC) : string := rq_Principal (ec_Request e).
Definition action (e : EC) : string := rq_Action (ec_Request e).
Definition resource (e : EC) : string := rq_Resource (ec_Request e).

Definition env_fp : string := if String.eqb (g_envFprint g) "" then "sha256:unconfigured" else g_envFprint g.

(** The effect a request stands for, and the request context after
    [tool_name] was written through the shared map. *)
Definition effect_of_request (id : string) (e : EC) : Effect * ctx :=
  let c := context e in
  let params := if String.eqb (action e) "EXECUTE_TOOL" then ctx_put c "tool_name" (AString (resource e)) else c in
  (zero_effect <| ef_EffectID := id |> <| ef_EffectType := action e |> <| ef_Params := params |>
               <| ef_Taint := TaintLabelsFromContext c |>,
   match c with None => None | Some _ => params end).

(** The new effect as a heap of its own. *)
Definition effect_loc : loc := 1%positive.
Definition heap_of (effect : Effect) : effects := {[effect_loc := effect]}.

(** ** ZeroIDInterceptor *)

Definition IngestCAEPRevocation (tokenHash : string) (w : W) : W :=
  w <| w_revocationList := <[tokenHash := true]> (w_revocationList w) |>.

Definition zeroid_deny (e : EC) (code : ReasonCode) (reason : string) : M W outcome :=
  t ← now; id ← newDecisionID;
  refuse "ZeroID deny" e
    ((new_record id t VerdictDeny code ("ZeroID validation failed: " +:+ reason))
       <| dr_EnvFingerprint := env_fp |> <| dr_InputContext := context e |>)
    (audit_ "ZEROID_DENY").

Definition zeroid_gate : Gate := fun e =>
  let token := string_or_empty (ctx_get (context e) "zeroid_token") in
  let spiffeURI := string_or_empty (ctx_get (context e) "spiffe_uri") in
  if String.eqb token "" && String.eqb spiffeURI "" then pass e
  else
    revoked ← gets w_revocationList;
    if negb (String.eqb token "") && set_mem revoked token
    then zeroid_deny e ReasonTaintedCredentialDeny "ZeroID token has been dynamically revoked via CAEP"
    else if negb (String.eqb spiffeURI "") && negb (has_prefix spiffeURI "spiffe://")
    then zeroid_deny e ReasonIdentityIsolationViolation "Invalid SPIFFE URI format"
    else zeroid_deny e ReasonIdentityIsolationViolation
           "ZeroID credential presented but no verification is possible; refusing to bind an unverified principal".

(** ** TemporalInterceptor *)

Definition evaluate_temporal : M W (option GradedResponse) :=
  tg ← gets w_temporal;
  match tg with
  | None => mret None
  | Some tg =>
      t1 ← now; t2 ← now; t3 ← now; t4 ← now;
      let '(tg, resp) := Temporal.Evaluate
        {| at_event := t1; at_record := t2; at_rate := t3; at_now := t4 |} tg in
      _ ← modify (fun w => w <| w_temporal := Some tg |>);
      mret (Some resp)
  end.

Definition temporal_gate : Gate := fun e =>
  resp ← evaluate_temporal;
  match resp with
  | None => pass e
  | Some resp =>
      if (ResponseInterrupt <=? Level resp)%Z then
        t ← now;
        eid ← randomID "eff-";
        let '(effect, c) := effect_of_request eid e in
        effectDigest ← lift (wrap_err "canonicalize effect digest: "
                               (CanonicalEffectDigest (heap_of effect) (Some effect_loc)));
        id ← newDecisionID;
        let ty := responseToIntervention (Level resp) in
        let intervention := zero_intervention <| im_Type := ty |>
          <| im_ReasonCode := ReasonTemporalIntervene |> <| im_WaitDuration := Duration resp |> in
        refuse "temporal-deny" e
          ((new_record id t VerdictEscalate ReasonTemporalIntervene
              ("Temporal Intervention: " +:+ intervention_text ty +:+ " (" +:+ ReasonTemporalIntervene +:+ ")"))
             <| dr_Intervention := Some intervention |> <| dr_EffectDigest := effectDigest |>
             <| dr_InputContext := c |> <| dr_EnvFingerprint := env_fp |>
             <| dr_PolicyVersion := ec_PolicyVersion e |>)
          (audit_ "DECISION_MADE")
      else if (Level resp =? ResponseThrottle)%Z then
        pass (e <| ec_Intervention := Some (zero_intervention <| im_Type := InterventionThrottle |>
                  <| im_ReasonCode := ReasonTemporalThrottle |> <| im_WaitDuration := Duration resp |>) |>)
      else pass e
  end.

(** ** FreezeInterceptor *)

Definition freeze_check : Gate := fun e =>
  fc ← gets w_freeze;
  match fc with
  | None => pass e
  | Some fc =>
      let '(fc, frozen) := Freeze.IsFrozen freeze_source fc in
      _ ← modify (fun w => w <| w_freeze := Some fc |>);
      if frozen
      then t ← now; deny_plain "freeze-deny" e t ReasonSystemFrozen ReasonSystemFrozen no_action
      else pass e
  end.

(** [scopedStopDecisionBinding]: the input context and the effect digest. *)
Definition scopedStopDecisionBinding (c : ctx) (code : ReasonCode) (state : option FenceState)
    : res (ctx * string) :=
  let tenantID := default "" (stringContextValue c tenant_keys) in
  let workspaceID := default "" (stringContextValue c workspace_keys) in
  scopePayload ← JCS (JObj [("tenant_id", JStr tenantID); ("workspace_id", JStr workspaceID)]);
  let scopeHash := HashBytes scopePayload in
  let inputContext := Some (list_to_map
    ([("emergency_stop_scope_hash", AString scopeHash);
      ("emergency_stop_reason_code", AString code)]
     ++ match state with
        | Some s => [("emergency_stop_command_id", AString (fs_CommandID s));
                     ("emergency_stop_epoch", AInt (fs_Epoch s));
                     ("emergency_stop_receipt_hash", AString (fs_ReceiptHash s))]
        | None => []
        end)%list : obj) in
  payload ← JCS (JObj ([("purpose", JStr "emergency-stop-denial.v1"); ("reason_code", JStr code);
                        ("scope_hash", JStr scopeHash)]
    ++ match state with
       | Some s => opt_string "command_id" (fs_CommandID s)
                   ++ opt_field (fs_Epoch s =? 0)%Z "epoch" (JNum (dec (fs_Epoch s)))
                   ++ opt_string "receipt_hash" (fs_ReceiptHash s)
       | None => []
       end)%list);
  Ok (inputContext, HashBytes payload).

Definition scopedStopDeny (e : EC) (code : ReasonCode) (reason : string) (state : option FenceState)
    : M W outcome :=
  '(inputContext, effectDigest) ← lift (wrap_err "bind scoped emergency-stop deny decision: "
                                          (scopedStopDecisionBinding (context e) code state));
  id ← newDecisionID; t ← now;
  refuse "scoped emergency-stop deny" e
    ((new_record id t VerdictDeny code reason) <| dr_EffectDigest := effectDigest |>
       <| dr_InputContext := inputContext |>) no_action.

Definition scoped_stop_check : Gate := fun e =>
  match g_scopedStopReader g with
  | None => pass e
  | Some isFenced =>
      match stringContextValue (context e) tenant_keys, stringContextValue (context e) workspace_keys with
      | Some tenantID, Some workspaceID =>
          r ← ext (isFenced tenantID workspaceID);
          match r with
          | Fail _ => scopedStopDeny e ReasonEmergencyStopUnverified
                        "Scoped emergency-stop status is unavailable; denying dispatch." None
          | Ok (state, true) => scopedStopDeny e ReasonEmergencyStopFenced
              ("Scoped emergency-stop fence is active at epoch " +:+ dec (fs_Epoch state) +:+ ".") (Some state)
          | Ok (_, false) => pass e
          end
      | _, _ => scopedStopDeny e ReasonEmergencyStopScopeRequired
                  "Tenant and workspace scope are required while emergency-stop fencing is enabled." None
      end
  end.

Definition kill_check : Gate := fun e =>
  ks ← gets w_kill;
  match ks with
  | Some ks =>
      if AgentKill.IsKilled (principal e) ks
      then t ← now; deny_plain "agent-killed" e t ReasonAgentKilled ReasonAgentKilled no_action
      else pass e
  | None => pass e
  end.

Definition context_check : Gate := fun e =>
  cg ← gets w_context;
  match cg with
  | None => pass e
  | Some cg =>
      t0 ← now;
      let '(cg, err) := ContextGuard.ValidateCurrent env_now t0 cg in
      _ ← modify (fun w => w <| w_context := Some cg |>);
      match err with
      | None => pass e
      | Some err =>
          t ← now;
          deny_plain "context-mismatch" e t ReasonContextMismatch
            ("CONTEXT_MISMATCH: " +:+ ContextGuard.Error err) no_action
      end
  end.

Definition freeze_gate : Gate :=
  then_gate freeze_check (then_gate scoped_stop_check (then_gate kill_check context_check)).

(** ** PDPInterceptor *)

Definition pdp_deny (e : EC) (what : string) (code : ReasonCode) (reason : string) : M W outcome :=
  t ← now; deny_plain what e t code reason no_action.

(** Gate 2: credential isolation. *)
Definition isolation_check : Gate := fun e =>
  ic ← gets w_isolation;
  match ic with
  | Some ic =>
      if String.eqb (principal e) "" then pass e
      else match trustedContextString (context e) ContextCredentialHash with
      | None => pdp_deny e "isolation-violation" ReasonIdentityIsolationViolation
                  "IDENTITY_ISOLATION_VIOLATION: missing trusted credential_hash"
      | Some credHash =>
          let sessionID := default "" (trustedContextString (context e) ContextSessionID) in
          t ← now;
          let '(ic, r) := Isolation.ValidateAgentIdentity (principal e) credHash sessionID t ic in
          _ ← modify (fun w => w <| w_isolation := Some ic |>);
          match r with
          | Ok _ => pass e
          | Fail err => pdp_deny e "isolation-violation" ReasonIdentityIsolationViolation
                          ("IDENTITY_ISOLATION_VIOLATION: " +:+ err)
          end
      end
  | None => pass e
  end.

Definition scan_keys := ["user_input"; "text"; "content"].

Definition scannable (c : ctx) (key : string) : option string :=
  text ← as_string (ctx_get c key); if String.eqb text "" then None else Some text.

(** A configured semantic escalation without a scanner: explicit unavailable
    evidence for the first scannable text. *)
Definition unavailable_scan (channel trustLevel : string) : Gate := fun e =>
  match omap (scannable (context e)) scan_keys with
  | [] => pass e
  | text :: _ =>
      let sum := sha256 (to_bytes text) in
      let inputHash := "sha256:" +:+ hex_encode sum in
      t ← now;
      pass (e <| ec_ThreatScanResult := Some {|
        ts_ScanID := "scan-unavailable-" +:+ hex_encode (take 8 sum); ts_Timestamp := t;
        ts_SourceChannel := channel; ts_TrustLevel := trustLevel; ts_MaxSeverity := ThreatSeverityInfo;
        ts_FindingCount := 0; ts_Findings := []; ts_RawInputHash := inputHash;
        ts_NormalizedInputHash := inputHash;
        ts_Semantic := Some (zero_sm_rec <| sm_FailureReason := semanticScannerMissing |>
                               <| sm_ThresholdBP := g_semanticEscalationThresholdBP g |>) |} |>)
  end.

Definition threat_deny (e : EC) (trustLevel : string) (scan : ThreatScanResult) : M W outcome :=
  t ← now;
  let code := threat_reason (ts_Findings scan) in
  id ← newDecisionID;
  refuse "threat-deny" e
    ((new_record id t VerdictDeny code
        (reason_text code +:+ ": " +:+ dec (ts_FindingCount scan) +:+ " findings (max="
         +:+ ts_MaxSeverity scan +:+ ") from " +:+ trustLevel +:+ " source"))
       <| dr_InputContext := Some {[ContextThreatScan := PolicyContext (Ref scan)]} |>)
    (fun d => _ ← audit_ "THREAT_DENY" d;
              recordBehavioralEvent (principal e) "THREAT_DETECTED"
                ("threat scan: " +:+ dec (ts_FindingCount scan) +:+ " findings")).

(** Every scannable field is scanned; the preferred result is kept. *)
Fixpoint scan_fields (scanner : string -> string -> string -> op Ext ThreatScanResult)
    (channel trustLevel : string) (keys : list string) (e : EC) : M W outcome :=
  match keys with
  | [] => pass e
  | key :: keys =>
      match scannable (context e) key with
      | None => scan_fields scanner channel trustLevel keys e
      | Some text =>
          result ← ext (scanner text channel trustLevel);
          let selected := preferredThreatScanResult (ec_ThreatScanResult e) result in
          let e := e <| ec_ThreatScanResult := Some selected |> in
          if (0 <? ts_FindingCount selected)%Z && IsTainted trustLevel && ContainsHighRiskFindings selected
          then threat_deny e trustLevel selected
          else scan_fields scanner channel trustLevel keys e
      end
  end.

Definition threat_check : Gate := fun e =>
  let '(channel, trustLevel) := trustedInputProvenance (context e) in
  match g_threatScanner g with
  | None => if (0 <? g_semanticEscalationThresholdBP g)%Z then unavailable_scan channel trustLevel e else pass e
  | Some scanner => scan_fields scanner channel trustLevel scan_keys e
  end.

Definition semantic_reason (s : SemanticThreatAssessment) : string :=
  let p := reason_text ReasonSemanticThreatEscalate in
  if negb (sm_Available s) then
    if String.eqb (sm_FailureReason s) semanticScannerMissing
    then p +:+ ": configured semantic scanner is unavailable; failure=" +:+ sm_FailureReason s
    else p +:+ ": configured semantic model is unavailable; failure=" +:+ sm_FailureReason s
         +:+ " model=" +:+ sm_ModelHash s +:+ " expected=" +:+ sm_ExpectedModelHash s
  else if sm_InputTruncated s
  then p +:+ ": input exceeds the deterministic semantic coverage bound; model=" +:+ sm_ModelHash s
  else p +:+ ": semantic score " +:+ dec (sm_MaxBP s) +:+ " bp meets tenant escalation threshold "
       +:+ dec (g_semanticEscalationThresholdBP g) +:+ " bp; model=" +:+ sm_ModelHash s.

Definition semantic_check : Gate := fun e =>
  match ec_ThreatScanResult e with
  | None => pass e
  | Some scan =>
      let e := put ContextThreatScan (PolicyContext (Ref scan)) e in
      let threshold := g_semanticEscalationThresholdBP g in
      match ts_Semantic scan with
      | Some s =>
          if (0 <? threshold)%Z
             && (negb (sm_Available s) || sm_InputTruncated s || (threshold <=? sm_MaxBP s)%Z)
          then
            id ← newDecisionID; t ← now;
            refuse "semantic-escalation" e
              ((new_record id t VerdictEscalate ReasonSemanticThreatEscalate (semantic_reason s))
                 <| dr_InputContext := context e |>)
              (audit_ "SEMANTIC_THREAT_ESCALATE")
          else pass e
      | None => pass e
      end
  end.

(** Gate 5: the delegation session named by the request. *)
Definition delegation_check : Gate := fun e =>
  st ← gets w_delegation;
  match st, as_string (ctx_get (context e) "delegation_session_id") with
  | Some st, Some sessionID =>
      if String.eqb sessionID "" then pass e
      else
        t ← now;
        let invalid what := deny_plain "delegation-invalid" e t ReasonDelegationInvalid
                              ("DELEGATION_INVALID: " +:+ what) no_action in
        match Delegation.Load st sessionID with
        | Fail loadErr => invalid loadErr
        | Ok None => invalid "session not found"
        | Ok (Some session) =>
            let verifier := string_or_empty (ctx_get (context e) "delegation_verifier") in
            match Delegation.ValidateSession (Some session) verifier t (Delegation.IsNonceUsed st) with
            | Fail validErr => invalid validErr
            | Ok _ =>
                if negb (String.eqb (principal e) (Delegation.DelegatePrincipal session)) then
                  deny_plain "delegation-principal-mismatch" e t ReasonDelegationPrincipalMismatch
                    ("DELEGATION_PRINCIPAL_MISMATCH: requesting principal " +:+ goq (principal e)
                     +:+ " does not match delegated principal "
                     +:+ goq (Delegation.DelegatePrincipal session)) (audit_ "DELEGATION_PRINCIPAL_MISMATCH")
                else if negb (String.eqb (resource e) "") && negb (Delegation.IsToolAllowed session (resource e)) then
                  deny_plain "delegation-scope" e t ReasonDelegationScopeViolation
                    ("DELEGATION_SCOPE_VIOLATION: tool " +:+ goq (resource e) +:+ " not in session scope")
                    (audit_ "DELEGATION_SCOPE_DENY")
                else if negb (String.eqb (resource e) "") && negb (String.eqb (action e) "")
                        && negb (Nat.eqb (length (Delegation.Capabilities session)) 0)
                        && negb (Delegation.IsActionAllowed session (resource e) (action e)) then
                  deny_plain "delegation-scope" e t ReasonDelegationScopeViolation
                    ("DELEGATION_SCOPE_VIOLATION: action " +:+ goq (action e) +:+ " on " +:+ goq (resource e)
                     +:+ " not granted") (audit_ "DELEGATION_SCOPE_DENY")
                else
                  _ ← modify (fun w => w <| w_delegation :=
                        Some (Delegation.MarkNonceUsed (Delegation.SessionNonce session) st) |>);
                  pass (put "delegation_delegate" (AString (Delegation.DelegatePrincipal session))
                         (put "delegation_delegator" (AString (Delegation.DelegatorPrincipal session))
                           (put "delegation_validated" (ABool true) e)))
            end
        end
  | _, _ => pass e
  end.

(** Gate 2.5: the active policy decision point. *)
Definition pdp_check : Gate := fun e =>
  match ec_ActivePDP e with
  | None => pass e
  | Some p =>
      t0 ← now;
      r ← ext (pd_Evaluate p (principal e) (action e) (resource e) (context e) t0);
      match r with
      | Fail pdpErr =>
          id ← newDecisionID; t ← now;
          refuse "PDP-error" e
            ((new_record id t VerdictDeny ReasonPDPError (reason_text ReasonPDPError +:+ ": " +:+ pdpErr))
               <| dr_PolicyBackend := pd_Backend p |> <| dr_InputContext := context e |>
               <| dr_EnvFingerprint := g_envFprint g |>) no_action
      | Ok resp =>
          let e := e <| ec_PDPBackend := pd_Backend p |> in
          let e := match ec_ActiveSnapshot e with
                   | None => e <| ec_PDPHash := pd_PolicyHash p |>
                   | Some _ => e
                   end in
          let e := e <| ec_PDPDecisionHash := pr_DecisionHash resp |> in
          if negb (pr_Allow resp) then
            let reasonCode := if String.eqb (pr_ReasonCode resp) "" then reason_text ReasonPDPDeny
                              else pr_ReasonCode resp in
            let escalate := String.eqb reasonCode ReasonApprovalRequired in
            id ← newDecisionID; t ← now;
            refuse (if escalate then "PDP-escalation" else "PDP-deny") e
              ((new_record id t (if escalate then VerdictEscalate else VerdictDeny) reasonCode
                  (reasonCode +:+ " (ref=" +:+ pr_PolicyRef resp +:+ ")"))
                 <| dr_PolicyBackend := ec_PDPBackend e |> <| dr_InputContext := context e |>
                 <| dr_EnvFingerprint := g_envFprint g |> <| dr_PolicyContentHash := ec_PDPHash e |>
                 <| dr_PolicyDecisionHash := ec_PDPDecisionHash e |>)
              (audit_ (if escalate then "PDP_ESCALATE" else "PDP_DENY"))
          else pass (match pd_AuthoritativeAllow p with
                     | Some b => e <| ec_PDPAuthoritativeAllow := b |>
                     | None => e
                     end)
      end
  end.

(** Caller-supplied threat evidence is removed first. *)
Definition drop_threat_evidence : Gate := fun e =>
  pass (e <| ec_Request := (ec_Request e) <| rq_Context := ctx_delete (context e) ContextThreatScan |> |>).

Definition pdp_gate : Gate :=
  then_gate drop_threat_evidence (then_gate isolation_check (then_gate threat_check
    (then_gate semantic_check (then_gate delegation_check pdp_check)))).

(** ** TaintEgressInterceptor *)

Definition egress_check : Gate := fun e =>
  ec ← gets w_egress;
  match ec with
  | None => pass e
  | Some ec =>
      let required := default false (trustedContextBool (context e) ContextEgressDestinationRequired) in
      match trustedContextString (context e) ContextDestination with
      | None =>
          if required then
            t ← now;
            deny_plain "missing-destination" e t ReasonDataEgressBlocked
              "DATA_EGRESS_BLOCKED: MISSING_TRUSTED_DESTINATION"
              (fun _ => recordBehavioralEvent (principal e) "EGRESS_BLOCKED"
                          "egress blocked: missing trusted destination")
          else pass e
      | Some dest =>
          let payloadSize := match as_float (ctx_get (context e) "payload_size") with
                             | Some ps => trunc_int ps | None => 0%Z end in
          t0 ← now;
          let '(ec, result) := EgressChecker.CheckEgress dest "https" payloadSize t0 ec in
          _ ← modify (fun w => w <| w_egress := Some ec |>);
          if EgressChecker.Allowed result then pass e
          else
            t ← now;
            deny_plain "egress-blocked" e t ReasonDataEgressBlocked
              ("DATA_EGRESS_BLOCKED: " +:+ EgressChecker.ReasonCode result)
              (fun _ => recordBehavioralEvent (principal e) "EGRESS_BLOCKED"
                          ("egress blocked: " +:+ EgressChecker.ReasonCode result))
      end
  end.

(** [strings.EqualFold] with "false" also folds the long s. *)
Definition taintEgressEnforcementEnabled : bool :=
  let v := trim_space HELM_TAINT_TRACKING in
  negb (String.eqb v "0" || existsb (String.eqb (to_lower v)) ["false"; "falſe"]).

Definition taint_check (override : bool) : Gate := fun e =>
  let labels := TaintLabelsFromContext (context e) in
  let e := match labels with
           | [] => e
           | _ => put "taint" (AStrings labels) (e <| ec_Tainted := true |>)
           end in
  if taintEgressEnforcementEnabled && taintedEgressDenied override (context e) labels then
    t ← now; id ← newDecisionID;
    refuse "tainted-egress" e
      ((new_record id t VerdictDeny ReasonTaintedEgressDeny
          "TAINTED_DATA_EGRESS_DENY: sensitive taint cannot leave the trust boundary without explicit approval")
         <| dr_InputContext := Some {["taint" := AStrings labels]} |>)
      (fun _ => recordBehavioralEvent (principal e) "EGRESS_BLOCKED" "tainted egress blocked")
  else pass e.

Definition taint_egress_gate (override : bool) : Gate := then_gate egress_check (taint_check override).

(** ** AssumptionFreshnessInterceptor *)

Definition assumptionsFromContext (c : ctx) : res (list ObservedAssumption) :=
  match ctx_lookup c "assumptions" with
  | None | Some ANil => Ok []
  | Some raw =>
      encoded ← wrap_err "encoding assumptions: " (json_of_any raw);
      wrap_err "decoding assumptions: " (decode_assumptions encoded)
  end.

Definition assumption_deny (e : EC) (a : ObservedAssumption) (why : string) : M W outcome :=
  let a := if String.eqb (oa_AssumptionHash a) ""
           then match Seal a with Ok sealed => sealed | Fail _ => a end else a in
  id ← newDecisionID; t ← now;
  refuse "assumption-stale" e
    ((new_record id t VerdictDeny ReasonAssumptionStale ("ERR_ASSUMPTION_STALE: " +:+ why))
       <| dr_InputContext := Some (list_to_map
            [("assumption_hash", AString (oa_AssumptionHash a)); ("assumption_id", AString (oa_AssumptionID a));
             ("plan_hash", AString (planHashFromContext (context e)))]) |>)
    (fun _ => recordBehavioralEvent (principal e) "POLICY_VIOLATE" "assumption stale").

Fixpoint check_assumptions (t : time) (l : list ObservedAssumption) (e : EC) : M W outcome :=
  match l with
  | [] => pass e
  | a :: l =>
      match Contracts.Validate a with
      | Fail err => assumption_deny e a err
      | Ok _ =>
          if Expired a t
          then assumption_deny e a ("observation of " +:+ goq (oa_Subject a) +:+ " expired at "
                                    +:+ fmt_seconds (Contracts.ExpiresAt a) +:+ "Z")
          else match g_assumptionObserver g with
          | None => check_assumptions t l e
          | Some observe =>
              r ← ext (observe a);
              match r with
              | Fail obsErr => assumption_deny e a ("state of " +:+ goq (oa_Subject a)
                                                    +:+ " could not be confirmed: " +:+ obsErr)
              | Ok observed =>
                  if String.eqb observed (oa_ContentHash a) then check_assumptions t l e
                  else assumption_deny e a ("state of " +:+ goq (oa_Subject a)
                                            +:+ " changed since it was observed")
              end
          end
      end
  end.

Definition assumption_gate : Gate := fun e =>
  match assumptionsFromContext (context e) with
  | Fail err => assumption_deny e zero_assumption
                  ("assumptions are malformed and cannot be checked: " +:+ err)
  | Ok [] => pass e
  | Ok l => t ← now; check_assumptions t l e
  end.

(** ** SandboxAllocationInterceptor *)

Definition sandbox_gate : Gate := fun e =>
  match g_warmLeaseMgr g with
  | None => pass e
  | Some mgr =>
      if negb (String.eqb (action e) "EXECUTE_TOOL") then pass e
      else
        let image := match as_string (ctx_get (context e) "image") with
                     | Some img => if String.eqb img "" then "sha256:default-pinned-digest" else img
                     | None => "sha256:default-pinned-digest"
                     end in
        r ← ext (wl_Acquire mgr image);
        match r with
        | Fail err =>
            t ← now;
            deny_plain "sandbox-acquisition-failed" e t "SANDBOX_ACQUISITION_FAILED"
              ("SANDBOX_ACQUISITION_FAILED: " +:+ err) no_action
        | Ok runner =>
            leaseID ← randomID "lease-";
            _ ← ext (wl_Release mgr runner);
            pass (put "sandbox_lease_id" (AString leaseID) e)
        end
  end.

(** ** Policy evaluation and the final signature *)

(** [registry.GetArtifact] for each evidence hash. *)
Fixpoint load_evidence (hashes : list string) : M W (list ArtifactEnvelope) :=
  match hashes with
  | [] => mret []
  | h :: hashes =>
      r ← ext (g_registry g h);
      a ← lift (wrap_err ("failed to retrieve evidence " +:+ h +:+ ": ") r);
      l ← load_evidence hashes;
      mret (a :: l)
  end.

Definition budget_id (effect : Effect) : option string :=
  id ← as_string (ctx_get (ef_Params effect) "budget_id"); if String.eqb id "" then None else Some id.

(** The record with a verdict, a reason code and a reason. *)
Definition conclude_with (d : DecisionRecord) (verdict code reason : string) : DecisionRecord :=
  d <| dr_Verdict := verdict |> <| dr_ReasonCode := code |> <| dr_Reason := reason |>.

(** The pre-policy ceiling check: [Some] is the denial. *)
Definition budget_check (effect : Effect) (d : DecisionRecord) : M W (option DecisionRecord) :=
  match g_tracker g, budget_id effect with
  | Some tracker, Some budgetID =>
      r ← ext (bg_Check tracker budgetID);
      match r with
      | Fail err => mret (Some (conclude_with d VerdictDeny ReasonBudgetError ("Budget Error: " +:+ err)))
      | Ok false => mret (Some (conclude_with d VerdictDeny ReasonBudgetExceeded ReasonBudgetExceeded))
      | Ok true => mret None
      end
  | _, _ => mret None
  end.

(** The draw-down after the policy passed: [Some] is the denial. *)
Definition budget_consume (effect : Effect) (d : DecisionRecord) : M W (option DecisionRecord) :=
  match g_tracker g, budget_id effect with
  | Some tracker, Some budgetID =>
      r ← ext (bg_Consume tracker budgetID);
      match r with
      | Fail err => mret (Some (conclude_with d VerdictDeny ReasonBudgetError ("Budget consume failed: " +:+ err)))
      | Ok _ => mret None
      end
  | _, _ => mret None
  end.

(** The engine runs on the Guardian's program cache. *)
Definition run_engine (rule : RequirementSet) (input : PolicyInput) : M W (res (bool * list string)) := fun w =>
  let '(cache, r) := EvaluateRequirementSetDetail rule input (w_prgCache w) in
  (w <| w_prgCache := cache |>, Ok r).

(** The policy input of step 4. *)
Definition policy_input (actionID : string) (effectMap : any) (artifacts : list ArtifactEnvelope) (t : time)
    (effect : Effect) (d : DecisionRecord) : PolicyInput := {|
  in_vars := list_to_map
    ([("action", AString actionID); ("effect", effectMap); ("timestamp", AInt (Unix t));
      ("taint", AStrings (NormalizeTaintLabels (ef_Taint effect)))]
     ++ match dr_ThreatScan d with
        | Some ref => [(ContextThreatScan, PolicyContext ref)]
        | None => []
        end)%list;
  in_artifacts := Some artifacts |}.

(** The verdict of the requirement graph: the rule's hash, or the denial. *)
Definition graph_check (graph : gmap string RequirementSet) (h : effects) (l : loc) (effect : Effect)
    (artifacts : list ArtifactEnvelope) (d : DecisionRecord) : M W (string + DecisionRecord) :=
  let actionID := tool_or_type effect in
  match graph !! actionID with
  | None => mret (inr (conclude_with d VerdictDeny ReasonNoPolicy
              (reason_text ReasonNoPolicy +:+ ": no policy defined for action " +:+ actionID)))
  | Some rule =>
      effectMap ← lift (wrap_err "serialize effect policy input: " (toMap h l));
      t ← now;
      let input := policy_input actionID effectMap artifacts t effect d in
      r ← run_engine rule input;
      match r with
      | Fail _ => mret (inr (conclude_with d VerdictDeny ReasonPRGEvalError
                    "PRG Evaluation Error: policy requirement evaluation failed"))
      | Ok (false, failures) =>
          _ ← recordBehavioralEvent (dr_SubjectID d) "POLICY_VIOLATE" "PRG requirement not met";
          mret (inr (conclude_with d VerdictDeny ReasonMissingRequirement
                       (missingRequirementReason failures input)))
      | Ok (true, _) => mret (inl (RequirementSet_Hash rule))
      end
  end.

(** From the budget ceiling to the signature: steps 3.5, the envelope check,
    4, 4.5 and 5 of [signDecisionWithGraph]. *)
Definition check_and_sign (d : DecisionRecord) (h : effects) (l : loc) (effect : Effect)
    (artifacts : list ArtifactEnvelope) (graph : gmap string RequirementSet)
    (pdpAuthoritativeAllow : bool) : M W DecisionRecord :=
  b ← budget_check effect d;
  match b with
  | Some denied => lift (SignDecision denied)
  | None =>
      match checkEnvelope effect with
      | Fail err => lift (SignDecision (conclude_with d VerdictDeny ReasonEnvelopeInvalid
                                          ("Envelope Violation: " +:+ err)))
      | Ok _ =>
          r ← (if pdpAuthoritativeAllow then mret (inl "") else graph_check graph h l effect artifacts d);
          match r with
          | inr denied => lift (SignDecision denied)
          | inl requirementSetHash =>
              c ← budget_consume effect d;
              match c with
              | Some denied => lift (SignDecision denied)
              | None =>
                  t ← now;
                  _ ← recordBehavioralEvent (dr_SubjectID d) "POLICY_COMPLY" "policy evaluation passed";
                  lift (SignDecision (d <| dr_Verdict := VerdictAllow |> <| dr_ReasonCode := "" |>
                                        <| dr_RequirementSetHash := requirementSetHash |>
                                        <| dr_Timestamp := t |>))
              end
          end
      end
  end.

(** An intervention other than NONE. *)
Definition intervening (i : option InterventionMetadata) : option InterventionMetadata :=
  i ← i; match im_Type i with InterventionNone => None | _ => Some i end.

Definition with_intervention (i : option InterventionMetadata) (d : DecisionRecord) : DecisionRecord :=
  match intervening i with Some i => d <| dr_Intervention := Some i |> | None => d end.

Definition signDecisionWithGraph (d : DecisionRecord) (h : effects) (p : option loc)
    (evidenceHashes : list string) (intervention : option InterventionMetadata)
    (graph : gmap string RequirementSet) (pdpAuthoritativeAllow : bool) : M W DecisionRecord :=
  d ← lift (wrap_err "bind decision authority: "
              (bindDecisionRequest d (dr_SubjectID d) (dr_Action d) (dr_Resource d)));
  d ← (if String.eqb (dr_EffectDigest d) ""
       then digest ← lift (wrap_err "canonicalize effect digest: " (CanonicalEffectDigest h p));
            mret (d <| dr_EffectDigest := digest |>)
       else mret d);
  let d := if String.eqb (dr_GateRosterHash d) ""
           then d <| dr_GateRosterHash := g_gateRosterHash g |> else d in
  artifacts ← load_evidence evidenceHashes;
  '(l, effect) ← lift (match p with
                       | Some l => match h !! l with Some e => Ok (l, e) | None => Fail err_panic end
                       | None => Fail err_panic
                       end);
  let d := with_intervention intervention d in
  match intervening intervention with
  | Some {| im_Type := (InterventionInterrupt | InterventionQuarantine) as ty; im_ReasonCode := code |} =>
      lift (SignDecision (conclude_with d VerdictEscalate ReasonTemporalIntervene
              ("Temporal Intervention: " +:+ intervention_text ty +:+ " (" +:+ code +:+ ")")))
  | _ => check_and_sign d h l effect artifacts graph pdpAuthoritativeAllow
  end.

(** [Guardian.SignDecision] *)
Definition SignDecision_public (d : option DecisionRecord) (h : effects) (p : option loc)
    (evidenceHashes : list string) (intervention : option InterventionMetadata) : M W DecisionRecord :=
  match d with
  | None => fail "decision is required"
  | Some d => signDecisionWithGraph d h p evidenceHashes intervention (g_prg g) false
  end.

(** [behavioralScorer.GetScore] *)
Definition get_score (principal : string) : M W (option BehavioralTrustScore) := fun w =>
  match w_scores w with
  | None => (w, Ok None)
  | Some scores =>
      (t ← now;
       let '(scores, b) := GetScore math_Exp (g_scorerConfig g) principal t scores in
       _ ← modify (fun w => w <| w_scores := Some scores |>);
       mret (Some b)) w
  end.

(** Behavioral trust enrichment. *)
Definition trust_gate : Gate := fun e =>
  b ← get_score (principal e);
  match b with
  | None => pass e
  | Some b => pass (put "trust_tier" (AString (tier_text (Tier b)))
                     (put "trust_score" (AFloat (Normalized b)) e))
  end.

(** Privilege tier enforcement. *)
Definition privilege_gate : Gate := fun e =>
  match g_privilegeResolver g with
  | None => pass e
  | Some resolve =>
      r ← ext (resolve (principal e));
      let assigned := match r with Ok t => t | Fail _ => TierRestricted end in
      b ← get_score (principal e);
      let effective := match b with Some b => EffectiveTier assigned (Tier b) | None => assigned end in
      let required := RequiredTierForEffect (action e) in
      if (effective <? required)%Z then
        t ← now;
        deny_plain "privilege-deny" e t ReasonInsufficientPrivilege
          ("INSUFFICIENT_PRIVILEGE: agent tier " +:+ privilege_string effective +:+ " < required "
           +:+ privilege_string required +:+ " for " +:+ action e) no_action
      else pass (put "privilege_tier" (AString (privilege_string effective)) e)
  end.

(** The record [finalHandler] prepares before the compliance check. *)
Definition prepare_decision (e : EC) (id : string) (t : time) (digest : string) (c : ctx) : DecisionRecord :=
  let d := (new_record id t VerdictDeny "" "")
    <| dr_SubjectID := principal e |> <| dr_Action := action e |> <| dr_Resource := resource e |>
    <| dr_EffectDigest := digest |> <| dr_InputContext := c |> <| dr_EnvFingerprint := env_fp |>
    <| dr_PolicyVersion := ec_PolicyVersion e |> in
  let d := bindRuntimePolicyDecision d (ec_ActiveSnapshot e) (ec_PolicyVersion e) in
  let d := match ec_SessionRiskSnapshot e with
           | Some s => d <| dr_TrajectoryRiskScore := TrajectoryRiskScore s |>
                         <| dr_SessionCentroidHash := SessionCentroidHash s |>
                         <| dr_RiskAccumulationWindow := RiskAccumulationWindow s |>
           | None => d
           end in
  let d := match ec_ThreatScanResult e with
           | Some r =>
               if (0 <? ts_FindingCount r)%Z || bool_decide (is_Some (ts_Semantic r))
               then d <| dr_InputContext := ctx_put (dr_InputContext d) ContextThreatScan (PolicyContext (Ref r)) |>
                      <| dr_ThreatScan := Some (Ref r) |>
               else d
           | None => d
           end in
  if String.eqb (ec_PDPBackend e) "" then d
  else
    let d := d <| dr_PolicyBackend := ec_PDPBackend e |> in
    let d := if String.eqb (ec_PDPHash e) "" then d else d <| dr_PolicyContentHash := ec_PDPHash e |> in
    d <| dr_PolicyDecisionHash := ec_PDPDecisionHash e |>.

(** The compliance check on the prepared record: it passes the context on or
    refuses. *)
Definition compliance_gate (d : DecisionRecord) : Gate := fun e =>
  match g_complianceChecker g with
  | None => pass e
  | Some check =>
      r ← ext (check (principal e) (action e) (context e));
      match r with
      | Fail compErr =>
          refuse "compliance-error" e
            (conclude_with d VerdictDeny "COMPLIANCE_ERROR" ("compliance check error: " +:+ compErr)) no_action
      | Ok result =>
          if Compliant result then pass e
          else refuse "compliance-deny" e
                 (conclude_with d VerdictDeny "COMPLIANCE_VIOLATION"
                    ("compliance violation: " +:+ cr_Reason result +:+ " (obligations: "
                     +:+ fmt_strings (ViolatedObligations result) +:+ ")"))
                 (fun _ => recordBehavioralEvent (principal e) "POLICY_VIOLATE" "compliance violation")
      end
  end.

(** The tail of [finalHandler]: bind, evaluate the graph, sign, record. *)
Definition decide_and_record (e : EC) (effect : Effect) (d : DecisionRecord) : M W DecisionRecord :=
  d ← lift (wrap_err "bind evaluated decision request: " (bind_request d (ec_Request e)));
  d ← signDecisionWithGraph d (heap_of effect) (Some effect_loc) [] (ec_Intervention e)
        (ec_ActiveGraph e) (ec_PDPAuthoritativeAllow e);
  _ ← (if String.eqb (dr_Verdict d) VerdictAllow
       then recordBehavioralEvent (principal e) "POLICY_COMPLY" "decision allowed"
       else if String.eqb (dr_Verdict d) VerdictDeny
       then recordBehavioralEvent (principal e) "POLICY_VIOLATE" ("decision denied: " +:+ dr_ReasonCode d)
       else mret tt);
  r ← audit "DECISION_MADE" d;
  _ ← lift (wrap_err ("audit failure for decision " +:+ dr_ID d +:+ ": ") r);
  mret d.

Definition finalHandler : Handler :=
  intercept (then_gate trust_gate privilege_gate) (fun e =>
    eid ← randomID "eff-";
    let '(effect, c) := effect_of_request eid e in
    digest ← lift (wrap_err "canonicalize effect digest: "
                     (CanonicalEffectDigest (heap_of effect) (Some effect_loc)));
    id ← newDecisionID; t ← now;
    let e := e <| ec_Request := (ec_Request e) <| rq_Context := c |> |> in
    let d := prepare_decision e id t digest c in
    intercept (compliance_gate d) (fun e => decide_and_record e effect d) e).

(** The boundary chain of [NewGuardian]. *)
Definition boundary_chain (override : bool) : list Gate :=
  [zeroid_gate; temporal_gate; freeze_gate; pdp_gate; taint_egress_gate override; assumption_gate; sandbox_gate].

(** [InterceptorChain.Execute] *)
Definition Execute (chain : list Gate) (final : Handler) : Handler := foldr intercept final chain.

(** ** Before the chain *)

Definition policyScopeFromContext (c : ctx) : PolicyScope :=
  let scope := Normalize (g_snapshotScope g) in
  Normalize {| TenantID := default (TenantID scope) (stringContextValue c tenant_keys);
               WorkspaceID := default (WorkspaceID scope) (stringContextValue c workspace_keys) |}.

Definition graph_version : string :=
  match ContentHash (g_prg g) with
  | Ok hash => if String.eqb hash "" then "v1.0.0" else "sha256:" +:+ hash
  | Fail _ => "v1.0.0"
  end.

Definition initial_context (req : DecisionRequest) : EC := {|
  ec_Request := req; ec_ActiveSnapshot := None; ec_PolicyVersion := graph_version;
  ec_ActiveGraph := g_prg g; ec_ActivePDP := g_pdp g; ec_Tainted := false; ec_Intervention := None;
  ec_ThreatScanResult := None; ec_SessionRiskSnapshot := None; ec_PDPBackend := ""; ec_PDPHash := "";
  ec_PDPDecisionHash := ""; ec_PDPAuthoritativeAllow := false |}.

(** A refusal before the chain: signed for the request. *)
Definition refuse_early (what : string) (d : DecisionRecord) (req : DecisionRequest)
    (snapshot : option (EffectivePolicySnapshot Ext)) (version : string)
    (after : DecisionRecord -> M W unit) : M W outcome :=
  stop (d ← lift (wrap_err ("failed to sign " +:+ what +:+ " decision: ")
                    (signDecisionForRequest d req snapshot version));
        _ ← after d; mret d).

Definition snapshot_gate : Gate := fun e =>
  match g_snapshotStore g with
  | None => pass e
  | Some get =>
      let scope := policyScopeFromContext (context e) in
      s ← ext (get scope);
      match s with
      | None =>
          id ← newDecisionID; t ← now;
          refuse_early "policy-not-ready"
            ((new_record id t VerdictDeny ReasonPolicyNotReady
                (reason_text ReasonPolicyNotReady +:+ ": no active policy snapshot for " +:+ Key scope))
               <| dr_InputContext := context e |> <| dr_PolicyVersion := "unavailable" |>)
            (ec_Request e) None "unavailable" no_action
      | Some s =>
          if negb (String.eqb (sn_Status s) StatusActive) then
            id ← newDecisionID; t ← now;
            refuse_early "policy-not-ready"
              ((new_record id t VerdictDeny ReasonPolicyNotReady
                  (reason_text ReasonPolicyNotReady +:+ ": policy snapshot for " +:+ Key scope +:+ " is "
                   +:+ sn_Status s))
                 <| dr_InputContext := context e |> <| dr_PolicyVersion := sn_PolicyHash s |>)
              (ec_Request e) (Some s) (sn_PolicyHash s) no_action
          else
            let e := e <| ec_ActiveSnapshot := Some s |> <| ec_PolicyVersion := sn_PolicyHash s |> in
            let e := match sn_Graph s with Some gr => e <| ec_ActiveGraph := gr |> | None => e end in
            pass (match sn_PDP s with Some p => e <| ec_ActivePDP := Some p |> | None => e end)
      end
  end.

Definition safedep_gate : Gate := fun e =>
  match g_safeDepController g with
  | None => pass e
  | Some ctl =>
      r ← ext (classify_context ctl (context e));
      match r with
      | None => pass e
      | Some (Fail classErr) => fail classErr
      | Some (Ok (state, code)) =>
          let e := put "safe_deprecation_reason_code" (AString code)
                     (put "safe_deprecation_state" (AString state) e) in
          if String.eqb state SafeDepTerminalFreeze
             || (String.eqb state SafeDepDeprecatedReadonly
                 && negb (IsInspectionAction (action e) (resource e))) then
            id ← newDecisionID; t ← now;
            refuse_early "safe-deprecation"
              ((new_record id t VerdictDeny code
                  (code +:+ ": safe deprecation state " +:+ state +:+ " blocks " +:+ action e))
                 <| dr_InputContext := context e |> <| dr_PolicyVersion := ec_PolicyVersion e |>)
              (ec_Request e) (ec_ActiveSnapshot e) (ec_PolicyVersion e) no_action
          else pass e
      end
  end.

(** *** [capability.go] *)

Definition appendCapabilityAudit (act : string) (d : DecisionRecord) : M W unit :=
  match JCS_res (json_of_decision d) with
  | Ok _ => audit_ act d
  | Fail _ => mret tt
  end.

Definition capabilityShortCircuit (e : EC) (verdict : Verdict) (code : ReasonCode) (reason auditAction : string)
    : M W outcome :=
  stop (
    id ← newDecisionID; t ← now;
    let d := (new_record id t verdict code reason) <| dr_InputContext := context e |>
               <| dr_GateRosterHash := g_gateRosterHash g |> in
    d ← lift (wrap_err "bind capability decision request: " (bind_request d (ec_Request e)));
    let d := bindRuntimePolicyDecision d (ec_ActiveSnapshot e) (ec_PolicyVersion e) in
    d ← lift (wrap_err "sign capability decision: " (SignDecision d));
    _ ← appendCapabilityAudit auditAction d;
    mret d).

Definition rollback_invalid (e : EC) (reason auditAction : string) : M W outcome :=
  capabilityShortCircuit e VerdictDeny ReasonCapabilityRollbackPlanInvalid
    (reason_text ReasonCapabilityRollbackPlanInvalid +:+ ": " +:+ reason) auditAction.

Definition applyReversibilityPolicy (m : Manifest) : Gate := fun e =>
  let id := goq (mf_CapabilityID m) in
  if String.eqb (mf_EffectClass m) EffectReadOnly then pass e
  else if String.eqb (mf_EffectClass m) EffectIrreversible then
    capabilityShortCircuit e VerdictDeny ReasonCapabilityIrreversible
      (reason_text ReasonCapabilityIrreversible
       +:+ ": irreversible effect class cannot dispatch without an authoritative approval integration")
      "CAPABILITY_IRREVERSIBLE_DENY"
  else if String.eqb (mf_Reversibility m) ReversibilityNone then
    capabilityShortCircuit e VerdictEscalate ReasonApprovalRequired
      (reason_text ReasonApprovalRequired +:+ ": non-reversible capability " +:+ id +:+ " requires the permit flow")
      "CAPABILITY_NON_REVERSIBLE_ESCALATE"
  else if negb (rb_Required (mf_Rollback m)) || String.eqb (rb_PlanRef (mf_Rollback m)) "" then
    rollback_invalid e ("reversible capability " +:+ id +:+ " has no required rollback plan")
      "CAPABILITY_ROLLBACK_PLAN_INVALID_DENY"
  else match g_rollbackPlans g with
  | None => rollback_invalid e "rollback-plan store is not configured (no plan, no dispatch)"
              "CAPABILITY_ROLLBACK_PLAN_INVALID_DENY"
  | Some resolve =>
      plan ← ext (resolve (rb_PlanRef (mf_Rollback m)));
      match (p ← plan; if AppliesToCapability (mf_CapabilityID m) (pe_Plan p) then Some p else None) with
      | None => rollback_invalid e ("rollback plan " +:+ goq (rb_PlanRef (mf_Rollback m))
                  +:+ " does not bind capability " +:+ id) "CAPABILITY_ROLLBACK_PLAN_INVALID_DENY"
      | Some plan =>
          t ← now;
          if PlanExpired t (pe_Plan plan)
          then rollback_invalid e ("rollback plan " +:+ goq (rp_PlanID (pe_Plan plan)) +:+ " guarantee expired")
                 "CAPABILITY_ROLLBACK_PLAN_EXPIRED_DENY"
          else
            let e := put "capability_rollback_plan_hash" (AString (pe_Hash plan))
                       (put "capability_rollback_plan_id" (AString (rp_PlanID (pe_Plan plan))) e) in
            if String.eqb (mf_DataBoundary m) BoundaryOrg || String.eqb (mf_DataBoundary m) BoundaryExternal then
              capabilityShortCircuit e VerdictEscalate ReasonApprovalRequired
                (reason_text ReasonApprovalRequired +:+ ": reversible external capability " +:+ id
                 +:+ " requires the permit flow") "CAPABILITY_REVERSIBLE_EXTERNAL_ESCALATE"
            else pass e
      end
  end.

(** The registry facts written over the caller's claims. *)
Definition enrich_capability (entry : Entry) (e : EC) : EC :=
  let m := en_Manifest entry in
  let e := put "capability_required_permit_level" (AString (mf_RequiredPermitLevel m))
    (put "capability_risk_score" (AInt (mf_RiskScore m))
    (put "capability_data_boundary" (AString (mf_DataBoundary m))
    (put "capability_reversibility" (AString (mf_Reversibility m))
    (put "capability_effect_class" (AString (mf_EffectClass m))
    (put "capability_manifest_hash" (AString (en_Hash entry)) e))))) in
  if String.eqb (mf_MinModelTier m) "" then e else put "capability_min_model_tier" (AString (mf_MinModelTier m)) e.

Definition token_invalid (e : EC) (reason : string) : M W outcome :=
  capabilityShortCircuit e VerdictDeny ReasonCapabilityTokenInvalid
    (reason_text ReasonCapabilityTokenInvalid +:+ ": " +:+ reason) "CAPABILITY_TOKEN_INVALID_DENY".

Definition token_gate (entry : Entry) (rawToken : option any) : Gate := fun e =>
  match rawToken with
  | None => pass e
  | Some raw =>
      match g_capabilityVerifier g with
      | None => token_invalid e "a capability token was presented but no verifier is configured"
      | Some v =>
          let taskID := string_or_empty (ctx_get (context e) "task_id") in
          let args := match ctx_get (context e) "arguments" with
                      | AMap l => Some (list_to_map l : obj) | _ => None end in
          match cv_Decode v raw with
          | Fail _ => token_invalid e "malformed token"
          | Ok presented =>
              r ← ext (cv_Verify v {| vr_Presented := Some presented; vr_TaskID := taskID;
                                       vr_CapabilityID := mf_CapabilityID (en_Manifest entry);
                                       vr_ManifestHash := en_Hash entry; vr_Args := args |});
              match r with
              | Fail err => token_invalid e err
              | Ok token => pass (put "capability_token_id" (AString (tk_TokenID token)) e)
              end
          end
      end
  end.

Definition resolveCapabilityGate : Gate := fun e =>
  match context e with
  | None => pass e
  | Some _ =>
      let rawToken := ctx_lookup (context e) "capability_token" in
      let e := e <| ec_Request := (ec_Request e) <| rq_Context := ctx_delete (context e) "capability_token" |> |> in
      match g_capabilityRegistry g, ctx_lookup (context e) "capability_id" with
      | Some registry, Some rawID =>
          let unknown reason := capabilityShortCircuit e VerdictEscalate ReasonCapabilityUnknown
            (reason_text ReasonCapabilityUnknown +:+ ": " +:+ reason) "CAPABILITY_UNKNOWN_QUARANTINE" in
          match (id ← as_string rawID; if String.eqb id "" then None else Some id) with
          | None => unknown "capability_id must be a non-empty string"
          | Some capabilityID =>
              match Resolve capabilityID registry with
              | None => unknown ("capability " +:+ goq capabilityID
                                 +:+ " is not registered; quarantined for review")
              | Some entry =>
                  let drifted := match ctx_lookup (context e) "capability_manifest_hash" with
                                 | None => false
                                 | Some rawPin =>
                                     match as_string rawPin with
                                     | None => true
                                     | Some pin => negb (String.eqb pin "") && negb (String.eqb pin (en_Hash entry))
                                     end
                                 end in
                  if drifted then
                    capabilityShortCircuit e VerdictDeny ReasonCapabilityManifestDrift
                      (reason_text ReasonCapabilityManifestDrift +:+ ": capability " +:+ goq capabilityID
                       +:+ " is not pinned to the registry manifest revision") "CAPABILITY_MANIFEST_DRIFT_DENY"
                  else then_gate (applyReversibilityPolicy (en_Manifest entry)) (token_gate entry rawToken)
                         (enrich_capability entry e)
              end
          end
      | _, _ => pass e
      end
  end.

Definition history_gate : Gate := fun e => pass (e <| ec_Request := attachSessionHistory (ec_Request e) |>).

Definition session_risk_gate : Gate := fun e =>
  match g_sessionRiskMemory g with
  | None => pass e
  | Some srm =>
      s ← ext (sr_Evaluate srm (sessionRiskSessionID (ec_Request e)) (rq_SessionHistory (ec_Request e)) (ec_Request e));
      let e := e <| ec_Request := (ec_Request e) <| rq_Context := attachSessionRiskContext (context e) s |> |>
                 <| ec_SessionRiskSnapshot := Some s |> in
      if sr_ShouldDeny srm s then
        t ← now; id ← newDecisionID;
        refuse_early "session-risk"
          ((new_record id t VerdictDeny ReasonSessionRiskDeny
              (reason_text ReasonSessionRiskDeny +:+ ": trajectory risk " +:+ fmt_fixed 4 (TrajectoryRiskScore s)
               +:+ " over " +:+ dec (RiskAccumulationWindow s) +:+ " actions"))
             <| dr_InputContext := context e |> <| dr_TrajectoryRiskScore := TrajectoryRiskScore s |>
             <| dr_SessionCentroidHash := SessionCentroidHash s |>
             <| dr_RiskAccumulationWindow := RiskAccumulationWindow s |>)
          (ec_Request e) (ec_ActiveSnapshot e) (ec_PolicyVersion e)
          (fun d => _ ← audit_ "SESSION_RISK_DENY" d;
                    recordBehavioralEvent (principal e) "POLICY_VIOLATE" "session risk memory denied")
      else pass e
  end.

Definition entry_gates : list Gate :=
  [snapshot_gate; safedep_gate; resolveCapabilityGate; history_gate; session_risk_gate].

Definition EvaluateDecision (override : bool) (req : DecisionRequest) : M W DecisionRecord :=
  Execute (entry_gates ++ boundary_chain override)%list finalHandler (initial_context req).

(** ** Execution intents *)

Definition active_epoch_check (d : DecisionRecord) : M W unit :=
  match g_snapshotStore g with
  | None => mret tt
  | Some get =>
      let scope := policyScopeFromContext (dr_InputContext d) in
      let changed why := fail (reason_text ReasonPolicyEpochChanged +:+ ": " +:+ why) in
      s ← ext (get scope);
      match s with
      | None => changed ("policy snapshot missing for " +:+ Key scope)
      | Some s =>
          if negb (String.eqb (sn_Status s) StatusActive)
          then changed ("policy snapshot for " +:+ Key scope +:+ " is " +:+ sn_Status s)
          else match ParseUint (dr_PolicyEpoch d) with
          | None => changed "decision missing policy hash/epoch binding"
          | Some epoch =>
              if String.eqb (dr_PolicyContentHash d) "" then changed "decision missing policy hash/epoch binding"
              else if negb (String.eqb (sn_PolicyHash s) (dr_PolicyContentHash d))
                      || negb (sn_PolicyEpoch s =? epoch)%Z
              then changed ("decision policy " +:+ dr_PolicyContentHash d +:+ "/" +:+ dec epoch +:+ " current "
                            +:+ sn_PolicyHash s +:+ "/" +:+ dec (sn_PolicyEpoch s))
              else mret tt
          end
      end
  end.

Definition emergency_text (d : DecisionRecord) (key : string) : string :=
  string_or_empty (ctx_get (dr_InputContext d) key).

(** The intent of a verified decision, before it is signed. *)
Definition intent_of (d : DecisionRecord) (effect : Effect) (effectDigest : string)
    (effectBinding : EffectDigestBinding) (t expiresAt : time) : AuthorizedExecutionIntent :=
  zero_intent
    <| ai_ID := "intent-" +:+ dr_ID d |> <| ai_DecisionID := dr_ID d |>
    <| ai_EffectDigestHash := effectDigest |> <| ai_EffectBinding := Some effectBinding |>
    <| ai_IdempotencyKey := ef_IdempotencyKey effect |> <| ai_IssuedAt := t |>
    <| ai_ExpiresAt := expiresAt |> <| ai_Signer := "kernel" |>
    <| ai_AllowedTool := executionIntentAllowedTool effect |>
    <| ai_Taint := NormalizeTaintLabels (ef_Taint effect) |>
    <| ai_EmergencyActivationID := emergency_text d "safe_deprecation_activation_id" |>
    <| ai_EmergencyDelegationSessionID := emergency_text d "safe_deprecation_delegation_session_id" |>
    <| ai_EmergencyScopeHash := emergency_text d "safe_deprecation_scope_hash" |>.

Definition IssueExecutionIntent (d : option DecisionRecord) (h : effects) (p : option loc)
    : M W AuthorizedExecutionIntent :=
  match d with
  | None => fail "cannot issue intent without decision"
  | Some d =>
      '(l, effect) ← lift (match p with
                           | None => Fail "cannot issue intent without effect"
                           | Some l => match h !! l with Some e => Ok (l, e) | None => Fail err_panic end
                           end);
      if negb (String.eqb (dr_Verdict d) VerdictAllow)
      then fail ("cannot issue intent for denied decision: " +:+ dr_Verdict d)
      else
        _ ← lift (match VerifyDecision d with
                  | Ok true => Ok tt
                  | Ok false => Fail "invalid decision signature: %!w(<nil>)"
                  | Fail err => Fail ("invalid decision signature: " +:+ err)
                  end);
        _ ← lift (wrap_err "cannot issue execution intent: " (ValidateDecisionAuthorityForUse (Some d)));
        _ ← active_epoch_check d;
        effectDigest ← lift (wrap_err "canonicalize effect digest: " (CanonicalEffectDigest h p));
        if String.eqb (dr_EffectDigest d) "" then fail "decision missing effect digest"
        else if negb (String.eqb (dr_EffectDigest d) effectDigest)
        then fail ("effect digest mismatch: decision=" +:+ dr_EffectDigest d +:+ " requested=" +:+ effectDigest)
        else
          effectBinding ← lift (wrap_err "bind execution intent effect: " (NewEffectDigestBinding h p));
          t ← now;
          expiresAt ← lift (executionIntentExpiresAt effect t);
          lift (wrap_err "failed to sign intent: "
            (SignIntent (intent_of d effect effectDigest effectBinding t expiresAt)))
  end.

(** ** The gate roster (roster.go) *)

(** Which gates run, by [GateID], for the objects [w] the Guardian holds. *)
Definition injected (w : W) : list (string * bool) :=
  let has {A} (o : option A) := bool_decide (is_Some o) in
  [("agent_kill_switch", has (w_kill w)); ("assumption_observer", has (g_assumptionObserver g));
   ("audit", has (w_audit w)); ("behavioral_trust", has (w_scores w)); ("budget", has (g_tracker g));
   ("capability_registry", has (g_capabilityRegistry g)); ("capability_token", has (g_capabilityVerifier g));
   ("capability_rollback", has (g_rollbackPlans g)); ("compliance", has (g_complianceChecker g));
   ("context", has (w_context w)); ("delegation", has (w_delegation w)); ("egress", has (w_egress w));
   ("freeze", has (w_freeze w)); ("isolation", has (w_isolation w)); ("pdp", has (g_pdp g));
   ("policy_snapshots", has (g_snapshotStore g)); ("privilege", has (g_privilegeResolver g));
   ("safe_deprecation", has (g_safeDepController g)); ("scoped_stop", has (g_scopedStopReader g));
   ("session_risk", has (g_sessionRiskMemory g)); ("temporal", has (w_temporal w));
   ("threat", has (g_threatScanner g) || (0 <? g_semanticEscalationThresholdBP g)%Z);
   ("warm_lease", has (g_warmLeaseMgr g))].

Definition AllGateIDs (w : W) : list string := sort_strings (injected w).*1.

Definition GateRoster (w : W) : list string * list string :=
  (sort_strings (List.filter (fun x => x.2) (injected w)).*1,
   sort_strings (List.filter (fun x => negb x.2) (injected w)).*1).
End Guardian.

Definition json_of_roster (r : list string * list string) : json :=
  JObj [("active", JArr (map JStr r.1)); ("inactive", JArr (map JStr r.2))].

(** [GateRoster.Hash] *)
Definition GateRoster_Hash `{Hash} (r : list string * list string) : res string :=
  digest ← CanonicalHash (Ok (json_of_roster r)); Ok ("sha256:" +:+ digest).
