(* ===== verification/GuardianDemo.v ===== *)
(** A small deployment of the Guardian, with every collaborator a concrete
    function, on which the examples of the Guardian files run. *)
From Stdlib Require Import Ascii.
From S2P Require Import Prelude GoLib GoFmt Utf8 Jcs Contracts Signing KillSwitch Identity Egress Temporal Trust Prg AuditLog SafeDep PolicyScopes Guardian.

Local Open Scope string_scope.

Module Demo.

#[export] Instance hash : Hash := fun b => take 4 b.
#[export] Instance ed25519 : Ed25519 := toy_ed25519.
#[export] Instance ed25519_ok : Ed25519Laws := toy_ed25519_laws.
#[export] Instance signer : Signer := ed25519_signer (NewEd25519SignerFromKey [] "k1").
#[export] Instance signer_ok : SignerLaws signer := ed25519_laws [] "k1".
#[export] Instance cel : Cel := toy_cel.

Definition environment : ContextGuard.environment := {|
  ContextGuard.goos := "linux"; ContextGuard.goarch := "amd64"; ContextGuard.hostname := Some "h";
  ContextGuard.executable := None; ContextGuard.workdir := None |}.

(** A clock that advances by a millisecond per reading. *)
#[export] Instance runtime : Runtime := {|
  clk := fun n => (Z.of_nat n * 1000000)%Z;
  rng := fun n => [byte n];
  env_now := environment;
  freeze_source := Fail "no source";
  HELM_TAINT_TRACKING := "1";
  math_Exp := fun _ => of_int 1;
  decode_assumptions := fun _ => Ok [];
  decode_sandbox_window := fun _ => Ok ((30 * minute)%Z, (2 * minute)%Z) |}.

(** The budget gate: the collaborators' state is what is left. *)
Definition budget : BudgetGate (Ext := Z) := {|
  bg_Check := fun _ left => (left, Ok (0 <? left)%Z);
  bg_Consume := fun _ left => ((left - 1)%Z, Ok tt) |}.

Definition rules : gmap string RequirementSet :=
  {["read_file" := RSet "open" "AND" [leaf_req "a" "" "true"] [];
    "rm_rf" := RSet "shut" "AND" [leaf_req "b" "" "false"] []]}.

Definition guardian : Guardian Z := {|
  g_prg := rules; g_registry := fun _ x => (x, Fail "no artifact"); g_tracker := Some budget;
  g_envFprint := "sha256:env"; g_gateRosterHash := "sha256:roster"; g_pdp := None; g_snapshotStore := None;
  g_snapshotScope := DefaultScope; g_complianceChecker := None; g_capabilityRegistry := None;
  g_capabilityVerifier := None; g_rollbackPlans := None; g_scopedStopReader := None; g_threatScanner := None;
  g_semanticEscalationThresholdBP := 0; g_scorerConfig := DefaultScorerConfig; g_privilegeResolver := None;
  g_sessionRiskMemory := None; g_warmLeaseMgr := None; g_safeDepController := None; g_assumptionObserver := None |}.
#[export] Instance Guardian_eta : Eta (Guardian Z) := fun g => {|
  g_prg := g_prg g; g_registry := g_registry g; g_tracker := g_tracker g; g_envFprint := g_envFprint g;
  g_gateRosterHash := g_gateRosterHash g; g_pdp := g_pdp g; g_snapshotStore := g_snapshotStore g;
  g_snapshotScope := g_snapshotScope g; g_complianceChecker := g_complianceChecker g;
  g_capabilityRegistry := g_capabilityRegistry g; g_capabilityVerifier := g_capabilityVerifier g;
  g_rollbackPlans := g_rollbackPlans g; g_scopedStopReader := g_scopedStopReader g;
  g_threatScanner := g_threatScanner g; g_semanticEscalationThresholdBP := g_semanticEscalationThresholdBP g;
  g_scorerConfig := g_scorerConfig g; g_privilegeResolver := g_privilegeResolver g;
  g_sessionRiskMemory := g_sessionRiskMemory g; g_warmLeaseMgr := g_warmLeaseMgr g;
  g_safeDepController := g_safeDepController g; g_assumptionObserver := g_assumptionObserver g |}.

Definition world : World Z := {|
  w_freeze := None; w_kill := None; w_context := None; w_isolation := None; w_egress := None;
  w_temporal := None; w_delegation := None; w_scores := None; w_audit := Some []; w_revocationList := ∅;
  w_prgCache := ∅; w_clock := 0; w_rng := 0; w_ext := 10%Z |}.

Definition call (tool : string) (c : ctx) : DecisionRequest := {|
  rq_Principal := "agent-1"; rq_Action := "EXECUTE_TOOL"; rq_Resource := tool; rq_Context := c;
  rq_SessionHistory := [] |}.

Definition evaluate (g : Guardian Z) (req : DecisionRequest) (w : World Z) : World Z * res DecisionRecord :=
  EvaluateDecision g false req w.

(** Verdict and reason code of an evaluation, and the budget left. *)
Definition verdict_of (r : World Z * res DecisionRecord) : res (string * string) * Z :=
  (d ← r.2; Ok (dr_Verdict d, dr_ReasonCode d), w_ext r.1).

Lemma evaluate_examples :
  verdict_of (evaluate guardian (call "read_file" (Some {["budget_id" := AString "b"]})) world)
    = (Ok ("ALLOW", ""), 9%Z) /\
  verdict_of (evaluate guardian (call "rm_rf" (Some {["budget_id" := AString "b"]})) world)
    = (Ok ("DENY", "MISSING_REQUIREMENT"), 10%Z) /\
  verdict_of (evaluate guardian (call "format" None) world) = (Ok ("DENY", "NO_POLICY_DEFINED"), 10%Z).
Proof. vm_compute. split_and!; reflexivity. Qed.

End Demo.
