(* ===== verification/GuardianProps.v ===== *)
(** What the Guardian guarantees: every decision it returns is signed for the
    request it was asked about, an ALLOW has passed every gate, and an
    execution intent is only issued on a verified, current ALLOW for the very
    effect it names. *)
From Stdlib Require Import Ascii.
From S2P Require Import Prelude GoLib GoFmt Utf8 Jcs Contracts Signing Capability ScopedStop KillSwitch Identity Egress Temporal Trust Prg AuditLog SafeDep PolicyScopes Guardian GuardianDemo.

Local Open Scope string_scope.

(** * Partial-correctness triples over results *)

Definition returns {W A} (P : A -> Prop) (c : M W A) : Prop := forall w w' a, c w = (w', Ok a) -> P a.

Lemma returns_ret {W A} (P : A -> Prop) (a : A) : P a -> returns P (mret a : M W A).
Proof. intros Ha w w' a' [= _ <-]. done. Qed.

Lemma returns_lift {W A} (P : A -> Prop) (r : res A) : (forall a, r = Ok a -> P a) -> returns P (lift r : M W A).
Proof. intros Hr w w' a' [= _ ->]. auto. Qed.

Lemma returns_fail {W A} (P : A -> Prop) e : returns P (fail e : M W A).
Proof. by intros w w' a. Qed.

Lemma returns_bind {W A B} (P : B -> Prop) (c : M W A) (f : A -> M W B) :
  (forall a, returns P (f a)) -> returns P (c ≫= f).
Proof. intros Hf w w' b (w1 & a & _ & Hb)%M_bind_Ok. by eapply Hf. Qed.

Lemma returns_bind_post {W A B} (Q : A -> Prop) (P : B -> Prop) (c : M W A) (f : A -> M W B) :
  returns Q c -> (forall a, Q a -> returns P (f a)) -> returns P (c ≫= f).
Proof. intros Hc Hf w w' b (w1 & a & Ha & Hb)%M_bind_Ok. eapply Hf; [|exact Hb]. by eapply Hc. Qed.

Lemma returns_weaken {W A} (P Q : A -> Prop) (c : M W A) : (forall a, P a -> Q a) -> returns P c -> returns Q c.
Proof. intros HPQ Hc w w' a Ha. eapply HPQ, Hc, Ha. Qed.

#[export] Hint Resolve returns_ret returns_fail : helm.

Section Soundness.
Context `{Hash} `{S : Signer} `{!SignerLaws S} `{Cel} `{Runtime} {Ext : Type} (g : Guardian Ext).

Abbreviation W := (World Ext).
Abbreviation EC := (EvaluationContext Ext).
Abbreviation outcome := (Guardian.outcome (Ext := Ext)).
Abbreviation Gate := (Guardian.Gate (Ext := Ext)).
Abbreviation Handler := (Guardian.Handler (Ext := Ext)).

(** The decision is the kernel's answer to this request. *)
Record sound (req : DecisionRequest) (d : DecisionRecord) : Prop := {
  so_verifies : VerifyDecision d = Ok true;
  so_version : dr_SignatureVersion d = DecisionRecordSignatureV4;
  so_type : dr_SignatureType d = signature_type;
  so_subject : dr_SubjectID d = rq_Principal req;
  so_action : dr_Action d = rq_Action req;
  so_resource : dr_Resource d = rq_Resource req;
  so_tuple : blank (rq_Principal req) = false /\ blank (rq_Action req) = false /\ blank (rq_Resource req) = false;
  so_verdict : IsCanonicalVerdict (dr_Verdict d) = true;
  so_code : dr_Verdict d = VerdictAllow <-> dr_ReasonCode d = "";
}.

Definition refusal (req : DecisionRequest) (d : DecisionRecord) : Prop :=
  sound req d /\ dr_Verdict d <> VerdictAllow.

Definition same_tuple (r r' : DecisionRequest) : Prop :=
  rq_Principal r' = rq_Principal r /\ rq_Action r' = rq_Action r /\ rq_Resource r' = rq_Resource r.

Lemma sound_tuple r r' d : same_tuple r r' -> sound r' d -> sound r d.
Proof. intros (Hp & Ha & Hr) []. rewrite Hp, Ha, Hr in *. by constructor. Qed.

Lemma refusal_tuple r r' d : same_tuple r r' -> refusal r' d -> refusal r d.
Proof. intros Ht [Hs Hv]. split; [by eapply sound_tuple|done]. Qed.

(** ** What binding and signing give *)

Lemma bind_field_Ok name d r v : bind_field name d r = Ok v -> v = r /\ blank r = false.
Proof.
  unfold bind_field. destruct (blank r); [done|]. destruct (blank d); [by intros [= <-]|].
  destruct (String.eqb_spec d r) as [->|]; [|done]. by intros [= <-].
Qed.

Definition bound (d : DecisionRecord) (p a r : string) : DecisionRecord :=
  d <| dr_SubjectID := p |> <| dr_Action := a |> <| dr_Resource := r |>.

Lemma bindDecisionRequest_Ok d p a r d' :
  bindDecisionRequest d p a r = Ok d' ->
  d' = bound d p a r /\ blank p = false /\ blank a = false /\ blank r = false.
Proof.
  unfold bindDecisionRequest.
  intros (s & [-> Hs]%bind_field_Ok & (a' & [-> Ha]%bind_field_Ok & (r' & [-> Hr]%bind_field_Ok & Hd)%res_bind_Ok)%res_bind_Ok)%res_bind_Ok.
  apply Ok_inj in Hd. by rewrite <-Hd.
Qed.

(** Signing a record already bound to the request. *)
Lemma sign_sound req d d' :
  dr_SubjectID d = rq_Principal req -> dr_Action d = rq_Action req -> dr_Resource d = rq_Resource req ->
  blank (rq_Principal req) = false /\ blank (rq_Action req) = false /\ blank (rq_Resource req) = false ->
  IsCanonicalVerdict (dr_Verdict d) = true -> (dr_Verdict d = VerdictAllow <-> dr_ReasonCode d = "") ->
  SignDecision d = Ok d' -> sound req d' /\ dr_Verdict d' = dr_Verdict d /\ dr_ReasonCode d' = dr_ReasonCode d.
Proof.
  intros Hs Ha Hr Ht Hv Hc Hok. pose proof (sign_decision_verifies _ _ Hok) as Hver.
  destruct (sign_decision_stamps _ _ Hok) as [Hst _].
  remember (dr_Signature d') as sig eqn:Hsig. clear Hsig Hok. subst d'.
  split; [|done]. by constructor.
Qed.

(** A refusing record: DENY or ESCALATE with a reason code. *)
Definition refusing (d : DecisionRecord) : Prop :=
  (dr_Verdict d = VerdictDeny \/ dr_Verdict d = VerdictEscalate) /\ dr_ReasonCode d <> "".

Lemma refusing_verdict d : refusing d ->
  IsCanonicalVerdict (dr_Verdict d) = true /\ (dr_Verdict d = VerdictAllow <-> dr_ReasonCode d = "") /\
  dr_Verdict d <> VerdictAllow.
Proof. intros [[Hv|Hv] Hc]; rewrite Hv; (split; [done|]); split; (split; done) || done. Qed.

Lemma bindRuntime_fields (d : DecisionRecord) (s : option (EffectivePolicySnapshot Ext)) v :
  let d' := bindRuntimePolicyDecision d s v in
  dr_SubjectID d' = dr_SubjectID d /\ dr_Action d' = dr_Action d /\ dr_Resource d' = dr_Resource d /\
  dr_Verdict d' = dr_Verdict d /\ dr_ReasonCode d' = dr_ReasonCode d.
Proof. cbv zeta. unfold bindRuntimePolicyDecision. by repeat case_match. Qed.

Lemma sign_refusing req d d' :
  dr_SubjectID d = rq_Principal req -> dr_Action d = rq_Action req -> dr_Resource d = rq_Resource req ->
  blank (rq_Principal req) = false /\ blank (rq_Action req) = false /\ blank (rq_Resource req) = false ->
  refusing d -> SignDecision d = Ok d' -> refusal req d'.
Proof.
  intros Hs Ha Hr Ht Hd Hok. destruct (refusing_verdict d Hd) as (Hv & Hc & Hn).
  destruct (sign_sound req d d') as (Hso & Hv' & _); try done.
  split; [done|]. by rewrite Hv'.
Qed.

Lemma signDecisionForRequest_refusal d req (s : option (EffectivePolicySnapshot Ext)) v d' :
  refusing d -> signDecisionForRequest d req s v = Ok d' -> refusal req d'.
Proof.
  unfold signDecisionForRequest. intros Hd (d1 & Hb & Hs)%res_bind_Ok.
  rewrite wrap_err_Ok in Hb. apply bindDecisionRequest_Ok in Hb as (-> & Ht).
  destruct (bindRuntime_fields (bound d (rq_Principal req) (rq_Action req) (rq_Resource req)) s v)
    as (E1 & E2 & E3 & E4 & E5).
  eapply sign_refusing; [..|exact Hs]; try done. unfold refusing. rewrite E4, E5. exact Hd.
Qed.

Lemma signDecisionWithContext_refusal d (e : EC) d' :
  refusing d -> signDecisionWithContext d e = Ok d' -> refusal (ec_Request e) d'.
Proof.
  unfold signDecisionWithContext. intros Hd (d1 & Hb & Hs)%res_bind_Ok.
  rewrite wrap_err_Ok in Hb. apply bindDecisionRequest_Ok in Hb as (-> & Ht).
  set (req := ec_Request e) in *. set (d2 := bound _ _ _ _) in *.
  set (d3 := match ec_ThreatScanResult e with Some _ => _ | None => _ end) in *.
  assert (dr_SubjectID d3 = rq_Principal req /\ dr_Action d3 = rq_Action req /\ dr_Resource d3 = rq_Resource req /\
    dr_Verdict d3 = dr_Verdict d /\ dr_ReasonCode d3 = dr_ReasonCode d) as (F1 & F2 & F3 & F4 & F5)
    by (subst d3; by destruct (ec_ThreatScanResult e)).
  destruct (bindRuntime_fields d3 (ec_ActiveSnapshot e) (ec_PolicyVersion e)) as (E1 & E2 & E3 & E4 & E5).
  eapply sign_refusing; [by rewrite E1|by rewrite E2|by rewrite E3|exact Ht| |exact Hs].
  unfold refusing. rewrite E4, E5, F4, F5. exact Hd.
Qed.

(** ** Gates *)

Definition answers (req : DecisionRequest) (o : outcome) : Prop :=
  match o with
  | inl e' => same_tuple req (ec_Request e')
  | inr d => refusal req d
  end.

Definition gate_sound (a : Gate) : Prop := forall e : EC, returns (answers (ec_Request e)) (a e).
Definition handler_sound (h : Handler) : Prop := forall e : EC, returns (sound (ec_Request e)) (h e).

Lemma same_tuple_refl r : same_tuple r r.
Proof. done. Qed.
Lemma same_tuple_trans r1 r2 r3 : same_tuple r1 r2 -> same_tuple r2 r3 -> same_tuple r1 r3.
Proof. unfold same_tuple. intuition congruence. Qed.

Lemma then_gate_sound a b : gate_sound a -> gate_sound b -> gate_sound (then_gate a b).
Proof.
  intros Ha Hb e. unfold then_gate. eapply returns_bind_post; [apply Ha|].
  intros [e'|d] Ho; cbn in Ho; [|by apply returns_ret].
  eapply returns_weaken; [|apply Hb]. intros [e2|d] Ho'; cbn in *.
  - by eapply same_tuple_trans.
  - by eapply refusal_tuple.
Qed.

Lemma intercept_sound a next : gate_sound a -> handler_sound next -> handler_sound (intercept a next).
Proof.
  intros Ha Hn e. unfold intercept. eapply returns_bind_post; [apply Ha|].
  intros [e'|d] Ho; cbn in Ho; [|apply returns_ret; apply Ho].
  eapply returns_weaken; [|apply Hn]. intros d Hd. by eapply sound_tuple.
Qed.

Lemma pass_sound req (e' : EC) : same_tuple req (ec_Request e') -> returns (answers req) (pass e').
Proof. intros Ht. by apply returns_ret. Qed.

Lemma stop_sound req (c : M W DecisionRecord) : returns (refusal req) c -> returns (answers req) (stop c).
Proof. intros Hc. eapply returns_bind_post; [exact Hc|]. intros d Hd. by apply returns_ret. Qed.

Lemma refuse_sound what req (e : EC) d after :
  same_tuple req (ec_Request e) -> refusing d -> returns (answers req) (refuse what e d after).
Proof.
  intros Ht Hd. apply stop_sound.
  eapply (returns_bind_post (refusal req)).
  - apply returns_lift. intros d' Hok%wrap_err_Ok. eapply refusal_tuple; [exact Ht|].
    by eapply signDecisionWithContext_refusal.
  - intros d' Hd'. apply returns_bind. intros _. by apply returns_ret.
Qed.

Lemma deny_plain_sound what req (e : EC) t code reason after :
  same_tuple req (ec_Request e) -> code <> "" -> returns (answers req) (deny_plain what e t code reason after).
Proof.
  intros Ht Hc. apply returns_bind. intros id. apply refuse_sound; [done|].
  split; [by left|done].
Qed.

Lemma refuse_early_sound what d req0 req (s : option (EffectivePolicySnapshot Ext)) v after :
  same_tuple req0 req -> refusing d -> returns (answers req0) (refuse_early what d req s v after).
Proof.
  intros Ht Hd. apply stop_sound.
  eapply (returns_bind_post (refusal req0)).
  - apply returns_lift. intros d' Hok%wrap_err_Ok. eapply refusal_tuple; [exact Ht|].
    by eapply signDecisionForRequest_refusal.
  - intros d' Hd'. apply returns_bind. intros _. by apply returns_ret.
Qed.

Lemma bind_sign_sound m1 m2 req (e : EC) d0 (after : DecisionRecord -> M W unit) :
  same_tuple req (ec_Request e) -> refusing d0 ->
  returns (refusal req) (d ← lift (wrap_err m1 (bind_request d0 (ec_Request e)));
    d ← lift (wrap_err m2 (SignDecision
          (bindRuntimePolicyDecision d (ec_ActiveSnapshot e) (ec_PolicyVersion e))));
    _ ← after d; mret d).
Proof.
  intros Ht Hd0.
  eapply (returns_bind_post (fun d => bind_request d0 (ec_Request e) = Ok d)).
  { apply returns_lift. intros d Hok%wrap_err_Ok. exact Hok. }
  intros d [-> Hb]%bindDecisionRequest_Ok.
  eapply (returns_bind_post (refusal req)).
  - apply returns_lift. intros d' Hok%wrap_err_Ok. eapply refusal_tuple; [exact Ht|].
    destruct (bindRuntime_fields (bound d0 (rq_Principal (ec_Request e)) (rq_Action (ec_Request e))
      (rq_Resource (ec_Request e))) (ec_ActiveSnapshot e) (ec_PolicyVersion e)) as (E1 & E2 & E3 & E4 & E5).
    eapply sign_refusing; [by rewrite E1|by rewrite E2|by rewrite E3|exact Hb| |exact Hok].
    unfold refusing. rewrite E4, E5. exact Hd0.
  - intros d' Hd'. apply returns_bind. intros _. by apply returns_ret.
Qed.

Lemma reason_nonempty (c : ReasonCode) : reason_text c <> "".
Proof. by destruct c. Qed.

Lemma capabilityShortCircuit_sound req (e : EC) v code reason act :
  same_tuple req (ec_Request e) -> v <> VerdictAllow ->
  returns (answers req) (capabilityShortCircuit g e v code reason act).
Proof.
  intros Ht Hv. unfold capabilityShortCircuit. apply stop_sound.
  apply returns_bind. intros id. apply returns_bind. intros t.
  apply bind_sign_sound; [exact Ht|].
  split; [destruct v; [done|by left|by right]|apply reason_nonempty].
Qed.

Ltac refusing_done := split; [first [by left|by right]|first [apply reason_nonempty|done]].

(** Walks through a gate: binds, cases, passes and refusals. *)
Ltac gate_step :=
  cbv zeta;
  lazymatch goal with
  | |- returns _ (pass _) => apply pass_sound; done
  | |- returns _ (deny_plain _ _ _ _ _ _) => apply deny_plain_sound; [done|first [apply reason_nonempty|done]]
  | |- returns _ (refuse _ _ _ _) => apply refuse_sound; [done|refusing_done]
  | |- returns _ (refuse_early _ _ _ _ _ _) => apply refuse_early_sound; [done|refusing_done]
  | |- returns _ (capabilityShortCircuit _ _ _ _ _ _) => apply capabilityShortCircuit_sound; [done|done]
  | |- returns _ (fail _) => apply returns_fail
  | |- returns _ (mbind _ _) => apply returns_bind; intros ?
  | |- returns _ (match ?x with _ => _ end) => destruct x eqn:?
  end.
Ltac gate := repeat gate_step.

Lemma zeroid_sound : gate_sound (zeroid_gate g).
Proof. intros e. unfold zeroid_gate, zeroid_deny. gate. Qed.

Lemma temporal_sound : gate_sound (temporal_gate g).
Proof. intros e. unfold temporal_gate. gate. Qed.

Lemma freeze_check_sound : gate_sound freeze_check.
Proof. intros e. unfold freeze_check. gate. Qed.

Lemma scoped_stop_sound : gate_sound (scoped_stop_check g).
Proof. intros e. unfold scoped_stop_check, scopedStopDeny. gate. Qed.

Lemma kill_sound : gate_sound kill_check.
Proof. intros e. unfold kill_check. gate. Qed.

Lemma context_sound : gate_sound context_check.
Proof. intros e. unfold context_check. gate. Qed.

Lemma freeze_sound : gate_sound (freeze_gate g).
Proof. repeat apply then_gate_sound; auto using freeze_check_sound, scoped_stop_sound, kill_sound, context_sound. Qed.

Lemma isolation_sound : gate_sound isolation_check.
Proof. intros e. unfold isolation_check, pdp_deny. gate. Qed.

Lemma scan_fields_sound scanner ch tl keys : gate_sound (scan_fields g scanner ch tl keys).
Proof.
  induction keys as [|k keys IH]; intros e; cbn [scan_fields]; [gate|].
  destruct (scannable (context e) k); [|apply IH].
  apply returns_bind. intros r. cbv zeta. destruct (_ && _).
  - unfold threat_deny. gate.
  - exact (IH _).
Qed.

Lemma threat_sound : gate_sound (threat_check g).
Proof.
  intros e. unfold threat_check, unavailable_scan. destruct (trustedInputProvenance _) as [ch tl].
  destruct (g_threatScanner g) as [sc|]; [apply scan_fields_sound|]. gate.
Qed.

Lemma semantic_sound : gate_sound (semantic_check g).
Proof. intros e. unfold semantic_check. gate. Qed.

Lemma delegation_sound : gate_sound delegation_check.
Proof. intros e. unfold delegation_check. gate. Qed.

Lemma pdp_check_sound : gate_sound (pdp_check g).
Proof.
  intros e. unfold pdp_check. destruct (ec_ActivePDP e) as [p|]; [|gate].
  apply returns_bind. intros t0. apply returns_bind. intros [resp|err]; [|gate].
  cbv zeta. set (e1 := _ <| ec_PDPDecisionHash := _ |>).
  assert (same_tuple (ec_Request e) (ec_Request e1)) as Ht
    by (subst e1; destruct (ec_ActiveSnapshot _); done).
  clearbody e1. destruct (negb (pr_Allow resp)).
  - assert ((if String.eqb (pr_ReasonCode resp) "" then reason_text ReasonPDPDeny else pr_ReasonCode resp) <> "")
      as Hc by (destruct (String.eqb_spec (pr_ReasonCode resp) ""); done).
    revert Hc. generalize (if String.eqb (pr_ReasonCode resp) "" then reason_text ReasonPDPDeny else pr_ReasonCode resp).
    intros code Hc. apply returns_bind. intros id. apply returns_bind. intros t.
    apply refuse_sound; [done|]. split; [|exact Hc].
    destruct (String.eqb code ReasonApprovalRequired); [by right|by left].
  - destruct (pd_AuthoritativeAllow p); by apply pass_sound.
Qed.

Lemma pdp_sound : gate_sound (pdp_gate g).
Proof.
  repeat apply then_gate_sound; auto using isolation_sound, threat_sound, semantic_sound, delegation_sound,
    pdp_check_sound. intros e. unfold drop_threat_evidence. gate.
Qed.

Lemma egress_sound : gate_sound (egress_check g).
Proof. intros e. unfold egress_check. gate. Qed.

Lemma taint_sound override : gate_sound (taint_check g override).
Proof.
  intros e. unfold taint_check. cbv zeta. set (e1 := match TaintLabelsFromContext _ with [] => _ | _ => _ end).
  assert (same_tuple (ec_Request e) (ec_Request e1)) as Ht by (subst e1; destruct (TaintLabelsFromContext _); done).
  clearbody e1. gate.
Qed.

Lemma taint_egress_sound override : gate_sound (taint_egress_gate g override).
Proof. apply then_gate_sound; [apply egress_sound|apply taint_sound]. Qed.

Lemma assumption_deny_sound req (e : EC) a why :
  same_tuple req (ec_Request e) -> returns (answers req) (assumption_deny g e a why).
Proof. intros Ht. unfold assumption_deny. gate. Qed.

Lemma check_assumptions_sound t l : gate_sound (check_assumptions g t l).
Proof.
  induction l as [|a l IH]; intros e; cbn [check_assumptions]; [gate|].
  destruct (Contracts.Validate a); [|by apply assumption_deny_sound].
  destruct (Expired a t); [by apply assumption_deny_sound|].
  destruct (g_assumptionObserver g); [|apply IH].
  apply returns_bind. intros [obs|err]; [|by apply assumption_deny_sound].
  destruct (String.eqb obs _); [apply IH|by apply assumption_deny_sound].
Qed.

Lemma assumption_sound : gate_sound (assumption_gate g).
Proof.
  intros e. unfold assumption_gate. destruct (assumptionsFromContext _) as [[|a l]|err].
  - gate.
  - apply returns_bind. intros t. apply check_assumptions_sound.
  - by apply assumption_deny_sound.
Qed.

Lemma sandbox_sound : gate_sound (sandbox_gate g).
Proof. intros e. unfold sandbox_gate. gate. Qed.

Lemma trust_sound : gate_sound (trust_gate g).
Proof. intros e. unfold trust_gate. gate. Qed.

Lemma privilege_sound : gate_sound (privilege_gate g).
Proof. intros e. unfold privilege_gate. gate. Qed.

Lemma compliance_sound d : gate_sound (compliance_gate g d).
Proof. intros e. unfold compliance_gate. gate. Qed.

Lemma snapshot_sound : gate_sound (snapshot_gate g).
Proof.
  intros e. unfold snapshot_gate. destruct (g_snapshotStore g) as [get|]; [|gate].
  apply returns_bind. intros [s|]; [|gate]. destruct (negb _); [gate|]. cbv zeta.
  apply pass_sound. by destruct (sn_Graph s), (sn_PDP s).
Qed.

(** Every safe-deprecation classification names a reason. *)
Lemma classify_named ctl c (x : Ext) st code :
  (classify_context ctl c x).2 = Some (Ok (st, code)) -> code <> "".
Proof.
  unfold classify_context. destruct (Empty _); [discriminate|].
  destruct (Controller.Classify ctl (SignalFromContext c) x) as [x' [cl|e]] eqn:E; [|discriminate].
  cbn. intros [= _ <-]. apply ControllerProps.Classify_Ok in E as (_&_&_&E). exact E.
Qed.

Lemma safedep_sound : gate_sound (safedep_gate g).
Proof.
  intros e. unfold safedep_gate. destruct (g_safeDepController g) as [ctl|] eqn:Hctl; [|gate].
  eapply (returns_bind_post (fun r => match r with Some (Ok (_, code)) => code <> "" | _ => True end)).
  - intros w w' r. unfold ext. destruct (classify_context ctl (context e) (w_ext w)) as [x r'] eqn:Hr.
    intros [= _ <-]. destruct r' as [[[st code]|]|]; [|done|done].
    eapply classify_named. by rewrite Hr.
  - intros [[[st code]|err]|] Hc; [|gate|gate]. cbv zeta. destruct (_ || _); [|by apply pass_sound].
    apply returns_bind. intros id. apply returns_bind. intros t.
    apply refuse_early_sound; [done|]. split; [by left|exact Hc].
Qed.

Lemma reversibility_sound m : gate_sound (applyReversibilityPolicy g m).
Proof. intros e. unfold applyReversibilityPolicy, rollback_invalid. gate. Qed.

Lemma token_sound entry raw : gate_sound (token_gate g entry raw).
Proof. intros e. unfold token_gate, token_invalid. gate. Qed.

Lemma enrich_tuple entry (e : EC) : same_tuple (ec_Request e) (ec_Request (enrich_capability entry e)).
Proof. unfold enrich_capability. cbv zeta. by destruct (String.eqb _ _). Qed.

Lemma capability_sound : gate_sound (resolveCapabilityGate g).
Proof.
  intros e. unfold resolveCapabilityGate. destruct (context e) as [m|] eqn:Hc; [|gate]. cbv zeta.
  set (e1 := e <| ec_Request := _ |>). assert (same_tuple (ec_Request e) (ec_Request e1)) as Ht by done.
  clearbody e1. destruct (g_capabilityRegistry g) as [registry|]; [|gate].
  destruct (ctx_lookup (context e1) "capability_id") as [rawID|]; [|gate].
  destruct (id ← as_string rawID; if String.eqb id "" then None else Some id) as [cid|]; [|gate].
  destruct (Resolve cid registry) as [entry|]; [|gate].
  match goal with |- returns _ (if ?b then _ else _) => destruct b end; [gate|].
  eapply returns_weaken; [|apply then_gate_sound; [apply reversibility_sound|apply token_sound]].
  intros [e2|d] Ho; cbn in *.
  - eapply same_tuple_trans; [exact Ht|]. eapply same_tuple_trans; [apply (enrich_tuple entry)|exact Ho].
  - eapply refusal_tuple; [exact Ht|]. eapply refusal_tuple; [apply (enrich_tuple entry)|exact Ho].
Qed.

Lemma history_sound : gate_sound (history_gate (Ext := Ext)).
Proof.
  intros e. apply pass_sound. unfold attachSessionHistory. cbn. by destruct (rq_SessionHistory (ec_Request e)).
Qed.

Lemma session_risk_sound : gate_sound (session_risk_gate g).
Proof. intros e. unfold session_risk_gate. gate. Qed.

(** ** The final signature *)

Definition bound_to (req : DecisionRequest) (d : DecisionRecord) : Prop :=
  dr_SubjectID d = rq_Principal req /\ dr_Action d = rq_Action req /\ dr_Resource d = rq_Resource req /\
  blank (rq_Principal req) = false /\ blank (rq_Action req) = false /\ blank (rq_Resource req) = false.

Lemma sign_denied req d : bound_to req d -> refusing d ->
  returns (sound req) (lift (SignDecision d) : M W DecisionRecord).
Proof.
  intros (Hs & Ha & Hr & Ht) Hd. apply returns_lift. intros d' Hok.
  by apply (sign_refusing req d d').
Qed.

Lemma conclude_refusing d v (c : ReasonCode) reason :
  v = verdict_text VerdictDeny \/ v = verdict_text VerdictEscalate -> refusing (conclude_with d v c reason).
Proof. intros Hv. split; [exact Hv|]. apply reason_nonempty. Qed.

(** A step that may deny a copy of the record. *)
Definition may_deny (d : DecisionRecord) (o : option DecisionRecord) : Prop :=
  match o with Some x => (forall req, bound_to req d -> bound_to req x) /\ refusing x | None => True end.

Lemma budget_check_denies effect d : returns (may_deny d) (budget_check g effect d).
Proof.
  unfold budget_check. destruct (g_tracker g) as [tr|]; [|by apply returns_ret].
  destruct (budget_id effect); [|by apply returns_ret].
  apply returns_bind. intros [[]|err]; apply returns_ret; [done|..];
    (split; [done|]; apply conclude_refusing; by left).
Qed.

Lemma budget_consume_denies effect d : returns (may_deny d) (budget_consume g effect d).
Proof.
  unfold budget_consume. destruct (g_tracker g) as [tr|]; [|by apply returns_ret].
  destruct (budget_id effect); [|by apply returns_ret].
  apply returns_bind. intros [[]|err]; apply returns_ret; [done|].
  split; [done|]; apply conclude_refusing; by left.
Qed.

Lemma graph_check_denies graph h l effect arts d :
  returns (fun r => match r with inr x => may_deny d (Some x) | inl _ => True end)
    (graph_check g graph h l effect arts d).
Proof.
  unfold graph_check. cbv zeta. destruct (graph !! tool_or_type effect) as [rule|].
  2: { apply returns_ret. split; [done|]. apply conclude_refusing. by left. }
  apply returns_bind. intros effectMap. apply returns_bind. intros t. apply returns_bind.
  intros [[[] fs]|err]; [by apply returns_ret|apply returns_bind; intros _|]; apply returns_ret;
    (split; [done|]; apply conclude_refusing; by left).
Qed.

Lemma check_and_sign_sound req d h l effect arts graph auth :
  bound_to req d -> returns (sound req) (check_and_sign g d h l effect arts graph auth).
Proof.
  intros Hd. unfold check_and_sign.
  eapply returns_bind_post; [apply budget_check_denies|]. intros [x|] Hx.
  { destruct Hx as [Hx1 Hx2]. by apply sign_denied; [apply Hx1|]. }
  destruct (checkEnvelope effect).
  2: { apply sign_denied; [exact Hd|]. apply conclude_refusing. by left. }
  eapply (returns_bind_post (fun r => match r with inr x => may_deny d (Some x) | inl _ => True end)).
  { destruct auth; [by apply returns_ret|apply graph_check_denies]. }
  intros [rh|x] Hx'; [|destruct Hx' as [Hx1 Hx2]; by apply sign_denied; [apply Hx1|]].
  eapply returns_bind_post; [apply budget_consume_denies|]. intros [x|] Hx2.
  { destruct Hx2 as [Hx3 Hx4]. by apply sign_denied; [apply Hx3|]. }
  apply returns_bind. intros t. apply returns_bind. intros _. apply returns_lift. intros d' Hok.
  destruct Hd as (Hs & Ha & Hr & Ht).
  by apply (sign_sound req) in Hok as [Hso _].
Qed.

Lemma with_intervention_bound req iv d : bound_to req d -> bound_to req (with_intervention iv d).
Proof. unfold with_intervention. by destruct (intervening iv). Qed.

Lemma signDecisionWithGraph_sound req d h p ev iv graph auth :
  dr_SubjectID d = rq_Principal req -> dr_Action d = rq_Action req -> dr_Resource d = rq_Resource req ->
  returns (sound req) (signDecisionWithGraph g d h p ev iv graph auth).
Proof.
  intros Hs Ha Hr. unfold signDecisionWithGraph.
  eapply (returns_bind_post (bound_to req)).
  { apply returns_lift. intros d1 Hok%wrap_err_Ok. apply bindDecisionRequest_Ok in Hok as (-> & Hb1 & Hb2 & Hb3).
    rewrite Hs, Ha, Hr in *. done. }
  clear d Hs Ha Hr. intros d Hd.
  eapply (returns_bind_post (bound_to req)).
  { destruct (String.eqb _ _); [|by apply returns_ret]. apply returns_bind. intros dg. by apply returns_ret. }
  clear d Hd. intros d Hd. cbv zeta.
  apply returns_bind. intros arts. apply returns_bind. intros [l effect].
  match goal with |- context [with_intervention iv ?x] =>
    assert (bound_to req (with_intervention iv x)) as Hd2
      by (apply with_intervention_bound; by destruct (String.eqb _ _));
    revert Hd2; generalize (with_intervention iv x) end.
  intros d2 Hd2.
  destruct (intervening iv) as [[[] code wd ts]|]; try (by apply check_and_sign_sound);
    (apply sign_denied; [exact Hd2|apply conclude_refusing; by right]).
Qed.

Lemma decide_and_record_sound effect d : handler_sound (fun e => decide_and_record g e effect d).
Proof.
  intros e. unfold decide_and_record.
  eapply (returns_bind_post (bound_to (ec_Request e))).
  { apply returns_lift. intros d1 Hok%wrap_err_Ok.
    apply bindDecisionRequest_Ok in Hok as (-> & Hb1 & Hb2 & Hb3). done. }
  intros d1 (Hs & Ha & Hr & _).
  eapply returns_bind_post; [by apply signDecisionWithGraph_sound|]. intros d2 Hd2.
  apply returns_bind. intros _. apply returns_bind. intros r. apply returns_bind. intros _.
  by apply returns_ret.
Qed.

Lemma finalHandler_sound : handler_sound (finalHandler g).
Proof.
  apply intercept_sound; [apply then_gate_sound; [apply trust_sound|apply privilege_sound]|].
  intros e. apply returns_bind. intros eid. destruct (effect_of_request eid e) as [effect c].
  apply returns_bind. intros digest. apply returns_bind. intros id. apply returns_bind. intros t. cbv zeta.
  eapply returns_weaken; [|exact (intercept_sound _ _ (compliance_sound _) (decide_and_record_sound effect _) _)].
  intros d Hd. eapply sound_tuple; [|exact Hd]. done.
Qed.

Lemma Execute_sound chain final :
  Forall gate_sound chain -> handler_sound final -> handler_sound (Execute chain final).
Proof. intros Hc Hf. induction Hc; [done|]. by apply intercept_sound. Qed.

Lemma gates_sound override :
  Forall gate_sound (entry_gates g ++ boundary_chain g override)%list.
Proof.
  unfold entry_gates, boundary_chain. repeat constructor;
    auto using snapshot_sound, safedep_sound, capability_sound, history_sound, session_risk_sound,
      zeroid_sound, temporal_sound, freeze_sound, pdp_sound, taint_egress_sound, assumption_sound, sandbox_sound.
Qed.
End Soundness.

(** C1. Every decision the Guardian returns is the kernel's signed answer to
    the request it was asked: whatever the collaborators do, a returned record
    verifies under the kernel's signer as a V4 record, carries exactly the
    request's principal, action and resource (none of them blank), has one of
    the three canonical verdicts, and has an empty reason code exactly when the
    verdict is ALLOW. *)
Theorem evaluate_decision_sound `{Hash} `{S : Signer} `{!SignerLaws S} `{Cel} `{Runtime} {Ext}
    (g : Guardian Ext) override req w w' d :
  EvaluateDecision g override req w = (w', Ok d) ->
  sound req d.
Proof.
  intros Hev.
  exact (Execute_sound _ _ (gates_sound g override) (finalHandler_sound g) (initial_context g req) w w' d Hev).
Qed.

Import (hints) Demo.

Lemma evaluate_decision_sound_witness : exists d,
  (Demo.evaluate Demo.guardian (Demo.call "read_file" None) Demo.world).2 = Ok d /\
  dr_Verdict d = VerdictAllow /\ sound (S := Demo.signer) (Demo.call "read_file" None) d.
Proof.
  assert ((Demo.verdict_of (Demo.evaluate Demo.guardian (Demo.call "read_file" None) Demo.world)).1
    = Ok ("ALLOW", "")) as Hv by (vm_compute; reflexivity).
  destruct (Demo.evaluate Demo.guardian (Demo.call "read_file" None) Demo.world) as [w' [d|err]] eqn:E;
    [|discriminate Hv].
  exists d. split; [done|]. split; [by injection Hv|].
  exact (evaluate_decision_sound Demo.guardian false _ _ _ _ E).
Defined.
