(* ===== verification/GuardianGates.v ===== *)
(** An ALLOW has passed every gate: the frame of the chain (what a gate may
    change in the request and in the Guardian's objects), and the controls that
    rule an ALLOW out whatever the rest of the chain does. *)
From Stdlib Require Import Ascii.
From S2P Require Import Prelude GoLib GoFmt Utf8 Jcs Contracts Signing Capability ScopedStop KillSwitch Identity Egress Temporal Trust Prg AuditLog SafeDep PolicyScopes Guardian GuardianDemo GuardianProps.

Local Open Scope string_scope.

(** The context keys that the kernel itself writes or removes. *)
Definition kernel_keys : list string :=
  ["safe_deprecation_state"; "safe_deprecation_reason_code"; "capability_token"; "capability_manifest_hash";
   "capability_effect_class"; "capability_reversibility"; "capability_data_boundary"; "capability_risk_score";
   "capability_required_permit_level"; "capability_min_model_tier"; "capability_rollback_plan_id";
   "capability_rollback_plan_hash"; "capability_token_id"; "session_history"; "session_action_count";
   "session_deny_count"; "trajectory_risk_score"; "session_centroid_hash"; "risk_accumulation_window";
   "threat_scan"; "delegation_validated"; "delegation_delegator"; "delegation_delegate"; "taint";
   "sandbox_lease_id"; "trust_score"; "trust_tier"; "privilege_tier"; "tool_name"].

(** The keys of [kernel_keys] that no gate before the taint check writes. *)
Definition early_keys : list string := List.filter (fun k => negb (String.eqb k "taint")) kernel_keys.

Section Frame.
Context `{Hash} `{S : Signer} `{!SignerLaws S} `{Cel} `{Runtime} {Ext : Type} (g : Guardian Ext).

Abbreviation W := (World Ext).
Abbreviation EC := (EvaluationContext Ext).
Abbreviation outcome := (Guardian.outcome (Ext := Ext)).
Abbreviation Gate := (Guardian.Gate (Ext := Ext)).
Abbreviation Handler := (Guardian.Handler (Ext := Ext)).

(** ** What a gate may change in the evaluation context *)

(** The request keeps its tuple and every context entry outside [ks]. *)
Definition frame (ks : list string) (e e' : EC) : Prop :=
  same_tuple (ec_Request e) (ec_Request e') /\
  forall k, k ∉ ks -> ctx_lookup (context e') k = ctx_lookup (context e) k.

(** Beyond the frame: the active policy stays. *)
Record settles (ks : list string) (e e' : EC) : Prop := {
  st_frame : frame ks e e';
  st_graph : ec_ActiveGraph e' = ec_ActiveGraph e;
  st_pdp : ec_ActivePDP e' = ec_ActivePDP e;
  st_snapshot : ec_ActiveSnapshot e' = ec_ActiveSnapshot e;
}.

(** And so does the authoritative flag, at every gate but the decision point. *)
Record evolves (ks : list string) (e e' : EC) : Prop := {
  ev_frame : frame ks e e';
  ev_graph : ec_ActiveGraph e' = ec_ActiveGraph e;
  ev_pdp : ec_ActivePDP e' = ec_ActivePDP e;
  ev_snapshot : ec_ActiveSnapshot e' = ec_ActiveSnapshot e;
  ev_flag : ec_PDPAuthoritativeAllow e' = ec_PDPAuthoritativeAllow e;
}.

#[export] Instance frame_refl ks : Reflexive (frame ks).
Proof. by intros e. Qed.
#[export] Instance frame_trans ks : Transitive (frame ks).
Proof.
  intros e1 e2 e3 [Ht1 Hk1] [Ht2 Hk2]. split; [by eapply same_tuple_trans|].
  intros k Hk. by rewrite Hk2, Hk1.
Qed.

#[export] Instance settles_refl ks : Reflexive (settles ks).
Proof. intros e. by split. Qed.
#[export] Instance settles_trans ks : Transitive (settles ks).
Proof. intros e1 e2 e3 [F1 G1 P1 S1] [F2 G2 P2 S2]. split; [by etrans|congruence..]. Qed.

#[export] Instance evolves_refl ks : Reflexive (evolves ks).
Proof. intros e. by split. Qed.
#[export] Instance evolves_trans ks : Transitive (evolves ks).
Proof. intros e1 e2 e3 [F1 G1 P1 S1 A1] [F2 G2 P2 S2 A2]. split; [by etrans|congruence..]. Qed.

Lemma evolves_settles ks e e' : evolves ks e e' -> settles ks e e'.
Proof. by intros []. Qed.

Definition gate_rel (R : EC -> EC -> Prop) (a : Gate) : Prop := forall e : EC,
  returns (fun o : outcome => match o with inl e' => R e e' | inr _ => True end) (a e).

Lemma gate_rel_weaken (R R' : EC -> EC -> Prop) a :
  (forall e e', R e e' -> R' e e') -> gate_rel R a -> gate_rel R' a.
Proof. intros HR Ha e. eapply returns_weaken; [|apply Ha]. intros [e'|d]; auto. Qed.

Lemma then_gate_rel R `{!Transitive R} a b : gate_rel R a -> gate_rel R b -> gate_rel R (then_gate a b).
Proof.
  intros Ha Hb e. unfold then_gate. eapply returns_bind_post; [apply Ha|].
  intros [e'|d] Ho; [|by apply returns_ret].
  eapply returns_weaken; [|apply Hb]. intros [e2|d]; [|done]. intros HR. by etrans.
Qed.

Lemma stop_rel (Q : EC -> Prop) (c : M W DecisionRecord) :
  returns (fun o : outcome => match o with inl e' => Q e' | inr _ => True end) (stop c).
Proof. apply returns_bind. intros d. by apply returns_ret. Qed.

(** ** Writes to the context *)

Lemma ctx_lookup_put c k v k' : k <> k' -> ctx_lookup (ctx_put c k v) k' = ctx_lookup c k'.
Proof. intros Hk. destruct c as [m|]; cbn; by rewrite lookup_insert_ne. Qed.

Lemma ctx_lookup_delete c k k' : k <> k' -> ctx_lookup (ctx_delete c k) k' = ctx_lookup c k'.
Proof. intros Hk. destruct c as [m|]; cbn; [by rewrite lookup_delete_ne|done]. Qed.

Lemma existsb_eqb k ks : existsb (String.eqb k) ks = true -> k ∈ ks.
Proof. intros (x & Hx & ->%String.eqb_eq)%existsb_exists. by apply list_elem_of_In. Qed.

(** Replacing the request by one with the same tuple. *)
Lemma evolves_request ks e0 e (r : DecisionRequest) :
  evolves ks e0 e -> same_tuple (ec_Request e) r ->
  (forall k, k ∉ ks -> ctx_lookup (rq_Context r) k = ctx_lookup (context e) k) ->
  evolves ks e0 (e <| ec_Request := r |>).
Proof.
  intros He Ht Hk. etrans; [exact He|]. by split.
Qed.

Lemma evolves_put ks e0 e k v : existsb (String.eqb k) ks = true -> evolves ks e0 e -> evolves ks e0 (put k v e).
Proof.
  intros Hk He. apply evolves_request; [exact He|done|]. intros k' Hk'. cbn. apply ctx_lookup_put.
  intros <-. by apply Hk', existsb_eqb.
Qed.

Lemma evolves_delete ks e0 e k : existsb (String.eqb k) ks = true -> evolves ks e0 e ->
  evolves ks e0 (e <| ec_Request := (ec_Request e) <| rq_Context := ctx_delete (context e) k |> |>).
Proof.
  intros Hk He. apply evolves_request; [exact He|done|]. intros k' Hk'. cbn. apply ctx_lookup_delete.
  intros <-. by apply Hk', existsb_eqb.
Qed.

Lemma put_all_lookup ks kvs c k :
  forallb (fun kv => existsb (String.eqb kv.1) ks) kvs = true -> k ∉ ks ->
  ctx_lookup (put_all kvs c) k = ctx_lookup c k.
Proof.
  revert c. induction kvs as [|[k0 v] kvs IH]; intros c Hin Hk; [done|].
  cbn [forallb fst] in Hin. apply andb_true_iff in Hin as [Hin0 Hin].
  etrans; [exact (IH (ctx_put c k0 v) Hin Hk)|]. apply ctx_lookup_put.
  intros <-. by apply Hk, existsb_eqb.
Qed.

(** ** Walking through a gate *)

Ltac evolve :=
  lazymatch goal with
  | |- evolves _ ?e ?e => reflexivity
  | |- evolves _ _ (put _ _ _) => apply evolves_put; [reflexivity|evolve]
  | |- evolves _ _ (_ <| ec_Request := _ <| rq_Context := ctx_delete _ _ |> |>) =>
      apply evolves_delete; [reflexivity|evolve]
  | |- evolves _ _ (?e <| ec_Intervention := ?v |>) =>
      transitivity e; [evolve|by split]
  | |- evolves _ _ (?e <| ec_ThreatScanResult := ?v |>) =>
      transitivity e; [evolve|by split]
  | H : evolves _ ?e ?e' |- evolves _ ?e ?e' => exact H
  end.
Ltac gate_step :=
  cbv zeta;
  lazymatch goal with
  | |- returns _ (pass _) => apply returns_ret; evolve
  | |- returns _ (stop _) => apply stop_rel
  | |- returns _ (refuse _ _ _ _) => apply stop_rel
  | |- returns _ (refuse_early _ _ _ _ _ _) => apply stop_rel
  | |- returns _ (capabilityShortCircuit _ _ _ _ _ _) => apply stop_rel
  | |- returns _ (deny_plain _ _ _ _ _ _) => unfold deny_plain
  | |- returns _ (fail _) => apply returns_fail
  | |- returns _ (mbind _ _) => apply returns_bind; intros ?
  | |- returns _ (match ?x with _ => _ end) => destruct x eqn:?
  end.
Ltac gate := repeat gate_step.

Abbreviation early := (gate_rel (evolves early_keys)).
Abbreviation late := (gate_rel (evolves kernel_keys)).

Lemma safedep_early : early (safedep_gate g).
Proof. intros e. unfold safedep_gate. gate. Qed.

(** The keys the safe-deprecation gate writes. *)
Definition safedep_keys : list string := ["safe_deprecation_state"; "safe_deprecation_reason_code"].
Lemma safedep_evolves : gate_rel (evolves safedep_keys) (safedep_gate g).
Proof. intros e. unfold safedep_gate. gate. Qed.

Lemma reversibility_early m : early (applyReversibilityPolicy g m).
Proof. intros e. unfold applyReversibilityPolicy, rollback_invalid. gate. Qed.

Lemma token_early entry raw : early (token_gate g entry raw).
Proof. intros e. unfold token_gate, token_invalid. gate. Qed.

Lemma enrich_evolves entry (e0 e : EC) :
  evolves early_keys e0 e -> evolves early_keys e0 (enrich_capability entry e).
Proof. intros He. unfold enrich_capability. cbv zeta. destruct (String.eqb _ _); evolve. Qed.

Lemma capability_early : early (resolveCapabilityGate g).
Proof.
  intros e. unfold resolveCapabilityGate. destruct (context e) as [m|] eqn:Hc; [|gate]. cbv zeta.
  rewrite <-Hc. set (e1 := e <| ec_Request := _ |>).
  assert (evolves early_keys e e1) as He by (subst e1; evolve). clearbody e1. clear m Hc.
  destruct (g_capabilityRegistry g) as [registry|]; [|gate].
  destruct (ctx_lookup (context e1) "capability_id") as [rawID|]; [|gate].
  destruct (id ← as_string rawID; if String.eqb id "" then None else Some id) as [cid|]; [|gate].
  destruct (Resolve cid registry) as [entry|]; [|gate].
  match goal with |- returns _ (if ?b then _ else _) => destruct b end; [gate|].
  eapply returns_weaken; [|apply (then_gate_rel _ _ _ (reversibility_early _) (token_early entry _))].
  intros [e2|d]; [|done]. intros He2. etrans; [|exact He2]. by apply enrich_evolves.
Qed.

Lemma history_early : early (history_gate (Ext := Ext)).
Proof.
  intros e. apply returns_ret. apply evolves_request; [reflexivity|..]; unfold attachSessionHistory;
    destruct (rq_SessionHistory (ec_Request e)) as [|a l]; try done.
  intros k Hk. refine (put_all_lookup early_keys [(_, _); (_, _); (_, _)] _ k _ Hk); reflexivity.
Qed.

Lemma session_risk_early : early (session_risk_gate g).
Proof.
  intros e. unfold session_risk_gate. destruct (g_sessionRiskMemory g) as [m|]; [|gate].
  apply returns_bind. intros s. cbv zeta. destruct (sr_ShouldDeny m s); [gate|].
  apply returns_ret.
  transitivity (e <| ec_Request := (ec_Request e) <| rq_Context := attachSessionRiskContext (context e) s |> |>).
  - apply evolves_request; [reflexivity|done|]. intros k Hk. refine (put_all_lookup early_keys [(_, _); (_, _); (_, _)] _ k _ Hk); reflexivity.
  - by split.
Qed.

Lemma zeroid_early : early (zeroid_gate g).
Proof. intros e. unfold zeroid_gate, zeroid_deny. gate. Qed.

Lemma temporal_early : early (temporal_gate g).
Proof. intros e. unfold temporal_gate. gate. Qed.

Lemma freeze_check_early : early freeze_check.
Proof. intros e. unfold freeze_check. gate. Qed.
Lemma scoped_stop_early : early (scoped_stop_check g).
Proof. intros e. unfold scoped_stop_check, scopedStopDeny. gate. Qed.
Lemma kill_early : early kill_check.
Proof. intros e. unfold kill_check. gate. Qed.
Lemma context_early : early context_check.
Proof. intros e. unfold context_check. gate. Qed.
Lemma freeze_early : early (freeze_gate g).
Proof.
  repeat apply then_gate_rel; eauto using freeze_check_early, scoped_stop_early, kill_early, context_early with typeclass_instances.
Qed.

Lemma drop_early : early drop_threat_evidence.
Proof. intros e. unfold drop_threat_evidence. gate. Qed.
Lemma isolation_early : early isolation_check.
Proof. intros e. unfold isolation_check, pdp_deny. gate. Qed.

Lemma scan_fields_early scanner ch tl keys : early (scan_fields g scanner ch tl keys).
Proof.
  induction keys as [|k keys IH]; intros e; cbn [scan_fields]; [gate|].
  destruct (scannable (context e) k); [|apply IH].
  apply returns_bind. intros r. cbv zeta. destruct (_ && _).
  - unfold threat_deny. gate.
  - eapply returns_weaken; [|apply IH]. intros [e'|d]; [|done]. intros He'.
    etrans; [|exact He']. evolve.
Qed.

Lemma threat_early : early (threat_check g).
Proof.
  intros e. unfold threat_check, unavailable_scan. destruct (trustedInputProvenance _) as [ch tl].
  destruct (g_threatScanner g) as [sc|]; [apply scan_fields_early|]. gate.
Qed.
Lemma semantic_early : early (semantic_check g).
Proof. intros e. unfold semantic_check. gate. Qed.
Lemma delegation_early : early delegation_check.
Proof. intros e. unfold delegation_check. gate. Qed.

Lemma stop_not_inl (c : M W DecisionRecord) w w' (e' : EC) : stop c w <> (w', Ok (inl e')).
Proof. by intros (w1 & d & _ & [= ])%M_bind_Ok. Qed.

Lemma settle_early a : early a -> gate_rel (settles early_keys) a.
Proof. apply gate_rel_weaken. apply evolves_settles. Qed.

(** The decision point allowed the request: asked about its principal, action
    and resource in the context, at the time and in the state of the gate, it
    answered yes, and it speaks with authority. *)
Definition pdp_allows (e : EC) (w : W) : Prop :=
  exists p resp, ec_ActivePDP e = Some p /\ pd_AuthoritativeAllow p = Some true /\
    (pd_Evaluate p (principal e) (action e) (resource e) (context e) (clk (w_clock w)) (w_ext w)).2 = Ok resp /\
    pr_Allow resp = true.

Lemma pdp_check_pass e w w' (e' : EC) :
  pdp_check g e w = (w', Ok (inl e')) ->
  settles early_keys e e' /\
  (ec_PDPAuthoritativeAllow e' = true -> ec_PDPAuthoritativeAllow e = true \/ pdp_allows e w).
Proof.
  unfold pdp_check, pdp_allows. destruct (ec_ActivePDP e) as [p|] eqn:Hp; [|intros [= _ ->]; split; [done|by left]].
  intros (w1 & t0 & [= <- <-] & Hr)%M_bind_Ok. apply M_bind_Ok in Hr as (w2 & r & Hx & Hr).
  unfold ext in Hx. destruct (pd_Evaluate p _ _ _ _ _ _) as [x a] eqn:Hev. injection Hx as <- <-.
  change (pd_Evaluate p (principal e) (action e) (resource e) (context e) (clk (w_clock w)) (w_ext w) = (x, a)) in Hev.
  destruct a as [resp|err].
  2: { apply M_bind_Ok in Hr as (w3 & i & _ & Hr). apply M_bind_Ok in Hr as (w4 & t & _ & Hr). by apply stop_not_inl in Hr. }
  cbv zeta in Hr. destruct (pr_Allow resp) eqn:Hallow; cbn [negb] in Hr.
  2: { apply M_bind_Ok in Hr as (w3 & i & _ & Hr). apply M_bind_Ok in Hr as (w4 & t & _ & Hr). by apply stop_not_inl in Hr. }
  injection Hr as _ <-. split.
  - by destruct (pd_AuthoritativeAllow p), (ec_ActiveSnapshot e) eqn:Es; cbn; rewrite ?Es.
  - destruct (pd_AuthoritativeAllow p) as [b|] eqn:Hb.
    + intros Hf. right. exists p, resp. destruct (ec_ActiveSnapshot e); cbn in Hf; subst b; rewrite Hev; done.
    + intros Hf. left. by destruct (ec_ActiveSnapshot e).
Qed.

Lemma pdp_check_settles : gate_rel (settles early_keys) (pdp_check g).
Proof. intros e w w' [e'|d] Hr; [|done]. by apply pdp_check_pass in Hr as [? _]. Qed.

Lemma pdp_settles : gate_rel (settles early_keys) (pdp_gate g).
Proof.
  repeat apply then_gate_rel; eauto using settle_early, drop_early, isolation_early, threat_early, semantic_early,
    delegation_early, pdp_check_settles with typeclass_instances.
Qed.

Lemma egress_early : early (egress_check g).
Proof. intros e. unfold egress_check. gate. Qed.

Lemma taint_late override : late (taint_check g override).
Proof.
  intros e. unfold taint_check. cbv zeta. set (e1 := match TaintLabelsFromContext _ with [] => _ | _ => _ end).
  assert (evolves kernel_keys e e1) as He.
  { subst e1. destruct (TaintLabelsFromContext _); [reflexivity|].
    apply evolves_put; [reflexivity|]. by split. }
  clearbody e1. gate.
Qed.

Lemma assumption_deny_late (e0 e : EC) a why :
  returns (fun o : outcome => match o with inl e' => evolves kernel_keys e0 e' | inr _ => True end)
    (assumption_deny g e a why).
Proof. unfold assumption_deny. gate. Qed.

Lemma check_assumptions_late t l : late (check_assumptions g t l).
Proof.
  induction l as [|a l IH]; intros e; cbn [check_assumptions]; [gate|].
  destruct (Contracts.Validate a); [|by apply assumption_deny_late].
  destruct (Expired a t); [by apply assumption_deny_late|].
  destruct (g_assumptionObserver g); [|apply IH].
  apply returns_bind. intros [obs|err]; [|by apply assumption_deny_late].
  destruct (String.eqb obs _); [apply IH|by apply assumption_deny_late].
Qed.

Lemma assumption_late : late (assumption_gate g).
Proof.
  intros e. unfold assumption_gate. destruct (assumptionsFromContext _) as [[|a l]|err].
  - gate.
  - apply returns_bind. intros t. apply check_assumptions_late.
  - by apply assumption_deny_late.
Qed.

Lemma sandbox_late : late (sandbox_gate g).
Proof. intros e. unfold sandbox_gate. gate. Qed.
Lemma trust_late : late (trust_gate g).
Proof. intros e. unfold trust_gate. gate. Qed.
Lemma privilege_late : late (privilege_gate g).
Proof. intros e. unfold privilege_gate. gate. Qed.
Lemma compliance_late d : late (compliance_gate g d).
Proof. intros e. unfold compliance_gate. gate. Qed.

Lemma filter_elem {A} (f : A -> bool) l x : x ∈ List.filter f l -> x ∈ l.
Proof. rewrite !list_elem_of_In, filter_In. by intros [? _]. Qed.

Lemma early_kernel k : k ∈ early_keys -> k ∈ kernel_keys.
Proof. exact (filter_elem (fun k => negb (String.eqb k "taint")) kernel_keys k). Qed.

Lemma frame_mono e e' : frame early_keys e e' -> frame kernel_keys e e'.
Proof. intros [Ht Hk]. split; [exact Ht|]. intros k Hin. apply Hk. intros Hi. exact (Hin (early_kernel k Hi)). Qed.

Lemma evolves_weaken ks ks' e e' : (forall k, k ∈ ks -> k ∈ ks') -> evolves ks e e' -> evolves ks' e e'.
Proof. intros Hs [[Ht Hk] ????]. split; auto. split; [done|]. auto. Qed.

Lemma settles_mono e e' : settles early_keys e e' -> settles kernel_keys e e'.
Proof. intros [Hf ???]. split; auto using frame_mono. Qed.

Lemma evolves_mono e e' : evolves early_keys e e' -> evolves kernel_keys e e'.
Proof. apply evolves_weaken, early_kernel. Qed.

Lemma early_late a : early a -> late a.
Proof. apply gate_rel_weaken, evolves_mono. Qed.

Lemma taint_egress_late override : late (taint_egress_gate g override).
Proof. apply then_gate_rel; [apply _|apply early_late, egress_early|apply taint_late]. Qed.

(** The snapshot gate alone chooses the active policy: the snapshot of the
    request's own scope, as the store had it when the run began in [w]. *)
Definition adopted (req : DecisionRequest) (w : W) (e : EC) : Prop :=
  match g_snapshotStore g with
  | None => ec_ActiveSnapshot e = None /\ ec_ActiveGraph e = g_prg g /\ ec_ActivePDP e = g_pdp g
  | Some get => exists s, (get (policyScopeFromContext g (rq_Context req)) (w_ext w)).2 = Some s /\ sn_Status s = StatusActive /\
      ec_ActiveSnapshot e = Some s /\ ec_ActiveGraph e = default (g_prg g) (sn_Graph s) /\
      ec_ActivePDP e = match sn_PDP s with Some p => Some p | None => g_pdp g end
  end.

Lemma snapshot_frame ks : gate_rel (frame ks) (snapshot_gate g).
Proof.
  intros e. unfold snapshot_gate. destruct (g_snapshotStore g) as [get|]; [|by apply returns_ret].
  apply returns_bind. intros [s|]; [destruct (negb _)|]; [gate| |gate].
  cbv zeta. apply returns_ret. by destruct (sn_Graph s), (sn_PDP s).
Qed.

Lemma snapshot_adopts req w w' (e' : EC) :
  snapshot_gate g (initial_context g req) w = (w', Ok (inl e')) ->
  adopted req w e' /\ ec_PDPAuthoritativeAllow e' = false /\ frame early_keys (initial_context g req) e'.
Proof.
  unfold snapshot_gate, adopted. destruct (g_snapshotStore g) as [get|]; [|by intros [= _ <-]].
  intros (w1 & r & Hx & Hr)%M_bind_Ok. unfold ext in Hx.
  change (context (initial_context g req)) with (rq_Context req) in Hx.
  destruct (get _ (w_ext w)) as [x a]. injection Hx as <- <-. destruct a as [s|].
  2: { apply M_bind_Ok in Hr as (w3 & i & _ & Hr). apply M_bind_Ok in Hr as (w4 & t & _ & Hr). by apply stop_not_inl in Hr. }
  destruct (String.eqb_spec (sn_Status s) StatusActive) as [Hs|]; cbn [negb] in Hr.
  2: { apply M_bind_Ok in Hr as (w3 & i & _ & Hr). apply M_bind_Ok in Hr as (w4 & t & _ & Hr). by apply stop_not_inl in Hr. }
  injection Hr as _ <-. split; [exists s|]; by destruct (sn_Graph s), (sn_PDP s).
Qed.

(** ** What a gate may change in the Guardian's objects *)

(** Those that a control depends on, and two more: the compiled programs, and the
    clock, which only advances. *)
Inductive control := CFreeze | CKill | CContext | CIsolation | CEgress | CDelegation | CRevocation | CPrograms | CClock.
#[export] Instance control_eq_dec : EqDecision control.
Proof. solve_decision. Defined.

Definition agree (c : control) (w w' : W) : Prop :=
  match c with
  | CFreeze => w_freeze w' = w_freeze w
  | CKill => w_kill w' = w_kill w
  | CContext => w_context w' = w_context w
  | CIsolation => w_isolation w' = w_isolation w
  | CEgress => w_egress w' = w_egress w
  | CDelegation => w_delegation w' = w_delegation w
  | CRevocation => w_revocationList w' = w_revocationList w
  | CPrograms => w_prgCache w' = w_prgCache w
  | CClock => w_clock w <= w_clock w'
  end.

#[export] Instance agree_refl c : Reflexive (agree c).
Proof. intros w. destruct c; cbn; first [done|lia]. Qed.
#[export] Instance agree_trans c : Transitive (agree c).
Proof. intros w1 w2 w3. destruct c; cbn; first [congruence|lia]. Qed.

(** The computation leaves the control as it was, when it returns. *)
Definition leaves (c : control) {A} (m : M W A) : Prop := forall w w' a, m w = (w', Ok a) -> agree c w w'.

Lemma leaves_ret c {A} (a : A) : leaves c (mret a : M W A).
Proof. by intros w w' a' [= <- _]. Qed.
Lemma leaves_lift c {A} (r : res A) : leaves c (lift r : M W A).
Proof. by intros w w' a' [= <- _]. Qed.
Lemma leaves_fail c {A} e : leaves c (fail e : M W A).
Proof. by intros w w' a'. Qed.
Lemma leaves_gets c {A} (f : W -> A) : leaves c (gets f).
Proof. by intros w w' a' [= <- _]. Qed.
Lemma leaves_modify c f : (forall w, agree c w (f w)) -> leaves c (modify f).
Proof. intros Hf w w' a' [= <- _]. apply Hf. Qed.
Lemma leaves_bind c {A B} (m : M W A) (f : A -> M W B) :
  leaves c m -> (forall a, leaves c (f a)) -> leaves c (m ≫= f).
Proof. intros Hm Hf w w' b (w1 & a & Ha & Hb)%M_bind_Ok. etrans; [by eapply Hm|by eapply Hf]. Qed.

(** A write to other objects. *)
Ltac other_objects :=
  intros; lazymatch goal with
  | H : ?a <> ?b |- agree ?a _ _ => destruct a
  | |- agree ?c _ _ => destruct c
  end; cbn; first [done|lia].

Lemma leaves_now c : leaves c now.
Proof. intros w w' t [= <- _]. other_objects. Qed.
Lemma leaves_random c p : leaves c (randomID p).
Proof. intros w w' t [= <- _]. other_objects. Qed.
Lemma leaves_ext c {A} (f : op Ext A) : leaves c (ext f).
Proof. intros w w' a. unfold ext. destruct (f (w_ext w)). intros [= <- _]. other_objects. Qed.

Lemma leaves_record c p t r : leaves c (recordBehavioralEvent g p t r).
Proof.
  intros w w' a. unfold recordBehavioralEvent. destruct (w_scores w); [|by intros [= <- _]].
  destruct (String.eqb p ""); [by intros [= <- _]|]. revert w w' a.
  apply (leaves_bind c now); [apply leaves_now|]. intros t'. apply leaves_modify. other_objects.
Qed.

Lemma leaves_audit c act d : leaves c (audit act d).
Proof.
  intros w w' a. unfold audit. destruct (w_audit w) as [log|]; [|by intros [= <- _]]. cbv zeta. revert w w' a.
  apply (leaves_bind c now); [apply leaves_now|]. intros t'. destruct (Append _ _ _ _ _ _) as [log' r].
  apply leaves_bind; [|intros ?; apply leaves_ret]. apply leaves_modify. other_objects.
Qed.

Lemma leaves_audit_ c act d : leaves c (audit_ act d).
Proof. apply leaves_bind; [apply leaves_audit|]. intros ?. apply leaves_ret. Qed.

Lemma leaves_get_score c p : leaves c (get_score g p).
Proof.
  intros w w' a. unfold get_score. destruct (w_scores w) as [sc|]; [|by intros [= <- _]]. revert w w' a.
  apply (leaves_bind c now); [apply leaves_now|]. intros t'. destruct (GetScore _ _ _ _ _) as [sc' b].
  apply leaves_bind; [|intros ?; apply leaves_ret]. apply leaves_modify. other_objects.
Qed.

(** The leaves of a computation, syntactically. *)
Ltac leave_step :=
  cbv zeta;
  lazymatch goal with
  | |- leaves _ (pass _) => apply leaves_ret
  | |- leaves _ (mret _) => apply leaves_ret
  | |- leaves _ (lift _) => apply leaves_lift
  | |- leaves _ (fail _) => apply leaves_fail
  | |- leaves _ (gets _) => apply leaves_gets
  | |- leaves _ now => apply leaves_now
  | |- leaves _ (randomID _) => apply leaves_random
  | |- leaves _ newDecisionID => apply leaves_random
  | |- leaves _ (ext _) => apply leaves_ext
  | |- leaves _ (get_score _ _) => apply leaves_get_score
  | |- leaves _ (recordBehavioralEvent _ _ _ _) => apply leaves_record
  | |- leaves _ (audit_ _ _) => apply leaves_audit_
  | |- leaves _ (audit _ _) => apply leaves_audit
  | |- leaves _ (modify _) => apply leaves_modify; other_objects
  | |- leaves _ (stop _) => unfold stop
  | |- leaves _ (refuse _ _ _ _) => unfold refuse
  | |- leaves _ (refuse_early _ _ _ _ _ _) => unfold refuse_early
  | |- leaves _ (deny_plain _ _ _ _ _ _) => unfold deny_plain
  | |- leaves _ (no_action _) => unfold no_action
  | |- leaves _ (capabilityShortCircuit _ _ _ _ _ _) => unfold capabilityShortCircuit, appendCapabilityAudit
  | |- leaves _ (mbind _ _) => apply leaves_bind; [|intros ?]
  | |- leaves _ (match ?x with _ => _ end) => destruct x
  | |- leaves _ ((fun _ => _) _) => cbv beta
  end.
Ltac leave := repeat leave_step.

Definition gate_leaves (c : control) (a : Gate) : Prop := forall e, leaves c (a e).

Lemma then_gate_leaves c a b : gate_leaves c a -> gate_leaves c b -> gate_leaves c (then_gate a b).
Proof. intros Ha Hb e. apply leaves_bind; [apply Ha|]. intros [e'|d]; [apply Hb|apply leaves_ret]. Qed.

Lemma snapshot_leaves c : gate_leaves c (snapshot_gate g).
Proof. intros e. unfold snapshot_gate. leave. Qed.
Lemma safedep_leaves c : gate_leaves c (safedep_gate g).
Proof. intros e. unfold safedep_gate. leave. Qed.
Lemma reversibility_leaves c m : gate_leaves c (applyReversibilityPolicy g m).
Proof. intros e. unfold applyReversibilityPolicy, rollback_invalid. leave. Qed.
Lemma token_leaves c entry raw : gate_leaves c (token_gate g entry raw).
Proof. intros e. unfold token_gate, token_invalid. leave. Qed.

Lemma capability_leaves c : gate_leaves c (resolveCapabilityGate g).
Proof.
  intros e. unfold resolveCapabilityGate. destruct (context e) as [m|]; [|leave]. cbv zeta.
  destruct (g_capabilityRegistry g) as [registry|]; [|leave].
  destruct (ctx_lookup _ "capability_id") as [rawID|]; [|leave].
  destruct (id ← as_string rawID; if String.eqb id "" then None else Some id) as [cid|]; [|leave].
  destruct (Resolve cid registry) as [entry|]; [|leave].
  match goal with |- leaves _ (if ?b then _ else _) => destruct b end; [leave|].
  apply (then_gate_leaves c _ _ (reversibility_leaves c _) (token_leaves c _ _)).
Qed.

Lemma history_leaves c : gate_leaves c (history_gate (Ext := Ext)).
Proof. intros e. apply leaves_ret. Qed.
Lemma session_risk_leaves c : gate_leaves c (session_risk_gate g).
Proof. intros e. unfold session_risk_gate. leave. Qed.
Lemma zeroid_leaves c : gate_leaves c (zeroid_gate g).
Proof. intros e. unfold zeroid_gate, zeroid_deny. leave. Qed.

Lemma temporal_leaves c : gate_leaves c (temporal_gate g).
Proof.
  intros e. unfold temporal_gate. apply leaves_bind; [|intros ?; leave].
  unfold evaluate_temporal. leave.
Qed.

Lemma freeze_check_leaves c : c <> CFreeze -> gate_leaves c freeze_check.
Proof. intros Hc e. unfold freeze_check. leave. Qed.
Lemma scoped_stop_leaves c : gate_leaves c (scoped_stop_check g).
Proof. intros e. unfold scoped_stop_check, scopedStopDeny. leave. Qed.
Lemma kill_leaves c : gate_leaves c kill_check.
Proof. intros e. unfold kill_check. leave. Qed.
Lemma context_leaves c : c <> CContext -> gate_leaves c context_check.
Proof. intros Hc e. unfold context_check. leave. Qed.

Lemma freeze_leaves c : c <> CFreeze -> c <> CContext -> gate_leaves c (freeze_gate g).
Proof.
  intros. repeat apply then_gate_leaves; auto using freeze_check_leaves, scoped_stop_leaves, kill_leaves,
    context_leaves.
Qed.

Lemma isolation_leaves c : c <> CIsolation -> gate_leaves c isolation_check.
Proof. intros Hc e. unfold isolation_check, pdp_deny. leave. Qed.
Lemma drop_leaves c : gate_leaves c drop_threat_evidence.
Proof. intros e. apply leaves_ret. Qed.

Lemma scan_fields_leaves c scanner ch tl keys : gate_leaves c (scan_fields g scanner ch tl keys).
Proof.
  induction keys as [|k keys IH]; intros e; cbn [scan_fields]; [leave|].
  destruct (scannable (context e) k); [|apply IH].
  apply leaves_bind; [apply leaves_ext|]. intros r. cbv zeta. destruct (_ && _); [unfold threat_deny; leave|apply IH].
Qed.

Lemma threat_leaves c : gate_leaves c (threat_check g).
Proof.
  intros e. unfold threat_check, unavailable_scan. destruct (trustedInputProvenance _) as [ch tl].
  destruct (g_threatScanner g) as [sc|]; [apply scan_fields_leaves|]. leave.
Qed.
Lemma semantic_leaves c : gate_leaves c (semantic_check g).
Proof. intros e. unfold semantic_check. leave. Qed.
Lemma delegation_leaves c : c <> CDelegation -> gate_leaves c delegation_check.
Proof. intros Hc e. unfold delegation_check. leave. Qed.
Lemma pdp_check_leaves c : gate_leaves c (pdp_check g).
Proof. intros e. unfold pdp_check. leave. Qed.

Lemma pdp_leaves c : c <> CIsolation -> c <> CDelegation -> gate_leaves c (pdp_gate g).
Proof.
  intros. repeat apply then_gate_leaves; auto using drop_leaves, isolation_leaves, threat_leaves, semantic_leaves,
    delegation_leaves, pdp_check_leaves.
Qed.
Lemma egress_leaves c : c <> CEgress -> gate_leaves c (egress_check g).
Proof. intros Hc e. unfold egress_check. leave. Qed.

Lemma taint_leaves c override : gate_leaves c (taint_check g override).
Proof. intros e. unfold taint_check. leave. Qed.
Lemma assumption_deny_leaves c (e : EC) a why : leaves c (assumption_deny g e a why).
Proof. unfold assumption_deny. leave. Qed.
Lemma check_assumptions_leaves c t l : gate_leaves c (check_assumptions g t l).
Proof.
  induction l as [|a l IH]; intros e; cbn [check_assumptions]; [leave|].
  repeat (leave_step; try apply IH; try apply assumption_deny_leaves).
Qed.
Lemma assumption_leaves c : gate_leaves c (assumption_gate g).
Proof.
  intros e. unfold assumption_gate. destruct (assumptionsFromContext _) as [[|a l]|err]; [leave| |apply assumption_deny_leaves].
  apply leaves_bind; [apply leaves_now|]. intros t. apply check_assumptions_leaves.
Qed.
Lemma sandbox_leaves c : gate_leaves c (sandbox_gate g).
Proof. intros e. unfold sandbox_gate. leave. Qed.
Lemma trust_leaves c : gate_leaves c (trust_gate g).
Proof. intros e. unfold trust_gate. leave. Qed.
Lemma privilege_leaves c : gate_leaves c (privilege_gate g).
Proof. intros e. unfold privilege_gate. leave. Qed.
Lemma compliance_leaves c d : gate_leaves c (compliance_gate g d).
Proof. intros e. unfold compliance_gate. leave. Qed.

(** No gate touches the compiled programs or turns the clock back. *)
Lemma chain_leaves c override : c = CPrograms \/ c = CClock ->
  Forall (gate_leaves c) (entry_gates g ++ boundary_chain g override).
Proof.
  intros Hc. cbn [entry_gates boundary_chain app]. repeat constructor; auto using snapshot_leaves, safedep_leaves,
    capability_leaves, history_leaves, session_risk_leaves, zeroid_leaves, temporal_leaves, assumption_leaves, sandbox_leaves;
    [apply freeze_leaves|apply pdp_leaves|apply then_gate_leaves; [apply egress_leaves|apply taint_leaves]];
    by destruct Hc as [->| ->].
Qed.

(** ** An ALLOW passes every gate *)

(** The gates of [l] let the context pass, one after the other. *)
Inductive passes : list Gate -> EC -> W -> EC -> W -> Prop :=
| passes_nil e w : passes [] e w e w
| passes_cons a l e w e1 w1 e2 w2 :
    a e w = (w1, Ok (inl e1)) -> passes l e1 w1 e2 w2 -> passes (a :: l) e w e2 w2.

Lemma Execute_allow l final e w w' d :
  Forall (gate_sound (Ext := Ext)) l -> Execute l final e w = (w', Ok d) -> dr_Verdict d = VerdictAllow ->
  exists e2 w2, passes l e w e2 w2 /\ final e2 w2 = (w', Ok d).
Proof.
  intros Hl. revert e w. induction Hl as [|a l Ha Hl IH]; intros e w Hex Hd.
  - exists e, w. split; [constructor|exact Hex].
  - cbn in Hex. apply M_bind_Ok in Hex as (w1 & [e1|d1] & Hr & Hex).
    + destruct (IH e1 w1 Hex Hd) as (e2 & w2 & Hp & Hf). exists e2, w2. split; [|exact Hf]. by econstructor.
    + exfalso. pose proof (Ha e w w1 (inr d1) Hr) as [_ Hn]. injection Hex as _ <-. by apply Hn.
Qed.

Definition preserves (P : EC -> W -> Prop) (a : Gate) : Prop :=
  forall e w w' e', P e w -> a e w = (w', Ok (inl e')) -> P e' w'.
Definition refuses (P : EC -> W -> Prop) (a : Gate) : Prop :=
  forall e w w' e', P e w -> a e w <> (w', Ok (inl e')).

Lemma passes_preserves P l e w e' w' : Forall (preserves P) l -> passes l e w e' w' -> P e w -> P e' w'.
Proof. intros Hl Hp. induction Hp; [done|]. inversion Hl; subst. eauto. Qed.

Lemma passes_refuses P l e w e' w' a l2 :
  Forall (preserves P) l -> refuses P a -> P e w -> ~ passes (l ++ a :: l2) e w e' w'.
Proof.
  intros Hl Ha. revert e w. induction Hl as [|b l Hb Hl IH]; intros e w HP Hp; inversion Hp; subst.
  - by eapply Ha.
  - eapply IH; [|eassumption]. by eapply Hb.
Qed.

Lemma then_gate_inl (a b : Gate) e w w' e' :
  then_gate a b e w = (w', Ok (inl e')) ->
  exists e1 w1, a e w = (w1, Ok (inl e1)) /\ b e1 w1 = (w', Ok (inl e')).
Proof. intros (w1 & [e1|d] & Ha & Hb)%M_bind_Ok; [eauto|done]. Qed.

Lemma refuses_first P a b : refuses P a -> refuses P (then_gate a b).
Proof. intros Ha e w w' e' HP (e1 & w1 & E1 & _)%then_gate_inl. by eapply Ha. Qed.
Lemma refuses_second P a b : preserves P a -> refuses P b -> refuses P (then_gate a b).
Proof. intros Ha Hb e w w' e' HP (e1 & w1 & E1 & E2)%then_gate_inl. eapply Hb, E2. by eapply Ha. Qed.

(** A fact about the request tuple, the context outside [ks] and one control. *)
Definition stable (ks : list string) (c : control) (P : EC -> W -> Prop) : Prop :=
  forall e e' w w', frame ks e e' -> agree c w w' -> P e w -> P e' w'.

Lemma stable_preserves ks c P a :
  stable ks c P -> gate_rel (frame ks) a -> gate_leaves c a -> preserves P a.
Proof. intros HP Ha Hl e w w' e' He Hr. eapply HP; [exact (Ha e w w' _ Hr)|exact (Hl e w w' _ Hr)|exact He]. Qed.

Lemma evolves_frame ks a : gate_rel (evolves ks) a -> gate_rel (frame ks) a.
Proof. apply gate_rel_weaken. by intros e e' []. Qed.

Lemma early_preserves c P a : stable early_keys c P -> early a -> gate_leaves c a -> preserves P a.
Proof. intros HP Ha. exact (stable_preserves _ _ _ _ HP (evolves_frame _ _ Ha)). Qed.

(** The chain up to the emergency controls. *)
Definition before_freeze : list Gate :=
  [snapshot_gate g; safedep_gate g; resolveCapabilityGate g; history_gate; session_risk_gate g;
   zeroid_gate g; temporal_gate g].

Lemma before_freeze_preserves c P : stable early_keys c P -> Forall (preserves P) before_freeze.
Proof.
  intros HP. unfold before_freeze.
  constructor; [exact (stable_preserves _ _ _ _ HP (snapshot_frame _) (snapshot_leaves c))|].
  repeat (constructor; [apply (early_preserves c); [exact HP|..]|]); auto using safedep_early, capability_early,
    history_early, session_risk_early, zeroid_early, temporal_early, safedep_leaves, capability_leaves,
    history_leaves, session_risk_leaves, zeroid_leaves, temporal_leaves.
Qed.

Lemma refused_at l a l2 override P req w w' d :
  (entry_gates g ++ boundary_chain g override = l ++ a :: l2)%list ->
  Forall (preserves P) l -> refuses P a -> P (initial_context g req) w ->
  EvaluateDecision g override req w = (w', Ok d) -> dr_Verdict d <> VerdictAllow.
Proof.
  intros Hch Hl Ha HP Hev Hd. unfold EvaluateDecision in Hev.
  destruct (Execute_allow _ _ _ _ _ _ (gates_sound g override) Hev Hd) as (e2 & w2 & Hp & _).
  rewrite Hch in Hp. exact (passes_refuses P l _ _ _ _ a l2 Hl Ha HP Hp).
Qed.

Lemma refused_by_freeze override P c req w w' d :
  stable early_keys c P -> refuses P (freeze_gate g) -> P (initial_context g req) w ->
  EvaluateDecision g override req w = (w', Ok d) -> dr_Verdict d <> VerdictAllow.
Proof.
  intros HP. apply (refused_at before_freeze (freeze_gate g)
    [pdp_gate g; taint_egress_gate g override; assumption_gate g; sandbox_gate g]); [reflexivity|].
  by apply (before_freeze_preserves c).
Qed.

(** ** Reading the context through a frame *)

Lemma frame_get ks e e' k : frame ks e e' -> existsb (String.eqb k) ks = false ->
  ctx_get (context e') k = ctx_get (context e) k.
Proof.
  intros [_ Hk] Hn. unfold ctx_get. rewrite Hk; [done|]. intros Hin%list_elem_of_In.
  assert (existsb (String.eqb k) ks = true); [|congruence]. apply existsb_exists. exists k.
  split; [done|apply String.eqb_refl].
Qed.

Lemma frame_stringContextValue ks e e' keys : frame ks e e' ->
  forallb (fun k => negb (existsb (String.eqb k) ks)) keys = true ->
  stringContextValue (context e') keys = stringContextValue (context e) keys.
Proof.
  intros Hf. induction keys as [|k keys IH]; [done|]. cbn [forallb stringContextValue].
  intros [Hk%negb_true_iff Hks]%andb_true_iff. rewrite (frame_get ks e e' k Hf Hk), IH by done. done.
Qed.

(** ** The emergency controls *)

Definition frozen (e : EC) (w : W) : Prop :=
  exists fc, w_freeze w = Some fc /\ (Freeze.IsFrozen freeze_source fc).2 = true.
(** The scope is missing, fenced, or its fence cannot be read. *)
Definition fenced (e : EC) (w : W) : Prop :=
  exists isFenced, g_scopedStopReader g = Some isFenced /\
    forall t ws x state, stringContextValue (context e) tenant_keys = Some t ->
      stringContextValue (context e) workspace_keys = Some ws -> (isFenced t ws x).2 <> Ok (state, false).
Definition killed (e : EC) (w : W) : Prop :=
  exists ks, w_kill w = Some ks /\ AgentKill.IsKilled (principal e) ks = true.
Definition moved (e : EC) (w : W) : Prop :=
  exists cg, w_context w = Some cg /\ ContextGuard.bootFingerprint cg <> "" /\
    ContextGuard.computeFingerprint env_now <> ContextGuard.bootFingerprint cg.

Lemma frozen_stable : stable early_keys CFreeze frozen.
Proof. intros e e' w w' _ Hw (fc & E1 & E2). exists fc. cbn in Hw. by rewrite Hw. Qed.
Lemma fenced_stable c : stable early_keys c fenced.
Proof.
  intros e e' w w' Hf _ (r & E1 & E2). exists r. split; [done|].
  by rewrite !(frame_stringContextValue early_keys e e') by done.
Qed.
Lemma killed_stable : stable early_keys CKill killed.
Proof.
  intros e e' w w' [(Hp & _) _] Hw (ks & E1 & E2). exists ks. unfold principal. cbn in Hw. by rewrite Hw, Hp.
Qed.
Lemma moved_stable : stable early_keys CContext moved.
Proof. intros e e' w w' _ Hw (cg & E1 & E2). exists cg. cbn in Hw. by rewrite Hw. Qed.


Lemma frozen_refuses : refuses frozen freeze_check.
Proof.
  intros e w w' e' (fc & E1 & E2) (w1 & o & [= <- <-] & Hr)%M_bind_Ok. rewrite E1 in Hr.
  destruct (Freeze.IsFrozen freeze_source fc) as [fc' b]. cbn in E2. subst b.
  apply M_bind_Ok in Hr as (w2 & [] & _ & Hr). apply M_bind_Ok in Hr as (w3 & t & _ & Hr).
  apply M_bind_Ok in Hr as (w4 & id & _ & Hr). by eapply stop_not_inl.
Qed.

Lemma scopedStopDeny_not_inl (e : EC) code reason st w w' (e' : EC) :
  scopedStopDeny e code reason st w <> (w', Ok (inl e')).
Proof.
  intros (w1 & [c dg] & _ & Hr)%M_bind_Ok. apply M_bind_Ok in Hr as (w2 & id & _ & Hr).
  apply M_bind_Ok in Hr as (w3 & t & _ & Hr). by eapply stop_not_inl.
Qed.

Lemma fenced_refuses : refuses fenced (scoped_stop_check g).
Proof.
  intros e w w' e' (r & E1 & E2) Hr. unfold scoped_stop_check in Hr. rewrite E1 in Hr.
  destruct (stringContextValue (context e) tenant_keys) as [t|]; [|by eapply scopedStopDeny_not_inl].
  destruct (stringContextValue (context e) workspace_keys) as [ws|]; [|by eapply scopedStopDeny_not_inl].
  apply M_bind_Ok in Hr as (w1 & a & Ha & Hr). unfold ext in Ha.
  specialize (E2 t ws (w_ext w)). destruct (r t ws (w_ext w)) as [x a']. injection Ha as _ <-.
  destruct a' as [[st []]|err]; [by eapply scopedStopDeny_not_inl| |by eapply scopedStopDeny_not_inl].
  by eapply E2.
Qed.

Lemma killed_refuses : refuses killed kill_check.
Proof.
  intros e w w' e' (ks & E1 & E2) (w1 & o & [= <- <-] & Hr)%M_bind_Ok. rewrite E1, E2 in Hr.
  apply M_bind_Ok in Hr as (w3 & t & _ & Hr).
  apply M_bind_Ok in Hr as (w4 & id & _ & Hr). by eapply stop_not_inl.
Qed.

Lemma moved_refuses : refuses moved context_check.
Proof.
  intros e w w' e' (cg & E1 & E2 & E3) (w1 & o & [= <- <-] & Hr)%M_bind_Ok. rewrite E1 in Hr.
  apply M_bind_Ok in Hr as (w2 & t0 & _ & Hr).
  destruct (ContextGuard.ValidateCurrent env_now t0 cg) as [cg' [err|]] eqn:Hv.
  - apply M_bind_Ok in Hr as (w3 & [] & _ & Hr). apply M_bind_Ok in Hr as (w4 & t & _ & Hr).
    apply M_bind_Ok in Hr as (w5 & id & _ & Hr). by eapply stop_not_inl.
  - apply ContextGuard.Validate_spec in Hv as [_ Hv]. destruct Hv as [Hv _]. by destruct (Hv eq_refl).
Qed.

(** ** The boundary violations *)

(** A ZeroID envelope accompanies the request. *)
Definition zeroid_presented (e : EC) (w : W) : Prop :=
  string_or_empty (ctx_get (context e) "zeroid_token") <> "" \/
  string_or_empty (ctx_get (context e) "spiffe_uri") <> "".
(** Sensitive labels would leave for a destination. *)
Definition tainted_leak (override : bool) (e : EC) (w : W) : Prop :=
  taintEgressEnforcementEnabled = true /\
  taintedEgressDenied override (context e) (TaintLabelsFromContext (context e)) = true.
Definition payload_size (e : EC) : Z :=
  match as_float (ctx_get (context e) "payload_size") with Some ps => trunc_int ps | None => 0%Z end.
Definition egress_refused (e : EC) (w : W) : Prop :=
  exists ec dest, w_egress w = Some ec /\ trustedContextString (context e) ContextDestination = Some dest /\
    forall t, EgressChecker.Allowed (EgressChecker.CheckEgress dest "https" (payload_size e) t ec).2 = false.
(** No trusted credential, or one the isolation checker refuses. *)
Definition unisolated (e : EC) (w : W) : Prop :=
  exists ic, w_isolation w = Some ic /\ principal e <> "" /\
    forall cred t, trustedContextString (context e) ContextCredentialHash = Some cred ->
      is_ok (Isolation.ValidateAgentIdentity (principal e) cred
               (default "" (trustedContextString (context e) ContextSessionID)) t ic).2 = false.

Lemma frame_trusted ks e e' k : frame ks e e' ->
  existsb (String.eqb ContextSecurityTrusted) ks = false -> existsb (String.eqb k) ks = false ->
  trustedContextString (context e') k = trustedContextString (context e) k.
Proof.
  intros Hf Hs Hk. unfold trustedContextString, trustedSecurityContext.
  by rewrite !(frame_get ks e e') by done.
Qed.

Lemma taint_labels_get c : TaintLabelsFromContext c =
  match labelsFromAny (ctx_get c "taint") with
  | [] => match labelsFromAny (ctx_get c "taint_labels") with [] => [] | l => NormalizeTaintLabels l end
  | l => NormalizeTaintLabels l
  end.
Proof. by destruct c. Qed.

Lemma tainted_denied_get override c labels : taintedEgressDenied override c labels =
  match labels with
  | [] => false
  | _ => if default false (as_bool (ctx_get c ContextAllowTaintedEgress)) && override then false
         else if blank (string_or_empty (ctx_get c ContextDestination)) then false
         else TaintContainsAny labels [TaintPII; TaintCredential; TaintSecret]
  end.
Proof. by destruct labels, c. Qed.

Lemma zeroid_stable c : stable early_keys c zeroid_presented.
Proof.
  intros e e' w w' Hf _. unfold zeroid_presented. by rewrite !(frame_get early_keys e e') by done.
Qed.
Lemma tainted_stable c override : stable early_keys c (tainted_leak override).
Proof.
  intros e e' w w' Hf _. unfold tainted_leak. rewrite !tainted_denied_get, !taint_labels_get.
  by rewrite !(frame_get early_keys e e') by done.
Qed.
Lemma egress_stable : stable early_keys CEgress egress_refused.
Proof.
  intros e e' w w' Hf Hw (ec & dest & E1 & E2 & E3). exists ec, dest. cbn in Hw.
  unfold payload_size in *. rewrite Hw, (frame_trusted early_keys e e'), (frame_get early_keys e e') by done. done.
Qed.
Lemma unisolated_stable : stable early_keys CIsolation unisolated.
Proof.
  intros e e' w w' Hf Hw (ic & E1 & E2 & E3). exists ic. cbn in Hw.
  rewrite Hw, !(frame_trusted early_keys e e') by done.
  destruct Hf as [(Hp & _) _]. unfold principal in *. by rewrite Hp.
Qed.

Lemma zeroid_deny_not_inl (e : EC) code reason w w' (e' : EC) : zeroid_deny g e code reason w <> (w', Ok (inl e')).
Proof.
  intros (w1 & t & _ & Hr)%M_bind_Ok. apply M_bind_Ok in Hr as (w2 & id & _ & Hr). by eapply stop_not_inl.
Qed.

Lemma zeroid_refuses : refuses zeroid_presented (zeroid_gate g).
Proof.
  intros e w w' e' HP Hr. unfold zeroid_gate in Hr. cbv zeta in Hr.
  destruct (String.eqb _ "" && String.eqb _ "") eqn:Hz; boolean; [by destruct HP|].
  apply M_bind_Ok in Hr as (w1 & rv & _ & Hr).
  destruct (_ && _) in Hr; [|destruct (_ && _) in Hr]; by eapply zeroid_deny_not_inl.
Qed.

Lemma tainted_refuses override : refuses (tainted_leak override) (taint_check g override).
Proof.
  intros e w w' e' [E1 E2] Hr. unfold taint_check in Hr. cbv zeta in Hr.
  set (e1 := match TaintLabelsFromContext (context e) with [] => _ | _ => _ end) in Hr.
  assert (taintedEgressDenied override (context e1) (TaintLabelsFromContext (context e)) = true) as Ht.
  { rewrite <-E2, !tainted_denied_get. subst e1. destruct (TaintLabelsFromContext (context e)) as [|a l]; [done|].
    set (e1 := put _ _ _). assert (frame ["taint"] e e1) as Hf.
    { split; [done|]. intros k Hk. apply ctx_lookup_put. intros <-. by apply Hk, existsb_eqb. }
    clearbody e1. by rewrite !(frame_get ["taint"] e e1) by done. }
  clearbody e1. rewrite E1, Ht in Hr. apply M_bind_Ok in Hr as (w1 & t & _ & Hr).
  apply M_bind_Ok in Hr as (w2 & id & _ & Hr). by eapply stop_not_inl.
Qed.

Lemma egress_refuses : refuses egress_refused (egress_check g).
Proof.
  intros e w w' e' (ec & dest & E1 & E2 & E3) (w1 & o & [= <- <-] & Hr)%M_bind_Ok. rewrite E1 in Hr.
  cbv zeta in Hr. rewrite E2 in Hr. apply M_bind_Ok in Hr as (w2 & t & _ & Hr).
  specialize (E3 t). unfold payload_size in E3.
  destruct (EgressChecker.CheckEgress _ _ _ _ _) as [ec' dec'].
  apply M_bind_Ok in Hr as (w3 & [] & _ & Hr). cbn in E3. rewrite E3 in Hr.
  apply M_bind_Ok in Hr as (w4 & t' & _ & Hr). apply M_bind_Ok in Hr as (w5 & id & _ & Hr).
  by eapply stop_not_inl.
Qed.

Lemma unisolated_refuses : refuses unisolated isolation_check.
Proof.
  intros e w w' e' (ic & E1 & E2 & E3) (w1 & o & [= <- <-] & Hr)%M_bind_Ok. rewrite E1 in Hr.
  destruct (String.eqb_spec (principal e) "") as [|_]; [done|].
  destruct (trustedContextString (context e) ContextCredentialHash) as [cred|].
  - cbv zeta in Hr. apply M_bind_Ok in Hr as (w2 & t & _ & Hr). specialize (E3 cred t eq_refl).
    destruct (Isolation.ValidateAgentIdentity _ _ _ _ _) as [ic' [r|err]]; [done|].
    apply M_bind_Ok in Hr as (w3 & [] & _ & Hr). apply M_bind_Ok in Hr as (w4 & t' & _ & Hr).
    apply M_bind_Ok in Hr as (w5 & id & _ & Hr). by eapply stop_not_inl.
  - apply M_bind_Ok in Hr as (w4 & t' & _ & Hr).
    apply M_bind_Ok in Hr as (w5 & id & _ & Hr). by eapply stop_not_inl.
Qed.

Lemma freeze_gate_preserves c P : c <> CFreeze -> c <> CContext -> stable early_keys c P -> preserves P (freeze_gate g).
Proof. intros. apply (early_preserves c); auto using freeze_early, freeze_leaves. Qed.
Lemma pdp_gate_preserves c P : c <> CIsolation -> c <> CDelegation -> stable early_keys c P -> preserves P (pdp_gate g).
Proof.
  intros ?? HP. apply (stable_preserves early_keys c); [exact HP| |by apply pdp_leaves].
  apply (gate_rel_weaken (settles early_keys)); [by intros ?? []|apply pdp_settles].
Qed.

Lemma pdp_gate_isolation : refuses unisolated (pdp_gate g).
Proof.
  apply refuses_second; [|apply refuses_first, unisolated_refuses].
  apply (early_preserves CIsolation); auto using unisolated_stable, drop_early, drop_leaves.
Qed.

Lemma freeze_gate_refuses P c :
  stable early_keys c P -> refuses P freeze_check \/ (c <> CFreeze /\ refuses P (scoped_stop_check g)) \/
    (c <> CFreeze /\ refuses P kill_check) \/ (c <> CFreeze /\ refuses P context_check) ->
  refuses P (freeze_gate g).
Proof.
  intros HP.
  assert (c <> CFreeze -> preserves P freeze_check) as F1
    by (intros; apply (early_preserves c); auto using freeze_check_early, freeze_check_leaves).
  assert (preserves P (scoped_stop_check g)) as F2
    by (apply (early_preserves c); auto using scoped_stop_early, scoped_stop_leaves).
  assert (preserves P kill_check) as F3
    by (apply (early_preserves c); auto using kill_early, kill_leaves).
  intros [Hr|[[Hc Hr]|[[Hc Hr]|[Hc Hr]]]]; unfold freeze_gate;
    auto 6 using refuses_first, refuses_second.
Qed.


(** ** What the final handler checks before an ALLOW *)

(** The rule key of the effect a request stands for. *)
Definition policy_key (e : EC) : string := tool_or_type (effect_of_request "" e).1.

(** The threat evidence of a request that reports something. *)
Definition reported_threat (e : EC) : option ThreatScanRef :=
  r ← ec_ThreatScanResult e;
  if (0 <? ts_FindingCount r)%Z || bool_decide (is_Some (ts_Semantic r)) then Some (Ref r) else None.

(** What a requirement is evaluated on: the request's own tool, effect, taint
    and threat evidence at the time [t], and no artifact. *)
Definition request_input (e : EC) (effectMap : any) (t : time) : PolicyInput := {|
  in_vars := list_to_map
    ([("action", AString (policy_key e)); ("effect", effectMap); ("timestamp", AInt (Unix t));
      ("taint", AStrings (NormalizeTaintLabels (TaintLabelsFromContext (context e))))]
     ++ match reported_threat e with Some ref => [("threat_scan", PolicyContext ref)] | None => [] end)%list;
  in_artifacts := Some [] |}.

(** The active graph allowed the request at [t]: it has a rule for the tool, and
    the engine found the rule satisfied on the request's input. *)
Definition graph_allows (e : EC) (eid : string) (cache : gmap string Program) (t : time) : Prop :=
  exists rule effectMap fs, ec_ActiveGraph e !! policy_key e = Some rule /\
    toMap (heap_of (effect_of_request eid e).1) effect_loc = Ok effectMap /\
    (EvaluateRequirementSetDetail rule (request_input e effectMap t) cache).2 = Ok (true, fs).

(** [P] held at a clock reading taken between [w] and [w']. *)
Definition during (w w' : W) (P : time -> Prop) : Prop :=
  exists n, w_clock w <= n < w_clock w' /\ P (clk n).

(** The gates before the decision point. *)
Definition pdp_prelude : list Gate :=
  [drop_threat_evidence; isolation_check; threat_check g; semantic_check g; delegation_check].
Definition before_pdp : list Gate := entry_gates g ++ [zeroid_gate g; temporal_gate g; freeze_gate g] ++ pdp_prelude.

(** The active policy said yes to the request in the run from [w] to [w']: its
    decision point when its gate was reached, or its graph at the end. *)
Definition policy_allows (req : DecisionRequest) (w w' : W) (e : EC) (eid : string) : Prop :=
  (ec_PDPAuthoritativeAllow e = true /\
   exists ep wp, passes before_pdp (initial_context g req) w ep wp /\ frame kernel_keys (initial_context g req) ep /\
     ec_ActivePDP ep = ec_ActivePDP e /\ pdp_allows ep wp) \/
  during w w' (graph_allows e eid (w_prgCache w)).

(** A budgeted request was within its ceiling, and the draw-down was made on the
    state the check left and is the last change of the collaborators' state. *)
Definition budget_drawn (effect : Effect) (w' : W) : Prop :=
  forall tracker id, g_tracker g = Some tracker -> budget_id effect = Some id ->
    exists x y, bg_Check tracker id x = (y, Ok true) /\ bg_Consume tracker id y = (w_ext w', Ok tt).

Lemma ext_run {A} (f : op Ext A) w w' a : ext f w = (w', Ok a) -> f (w_ext w) = (w_ext w', a).
Proof. unfold ext. destruct (f (w_ext w)) as [x b]. by intros [= <- ->]. Qed.

Lemma ext_Ok {A} (f : op Ext A) w w' a : ext f w = (w', Ok a) -> exists x, (f x).2 = a.
Proof. intros Hf%ext_run. exists (w_ext w). by rewrite Hf. Qed.

(** The computation does not call a collaborator. *)
Definition uncalled {A} (m : M W A) : Prop := forall w w' a, m w = (w', Ok a) -> w_ext w' = w_ext w.

Lemma uncalled_bind {A B} (m : M W A) (f : A -> M W B) : uncalled m -> (forall a, uncalled (f a)) -> uncalled (m ≫= f).
Proof. intros Hm Hf w w' b (w1 & a & Ha & Hb)%M_bind_Ok. by rewrite (Hf _ _ _ _ Hb), (Hm _ _ _ Ha). Qed.
Lemma uncalled_lift {A} (r : res A) : uncalled (lift r : M W A).
Proof. by intros w w' a [= <- _]. Qed.
Lemma uncalled_now : uncalled now.
Proof. by intros w w' a [= <- _]. Qed.

Lemma uncalled_record p t r : uncalled (recordBehavioralEvent g p t r).
Proof.
  intros w w' a. unfold recordBehavioralEvent. destruct (w_scores w); [|by intros [= <- _]].
  destruct (String.eqb p ""); [by intros [= <- _]|]. revert w w' a.
  apply (uncalled_bind now); [apply uncalled_now|]. by intros t' w w' a [= <- _].
Qed.
Lemma uncalled_audit act d : uncalled (audit act d).
Proof.
  intros w w' a. unfold audit. destruct (w_audit w) as [log|]; [|by intros [= <- _]]. cbv zeta. revert w w' a.
  apply (uncalled_bind now); [apply uncalled_now|]. intros t'. destruct (Append _ _ _ _ _ _) as [log' r].
  apply uncalled_bind; [by intros ? ? ? [= <- _]|]. by intros ? ? ? ? [= <- _].
Qed.

Lemma sign_verdict d d' : SignDecision d = Ok d' -> dr_Verdict d' = dr_Verdict d.
Proof. intros Hd. destruct (sign_decision_stamps _ _ Hd) as [Hst _]. rewrite Hst. done. Qed.

Lemma not_allow d d' (c : ReasonCode) reason v :
  v <> VerdictAllow -> SignDecision (conclude_with d (verdict_text v) c reason) = Ok d' ->
  dr_Verdict d' <> VerdictAllow.
Proof. intros Hv Hs. rewrite (sign_verdict _ _ Hs). by destruct v. Qed.

Lemma denied_not_allow d d' x :
  may_deny d (Some x) -> SignDecision x = Ok d' -> dr_Verdict d' <> VerdictAllow.
Proof. intros [_ Hx] Hs. rewrite (sign_verdict _ _ Hs). apply refusing_verdict, Hx. Qed.

Lemma budget_check_pass effect d w w' tracker id :
  budget_check g effect d w = (w', Ok None) -> g_tracker g = Some tracker -> budget_id effect = Some id ->
  bg_Check tracker id (w_ext w) = (w_ext w', Ok true).
Proof.
  intros Hb Ht Hid. unfold budget_check in Hb. rewrite Ht, Hid in Hb.
  apply M_bind_Ok in Hb as (w1 & r & ->%ext_run & Hb). destruct r as [[]|err]; by injection Hb as ->.
Qed.

Lemma budget_consume_pass effect d w w' tracker id :
  budget_consume g effect d w = (w', Ok None) -> g_tracker g = Some tracker -> budget_id effect = Some id ->
  bg_Consume tracker id (w_ext w) = (w_ext w', Ok tt).
Proof.
  intros Hb Ht Hid. unfold budget_consume in Hb. rewrite Ht, Hid in Hb.
  apply M_bind_Ok in Hb as (w1 & r & ->%ext_run & Hb). destruct r as [[]|err]; by injection Hb as ->.
Qed.

Lemma budget_check_leaves c effect d : leaves c (budget_check g effect d).
Proof. unfold budget_check. leave. Qed.
Lemma budget_consume_leaves c effect d : leaves c (budget_consume g effect d).
Proof. unfold budget_consume. leave. Qed.

(** The graph has a rule for the effect that holds of the policy input. *)
Definition graph_says (graph : gmap string RequirementSet) (h : effects) (l : loc) (effect : Effect)
    (arts : list ArtifactEnvelope) (d : DecisionRecord) (cache : gmap string Program) (t : time) : Prop :=
  exists rule effectMap fs, graph !! tool_or_type effect = Some rule /\ toMap h l = Ok effectMap /\
    (EvaluateRequirementSetDetail rule (policy_input (tool_or_type effect) effectMap arts t effect d) cache).2 = Ok (true, fs).

Lemma graph_check_pass graph h l effect arts d w w' rh :
  graph_check g graph h l effect arts d w = (w', Ok (inl rh)) ->
  graph_says graph h l effect arts d (w_prgCache w) (clk (w_clock w)) /\
  w_clock w' = Datatypes.S (w_clock w) /\ w_ext w' = w_ext w.
Proof.
  unfold graph_check. cbv zeta. destruct (graph !! tool_or_type effect) as [rule|] eqn:Hrule; [|done].
  intros (w1 & em & [Hem ->]%lift_Ok & Hr)%M_bind_Ok. apply M_bind_Ok in Hr as (w2 & t & [= <- <-] & Hr).
  apply M_bind_Ok in Hr as (w3 & r & He & Hr). unfold run_engine in He. cbn [w_prgCache] in He.
  destruct (EvaluateRequirementSetDetail rule _ _) as [cache' r'] eqn:Hd. injection He as <- <-.
  destruct r' as [[[] fs]|err]; [|by apply M_bind_Ok in Hr as (w4 & [] & _ & [= ])|done].
  apply (f_equal fst) in Hr. cbn [fst] in Hr. subst w'. split; [|done]. exists rule, em, fs. split; [done|]. split; [by apply wrap_err_Ok in Hem|].
  change (w_prgCache _) with (w_prgCache w) in Hd. by rewrite Hd.
Qed.

Lemma during_within w1 w2 w w' P : w_clock w <= w_clock w1 -> w_clock w2 <= w_clock w' -> during w1 w2 P -> during w w' P.
Proof. intros C1 C2 (n & Hn & HP). exists n. split; [lia|exact HP]. Qed.

Lemma check_and_sign_allow d h l effect arts graph auth w w' d' :
  check_and_sign g d h l effect arts graph auth w = (w', Ok d') -> dr_Verdict d' = VerdictAllow ->
  budget_drawn effect w' /\
  (auth = true \/ during w w' (graph_says graph h l effect arts d (w_prgCache w))).
Proof.
  intros (w1 & b & Hb & Hr)%M_bind_Ok Hv.
  destruct b as [x|].
  { apply lift_Ok in Hr as [Hr _]. destruct (denied_not_allow _ _ _ (budget_check_denies g _ _ _ _ _ Hb) Hr Hv). }
  destruct (checkEnvelope effect) as [[]|err].
  2: { apply lift_Ok in Hr as [Hr _]. by destruct (not_allow _ _ _ _ VerdictDeny ltac:(done) Hr). }
  apply M_bind_Ok in Hr as (w2 & r & Hg & Hr). destruct r as [rh|x].
  2: { apply lift_Ok in Hr as [Hr _]. destruct auth; [done|].
       destruct (denied_not_allow _ _ _ (graph_check_denies g _ _ _ _ _ _ _ _ _ Hg) Hr Hv). }
  apply M_bind_Ok in Hr as (w3 & c & Hc & Hr). destruct c as [x|].
  { apply lift_Ok in Hr as [Hr _]. destruct (denied_not_allow _ _ _ (budget_consume_denies g _ _ _ _ _ Hc) Hr Hv). }
  apply M_bind_Ok in Hr as (w4 & t & [= <- <-] & Hr). apply M_bind_Ok in Hr as (w5 & [] & Hb5 & Hr).
  apply lift_Ok in Hr as [_ ->].
  assert (X5 : w_ext w5 = w_ext w3) by exact (uncalled_record _ _ _ _ _ _ Hb5).
  assert (w_ext w2 = w_ext w1 /\ (auth = true \/ w_clock w2 = Datatypes.S (w_clock w1) /\
    graph_says graph h l effect arts d (w_prgCache w1) (clk (w_clock w1)))) as [X2 G].
  { destruct auth; [by injection Hg as <- _; split; [|left]|].
    apply graph_check_pass in Hg as (G & Ck & E2). split; [done|]. by right. }
  split.
  - intros tracker id Ht Hid. exists (w_ext w), (w_ext w1).
    split; [exact (budget_check_pass _ _ _ _ _ _ Hb Ht Hid)|].
    rewrite X5, <- X2. exact (budget_consume_pass _ _ _ _ _ _ Hc Ht Hid).
  - destruct G as [|[Ck G]]; [by left|right]. exists (w_clock w1).
    pose proof (budget_check_leaves CClock _ _ _ _ _ Hb) as C1. pose proof (budget_check_leaves CPrograms _ _ _ _ _ Hb) as P1.
    pose proof (budget_consume_leaves CClock _ _ _ _ _ Hc) as C3. pose proof (leaves_record CClock _ _ _ _ _ _ Hb5) as C5.
    cbn in C1, P1, C3, C5. split; [lia|]. by rewrite <- P1.
Qed.

(** The record keeps the threat evidence it was prepared with. *)
Lemma bind_request_threat d p a r d' : bindDecisionRequest d p a r = Ok d' -> dr_ThreatScan d' = dr_ThreatScan d.
Proof.
  intros (s1 & _ & (s2 & _ & (s3 & _ & [= <-])%res_bind_Ok)%res_bind_Ok)%res_bind_Ok. done.
Qed.

Lemma signDecisionWithGraph_allow d h l effect iv graph auth w w' d' :
  signDecisionWithGraph g d h (Some l) [] iv graph auth w = (w', Ok d') -> dr_Verdict d' = VerdictAllow ->
  h !! l = Some effect ->
  budget_drawn effect w' /\ (auth = true \/ exists d3, dr_ThreatScan d3 = dr_ThreatScan d /\
    during w w' (graph_says graph h l effect [] d3 (w_prgCache w))).
Proof.
  intros (w1 & d1 & [Hd1%wrap_err_Ok ->]%lift_Ok & Hr)%M_bind_Ok Hv Hh.
  apply M_bind_Ok in Hr as (w2 & d2 & Hd2 & Hr). cbv zeta in Hr.
  assert (w2 = w /\ dr_ThreatScan d2 = dr_ThreatScan d) as [-> T2].
  { rewrite <- (bind_request_threat _ _ _ _ _ Hd1). destruct (String.eqb _ ""); [|by injection Hd2 as <- <-].
    apply M_bind_Ok in Hd2 as (w3 & dg & [_ ->]%lift_Ok & Hd2). by injection Hd2 as <- <-. }
  apply M_bind_Ok in Hr as (w3 & arts & [= <- <-] & Hr). rewrite Hh in Hr.
  apply M_bind_Ok in Hr as (w4 & [l' ef] & [[= <- <-] ->]%lift_Ok & Hr).
  set (d3 := with_intervention iv _) in Hr.
  assert (dr_ThreatScan d3 = dr_ThreatScan d) as T3.
  { rewrite <- T2. subst d3. unfold with_intervention. by destruct (intervening iv), (String.eqb _ ""). }
  clearbody d3.
  assert (check_and_sign g d3 h l effect [] graph auth w = (w', Ok d')) as Hc.
  { destruct (intervening iv) as [[ty code wd ts]|]; [destruct ty|]; try exact Hr;
      (apply lift_Ok in Hr as [Hr _]; by destruct (not_allow _ _ _ _ VerdictEscalate ltac:(done) Hr)). }
  destruct (check_and_sign_allow _ _ _ _ _ _ _ _ _ _ Hc Hv) as [B [|G]]; split; auto. right. by exists d3.
Qed.

Lemma intercept_allow (a : Gate) (next : Handler) e w w' d :
  gate_sound a -> intercept a next e w = (w', Ok d) -> dr_Verdict d = VerdictAllow ->
  exists e1 w1, a e w = (w1, Ok (inl e1)) /\ next e1 w1 = (w', Ok d).
Proof.
  intros Ha (w1 & o & Ho & Hn)%M_bind_Ok Hv. destruct o as [e1|d1]; [eauto|].
  injection Hn as _ <-. destruct (Ha e w w1 _ Ho) as [_ Hr]. by destruct Hr.
Qed.

Lemma decide_allow e effect d w w' d' :
  decide_and_record g e effect d w = (w', Ok d') -> dr_Verdict d' = VerdictAllow ->
  budget_drawn effect w' /\
  (ec_PDPAuthoritativeAllow e = true \/ exists d3, dr_ThreatScan d3 = dr_ThreatScan d /\
    during w w' (graph_says (ec_ActiveGraph e) (heap_of effect) effect_loc effect [] d3 (w_prgCache w))).
Proof.
  intros (w1 & d1 & [Hd1%wrap_err_Ok ->]%lift_Ok & Hr)%M_bind_Ok Hv. apply M_bind_Ok in Hr as (w2 & d2 & Hs & Hr).
  apply M_bind_Ok in Hr as (w3 & [] & Hrec & Hr). apply M_bind_Ok in Hr as (w4 & r & Hau & Hr).
  apply M_bind_Ok in Hr as (w5 & [] & [_ ->]%lift_Ok & Hr). injection Hr as <- ->.
  assert (w_ext w4 = w_ext w2 /\ w_clock w2 <= w_clock w4) as [X4 Ck].
  { rewrite (uncalled_audit _ _ _ _ _ Hau). pose proof (leaves_audit CClock _ _ _ _ _ Hau) as C4.
    assert (w_ext w3 = w_ext w2 /\ w_clock w2 <= w_clock w3) as [-> C3]; [|split; [done|cbn in C4; lia]].
    repeat (destruct (String.eqb _ _) in Hrec);
      first [by injection Hrec as <-|split; [by eapply uncalled_record|by eapply (leaves_record CClock)]]. }
  destruct (signDecisionWithGraph_allow _ _ _ effect _ _ _ _ _ _ Hs Hv) as (B & P);
    [unfold heap_of; by rewrite lookup_singleton_eq|].
  split; [unfold budget_drawn; by rewrite X4|]. destruct P as [|(d3 & T & G)]; [by left|right]. exists d3.
  split; [rewrite T; by apply bind_request_threat in Hd1|]. by eapply during_within; [| |exact G].
Qed.

Lemma prepared_threat e id t digest c : dr_ThreatScan (prepare_decision g e id t digest c) = reported_threat e.
Proof.
  unfold prepare_decision, reported_threat, bindRuntimePolicyDecision. cbv zeta.
  destruct (ec_ThreatScanResult e) as [r|]; cbn [mbind option_bind]; [destruct (_ || _)|];
    destruct (ec_SessionRiskSnapshot e), (ec_ActiveSnapshot e); repeat (destruct (String.eqb _ "")); done.
Qed.

(** The input of the engine, in the terms of the request. *)
Lemma policy_input_request e eid effectMap t d :
  dr_ThreatScan d = reported_threat e ->
  policy_input (tool_or_type (effect_of_request eid e).1) effectMap [] t (effect_of_request eid e).1 d
  = request_input e effectMap t.
Proof. intros Ht. unfold policy_input, request_input. by rewrite Ht. Qed.

(** The context the verdict is about: the gates' result, with the trust and
    privilege facts of the final handler. *)
Lemma finalHandler_allow e w w' d :
  finalHandler g e w = (w', Ok d) -> dr_Verdict d = VerdictAllow ->
  exists e' eid, evolves kernel_keys e e' /\ budget_drawn (effect_of_request eid e').1 w' /\
    (ec_PDPAuthoritativeAllow e' = true \/ during w w' (graph_allows e' eid (w_prgCache w))).
Proof.
  intros Hf Hv. unfold finalHandler in Hf.
  apply intercept_allow in Hf as (e1 & w1 & Hg & Hf); [|apply then_gate_sound; [apply trust_sound|apply privilege_sound]|done].
  pose proof (then_gate_rel _ _ _ trust_late privilege_late e w w1 _ Hg) as He1. cbn in He1.
  pose proof (fun c => then_gate_leaves c _ _ (trust_leaves c) (privilege_leaves c) e w w1 _ Hg) as L1.
  apply M_bind_Ok in Hf as (w2 & eid & L2 & Hf). destruct (effect_of_request eid e1) as [ef c] eqn:Hef.
  apply M_bind_Ok in Hf as (w3 & dg & [_ ->]%lift_Ok & Hf). apply M_bind_Ok in Hf as (w4 & id & L4 & Hf).
  apply M_bind_Ok in Hf as (w5 & t & L5 & Hf). cbv zeta in Hf.
  apply intercept_allow in Hf as (e2 & w6 & Hc & Hf); [|apply compliance_sound|done].
  pose proof (fun c => compliance_leaves c _ _ _ _ _ Hc) as L6.
  assert (e2 = e1 <| ec_Request := (ec_Request e1) <| rq_Context := c |> |>) as ->.
  { clear Hf L6. unfold compliance_gate in Hc. destruct (g_complianceChecker g) as [chk|]; [|by injection Hc].
    apply M_bind_Ok in Hc as (w7 & [r|err] & _ & Hc); [|by apply stop_not_inl in Hc].
    destruct (Compliant r); [by injection Hc|by apply stop_not_inl in Hc]. }
  assert (L : forall x, agree x w w6).
  { intros x. etrans; [exact (L1 x)|]. etrans; [exact (leaves_random x _ _ _ _ L2)|].
    etrans; [exact (leaves_random x _ _ _ _ L4)|]. etrans; [exact (leaves_now x _ _ _ L5)|exact (L6 x)]. }
  exists e1, eid. split; [exact He1|]. apply (f_equal fst) in Hef. cbn [fst] in Hef.
  apply decide_allow in Hf as [B P]; [|exact Hv]. rewrite <- Hef in B, P. split; [exact B|].
  destruct P as [|(d3 & T & n & Hn & rule & em & fs & G1 & G2 & G3)]; [by left|right].
  exists n. pose proof (L CClock) as Ck. pose proof (L CPrograms) as Pr. cbn in Ck, Pr. split; [lia|].
  exists rule, em, fs. split; [exact G1|]. split; [exact G2|]. rewrite <- Pr.
  rewrite (policy_input_request e1) in G3; [exact G3|].
  etrans; [exact T|]. exact (prepared_threat (e1 <| ec_Request := (ec_Request e1) <| rq_Context := c |> |>) _ _ _ _).
Qed.

(** ** Along the chain *)

Lemma passes_app l1 l2 e w e' w' :
  passes (l1 ++ l2) e w e' w' <-> exists e1 w1, passes l1 e w e1 w1 /\ passes l2 e1 w1 e' w'.
Proof.
  revert e w. induction l1 as [|a l1 IH]; intros e w; cbn [app]; split.
  - intros Hp. exists e, w. by split; [constructor|].
  - intros (e1 & w1 & Hp & Hr). by inversion Hp; subst.
  - intros Hp. inversion Hp as [|? ? ? ? e1 w1 ? ? Ha Hr]; subst. apply IH in Hr as (e2 & w2 & H2 & H3).
    exists e2, w2. by split; [econstructor|].
  - intros (e1 & w1 & Hp & Hr). inversion Hp as [|? ? ? ? e2 w2 ? ? Ha Hq]; subst. econstructor; [exact Ha|].
    apply IH. by exists e1, w1.
Qed.

Lemma passes_rel R `{!Reflexive R, !Transitive R} l e w e' w' :
  Forall (gate_rel R) l -> passes l e w e' w' -> R e e'.
Proof.
  intros Hl Hp. induction Hp as [|a l e w e1 w1 e2 w2 Ha Hp IH]; [reflexivity|].
  inversion Hl as [|? ? Hl1 Hl2]; subst. etrans; [exact (Hl1 e w w1 _ Ha)|by apply IH].
Qed.

Lemma passes_leaves c l e w e' w' : Forall (gate_leaves c) l -> passes l e w e' w' -> agree c w w'.
Proof.
  intros Hl Hp. induction Hp as [|a l e w e1 w1 e2 w2 Ha Hp IH]; [reflexivity|].
  inversion Hl as [|? ? Hl1 Hl2]; subst. etrans; [exact (Hl1 e w w1 _ Ha)|by apply IH].
Qed.

(** The gate of the decision point is its checks one after the other. *)
Lemma pdp_gate_split e w w' (e' : EC) :
  pdp_gate g e w = (w', Ok (inl e')) ->
  exists ep wp, passes pdp_prelude e w ep wp /\ pdp_check g ep wp = (w', Ok (inl e')).
Proof.
  intros (e1 & w1 & E1 & (e2 & w2 & E2 & (e3 & w3 & E3 & (e4 & w4 & E4 &
    (e5 & w5 & E5 & E6)%then_gate_inl)%then_gate_inl)%then_gate_inl)%then_gate_inl)%then_gate_inl.
  exists e5, w5. split; [|exact E6]. by repeat (econstructor; [eassumption|]); constructor.
Qed.

Lemma prelude_early : Forall early pdp_prelude.
Proof. repeat constructor; auto using drop_early, isolation_early, threat_early, semantic_early, delegation_early. Qed.

Lemma entry_early : Forall early (drop 1 (entry_gates g ++ [zeroid_gate g; temporal_gate g; freeze_gate g])).
Proof.
  repeat constructor; auto using safedep_early, capability_early, history_early, session_risk_early, zeroid_early,
    temporal_early, freeze_early.
Qed.

Lemma after_pdp_late override : Forall late (drop 4 (boundary_chain g override)).
Proof. repeat constructor; auto using taint_egress_late, assumption_late, sandbox_late. Qed.

Lemma adopted_settles ks req w e e' : settles ks e e' -> adopted req w e -> adopted req w e'.
Proof. intros [_ Hg Hp Hs]. unfold adopted. by rewrite Hg, Hp, Hs. Qed.

(** The context at the gate of the decision point, at the end of the chain, and
    what the flag says of it. *)
Lemma chain_policy override req w e0 w0 :
  passes (entry_gates g ++ boundary_chain g override) (initial_context g req) w e0 w0 ->
  exists ep wp, passes before_pdp (initial_context g req) w ep wp /\
    frame kernel_keys (initial_context g req) ep /\ adopted req w ep /\ settles kernel_keys ep e0 /\
    (ec_PDPAuthoritativeAllow e0 = true -> pdp_allows ep wp).
Proof.
  change (entry_gates g ++ boundary_chain g override)%list with
    ((entry_gates g ++ [zeroid_gate g; temporal_gate g; freeze_gate g]) ++ pdp_gate g :: drop 4 (boundary_chain g override))%list.
  intros (e1 & w1 & P1 & P2)%passes_app. inversion P2 as [|? ? ? ? e2 w2 ? ? Hpdp P3]; subst.
  apply pdp_gate_split in Hpdp as (ep & wp & Pp & Hc). exists ep, wp.
  assert (passes before_pdp (initial_context g req) w ep wp) as Pb.
  { unfold before_pdp. rewrite app_assoc. apply passes_app. by exists e1, w1. }
  split; [exact Pb|]. destruct (pdp_check_pass _ _ _ _ Hc) as [St Fl].
  pose proof (passes_rel _ _ _ _ _ _ (after_pdp_late override) P3) as Late.
  inversion P1 as [|? ? ? ? ea wa ? ? Ha Pa]; subst.
  destruct (snapshot_adopts _ _ _ _ Ha) as (Had & Hflag & Hfr).
  assert (evolves early_keys ea ep) as Ev.
  { etrans; [exact (passes_rel _ _ _ _ _ _ entry_early Pa)|exact (passes_rel _ _ _ _ _ _ prelude_early Pp)]. }
  split_and!.
  - apply frame_mono. etrans; [exact Hfr|apply (ev_frame _ _ _ Ev)].
  - eapply adopted_settles; [apply evolves_settles, Ev|exact Had].
  - etrans; [apply settles_mono, St|apply evolves_settles, Late].
  - rewrite (ev_flag _ _ _ Late). intros [Hf| ]%Fl; [|done]. rewrite (ev_flag _ _ _ Ev) in Hf. congruence.
Qed.

Lemma allow_needs_policy override req w w' d :
  EvaluateDecision g override req w = (w', Ok d) -> dr_Verdict d = VerdictAllow ->
  exists e0 w0 e eid,
    passes (entry_gates g ++ boundary_chain g override) (initial_context g req) w e0 w0 /\
    evolves kernel_keys e0 e /\ frame kernel_keys (initial_context g req) e /\
    adopted req w e /\ policy_allows req w w' e eid /\ budget_drawn (effect_of_request eid e).1 w'.
Proof.
  intros Hev Hv. destruct (Execute_allow _ _ _ _ _ _ (gates_sound g override) Hev Hv) as (e0 & w0 & Hp & Hf).
  destruct (finalHandler_allow _ _ _ _ Hf Hv) as (e & eid & He & Hb & Hpol).
  destruct (chain_policy _ _ _ _ _ Hp) as (ep & wp & Pb & Fr & Ad & St & Fl).
  exists e0, w0, e, eid. split; [exact Hp|]. split; [exact He|].
  assert (settles kernel_keys ep e) as Se by (etrans; [exact St|by apply evolves_settles]).
  split; [etrans; [exact Fr|apply (st_frame _ _ _ Se)]|]. split; [by eapply adopted_settles|]. split; [|exact Hb].
  destruct Hpol as [Hau|(n & Hn & G)].
  - left. split; [exact Hau|]. exists ep, wp. split_and!; [exact Pb|exact Fr|symmetry; apply (st_pdp _ _ _ Se)|].
    apply Fl. by rewrite <- (ev_flag _ _ _ He).
  - right. pose proof (passes_leaves CPrograms _ _ _ _ _ (chain_leaves CPrograms override (or_introl eq_refl)) Hp) as Pr.
    pose proof (passes_leaves CClock _ _ _ _ _ (chain_leaves CClock override (or_intror eq_refl)) Hp) as Ck.
    cbn in Pr, Ck. exists n. rewrite <- Pr. split; [lia|exact G].
Qed.


Definition emergency (e : EC) (w : W) : Prop := frozen e w \/ fenced e w \/ killed e w \/ moved e w.
Definition violation (override : bool) (e : EC) (w : W) : Prop :=
  zeroid_presented e w \/ unisolated e w \/ egress_refused e w \/ tainted_leak override e w.

Lemma emergency_refused override req w w' d :
  emergency (initial_context g req) w ->
  EvaluateDecision g override req w = (w', Ok d) -> dr_Verdict d <> VerdictAllow.
Proof.
  intros [HP|[HP|[HP|HP]]].
  - apply (refused_by_freeze override frozen CFreeze); auto using frozen_stable.
    apply (freeze_gate_refuses _ CFreeze); auto using frozen_stable, frozen_refuses.
  - apply (refused_by_freeze override fenced CKill); auto using fenced_stable.
    apply (freeze_gate_refuses _ CKill); auto using fenced_stable, fenced_refuses.
  - apply (refused_by_freeze override killed CKill); auto using killed_stable.
    apply (freeze_gate_refuses _ CKill); auto 6 using killed_stable, killed_refuses.
  - apply (refused_by_freeze override moved CContext); auto using moved_stable.
    apply (freeze_gate_refuses _ CContext); auto 6 using moved_stable, moved_refuses.
Qed.

Lemma violation_refused override req w w' d :
  violation override (initial_context g req) w ->
  EvaluateDecision g override req w = (w', Ok d) -> dr_Verdict d <> VerdictAllow.
Proof.
  intros [HP|[HP|[HP|HP]]].
  - apply (refused_at (take 5 before_freeze) (zeroid_gate g) (drop 1 (boundary_chain g override))
      override zeroid_presented); [reflexivity| |apply zeroid_refuses|exact HP].
    apply Forall_take, (before_freeze_preserves CKill), zeroid_stable.
  - apply (refused_at (before_freeze ++ [freeze_gate g]) (pdp_gate g) (drop 4 (boundary_chain g override))
      override unisolated); [reflexivity| |apply pdp_gate_isolation|exact HP].
    apply Forall_app_2; [apply (before_freeze_preserves CIsolation), unisolated_stable|].
    constructor; [|done]. by apply (freeze_gate_preserves CIsolation), unisolated_stable.
  - apply (refused_at (before_freeze ++ [freeze_gate g; pdp_gate g]) (taint_egress_gate g override)
      (drop 5 (boundary_chain g override)) override egress_refused);
      [reflexivity| |apply refuses_first, egress_refuses|exact HP].
    apply Forall_app_2; [apply (before_freeze_preserves CEgress), egress_stable|].
    constructor; [by apply (freeze_gate_preserves CEgress), egress_stable|].
    constructor; [by apply (pdp_gate_preserves CEgress), egress_stable|done].
  - apply (refused_at (before_freeze ++ [freeze_gate g; pdp_gate g]) (taint_egress_gate g override)
      (drop 5 (boundary_chain g override)) override (tainted_leak override));
      [reflexivity| | |exact HP].
    + apply Forall_app_2; [apply (before_freeze_preserves CKill), tainted_stable|].
      constructor; [by apply (freeze_gate_preserves CKill), tainted_stable|].
      constructor; [by apply (pdp_gate_preserves CKill), tainted_stable|done].
    + apply refuses_second; [|apply tainted_refuses].
      apply (early_preserves CKill); [apply tainted_stable|apply egress_early|by apply egress_leaves].
Qed.
End Frame.

(** C9. The emergency controls are absolute: while the system is frozen, or the
    request's scope is fenced (or missing, or its fence unreadable) with
    fencing configured, or the principal is killed, or the boot fingerprint no
    longer matches the environment, no request is allowed, whatever its context
    and whatever the other gates and collaborators answer. *)
Theorem emergency_controls_refuse `{Hash} `{S : Signer} `{!SignerLaws S} `{Cel} `{Runtime} {Ext}
    (g : Guardian Ext) override req w w' d :
  emergency g (initial_context g req) w ->
  EvaluateDecision g override req w = (w', Ok d) ->
  dr_Verdict d <> VerdictAllow.
Proof. apply emergency_refused. Qed.

(** C10. No ALLOW crosses the trust boundary illegitimately: a request that
    presents a ZeroID envelope, that lacks a trusted credential the isolation
    checker accepts, that names a trusted destination the egress checker
    refuses, or that would send personal data, credentials or secrets to any
    destination without the caller's override is never allowed. *)
Theorem boundary_violations_refuse `{Hash} `{S : Signer} `{!SignerLaws S} `{Cel} `{Runtime} {Ext}
    (g : Guardian Ext) override req w w' d :
  violation override (initial_context g req) w ->
  EvaluateDecision g override req w = (w', Ok d) ->
  dr_Verdict d <> VerdictAllow.
Proof. apply violation_refused. Qed.

Import (hints) Demo.

(** A world in which the agent of the example is killed. *)
Definition killed_world : World Z :=
  Demo.world <| w_kill := Some (AgentKill.Kill "agent-1" "ops" "test" 0 AgentKill.NewAgentKillSwitch).1 |>.

Lemma emergency_controls_refuse_witness : exists d,
  (Demo.evaluate Demo.guardian (Demo.call "read_file" None) killed_world).2 = Ok d /\
  dr_Verdict d <> VerdictAllow.
Proof.
  assert ((Demo.verdict_of (Demo.evaluate Demo.guardian (Demo.call "read_file" None) killed_world)).1
    = Ok ("DENY", "AGENT_KILLED")) as Hv by (vm_compute; reflexivity).
  destruct (Demo.evaluate Demo.guardian (Demo.call "read_file" None) killed_world) as [w' [d|err]] eqn:E;
    [|discriminate Hv].
  exists d. split; [reflexivity|].
  refine (emergency_controls_refuse Demo.guardian false _ _ _ _ _ E).
  right. right. left. eexists. split; [reflexivity|]. vm_compute. reflexivity.
Defined.

(** A secret on its way to a destination. *)
Definition leaking_call : DecisionRequest :=
  Demo.call "read_file" (Some {["destination" := AString "evil.example"; "taint" := AStrings ["secret"]]}).

Lemma boundary_violations_refuse_witness : exists d,
  (Demo.evaluate Demo.guardian leaking_call Demo.world).2 = Ok d /\ dr_Verdict d <> VerdictAllow.
Proof.
  assert ((Demo.verdict_of (Demo.evaluate Demo.guardian leaking_call Demo.world)).1
    = Ok ("DENY", "TAINTED_DATA_EGRESS_DENY")) as Hv by (vm_compute; reflexivity).
  destruct (Demo.evaluate Demo.guardian leaking_call Demo.world) as [w' [d|err]] eqn:E;
    [|discriminate Hv].
  exists d. split; [reflexivity|].
  refine (boundary_violations_refuse Demo.guardian false _ _ _ _ _ E).
  right. right. right. split; vm_compute; reflexivity.
Defined.

(** C5. An ALLOW is authorised by policy: the request passed every gate of the
    chain in order, and in the context they left (which keeps the request's
    principal, action and resource and every context entry the kernel does not
    own) the policy in force said yes to it.  That policy is that of the active
    snapshot the store had for the request's own scope when the run began, when a
    store is configured, and the built-in graph and decision point otherwise.  It says yes in one of two ways.  Its
    authoritative decision point allowed this principal, action and resource,
    asked in the context, at the clock reading and in the collaborators' state
    of this run when its gate was reached.  Or its graph has a rule for the
    tool, and the engine, with the programs compiled when the run began, found
    it satisfied on this request's own effect, taint and threat evidence at a
    clock reading of this run.  A request with a budget was within its ceiling,
    and its draw-down was made on the state that check left and stands at the
    end of the run. *)
Theorem allow_requires_policy `{Hash} `{S : Signer} `{!SignerLaws S} `{Cel} `{Runtime} {Ext}
    (g : Guardian Ext) override req w w' d :
  EvaluateDecision g override req w = (w', Ok d) ->
  dr_Verdict d = VerdictAllow ->
  exists e0 w0 e eid,
    passes (entry_gates g ++ boundary_chain g override)%list (initial_context g req) w e0 w0 /\
    evolves kernel_keys e0 e /\ frame kernel_keys (initial_context g req) e /\
    adopted g req w e /\ policy_allows g req w w' e eid /\ budget_drawn g (effect_of_request eid e).1 w'.
Proof. apply allow_needs_policy. Qed.

(** A call with a budget: its rule is satisfied, and one unit is drawn. *)
Definition budgeted_call : DecisionRequest := Demo.call "read_file" (Some {["budget_id" := AString "b"]}).

Lemma allow_requires_policy_witness :
  exists w' (e : EvaluationContext Z) eid, policy_allows Demo.guardian budgeted_call Demo.world w' e eid /\
    budget_drawn Demo.guardian (effect_of_request eid e).1 w' /\ w_ext w' = 9%Z.
Proof.
  assert (Demo.verdict_of (Demo.evaluate Demo.guardian budgeted_call Demo.world)
    = (Ok ("ALLOW", ""), 9%Z)) as Hv by (vm_compute; reflexivity).
  destruct (Demo.evaluate Demo.guardian budgeted_call Demo.world) as [w' [d|err]] eqn:E;
    [|discriminate Hv].
  destruct (allow_requires_policy Demo.guardian false _ _ _ _ E)
    as (e0 & w0 & e & eid & _ & _ & _ & _ & Hp & Hb); [by injection Hv|].
  exists w', e, eid. split; [exact Hp|]. split; [exact Hb|by injection Hv].
Defined.
