(* ===== verification/GuardianIntents.v ===== *)
(** Execution intents, budget discipline, capability tokens and the gate roster
    of the Guardian. *)
From stdpp Require Import sorting.
From Stdlib Require Import Ascii.
From S2P Require Import Prelude GoLib GoFmt Utf8 Jcs Contracts Signing KillSwitch Identity Egress Temporal Trust Prg AuditLog SafeDep PolicyScopes Guardian GuardianDemo GuardianProps GuardianGates.

Local Open Scope string_scope.

(** * Execution intents *)

(** The authority window of an intent issued at [t] for this effect: five
    minutes, or for sandboxed code the signed runtime plus a dispatch window of
    one second to five minutes that ends within the lease. *)
Definition in_window `{Runtime} (effect : Effect) (t expires : time) : Prop :=
  if String.eqb (ef_EffectType effect) EffectTypeRunSandboxedCode then
    exists value payload lease runtime,
      ctx_lookup (ef_Params effect) "param.sandbox_execution" = Some value /\ json_of_any value = Ok payload /\
      decode_sandbox_window payload = Ok (lease, runtime) /\ (0 < runtime)%Z /\ (expires <= lease)%Z /\
      (t + runtime + second <= expires <= t + runtime + 5 * minute)%Z
  else expires = (t + 5 * minute)%Z.

Lemma expires_in_window `{Runtime} effect t expires :
  executionIntentExpiresAt effect t = Ok expires -> in_window effect t expires.
Proof.
  unfold executionIntentExpiresAt, in_window.
  destruct (String.eqb (ef_EffectType effect) EffectTypeRunSandboxedCode); cbn [negb]; [|by intros [= <-]].
  destruct (ef_Params effect) as [params|]; [|done]. cbn [ctx_lookup mbind option_bind].
  destruct (params !! "param.sandbox_execution") as [value|] eqn:Hval; [|done].
  intros Hex.
  assert (exists payload, json_of_any value = Ok payload /\ exists lease runtime,
    decode_sandbox_window payload = Ok (lease, runtime) /\ (0 < runtime)%Z /\
    (runtime + second <= time_sub lease t)%Z /\
    expires = time_add t (wrap64 (runtime + Z.min (time_sub lease t - runtime) sandboxIntentDispatchWindow)))
    as (payload & Hj & lease & runtime & Hdec & Hpos & Hroom & ->).
  { assert ((payload ← wrap_err "encode sandbox execution authority window: " (json_of_any value);
      '(lease, runtimeTimeout) ← wrap_err "decode sandbox execution authority window: "
                                         (decode_sandbox_window payload);
      if (runtimeTimeout <=? 0)%Z || is_zero lease
      then Fail "sandbox execution intent requires a positive signed runtime and lease expiry"
      else if (time_sub lease t <=? runtimeTimeout)%Z
      then Fail "sandbox execution lease does not leave enough authority for runtime and dispatch"
      else if (time_sub lease t - runtimeTimeout <? sandboxIntentMinimumDispatchTime)%Z
      then Fail "sandbox execution lease does not leave enough authority for runtime and dispatch"
      else Ok (time_add t (wrap64 (runtimeTimeout +
                 Z.min (time_sub lease t - runtimeTimeout) sandboxIntentDispatchWindow)))) = Ok expires) as Hr
      by (destruct value; first [discriminate Hex|exact Hex]). clear Hex.
    apply res_bind_Ok in Hr as (payload & Hj%wrap_err_Ok & Hr).
    apply res_bind_Ok in Hr as ([lease runtime] & Hd%wrap_err_Ok & Hr).
    exists payload. split; [done|]. exists lease, runtime. split; [done|].
    destruct (_ || _) eqn:Hz in Hr; [done|]. apply orb_false_iff in Hz as [Hz _].
    destruct (_ <=? _)%Z eqn:Hl in Hr; [done|]. destruct (_ <? _)%Z eqn:Hm in Hr; [done|].
    apply Ok_inj in Hr as <-. unfold sandboxIntentMinimumDispatchTime in Hm.
    apply Z.leb_gt in Hz. apply Z.ltb_ge in Hm. split; [lia|]. split; [lia|done]. }
  exists value, payload, lease, runtime.
  assert (0 <= sandboxIntentDispatchWindow)%Z by (unfold sandboxIntentDispatchWindow, minute, second; done).
  assert (second <= sandboxIntentDispatchWindow)%Z by (unfold sandboxIntentDispatchWindow, minute, second; done).
  assert (sandboxIntentDispatchWindow = 5 * minute)%Z as Hw by done.
  assert (0 < second)%Z by done.
  assert (time_sub lease t <= int64_max)%Z by (unfold time_sub, int64_min, int64_max; lia).
  assert (time_sub lease t <= lease - t)%Z
    by (unfold time_sub, int64_min, int64_max in *; lia).
  rewrite wrap64_id by (unfold in_int64, int64_min, int64_max in *; lia).
  unfold time_add. split_and!; try done; lia.
Qed.

Section Intents.
Context `{Hash} `{S : Signer} `{!SignerLaws S} `{Cel} `{Runtime} {Ext : Type} (g : Guardian Ext).

(** The policy snapshot in force is the one the decision was bound to. *)
Definition current_policy (d : DecisionRecord) : Prop :=
  forall get, g_snapshotStore g = Some get ->
    exists x s, (get (policyScopeFromContext g (dr_InputContext d)) x).2 = Some s /\ sn_Status s = StatusActive /\
      sn_PolicyHash s = dr_PolicyContentHash d /\ dr_PolicyContentHash d <> "" /\
      ParseUint (dr_PolicyEpoch d) = Some (sn_PolicyEpoch s).

Lemma active_epoch_current d w w' : active_epoch_check g d w = (w', Ok tt) -> current_policy d.
Proof.
  intros Hc get Hget. unfold active_epoch_check in Hc. rewrite Hget in Hc. cbv zeta in Hc.
  apply M_bind_Ok in Hc as (w1 & s & [x Hx]%ext_Ok & Hc). destruct s as [s|]; [|done].
  destruct (String.eqb_spec (sn_Status s) StatusActive) as [Hst|]; cbn [negb] in Hc; [|done].
  destruct (ParseUint (dr_PolicyEpoch d)) as [epoch|] eqn:Hp; [|done].
  destruct (String.eqb_spec (dr_PolicyContentHash d) "") as [|Hne]; [done|].
  destruct (_ || _) eqn:Hm in Hc; [done|]. apply orb_false_iff in Hm as [Hh%negb_false_iff%String.eqb_eq He%negb_false_iff%Z.eqb_eq].
  exists x, s. split_and!; [exact Hx|exact Hst|exact Hh|exact Hne|by rewrite He].
Qed.

(** Everything an issued intent rests on. *)
Record authorised (d : DecisionRecord) (h : effects) (l : loc) (effect : Effect) (i : AuthorizedExecutionIntent) : Prop := {
  au_verdict : dr_Verdict d = VerdictAllow;
  au_verified : VerifyDecision d = Ok true;
  au_version : dr_SignatureVersion d = DecisionRecordSignatureV4;
  au_authority : ValidateDecisionAuthorityForUse (Some d) = Ok tt;
  au_tuple : blank (dr_SubjectID d) = false /\ blank (dr_Action d) = false /\ blank (dr_Resource d) = false;
  au_policy : current_policy d;
  au_digest : CanonicalEffectDigest h (Some l) = Ok (dr_EffectDigest d) /\ dr_EffectDigest d <> "";
  au_signed : VerifyIntent i = Ok true;
  au_decision : ai_DecisionID i = dr_ID d;
  au_effect : ai_EffectDigestHash i = dr_EffectDigest d;
  au_binding : exists b, ai_EffectBinding i = Some b /\ NewEffectDigestBinding h (Some l) = Ok b;
  au_tool : ai_AllowedTool i = executionIntentAllowedTool effect;
  au_window : in_window effect (ai_IssuedAt i) (ai_ExpiresAt i);
}.

Lemma authority_valid d : ValidateDecisionAuthorityForUse (Some d) = Ok tt ->
  dr_SignatureVersion d = DecisionRecordSignatureV4 /\
  blank (dr_SubjectID d) = false /\ blank (dr_Action d) = false /\ blank (dr_Resource d) = false.
Proof.
  unfold ValidateDecisionAuthorityForUse.
  destruct (String.eqb_spec (dr_SignatureVersion d) DecisionRecordSignatureV4) as [Hv|]; cbn [negb]; [|done].
  destruct (first_blank _) as [n|] eqn:Hb; [done|]. intros _. apply first_blank_None in Hb.
  repeat (apply Forall_cons in Hb as [? Hb]). done.
Qed.

Lemma issue_authorised d h l w w' i :
  IssueExecutionIntent g (Some d) h (Some l) w = (w', Ok i) ->
  exists effect, h !! l = Some effect /\ authorised d h l effect i.
Proof.
  intros (w1 & [l' effect] & Hl%lift_Ok & Hr)%M_bind_Ok. destruct Hl as [Hl ->].
  destruct (h !! l) as [e|] eqn:Hh; [|done]. injection Hl as <- <-.
  exists e. split; [done|].
  destruct (String.eqb_spec (dr_Verdict d) VerdictAllow) as [Hv|]; cbn [negb] in Hr; [|done].
  apply M_bind_Ok in Hr as (w2 & [] & Hver%lift_Ok & Hr). destruct Hver as [Hver _].
  assert (VerifyDecision d = Ok true) as Hver' by (destruct (VerifyDecision d) as [[]|]; done). clear Hver.
  apply M_bind_Ok in Hr as (w3 & [] & Hau%lift_Ok & Hr).
  destruct Hau as [Hau%wrap_err_Ok _]. destruct (authority_valid _ Hau) as [Hver4 Htup].
  apply M_bind_Ok in Hr as (w4 & [] & Hep%active_epoch_current & Hr).
  apply M_bind_Ok in Hr as (w5 & dg & Hdg%lift_Ok & Hr). destruct Hdg as [Hdg%wrap_err_Ok _].
  destruct (String.eqb_spec (dr_EffectDigest d) "") as [|Hne]; [done|].
  destruct (String.eqb_spec (dr_EffectDigest d) dg) as [<-|]; cbn [negb] in Hr; [|done].
  apply M_bind_Ok in Hr as (w6 & b & Hb%lift_Ok & Hr). destruct Hb as [Hb%wrap_err_Ok _].
  apply M_bind_Ok in Hr as (w7 & t & _ & Hr). apply M_bind_Ok in Hr as (w8 & ex & Hex%lift_Ok & Hr).
  destruct Hex as [Hex%expires_in_window _]. apply lift_Ok in Hr as [Hr%wrap_err_Ok _].
  pose proof (sign_intent_verifies _ _ Hr) as Hvi. pose proof (sign_intent_stamps _ _ Hr) as Hst.
  set (i0 := intent_of _ _ _ _ _ _) in Hst.
  assert (forall f : AuthorizedExecutionIntent -> string, (forall sig, f (stamped_intent i0 sig) = f i0) -> f i = f i0) as Hf
    by (intros f Hf; rewrite Hst; apply Hf).
  constructor; try done.
  - exact (Hf ai_DecisionID (fun _ => eq_refl)).
  - exact (Hf ai_EffectDigestHash (fun _ => eq_refl)).
  - exists b. split; [|exact Hb]. rewrite Hst. reflexivity.
  - exact (Hf ai_AllowedTool (fun _ => eq_refl)).
  - rewrite Hst. exact Hex.
Qed.
End Intents.

(** C3. No execution without authority: the Guardian issues an intent only for
    a decision that verifies under its own signer as a V4 record, is an ALLOW
    with its authority tuple present, was bound to the policy snapshot still in
    force, and whose effect digest is the canonical digest of the very effect
    presented.  The intent is signed, names that decision, digest and tool,
    carries the effect's binding, and expires within five minutes, or for
    sandboxed code within the lease and the signed runtime plus five
    minutes. *)
Theorem intent_requires_authority `{Hash} `{S : Signer} `{!SignerLaws S} `{Cel} `{Runtime} {Ext}
    (g : Guardian Ext) d h l w w' i :
  IssueExecutionIntent g (Some d) h (Some l) w = (w', Ok i) ->
  exists effect, h !! l = Some effect /\ authorised g d h l effect i.
Proof. apply issue_authorised. Qed.

Import (hints) Demo.

(** The effect of the example call, as the Guardian builds it. *)
Definition demo_heap : effects := heap_of (effect_of_request "eff-00" (initial_context Demo.guardian (Demo.call "read_file" None))).1.

Definition demo_intent : res AuthorizedExecutionIntent :=
  let '(w, r) := Demo.evaluate Demo.guardian (Demo.call "read_file" None) Demo.world in
  d ← r; (IssueExecutionIntent Demo.guardian (Some d) demo_heap (Some effect_loc) w).2.

Lemma intent_requires_authority_witness : exists i, demo_intent = Ok i /\ ai_AllowedTool i = "read_file".
Proof.
  assert (is_ok demo_intent = true) as Hok by (vm_compute; reflexivity).
  unfold demo_intent in *.
  destruct (Demo.evaluate Demo.guardian (Demo.call "read_file" None) Demo.world) as [w [d|err]]; [|discriminate Hok].
  cbn [mbind res_bind] in *.
  destruct (IssueExecutionIntent Demo.guardian (Some d) demo_heap (Some effect_loc) w) as [w' [i|err]] eqn:Hi;
    [|discriminate Hok].
  exists i. split; [reflexivity|].
  destruct (intent_requires_authority Demo.guardian d demo_heap effect_loc w w' i Hi) as (ef & Hef & Hau).
  vm_compute in Hef. injection Hef as <-. exact (au_tool _ _ _ _ _ _ Hau).
Defined.

(** * Capability tokens *)

(** A bearer capability token reaches a signed record when no policy is
    ready: the token is only removed by the capability gate, and the denial for
    a missing policy snapshot, which comes before it, records the request
    context as the caller sent it, token included. *)
Theorem token_kept_when_policy_not_ready `{Hash} `{S : Signer} `{!SignerLaws S} `{Cel} `{Runtime} {Ext}
    (g : Guardian Ext) get override req w w' d :
  g_snapshotStore g = Some get -> (get (policyScopeFromContext g (rq_Context req)) (w_ext w)).2 = None ->
  EvaluateDecision g override req w = (w', Ok d) ->
  VerifyDecision d = Ok true /\ dr_ReasonCode d = ReasonPolicyNotReady /\ dr_InputContext d = rq_Context req.
Proof.
  intros Hget Hnone (w1 & o & Ho & Hn)%M_bind_Ok. unfold snapshot_gate in Ho. rewrite Hget in Ho. cbv zeta in Ho.
  apply M_bind_Ok in Ho as (w2 & s & Hs & Ho). unfold ext in Hs.
  change (context (initial_context g req)) with (rq_Context req) in Hs, Ho.
  destruct (get (policyScopeFromContext g (rq_Context req)) (w_ext w)) as [x s']. cbn in Hnone. subst s'.
  injection Hs as _ <-. apply M_bind_Ok in Ho as (w3 & id & _ & Ho). apply M_bind_Ok in Ho as (w4 & t & _ & Ho).
  apply M_bind_Ok in Ho as (w5 & d1 & Hd1 & Ho). injection Ho as <- <-. injection Hn as _ ->.
  apply M_bind_Ok in Hd1 as (w6 & d2 & Hd2 & Hd1). apply M_bind_Ok in Hd1 as (w7 & [] & _ & Hd1).
  injection Hd1 as _ ->. apply lift_Ok in Hd2 as [Hd2%wrap_err_Ok _].
  apply res_bind_Ok in Hd2 as (d3 & Hb%wrap_err_Ok & Hsg). apply bindDecisionRequest_Ok in Hb as (-> & _).
  split; [exact (sign_decision_verifies _ _ Hsg)|].
  destruct (sign_decision_stamps _ _ Hsg) as [Hst _]. rewrite Hst. split; reflexivity.
Qed.

(** The example deployment with a snapshot store that holds no policy yet. *)
Definition unready : Guardian Z := Demo.guardian <| g_snapshotStore := Some (fun _ x => (x, None)) |>.
Definition token_call : DecisionRequest := Demo.call "read_file" (Some {["capability_token" := AString "bearer"]}).

Lemma token_kept_when_policy_not_ready_witness : exists d,
  (EvaluateDecision unready false token_call Demo.world).2 = Ok d /\
  ctx_get (dr_InputContext d) "capability_token" = AString "bearer".
Proof.
  assert (is_ok (EvaluateDecision unready false token_call Demo.world).2 = true) as Hv by (vm_compute; reflexivity).
  destruct (EvaluateDecision unready false token_call Demo.world) as [w' [d|err]] eqn:E; [|discriminate Hv].
  exists d. split; [reflexivity|].
  destruct (token_kept_when_policy_not_ready unready (fun _ x => (x, None)) false token_call Demo.world w' d)
    as (_ & _ & Hc); [reflexivity|reflexivity|exact E|].
  rewrite Hc. vm_compute. reflexivity.
Defined.

(** * The gate roster *)

Lemma filter_partition {A} (f : A -> bool) (l : list A) :
  List.filter f l ++ List.filter (fun x => negb (f x)) l ≡ₚ l.
Proof.
  induction l as [|x l IH]; [done|]. cbn. destruct (f x); cbn [negb app]; [by apply Permutation_cons|].
  rewrite <-Permutation_middle. by apply Permutation_cons.
Qed.

Lemma sort_strings_sorted l : Sorted string_le (sort_strings l).
Proof.
  apply Sorted_merge_sort. intros a b. unfold string_le. apply String.leb_total.
Qed.

Lemma filter_fst_elem (f : string * bool -> bool) l id b :
  NoDup l.*1 -> (id, b) ∈ l -> id ∈ (List.filter f l).*1 <-> f (id, b) = true.
Proof.
  intros Hnd Hin. rewrite list_elem_of_fmap. split.
  - intros ([k b'] & -> & Hk). cbn in *. apply list_elem_of_In, filter_In in Hk as [Hk Hfk].
    apply list_elem_of_In in Hk. by rewrite (NoDup_fst_inj _ _ _ _ Hnd Hin Hk).
  - intros Hfb. exists (id, b). split; [done|]. apply list_elem_of_In, filter_In. split; [|done].
    by apply list_elem_of_In.
Qed.

(** A flagged list and its two sorted halves. *)
Lemma roster_of_list (l : list (string * bool)) : NoDup l.*1 ->
  let active := sort_strings (List.filter (fun x => x.2) l).*1 in
  let inactive := sort_strings (List.filter (fun x => negb x.2) l).*1 in
  active ++ inactive ≡ₚ sort_strings l.*1 /\ NoDup (active ++ inactive) /\
  Sorted string_le active /\ Sorted string_le inactive /\
  forall id b, (id, b) ∈ l -> (id ∈ active <-> b = true) /\ (id ∈ inactive <-> b = false).
Proof.
  intros Hnd active inactive.
  assert (forall l, sort_strings l ≡ₚ l) as Hs by (intros; apply merge_sort_Permutation).
  assert (active ++ inactive ≡ₚ l.*1) as Hp
    by (unfold active, inactive; by rewrite !Hs, <-fmap_app, filter_partition).
  split_and!; [by rewrite Hs|by rewrite Hp|apply sort_strings_sorted|apply sort_strings_sorted|].
  intros id b Hin. unfold active, inactive. rewrite !Hs, !(filter_fst_elem _ _ _ _ Hnd Hin). by destruct b.
Qed.

(** The roster accounts for every gate exactly once: active and inactive
    together are all the gate identifiers, without repetition, each list in
    sorted order, and a gate is listed as active exactly when its dependency is
    injected. *)
Theorem gate_roster_partition `{Cel} {Ext} (g : Guardian Ext) (w : World Ext) :
  let active := (GateRoster g w).1 in
  let inactive := (GateRoster g w).2 in
  active ++ inactive ≡ₚ AllGateIDs g w /\ NoDup (active ++ inactive) /\
  Sorted string_le active /\ Sorted string_le inactive /\
  forall id b, (id, b) ∈ injected g w -> (id ∈ active <-> b = true) /\ (id ∈ inactive <-> b = false).
Proof.
  apply roster_of_list. apply (bool_decide_unpack (NoDup (injected g w).*1)). vm_compute. reflexivity.
Qed.

(** * What the intent takes from the unsigned part of a decision *)

Section Unsigned.
Context `{Hash} `{Ed25519} `{!Ed25519Laws} `{Cel} `{Runtime} {Ext : Type} (g : Guardian Ext).

(** Whether an intent can be signed depends on its version, binding and window. *)
Lemma envelope_ok i i2 b :
  ai_IssuedAt i2 = ai_IssuedAt i -> ai_ExpiresAt i2 = ai_ExpiresAt i ->
  is_ok (json_of_intent_envelope i2 b) = is_ok (json_of_intent_envelope i b).
Proof.
  intros Hi He. unfold json_of_intent_envelope. rewrite Hi, He.
  destruct (match b with Some b => _ | None => _ end) as [bj|]; [|done]. cbn [mbind res_bind].
  destruct (fmt_time (ai_IssuedAt i)) as [t1|]; [|done]. cbn [mbind res_bind].
  by destruct (fmt_time (ai_ExpiresAt i)).
Qed.

Lemma JCS_res_ok (r : res json) : is_ok (JCS_res r) = is_ok r.
Proof. destruct r as [j|]; [|done]. cbn. by rewrite JCS_Ok. Qed.

Lemma canonicalize_intent_ok i i2 :
  ai_SignatureVersion i2 = ai_SignatureVersion i -> ai_EffectBinding i2 = ai_EffectBinding i ->
  ai_IssuedAt i2 = ai_IssuedAt i -> ai_ExpiresAt i2 = ai_ExpiresAt i ->
  is_ok (CanonicalizeAuthorizedExecutionIntent (Some i2)) = is_ok (CanonicalizeAuthorizedExecutionIntent (Some i)).
Proof.
  intros Hv Hb Hi He. unfold CanonicalizeAuthorizedExecutionIntent. rewrite Hv, Hb.
  destruct (negb _); [done|].
  destruct (match ai_EffectBinding i with Some _ => _ | None => _ end) as [b|]; [|done]. cbn [mbind res_bind].
  rewrite !JCS_res_ok. by apply envelope_ok.
Qed.

Lemma sign_intent_alike signer i i' i2 :
  ai_EffectBinding i2 = ai_EffectBinding i -> ai_IssuedAt i2 = ai_IssuedAt i -> ai_ExpiresAt i2 = ai_ExpiresAt i ->
  ed_SignIntent signer i = Ok i' -> exists sig,
    ed_SignIntent signer i2 = Ok (i2 <| ai_SignatureVersion := AuthorizedExecutionIntentSignatureV2 |>
      <| ai_SignatureType := sig_type signer |> <| ai_Signature := sig |>).
Proof.
  intros Hb Hi He. unfold ed_SignIntent, prepareAuthorizedExecutionIntent.
  intros ([p i1] & Hp & _)%res_bind_Ok. apply res_bind_Ok in Hp as (p0 & Hp & _).
  set (i3 := i2 <| ai_SignatureVersion := _ |> <| ai_SignatureType := _ |>).
  match type of Hp with CanonicalizeAuthorizedExecutionIntent (Some ?x) = _ =>
    assert (is_ok (CanonicalizeAuthorizedExecutionIntent (Some i3)) = is_ok (CanonicalizeAuthorizedExecutionIntent (Some x)))
      as Hok by (apply canonicalize_intent_ok; [reflexivity|exact Hb|exact Hi|exact He]) end.
  rewrite Hp in Hok. destruct (CanonicalizeAuthorizedExecutionIntent (Some i3)) as [p2|]; [|done].
  eexists. reflexivity.
Qed.

Context (priv : bytes) (keyID : string).
#[local] Instance kernel_signer : Signer := ed25519_signer (NewEd25519SignerFromKey priv keyID).

Lemma verify_other_context d c : VerifyDecision (d <| dr_InputContext := c |>) = VerifyDecision d.
Proof. by destruct d. Qed.
Lemma authority_other_context d c :
  ValidateDecisionAuthorityForUse (Some (d <| dr_InputContext := c |>)) = ValidateDecisionAuthorityForUse (Some d).
Proof. by destruct d. Qed.

Lemma kernel_sign_alike i i' i2 :
  ai_EffectBinding i2 = ai_EffectBinding i -> ai_IssuedAt i2 = ai_IssuedAt i -> ai_ExpiresAt i2 = ai_ExpiresAt i ->
  SignIntent i = Ok i' -> exists sig, SignIntent i2 = Ok (stamped_intent i2 sig).
Proof. exact (sign_intent_alike (NewEd25519SignerFromKey priv keyID) i i' i2). Qed.

Lemma intent_of_fields d effect dg b t ex :
  let i := intent_of d effect dg b t ex in
  ai_EffectBinding i = Some b /\ ai_IssuedAt i = t /\ ai_ExpiresAt i = ex /\
  ai_EmergencyActivationID i = emergency_text d "safe_deprecation_activation_id" /\
  ai_EmergencyDelegationSessionID i = emergency_text d "safe_deprecation_delegation_session_id" /\
  ai_EmergencyScopeHash i = emergency_text d "safe_deprecation_scope_hash".
Proof. by intros i. Qed.

Lemma issue_other_context d h l w w' i c :
  g_snapshotStore g = None -> IssueExecutionIntent g (Some d) h (Some l) w = (w', Ok i) ->
  exists i', IssueExecutionIntent g (Some (d <| dr_InputContext := c |>)) h (Some l) w = (w', Ok i') /\
    ai_EmergencyActivationID i' = string_or_empty (ctx_get c "safe_deprecation_activation_id") /\
    ai_EmergencyDelegationSessionID i' = string_or_empty (ctx_get c "safe_deprecation_delegation_session_id") /\
    ai_EmergencyScopeHash i' = string_or_empty (ctx_get c "safe_deprecation_scope_hash").
Proof.
  intros Hs (w1 & [l' effect] & Hl & Hr)%M_bind_Ok.
  destruct (negb (String.eqb (dr_Verdict d) VerdictAllow)) eqn:Hv; [done|].
  apply M_bind_Ok in Hr as (w2 & [] & Hver & Hr). apply M_bind_Ok in Hr as (w3 & [] & Hau & Hr).
  apply M_bind_Ok in Hr as (w4 & [] & Hep & Hr). apply M_bind_Ok in Hr as (w5 & dg & Hdg & Hr).
  destruct (String.eqb (dr_EffectDigest d) "") eqn:Hne; [done|].
  destruct (negb (String.eqb (dr_EffectDigest d) dg)) eqn:Hdm; [done|].
  apply M_bind_Ok in Hr as (w6 & b & Hb & Hr). apply M_bind_Ok in Hr as (w7 & t & Ht & Hr).
  apply M_bind_Ok in Hr as (w8 & ex & Hex & Hr). apply lift_Ok in Hr as [Hr%wrap_err_Ok ->].
  set (d' := d <| dr_InputContext := c |>).
  assert (dr_Verdict d' = dr_Verdict d /\ dr_EffectDigest d' = dr_EffectDigest d) as [Ev Ed] by done.
  assert (VerifyDecision d' = VerifyDecision d) as Evd by apply verify_other_context.
  assert (ValidateDecisionAuthorityForUse (Some d') = ValidateDecisionAuthorityForUse (Some d)) as Eau
    by apply authority_other_context.
  assert (forall key, emergency_text d' key = string_or_empty (ctx_get c key)) as Ek by done.
  clearbody d'.
  destruct (intent_of_fields d effect dg b t ex) as (Fb & Fi & Fe & _).
  destruct (intent_of_fields d' effect dg b t ex) as (Fb' & Fi' & Fe' & Ea & Es & Eh).
  destruct (kernel_sign_alike (intent_of d effect dg b t ex) i
    (intent_of d' effect dg b t ex)) as [sig Hsig]; [by rewrite Fb, Fb'|by rewrite Fi, Fi'|by rewrite Fe, Fe'|exact Hr|].
  set (i2 := intent_of d' effect dg b t ex) in *. eexists. split.
  - unfold IssueExecutionIntent. rewrite Ev, Ed, Evd, Eau, Hv.
    apply M_bind_Ok. exists w1, (l', effect). split; [exact Hl|].
    apply M_bind_Ok. exists w2, tt. split; [exact Hver|]. apply M_bind_Ok. exists w3, tt. split; [exact Hau|].
    apply M_bind_Ok. exists w4, tt. split; [unfold active_epoch_check in *; by rewrite Hs in *|].
    apply M_bind_Ok. exists w5, dg. split; [exact Hdg|]. rewrite Hne, Hdm.
    apply M_bind_Ok. exists w6, b. split; [exact Hb|]. apply M_bind_Ok. exists w7, t. split; [exact Ht|].
    apply M_bind_Ok. exists w8, ex. split; [exact Hex|]. unfold lift. fold i2. f_equal. apply wrap_err_Ok. exact Hsig.
  - clearbody i2. rewrite <-!Ek, <-Ea, <-Es, <-Eh. by destruct i2.
Qed.
End Unsigned.

(** Emergency authority comes from unsigned data: the input context is not
    part of a decision's signature, so a decision that yields an intent yields,
    with any other input context [c], an intent that is as validly signed and
    carries the emergency activation, delegation session and scope that [c]
    names. *)
Theorem unsigned_context_enters_intent `{Hash} `{Ed25519} `{!Ed25519Laws} `{Cel} `{Runtime} {Ext}
    (g : Guardian Ext) priv keyID d h l w w' i c :
  let S := ed25519_signer (NewEd25519SignerFromKey priv keyID) in
  g_snapshotStore g = None -> IssueExecutionIntent g (Some d) h (Some l) w = (w', Ok i) ->
  exists i', IssueExecutionIntent g (Some (d <| dr_InputContext := c |>)) h (Some l) w = (w', Ok i') /\
    VerifyIntent i' = Ok true /\
    ai_EmergencyActivationID i' = string_or_empty (ctx_get c "safe_deprecation_activation_id") /\
    ai_EmergencyDelegationSessionID i' = string_or_empty (ctx_get c "safe_deprecation_delegation_session_id") /\
    ai_EmergencyScopeHash i' = string_or_empty (ctx_get c "safe_deprecation_scope_hash").
Proof.
  intros S Hs Hi. destruct (issue_other_context g priv keyID d h l w w' i c Hs Hi) as (i' & Hi' & He).
  exists i'. split; [exact Hi'|]. split; [|exact He].
  destruct (issue_authorised g _ _ _ _ _ _ Hi') as (ef & _ & Hau). exact (au_signed _ _ _ _ _ _ Hau).
Qed.

Lemma unsigned_context_enters_intent_witness : exists i,
  ai_EmergencyActivationID i = "forged" /\ VerifyIntent (Signer := Demo.signer) i = Ok true.
Proof.
  assert (is_ok demo_intent = true) as Hok by (vm_compute; reflexivity).
  unfold demo_intent in Hok.
  destruct (Demo.evaluate Demo.guardian (Demo.call "read_file" None) Demo.world) as [w [d|err]]; [|discriminate Hok].
  cbn [mbind res_bind] in Hok.
  destruct (IssueExecutionIntent Demo.guardian (Some d) demo_heap (Some effect_loc) w) as [w' [i|err]] eqn:Hi;
    [|discriminate Hok].
  destruct (unsigned_context_enters_intent Demo.guardian [] "k1" d demo_heap effect_loc w w' i
    (Some {["safe_deprecation_activation_id" := AString "forged"]}) eq_refl Hi) as (i' & _ & Hv & Ha & _).
  exists i'. split; [|exact Hv]. rewrite Ha. vm_compute. reflexivity.
Defined.
