(* ===== verification/EndToEnd.v ===== *)
(** The Guardian and the executor together: what the Guardian issues, the
    executor accepts; and one deployment of both, on which the examples of the
    executor run. *)
From stdpp Require Import sorting.
From S2P Require Import Prelude GoLib GoFmt Utf8 Jcs Contracts Signing KillSwitch Identity Egress Temporal Trust Prg AuditLog SafeDep PolicyScopes Receipts Executor Guardian GuardianDemo GuardianProps GuardianGates GuardianIntents.

Local Open Scope string_scope.

(** The verifier of an executor that shares the Guardian's key. *)
Definition shared_verifier `{Signer} : Verifier :=
  {| vf_VerifyDecision := VerifyDecision; vf_VerifyIntent := VerifyIntent |}.

(** C8. The two ends agree: an execution intent the Guardian issued passes the
    gates of an executor that verifies with the same key and sees the same
    effects, at every clock reading inside the intent's window; and the only tool
    the executor can then resolve is the one the intent was issued for. *)
Theorem issued_intent_accepted `{Hash} `{S : Signer} `{!SignerLaws S} `{Cel} `{Runtime} {Ext X}
    (g : Guardian Ext) (e : SafeExecutor X) d h l w w' i (x : Executor.World X) :
  IssueExecutionIntent g (Some d) h (Some l) w = (w', Ok i) ->
  blank (dr_ID d) = false ->
  ex_verifier e = Some shared_verifier ->
  Executor.w_heap x = h ->
  (zero_time <= (ex_clock e (Executor.w_ext x)).2)%Z ->
  (ai_IssuedAt i <= (ex_clock e (Executor.w_ext x)).2 < ai_ExpiresAt i)%Z ->
  exists x' effect, h !! l = Some effect /\
    validateGating e d (Some i) (Some l) x = (x', Ok i) /\
    forall tool, resolveTool effect i = Ok tool -> executionIntentAllowedTool effect <> "" ->
      tool = executionIntentAllowedTool effect.
Proof.
  intros Hi Hid Hv <- Hz Hw. apply issue_authorised in Hi as (effect&Hef&A).
  destruct (au_digest _ _ _ _ _ _ A) as [Hd Hne]. apply String.eqb_neq in Hne.
  unfold validateGating. rewrite Hid, (au_decision _ _ _ _ _ _ A), String.eqb_refl. cbn [negb].
  unfold mbind, M_bind, heap, gets, lift. rewrite Hd. cbn [wrap_err]. rewrite Hne, String.eqb_refl. cbn [negb].
  rewrite (au_effect _ _ _ _ _ _ A), Hne, String.eqb_refl, Hv. cbn [negb shared_verifier vf_VerifyDecision vf_VerifyIntent].
  rewrite (au_verified _ _ _ _ _ _ A), (GuardianIntents.au_authority _ _ _ _ _ _ A), (GuardianIntents.au_signed _ _ _ _ _ _ A).
  cbn [wrap_err negb]. rewrite (au_verdict _ _ _ _ _ _ A), String.eqb_refl. cbn [negb].
  unfold Executor.ext. destruct (ex_clock e (Executor.w_ext x)) as [x1 now]. cbn [snd] in Hz, Hw.
  assert (V : ValidateAt (Some i) now = Ok tt).
  { unfold ValidateAt, after, before, is_zero.
    replace (now <? ai_IssuedAt i)%Z with false by (symmetry; apply Z.ltb_ge; lia).
    replace (ai_ExpiresAt i =? zero_time)%Z with false by (symmetry; apply Z.eqb_neq; lia).
    by replace (now <? ai_ExpiresAt i)%Z with true by (symmetry; apply Z.ltb_lt; lia). }
  rewrite V. eexists _, effect. split; [done|]. split; [reflexivity|].
  intros tool Ht Hn. unfold resolveTool in Ht. rewrite (au_tool _ _ _ _ _ _ A) in Ht.
  apply res_bind_Ok in Ht as (t&_&Ht). apply String.eqb_neq in Hn. rewrite Hn in Ht. cbn [negb andb] in Ht.
  destruct (String.eqb_spec (executionIntentAllowedTool effect) t) as [Et|]; [|done].
  injection Ht as <-. by rewrite Et.
Qed.

(** * A deployment *)

Module Deployment.

Import (hints) Demo.

#[export] Instance no_structs : StructValues := {|
  as_GateRequest := fun _ => None; as_ContinuityCheckpoint := fun _ => None;
  as_EmergencyCapsule := fun _ => None; as_DevFallbackPosture := fun _ => None;
  as_ActivationExpectation := fun _ => None |}.

Definition key : Ed25519Signer := NewEd25519SignerFromKey [] "k1".

(** A receipt store that keeps a list; the collaborators' state is that list. *)
Definition receipt_store : ReceiptStore (list Receipt) := {|
  rs_Get := fun id l => (l, Ok (find (fun r => String.eqb (rc_DecisionID r) id) l));
  rs_Store := fun r l => ((l ++ [r])%list, Ok tt);
  rs_GetLastForSession := fun s l => (l, Ok (last (List.filter (fun r => String.eqb (rc_SessionID r) s) l)));
  rs_AppendCausal := None; rs_AppendCausalScoped := None; rs_PreflightCausalAppend := None;
  rs_PreflightCausalAppendScoped := None; rs_GetByDecisionIDForTenant := None;
  rs_NormalizeReceiptTimestamp := None |}.

(** A controller of the same state that consults no store. *)
Definition controller : Controller.Controller (list Receipt) := {|
  Controller.store := {| Controller.Latest := mret None;
    Controller.AppendCheckpoint := fun _ => fail "no store"; Controller.StoreActivation := fun _ => mret tt;
    Controller.GetActivation := fun _ => mret None; Controller.CloseActivation := fun _ _ => mret tt |};
  Controller.evidence := None; Controller.signer := None; Controller.clock := fun l => (l, 0%Z);
  Controller.wall := fun _ => 0%Z; Controller.defaultQuorum := 3; Controller.defaultMaxTTL := 0;
  Controller.requireHardwareBound := false; Controller.requireDistinctRoles := false;
  Controller.requireTransparency := false; Controller.requireDeadManActive := false;
  Controller.maxClockSkew := 0 |}.

(** One second after the epoch, inside the window of the intents issued below. *)
Definition executor : SafeExecutor (list Receipt) := {|
  ex_verifier := Some {| vf_VerifyDecision := ed_VerifyDecision key; vf_VerifyIntent := ed_VerifyIntent key |};
  ex_signer := Some (SignReceipt key);
  ex_driver := fun tool _ l => (l, Ok (OutText ("ran " +:+ tool)));
  ex_receiptStore := Some receipt_store; ex_artifactStore := None;
  ex_outboxStore := Some {| ob_Schedule := fun _ _ l => (l, Ok tt); ob_MarkDone := fun _ l => (l, Ok tt) |};
  ex_currentPhenotypeHash := ""; ex_AuditLog := None; ex_prohibitedTools := SetProhibitedTools ["rm_rf"];
  ex_meter := None; ex_outputSchemaRegistry := None;
  ex_safeDepGate := Some (Controller.Gate (Some controller) None);
  ex_clock := fun l => (l, 1000000000%Z) |}.

Definition start : Executor.World (list Receipt) :=
  {| Executor.w_ext := []; Executor.w_heap := demo_heap; Executor.w_trace := [] |}.
Definition anonymous : Request := {| rx_TenantID := Fail "no tenant"; rx_Correlation := None |}.

(** The Guardian decides a call and issues its intent. *)
Definition issued (tool : string) : res (DecisionRecord * AuthorizedExecutionIntent) :=
  let '(w, r) := Demo.evaluate Demo.guardian (Demo.call tool None) Demo.world in
  d ← r; i ← (IssueExecutionIntent Demo.guardian (Some d) demo_heap (Some effect_loc) w).2; Ok (d, i).

(** Decide, issue, execute; and execute once more. *)
Definition run (tool : string) (times : nat) : Executor.World (list Receipt) * res (Receipt * Artifact) :=
  match issued tool with
  | Fail err => (start, Fail err)
  | Ok (d, i) =>
      Nat.iter times (fun r => Executor.Execute executor anonymous (Some effect_loc) (Some d) (Some i) r.1)
        (start, Fail "not run")
  end.

Definition events (w : Executor.World (list Receipt)) : list string :=
  map (fun ev => match ev with
                 | EvSchedule _ => "schedule" | EvDispatch t _ => "dispatch " +:+ t
                 | EvReceipt _ => "receipt" | EvDone _ => "done" end) (Executor.w_trace w).

Lemma run_examples :
  events (run "read_file" 1).1 = ["schedule"; "dispatch read_file"; "receipt"; "done"] /\
  (run "read_file" 2).1 = (run "read_file" 1).1 /\ is_ok (run "read_file" 2).2 = true /\
  events (run "rm_rf" 1).1 = [].
Proof. vm_compute. split_and!; reflexivity. Qed.

(** The Ed25519 signer keeps the promise of the executor's interface. *)
#[export] Instance SignReceipt_keeps s : KeepsFields (SignReceipt s).
Proof.
  intros r r'. unfold SignReceipt, ReceiptSigningPayload, Sign.
  intros ([p r1]&(p'&_&[= _ <-])%res_bind_Ok&E)%res_bind_Ok. injection E as <-. reflexivity.
Qed.

(** The first run, as one call of the executor. *)
Lemma first_run :
  exists d i w' rc art, issued "read_file" = Ok (d, i) /\
    Executor.Execute executor anonymous (Some effect_loc) (Some d) (Some i) start = (w', Ok (rc, art)) /\
    events w' = ["schedule"; "dispatch read_file"; "receipt"; "done"].
Proof.
  pose proof run_examples as (R&_&_&_). unfold run in R.
  assert (K : is_ok (run "read_file" 1).2 = true) by (vm_compute; reflexivity). unfold run in K.
  destruct (issued "read_file") as [[d i]|err]; [|discriminate K]. cbn [Nat.iter nat_rect fst] in R, K.
  destruct (Executor.Execute _ _ _ _ _ start) as [w' [[rc art]|err]] eqn:E; [|discriminate K].
  exists d, i, w', rc, art. by rewrite E.
Qed.

Lemma honest : honest_signer executor.
Proof. intros r r' E. by apply SignReceipt_keeps in E. Qed.

Lemma execute_dispatch_authorised_witness :
  exists d i, Executor.authorised executor d i demo_heap effect_loc.
Proof.
  destruct first_run as (d&i&w'&rc&art&_&E&Ev).
  destruct (execute_dispatch_authorised executor anonymous (Some effect_loc) (Some d) (Some i) start w' _ E)
    as (evs&Et&[->|(d'&i'&_&l&_&_&_&_&_&_&[= <-]&_&A&_)]).
  - unfold events in Ev. rewrite Et in Ev. discriminate Ev.
  - exists d', i'. exact A.
Defined.

Lemma execute_success_receipted_witness :
  exists w' rc art, events w' = ["schedule"; "dispatch read_file"; "receipt"; "done"] /\
    rc_Verdict rc = "ALLOW" /\ rc_OutputHash rc = af_Digest art.
Proof.
  destruct first_run as (d&i&w'&rc&art&_&E&Ev). exists w', rc, art. split; [exact Ev|].
  destruct (execute_success_receipted executor anonymous (Some effect_loc) (Some d) (Some i) start w' rc art
    honest E) as (d'&_&[(Et&_)|(l&ef&i'&tool&s&p&_&_&_&_&F)]).
  - unfold events in Ev. rewrite Et in Ev. discriminate Ev.
  - unfold signed_fields in F. injection F as _ _ _ _ Ho _ _ Hv _ _ _. by split.
Defined.

Lemma issued_intent_accepted_witness :
  exists d i x', validateGating executor d (Some i) (Some effect_loc) start = (x', Ok i).
Proof.
  assert (K : is_ok (issued "read_file") = true) by (vm_compute; reflexivity).
  assert (T : match issued "read_file" with
    | Ok (d, i) => negb (blank (dr_ID d)) && (ai_IssuedAt i <=? 1000000000)%Z && (1000000000 <? ai_ExpiresAt i)%Z
    | Fail _ => false end = true) by (vm_compute; reflexivity).
  unfold issued in K, T.
  destruct (Demo.evaluate Demo.guardian (Demo.call "read_file" None) Demo.world) as [w [d|err]]; [|discriminate K].
  cbn [mbind res_bind] in K, T.
  destruct (IssueExecutionIntent Demo.guardian (Some d) demo_heap (Some effect_loc) w) as [w' [i|err]] eqn:Hi;
    [|discriminate K]. cbn [snd mbind res_bind] in T. boolean.
  destruct (issued_intent_accepted Demo.guardian executor d demo_heap effect_loc w w' i start) as (x'&ef&_&G&_);
    [exact Hi|done|reflexivity|reflexivity|vm_compute; discriminate|cbn; lia|].
  exists d, i, x'. exact G.
Defined.

Lemma receipt_id_injective_witness : trim_space " acme" = trim_space "acme" \/ collision.
Proof.
  destruct (receipt_id_injective " acme" "acme" "d1" "d1") as [[E _]|C]; [reflexivity..|by left|by right].
Defined.

Lemma unsigned_context_disarms_safedep_witness :
  exists d i, issued "read_file" = Ok (d, i) /\
    safeDep executor (d <| dr_InputContext := None |>) i
      (effect_of_request "eff-00" (initial_context Demo.guardian (Demo.call "read_file" None))).1 "read_file" start
    = (start, Ok (no_result <| gt_DispatchAllowed := true |>)).
Proof.
  assert (T : match issued "read_file" with
    | Ok (d, i) => is_ok (cloneAuthorizedExecutionIntent i) && negb (has_signed_binding i)
    | Fail _ => false end = true) by (vm_compute; reflexivity).
  destruct (issued "read_file") as [[d i]|err] eqn:Ei; [|discriminate T]. boolean.
  destruct (cloneAuthorizedExecutionIntent i) as [i'|err] eqn:Ec; [|discriminate].
  exists d, i. split; [done|].
  apply (unsigned_context_disarms_safedep executor key controller d i i' (Some effect_loc) start);
    [reflexivity|reflexivity|done|done].
Defined.

End Deployment.
