(* ===== verification/GovernedPolicy.v ===== *)
(** The Guardian and the policy reconciler together: a Guardian that decides under the snapshots a reconciler
    installs ([core/pkg/guardian] with [core/pkg/policy/reconcile]) allows nothing that authorised policy does
    not allow. *)
From S2P Require Import Prelude GoLib GoFmt Utf8 Jcs Contracts Signing KillSwitch Identity Egress Temporal Trust Prg AuditLog SafeDep PolicyScopes Cpi Reconcile PolicyTrust Guardian GuardianDemo GuardianProps GuardianGates.

Local Open Scope string_scope.

Section Governed.
Context `{Cel} {GExt : Type}.
Notation graph := (gmap string RequirementSet).
Notation Installed := (Reconcile.EffectivePolicySnapshot graph (PolicyDecisionPoint GExt)).

(** The fields of an installed snapshot the Guardian reads. *)
Definition guardian_view (sn : Installed) : Guardian.EffectivePolicySnapshot GExt := {|
  sn_Status := vs_Status (ep_Validation sn); sn_PolicyHash := ep_PolicyHash sn; sn_PolicyEpoch := ep_PolicyEpoch sn;
  sn_Graph := ep_Graph sn; sn_PDP := ep_PDP sn |}.

(** The Guardian's snapshot store is the reconciler's, wherever it is in the state of the collaborators. *)
Definition reads_snapshots {St} `{SnapshotStore graph (PolicyDecisionPoint GExt) St} (store : GExt -> St) (g : Guardian GExt) : Prop :=
  g_snapshotStore g = Some (fun scope x => (x, guardian_view <$> store_get scope (store x))).

Context `{Hash} `{S : Signer} `{!SignerLaws S} `{Runtime} `{Ed25519} {Ext St : Type}
  `{Laws : SnapshotStoreLaws graph (PolicyDecisionPoint GExt) St}.

(** The store is written by the reconciler alone. *)
Definition only_reconciled (r : Reconciler graph (PolicyDecisionPoint GExt) Ext) (s : St) : Prop :=
  exists scopes w, view (Reconcile.w_store w) = ∅ /\ s = Reconcile.w_store (reconcile_each r scopes w).1.

(** C4. An ALLOW is given under authorised policy.  The Guardian reads its snapshots from a store that only a
    reconciler writes, one that requires signed heads and verifies them with a trusted key, and verifies emergency
    capsules with hardware binding.  Then behind every ALLOW there is an active snapshot, the one the store has for the
    request's own scope when the run begins, installed from a head
    that the trusted key signed and bytes with the hash it names, under an emergency capsule with its quorum
    if it has one; and in this run that snapshot's requirement graph, or the built-in one if the snapshot has
    none, has a rule for the request that is satisfied on the request's own input, or its authoritative decision
    point, or the built-in one, allowed the request. *)
Theorem allow_under_authorised_policy (g : Guardian GExt) (store : GExt -> St)
    (r : Reconciler graph (PolicyDecisionPoint GExt) Ext) (key : string) (v : SafeDepEmergencyVerifier) (wall : Ext -> time)
    override req w w' d :
  reads_snapshots store g -> (forall x, only_reconciled r (store x)) ->
  rr_requireSignature r = true -> rr_verifier r = Some (fun head => lift (VerifyPolicyHead key head)) ->
  rr_emergencyVerifier r = Some (VerifyEmergencyCapsule wall v) -> sv_RequireHardwareBound v = true ->
  EvaluateDecision g override req w = (w', Ok d) -> dr_Verdict d = VerdictAllow ->
  let scope := policyScopeFromContext g (rq_Context req) in
  exists e eid sn head bundle,
    frame kernel_keys (initial_context g req) e /\ policy_allows g req w w' e eid /\
    ec_ActiveSnapshot e = Some (guardian_view sn) /\ ec_ActiveGraph e = default (g_prg g) (ep_Graph sn) /\
    ec_ActivePDP e = match ep_PDP sn with Some p => Some p | None => g_pdp g end /\
    store_get scope (store (w_ext w)) = Some sn /\
    vs_Status (ep_Validation sn) = StatusActive /\ authorised_by key v (Key (Normalize scope)) sn head bundle.
Proof.
  intros Rs Ro Rq Rv Re Hb Ev Al.
  destruct (allow_needs_policy g override req w w' d Ev Al) as (e0 & w0 & e & eid & _ & _ & Fr & Ad & Po & _).
  unfold adopted in Ad. rewrite Rs in Ad. destruct Ad as (s & Hs & Act & E1 & E2 & E3). cbn [snd] in Hs.
  apply fmap_Some in Hs as (sn & Hg & ->). pose proof Hg as Sto. rewrite get_view in Hg.
  destruct (Ro (w_ext w)) as (scopes & rw & E0 & Est). rewrite Est in Hg.
  destruct (active_authorised r key v wall scopes rw _ sn Rq Rv Re Hb E0 Hg Act) as (head & bundle & Au).
  by exists e, eid, sn, head, bundle.
Qed.
End Governed.

(** * An instance *)

Module GovernedPolicyDemo.
Import (hints) Demo.

Definition Memory := AtomicSnapshotStore (Graph := gmap string RequirementSet) (PDP := PolicyDecisionPoint Z).

Definition signed : PolicyHead := {|
  hd_Scope := DefaultScope; hd_PolicyEpoch := 3; hd_PolicyHash := HashBytes (to_bytes "rules"); hd_BundleRef := "";
  hd_P0CeilingsHash := ""; hd_P1BundleHash := ""; hd_P2OverlayHashes := []; hd_ProofRef := ""; hd_Signature := SafeDepDemo.sig;
  hd_SourceRefs := []; hd_EmergencyCapsule := None |}.
Definition compiled : Reconcile.EffectivePolicySnapshot (gmap string RequirementSet) (PolicyDecisionPoint Z) := {|
  ep_TenantID := ""; ep_WorkspaceID := ""; ep_PolicyEpoch := 0; ep_PolicyHash := ""; ep_PolicyHeadHash := "";
  ep_P0CeilingsHash := ""; ep_P1BundleHash := ""; ep_P2OverlayHashes := []; ep_EmergencyCapsuleHash := "";
  ep_EmergencyApertureID := ""; ep_EmergencyExpiresAt := zero_time; ep_SourceRefs := [];
  ep_Validation := {| vs_Status := ""; vs_Reason := ""; vs_Hash := "" |}; ep_LastVerifiedAt := zero_time;
  ep_Graph := Some Demo.rules; ep_PDP := None; ep_PolicyLayers := [] |}.
Definition reconciler : Reconciler (gmap string RequirementSet) (PolicyDecisionPoint Z) unit := {|
  rr_source := {| ps_ListScopes := mret [DefaultScope]; ps_Head := fun _ => mret signed;
                  ps_Load := fun _ _ => mret (to_bytes "rules") |};
  rr_compiler := fun _ _ => mret (Some compiled);
  rr_verifier := Some (fun head => lift (VerifyPolicyHead SafeDepDemo.key head));
  rr_emergencyVerifier := Some (VerifyEmergencyCapsule (fun _ => 10%Z) PolicyTrustDemo.verifier);
  rr_requireSignature := true; rr_keepLastKnownGood := false; rr_lkgMaxAge := 0; rr_now := fun x => (x, 10%Z) |}.
Definition start : Reconcile.World unit Memory := {| Reconcile.w_ext := tt; Reconcile.w_store := ∅; w_status := ∅ |}.
Definition settled : Memory := Reconcile.w_store (reconcile_each reconciler [DefaultScope] start).1.

(** No policy is built in: everything is decided by the snapshot. *)
Definition governed : Guardian Z :=
  Demo.guardian <| g_prg := ∅ |>
    <| g_snapshotStore := Some (fun scope x => (x, guardian_view <$> store_get (St := Memory) scope settled)) |>.

Example decided_by_snapshot :
  map (fun tool => (Demo.verdict_of (Demo.evaluate governed (Demo.call tool None) Demo.world)).1) ["read_file"; "rm_rf"; "other"]
  = [Ok ("ALLOW", ""); Ok ("DENY", "MISSING_REQUIREMENT"); Ok ("DENY", "NO_POLICY_DEFINED")].
Proof. vm_compute. reflexivity. Qed.

Lemma settled_reconciled : only_reconciled (St := Memory) reconciler settled.
Proof. exists [DefaultScope], start. split; reflexivity. Qed.

Lemma allow_under_authorised_policy_witness :
  exists w' (e : EvaluationContext Z) eid sn head bundle,
    policy_allows governed (Demo.call "read_file" None) Demo.world w' e eid /\ ec_ActiveSnapshot e = Some (guardian_view sn) /\
    authorised_by SafeDepDemo.key PolicyTrustDemo.verifier
      (Key (Normalize (policyScopeFromContext governed None))) sn head bundle.
Proof.
  assert ((Demo.verdict_of (Demo.evaluate governed (Demo.call "read_file" None) Demo.world)).1 = Ok ("ALLOW", "")) as Hv
    by (vm_compute; reflexivity).
  destruct (Demo.evaluate governed (Demo.call "read_file" None) Demo.world) as [w' [d|err]] eqn:E; [|discriminate Hv].
  unfold Demo.evaluate in E.
  destruct (allow_under_authorised_policy (St := Memory) governed (fun _ => settled) reconciler SafeDepDemo.key
              PolicyTrustDemo.verifier (fun _ => 10%Z) false (Demo.call "read_file" None) Demo.world w' d)
    as (e & eid & sn & head & bundle & _ & Hp & Hs & _ & _ & _ & _ & Au);
    [reflexivity|intros _; exact settled_reconciled|reflexivity|reflexivity|reflexivity|reflexivity|exact E|by injection Hv|].
  exists w', e, eid, sn, head, bundle. by split_and!.
Defined.
End GovernedPolicyDemo.
