(* ===== verification/GovernedCapability.v ===== *)
(** The Guardian and the capability registry together: what stands behind an ALLOW of a request that names a
    capability ([core/pkg/guardian/capability.go] with [core/pkg/capability]). *)
From S2P Require Import Prelude GoLib GoFmt Utf8 Jcs Contracts Signing Capability KillSwitch Identity Egress Temporal Trust Prg AuditLog SafeDep PolicyScopes Guardian GuardianDemo GuardianProps GuardianGates.

Local Open Scope string_scope.

Section Governed.
Context `{Hash} `{Ed25519} `{S : Signer} `{!SignerLaws S} `{Cel} `{Runtime} {Ext : Type}.
Notation EC := (EvaluationContext Ext).

(** A verifier over an in-memory store, wherever that store and the clock are in the state of the collaborators;
    [decode] is [capability.DecodeToken].  The theorem below asks that [get] reads what [put] wrote. *)
Definition token_verifier (decode : any -> res Token) (pubHex : string) (registry : Registry) (clock : Ext -> time)
    (get : Ext -> InMemoryTokenStore) (put : InMemoryTokenStore -> Ext -> Ext) : CapabilityVerifier (Ext := Ext) := {|
  cv_Decode := decode;
  cv_Verify := fun req x => let '(s, r) := VerifyToken pubHex registry req (clock x) (get x) in (put s x, r) |}.

(** The pin a request carries, if it is one, is the registered hash. *)
Definition pinned (c : ctx) (entry : Entry) : Prop :=
  forall raw, ctx_lookup c "capability_manifest_hash" = Some raw -> raw = AString "" \/ raw = AString (en_Hash entry).

(** The effect can be taken back: nothing is written, or there is a plan for it, within the device, that was still
    guaranteed at a clock reading between [w] and [w']. *)
Definition can_be_undone (resolve : string -> Ext -> Ext * option RollbackPlanEntry) (m : Manifest) (w w' : World Ext) : Prop :=
  mf_EffectClass m = EffectReadOnly \/
  (mf_EffectClass m <> EffectIrreversible /\ mf_Reversibility m <> ReversibilityNone /\
   mf_DataBoundary m <> BoundaryOrg /\ mf_DataBoundary m <> BoundaryExternal /\
   exists x plan, (resolve (rb_PlanRef (mf_Rollback m)) x).2 = Some plan /\
     AppliesToCapability (mf_CapabilityID m) (pe_Plan plan) = true /\
     during w w' (fun t => PlanExpired t (pe_Plan plan) = false)).

(** The request the Guardian makes of the verifier. *)
Definition verify_request (c : ctx) (entry : Entry) (presented : Token) : VerifyRequest := {|
  vr_Presented := Some presented; vr_TaskID := string_or_empty (ctx_get c "task_id");
  vr_CapabilityID := mf_CapabilityID (en_Manifest entry); vr_ManifestHash := en_Hash entry;
  vr_Args := match ctx_get c "arguments" with AMap l => Some (list_to_map l : obj) | _ => None end |}.

Section Gate.
Context (g : Guardian Ext).

Lemma short_circuit_not_inl (e : EC) v code reason act w w' (e' : EC) :
  capabilityShortCircuit g e v code reason act w <> (w', Ok (inl e')).
Proof. apply stop_not_inl. Qed.
Lemma rollback_invalid_not_inl (e : EC) reason act w w' (e' : EC) : rollback_invalid g e reason act w <> (w', Ok (inl e')).
Proof. apply stop_not_inl. Qed.
Lemma token_invalid_not_inl (e : EC) reason w w' (e' : EC) : token_invalid g e reason w <> (w', Ok (inl e')).
Proof. apply stop_not_inl. Qed.

Ltac refused := by intros ?%short_circuit_not_inl || by intros ?%rollback_invalid_not_inl || by intros ?%token_invalid_not_inl.

(** The plans are only read. *)
Definition plans_read_only : Prop :=
  forall resolve ref x, g_rollbackPlans g = Some resolve -> (resolve ref x).1 = x.

Lemma reversibility_pass m e w w' (e' : EC) :
  plans_read_only -> applyReversibilityPolicy g m e w = (w', Ok (inl e')) ->
  can_be_undone (default (fun _ x => (x, None)) (g_rollbackPlans g)) m w w' /\ w_ext w' = w_ext w.
Proof.
  intros Ro. unfold applyReversibilityPolicy, can_be_undone. cbv zeta.
  destruct (String.eqb_spec (mf_EffectClass m) EffectReadOnly); [intros [= <- _]; split; [by left|done]|].
  destruct (String.eqb_spec (mf_EffectClass m) EffectIrreversible); [refused|].
  destruct (String.eqb_spec (mf_Reversibility m) ReversibilityNone); [refused|].
  destruct (negb _ || _); [refused|]. destruct (g_rollbackPlans g) as [resolve|] eqn:Gp; [|refused].
  intros (w1 & plan & Hx & E)%M_bind_Ok.
  pose proof (leaves_ext CClock _ _ _ _ Hx) as C1. cbn in C1.
  apply ext_run in Hx. pose proof (Ro resolve (rb_PlanRef (mf_Rollback m)) (w_ext w) Gp) as X1. rewrite Hx in X1. cbn [fst] in X1.
  destruct plan as [p|]; cbn [mbind option_bind] in E; [|by apply rollback_invalid_not_inl in E].
  destruct (AppliesToCapability (mf_CapabilityID m) (pe_Plan p)) eqn:Ap; [|by apply rollback_invalid_not_inl in E].
  apply M_bind_Ok in E as (w2 & t & [= <- <-] & E).
  destruct (PlanExpired (clk (w_clock w1)) (pe_Plan p)) eqn:Pe; [by apply rollback_invalid_not_inl in E|].
  destruct (String.eqb_spec (mf_DataBoundary m) BoundaryOrg); [by apply short_circuit_not_inl in E|].
  destruct (String.eqb_spec (mf_DataBoundary m) BoundaryExternal); [by apply short_circuit_not_inl in E|].
  injection E as <- _. split; [right|exact X1]. split_and!; try done. exists (w_ext w), p.
  split; [exact (f_equal snd Hx)|]. split; [done|]. exists (w_clock w1). split; [cbn; lia|done].
Qed.

Lemma token_pass entry raw e w w' (e' : EC) :
  token_gate g entry (Some raw) e w = (w', Ok (inl e')) ->
  exists v presented token, g_capabilityVerifier g = Some v /\ cv_Decode v raw = Ok presented /\
    cv_Verify v (verify_request (context e) entry presented) (w_ext w) = (w_ext w', Ok token).
Proof.
  unfold token_gate. destruct (g_capabilityVerifier g) as [v|]; [|refused]. cbv zeta.
  destruct (cv_Decode v raw) as [presented|] eqn:Ed; [|refused].
  intros (w1 & r & Hx%ext_run & E)%M_bind_Ok. destruct r as [token|]; [|by apply token_invalid_not_inl in E].
  injection E as <- _. by exists v, presented, token.
Qed.

(** A request that names a capability passes the gate only with the facts of the registry behind it. *)
Lemma capability_pass registry raw e w w' (e' : EC) :
  plans_read_only ->
  g_capabilityRegistry g = Some registry -> ctx_lookup (context e) "capability_id" = Some raw ->
  resolveCapabilityGate g e w = (w', Ok (inl e')) ->
  exists id entry, raw = AString id /\ Resolve id registry = Some entry /\ pinned (context e) entry /\
    can_be_undone (default (fun _ x => (x, None)) (g_rollbackPlans g)) (en_Manifest entry) w w' /\
    forall token, ctx_lookup (context e) "capability_token" = Some token ->
      exists v presented stored, g_capabilityVerifier g = Some v /\ cv_Decode v token = Ok presented /\
        cv_Verify v (verify_request (context e) entry presented) (w_ext w) = (w_ext w', Ok stored).
Proof.
  intros Ro Hr Hid. unfold resolveCapabilityGate. rewrite Hr.
  destruct (context e) as [m|] eqn:Hc; [|done]. cbv zeta. rewrite <- Hc in *.
  set (e1 := e <| ec_Request := _ |>).
  assert (K : forall k, "capability_token" <> k -> ctx_lookup (context e1) k = ctx_lookup (context e) k)
    by (intros k Hk; exact (ctx_lookup_delete _ _ _ Hk)).
  rewrite (K "capability_id"), Hid by done. cbn beta iota.
  destruct (as_string raw) as [id|] eqn:Es; cbn [mbind option_bind]; [|refused].
  destruct (String.eqb id ""); [refused|]. destruct (Resolve id registry) as [entry|] eqn:Er; [|refused].
  rewrite (K "capability_manifest_hash") by done.
  match goal with |- context [if ?b then _ else _] => destruct b eqn:Hd; [refused|] end.
  intros (e2 & w2 & Hrev & Htok)%then_gate_inl.
  assert (Ra : raw = AString id) by (destruct raw; try done; by injection Es as ->).
  destruct (reversibility_pass _ _ _ _ _ Ro Hrev) as [Un X2].
  exists id, entry. split; [exact Ra|]. split; [done|]. split; [|split].
  - intros pin Hp. rewrite Hp in Hd. destruct pin; try done. cbn in Hd.
    destruct (String.eqb_spec s ""); [left; by subst|]. cbn in Hd. right.
    destruct (String.eqb_spec s (en_Hash entry)); [by subst|done].
  - pose proof (token_leaves g CClock entry _ _ _ _ _ Htok) as C2. cbn in C2.
    destruct Un as [?|(N1 & N2 & B1 & B2 & x & p & Pl & Ap & Du)]; [by left|right]. split_and!; try done.
    exists x, p. split_and!; [done|done|]. by eapply during_within; [| |exact Du].
  - intros token Ht. rewrite Ht in Htok. apply token_pass in Htok as (v & presented & stored & Hv & Hde & Hver).
    exists v, presented, stored. split; [done|]. split; [done|]. rewrite <- Hver, X2. f_equal.
    assert (Fr : frame early_keys e1 e2).
    { apply ev_frame. etrans; [apply (enrich_evolves entry); reflexivity|].
      exact (reversibility_early g (en_Manifest entry) _ _ _ _ Hrev). }
    unfold verify_request, ctx_get. destruct Fr as [_ Fr].
    rewrite (Fr "task_id"), (Fr "arguments") by (apply (bool_decide_unpack _); by vm_compute). by rewrite !K by done.
Qed.

(** The run of [req] from [w] enters the capability gate in [w2], leaves it in [w3] and passes the rest of the chain. *)
Definition through_capability_gate (override : bool) (req : DecisionRequest) (w w2 w3 : World Ext) : Prop :=
  exists e2 e3 e0 w0, passes [snapshot_gate g; safedep_gate g] (initial_context g req) w e2 w2 /\
    resolveCapabilityGate g e2 w2 = (w3, Ok (inl e3)) /\
    passes ([history_gate; session_risk_gate g] ++ boundary_chain g override) e3 w3 e0 w0.

Lemma capability_behind_allow registry raw override req w w' d :
  plans_read_only ->
  g_capabilityRegistry g = Some registry -> EvaluateDecision g override req w = (w', Ok d) -> dr_Verdict d = VerdictAllow ->
  ctx_lookup (rq_Context req) "capability_id" = Some raw ->
  exists w2 w3 id entry, through_capability_gate override req w w2 w3 /\
    raw = AString id /\ Resolve id registry = Some entry /\ pinned (rq_Context req) entry /\
    can_be_undone (default (fun _ x => (x, None)) (g_rollbackPlans g)) (en_Manifest entry) w2 w3 /\
    forall token, ctx_lookup (rq_Context req) "capability_token" = Some token ->
      exists v presented stored, g_capabilityVerifier g = Some v /\ cv_Decode v token = Ok presented /\
        cv_Verify v (verify_request (rq_Context req) entry presented) (w_ext w2) = (w_ext w3, Ok stored).
Proof.
  intros Ro Gr Ev Al Hid.
  destruct (allow_needs_policy g override req w w' d Ev Al) as (e0 & w0 & e & eid & Pa & _).
  inversion Pa as [|a1 l1 ? ? e1 w1 ? ? A1 P1]; subst. inversion P1 as [|a2 l2 ? ? e2 w2 ? ? A2 P2]; subst.
  inversion P2 as [|a3 l3 ? ? e3 w3 ? ? A3 P3]; subst. clear Pa P1 P2.
  assert (Fr : frame safedep_keys (initial_context g req) e2).
  { etrans; [exact (snapshot_frame g safedep_keys _ _ _ _ A1)|]. apply ev_frame. exact (safedep_evolves g _ _ _ _ A2). }
  assert (K : forall k, bool_decide (k ∉ safedep_keys) = true -> ctx_lookup (context e2) k = ctx_lookup (rq_Context req) k)
    by (intros k Hk; apply Fr; by apply bool_decide_eq_true in Hk).
  destruct (capability_pass registry raw e2 w2 w3 e3 Ro Gr) as (id & entry & Ra & Er & Pin & Un & Tok);
    [by rewrite K by reflexivity|exact A3|].
  exists w2, w3, id, entry. split.
  { exists e2, e3, e0, w0. split; [|by split]. econstructor; [exact A1|]. econstructor; [exact A2|constructor]. }
  unfold pinned, verify_request, ctx_get in *. rewrite K in Pin by reflexivity.
  rewrite (K "capability_token"), (K "task_id"), (K "arguments") in Tok by reflexivity. by repeat (split; [assumption|]).
Qed.
End Gate.

Lemma undone_grounded dir registry files plans m w w' :
  LoadRollbackDir dir (Some registry) files = Ok plans -> ValidateManifest m = Ok tt ->
  can_be_undone (fun ref x => (x, ResolvePlan ref plans)) m w w' ->
  mf_EffectClass m = EffectReadOnly \/
  (mf_EffectClass m <> EffectIrreversible /\ mf_Reversibility m <> ReversibilityNone /\
   (mf_DataBoundary m = BoundaryLocalOnly \/ mf_DataBoundary m = BoundaryDevice) /\
   exists plan, ResolvePlan (rb_PlanRef (mf_Rollback m)) plans = Some plan /\
     rp_CapabilityID (pe_Plan plan) = mf_CapabilityID m /\ during w w' (fun t => PlanExpired t (pe_Plan plan) = false) /\
     rp_Steps (pe_Plan plan) <> [] /\ grounded registry (rp_Steps (pe_Plan plan))).
Proof.
  intros L V [R|(N1 & N2 & B1 & B2 & x & plan & Pl & Ap & Ex)]; [by left|right].
  split; [done|]. split; [done|]. split.
  { destruct (valid_boundary m V) as [?|[?|[?|?]]]; [by left|by right|done|done]. }
  cbn [snd] in Pl. destruct (rollback_plans_grounded _ _ _ _ _ _ L Pl) as [Ne Gd].
  exists plan. split_and!; try done. by apply String.eqb_eq in Ap.
Qed.

(** A successful verification: the stored token it checked, and the use it took from the store. *)
Lemma verify_token_Ok (signer : Ed25519Signer) (registry : Registry) (req : VerifyRequest) (presented : Token) (now : time)
    (s s' : InMemoryTokenStore) (stored : Token) :
  vr_Presented req = Some presented ->
  VerifyToken (PublicKey signer) registry req now s = (s', Ok stored) ->
  use_ok signer registry {| us_Request := req; us_Now := now; us_Stored := stored |} /\
  ts_tokens s !! tk_TokenID presented = Some stored /\
  uses (tk_TokenID presented) s' = wrap64 (uses (tk_TokenID presented) s + 1) /\
  ConsumeUse (tk_TokenID presented) s = (s', Ok (uses (tk_TokenID presented) s')).
Proof.
  intros Hp (s1 & t & [Hc ->]%lift_Ok & (s2 & n & Hn & [= <- <-])%M_bind_Ok)%M_bind_Ok.
  apply check_token_Ok in Hc as [U (t' & Ht & Hs)]. rewrite Hp in Ht. injection Ht as <-. rewrite Hp in Hn. cbn in Hn.
  destruct (consume_cases _ _ _ _ Hn) as [(_ & [e He] & _)|(t0 & _ & _ & [= ->] & Us & _)]; [done|].
  assert (Eu : uses (tk_TokenID presented) s2 = wrap64 (uses (tk_TokenID presented) s + 1))
    by (unfold uses at 1; by rewrite Us, lookup_insert_eq).
  split_and!; [exact U|exact Hs|exact Eu|by rewrite Eu].
Qed.

(** C6. An ALLOW of a request that names a capability is within the grant.  The Guardian has a registry and rollback
    plans loaded from their directories and a token verifier with the authority's key, whose token store is a part of
    the collaborators' state ([get] reads what [put] wrote).  Then the capability is registered with a valid manifest,
    to which the request is pinned if it carries a pin; the effect is read-only, or it stays on the device, is
    reversible and has a plan for this capability whose steps are registered capabilities and that was in its
    guarantee when the capability gate read the clock.  And if the request carries a token, then between the moment
    the run entered the capability gate and the moment it left it, the token was verified for this task, capability
    and arguments against its stored copy, and exactly one more of its uses is on record in the store the gate
    leaves behind. *)
Theorem allow_within_capability (g : Guardian Ext) (signer : Ed25519Signer) (registry : Registry) (plans : RollbackPlanRegistry)
    (decode : any -> res Token) (clock : Ext -> time) (get : Ext -> InMemoryTokenStore) (put : InMemoryTokenStore -> Ext -> Ext)
    dir files dir' files' override req w w' d raw :
  LoadDir dir files = Ok registry -> LoadRollbackDir dir' (Some registry) files' = Ok plans ->
  g_capabilityRegistry g = Some registry -> g_rollbackPlans g = Some (fun ref x => (x, ResolvePlan ref plans)) ->
  g_capabilityVerifier g = Some (token_verifier decode (PublicKey signer) registry clock get put) ->
  (forall s x, get (put s x) = s) ->
  EvaluateDecision g override req w = (w', Ok d) -> dr_Verdict d = VerdictAllow ->
  ctx_lookup (rq_Context req) "capability_id" = Some raw ->
  exists w2 w3 id entry, through_capability_gate g override req w w2 w3 /\
    raw = AString id /\ Resolve id registry = Some entry /\ mf_CapabilityID (en_Manifest entry) = id /\
    ValidateManifest (en_Manifest entry) = Ok tt /\ pinned (rq_Context req) entry /\
    (mf_EffectClass (en_Manifest entry) = EffectReadOnly \/
     (mf_EffectClass (en_Manifest entry) <> EffectIrreversible /\ mf_Reversibility (en_Manifest entry) <> ReversibilityNone /\
      (mf_DataBoundary (en_Manifest entry) = BoundaryLocalOnly \/ mf_DataBoundary (en_Manifest entry) = BoundaryDevice) /\
      exists plan, ResolvePlan (rb_PlanRef (mf_Rollback (en_Manifest entry))) plans = Some plan /\
        rp_CapabilityID (pe_Plan plan) = id /\ during w2 w3 (fun t => PlanExpired t (pe_Plan plan) = false) /\
        rp_Steps (pe_Plan plan) <> [] /\ grounded registry (rp_Steps (pe_Plan plan)))) /\
    (forall token, ctx_lookup (rq_Context req) "capability_token" = Some token ->
       exists presented stored,
         let r := verify_request (rq_Context req) entry presented in
         let tid := tk_TokenID presented in
         let before := get (w_ext w2) in
         let after := get (w_ext w3) in
         decode token = Ok presented /\ ts_tokens before !! tid = Some stored /\
         use_ok signer registry {| us_Request := r; us_Now := clock (w_ext w2); us_Stored := stored |} /\
         uses tid after = wrap64 (uses tid before + 1) /\ ConsumeUse tid before = (after, Ok (uses tid after))).
Proof.
  intros Ld Lp Gr Gp Gv Law Ev Al Hid.
  assert (Ro : plans_read_only g) by (intros resolve ref x; rewrite Gp; by intros [= <-]).
  destruct (capability_behind_allow g registry raw override req w w' d Ro Gr Ev Al Hid)
    as (w2 & w3 & id & entry & Run & -> & Er & Pin & Un & Tok).
  assert (E : load_files files ∅ = Ok registry) by (by destruct files).
  apply load_files_Ok in E as (R & _ & _); [|by intros ? ? ?]. destruct (R _ _ Er) as (Hi & V & _).
  exists w2, w3, id, entry. split_and!; [done|done|done|done|done|done| |].
  - rewrite Gp in Un. destruct (undone_grounded _ _ _ _ _ _ _ Lp V Un) as [?|(N1 & N2 & B & plan & Pl & Ap & Rest)]; [by left|right].
    split_and!; [done|done|done|]. exists plan. split; [done|]. by rewrite <- Hi.
  - intros token Ht. destruct (Tok token Ht) as (v & presented & stored & Hv & Hd & Hver).
    rewrite Gv in Hv. injection Hv as <-. cbn [token_verifier cv_Decode cv_Verify] in Hd, Hver.
    destruct (VerifyToken _ _ _ _ _) as [s' r] eqn:Evr. injection Hver as Hx ->.
    apply (verify_token_Ok _ _ _ presented) in Evr as (U & St & Us & C); [|done].
    exists presented, stored. cbv zeta. rewrite <- Hx, Law. by split_and!.
Qed.
End Governed.

(** * An instance *)

Module GovernedCapabilityDemo.
Import CapabilityDemo.
#[local] Existing Instance CapabilityDemo.toy_hash.
#[local] Existing Instance toy_ed25519.
#[local] Existing Instance toy_ed25519_laws.
#[local] Instance authority : Signer := ed25519_signer (NewEd25519SignerFromKey [] "k1").
#[local] Instance authority_ok : SignerLaws authority := ed25519_laws [] "k1".
#[local] Existing Instance Demo.cel.
#[local] Existing Instance Demo.runtime.

(** The plan the write capability refers to undoes it by the capability itself. *)
Definition write_file : Manifest := {|
  mf_SchemaVersion := SchemaVersion; mf_CapabilityID := "helm.cap.fs.write"; mf_Name := "Write"; mf_Version := "1.0.0";
  mf_Description := ""; mf_Protocol := "mcp";
  mf_Binding := {| bd_Kind := "mcp_tool"; bd_Ref := "fs/write"; bd_ParametersSchema := ∅ |};
  mf_EffectClass := "write_local"; mf_Reversibility := "exact_undo"; mf_DataBoundary := BoundaryDevice; mf_RiskScore := 20;
  mf_RequiredPermitLevel := "none"; mf_Rollback := {| rb_Required := true; rb_PlanRef := "undo" |};
  mf_Receipts := {| rq_Required := true; rq_SchemaRefs := [] |};
  mf_MemoryAccess := {| ma_UserDomain := "none"; ma_AgentDomain := "none"; ma_CrossDomainRead := false |};
  mf_MinModelTier := ""; mf_Metadata := {| md_Homepage := ""; md_License := ""; md_SourcePackHash := ""; md_CertifiedBy := ""; md_CertifiedAt := "" |} |}.
Definition undo : RollbackPlan := {|
  rp_SchemaVersion := RollbackPlanSchemaVersion; rp_PlanID := "undo"; rp_Strategy := "exact_undo"; rp_CapabilityID := "helm.cap.fs.write";
  rp_EffectReceiptRef := ""; rp_Method := "receipt_pairing"; rp_EvidenceRefs := []; rp_GuaranteeExpiry := None;
  rp_Steps := [{| rs_Order := 1; rs_ActionRef := "helm.cap.fs.write"; rs_Description := "restore"; rs_ParametersTemplate := ∅ |}] |}.

Definition value {A} (r : res (gmap string A)) : gmap string A := match r with Ok a => a | Fail _ => ∅ end.
Definition caps : list (File Manifest) := [("read.json", Ok (Ok read_file)); ("write.json", Ok (Ok write_file))].
Definition reg : Registry := Eval vm_compute in value (LoadDir "caps" caps).
Definition undos : list (File RollbackPlan) := [("undo.json", Ok (Ok undo))].
Definition plans : RollbackPlanRegistry := Eval vm_compute in value (LoadRollbackDir "plans" (Some reg) undos).

(** The state of the collaborators is the token store. *)
Definition decode (_ : any) : res Token := Ok (token 2).
Definition guarded : Guardian InMemoryTokenStore := {|
  g_prg := Demo.rules; g_registry := fun _ x => (x, Fail "no artifact"); g_tracker := None;
  g_envFprint := "sha256:env"; g_gateRosterHash := "sha256:roster"; g_pdp := None; g_snapshotStore := None;
  g_snapshotScope := DefaultScope; g_complianceChecker := None; g_capabilityRegistry := Some reg;
  g_capabilityVerifier := Some (token_verifier decode (PublicKey signer) reg (fun _ => (2 * second)%Z) id (fun s _ => s));
  g_rollbackPlans := Some (fun ref x => (x, ResolvePlan ref plans)); g_scopedStopReader := None; g_threatScanner := None;
  g_semanticEscalationThresholdBP := 0; g_scorerConfig := DefaultScorerConfig; g_privilegeResolver := None;
  g_sessionRiskMemory := None; g_warmLeaseMgr := None; g_safeDepController := None; g_assumptionObserver := None |}.
Definition world : World InMemoryTokenStore := {|
  w_freeze := None; w_kill := None; w_context := None; w_isolation := None; w_egress := None;
  w_temporal := None; w_delegation := None; w_scores := None; w_audit := Some []; w_revocationList := ∅;
  w_prgCache := ∅; w_clock := 0; w_rng := 0; w_ext := {| ts_tokens := {[tok := token 2]}; ts_uses := ∅ |} |}.

Definition call (cap task : string) : DecisionRequest :=
  Demo.call "read_file" (Some {["capability_id" := AString cap; "capability_token" := ANil; "task_id" := AString task]}).
Definition verdict (req : DecisionRequest) : res (string * string) * Z :=
  let '(w, r) := EvaluateDecision guarded false req world in (d ← r; Ok (dr_Verdict d, dr_ReasonCode d), uses tok (w_ext w)).
Definition plain (cap : string) : DecisionRequest := Demo.call "read_file" (Some {["capability_id" := AString cap]}).

(** With its token; for another task; another capability; without a token; unregistered. *)
Example governed_verdicts :
  map verdict [call "helm.cap.fs.read" "task-1"; call "helm.cap.fs.read" "task-2"; call "helm.cap.fs.write" "task-1";
               plain "helm.cap.fs.write"; plain "helm.cap.fs.rm"]
  = [(Ok ("ALLOW", ""), 1%Z); (Ok ("DENY", "CAPABILITY_TOKEN_INVALID"), 0%Z); (Ok ("DENY", "CAPABILITY_TOKEN_INVALID"), 0%Z);
     (Ok ("ALLOW", ""), 0%Z); (Ok ("ESCALATE", "CAPABILITY_UNKNOWN"), 0%Z)].
Proof. vm_compute. reflexivity. Qed.

Lemma allow_within_capability_witness :
  exists w2 w3 entry stored,
    through_capability_gate guarded false (call "helm.cap.fs.read" "task-1") world w2 w3 /\
    Resolve "helm.cap.fs.read" reg = Some entry /\ mf_EffectClass (en_Manifest entry) <> EffectIrreversible /\
    use_ok signer reg {| us_Request := verify_request (rq_Context (call "helm.cap.fs.read" "task-1")) entry (token 2);
                         us_Now := (2 * second)%Z; us_Stored := stored |} /\
    uses tok (w_ext w3) = wrap64 (uses tok (w_ext w2) + 1).
Proof.
  assert (Hv : (verdict (call "helm.cap.fs.read" "task-1")).1 = Ok ("ALLOW", "")) by (vm_compute; reflexivity).
  unfold verdict in Hv.
  destruct (EvaluateDecision guarded false (call "helm.cap.fs.read" "task-1") world) as [w' [d|err]] eqn:E; [|discriminate Hv].
  destruct (allow_within_capability guarded signer reg plans decode (fun _ => (2 * second)%Z) id (fun s _ => s)
              "caps" caps "plans" undos false (call "helm.cap.fs.read" "task-1") world w' d (AString "helm.cap.fs.read"))
    as (w2 & w3 & id & entry & Run & [= <-] & Er & _ & _ & _ & Undo & Tok);
    [vm_compute; reflexivity|vm_compute; reflexivity|reflexivity|reflexivity|reflexivity|reflexivity|exact E|by injection Hv|vm_compute; reflexivity|].
  destruct (Tok ANil) as (presented & stored & [= <-] & _ & U & Us & _); [vm_compute; reflexivity|].
  exists w2, w3, entry, stored. split_and!; [exact Run|exact Er| |exact U|exact Us].
  destruct Undo as [->|[N _]]; [discriminate|exact N].
Defined.
End GovernedCapabilityDemo.
