(* ===== verification/GovernedStop.v ===== *)
(** The Guardian and the scoped emergency stops together ([core/pkg/guardian/interceptor.go] with
    [core/pkg/kernel/scoped_stop.go]): no dispatch in a scope whose fence has been acknowledged. *)
From S2P Require Import Prelude GoLib GoFmt GoTime Utf8 Jcs Contracts Signing KillSwitch Identity Egress Temporal Trust Prg AuditLog SafeDep PolicyScopes Guardian GuardianDemo GuardianProps GuardianGates ScopedStop.

Local Open Scope string_scope.

Definition no_fence : FenceState := {|
  fs_Scope := ("", ""); fs_ContractVersion := ""; fs_Audience := ""; fs_KeyID := ""; fs_CommandID := ""; fs_CommandHash := "";
  fs_Epoch := 0; fs_ActorID := ""; fs_Reason := ""; fs_IssuedAt := zero_time; fs_ExpiresAt := zero_time; fs_FencedAt := zero_time;
  fs_Identity := {| ak_KeyID := ""; ak_SignerProfile := ""; ak_PublicKey := "" |}; fs_ReceiptHash := "" |}.

(** [IsFenced] of a store whose table, and whatever decides if its statements fail, is part of the collaborators' state. *)
Definition IsFenced {Ext} (postgres : bool) (outcomes : Ext -> Outcomes) (table : Ext -> Table) (tenant workspace : string) (x : Ext)
    : Ext * res (FenceState * bool) :=
  (x, r ← Get postgres (outcomes x) (tenant, workspace) (table x);
      Ok match r with Some s => (s, true) | None => (no_fence, false) end).

Section Governed.
Context `{Hash} `{S : Signer} `{!SignerLaws S} `{Cel} `{Runtime} {Ext : Type}.

(** C11. An acknowledged emergency stop stops.  Some kernel process has acknowledged a fence for a tenant's workspace, and the Guardian,
    of this process or another, reads the fences from the same table, to which only fence calls write.  Then it allows
    no request in that scope: not after later fence calls, not when statements of the database fail, not whatever
    the request says or the other gates and collaborators answer. *)
Theorem acknowledged_stop_refuses (g : Guardian Ext) (postgres : bool) (outcomes : Ext -> Outcomes) (table : Ext -> Table)
    (es : list event) (s : FenceState) (b : bool) override req w w' d :
  g_scopedStopReader g = Some (IsFenced postgres outcomes table) ->
  forallb sane es = true -> (s, b) ∈ sy_acked (run es fresh) ->
  (forall x, exists es', forallb sane es' = true /\ table x = sy_table (run es' (run es fresh))) ->
  stringContextValue (rq_Context req) tenant_keys = Some (fs_Scope s).1 ->
  stringContextValue (rq_Context req) workspace_keys = Some (fs_Scope s).2 ->
  EvaluateDecision g override req w = (w', Ok d) ->
  dr_Verdict d <> VerdictAllow.
Proof.
  intros Gr Se Hs Tb Te We. apply emergency_refused. right. left. exists (IsFenced postgres outcomes table). split; [done|].
  intros t ws x st Ht Hw. change (context (initial_context g req)) with (rq_Context req) in Ht, Hw. rewrite Te in Ht. rewrite We in Hw.
  injection Ht as <-. injection Hw as <-.
  destruct (Tb x) as (es' & Se' & Ex). destruct (acked_scope_fenced es es' s b Se Se' Hs) as [r L].
  unfold IsFenced. cbn [snd]. rewrite <- surjective_pairing, Ex. pose proof (fenced_not_free postgres (outcomes x) _ _ _ L) as N.
  destruct (Get postgres (outcomes x) (fs_Scope s) (sy_table (run es' (run es fresh)))) as [[cur|]|]; done.
Qed.
End Governed.

(** * An instance *)

Module GovernedStopDemo.
#[local] Existing Instance ScopedStopDemo.toy_hash.
#[local] Existing Instance toy_ed25519.
#[local] Existing Instance toy_ed25519_laws.
#[local] Instance authority : Signer := ed25519_signer (NewEd25519SignerFromKey [] "k1").
#[local] Instance authority_ok : SignerLaws authority := ed25519_laws [] "k1".
#[local] Existing Instance Demo.cel.
#[local] Existing Instance Demo.runtime.
#[local] Existing Instance Demo.Guardian_eta.

(** The state of the collaborators is not used; the table is the one two racing commands left. *)
Definition table : Table := sy_table (run ScopedStopDemo.race fresh).
Definition stopped : Guardian Z :=
  Demo.guardian <| g_scopedStopReader := Some (IsFenced true (fun _ => all_done) (fun _ => table)) |>.
Definition call (workspace : string) : DecisionRequest :=
  Demo.call "read_file" (Some {["tenant_id" := AString "acme"; "workspace_id" := AString workspace]}).

Example stopped_verdicts :
  map (fun ws => (Demo.verdict_of (EvaluateDecision stopped false (call ws) Demo.world)).1) ["prod"; "staging"; ""]
  = [Ok ("DENY", "EMERGENCY_STOP_FENCED"); Ok ("ALLOW", ""); Ok ("DENY", "EMERGENCY_STOP_SCOPE_REQUIRED")].
Proof. vm_compute. reflexivity. Qed.

Lemma refused : (Demo.verdict_of (EvaluateDecision stopped false (call "prod") Demo.world)).1 = Ok ("DENY", "EMERGENCY_STOP_FENCED").
Proof. vm_compute. reflexivity. Qed.
Lemma race_scopes : Forall (fun x => fs_Scope x.1 = ("acme", "prod")) (sy_acked (run ScopedStopDemo.race fresh)).
Proof. vm_compute. repeat constructor. Qed.

Lemma acknowledged_stop_refuses_witness : exists d,
  (EvaluateDecision stopped false (call "prod") Demo.world).2 = Ok d /\ dr_Verdict d <> VerdictAllow.
Proof.
  pose proof refused as Hv. destruct (EvaluateDecision stopped false (call "prod") Demo.world) as [w' [d|err]] eqn:E; [|discriminate Hv].
  exists d. split; [reflexivity|]. pose proof ScopedStopDemo.two_acked as V. pose proof race_scopes as Sc.
  destruct (sy_acked (run ScopedStopDemo.race fresh)) as [|[s b] l] eqn:Ea; [exfalso; exact V|].
  inversion Sc as [|? ? Es _]; subst. cbn [fst] in Es.
  apply (acknowledged_stop_refuses stopped true (fun _ => all_done) (fun _ => table) ScopedStopDemo.race s b false (call "prod") Demo.world w' d).
  - reflexivity.
  - exact (proj1 ScopedStopDemo.runs_sane).
  - rewrite Ea. left.
  - intros _. exists []. split; reflexivity.
  - rewrite Es. reflexivity.
  - rewrite Es. reflexivity.
  - exact E.
Defined.
End GovernedStopDemo.
