(* ===== verification/SessionRisk.v ===== *)
(** Session risk memory, [core/pkg/guardian/session_risk_memory.go]: the trajectory score that the Guardian's
    session-risk gate compares with a threshold.

    Scores are IEEE 754 doubles, computed in the order of the source and without fused operations.  The readings of
    the clock within one [Evaluate] are one value: only the last is kept.  The mutex makes each [Evaluate] atomic.

    The theorems are about what the score depends on: its own session only, at most a window of actions, and, when the
    request carries a history, nothing of what the memory has seen. *)
From Stdlib Require Import SpecFloat Ascii.
From S2P Require Import Prelude GoLib GoFmt Utf8 Jcs Contracts Guardian.

Local Open Scope string_scope.

(** * Doubles *)

(** A decimal constant of the source: [d] units of the [k]th decimal. *)
Definition flit (d k : Z) : float64 := round_dec d (- k).
Definition fzero : float64 := S754_zero false.
Definition fone : float64 := of_int 1.

(** [math.Round] *)
Definition fround (f : float64) : float64 :=
  match f with
  | S754_finite s m e =>
      if (0 <=? e)%Z then f
      else let a := ((Z.pos m + 2 ^ (- e - 1)) / 2 ^ (- e))%Z in
           if (a =? 0)%Z then S754_zero s else binary_normalize prec emax (if s then - a else a)%Z 0 s
  | _ => f
  end.

Definition clampRisk (v : float64) : float64 :=
  if flt v fzero then fzero else if flt fone v then fone else v.

Definition roundRisk (v : float64) : float64 := fdiv (fround (fmul v (of_int 10000))) (of_int 10000).

Definition minInt (a b : Z) : Z := if (a <? b)%Z then a else b.

(** * Configuration and state *)

Definition defaultSessionRiskAlpha : float64 := flit 5 1.
Definition defaultSessionRiskBaseline : float64 := flit 8 2.
Definition defaultSessionRiskThreshold : float64 := flit 38 2.
Definition defaultSessionRiskWindow : Z := 8.

Record sessionRiskState := {
  st_centroid : float64 * float64 * float64;
  st_score : float64;
  st_count : Z;
  st_updated : time;
}.

Definition zero_state : sessionRiskState := {|
  st_centroid := (fzero, fzero, fzero); st_score := fzero; st_count := 0; st_updated := zero_time |}.

Record Memory := {
  srm_sessions : gmap string sessionRiskState;
  srm_alpha : float64;
  srm_baseline : float64;
  srm_threshold : float64;
  srm_window : Z;
}.

#[export] Instance Memory_eta : Eta Memory := fun m => {|
  srm_sessions := srm_sessions m; srm_alpha := srm_alpha m; srm_baseline := srm_baseline m;
  srm_threshold := srm_threshold m; srm_window := srm_window m |}.

Definition WithSessionRiskThreshold (threshold : float64) (m : Memory) : Memory := m <| srm_threshold := threshold |>.
Definition WithSessionRiskAlpha (alpha : float64) (m : Memory) : Memory := m <| srm_alpha := alpha |>.
Definition WithSessionRiskWindow (window : Z) (m : Memory) : Memory := m <| srm_window := window |>.

Definition NewSessionRiskMemory (opts : list (Memory -> Memory)) : Memory :=
  let m := foldl (fun m opt => opt m) {|
    srm_sessions := ∅; srm_alpha := defaultSessionRiskAlpha; srm_baseline := defaultSessionRiskBaseline;
    srm_threshold := defaultSessionRiskThreshold; srm_window := defaultSessionRiskWindow |} opts in
  {| srm_sessions := srm_sessions m; srm_alpha := clampRisk (srm_alpha m); srm_baseline := clampRisk (srm_baseline m);
     srm_threshold := clampRisk (srm_threshold m);
     srm_window := if (srm_window m <? 1)%Z then defaultSessionRiskWindow else srm_window m |}.

(** * Signals *)

Definition upper_ascii (c : ascii) : ascii :=
  let n := nat_of_ascii c in if ((97 <=? n) && (n <=? 122))%nat then ascii_of_nat (n - 32) else c.
Definition to_upper (s : string) : string := of_bytes (map upper_ascii (to_bytes s)).

Definition keywordScore (text : string) (keywords : list string) : float64 :=
  clampRisk (foldl (fun score keyword => if contains text keyword then fadd score (flit 22 2) else score) fzero keywords).

Definition exfiltration_words : list string :=
  ["secret"; "credential"; "token"; "api_key"; "apikey"; "pii"; "customer"; "export"; "upload"; "external"; "webhook";
   "exfil"; "/etc/passwd"; "/etc/shadow"; "database"; "dump"; "archive"].
Definition privilege_words : list string :=
  ["sudo"; "admin"; "root"; "privilege"; "permission"; "merge"; "deploy"; "publish"; "delete"; "write"; "iam"; "role";
   "policy"; "shell"; "exec"].
Definition compliance_words : list string :=
  ["hipaa"; "gdpr"; "sox"; "compliance"; "audit"; "regulated"; "customer_data"; "phi"; "pci"; "retention"].

Definition stableRiskContextText (context : ctx) : string :=
  match context with
  | None => ""
  | Some m => if Nat.eqb (size m) 0 then ""
              else match json_of_obj m with Ok j => of_bytes (json_marshal j) | Fail _ => "" end
  end.

Record sessionRiskSignal := {
  sg_exfiltration : float64;
  sg_privilege : float64;
  sg_compliance : float64;
  sg_risk : float64;
}.

Definition signalFromSessionAction (action : SessionAction) (context : ctx) : sessionRiskSignal :=
  let text := to_lower (sa_Action action +:+ " " +:+ sa_Resource action +:+ " " +:+ stableRiskContextText context) in
  let exfiltration := keywordScore text exfiltration_words in
  let privilege := keywordScore text privilege_words in
  let compliance := keywordScore text compliance_words in
  let risk := fadd (fadd (fadd (flit 8 2) (fmul (flit 60 2) exfiltration)) (fmul (flit 38 2) privilege))
                (fmul (flit 26 2) compliance) in
  let verdict := to_upper (sa_Verdict action) in
  let risk := if String.eqb verdict "DENY" then fadd risk (flit 18 2)
              else if String.eqb verdict "ESCALATE" then fadd risk (flit 12 2) else risk in
  let risk := if existsb (String.eqb (to_upper (sa_Action action)))
                   ["EXECUTE_TOOL"; "WRITE"; "DELETE"; "PUBLISH"; "DEPLOY"]
              then fadd risk (flit 5 2) else risk in
  {| sg_exfiltration := exfiltration; sg_privilege := privilege; sg_compliance := compliance; sg_risk := clampRisk risk |}.

(** * Evaluation *)

Definition trimSessionRiskHistory (history : list SessionAction) (max : Z) : list SessionAction :=
  if (max <=? 0)%Z || (Z.of_nat (length history) <=? max)%Z then history
  else drop (length history - Z.to_nat max) history.

Definition observe (now : time) (m : Memory) (state : sessionRiskState) (signal : sessionRiskSignal) : sessionRiskState :=
  let adjustedRisk := clampRisk (fsub (sg_risk signal) (srm_baseline m)) in
  let alpha := srm_alpha m in
  let mix new old := fadd (fmul alpha new) (fmul (fsub fone alpha) old) in
  let '(centroid, score) :=
    if (st_count state =? 0)%Z then ((sg_exfiltration signal, sg_privilege signal, sg_compliance signal), adjustedRisk)
    else let '(c0, c1, c2) := st_centroid state in
         ((mix (sg_exfiltration signal) c0, mix (sg_privilege signal) c1, mix (sg_compliance signal) c2),
          mix adjustedRisk (st_score state)) in
  let count := (st_count state + 1)%Z in
  {| st_centroid := centroid; st_score := roundRisk score;
     st_count := if (srm_window m <? count)%Z then srm_window m else count; st_updated := now |}.

Section Risk.
Context `{Hash}.

(** The payload cannot be encoded when a coordinate is not a number; the digest is then that of no bytes. *)
Definition hashSessionCentroid (sessionID : string) (centroid : float64 * float64 * float64) (window : Z) : string :=
  let '(c0, c1, c2) := centroid in
  let data :=
    match json_float (roundRisk c0), json_float (roundRisk c1), json_float (roundRisk c2) with
    | Some f0, Some f1, Some f2 =>
        json_marshal (JObj [("session_id", JStr sessionID); ("centroid", JArr [JNum f0; JNum f1; JNum f2]);
                            ("window", JNum (dec window))])
    | _, _, _ => []
    end in
  "sha256:" +:+ hex_encode (sha256 data).

(** [SessionRiskSnapshot] with the two fields the Guardian does not read. *)
Record Snapshot := {
  sp_SessionID : string;
  sp_TrajectoryRiskScore : float64;
  sp_SessionCentroidHash : string;
  sp_RiskAccumulationWindow : Z;
  sp_UpdatedAt : time;
}.

Definition snapshot (state : sessionRiskState) (sessionID : string) (window : Z) : Snapshot := {|
  sp_SessionID := sessionID; sp_TrajectoryRiskScore := roundRisk (st_score state);
  sp_SessionCentroidHash := hashSessionCentroid sessionID (st_centroid state) (minInt (st_count state) window);
  sp_RiskAccumulationWindow := minInt (st_count state) window; sp_UpdatedAt := st_updated state |}.

Definition session_key (sessionID : string) : string :=
  let sessionID := trim_space sessionID in if String.eqb sessionID "" then "anonymous" else sessionID.

Definition current_action (now : time) (current : DecisionRequest) : SessionAction := {|
  sa_Action := rq_Action current; sa_Resource := rq_Resource current; sa_Verdict := VerdictPending;
  sa_Timestamp := (now / millisecond)%Z |}.

(** The state before the current action: the stored one, or the replay of the history. *)
Definition start_state (now : time) (m : Memory) (stored : sessionRiskState) (history : list SessionAction)
    : sessionRiskState :=
  if negb (Nat.eqb (length history) 0) || (st_count stored =? 0)%Z
  then foldl (fun s action => observe now m s (signalFromSessionAction action None)) zero_state
         (trimSessionRiskHistory history (srm_window m - 1))
  else stored.

Definition Evaluate (now : time) (sessionID : string) (history : list SessionAction) (current : DecisionRequest)
    (m : Memory) : Memory * Snapshot :=
  let sessionID := session_key sessionID in
  let state := start_state now m (default zero_state (srm_sessions m !! sessionID)) history in
  let state := observe now m state (signalFromSessionAction (current_action now current) (rq_Context current)) in
  (m <| srm_sessions := <[sessionID := state]> (srm_sessions m) |>, snapshot state sessionID (srm_window m)).

Definition ShouldDeny (m : Memory) (s : Snapshot) : bool :=
  (2 <=? sp_RiskAccumulationWindow s)%Z && fle (srm_threshold m) (sp_TrajectoryRiskScore s).
End Risk.

(** * What the memory keeps *)

(** Every stored session has seen between one action and a window of them. *)
Definition memory_wf (m : Memory) : Prop :=
  (1 <= srm_window m)%Z /\ map_Forall (fun _ st => (1 <= st_count st <= srm_window m)%Z) (srm_sessions m).

(** Two memories with the same settings, whatever they have seen. *)
Definition same_settings (m m' : Memory) : Prop :=
  srm_alpha m = srm_alpha m' /\ srm_baseline m = srm_baseline m' /\ srm_threshold m = srm_threshold m' /\
  srm_window m = srm_window m'.

#[export] Instance same_settings_equiv : Equivalence same_settings.
Proof. unfold same_settings. split; red; intuition congruence. Qed.

Lemma observe_settings now m m' s g : same_settings m m' -> observe now m s g = observe now m' s g.
Proof. intros (Ea & Eb & _ & Ew). unfold observe. by rewrite Ea, Eb, Ew. Qed.

Lemma observe_count now m s g :
  (1 <= srm_window m)%Z -> (0 <= st_count s <= srm_window m)%Z ->
  st_count (observe now m s g) = minInt (st_count s + 1) (srm_window m) /\
  (1 <= st_count (observe now m s g) <= srm_window m)%Z.
Proof.
  intros Hw Hs. unfold observe, minInt. destruct (if (st_count s =? 0)%Z then _ else _) as [c sc]. cbn.
  destruct (Z.ltb_spec (srm_window m) (st_count s + 1)), (Z.ltb_spec (st_count s + 1) (srm_window m)); lia.
Qed.

(** An option that configures and does not fill the memory, as the package's options. *)
Definition configures (o : Memory -> Memory) : Prop := forall m, srm_sessions (o m) = srm_sessions m.

Lemma options_configure x w :
  configures (WithSessionRiskThreshold x) /\ configures (WithSessionRiskAlpha x) /\ configures (WithSessionRiskWindow w).
Proof. done. Qed.

Lemma new_memory_empty opts : Forall configures opts -> srm_sessions (NewSessionRiskMemory opts) = ∅.
Proof.
  intros Ho. cbn. match goal with |- context [foldl _ ?m0 opts] => assert (E : srm_sessions m0 = ∅) by done; revert E; generalize m0 end.
  induction Ho as [|o opts Hx Ho IH]; intros m E; cbn; [done|]. apply IH. by rewrite Hx.
Qed.

Lemma new_memory_wf opts : Forall configures opts -> memory_wf (NewSessionRiskMemory opts).
Proof.
  intros Ho. split; [|rewrite new_memory_empty by done; apply map_Forall_empty]. cbn -[Z.ltb].
  match goal with |- context [(?a <? 1)%Z] => destruct (Z.ltb_spec a 1) end; [done|lia].
Qed.

Lemma minInt_bounds a w : (1 <= a <= w)%Z -> (1 <= minInt a w <= w)%Z.
Proof. unfold minInt. destruct (Z.ltb_spec a w); lia. Qed.

Section Facts.
Context `{Hash}.

Definition replay (now : time) (m : Memory) (actions : list SessionAction) : sessionRiskState :=
  foldl (fun s a => observe now m s (signalFromSessionAction a None)) zero_state actions.

Lemma replay_settings now m m' actions : same_settings m m' -> replay now m actions = replay now m' actions.
Proof.
  intros Hm. unfold replay. generalize zero_state. induction actions as [|a l IH]; intros s; cbn; [done|].
  by rewrite (observe_settings now m m'), IH.
Qed.

Lemma replay_count now m actions : (1 <= srm_window m)%Z -> (0 <= st_count (replay now m actions) <= srm_window m)%Z.
Proof.
  intros Hw. unfold replay.
  assert (Hz : (0 <= st_count zero_state <= srm_window m)%Z) by (cbn; lia). revert Hz. generalize zero_state.
  induction actions as [|a l IH]; intros s Hs; cbn; [done|]. apply IH.
  destruct (observe_count now m s (signalFromSessionAction a None) Hw Hs). lia.
Qed.

Lemma start_state_history now m stored history :
  history <> [] -> start_state now m stored history = replay now m (trimSessionRiskHistory history (srm_window m - 1)).
Proof. intros Hh. unfold start_state. by destruct history. Qed.

Lemma start_state_count now m sid history :
  memory_wf m ->
  (0 <= st_count (start_state now m (default zero_state (srm_sessions m !! sid)) history) <= srm_window m)%Z.
Proof.
  intros [Hw Hs]. unfold start_state. destruct (_ || _); [by apply replay_count|].
  destruct (srm_sessions m !! sid) as [st|] eqn:E; cbn; [|lia]. pose proof (Hs sid st E) as Hst. cbn in Hst. lia.
Qed.

(** One evaluation keeps the memory well formed, touches no other session and reports a window in range. *)
Lemma evaluate_spec now sid history req m m' s :
  memory_wf m -> Evaluate now sid history req m = (m', s) ->
  memory_wf m' /\ same_settings m m' /\
  (forall other, other <> session_key sid -> srm_sessions m' !! other = srm_sessions m !! other) /\
  (1 <= sp_RiskAccumulationWindow s <= srm_window m)%Z /\ sp_SessionID s = session_key sid.
Proof.
  intros Hm [= <- <-]. pose proof (start_state_count now m (session_key sid) history Hm) as Hc.
  pose proof (observe_count now m _ (signalFromSessionAction (current_action now req) (rq_Context req)) (proj1 Hm) Hc) as [_ Ho].
  split; [split; [apply Hm|apply map_Forall_insert_2; [exact Ho|apply Hm]]|]. split; [done|].
  split; [intros other Hne; by apply lookup_insert_ne|]. split; [|done]. by apply minInt_bounds.
Qed.

(** A sequence of evaluations. *)
Record call := { ca_now : time; ca_session : string; ca_history : list SessionAction; ca_request : DecisionRequest }.
Definition evaluate_all (calls : list call) (m : Memory) : Memory :=
  foldl (fun m c => fst (Evaluate (ca_now c) (ca_session c) (ca_history c) (ca_request c) m)) m calls.

Lemma evaluate_all_spec calls m :
  memory_wf m ->
  memory_wf (evaluate_all calls m) /\ same_settings m (evaluate_all calls m) /\
  forall sid, Forall (fun c => session_key (ca_session c) <> sid) calls ->
    srm_sessions (evaluate_all calls m) !! sid = srm_sessions m !! sid.
Proof.
  revert m. induction calls as [|c calls IH]; intros m Hm; [done|]. cbn [evaluate_all foldl].
  destruct (Evaluate (ca_now c) (ca_session c) (ca_history c) (ca_request c) m) as [m1 s] eqn:E.
  destruct (evaluate_spec _ _ _ _ _ _ _ Hm E) as (Hm1 & Hs & Ho & _). destruct (IH m1 Hm1) as (Hw & Hs' & Ho').
  split; [exact Hw|]. split; [by etrans|]. intros sid [Hne Hf]%Forall_cons. etrans; [by apply Ho'|]. apply Ho. congruence.
Qed.

Lemma snapshot_of_history now sid history req m m' :
  history <> [] -> same_settings m m' -> (Evaluate now sid history req m).2 = (Evaluate now sid history req m').2.
Proof.
  intros Hh Hs. unfold Evaluate. cbn [snd]. rewrite !start_state_history by done.
  rewrite (replay_settings now m m'), (observe_settings now m m') by done.
  destruct Hs as (_ & _ & _ & ->). done.
Qed.

Lemma first_action_window now sid req m :
  (2 <= srm_window m)%Z -> srm_sessions m !! session_key sid = None ->
  sp_RiskAccumulationWindow (Evaluate now sid [] req m).2 = 1%Z.
Proof.
  intros Hw Hn. unfold Evaluate. rewrite Hn. cbn [snd snapshot sp_RiskAccumulationWindow default].
  assert (E : start_state now m zero_state [] = zero_state).
  { unfold start_state, trimSessionRiskHistory. cbn. destruct ((_ <=? 0)%Z || _); [done|]. by destruct (Z.to_nat _). }
  rewrite E. destruct (observe_count now m zero_state (signalFromSessionAction (current_action now req) (rq_Context req)))
    as [-> _]; [lia|cbn; lia|].
  assert (E1 : minInt 1 (srm_window m) = 1%Z) by (unfold minInt; by rewrite (proj2 (Z.ltb_lt _ _)) by lia).
  change (st_count zero_state + 1)%Z with 1%Z. by rewrite !E1.
Qed.

(** The memory scores a session by that session: after any evaluations, a memory made by [NewSessionRiskMemory]
    with options that only configure it keeps between one and [window] actions per session and its settings, evaluating one session changes no other, and
    a session it has not seen is never denied at its first action without a history. *)
Theorem session_risk_isolated now opts calls sid req :
  Forall configures opts ->
  let m := evaluate_all calls (NewSessionRiskMemory opts) in
  memory_wf m /\ same_settings (NewSessionRiskMemory opts) m /\
  (forall history m' s, Evaluate now sid history req m = (m', s) ->
     (1 <= sp_RiskAccumulationWindow s <= srm_window m)%Z /\
     forall other, other <> session_key sid -> srm_sessions m' !! other = srm_sessions m !! other) /\
  (Forall (fun c => session_key (ca_session c) <> session_key sid) calls ->
     ShouldDeny m (Evaluate now sid [] req m).2 = false).
Proof.
  intros Ho m. pose proof (new_memory_wf opts Ho) as H0. destruct (evaluate_all_spec calls _ H0) as (Hm & Hs & Hu).
  fold m in Hm, Hs, Hu. split; [done|]. split; [done|]. split.
  - intros history m' s E. destruct (evaluate_spec _ _ _ _ _ _ _ Hm E) as (_ & _ & Hf & Hw & _). done.
  - intros Hc. unfold ShouldDeny. destruct (decide (2 <= srm_window m)%Z) as [H2|H2].
    + rewrite first_action_window; [done|done|]. by rewrite Hu, new_memory_empty, lookup_empty by done.
    + destruct (Evaluate now sid [] req m) as [m' s] eqn:E. destruct (evaluate_spec _ _ _ _ _ _ _ Hm E) as (_ & _ & _ & Hw & _).
      cbn [snd]. rewrite (proj2 (Z.leb_gt _ _)) by lia. done.
Qed.

(** C40. A history in the request replaces the memory: when a request carries any history, the score, the window and
    the denial depend on that history and the request alone, whatever the memory has recorded of the session; with a
    window of at least two, only its last [window - 1] actions count. *)
Theorem history_replaces_memory now sid history req m calls :
  memory_wf m -> history <> [] ->
  let m' := evaluate_all calls m in
  (Evaluate now sid history req m').2 = (Evaluate now sid history req m).2 /\
  ShouldDeny m' (Evaluate now sid history req m').2 = ShouldDeny m (Evaluate now sid history req m).2 /\
  ((2 <= srm_window m)%Z ->
   (Evaluate now sid (drop (length history - Z.to_nat (srm_window m - 1)) history) req m).2 = (Evaluate now sid history req m).2).
Proof.
  intros Hm Hh m'. destruct (evaluate_all_spec calls m Hm) as (_ & Hs & _). fold m' in Hs.
  assert (E : (Evaluate now sid history req m').2 = (Evaluate now sid history req m).2)
    by (symmetry; by apply snapshot_of_history).
  split; [exact E|]. split; [rewrite E; unfold ShouldDeny; by destruct Hs as (_ & _ & -> & _)|].
  intros Hw. set (n := Z.to_nat (srm_window m - 1)). assert (Hn : (1 <= n)%nat) by lia.
  assert (Hd : drop (length history - n) history <> []).
  { intros F%(f_equal length). rewrite length_drop in F. destruct history; [done|cbn [length] in F; lia]. }
  unfold Evaluate. cbn [snd]. rewrite !start_state_history by done. do 3 f_equal.
  unfold trimSessionRiskHistory. rewrite (proj2 (Z.leb_gt (srm_window m - 1) 0)) by lia. cbn [orb]. fold n.
  rewrite length_drop. rewrite (proj2 (Z.leb_le _ (srm_window m - 1))) by lia.
  destruct (Z.leb_spec (Z.of_nat (length history)) (srm_window m - 1)); [|done].
  by replace (length history - n)%nat with 0%nat by lia.
Qed.
End Facts.

(** A window of one action never denies: a denial asks for two. *)
Lemma window_one_never_denies `{Hash} now sid history req m :
  memory_wf m -> srm_window m = 1%Z -> ShouldDeny m (Evaluate now sid history req m).2 = false.
Proof.
  intros Hm Hw. destruct (Evaluate now sid history req m) as [m' s] eqn:E.
  destruct (evaluate_spec _ _ _ _ _ _ _ Hm E) as (_ & _ & _ & Hs & _). unfold ShouldDeny. cbn [snd].
  by rewrite (proj2 (Z.leb_gt _ _)) by lia.
Qed.

(** * Worked examples *)

Module SessionRiskDemo.
#[local] Instance toy : Hash := fun b => b.

Definition request (action resource : string) : DecisionRequest := {|
  rq_Principal := "agent-1"; rq_Action := action; rq_Resource := resource; rq_Context := None; rq_SessionHistory := [] |}.
Definition done_ (action resource : string) : SessionAction := {|
  sa_Action := action; sa_Resource := resource; sa_Verdict := "ALLOW"; sa_Timestamp := 0 |}.

Definition risky : call := {| ca_now := 0; ca_session := "s1"; ca_history := [];
  ca_request := request "EXPORT" "customer pii database dump" |}.
Definition fresh : Memory := NewSessionRiskMemory [].
Definition export : DecisionRequest := request "EXECUTE_TOOL" "external webhook upload".
Definition benign : list SessionAction := repeat (done_ "READ" "docs") 7.

(** What two risky actions have built up denies the export; the same memory asked with a harmless history allows it. *)
Example laundered :
  let m := evaluate_all [risky; risky] fresh in
  (ShouldDeny m (Evaluate 0 "s1" [] export m).2, ShouldDeny m (Evaluate 0 "s1" benign export m).2) = (true, false).
Proof. vm_compute. reflexivity. Qed.

(** A slow burn over three allowed actions: the fourth is denied. *)
Example slow_burn :
  let s := (Evaluate 0 "slow-burn-session"
    [done_ "READ" "db://customer database"; done_ "EXPORT" "customer records partial dump";
     done_ "EXECUTE_TOOL" "external upload customer sample"]
    {| rq_Principal := "agent-1"; rq_Action := "EXECUTE_TOOL"; rq_Resource := "webhook:post";
       rq_Context := Some {["session_id" := AString "slow-burn-session"; "payload" := AString "customer pii export archive";
                            "destination" := AString "https://external.example/webhook"]};
       rq_SessionHistory := [] |} fresh).2 in
  (sp_RiskAccumulationWindow s, ShouldDeny fresh s) = (4%Z, true).
Proof. vm_compute. reflexivity. Qed.

(** Three harmless reads are not. *)
Example low_risk :
  let s := (Evaluate 0 "safe-session" [done_ "READ" "docs://overview"; done_ "READ" "docs://faq"]
    (request "READ" "docs://runbook") fresh).2 in
  (sp_RiskAccumulationWindow s, ShouldDeny fresh s) = (3%Z, false).
Proof. vm_compute. reflexivity. Qed.

Lemma fresh_wf : memory_wf fresh.
Proof. apply new_memory_wf. constructor. Qed.

Lemma session_risk_isolated_witness :
  ShouldDeny (evaluate_all [risky; risky] fresh) (Evaluate 0 "s2" [] export (evaluate_all [risky; risky] fresh)).2 = false.
Proof.
  refine (proj2 (proj2 (proj2 (session_risk_isolated 0 [] [risky; risky] "s2" export _))) _).
  - constructor.
  - repeat constructor; discriminate.
Defined.

Lemma history_replaces_memory_witness :
  (Evaluate 0 "s1" benign export (evaluate_all [risky; risky] fresh)).2 = (Evaluate 0 "s1" benign export fresh).2.
Proof. refine (proj1 (history_replaces_memory 0 "s1" benign export fresh [risky; risky] fresh_wf _)). discriminate. Defined.
End SessionRiskDemo.
